(* ===== verification/_CoqProject ===== *)
-Q . S2P
Prelude.v
OrderedDict.v
Runs.v
PyStr.v
PyNum.v
Sha256.v
CacheKey.v
Gen.v
TokenDatabase.v
Evictor.v
GpuFS.v
GeminiBackend.v
Engine.v
TaskQueue.v
ReqMeta.v
Connector.v
Worker.v
Controller.v
Simulator.v
FreeQueue.v
BlockHash.v
BlockPool.v
KVSpec.v
CacheHit.v
SingleTypeManager.v
CacheCoordinator.v
HybridHit.v
KVCacheManager.v
AllocationBudget.v
TableHashes.v
KVCacheDemo.v
EncoderCache.v
EncoderSchedule.v
EncoderDemo.v
HeapQ.v
RequestQueue.v
SchedRequest.v
Scheduler.v
SchedulerLaws.v
EncoderContract.v
KVContract.v
SchedulerRun.v
SchedulerTurn.v
SchedulerWait.v
SchedulerFrame.v
SchedulerStep.v
SchedulerLeave.v
SchedulerResult.v
SchedulerCalls.v
FailedLoads.v
SchedulerFailure.v
SchedulerTrace.v
Serving.v
SchedulerDemo.v
Offload.v
OffloadLru.v
OffloadArc.v
OffloadSpec.v
ServingDemo.v
FailureDemo.v
OffloadTransfer.v
OffloadWorker.v
OffloadConnector.v
OffloadProtocol.v
OffloadData.v
OffloadSystem.v
OffloadDemo.v
