(* ===== verification/Prelude.v ===== *)
(** * InfiniKV: a verification development of its caching core

    InfiniKV keeps the key-value (KV) cache of a language model beyond GPU memory: blocks
    of tokens that vLLM has computed are written, layer by layer, to GPU-accessible files
    on NVMe (GeminiFS), and read back when a later prompt begins with the same tokens.
    The repository holds the package [src/infinikv] and a fork of vLLM,
    [src/vllm-infinikv], which calls it through a KV connector.

    ** The program's parts and how they interact

    On the scheduler's side, the connector ([Connector.v]) asks the cache engine how long a
    prefix of a prompt is stored, promises these tokens to vLLM's scheduler, follows its
    block allocations and describes each step to the workers ([ReqMeta.v]).  On a worker,
    the connector ([Worker.v]) starts the loads, waits layer by layer, and saves the new
    blocks, either in the forward pass or from a queue of tasks ([TaskQueue.v]) whose
    budget the I/O simulator computes ([Simulator.v]).  Both sides call the engine
    ([Engine.v]), which cuts tokens into chunks and names each by a chained SHA-256 hash of
    the prefix it ends ([TokenDatabase.v], [Sha256.v], [CacheKey.v]), and finds, allocates
    and moves the chunks' files through the storage backend ([GeminiBackend.v]), which
    stands on the file store's binding ([GpuFS.v]).  The cache controller ([Controller.v])
    follows which instance holds which chunk.  Inside vLLM, the block pool ([BlockPool.v])
    hands out the GPU blocks that the above fills: a doubly linked free list in the order
    of eviction ([FreeQueue.v]) and a map from block hashes ([BlockHash.v]) to blocks.
    Above it, one manager per attention type keeps the tables of the blocks that requests
    hold ([SingleTypeManager.v]) and searches the prefix cache ([CacheHit.v]); a coordinator
    ([CacheCoordinator.v]) calls the managers of a model's groups in order, and the KV cache
    manager ([KVCacheManager.v]) is what the scheduler sees of them.  The scheduler
    ([Scheduler.v]) takes requests ([SchedRequest.v]) from a queue ([RequestQueue.v]), gives
    tokens of a step to them, asks the KV cache manager for slots, the encoder cache
    ([EncoderCache.v], [EncoderSchedule.v]) for places and the connector for stored tokens,
    preempts requests when blocks run out, and takes the output of the model back.
    Beside it, vLLM can offload blocks to CPU memory: a manager ([OffloadLru.v] or
    [OffloadArc.v], chosen in [OffloadSpec.v]) decides which blocks a backend ([Offload.v])
    has places for; a connector stores and loads them, whose scheduler's side
    ([OffloadConnector.v]) asks the manager and describes the transfers of a step, and whose
    workers' side ([OffloadWorker.v]) submits them to the device ([OffloadTransfer.v]) and
    reports those that are over.

    ** The files

    - [Prelude.v]: exceptions and results; statements over a mutable state ([py S A], a
      state monad whose state survives an exception) with [for_each] and [map_each]; Python's
      integer division, slices, indices and ranges; the invariants of loops; tactics and
      hint databases.
    - [OrderedDict.v]: dictionaries in insertion order.  [PyStr.v]: [str(int)], [int(str)],
      [split], ASCII encoding.  [PyNum.v]: floats, and their union with integers.
      [Gen.v]: lazy generators.  [Sha256.v]: an executable [hashlib.sha256], its constants
      computed from the primes.
    - [CacheKey.v]: [infinikv/utils.py], the keys and their strings.
    - [TokenDatabase.v]: [v1/token_database.py]; [Module Chunked] is [ChunkedTokenDatabase],
      [Module Segment] is [SegmentTokenDatabase].
    - [Evictor.v]: [v1/storage_backend/evictor].
    - [GpuFS.v]: [_custom_ops.py] over the contract of a file store ([FileStore],
      [FileStoreLaws]), and an instance of the contract after [libgeminifs].
    - [GeminiBackend.v]: [v1/storage_backend/geminifs_backend.py].  The state is the index
      [dict], the usage, the file store, the KV caches and the load stream as a queue of
      reads that take effect when the stream is waited for.
    - [Engine.v]: [v1/infinikv_engine.py]; [Module Builder] is the registry of engines.
    - [TaskQueue.v], [ReqMeta.v], [Connector.v], [Worker.v]:
      [integration/vllm/vllm_v1_adapter.py] and [integration/vllm/utils.py], by class and
      by side; [Module Worker.Align] is the alignment in vLLM's [infinikv_connector.py].
    - [Controller.v]: [v1/cache_controller].  [Simulator.v]: [v1/simulator.py].
    - [FreeQueue.v], [BlockHash.v]: [vllm/v1/core/kv_cache_utils.py] and the token list of
      [vllm/v1/request.py].  [BlockPool.v]: [vllm/v1/core/block_pool.py]; [Module BlockMap]
      is [BlockHashToBlockMap].
    - [KVSpec.v]: the specifications of [vllm/v1/kv_cache_interface.py].  [CacheHit.v],
      [SingleTypeManager.v]: [vllm/v1/core/single_type_kv_cache_manager.py], the class
      methods [find_longest_cache_hit] and the rest; a method that a subclass overrides is a
      definition that dispatches on the specification, the base class's is [base_...].
      [Module Held] counts references by multisets.  [CacheCoordinator.v]:
      [vllm/v1/core/kv_cache_coordinator.py], its subclasses as [variant].
      [KVCacheManager.v]: [vllm/v1/core/kv_cache_manager.py] and the [PrefixCacheStats] of
      [vllm/v1/metrics/stats.py].  [HybridHit.v], [AllocationBudget.v]: theorems on the
      hybrid search and on [allocate_slots].  [TableHashes.v]: how the blocks of a table and
      the cached blocks of the pool correspond.  [KVCacheDemo.v]: sessions at concrete states.
    - [EncoderCache.v]: [vllm/v1/core/encoder_cache_manager.py], both managers as instances of
      one interface.  [EncoderSchedule.v]: the encoder inputs of a step.  [EncoderDemo.v]:
      concrete runs.
    - [HeapQ.v]: Python's [heapq].  [RequestQueue.v]: [vllm/v1/core/sched/request_queue.py],
      both queues as instances of the interface of the scheduler.  [SchedRequest.v]:
      [vllm/v1/request.py], the stop conditions of [vllm/v1/core/sched/utils.py].
    - [Scheduler.v]: [vllm/v1/core/sched/scheduler.py] and [async_scheduler.py], over the
      interfaces [KVCacheOps], [EncoderCacheOps], [KVConnectorOps] and [RequestQueueOps].
      [SchedulerLaws.v]: the contracts [KVCacheLaws], [EncoderLaws] and [KVConnectorLaws], the
      invariant of the scheduler between two steps.  [EncoderContract.v]: the encoder cache
      keeps its contract.  The proofs, in the order of the code: [SchedulerRun.v] and
      [SchedulerTurn.v] (running requests), [SchedulerWait.v] (waiting requests),
      [SchedulerFrame.v] and [SchedulerStep.v] ([schedule]), [SchedulerLeave.v] and
      [SchedulerResult.v] ([update_from_output]), [SchedulerCalls.v] (the other calls),
      [FailedLoads.v] and [SchedulerFailure.v] (blocks whose load failed),
      [SchedulerTrace.v] (all calls in any order).  [SchedulerDemo.v]: concrete runs.
    - [KVContract.v]: the KV cache manager, over block hashes given by [HashedRequests], keeps
      the contract [KVCacheLaws] that the scheduler relies on.  [Serving.v]: the scheduler
      over that manager.  [ServingDemo.v]: an engine of five steps over both.
      [FailureDemo.v]: a step of it in which a load fails.
    - [Offload.v]: [vllm/v1/kv_offload]: the status of a block, the contract of a backend
      ([Backend], [BackendLaws]) with the CPU's backend as an instance, and the contract of a
      manager ([OffloadingManager], [OffloadingManagerLaws]) with what follows from it for
      sessions of calls.  [OffloadLru.v], [OffloadArc.v]: the two managers, each an instance
      over any backend.  [OffloadSpec.v]: the number of blocks and the choice of the manager.
    - [OffloadTransfer.v]: [kv_offload/worker/cpu_gpu.py] and [worker.py]: the transfers of
      each direction and what they copy.  [OffloadWorker.v], [OffloadConnector.v]: the two
      sides of [offloading_connector.py].  [OffloadProtocol.v]: the scheduler's side keeps to
      the manager's contract.  [OffloadData.v]: what the blocks on both devices hold.
      [OffloadSystem.v]: both sides and the device, in the order in which the scheduler and
      the model runner call them.  [OffloadDemo.v]: a request's blocks are stored, and a
      second one loads them.

    Each Module has a record [t] for the state of the class and one definition per method,
    under the method's name; a loop that needs its own recursion is a definition beside it.
    A method that may raise returns a [result]; one that changes state is a [py t].

    ** What the theorems show

    - Names.  [process_tokens_prefix_keys]: the keys of the chunks behind the mask are the
      chained hashes of the prefixes, in order.  [prefix_digest_injective] and
      [shared_hash_shared_prefix]: equal names mean equal prefixes, or a collision of the
      hash function is exhibited.  [hashes_incremental]: vLLM's block hashes do not depend
      on how the tokens arrive.  [key_string_roundtrip], [group_key_roundtrip]: keys are
      read back from their strings and bytes.  [process_tokens_segments]: the segments.
    - Storage.  [store_prefetch_roundtrip]: what a layer-wise store writes, a layer-wise
      prefetch brings back, at every layer.  [index_invariant]: no chunk ever loses its
      file to another.  [persist_restore_refused]: a snapshot of the backend is refused by
      its own restore.  [lru_put_shortest_prefix]: what a put evicts.
    - Engine.  [lookup_longest_prefix]: the look-up is the longest stored prefix, in tokens.
      [store_then_lookup]: what was stored is found.  [prepare_for_load_pairs]: which
      file is loaded into which block; a list of tokens raises.  [registry_one_engine]: one engine per instance.
    - Connector.  [promised_tokens_load], [build_meta_follows_requests],
      [slot_mapping_block], [save_windows_tile]: promises are kept, trackers follow the
      requests, slots are those of the tokens' blocks, saves tile the tokens without gap or
      overlap (trackers and saves for requests without multi-modal inputs).  [forward_pass_transfers], [launch_io_store_pass]: a forward pass transfers
      exactly the store's layer-wise pass.  [synchronous_saving_never_writes]: the saving
      that vLLM calls writes nothing.  [task_queue_refines_fifo], [align_largest_whole_pages].
    - Simulator and controller.  [execute_fits], [small_pool_conserves],
      [controller_invariant], [pool_keeps_last_holder].
    - GPU blocks.  [free_queue_refines_list]: the linked list refines a list, exceptions
      included.  [pool_invariant]: in every reachable state the free blocks are those
      without references and the map follows the hashes.  [evicted_in_order],
      [cached_block_hits], [cached_then_hit]: the order of eviction, and prefix-cache hits.
    - Cache managers.  [references_count_holders]: without attention sinks, from the
      construction on, whatever the
      scheduler calls and whatever raises, the references of a block are the tables that hold
      it, and the free blocks are those that no table holds.  [allocation_never_short]:
      behind the check of [allocate_slots] no call runs out of blocks, and the tables get
      slots for all tokens.  [hybrid_hit_agrees]: the fixed-point search of a hit ends, and
      its length and blocks agree for all groups.
    - Composition.  [serving_blocks]: whatever the engine calls, within the scope of the
      scheduler's invariant, the scheduler over the KV cache manager leaves each block either free or held by requests that have not ended,
      so that an engine without requests has all its blocks back.
    - Scheduler.  [reachable_in_order]: in every state that the engine's calls reach, each
      request is in one place, running requests have slots for their computed tokens, and no
      call raises.  [step_keeps_promises]: a step schedules running requests only, within
      its budget, and its output leaves the state in order.  [scheduled_request_ends]: a
      request that is scheduled again and again ends, but for what preemptions, resets and
      failed loads take from it.  [failed_blocks_recomputed]: every block whose load failed
      among the tokens that a request first started with is computed again by one of the
      requests that hold it, and
      [failed_step_keeps_promises]: the step it fails in leaves the state in order, and the
      affected requests run on or end, as the policy says; [resumed_failure_missed]: those
      that were resumed are not found.  [priority_queue_sorted],
      [skipped_requests_keep_order]: the order of the queues.  [repetition_detected]: the
      detection of repetitions is the definition of a repetition.
    - Encoder cache.  [encoder_cache_accounts]: free and freeable slots are those the
      entries leave.  [scheduled_inputs_fit]: inputs that are scheduled can be allocated.
    - Offloading.  [offload_store_load]: under either policy and among the calls of others, a
      store is found when it is complete, is read from the places it was written to, and stays
      readable while it is loaded.  [offload_memory_bound]: places are not shared, not lost,
      and within the memory granted.  [lru_prepare_store], [arc_prepare_store]: what a store
      evicts, exactly and as far as the adaptive policy says.  [offloaded_blocks_come_back]:
      over any such manager, in every reachable state, a step of the connector raises
      nothing, and a load that is reported has brought the contents that its request needs;
      [matched_tokens_are_loadable]: what a request is promised can be loaded;
      [stored_blocks_load_back]: a transfer to the CPU and back, by itself.

    Several theorems state behaviour that differs from what the code or its documentation
    intends; the doc comments say so, and concrete runs show it ([mla_put_writes_nothing],
    [load_overwrites_cached_block], [partial_block_forgets_inputs], [small_pool_leaks],
    [external_allocation_takes_hits], ...).

    ** Assumptions, bounds and fuel

    Code outside the repository is a parameter: the file store behind the binding (with
    [FileStoreLaws], which [GpuFS] instantiates: an open may be refused, and transfers are
    sure to succeed as far as the pool of IO contexts has room, [fs_free] and [fs_room]), vLLM's hash function and seed, the
    simulator's time model, the devices and FlashInfer's green contexts, a worker's answer
    over the network.  Python's integers are [Z]; where the code fixes a width (32-bit
    tokens, 16-bit placeholders, 4-byte group ids) the wrap-around or the [OverflowError] is
    written out; floats are the binary64 numbers of [PyNum.v], where the bounds that keep
    the ARC manager's target away from NaN and infinity are proved.  Loops that are not over a list
    take fuel: [hasher_loop] gets one more than the number of tokens, which suffices when
    blocks are not empty ([hashes_incremental] proves that it returns); [launch_loop] one per
    pending task; [walk] any number above the length of the free list
    ([free_queue_refines_list]); [hit_loop] two more than the bound of the hit, whose
    length each pass but the last reduces ([hybrid_hit_agrees]); the loops of the scheduler
    the number of requests that run or wait, since each turn takes or preempts one; the digits of [str(n)] its bit length ([py_int_str]); the
    search for the primes of SHA-256 a number that the test vectors check.

    ** What is not modelled

    Not modelled: CUDA kernels, the errors that CUDA reports once a transfer has its IO
    contexts, the delay of writes on a stream of their own ([layerwise_batch_put] says when
    it cannot be seen), the kernel module and the NVMe layout of GeminiFS; sockets,
    serialisation and event loops; logging, metrics and profiling; configuration parsing;
    vLLM's model execution.  Of the scheduler: bit masks of grammars, routed experts and
    statistics.  Its invariant is on one step at a time, requests of one prompt, loads that
    end within their step, and no LoRAs ([good_config], [request_ok], [KVConnectorLaws]);
    asynchronous scheduling and loading, streaming sessions and the limit of LoRAs are in the
    definitions only, because assertions there can fail.  Of the offloading connector:
    statistics, events, and the layout of a layer's tensors; its theorems are on one worker
    whose transfers do not fail, they take what the model computes and leaves alone as a
    hypothesis on each step ([model_ran]), and that the scheduler gives blocks in transfer to
    nobody else ([alloc_ok], [step_ok]).  The theorems on the cache managers exclude attention sinks,
    whose blocks leave the pool without references ([sinks_block_reset]); theirs is the
    model, not the invariant.  The block size of [MambaSpec] in the mode "align" is modelled
    and keeps the invariant, but [allocation_never_short] is on attention layers.
    The contract [KVCacheLaws] is proved of the KV cache manager for one group of attention
    layers, with caching on and without cache events; for several groups, Mamba and
    cross-attention the invariants above hold, but not the link to the scheduler.  It assumes
    that the block hashes of one request differ from each other ([HashedRequestsLaws]). *)
From Stdlib Require Import ZArith Lia.
From stdpp Require Export base numbers list strings gmap.
From stdpp Require Import options.

#[global] Set Default Proof Using "Type".

Declare Scope py_scope.
Delimit Scope py_scope with py.

(** ** Exceptions and results *)

(** The exception classes raised by the modelled code, under their Python names. *)
Inductive exn :=
  | ValueError | KeyError | IndexError | AttributeError | AssertionError
  | RuntimeError | StopIteration | OverflowError | ZeroDivisionError
  | TypeError | NotImplementedError | UnicodeEncodeError | Exception.

#[export] Instance exn_eq_dec : EqDecision exn.
Proof. solve_decision. Defined.

(** The outcome of a Python expression: a value, or the exception it raises. *)
Inductive result (A : Type) :=
  | Ok (a : A)
  | Raise (e : exn).
Arguments Ok {A} a.
Arguments Raise {A} e.

#[export] Instance result_eq_dec {A} `{EqDecision A} : EqDecision (result A).
Proof. solve_decision. Defined.

(** Sequencing of two outcomes: the second expression runs on the first one's value. *)
Definition rbind {A B} (r : result A) (k : A → result B) : result B :=
  match r with Ok a => k a | Raise e => Raise e end.

(** Whether an expression returned normally. *)
Definition is_ok {A} (r : result A) : bool :=
  match r with Ok _ => true | Raise _ => false end.

(** [[f(x) for x in l]] for an [f] that may raise. *)
Fixpoint map_result {A B} (f : A → result B) (l : list A) : result (list B) :=
  match l with
  | [] => Ok []
  | x :: l' => rbind (f x) (λ y, rbind (map_result f l') (λ ys, Ok (y :: ys)))
  end.

(** [assert b] inside a result. *)
Definition rassert (b : bool) : result unit :=
  if b then Ok tt else Raise AssertionError.

(** A dictionary or list access that raises [e] when the entry is missing. *)
Definition of_option {A} (e : exn) (o : option A) : result A :=
  match o with Some a => Ok a | None => Raise e end.

Notation "'let!' x := r 'in' k" := (rbind r (λ x, k))
  (at level 10, x pattern, r at level 100, k at level 200,
   format "'[v' 'let!'  x  :=  r  'in' '/' k ']'") : py_scope.

(** ** Statements over a mutable state

    A method that mutates the object [S] and may raise: the state reached so
    far survives the exception, as it does in Python. *)
Definition py (S A : Type) : Type := S → result A * S.

Section monad.
Context {S : Type}.

Definition ret {A} (a : A) : py S A := λ s, (Ok a, s).

Definition raise {A} (e : exn) : py S A := λ s, (Raise e, s).

Definition bind {A B} (m : py S A) (k : A → py S B) : py S B := λ s,
  match m s with
  | (Ok a, s') => k a s'
  | (Raise e, s') => (Raise e, s')
  end.

Definition get_st : py S S := λ s, (Ok s, s).

Definition put_st (s' : S) : py S unit := λ _, (Ok tt, s').

Definition gets {A} (f : S → A) : py S A := λ s, (Ok (f s), s).

Definition modify (f : S → S) : py S unit := λ s, (Ok tt, f s).

Definition lift {A} (r : result A) : py S A := λ s, (r, s).

Definition passert (b : bool) : py S unit := lift (rassert b).

(** [for x in l: f(x)], with the loop's state in [S]. *)
Fixpoint for_each {A} (l : list A) (f : A → py S unit) : py S unit :=
  match l with
  | [] => ret tt
  | x :: l' => bind (f x) (λ _, for_each l' f)
  end.

(** [[f(x) for x in l]] with effects. *)
Fixpoint map_each {A B} (l : list A) (f : A → py S B) : py S (list B) :=
  match l with
  | [] => ret []
  | x :: l' => bind (f x) (λ y, bind (map_each l' f) (λ ys, ret (y :: ys)))
  end.
End monad.

Notation "'let*' x := m 'in' k" := (bind m (λ x, k))
  (at level 10, x pattern, m at level 100, k at level 200,
   format "'[v' 'let*'  x  :=  m  'in' '/' k ']'") : py_scope.
Notation "m ;;; k" := (bind m (λ _, k))
  (at level 100, right associativity) : py_scope.
Open Scope Z_scope.
Open Scope py_scope.

(** ** Python integers, ranges and slices *)

(** [len(l)] as a Python integer. *)
Definition zlen {A} (l : list A) : Z := Z.of_nat (length l).

(** [vllm/utils/math_utils.py: cdiv], and the local copies of it: [-(a // -b)]. *)
Definition cdiv (a b : Z) : Z := - (a `div` (- b)).

(** The index a Python slice bound denotes on a list of [n] elements. *)
Definition clip (n i : Z) : Z :=
  if (i <? 0) then Z.max 0 (i + n) else Z.min i n.

(** [l[i:j]]. *)
Definition py_slice {A} (l : list A) (i j : Z) : list A :=
  let a := clip (zlen l) i in
  let b := clip (zlen l) j in
  take (Z.to_nat (b - a)) (drop (Z.to_nat a) l).

(** [l[i]] on a list of Python objects: a negative index counts from the end. *)
Definition py_index {A} (l : list A) (i : Z) : result A :=
  let i' := if (i <? 0) then i + zlen l else i in
  if (i' <? 0) then Raise IndexError
  else of_option IndexError (l !! Z.to_nat i').

(** [l[i] = v]. *)
Definition py_set {A} (l : list A) (i : Z) (v : A) : result (list A) :=
  let j := if i <? 0 then i + zlen l else i in
  if (0 <=? j) && (j <? zlen l) then Ok (<[Z.to_nat j := v]> l) else Raise IndexError.

(** [range(start, stop, step)]. *)
Definition py_range (start stop step : Z) : result (list Z) :=
  if (step =? 0) then Raise ValueError
  else
    let n := if (0 <? step) then cdiv (stop - start) step
             else cdiv (start - stop) (- step) in
    Ok ((λ k, start + k * step) <$> seqZ 0 n).

(** [a % b] and [a // b], which raise on a zero divisor. *)
Definition py_mod (a b : Z) : result Z :=
  if (b =? 0) then Raise ZeroDivisionError else Ok (a `mod` b).

Definition py_div (a b : Z) : result Z :=
  if (b =? 0) then Raise ZeroDivisionError else Ok (a `div` b).

(** ** Automation *)

(** Lemmas that rewrite the model's helpers into library functions. *)
Create Rewrite HintDb kv.

(** Facts that discharge the side conditions of the components' lemmas. *)
Create HintDb kv discriminated.

(** Destruct the scrutinee of a match in the goal or in a hypothesis. *)
Ltac case_in_goal :=
  match goal with
  | |- context [ match ?x with _ => _ end ] =>
      lazymatch x with
      | context [ match _ with _ => _ end ] => fail
      | _ => destruct x eqn:?
      end
  end.

Ltac case_in_hyp H :=
  match type of H with
  | context [ match ?x with _ => _ end ] =>
      lazymatch x with
      | context [ match _ with _ => _ end ] => fail
      | _ => destruct x eqn:?
      end
  end.

(** Open the monad and reduce. *)
Ltac py_unfold :=
  unfold bind, ret, raise, get_st, put_st, gets, modify, passert, lift, rassert, rbind in *;
  simpl in *.

(** Turn boolean tests on integers into propositions. *)
Ltac zbool :=
  repeat match goal with
  | H : (_ <? _) = true |- _ => apply Z.ltb_lt in H
  | H : (_ <? _) = false |- _ => apply Z.ltb_ge in H
  | H : (_ <=? _) = true |- _ => apply Z.leb_le in H
  | H : (_ <=? _) = false |- _ => apply Z.leb_gt in H
  | H : (_ =? _) = true |- _ => apply Z.eqb_eq in H
  | H : (_ =? _) = false |- _ => apply Z.eqb_neq in H
  | H : (_ && _) = true |- _ => apply andb_true_iff in H as [? ?]
  | H : (_ || _) = false |- _ => apply orb_false_iff in H as [? ?]
  | H : negb _ = true |- _ => apply negb_true_iff in H
  | H : negb _ = false |- _ => apply negb_false_iff in H
  | H : bool_decide _ = true |- _ => apply bool_decide_eq_true in H
  | H : bool_decide _ = false |- _ => apply bool_decide_eq_false in H
  end.

(** Non-linear integer side conditions with constants, quotients and remainders. *)
Ltac zlia := zbool; Z.div_mod_to_equations; nia.

#[export] Instance divide_dec (a b : Z) : Decision (a | b).
Proof.
  destruct (decide (a = 0)) as [->|Ha].
  - destruct (decide (b = 0)) as [->|Hb]; [left; apply Z.divide_0_r|].
    right. intros ?%Z.divide_0_l. done.
  - destruct (decide (b mod a = 0)) as [Hd|Hd]; [left; by apply Z.mod_divide|].
    right. intros Hm%Z.mod_divide; done.
Defined.

(** ** Results and statements *)

Lemma rbind_ok {A B} (r : result A) (k : A → result B) b :
  rbind r k = Ok b ↔ ∃ a, r = Ok a ∧ k a = Ok b.
Proof. destruct r; simpl; split; [eauto|by intros (? & [= ->] & ?)|done|by intros (? & ? & ?)]. Qed.

Lemma rbind_assoc {A B C} (r : result A) (f : A → result B) (g : B → result C) :
  rbind (rbind r f) g = rbind r (λ a, rbind (f a) g).
Proof. by destruct r. Qed.

Lemma bind_ok {S A B} (m : py S A) (k : A → py S B) s b s'' :
  bind m k s = (Ok b, s'') ↔ ∃ a s', m s = (Ok a, s') ∧ k a s' = (Ok b, s'').
Proof.
  unfold bind. destruct (m s) as [[a|e] s']; split; try done; [eauto|..].
  - by intros (? & ? & [= -> ->] & ?).
  - by intros (? & ? & ? & ?).
Qed.

Lemma of_option_ok {A} e (o : option A) a : of_option e o = Ok a ↔ o = Some a.
Proof. destruct o; simpl; split; congruence. Qed.

(** A loop whose body preserves an invariant preserves it, exception or not. *)
Lemma for_each_inv {S A} (I : S → Prop) (l : list A) (f : A → py S unit) s :
  (∀ x s0, x ∈ l → I s0 → I (f x s0).2) → I s → I (for_each l f s).2.
Proof.
  revert s. induction l as [|x l IH]; intros s Hf Hs; [done|]. simpl. unfold bind.
  specialize (Hf x s (list_elem_of_here x l) Hs) as Hx.
  destruct (f x s) as [[[]|e] s'] eqn:E; simpl in *; [|done].
  apply IH; [|done]. intros y s0 Hy. apply Hf. by constructor.
Qed.

(** Running a sequence, by the outcome of its first statement. *)
Lemma bind_get_st {S B} (k : S → py S B) s : bind get_st k s = k s s.
Proof. done. Qed.

Lemma bind_modify {S B} (f : S → S) (k : unit → py S B) s : bind (modify f) k s = k tt (f s).
Proof. done. Qed.

Lemma bind_run {S A B} (m : py S A) (k : A → py S B) s a s' : m s = (Ok a, s') → bind m k s = k a s'.
Proof. unfold bind. by intros ->. Qed.

Lemma bind_fail {S A B} (m : py S A) (k : A → py S B) s e s' : m s = (Raise e, s') → bind m k s = (Raise e, s').
Proof. unfold bind. by intros ->. Qed.

(** A statement's outcome keeps [I], exception or not, and its value satisfies [Q]. *)
Definition post {S A} (I : S → Prop) (Q : A → Prop) (o : result A * S) : Prop :=
  I o.2 ∧ ∀ a, o.1 = Ok a → Q a.

Lemma post_ret {S A} (I : S → Prop) (Q : A → Prop) a s : I s → Q a → post I Q (ret a s).
Proof. intros Hs Ha. split; [done|]. by intros ? [= <-]. Qed.

Lemma post_raise {S A} (I : S → Prop) (Q : A → Prop) e s : I s → post I Q (raise e s).
Proof. intros Hs. by split. Qed.

Lemma post_bind {S A B} (I : S → Prop) (Q : A → Prop) (R : B → Prop) m (k : A → py S B) s :
  post I Q (m s) → (∀ a s', m s = (Ok a, s') → I s' → Q a → post I R (k a s')) →
  post I R (bind m k s).
Proof.
  intros [Hi Hq] Hk. unfold bind. destruct (m s) as [[a|e] s'] eqn:E; simpl in *.
  - apply Hk; [done..|by apply Hq].
  - by split.
Qed.

Lemma post_lift {S A} (I : S → Prop) (r : result A) s : I s → post I (λ a, r = Ok a) (lift r s).
Proof. intros Hs. by split. Qed.

Lemma post_gets {S A} (I : S → Prop) (f : S → A) s : I s → post I (λ a, a = f s) (gets f s).
Proof. intros Hs. split; [done|]. by intros a [= <-]. Qed.

Lemma post_modify {S} (I : S → Prop) (f : S → S) s : I (f s) → post I (λ _, True) (modify f s).
Proof. intros Hs. by split. Qed.

Lemma post_weaken {S A} (I : S → Prop) (Q Q' : A → Prop) o :
  post I Q o → (∀ a, Q a → Q' a) → post I Q' o.
Proof. intros [H1 H2] HQ. split; [done|]. auto. Qed.

Lemma post_for_each {S A} (I : S → Prop) (l : list A) (f : A → py S unit) s :
  (∀ x s0, x ∈ l → I s0 → post I (λ _, True) (f x s0)) → I s → post I (λ _, True) (for_each l f s).
Proof.
  intros Hf Hs. split; [|done]. apply for_each_inv; [|done]. intros x s0 Hx H0. by apply Hf.
Qed.

(** A loop that collects, with what its results satisfy. *)
Lemma post_map_each {S A B} (I : S → Prop) (Q : A → B → Prop) (l : list A) (f : A → py S B) s :
  (∀ x s0, x ∈ l → I s0 → post I (Q x) (f x s0)) → I s →
  post I (λ ys, Forall2 Q l ys) (map_each l f s).
Proof.
  revert s. induction l as [|x l IH]; intros s Hf Hs; simpl.
  { apply post_ret; [done|constructor]. }
  eapply post_bind; [apply Hf; [by left|done]|]. intros y s' _ Hs' Hy.
  eapply post_bind; [apply IH; [|done]|].
  { intros z s0 Hz. apply Hf. by right. }
  intros ys s'' _ Hs'' Hys. apply post_ret; [done|by constructor].
Qed.

Lemma for_each_app {S A} (l1 l2 : list A) (f : A → py S unit) s :
  for_each (l1 ++ l2) f s = bind (for_each l1 f) (λ _, for_each l2 f) s.
Proof.
  revert s. induction l1 as [|x l1 IH]; intros s; [done|]. simpl. unfold bind.
  destruct (f x s) as [[[]|e] s']; [|done]. rewrite IH. done.
Qed.

Lemma map_result_Ok {A B} (f : A → result B) l ys :
  map_result f l = Ok ys ↔ Forall2 (λ x y, f x = Ok y) l ys.
Proof.
  revert ys. induction l as [|x l IH]; intros ys; simpl.
  - split; [by intros [= <-]|]. by inversion 1.
  - rewrite rbind_ok. split.
    + intros (y & Hy & H). apply rbind_ok in H as (ys' & Hys & [= <-]).
      constructor; [done|]. by apply IH.
    + inversion 1 as [|? y ? ys' Hy Hys]; subst. exists y. split; [done|].
      apply rbind_ok. exists ys'. split; [by apply IH|done].
Qed.

(** ** Integers, ranges and slices *)

Lemma cdiv_spec a b : (0 < b) → (b * (cdiv a b - 1) < a ≤ b * cdiv a b).
Proof. unfold cdiv. intros. zlia. Qed.

Lemma cdiv_unique a b q : (0 < b) → (b * (q - 1) < a ≤ b * q) → cdiv a b = q.
Proof. intros Hb Hq. pose proof (cdiv_spec a b Hb). nia. Qed.

Lemma cdiv_alt a b : (0 < b) → cdiv a b = ((a + b - 1) `div` b).
Proof. intros. apply cdiv_unique; [done|]. zlia. Qed.

Lemma cdiv_nonneg a b : (0 < b) → (0 ≤ a) → (0 ≤ cdiv a b).
Proof. intros. pose proof (cdiv_spec a b). nia. Qed.

Lemma cdiv_mul b q : (0 < b) → cdiv (q * b) b = q.
Proof. intros. apply cdiv_unique; nia. Qed.

Lemma cdiv_mono a a' b : (0 < b) → (a ≤ a') → (cdiv a b ≤ cdiv a' b).
Proof. intros Hb H. pose proof (cdiv_spec a b Hb). pose proof (cdiv_spec a' b Hb). nia. Qed.

Lemma zlen_nonneg {A} (l : list A) : (0 ≤ zlen l).
Proof. unfold zlen. lia. Qed.

Lemma zlen_nil {A} : zlen (@nil A) = 0%Z.
Proof. done. Qed.

Lemma zlen_cons {A} (x : A) l : zlen (x :: l) = (zlen l + 1).
Proof. unfold zlen. simpl. lia. Qed.

Lemma zlen_nil_inv {A} (l : list A) : zlen l = 0%Z → l = [].
Proof. destruct l; [done|]. rewrite zlen_cons. pose proof (zlen_nonneg l). lia. Qed.

Lemma zlen_app {A} (l1 l2 : list A) : zlen (l1 ++ l2) = (zlen l1 + zlen l2).
Proof. unfold zlen. rewrite length_app. lia. Qed.

Lemma zlen_fmap {A B} (f : A → B) l : zlen (f <$> l) = zlen l.
Proof. unfold zlen. by rewrite length_fmap. Qed.

#[export] Hint Rewrite @zlen_nil @zlen_cons @zlen_app @zlen_fmap : kv.
#[export] Hint Resolve zlen_nonneg cdiv_nonneg : kv.

Lemma py_slice_nonneg {A} (l : list A) i j :
  (0 ≤ i) → (i ≤ j) →
  py_slice l i j = take (Z.to_nat (j - i)) (drop (Z.to_nat i) l).
Proof.
  intros Hi Hj. unfold py_slice, clip.
  rewrite (proj2 (Z.ltb_ge i 0)), (proj2 (Z.ltb_ge j 0)) by lia.
  destruct (decide (i ≤ zlen l)) as [Hl|Hl].
  - rewrite (Z.min_l i) by lia. destruct (decide (j ≤ zlen l)).
    + by rewrite Z.min_l by lia.
    + rewrite Z.min_r by lia.
      rewrite !take_ge; [done| |]; rewrite length_drop; unfold zlen in *; lia.
  - rewrite !Z.min_r by lia.
    rewrite !(drop_ge l) by (unfold zlen in *; lia). by rewrite !take_nil.
Qed.

Lemma py_slice_0 {A} (l : list A) j : (0 ≤ j) → py_slice l 0 j = take (Z.to_nat j) l.
Proof.
  intros. rewrite py_slice_nonneg by lia. by rewrite Z.sub_0_r, drop_0.
Qed.

Lemma py_slice_0_prefix {A} (l : list A) j : py_slice l 0 j `prefix_of` l.
Proof.
  unfold py_slice. assert (clip (zlen l) 0 = 0) as ->.
  { unfold clip. simpl. pose proof (zlen_nonneg l). lia. }
  rewrite drop_0. apply prefix_take.
Qed.

Lemma elem_of_py_slice {A} (l : list A) i j x : x ∈ py_slice l i j → x ∈ l.
Proof.
  unfold py_slice. intros Hx. rewrite <- (take_drop (Z.to_nat (clip (zlen l) i)) l). apply elem_of_app. right.
  rewrite <- (take_drop (Z.to_nat (clip (zlen l) j - clip (zlen l) i)) (drop _ l)). apply elem_of_app. by left.
Qed.

Lemma py_index_nonneg {A} (l : list A) i :
  (0 ≤ i) → py_index l i = of_option IndexError (l !! Z.to_nat i).
Proof.
  intros. unfold py_index. rewrite (proj2 (Z.ltb_ge i 0)) by lia. simpl.
  by rewrite (proj2 (Z.ltb_ge i 0)) by lia.
Qed.

Lemma py_set_nonneg {A} (l : list A) i v : 0 ≤ i < zlen l → py_set l i v = Ok (<[Z.to_nat i := v]> l).
Proof.
  intros [Hi Hl]. unfold py_set. rewrite (proj2 (Z.ltb_ge i 0)) by lia.
  by rewrite (proj2 (Z.leb_le 0 i)), (proj2 (Z.ltb_lt i _)).
Qed.

(** An index that can be read can be written. *)
Lemma py_index_set {A} (l : list A) i b v :
  py_index l i = Ok b → ∃ j, l !! j = Some b ∧ py_set l i v = Ok (<[j := v]> l).
Proof.
  unfold py_index, py_set. cbv zeta. set (j := if i <? 0 then i + zlen l else i).
  destruct (Z.ltb_spec j 0); [done|]. intros Hb%of_option_ok. exists (Z.to_nat j). split; [done|].
  apply lookup_lt_Some in Hb as Hlt. rewrite (proj2 (Z.leb_le 0 j)), (proj2 (Z.ltb_lt j _)) by (unfold zlen; lia). done.
Qed.

Lemma seqZ_seq m n : seqZ m n = (λ k, Z.of_nat k + m) <$> seq 0 (Z.to_nat n).
Proof. reflexivity. Qed.

Lemma py_range_pos start stop step :
  0 < step →
  py_range start stop step =
    Ok ((λ k, start + k * step) <$> seqZ 0 (cdiv (stop - start) step)).
Proof.
  intros Hs. unfold py_range.
  by rewrite (proj2 (Z.eqb_neq step 0)), (proj2 (Z.ltb_lt 0 step)) by lia.
Qed.

(** A counted loop runs its last iteration behind the others. *)
Lemma for_each_seqZ_S {S} m (n : nat) (f : Z → py S unit) s :
  for_each (seqZ m (Z.of_nat (Datatypes.S n))) f s
  = bind (for_each (seqZ m (Z.of_nat n)) f) (λ _, f (m + Z.of_nat n)) s.
Proof.
  rewrite Nat2Z.inj_succ, <- Z.add_1_r, seqZ_app, for_each_app by lia.
  unfold bind. destruct (for_each (seqZ m (Z.of_nat n)) f s) as [[[]|e] s']; [|done].
  change (seqZ (m + Z.of_nat n) 1) with ([0 + (m + Z.of_nat n)]). rewrite Z.add_0_l. simpl. unfold bind, ret.
  by destruct (f (m + Z.of_nat n) s') as [[[]|e] s''].
Qed.

(** ** Lists *)

Lemma Forall_filter {A} (P Q : A → Prop) `{∀ x, Decision (Q x)} l :
  Forall P l → Forall P (filter Q l).
Proof.
  rewrite !Forall_forall. intros HP x Hx%list_elem_of_filter. apply HP, Hx.
Qed.

(** A filter depends on its predicate on the list's elements only. *)
Lemma filter_ext_in {A} (P Q : A → Prop) `{∀ x, Decision (P x)} `{∀ x, Decision (Q x)} (l : list A) :
  (∀ x, x ∈ l → P x ↔ Q x) → filter P l = filter Q l.
Proof.
  induction l as [|x l IH]; intros Hl; [done|]. rewrite !filter_cons.
  assert (filter P l = filter Q l) as -> by (apply IH; intros y Hy; apply Hl; by right).
  specialize (Hl x (list_elem_of_here x l)). destruct (decide (P x)), (decide (Q x)); tauto.
Qed.

(** [Forall2_impl], where the implication may use that the left element is of the list. *)
Lemma Forall2_impl_in {A B} (P Q : A → B → Prop) l k :
  Forall2 P l k → (∀ x y, x ∈ l → P x y → Q x y) → Forall2 Q l k.
Proof.
  induction 1 as [|x y l k Hxy _ IH]; intros HPQ; constructor.
  - apply HPQ; [by left|done].
  - apply IH. intros x' y' Hx'. apply HPQ. by right.
Qed.

Lemma filter_id {A} (P : A → Prop) `{∀ x, Decision (P x)} (l : list A) :
  (∀ x, x ∈ l → P x) → filter P l = l.
Proof.
  induction l as [|x l IH]; intros Hl; [done|]. rewrite filter_cons_True by (apply Hl; by left).
  f_equal. apply IH. intros y Hy. apply Hl. by right.
Qed.
