(* ===== verification/OrderedDict.v ===== *)
(** Python dictionaries with their insertion order: association lists in which
    an assignment to a present key keeps the key's place, an assignment to a new
    key appends it, and [move_to_end] and [popitem(last=False)] are those of
    [collections.OrderedDict].  The order is observable in the code: the LRU
    evictor, the offloading managers and [BlockHashToBlockMap] all read it. *)
From S2P Require Export Prelude.
From stdpp Require Import options.

Section odict.
Context {K V : Type} `{EqDecision K}.
Implicit Types (d : list (K * V)) (k : K) (v : V).

(** [d.get(k)]. *)
Fixpoint od_get k d : option V :=
  match d with
  | [] => None
  | (k', v) :: d' => if decide (k = k') then Some v else od_get k d'
  end.

(** [k in d]. *)
Definition od_mem k d : bool := match od_get k d with Some _ => true | None => false end.

(** [d[k] = v]. *)
Fixpoint od_set k v d : list (K * V) :=
  match d with
  | [] => [(k, v)]
  | (k', v') :: d' => if decide (k = k') then (k', v) :: d' else (k', v') :: od_set k v d'
  end.

(** [d.pop(k, None)]. *)
Fixpoint od_del k d : list (K * V) :=
  match d with
  | [] => []
  | (k', v') :: d' => if decide (k = k') then d' else (k', v') :: od_del k d'
  end.

(** [list(d.keys())]. *)
Definition od_keys d : list K := d.*1.

(** [d.move_to_end(k)], which raises [KeyError] on an absent key. *)
Definition od_move_to_end k d : result (list (K * V)) :=
  match od_get k d with
  | Some v => Ok (od_del k d ++ [(k, v)])
  | None => Raise KeyError
  end.

(** The invariant of every dictionary: a key occurs once. *)
Definition od_wf d : Prop := NoDup (od_keys d).

Lemma od_mem_true k d : od_mem k d = true ↔ is_Some (od_get k d).
Proof. unfold od_mem. destruct (od_get k d); split; intros H; [eauto|done|done|by destruct H]. Qed.

Lemma od_mem_false k d : od_mem k d = false ↔ od_get k d = None.
Proof. unfold od_mem. by destruct (od_get k d). Qed.

Lemma od_get_set k v d : od_get k (od_set k v d) = Some v.
Proof.
  induction d as [|[k' v'] d IH]; simpl; [by rewrite decide_True|].
  destruct (decide (k = k')); simpl; [by rewrite decide_True|by rewrite decide_False].
Qed.

Lemma od_get_set_ne k k' v d : k ≠ k' → od_get k (od_set k' v d) = od_get k d.
Proof.
  intros. induction d as [|[k2 v2] d IH]; simpl; [by rewrite decide_False|].
  destruct (decide (k' = k2)) as [->|]; simpl.
  - by rewrite !decide_False.
  - by destruct (decide (k = k2)).
Qed.

Lemma od_get_del_ne k k' d : k ≠ k' → od_get k (od_del k' d) = od_get k d.
Proof.
  intros. induction d as [|[k2 v2] d IH]; simpl; [done|].
  destruct (decide (k' = k2)) as [->|]; simpl; [by rewrite decide_False|].
  by destruct (decide (k = k2)).
Qed.

Lemma od_get_elem k v d : od_get k d = Some v → (k, v) ∈ d.
Proof.
  induction d as [|[k' v'] d IH]; simpl; [done|]. intros H.
  destruct (decide (k = k')) as [->|]; simplify_eq; [by left|right; auto].
Qed.

Lemma od_get_None k d : od_get k d = None ↔ k ∉ od_keys d.
Proof.
  unfold od_keys. induction d as [|[k' v'] d IH]; simpl; [split; [intros _ H; inversion H|done]|].
  rewrite not_elem_of_cons. destruct (decide (k = k')) as [->|]; [|rewrite IH; tauto].
  split; [done|]. by intros [? _].
Qed.

Lemma od_get_is_Some k d : is_Some (od_get k d) ↔ k ∈ od_keys d.
Proof.
  rewrite <- not_eq_None_Some, od_get_None.
  destruct (decide (k ∈ od_keys d)); tauto.
Qed.

Lemma od_elem_get k v d : od_wf d → (k, v) ∈ d → od_get k d = Some v.
Proof.
  unfold od_wf, od_keys. induction d as [|[k' v'] d IH]; simpl; [intros _ H; inversion H|].
  intros [Hnin Hnd]%NoDup_cons [?|Hin]%elem_of_cons; simplify_eq; [by rewrite decide_True|].
  rewrite decide_False; [auto|]. intros ->. apply Hnin. apply (list_elem_of_fmap_2 fst) in Hin. done.
Qed.

Lemma od_keys_set k v d :
  od_keys (od_set k v d) = if od_mem k d then od_keys d else od_keys d ++ [k].
Proof.
  unfold od_mem. induction d as [|[k' v'] d IH]; [done|]. unfold od_keys in *. csimpl.
  destruct (decide (k = k')); csimpl; [done|].
  rewrite IH. by destruct (od_get k d).
Qed.

Lemma od_set_fresh k v d : od_get k d = None → od_set k v d = d ++ [(k, v)].
Proof.
  induction d as [|[k' v'] d IH]; simpl; [done|].
  destruct (decide (k = k')); [done|]. intros. by rewrite IH.
Qed.

Lemma od_keys_del_elem k k' d : k' ∈ od_keys (od_del k d) → k' ∈ od_keys d.
Proof.
  unfold od_keys. induction d as [|[k2 v2] d IH]; simpl; [done|].
  destruct (decide (k = k2)); simpl; rewrite !elem_of_cons; tauto.
Qed.

Lemma od_get_del k d : od_wf d → od_get k (od_del k d) = None.
Proof.
  unfold od_wf, od_keys. induction d as [|[k' v'] d IH]; simpl; [done|].
  intros [Hnin Hnd]%NoDup_cons. destruct (decide (k = k')) as [->|]; simpl.
  - by apply od_get_None.
  - rewrite decide_False; auto.
Qed.

Lemma od_wf_nil : od_wf [].
Proof. constructor. Qed.

Lemma od_wf_set k v d : od_wf d → od_wf (od_set k v d).
Proof.
  unfold od_wf. intros. rewrite od_keys_set. destruct (od_mem k d) eqn:E; [done|].
  apply NoDup_app. split; [done|]. split; [|apply NoDup_singleton].
  intros x Hx ->%list_elem_of_singleton. apply od_mem_false, od_get_None in E. done.
Qed.

Lemma od_wf_del k d : od_wf d → od_wf (od_del k d).
Proof.
  unfold od_wf. induction d as [|[k' v'] d IH]; simpl; [done|].
  intros [Hnin Hnd]%NoDup_cons. destruct (decide (k = k')) as [->|]; [done|].
  simpl. apply NoDup_cons. split; [|by apply IH].
  intros ?%od_keys_del_elem. done.
Qed.

Lemma od_wf_move_to_end k d d' : od_wf d → od_move_to_end k d = Ok d' → od_wf d'.
Proof.
  unfold od_move_to_end. intros Hwf. destruct (od_get k d) as [v|] eqn:E; [|done].
  intros [= <-]. pose proof (od_wf_del k d Hwf) as Hd. pose proof (od_get_del k d Hwf) as Hg.
  rewrite <- od_set_fresh by done. by apply od_wf_set.
Qed.

Lemma od_get_move_to_end k k' d d' :
  od_wf d → od_move_to_end k d = Ok d' → od_get k' d' = od_get k' d.
Proof.
  unfold od_move_to_end. intros Hwf. destruct (od_get k d) as [v|] eqn:E; [|done].
  intros [= <-]. rewrite <- od_set_fresh by by apply od_get_del.
  destruct (decide (k' = k)) as [->|].
  - by rewrite od_get_set.
  - rewrite od_get_set_ne by done. by apply od_get_del_ne.
Qed.

Lemma od_length_del k v d : od_get k d = Some v → length d = S (length (od_del k d)).
Proof.
  induction d as [|[k' v'] d IH]; simpl; [done|].
  destruct (decide (k = k')); [done|]. simpl. intros. by rewrite <- IH.
Qed.

Lemma od_del_none k d : od_get k d = None → od_del k d = d.
Proof.
  induction d as [|[k' v'] d IH]; simpl; [done|].
  destruct (decide (k = k')); [done|]. intros. by rewrite IH.
Qed.

Lemma od_get_app k d1 d2 :
  od_get k (d1 ++ d2) = match od_get k d1 with Some v => Some v | None => od_get k d2 end.
Proof.
  induction d1 as [|[k' v'] d1 IH]; simpl; [done|]. by destruct (decide (k = k')).
Qed.

Lemma od_wf_cons k v d : od_wf ((k, v) :: d) ↔ od_get k d = None ∧ od_wf d.
Proof. unfold od_wf. simpl. rewrite NoDup_cons, od_get_None. done. Qed.

Lemma od_set_same k v d : od_get k d = Some v → od_set k v d = d.
Proof.
  induction d as [|[k' v'] d IH]; simpl; [done|].
  destruct (decide (k = k')) as [->|]; [by intros [= ->]|]. intros. by rewrite IH.
Qed.

(** What is left is the entry, and the rest of the dictionary. *)
Lemma od_get_perm k v d : od_get k d = Some v → d ≡ₚ (k, v) :: od_del k d.
Proof.
  induction d as [|[k' v'] d IH]; simpl; [done|].
  destruct (decide (k = k')) as [->|]; [by intros [= ->]|].
  intros Hk. rewrite (IH Hk) at 1. apply Permutation_swap.
Qed.

Lemma od_move_to_end_perm k d d' : od_move_to_end k d = Ok d' → d' ≡ₚ d.
Proof.
  unfold od_move_to_end. destruct (od_get k d) as [v|] eqn:E; [|done]. intros [= <-].
  etrans; [|symmetry; by apply od_get_perm]. by rewrite <- Permutation_cons_append.
Qed.

(** A view of the values that an assignment to a present key does not change. *)
Lemma od_set_view {C} (g : V → C) k v v' d :
  od_get k d = Some v → g v' = g v → g <$> (od_set k v' d).*2 = g <$> d.*2.
Proof.
  intros Hk Hg. induction d as [|[k' w] d IH]; simpl in *; [done|].
  destruct (decide (k = k')); simplify_eq; csimpl; [congruence|]. f_equal. by apply IH.
Qed.

Lemma od_del_filter k d : od_wf d → od_del k d = filter (λ kv, kv.1 ≠ k) d.
Proof.
  unfold od_wf, od_keys. induction d as [|[k' v'] d IH]; simpl; [done|].
  intros [Hnin Hnd]%NoDup_cons. rewrite filter_cons. simpl.
  destruct (decide (k = k')) as [->|].
  - rewrite decide_False by (intros H; by apply H). symmetry. apply filter_id.
    intros kv Hin Hk. apply Hnin. by eapply (list_elem_of_fmap_2' fst).
  - rewrite decide_True by congruence. f_equal. auto.
Qed.

Lemma od_get_filter (Q : K → Prop) `{∀ k, Decision (Q k)} k d :
  od_get k (filter (λ kv, Q kv.1) d) = if decide (Q k) then od_get k d else None.
Proof.
  induction d as [|[k' v'] d IH]; [by case_decide|]. rewrite filter_cons. simpl.
  destruct (decide (Q k')), (decide (k = k')) as [->|]; simpl; rewrite ?IH; repeat case_decide; done.
Qed.

Lemma od_wf_filter (Q : K * V → Prop) `{∀ kv, Decision (Q kv)} d : od_wf d → od_wf (filter Q d).
Proof.
  unfold od_wf, od_keys. intros Hd. eapply sublist_NoDup; [exact Hd|].
  apply fmap_sublist, sublist_filter.
Qed.

(** Assignments to new keys, in a row, append them. *)
Lemma od_set_all_fresh kvs d :
  od_wf (d ++ kvs) → foldl (λ d kv, od_set kv.1 kv.2 d) d kvs = d ++ kvs.
Proof.
  revert d. induction kvs as [|[k v] kvs IH]; intros d Hwf; simpl; [by rewrite app_nil_r|].
  rewrite od_set_fresh.
  - rewrite IH, <- app_assoc; [done|]. by rewrite <- app_assoc.
  - apply od_get_None. unfold od_wf, od_keys in *. rewrite fmap_app in Hwf.
    apply NoDup_app in Hwf as (_ & Hdis & _). intros Hin. apply (Hdis k Hin). by left.
Qed.

(** The order does not matter to a look-up. *)
Lemma od_wf_perm d d' : d ≡ₚ d' → od_wf d → od_wf d'.
Proof. unfold od_wf, od_keys. intros Hp Hd. by rewrite <- Hp. Qed.

Lemma od_get_proper k d d' : od_wf d → d ≡ₚ d' → od_get k d' = od_get k d.
Proof.
  intros Hd Hp. pose proof (od_wf_perm d d' Hp Hd) as Hd'. destruct (od_get k d) as [v|] eqn:E.
  - apply od_elem_get; [done|]. rewrite <- Hp. by apply od_get_elem.
  - apply od_get_None in E. apply od_get_None. unfold od_keys in *. by rewrite <- Hp.
Qed.
End odict.

#[export] Hint Rewrite @od_get_set : kv.
#[export] Hint Resolve od_wf_nil od_wf_set od_wf_del : kv.
