(* ===== verification/Runs.v ===== *)
(** Total correctness of statements: [runs m s Q] says that [m], started in [s], raises nothing
    and ends with a value and a state that satisfy [Q].  Rules for the statements of the
    prelude, and for loops. *)
From S2P Require Export Prelude.
From stdpp Require Import options.

Definition runs {S A} (m : py S A) (s : S) (Q : A → S → Prop) : Prop := ∃ a s', m s = (Ok a, s') ∧ Q a s'.

Section runs.
Context {S : Type}.
Implicit Types s : S.

Lemma runs_ret {A} (a : A) s (Q : A → S → Prop) : Q a s → runs (ret a) s Q.
Proof. intros HQ. by exists a, s. Qed.

Lemma runs_bind {A B} (m : py S A) (k : A → py S B) s (Q : B → S → Prop) :
  runs m s (λ a s', runs (k a) s' Q) → runs (bind m k) s Q.
Proof. intros (a & s' & Hm & b & s'' & Hk & HQ). exists b, s''. by rewrite (bind_run _ _ _ _ _ Hm). Qed.

Lemma runs_mono {A} (m : py S A) s (Q Q' : A → S → Prop) : runs m s Q → (∀ a s', Q a s' → Q' a s') → runs m s Q'.
Proof. intros (a & s' & Hm & HQ) HQ'. exists a, s'. auto. Qed.

Lemma runs_get_st {B} (k : S → py S B) s (Q : B → S → Prop) : runs (k s) s Q → runs (bind get_st k) s Q.
Proof. intros (b & s' & Hk & HQ). by exists b, s'. Qed.

Lemma runs_modify {B} (f : S → S) (k : unit → py S B) s (Q : B → S → Prop) : runs (k tt) (f s) Q → runs (bind (modify f) k) s Q.
Proof. intros (b & s' & Hk & HQ). by exists b, s'. Qed.

Lemma runs_modify_end (f : S → S) s (Q : unit → S → Prop) : Q tt (f s) → runs (modify f) s Q.
Proof. intros HQ. by exists tt, (f s). Qed.

Lemma runs_lift {A B} (r : result A) a (k : A → py S B) s (Q : B → S → Prop) :
  r = Ok a → runs (k a) s Q → runs (bind (lift r) k) s Q.
Proof. intros -> (b & s' & Hk & HQ). by exists b, s'. Qed.

Lemma runs_passert {B} (b : bool) (k : unit → py S B) s (Q : B → S → Prop) :
  b = true → runs (k tt) s Q → runs (bind (passert b) k) s Q.
Proof. intros -> (c & s' & Hk & HQ). by exists c, s'. Qed.

Lemma runs_passert_end (b : bool) s (Q : unit → S → Prop) : b = true → Q tt s → runs (passert b) s Q.
Proof. intros -> HQ. by exists tt, s. Qed.

(** A sequence, by what the first statement establishes. *)
Lemma runs_seq {A B} (m : py S A) (k : A → py S B) s (P : A → S → Prop) (Q : B → S → Prop) :
  runs m s P → (∀ a s', P a s' → runs (k a) s' Q) → runs (bind m k) s Q.
Proof. intros Hm Hk. apply runs_bind. by eapply runs_mono. Qed.

Lemma runs_assoc {A B C} (m : py S A) (k : A → py S B) (k' : B → py S C) s (Q : C → S → Prop) :
  runs (bind (bind m k) k') s Q → runs (bind m (λ a, bind (k a) k')) s Q.
Proof. unfold runs, bind. by destruct (m s) as [[a|e] s']. Qed.

(** A loop over a list, by an invariant of the elements that are left. *)
Lemma runs_for_each {A} (I : list A → S → Prop) (l : list A) (f : A → py S unit) s :
  (∀ x rest s0, I (x :: rest) s0 → runs (f x) s0 (λ _ s1, I rest s1)) → I l s → runs (for_each l f) s (λ _ s', I [] s').
Proof.
  intros Hf. revert s. induction l as [|x l IH]; intros s Hs; simpl; [by apply runs_ret|].
  eapply runs_seq; [by apply Hf|]. intros [] s' Hs'. by apply IH.
Qed.

(** Collecting the results of calls that keep the state. *)
Lemma runs_map_each {A B} (P : A → B → Prop) (l : list A) (f : A → py S B) s :
  (∀ x, x ∈ l → runs (f x) s (λ y s', s' = s ∧ P x y)) → runs (map_each l f) s (λ ys s', s' = s ∧ Forall2 P l ys).
Proof.
  induction l as [|x l IH]; intros Hf; simpl; [by apply runs_ret|].
  eapply runs_seq; [apply Hf; by left|]. intros y s' [-> Hy]. eapply runs_seq; [apply IH; intros z Hz; apply Hf; by right|].
  intros ys s' [-> Hys]. apply runs_ret. split; [done|by constructor].
Qed.

Lemma runs_run {A} (m : py S A) s (Q : A → S → Prop) a s' : runs m s Q → m s = (Ok a, s') → Q a s'.
Proof. intros (b & s'' & Hm & HQ) Hm'. rewrite Hm in Hm'. by injection Hm' as -> ->. Qed.
End runs.

(** Steps through the statements that cannot fail. *)
Ltac runs_step :=
  match goal with
  | |- runs (bind get_st _) _ _ => apply runs_get_st
  | |- runs (bind (modify _) _) _ _ => apply runs_modify
  | |- runs (modify _) _ _ => apply runs_modify_end
  | |- runs (ret _) _ _ => apply runs_ret
  | |- runs (bind (ret _) _) _ _ => apply runs_bind, runs_ret
  | |- runs (bind (bind _ _) _) _ _ => apply runs_bind, runs_bind
  end.
