(* ===== verification/PyStr.v ===== *)
(** The string operations of Python the code uses on its key strings: decimal
    formatting of an integer, [int(s)], [s.split(c)] and [s.encode("ascii")],
    with the round trips the cache keys rest on.  Strings are sequences of
    8-bit characters; CPython's 4300-digit limit on conversions is not modelled. *)
From S2P Require Export Prelude.
From Stdlib Require Import Ascii.
From stdpp Require Import options.

(** ** Decimal printing *)

Definition digit_char (d : Z) : ascii := ascii_of_nat (Z.to_nat (48 + d)).

(** The digits of [n] in front of [acc], least significant first. *)
Fixpoint dec_digits (fuel : nat) (n : Z) (acc : string) : string :=
  match fuel with
  | O => acc
  | S f =>
      let acc' := String (digit_char (n mod 10)) acc in
      if n <? 10 then acc' else dec_digits f (n / 10) acc'
  end.

(** [str(n)] and [f"{n}"]; the fuel is the bit length, at least the digit count. *)
Definition py_str (n : Z) : string :=
  let ds := dec_digits (Z.to_nat (Z.log2 (Z.abs n)) + 1) (Z.abs n) EmptyString in
  if n <? 0 then String "-"%char ds else ds.

(** ** [int(s)] *)

Definition char_digit (c : ascii) : option Z :=
  let n := Z.of_nat (nat_of_ascii c) in
  if (48 <=? n) && (n <=? 57) then Some (n - 48) else None.

(** Decimal digits with single underscores between them; [us] says that the
    previous character was not a digit, so the text may neither end nor hold
    an underscore here. *)
Fixpoint parse_digits (s : string) (v : Z) (us : bool) : option Z :=
  match s with
  | EmptyString => if us then None else Some v
  | String c s' =>
      match char_digit c with
      | Some d => parse_digits s' (10 * v + d) false
      | None => if decide (c = "_"%char) then (if us then None else parse_digits s' v true)
                else None
      end
  end.

Fixpoint lstrip (s : string) : string :=
  match s with
  | String c s' => if Ascii.is_space c then lstrip s' else s
  | EmptyString => EmptyString
  end.

(** [s.rstrip()]: the text up to the last character that is not a space. *)
Fixpoint rstrip (s : string) : string :=
  match s with
  | EmptyString => EmptyString
  | String c s' =>
      match rstrip s' with
      | EmptyString => if Ascii.is_space c then EmptyString else String c EmptyString
      | r => String c r
      end
  end.

Definition parse_signed (s : string) : option Z :=
  match s with
  | String c s' =>
      if decide (c = "-"%char) then Z.opp <$> parse_digits s' 0 true
      else if decide (c = "+"%char) then parse_digits s' 0 true
      else parse_digits s 0 true
  | EmptyString => None
  end.

(** [int(s)] in base ten. *)
Definition py_int (s : string) : result Z :=
  of_option ValueError (parse_signed (rstrip (lstrip s))).

(** ** [s.split(c)] and [c.join(l)] *)

Fixpoint split_on (c : ascii) (s : string) : list string :=
  match s with
  | EmptyString => [EmptyString]
  | String a s' =>
      if decide (a = c) then EmptyString :: split_on c s'
      else match split_on c s' with
           | w :: ws => String a w :: ws
           | [] => [String a EmptyString]
           end
  end.

Definition sep_join (c : ascii) (l : list string) : string :=
  match l with
  | [] => EmptyString
  | w :: ws => foldl (λ acc x, acc +:+ String c x) w ws
  end.

(** The occurrences of a character. *)
Fixpoint count_char (c : ascii) (s : string) : nat :=
  match s with
  | EmptyString => 0
  | String a s' => if decide (a = c) then S (count_char c s') else count_char c s'
  end.

(** [s.encode("ascii")]. *)
Definition encode_ascii (s : string) : result (list Z) :=
  let bs := (λ c, Z.of_nat (nat_of_ascii c)) <$> String.list_ascii_of_string s in
  if forallb (λ b, b <? 128) bs then Ok bs else Raise UnicodeEncodeError.

(** ** Printing and parsing integers *)

Lemma digit_cases (P : Z → Prop) d :
  0 ≤ d < 10 → P 0 → P 1 → P 2 → P 3 → P 4 → P 5 → P 6 → P 7 → P 8 → P 9 → P d.
Proof.
  intros Hd. intros.
  assert (d = 0 ∨ d = 1 ∨ d = 2 ∨ d = 3 ∨ d = 4 ∨ d = 5 ∨ d = 6 ∨ d = 7 ∨ d = 8 ∨ d = 9) as H'
    by lia.
  repeat destruct H' as [->|H']; try done. by subst.
Qed.

Lemma char_digit_char d : 0 ≤ d < 10 → char_digit (digit_char d) = Some d.
Proof. intros Hd. by apply (digit_cases (λ d, char_digit (digit_char d) = Some d)). Qed.

Lemma digit_char_not_space d : 0 ≤ d < 10 → Ascii.is_space (digit_char d) = false.
Proof. intros Hd. by apply (digit_cases (λ d, Ascii.is_space (digit_char d) = false)). Qed.

Lemma digit_char_ne d c :
  0 ≤ d < 10 → char_digit c = None → digit_char d ≠ c.
Proof. intros Hd Hc <-. rewrite char_digit_char in Hc; done. Qed.

Lemma parse_dec_digits fuel n acc us :
  (0 < fuel)%nat → 0 ≤ n < 2 ^ Z.of_nat fuel →
  parse_digits (dec_digits fuel n acc) 0 us = parse_digits acc n false.
Proof.
  revert n acc us. induction fuel as [|f IH]; intros n acc us Hf Hn; [lia|]. simpl.
  pose proof (Z.mod_pos_bound n 10 ltac:(lia)) as Hm.
  destruct (n <? 10) eqn:E; zbool.
  - simpl. rewrite char_digit_char by done. by rewrite Z.mod_small by lia.
  - rewrite Nat2Z.inj_succ, Z.pow_succ_r in Hn by lia.
    assert (f ≠ 0%nat) by (intros ->; simpl in Hn; lia).
    rewrite IH; [|lia|zlia]. simpl. rewrite char_digit_char by done. f_equal. zlia.
Qed.

(** A property of every character the printer emits. *)
Lemma dec_digits_forall (P : ascii → Prop) fuel n acc :
  0 ≤ n → (∀ d, 0 ≤ d < 10 → P (digit_char d)) →
  Forall P (String.list_ascii_of_string acc) →
  Forall P (String.list_ascii_of_string (dec_digits fuel n acc)).
Proof.
  intros Hn HP. revert n acc Hn. induction fuel as [|f IH]; intros n acc Hn Hacc; simpl; [done|].
  assert (Forall P (String.list_ascii_of_string (String (digit_char (n mod 10)) acc))).
  { constructor; [|done]. apply HP. apply Z.mod_pos_bound. lia. }
  destruct (n <? 10); [done|]. apply IH; [|done]. apply Z.div_pos; lia.
Qed.

Lemma dec_digits_first fuel n acc :
  (0 < fuel)%nat → 0 ≤ n →
  ∃ d s, dec_digits fuel n acc = String (digit_char d) s ∧ 0 ≤ d < 10.
Proof.
  revert n acc. induction fuel as [|f IH]; intros n acc Hf Hn; [lia|]. simpl.
  pose proof (Z.mod_pos_bound n 10 ltac:(lia)) as Hm.
  destruct (n <? 10) eqn:E; [eauto|]. destruct f as [|f]; [simpl; eauto|].
  apply IH; [lia|]. apply Z.div_pos; lia.
Qed.

Lemma lstrip_id c s : Ascii.is_space c = false → lstrip (String c s) = String c s.
Proof. simpl. by intros ->. Qed.

Lemma rstrip_id s :
  Forall (λ c, Ascii.is_space c = false) (String.list_ascii_of_string s) → rstrip s = s.
Proof.
  induction s as [|c s IH]; simpl; [done|]. intros [Hc Hs]%Forall_cons.
  rewrite (IH Hs). destruct s; [by rewrite Hc|done].
Qed.

Lemma py_str_chars (P : ascii → Prop) n :
  P "-"%char → (∀ d, 0 ≤ d < 10 → P (digit_char d)) →
  Forall P (String.list_ascii_of_string (py_str n)).
Proof.
  intros Hm HP. unfold py_str.
  assert (Forall P (String.list_ascii_of_string
    (dec_digits (Z.to_nat (Z.log2 (Z.abs n)) + 1) (Z.abs n) EmptyString))).
  { apply dec_digits_forall; [lia|done|constructor]. }
  destruct (n <? 0); [|done]. by constructor.
Qed.

(** [int(str(n)) = n]. *)
Lemma py_int_str n : py_int (py_str n) = Ok n.
Proof.
  unfold py_int.
  rewrite rstrip_id; last first.
  { assert (lstrip (py_str n) = py_str n) as ->; [|apply py_str_chars; [done|apply digit_char_not_space]].
    unfold py_str. destruct (n <? 0); [done|].
    destruct (dec_digits_first (Z.to_nat (Z.log2 (Z.abs n)) + 1) (Z.abs n) EmptyString)
      as (d & s & -> & Hd); [lia..|]. by apply lstrip_id, digit_char_not_space. }
  assert (∀ us, parse_digits
    (dec_digits (Z.to_nat (Z.log2 (Z.abs n)) + 1) (Z.abs n) EmptyString) 0 us = Some (Z.abs n)) as Hp.
  { intros us. rewrite parse_dec_digits; [done|lia|].
    rewrite Nat2Z.inj_add, Z2Nat.id by apply Z.log2_nonneg.
    destruct (decide (n = 0)) as [->|]; [done|].
    pose proof (Z.log2_spec (Z.abs n) ltac:(lia)). lia. }
  unfold py_str. destruct (n <? 0) eqn:E; zbool; simpl.
  - rewrite Hp. simpl. f_equal. lia.
  - destruct (dec_digits_first (Z.to_nat (Z.log2 (Z.abs n)) + 1) (Z.abs n) EmptyString)
      as (d & s & Heq & Hd); [lia..|].
    rewrite Heq, lstrip_id by by apply digit_char_not_space. cbn [parse_signed].
    rewrite !decide_False by (apply digit_char_ne; done).
    rewrite <- Heq, Hp. simpl. f_equal. lia.
Qed.

(** ** Splitting and joining *)

Lemma split_on_length c s : length (split_on c s) = S (count_char c s).
Proof.
  induction s as [|a s IH]; simpl; [done|].
  destruct (decide (a = c)); simpl; [by rewrite IH|].
  destruct (split_on c s); simpl in *; lia.
Qed.

Lemma count_char_app c s1 s2 :
  count_char c (s1 +:+ s2) = (count_char c s1 + count_char c s2)%nat.
Proof.
  induction s1 as [|a s1 IH]; [done|].
  change (String a s1 +:+ s2) with (String a (s1 +:+ s2)). simpl.
  destruct (decide (a = c)); lia.
Qed.

Lemma count_char_notin c s :
  Forall (λ a, a ≠ c) (String.list_ascii_of_string s) → count_char c s = 0%nat.
Proof.
  induction s as [|a s IH]; simpl; [done|]. intros [? ?]%Forall_cons.
  rewrite decide_False by done. auto.
Qed.

Lemma split_on_none c s : count_char c s = 0%nat → split_on c s = [s].
Proof.
  induction s as [|a s IH]; simpl; [done|]. destruct (decide (a = c)); [done|].
  intros. by rewrite IH.
Qed.

Lemma split_on_app c s1 s2 :
  count_char c s1 = 0%nat → split_on c (s1 +:+ String c s2) = s1 :: split_on c s2.
Proof.
  induction s1 as [|a s1 IH]; intros H.
  - change (split_on c (String c s2) = EmptyString :: split_on c s2). simpl.
    by rewrite decide_True.
  - change (String a s1 +:+ String c s2) with (String a (s1 +:+ String c s2)). simpl in *.
    destruct (decide (a = c)); [done|]. by rewrite IH.
Qed.

Lemma string_app_assoc s1 s2 s3 : (s1 +:+ s2) +:+ s3 = s1 +:+ (s2 +:+ s3).
Proof.
  induction s1 as [|a s1 IH]; [done|].
  change (String a ((s1 +:+ s2) +:+ s3) = String a (s1 +:+ (s2 +:+ s3))). by rewrite IH.
Qed.

Lemma py_str_no_char c n : char_digit c = None → c ≠ "-"%char → count_char c (py_str n) = 0%nat.
Proof.
  intros Hc Hm. apply count_char_notin, py_str_chars; [done|].
  intros d Hd. by apply digit_char_ne.
Qed.
