(* ===== verification/PyNum.v ===== *)
(** Python's numbers where the code mixes integers and floats: the binary64 operations of
    [SpecFloat] with Python's exceptions ([Module PyFloat]), and the union of the two types
    with its exact comparisons ([Module PyNum]). *)
From Stdlib Require Import SpecFloat.
From S2P Require Export Prelude.
From stdpp Require Import options.

#[local] Open Scope Z_scope.

(** ** Floats *)
Module PyFloat.

(** [a * b], [a + b] and [a - b] on floats. *)
Definition mul : spec_float → spec_float → spec_float := SFmul 53 1024.
Definition add : spec_float → spec_float → spec_float := SFadd 53 1024.
Definition sub : spec_float → spec_float → spec_float := SFsub 53 1024.

(** [float(n)]: rounded to nearest even, [OverflowError] above the range. *)
Definition of_int (n : Z) : result spec_float :=
  match binary_normalize 53 1024 n 0 false with
  | S754_infinity _ => Raise OverflowError
  | f => Ok f
  end.

(** [a / n] of a float by an integer. *)
Definition div_int (a : spec_float) (n : Z) : result spec_float :=
  if n =? 0 then Raise ZeroDivisionError
  else let! d := of_int n in Ok (SFdiv 53 1024 a d).

(** The number [n] itself, its mantissa as long as it may be. *)
Definition exact (n : Z) : spec_float :=
  match n with
  | Z0 => S754_zero false
  | Zpos p => S754_finite false p 0
  | Zneg p => S754_finite true p 0
  end.

(** [a / b] of integers: the quotient, rounded once. *)
Definition true_div (a b : Z) : result spec_float :=
  if b =? 0 then Raise ZeroDivisionError
  else match SFdiv 53 1024 (exact a) (exact b) with
       | S754_infinity _ => Raise OverflowError
       | f => Ok f
       end.

(** [a <= 0]. *)
Definition le_zero (a : spec_float) : bool := SFleb a (S754_zero false).

(** [math.floor(a)]. *)
Definition floor (a : spec_float) : result Z :=
  match a with
  | S754_zero _ => Ok 0
  | S754_infinity _ => Raise OverflowError
  | S754_nan => Raise ValueError
  | S754_finite s m e =>
      let z := if s then Zneg m else Zpos m in
      Ok (if 0 <=? e then z * 2 ^ e else z `div` 2 ^ (- e))
  end.

(** [int(a)]: towards zero. *)
Definition trunc (a : spec_float) : result Z :=
  match a with
  | S754_zero _ => Ok 0
  | S754_infinity _ => Raise OverflowError
  | S754_nan => Raise ValueError
  | S754_finite s m e =>
      let z := if s then Zneg m else Zpos m in
      Ok (if 0 <=? e then z * 2 ^ e else z `quot` 2 ^ (- e))
  end.

Example floor_ex :
  (let! d := of_int 7 in let! q := div_int d 2 in floor q) = Ok 3
  ∧ (let! d := of_int (-7) in let! q := div_int d 2 in floor q) = Ok (-4)
  ∧ (let! q := true_div (-7) 2 in trunc q) = Ok (-3).
Proof. vm_compute. done. Qed.

(** [1 / 3] as Python prints it: 6004799503160661 * 2 ** -54; a quotient of integers that no
    float holds is rounded once. *)
Example true_div_ex :
  true_div 1 3 = Ok (S754_finite false 6004799503160661 (-54))
  ∧ true_div (2 ^ 53 + 1) 1 = Ok (S754_finite false (2 ^ 52) 1)
  ∧ true_div (2 ^ 1024) 1 = Raise OverflowError.
Proof. vm_compute. done. Qed.

(** *** How large a rounded number is *)

Lemma digits2_pos_bounds p : 2 ^ (Zpos (digits2_pos p) - 1) ≤ Zpos p < 2 ^ Zpos (digits2_pos p).
Proof.
  induction p as [p IH|p IH|]; [| |done]; cbn [digits2_pos]; rewrite Pos2Z.inj_succ;
    rewrite <- Z.add_1_r, Z.add_simpl_r, Z.pow_add_r by lia;
    replace (2 ^ Zpos (digits2_pos p)) with (2 * 2 ^ (Zpos (digits2_pos p) - 1)) in *
      by (rewrite <- Z.pow_succ_r by lia; f_equal; lia); lia.
Qed.

Lemma Zdigits2_le m k : 0 ≤ m < 2 ^ k → 0 ≤ k → Zdigits2 m ≤ k.
Proof.
  intros Hm Hk. destruct m as [|p|p]; simpl; [done| |lia].
  pose proof (digits2_pos_bounds p) as [H1 _].
  assert (Zpos (digits2_pos p) - 1 < k); [|lia]. apply (Z.pow_lt_mono_r_iff 2); lia.
Qed.

Lemma Zdigits2_lt m : 0 ≤ m → m < 2 ^ Zdigits2 m.
Proof. intros Hm. destruct m as [|p|p]; simpl; [done|by apply digits2_pos_bounds|lia]. Qed.

Lemma shr_1_m mrs : 0 ≤ shr_m mrs → shr_m (shr_1 mrs) = shr_m mrs `div` 2.
Proof.
  destruct mrs as [[|p|p] r s]; simpl; intros Hm; [done| |lia].
  destruct p as [p|p|]; simpl; [|by rewrite Pos2Z.inj_xO, Z.mul_comm, Z.div_mul|done].
  rewrite Pos2Z.inj_xI. apply (Z.div_unique _ _ _ 1); lia.
Qed.

Lemma iter_shr_m p mrs :
  0 ≤ shr_m mrs → shr_m (SpecFloat.iter_pos shr_1 p mrs) = shr_m mrs `div` 2 ^ Zpos p.
Proof.
  assert (∀ a k, 0 ≤ a → 0 ≤ a `div` 2 ^ Zpos k) as Hd by (intros; apply Z.div_pos; lia).
  revert mrs. induction p as [p IH|p IH|]; intros mrs Hm; cbn [SpecFloat.iter_pos].
  - pose proof (shr_1_m mrs Hm) as H1. assert (0 ≤ shr_m (shr_1 mrs)) as P1 by (rewrite H1; by apply (Hd _ 1%positive)).
    rewrite IH by (rewrite IH by done; auto). rewrite IH, H1, !Z.div_div by lia. f_equal.
    replace (Zpos p~1) with (1 + (Zpos p + Zpos p)) by lia. rewrite !Z.pow_add_r by lia. ring.
  - rewrite IH by (rewrite IH by done; auto). rewrite IH, !Z.div_div by lia. f_equal.
    replace (Zpos p~0) with (Zpos p + Zpos p) by lia. by rewrite Z.pow_add_r by lia.
  - by apply shr_1_m.
Qed.

(** A mantissa of at most 53 bits, at an exponent of at most [E]. *)
Definition fits (E m e : Z) : Prop := 0 ≤ m < 2 ^ 53 ∧ e ≤ E.

Lemma fexp_bounds d E : d ≤ 53 + E → -1074 ≤ E → d - 53 ≤ fexp 53 1024 d ≤ E.
Proof. unfold fexp, emin. lia. Qed.

(** The first step of rounding: the mantissa is cut to 53 bits. *)
Lemma shr_fexp_fits E m e l :
  0 ≤ m < (2 ^ 53 - 1) * 2 ^ (E - e) → e ≤ E → -1074 ≤ E →
  let '(mrs, e') := shr_fexp 53 1024 m e l in
  fits E (shr_m mrs) e' ∧ (e' = E → shr_m mrs < 2 ^ 53 - 1).
Proof.
  intros Hm He HE. pose proof (Zdigits2_lt m ltac:(lia)) as Hd.
  assert (Zdigits2 m ≤ 53 + (E - e)) as Hdk.
  { apply Zdigits2_le; [|lia]. rewrite Z.pow_add_r by lia. nia. }
  pose proof (fexp_bounds (Zdigits2 m + e) E ltac:(lia) HE) as [F1 F2].
  assert (shr_m (shr_record_of_loc m l) = m) as Hrec by (by destruct l as [|[]]).
  unfold shr_fexp, shr. destruct (fexp 53 1024 (Zdigits2 m + e) - e) as [|p|p] eqn:Hn.
  - rewrite Hrec. assert (Zdigits2 m ≤ 53) by lia.
    assert (2 ^ Zdigits2 m ≤ 2 ^ 53) by (apply Z.pow_le_mono_r; lia). split; [split; lia|].
    intros ->. rewrite Z.sub_diag, Z.mul_1_r in Hm. lia.
  - rewrite iter_shr_m, Hrec by (rewrite Hrec; lia). split; [split; [split|lia]|].
    + apply Z.div_pos; lia.
    + apply Z.div_lt_upper_bound; [lia|]. rewrite <- Z.pow_add_r by lia.
      eapply Z.lt_le_trans; [exact Hd|]. apply Z.pow_le_mono_r; lia.
    + intros HeE. apply Z.div_lt_upper_bound; [lia|]. replace (Zpos p) with (E - e) by lia. lia.
  - rewrite Hrec. assert (Zdigits2 m ≤ 53) by lia.
    assert (2 ^ Zdigits2 m ≤ 2 ^ 53) by (apply Z.pow_le_mono_r; lia). split; [split; lia|].
    intros ->. rewrite Z.sub_diag, Z.mul_1_r in Hm. lia.
Qed.

(** A number below the largest one at the exponent [E] is rounded to one at most that. *)
Lemma round_aux_fits E s m e l :
  0 ≤ m < (2 ^ 53 - 1) * 2 ^ (E - e) → e ≤ E → -1074 ≤ E ≤ 971 →
  match binary_round_aux 53 1024 s m e l with
  | S754_zero s' => s' = s
  | S754_finite s' m' e' => s' = s ∧ fits E (Zpos m') e'
  | _ => False
  end.
Proof.
  intros Hm He HE. unfold binary_round_aux.
  pose proof (shr_fexp_fits E m e l Hm He ltac:(lia)) as H1.
  destruct (shr_fexp 53 1024 m e l) as [mrs e'] eqn:E1. destruct H1 as [[Hm1 He1] Hs1].
  set (m1 := round_nearest_even (shr_m mrs) (loc_of_shr_record mrs)).
  assert (shr_m mrs ≤ m1 ≤ shr_m mrs + 1) as Hr.
  { unfold m1, round_nearest_even. destruct (loc_of_shr_record mrs) as [|[]]; [lia| |lia..].
    destruct (Z.even (shr_m mrs)); lia. }
  assert (let '(mrs2, e2) := shr_fexp 53 1024 m1 e' loc_Exact in fits E (shr_m mrs2) e2) as H2.
  { destruct (decide (e' = E)) as [->|HeE].
    - unfold shr_fexp. assert (Zdigits2 m1 ≤ 53) by (apply Zdigits2_le; lia).
      pose proof (fexp_bounds (Zdigits2 m1 + E) E ltac:(lia) ltac:(lia)).
      unfold shr. destruct (fexp 53 1024 (Zdigits2 m1 + E) - E) eqn:?; [|lia|]; split; simpl; specialize (Hs1 eq_refl); lia.
    - pose proof (shr_fexp_fits E m1 e' loc_Exact) as H2. destruct (shr_fexp 53 1024 m1 e' loc_Exact) as [mrs2 e2].
      apply H2; [|lia..]. split; [lia|].
      assert (2 ^ 1 ≤ 2 ^ (E - e')) by (apply Z.pow_le_mono_r; lia). nia. }
  destruct (shr_fexp 53 1024 m1 e' loc_Exact) as [mrs2 e2]. destruct H2 as [Hm2 He2].
  destruct (shr_m mrs2) as [|p|p] eqn:Ep; [done| |lia].
  rewrite (proj2 (Z.leb_le _ _)) by lia. split; [done|]. split; [lia|done].
Qed.

Lemma iter_xO m d : Zpos (Pos.iter xO m d) = Zpos m * 2 ^ Zpos d.
Proof.
  induction d as [|d IH] using Pos.peano_ind; [simpl; lia|].
  rewrite Pos.iter_succ, Pos2Z.inj_succ, Z.pow_succ_r, Pos2Z.inj_xO, IH by lia. ring.
Qed.

Lemma shl_align_spec m e e' :
  let '(m', e2) := shl_align m e e' in
  e2 = Z.min e e' ∧ Zpos m' = Zpos m * 2 ^ (e - e2).
Proof.
  unfold shl_align. destruct (e' - e) as [|d|d] eqn:Hd.
  - split; [lia|]. rewrite Z.sub_diag. lia.
  - split; [lia|]. rewrite Z.sub_diag. lia.
  - split; [lia|]. rewrite iter_xO. do 2 f_equal. lia.
Qed.

Lemma shl_align_fst m e e' : e' ≤ e → Zpos (fst (shl_align m e e')) = Zpos m * 2 ^ (e - e').
Proof.
  intros He. pose proof (shl_align_spec m e e') as H. destruct (shl_align m e e') as [m' e2].
  destruct H as [-> H]. simpl. by rewrite Z.min_r in H by lia.
Qed.

Lemma round_fits E s m e :
  Zpos m < (2 ^ 53 - 1) * 2 ^ (E - e) → e ≤ E → -1074 ≤ E ≤ 971 →
  match binary_round 53 1024 s m e with
  | S754_zero s' => s' = s
  | S754_finite s' m' e' => s' = s ∧ fits E (Zpos m') e'
  | _ => False
  end.
Proof.
  intros Hm He HE. unfold binary_round.
  pose proof (shl_align_spec m e (fexp 53 1024 (Zpos (digits2_pos m) + e))) as H.
  destruct (shl_align m e _) as [m' e2]. destruct H as [He2 Hm'].
  apply round_aux_fits; [|lia..]. split; [lia|].
  replace (E - e2) with ((E - e) + (e - e2)) by lia. rewrite Z.pow_add_r, Hm' by lia. nia.
Qed.

(** Zero, or a positive number that fits. *)
Definition nonneg_fits (E : Z) (f : spec_float) : Prop :=
  match f with
  | S754_zero _ => True
  | S754_finite false m e => fits E (Zpos m) e
  | _ => False
  end.

Lemma normalize_fits E m e :
  0 ≤ m < (2 ^ 53 - 1) * 2 ^ (E - e) → e ≤ E → -1074 ≤ E ≤ 971 →
  nonneg_fits E (binary_normalize 53 1024 m e false).
Proof.
  intros Hm He HE. destruct m as [|p|p]; simpl; [done| |lia].
  pose proof (round_fits E false p e ltac:(lia) He HE) as H. unfold nonneg_fits.
  destruct (binary_round 53 1024 false p e) as [|?| |[] ? ?]; try done; by destruct H.
Qed.

Lemma of_int_fits n : 0 ≤ n ≤ 2 ^ 63 → ∃ f, of_int n = Ok f ∧ nonneg_fits 63 f.
Proof.
  intros Hn. pose proof (normalize_fits 63 n 0 ltac:(lia) ltac:(lia) ltac:(lia)) as H. unfold of_int.
  exists (binary_normalize 53 1024 n 0 false). by destruct (binary_normalize 53 1024 n 0 false).
Qed.

Lemma true_div_fits a b :
  0 ≤ a ≤ 2 ^ 65 → 0 < b → ∃ q, true_div a b = Ok q ∧ nonneg_fits 65 q.
Proof.
  intros Ha Hb. unfold true_div. rewrite (proj2 (Z.eqb_neq _ _)) by lia.
  destruct b as [|b|b]; [lia| |lia]. destruct a as [|a|a]; [by exists (S754_zero false)| |lia].
  assert (nonneg_fits 65 (SFdiv 53 1024 (exact (Zpos a)) (exact (Zpos b)))) as H.
  { unfold exact, SFdiv, SFdiv_core_binary.
    set (e := Z.min _ _). assert (e ≤ 0) as He by (unfold e; lia).
    set (m := match 0 - 0 - e with Z0 => _ | _ => _ end).
    assert (m = Zpos a * 2 ^ (- e)) as Hm.
    { unfold m. destruct (0 - 0 - e) as [|p|p] eqn:Ep; [replace e with 0 by lia; lia| |lia].
      rewrite Z.shiftl_mul_pow2 by lia. do 2 f_equal. lia. }
    pose proof (Z_div_mod m (Zpos b) ltac:(lia)) as Hdm. destruct (Z.div_eucl m (Zpos b)) as [q r].
    destruct Hdm as [Hq Hr]. assert (0 ≤ q ≤ m) as Hqm.
    { assert (0 ≤ m) by (rewrite Hm; apply Z.mul_nonneg_nonneg; lia). nia. }
    assert (0 ≤ q < (2 ^ 53 - 1) * 2 ^ (65 - e)) as Hrange.
    { split; [lia|]. replace (65 - e) with (65 + - e) by lia. rewrite Z.pow_add_r by lia.
      assert (0 < 2 ^ (- e)) by (apply Z.pow_pos_nonneg; lia). nia. }
    pose proof (round_aux_fits 65 false q e (new_location (Zpos b) r) Hrange ltac:(lia) ltac:(lia)) as H.
    unfold nonneg_fits, xorb. by destruct (binary_round_aux 53 1024 false q e _) as [|?| |[] ? ?]; destruct H. }
  exists (SFdiv 53 1024 (exact (Zpos a)) (exact (Zpos b))).
  by destruct (SFdiv 53 1024 (exact (Zpos a)) (exact (Zpos b))).
Qed.

(** An aligned mantissa stays below the bound of its number. *)
Lemma aligned_bound E m e e' :
  fits E (Zpos m) e → e' ≤ e → 0 < Zpos (fst (shl_align m e e')) ≤ (2 ^ 53 - 1) * 2 ^ (E - e').
Proof.
  intros [Hm He] He'. rewrite shl_align_fst by done.
  assert (2 ^ (e - e') ≤ 2 ^ (E - e')) by (apply Z.pow_le_mono_r; lia).
  assert (0 < 2 ^ (e - e')) by (apply Z.pow_pos_nonneg; lia). nia.
Qed.

Lemma nonneg_fits_mono E E' x : nonneg_fits E x → E ≤ E' → nonneg_fits E' x.
Proof. unfold nonneg_fits, fits. destruct x as [|?| |[] ? ?]; intros; try done; lia. Qed.

Lemma add_fits E x y :
  nonneg_fits E x → nonneg_fits E y → -1074 ≤ E ≤ 900 → nonneg_fits (E + 2) (add x y).
Proof.
  intros Hx Hy HE. destruct x as [sx|?| |[] mx ex]; try done;
    destruct y as [sy|?| |[] my ey]; try done; try (by eapply nonneg_fits_mono; [done|lia]).
  - by destruct sx, sy.
  - unfold add, SFadd, cond_Zopp. cbv zeta. set (ez := Z.min ex ey).
    pose proof (aligned_bound E mx ex ez Hx ltac:(lia)) as [Bx1 Bx2].
    pose proof (aligned_bound E my ey ez Hy ltac:(lia)) as [By1 By2].
    destruct Hx as [_ Hx], Hy as [_ Hy].
    apply normalize_fits; [|lia..]. split; [lia|].
    replace (E + 2 - ez) with (2 + (E - ez)) by lia. rewrite Z.pow_add_r by lia.
    assert (0 < 2 ^ (E - ez)) by (apply Z.pow_pos_nonneg; lia). nia.
Qed.

(** A difference is below the first number, or negative. *)
Lemma sub_fits E E' x y :
  nonneg_fits E x → nonneg_fits E' y → -1074 ≤ E ≤ 971 → -1074 ≤ E' ≤ 971 →
  nonneg_fits E (sub x y) ∨ ∃ m e, sub x y = S754_finite true m e ∧ fits E' (Zpos m) e.
Proof.
  intros Hx Hy HE HE'. destruct x as [sx|?| |[] mx ex]; try done;
    destruct y as [sy|?| |[] my ey]; try done; [left; by destruct sx, sy|right; by eexists _, _|by left|].
  unfold sub, SFsub, cond_Zopp. cbv zeta. set (ez := Z.min ex ey).
  pose proof (aligned_bound E mx ex ez Hx ltac:(lia)) as [Bx1 Bx2].
  pose proof (aligned_bound E' my ey ez Hy ltac:(lia)) as [By1 By2].
  destruct Hx as [_ Hx], Hy as [_ Hy].
  set (d := Zpos (fst (shl_align mx ex ez)) - Zpos (fst (shl_align my ey ez))).
  destruct (Z.le_gt_cases 0 d) as [Hd|Hd].
  - left. apply normalize_fits; lia.
  - destruct d as [|p|p] eqn:Ed; [lia..|]. simpl.
    pose proof (round_fits E' true p ez ltac:(lia) ltac:(lia) ltac:(lia)) as H.
    destruct (binary_round 53 1024 true p ez) as [|?| |s m e]; try done; [by left|].
    destruct H as [-> H]. right. by exists m, e.
Qed.

Lemma trunc_fits E x : nonneg_fits E x → ∃ z, trunc x = Ok z.
Proof. destruct x as [|?| |[] ? ?]; intros; try done; by eexists. Qed.
End PyFloat.

(** ** Integers and floats together *)
Module PyNum.

Inductive t := Int (z : Z) | Float (f : spec_float).

Definition to_float (x : t) : result spec_float :=
  match x with Int z => PyFloat.of_int z | Float f => Ok f end.

(** [x + y] and [x - y]: of two integers exactly, otherwise of floats. *)
Definition add (x y : t) : result t :=
  match x, y with
  | Int a, Int b => Ok (Int (a + b))
  | _, _ => let! a := to_float x in let! b := to_float y in Ok (Float (PyFloat.add a b))
  end.

Definition sub (x y : t) : result t :=
  match x, y with
  | Int a, Int b => Ok (Int (a - b))
  | _, _ => let! a := to_float x in let! b := to_float y in Ok (Float (PyFloat.sub a b))
  end.

(** [x < y]; an integer and a float are compared exactly. *)
Definition lt (x y : t) : bool :=
  match x, y with
  | Int a, Int b => a <? b
  | Float a, Float b => SFltb a b
  | Int a, Float f =>
      match f with
      | S754_zero _ => a <? 0
      | S754_infinity s => negb s
      | S754_nan => false
      | S754_finite s m e =>
          let z := if s then Zneg m else Zpos m in
          if 0 <=? e then a <? z * 2 ^ e else a * 2 ^ (- e) <? z
      end
  | Float f, Int a =>
      match f with
      | S754_zero _ => 0 <? a
      | S754_infinity s => s
      | S754_nan => false
      | S754_finite s m e =>
          let z := if s then Zneg m else Zpos m in
          if 0 <=? e then z * 2 ^ e <? a else z <? a * 2 ^ (- e)
      end
  end.

(** [min(x, y)] and [max(x, y)]: the first argument, unless the second is less, or greater. *)
Definition py_min (x y : t) : t := if lt y x then y else x.
Definition py_max (x y : t) : t := if lt x y then y else x.

(** [int(x)] *)
Definition trunc (x : t) : result Z :=
  match x with Int z => Ok z | Float f => PyFloat.trunc f end.

Example mixed_ex :
  lt (Int (2 ^ 53 + 1)) (Float (S754_finite false (2 ^ 52) 1)) = false
  ∧ lt (Float (S754_finite false (2 ^ 52) 1)) (Int (2 ^ 53 + 1)) = true
  ∧ add (Int (2 ^ 53 + 1)) (Float (S754_zero false)) = Ok (Float (S754_finite false (2 ^ 52) 1))
  ∧ py_max (Int 1) (Float (S754_finite false 1 0)) = Int 1.
Proof. vm_compute. done. Qed.

(** A number between 0 and [2 ** 64], as the code may hold it: no NaN, no infinity. *)
Definition nonneg (E : Z) (x : t) : Prop :=
  match x with Int z => 0 ≤ z ≤ 2 ^ 63 | Float f => PyFloat.nonneg_fits E f end.

Lemma to_float_nonneg E x : nonneg E x → 63 ≤ E → ∃ f, to_float x = Ok f ∧ PyFloat.nonneg_fits E f.
Proof.
  intros Hx HE. destruct x as [z|f]; simpl in *; [|by exists f].
  destruct (PyFloat.of_int_fits z Hx) as (f & Hf & Hn). exists f. split; [done|].
  by eapply PyFloat.nonneg_fits_mono.
Qed.

(** [min(x + y, cap)]: the sum does not raise, and is cut to [cap]. *)
Lemma add_min_nonneg E x y cap :
  nonneg E x → nonneg E y → 63 ≤ E ≤ 900 → 0 ≤ cap ≤ 2 ^ 63 →
  ∃ s, add x y = Ok s ∧ nonneg 63 (py_min s (Int cap)).
Proof.
  intros Hx Hy HE Hc.
  assert (∀ f, PyFloat.nonneg_fits (E + 2) f → nonneg 63 (py_min (Float f) (Int cap))) as Hmin.
  { intros f Hf. unfold py_min. destruct (lt (Int cap) (Float f)) eqn:Hl; [done|].
    destruct f as [|?| |[] m e]; try done. destruct Hf as [Hm He]. split; [done|]. simpl in Hl.
    destruct (Z.leb_spec 0 e); [|lia]. apply Z.ltb_ge in Hl.
    destruct (Z.le_gt_cases e 63) as [|He63]; [done|].
    assert (2 ^ 64 ≤ 2 ^ e) by (apply Z.pow_le_mono_r; lia). nia. }
  destruct (to_float_nonneg E x Hx ltac:(lia)) as (fx & Ex & Nx).
  destruct (to_float_nonneg E y Hy ltac:(lia)) as (fy & Ey & Ny).
  pose proof (Hmin _ (PyFloat.add_fits E fx fy Nx Ny ltac:(lia))) as Hs.
  destruct x as [a|fa], y as [b|fb]; unfold add; [|rewrite Ex, Ey; by eexists..].
  eexists. split; [done|]. simpl in *. unfold py_min. simpl. destruct (Z.ltb_spec cap (a + b)); simpl; lia.
Qed.

(** [max(x - y, 0)]: the difference does not raise, and is not larger than [x]. *)
Lemma sub_max_nonneg E E' x y :
  nonneg E x → nonneg E' y → 63 ≤ E ≤ 900 → 63 ≤ E' ≤ 900 →
  ∃ s, sub x y = Ok s ∧ nonneg E (py_max s (Int 0)).
Proof.
  intros Hx Hy HE HE'.
  destruct (to_float_nonneg E x Hx ltac:(lia)) as (fx & Ex & Nx).
  destruct (to_float_nonneg E' y Hy ltac:(lia)) as (fy & Ey & Ny).
  assert (nonneg E (py_max (Float (PyFloat.sub fx fy)) (Int 0))) as Hs.
  { unfold py_max. destruct (PyFloat.sub_fits E E' fx fy Nx Ny ltac:(lia) ltac:(lia)) as [Hn|(m & e & -> & _)].
    - destruct (lt (Float (PyFloat.sub fx fy)) (Int 0)); [simpl; lia|done].
    - simpl. destruct (Z.leb_spec 0 e).
      + assert (0 < 2 ^ e) by (apply Z.pow_pos_nonneg; lia).
        rewrite (proj2 (Z.ltb_lt _ _)) by lia. simpl. lia.
      + rewrite (proj2 (Z.ltb_lt _ _)) by lia. simpl. lia. }
  destruct x as [a|fa], y as [b|fb]; unfold sub; [|rewrite Ex, Ey; by eexists..].
  eexists. split; [done|]. simpl in *. unfold py_max. simpl. destruct (Z.ltb_spec (a - b) 0); simpl; lia.
Qed.

Lemma nonneg_mono E E' x : nonneg E x → E ≤ E' → nonneg E' x.
Proof. destruct x; simpl; [done|]. intros. by eapply PyFloat.nonneg_fits_mono. Qed.

Lemma trunc_nonneg E x : nonneg E x → ∃ z, trunc x = Ok z.
Proof. destruct x as [z|f]; simpl; [by eexists|apply PyFloat.trunc_fits]. Qed.
End PyNum.
