(* ===== verification/Sha256.v ===== *)
(** [hashlib.sha256] (FIPS 180-4), which names every cached chunk: bytes are
    integers in [0, 256), words are integers in [0, 2^32), and the digest is the
    64-character lower-case hexadecimal string of [hexdigest()].  The functions
    are executable and checked against the standard's test vectors. *)
From S2P Require Export Prelude.
From Stdlib Require Import Ascii.
From stdpp Require Import options.

Module Sha256.

Definition w32 : Z := 2 ^ 32.
Definition add32 (x y : Z) : Z := (x + y) mod w32.
Definition rotr (n x : Z) : Z :=
  Z.lor (Z.shiftr x n) (Z.shiftl x (32 - n) mod w32).
Definition ch (x y z : Z) : Z := Z.lxor (Z.land x y) (Z.land (w32 - 1 - x) z).
Definition maj (x y z : Z) : Z :=
  Z.lxor (Z.land x y) (Z.lxor (Z.land x z) (Z.land y z)).
Definition bsig0 (x : Z) : Z := Z.lxor (rotr 2 x) (Z.lxor (rotr 13 x) (rotr 22 x)).
Definition bsig1 (x : Z) : Z := Z.lxor (rotr 6 x) (Z.lxor (rotr 11 x) (rotr 25 x)).
Definition ssig0 (x : Z) : Z := Z.lxor (rotr 7 x) (Z.lxor (rotr 18 x) (Z.shiftr x 3)).
Definition ssig1 (x : Z) : Z := Z.lxor (rotr 17 x) (Z.lxor (rotr 19 x) (Z.shiftr x 10)).

(** [root k n]: the integer [k]-th root of [n] below 2^40, one bit at a time. *)
Fixpoint root_bits (bit : nat) (k n r : Z) : Z :=
  match bit with
  | O => r
  | S b =>
      let r' := r + 2 ^ Z.of_nat b in
      root_bits b k n (if r' ^ k <=? n then r' else r)
  end.

Definition root (k n : Z) : Z := root_bits 40 k n 0.

(** The first [n] primes from [p] on, by trial division. *)
Fixpoint primes (fuel : nat) (n : nat) (p : Z) : list Z :=
  match fuel, n with
  | S f, S m =>
      if existsb (λ d, p mod d =? 0) (seqZ 2 (root 2 p - 1)) then primes f n (p + 1)
      else p :: primes f m (p + 1)
  | _, _ => []
  end.

(** The standard's constants: the first 32 bits of the fractional parts of the cube
    roots of the first 64 primes, and of the square roots of the first 8. *)
Definition round_constants : list Z :=
  Eval vm_compute in (λ p, root 3 (p * 2 ^ 96) mod w32) <$> primes 400 64 2.

Definition initial_words : list Z :=
  Eval vm_compute in (λ p, root 2 (p * 2 ^ 64) mod w32) <$> primes 400 8 2.

(** The eight working variables. *)
Record hstate := HState { ha : Z; hb : Z; hc : Z; hd : Z; he : Z; hf : Z; hg : Z; hh : Z }.

Definition initial_hash : hstate :=
  let w := λ i, nth i initial_words 0 in
  HState (w 0%nat) (w 1%nat) (w 2%nat) (w 3%nat) (w 4%nat) (w 5%nat) (w 6%nat) (w 7%nat).

Definition round (s : hstate) (k w : Z) : hstate :=
  let t1 := add32 (add32 (hh s) (bsig1 (he s))) (add32 (ch (he s) (hf s) (hg s)) (add32 k w)) in
  let t2 := add32 (bsig0 (ha s)) (maj (ha s) (hb s) (hc s)) in
  HState (add32 t1 t2) (ha s) (hb s) (hc s) (add32 (hd s) t1) (he s) (hf s) (hg s).

(** The message schedule as a window on its next sixteen words. *)
Definition next_window (w : list Z) : list Z :=
  tail w ++ [add32 (add32 (ssig1 (nth 14 w 0)) (nth 9 w 0)) (add32 (ssig0 (nth 1 w 0)) (nth 0 w 0))].

Fixpoint rounds (ks : list Z) (w : list Z) (s : hstate) : hstate :=
  match ks with
  | [] => s
  | k :: ks' => rounds ks' (next_window w) (round s k (nth 0 w 0))
  end.

Definition compress (s : hstate) (w : list Z) : hstate :=
  let s' := rounds round_constants w s in
  HState (add32 (ha s) (ha s')) (add32 (hb s) (hb s')) (add32 (hc s) (hc s'))
         (add32 (hd s) (hd s')) (add32 (he s) (he s')) (add32 (hf s) (hf s'))
         (add32 (hg s) (hg s')) (add32 (hh s) (hh s')).

(** Sixteen big-endian words from the next sixty-four bytes. *)
Fixpoint words (n : nat) (bs : list Z) : list Z :=
  match n, bs with
  | S n', b0 :: b1 :: b2 :: b3 :: bs' =>
      (((b0 * 256 + b1) * 256 + b2) * 256 + b3) :: words n' bs'
  | _, _ => []
  end.

Fixpoint blocks (n : nat) (bs : list Z) (s : hstate) : hstate :=
  match n with
  | O => s
  | S n' => blocks n' (drop 64 bs) (compress s (words 16 bs))
  end.

(** [n] bytes of [x], most significant first. *)
Fixpoint be_bytes (n : nat) (x : Z) : list Z :=
  match n with
  | O => []
  | S n' => be_bytes n' (x / 256) ++ [x mod 256]
  end.

Definition pad (bs : list Z) : list Z :=
  let n := zlen bs in
  bs ++ [128] ++ replicate (Z.to_nat ((55 - n) mod 64)) 0 ++ be_bytes 8 (8 * n).

Definition digest_state (bs : list Z) : hstate :=
  let p := pad bs in blocks (length p / 64) p initial_hash.

(** One lower-case hexadecimal digit, and the [n] digits of a word. *)
Definition hex_digit (x : Z) : ascii :=
  ascii_of_nat (Z.to_nat (if x <? 10 then 48 + x else 87 + x)).

Fixpoint hex_word (n : nat) (x : Z) (acc : string) : string :=
  match n with
  | O => acc
  | S n' => hex_word n' (x / 16) (String (hex_digit (x mod 16)) acc)
  end.

Definition hex_state (s : hstate) : string :=
  foldr (hex_word 8) EmptyString [ha s; hb s; hc s; hd s; he s; hf s; hg s; hh s].

(** [hashlib.sha256(bs).hexdigest()]. *)
Definition hexdigest (bs : list Z) : string := hex_state (digest_state bs).

Definition bytes_of_string (s : string) : list Z :=
  (λ c, Z.of_nat (nat_of_ascii c)) <$> String.list_ascii_of_string s.

Example sha256_empty :
  hexdigest [] = "e3b0c44298fc1c149afbf4c8996fb92427ae41e4649b934ca495991b7852b855"%string.
Proof. vm_compute. reflexivity. Qed.

Example sha256_abc :
  hexdigest (bytes_of_string "abc")
  = "ba7816bf8f01cfea414140de5dae2223b00361a396177a9cb410ff61f20015ad"%string.
Proof. vm_compute. reflexivity. Qed.

Example sha256_two_blocks :
  hexdigest (bytes_of_string "abcdbcdecdefdefgefghfghighijhijkijkljklmklmnlmnomnopnopq")
  = "248d6a61d20638b8e5c026930c3e6039a33ce45964ff2167f6ecedd419db06c1"%string.
Proof. vm_compute. reflexivity. Qed.

(** *** The shape of a digest *)

(** The characters a digest is made of. *)
Definition is_hex (c : ascii) : bool :=
  let n := Z.of_nat (nat_of_ascii c) in
  ((48 <=? n) && (n <=? 57)) || ((97 <=? n) && (n <=? 102)).

Definition all_hex (s : string) : Prop := Forall (λ c, is_hex c = true) (String.list_ascii_of_string s).

Lemma hex_digit_ok x : 0 ≤ x < 16 → is_hex (hex_digit x) = true.
Proof.
  intros Hx. unfold hex_digit.
  assert (x ∈ seqZ 0 16) as Hin by (apply elem_of_seqZ; lia).
  revert Hin. change (seqZ 0 16) with [0;1;2;3;4;5;6;7;8;9;10;11;12;13;14;15].
  intros Hin. repeat (apply elem_of_cons in Hin as [->|Hin]; [reflexivity|]).
  by apply elem_of_nil in Hin.
Qed.

Lemma hex_word_shape n x acc :
  all_hex acc →
  String.length (hex_word n x acc) = (n + String.length acc)%nat ∧ all_hex (hex_word n x acc).
Proof.
  revert x acc. induction n as [|n IH]; intros x acc Hacc; simpl; [done|].
  destruct (IH (x / 16) (String (hex_digit (x mod 16)) acc)) as [-> H].
  - constructor; [|done]. apply hex_digit_ok. apply Z.mod_pos_bound. lia.
  - split; [simpl; lia|done].
Qed.

Lemma hex_words_shape l :
  String.length (foldr (hex_word 8) EmptyString l) = (8 * length l)%nat
  ∧ all_hex (foldr (hex_word 8) EmptyString l).
Proof.
  induction l as [|x l [IHl IHh]]; [split; [done|constructor]|].
  destruct (hex_word_shape 8 x _ IHh) as [Hl Hh].
  split; [|exact Hh]. cbn [foldr length]. rewrite Hl, IHl. lia.
Qed.

Lemma hex_state_shape s : String.length (hex_state s) = 64%nat ∧ all_hex (hex_state s).
Proof. apply (hex_words_shape [_; _; _; _; _; _; _; _]). Qed.

Lemma hexdigest_length bs : String.length (hexdigest bs) = 64%nat.
Proof. apply hex_state_shape. Qed.

Lemma hexdigest_hex bs : all_hex (hexdigest bs).
Proof. apply hex_state_shape. Qed.

#[global] Opaque digest_state.
End Sha256.
