(* ===== verification/CacheKey.v ===== *)
(** [infinikv/infinikv/utils.py]: the keys of the cache index, their textual
    form on the lookup server, the per-layer keys, and the hash-to-id map. *)
From S2P Require Export PyStr Sha256 OrderedDict.
From Stdlib Require Import Ascii.
From stdpp Require Import options.

(** [CacheEngineKey]: the five fields of the dataclass, compared field by field. *)
Record CacheEngineKey := CEKey {
  fmt : string;
  model_name : string;
  world_size : Z;
  worker_id : Z;
  chunk_hash : string
}.

#[export] Instance CacheEngineKey_eq_dec : EqDecision CacheEngineKey.
Proof. solve_decision. Defined.

#[export] Program Instance CacheEngineKey_countable : Countable CacheEngineKey :=
  inj_countable' (λ k, (fmt k, model_name k, world_size k, worker_id k, chunk_hash k))
    (λ '(f, m, w, i, h), CEKey f m w i h) _.
Next Obligation. by intros []. Qed.

(** [LayerCacheEngineKey(CacheEngineKey)] adds the layer. *)
Record LayerCacheEngineKey := LCEKey { base_key : CacheEngineKey; layer_id : Z }.

#[export] Instance LayerCacheEngineKey_eq_dec : EqDecision LayerCacheEngineKey.
Proof. solve_decision. Defined.

Definition at_sign : ascii := "@".

Definition to_string (k : CacheEngineKey) : string :=
  fmt k +:+ String at_sign (model_name k +:+ String at_sign (py_str (world_size k)
    +:+ String at_sign (py_str (worker_id k) +:+ String at_sign (chunk_hash k)))).

Definition from_string (s : string) : result CacheEngineKey :=
  match split_on at_sign s with
  | [p0; p1; p2; p3; p4] =>
      let! w := py_int p2 in
      let! i := py_int p3 in
      Ok (CEKey p0 p1 w i p4)
  | _ => Raise ValueError
  end.

(** [CacheEngineKey.split_layers]. *)
Definition split_layers (k : CacheEngineKey) (num_layers : Z) : list LayerCacheEngineKey :=
  LCEKey k <$> seqZ 0 num_layers.

Definition get_first_layer (k : CacheEngineKey) : LayerCacheEngineKey := LCEKey k 0.

Definition layer_to_string (k : LayerCacheEngineKey) : string :=
  let b := base_key k in
  fmt b +:+ String at_sign (model_name b +:+ String at_sign (py_str (world_size b)
    +:+ String at_sign (py_str (worker_id b) +:+ String at_sign (chunk_hash b
    +:+ String at_sign (py_str (layer_id k)))))).

Definition layer_from_string (s : string) : result LayerCacheEngineKey :=
  match split_on at_sign s with
  | [p0; p1; p2; p3; p4; p5] =>
      let! w := py_int p2 in
      let! i := py_int p3 in
      let! l := py_int p5 in
      Ok (LCEKey (CEKey p0 p1 w i p4) l)
  | _ => Raise ValueError
  end.

(** [int(s[:8], 16)]: the eight hexadecimal digits in front. *)
Definition hex_value (c : ascii) : Z :=
  let n := Z.of_nat (nat_of_ascii c) in if n <? 58 then n - 48 else n - 87.

Fixpoint hex_int (n : nat) (s : string) (v : Z) : Z :=
  match n, s with
  | S n', String c s' => hex_int n' s' (16 * v + hex_value c)
  | _, _ => v
  end.

(** [parse_hash_to_id]: the digest of the (ASCII) string cut to 31 bits. *)
Definition parse_hash_to_id (hash_string : string) : result Z :=
  let! bs := encode_ascii hash_string in
  Ok (Z.land (hex_int 8 (Sha256.hexdigest bs) 0) 0x7FFFFFFF).

(** A key none of whose text fields holds the separator. *)
Definition at_count (k : CacheEngineKey) : nat :=
  (count_char at_sign (fmt k) + count_char at_sign (model_name k)
   + count_char at_sign (chunk_hash k))%nat.

(** ** The textual form *)

Lemma at_str n : count_char at_sign (py_str n) = 0%nat.
Proof. by apply py_str_no_char. Qed.

Lemma count_char_cons_at s : count_char at_sign (String at_sign s) = S (count_char at_sign s).
Proof. done. Qed.

#[local] Hint Rewrite count_char_app count_char_cons_at at_str : kv.

Lemma to_string_parts k :
  length (split_on at_sign (to_string k)) = (5 + at_count k)%nat.
Proof.
  unfold to_string, at_count. rewrite split_on_length. autorewrite with kv. lia.
Qed.

Lemma layer_to_string_parts k :
  length (split_on at_sign (layer_to_string k)) = (6 + at_count (base_key k))%nat.
Proof.
  unfold layer_to_string, at_count. rewrite split_on_length. autorewrite with kv. lia.
Qed.

Lemma to_string_split k :
  at_count k = 0%nat →
  split_on at_sign (to_string k)
  = [fmt k; model_name k; py_str (world_size k); py_str (worker_id k); chunk_hash k].
Proof.
  unfold at_count, to_string. intros H.
  rewrite !split_on_app by (rewrite ?at_str; lia).
  by rewrite (split_on_none _ (chunk_hash k)) by lia.
Qed.

Lemma layer_to_string_split k :
  at_count (base_key k) = 0%nat →
  split_on at_sign (layer_to_string k)
  = [fmt (base_key k); model_name (base_key k); py_str (world_size (base_key k));
     py_str (worker_id (base_key k)); chunk_hash (base_key k); py_str (layer_id k)].
Proof.
  unfold at_count, layer_to_string. intros H.
  rewrite !split_on_app by (rewrite ?at_str; lia).
  by rewrite (split_on_none _ (py_str (layer_id k))) by apply at_str.
Qed.

Lemma hex_int_nonneg n s v :
  0 ≤ v → Forall (λ c, Sha256.is_hex c = true) (String.list_ascii_of_string s) →
  0 ≤ hex_int n s v.
Proof.
  revert s v. induction n as [|n IH]; intros [|c s] v Hv Hs; simpl; try done.
  inversion Hs as [|? ? Hc Hs']; subst. apply IH; [|done].
  unfold hex_value. unfold Sha256.is_hex in Hc. apply orb_true_iff in Hc as [Hc|Hc]; zbool;
    case_match; zbool; lia.
Qed.

(** ** Properties *)

(** C40. A key's string parses back to the key exactly when no text field holds the
    separator ['@']; otherwise parsing raises [ValueError] instead of returning a wrong
    key.  The same holds for the six-field form of a layer key. *)
Theorem key_string_roundtrip (k : CacheEngineKey) (l : Z) :
  from_string (to_string k) = (if decide (at_count k = 0%nat) then Ok k else Raise ValueError)
  ∧ layer_from_string (layer_to_string (LCEKey k l))
    = (if decide (at_count k = 0%nat) then Ok (LCEKey k l) else Raise ValueError).
Proof.
  unfold from_string, layer_from_string. case_decide as H.
  - rewrite to_string_split, layer_to_string_split by done. simpl.
    rewrite !py_int_str. by destruct k.
  - pose proof (to_string_parts k) as H1. pose proof (layer_to_string_parts (LCEKey k l)) as H2.
    simpl in H2.
    split; [destruct (split_on at_sign (to_string k)) as [|? [|? [|? [|? [|? [|? ?]]]]]] eqn:E
           |destruct (split_on at_sign (layer_to_string (LCEKey k l)))
              as [|? [|? [|? [|? [|? [|? [|? ?]]]]]]] eqn:E];
      simpl in *; try done; lia.
Qed.

(** The id of a hash string is a non-negative 31-bit integer. *)
Lemma parse_hash_to_id_bound s i : parse_hash_to_id s = Ok i → 0 ≤ i < 2 ^ 31.
Proof.
  unfold parse_hash_to_id. destruct (encode_ascii s); simpl; [|done]. intros [= <-].
  change 0x7FFFFFFF with (Z.ones 31). rewrite Z.land_ones by lia.
  apply Z.mod_pos_bound. lia.
Qed.
