(* ===== verification/Gen.v ===== *)
(** Python generators, run lazily: each step yields a value and the rest of the
    generator, ends, or raises.  A consumer that stops early never reaches the
    exceptions behind the point where it stopped. *)
From S2P Require Export Prelude.
From stdpp Require Import options.

Inductive gen (A : Type) :=
  | GEnd
  | GRaise (e : exn)
  | GYield (a : A) (rest : gen A).
Arguments GEnd {A}.
Arguments GRaise {A} e.
Arguments GYield {A} a rest.

Section gen.
Context {A B : Type}.

(** The values yielded before the end or the exception. *)
Fixpoint gen_items (g : gen A) : list A :=
  match g with GYield a g' => a :: gen_items g' | _ => [] end.

(** The exception the generator ends with, if any. *)
Fixpoint gen_exn (g : gen A) : option exn :=
  match g with GYield _ g' => gen_exn g' | GRaise e => Some e | GEnd => None end.

(** [list(g)]. *)
Definition gen_list (g : gen A) : result (list A) :=
  match gen_exn g with Some e => Raise e | None => Ok (gen_items g) end.

Fixpoint gen_of_list (l : list A) : gen A :=
  match l with [] => GEnd | a :: l' => GYield a (gen_of_list l') end.

(** Values yielded lazily by an effect-free body that may raise. *)
Fixpoint gen_map (f : A → result B) (l : list A) : gen B :=
  match l with
  | [] => GEnd
  | a :: l' => match f a with Ok b => GYield b (gen_map f l') | Raise e => GRaise e end
  end.

(** [for x in g: body] where the body returns [Some r] to leave the loop
    ([break] or [return]) and [None] to go on. *)
Fixpoint gen_for {S R} (g : gen A) (body : A → py S (option R)) : py S (option R) :=
  match g with
  | GEnd => ret None
  | GRaise e => raise e
  | GYield a g' =>
      let* o := body a in
      match o with Some r => ret (Some r) | None => gen_for g' body end
  end.

Lemma gen_items_of_list l : gen_items (gen_of_list l) = l.
Proof. induction l; simpl; congruence. Qed.

Lemma gen_exn_of_list l : gen_exn (gen_of_list l) = None.
Proof. by induction l. Qed.

Lemma gen_list_of_list l : gen_list (gen_of_list l) = Ok l.
Proof. unfold gen_list. by rewrite gen_exn_of_list, gen_items_of_list. Qed.

Lemma gen_list_ok g l : gen_list g = Ok l → g = gen_of_list l.
Proof.
  unfold gen_list. revert l. induction g as [|e|a g IH]; simpl; intros l.
  - by intros [= <-].
  - done.
  - destruct (gen_exn g) eqn:E; [done|]. intros [= <-]. simpl. f_equal. by apply IH.
Qed.
End gen.

#[export] Hint Rewrite @gen_items_of_list @gen_exn_of_list @gen_list_of_list : kv.
