(* ===== verification/TokenDatabase.v ===== *)
(** [infinikv/infinikv/v1/token_database.py]: how a token sequence is cut into
    chunks and how each chunk is named by the hash of the prefix it ends.
    [Chunked] is [ChunkedTokenDatabase], [Segment] is [SegmentTokenDatabase]. *)
From S2P Require Export CacheKey Gen.
From stdpp Require Import options.

(** The two types [tokens] may have: a [torch.Tensor] of int64, or a list. *)
Inductive token_seq :=
  | TTensor (l : list Z)
  | TList (l : list Z).

#[export] Instance token_seq_eq_dec : EqDecision token_seq.
Proof. solve_decision. Defined.

Definition toks (t : token_seq) : list Z := match t with TTensor l | TList l => l end.

(** [tokens[i:j]] keeps the type. *)
Definition tslice (t : token_seq) (i j : Z) : token_seq :=
  match t with TTensor l => TTensor (py_slice l i j) | TList l => TList (py_slice l i j) end.

(** Four little-endian bytes of an unsigned 32-bit integer. *)
Definition le_bytes4 (x : Z) : list Z :=
  [x mod 256; (x / 256) mod 256; (x / 65536) mod 256; (x / 16777216) mod 256].

(** [tokens.cpu().to(torch.uint32).numpy().tobytes()] wraps each token to 32
    bits; [array.array("I", tokens).tobytes()] raises on a token out of range. *)
Definition tokens_bytes (t : token_seq) : result (list Z) :=
  match t with
  | TTensor l => Ok (l ≫= (λ x, le_bytes4 (x mod 2 ^ 32)))
  | TList l => if forallb (λ x, (0 <=? x) && (x <? 2 ^ 32)) l
               then Ok (l ≫= le_bytes4) else Raise OverflowError
  end.

(** The key material shared by the databases ([InfiniKVEngineMetadata]). *)
Record key_metadata := KeyMeta {
  km_fmt : string; km_model_name : string; km_world_size : Z; km_worker_id : Z }.

Definition key_of_hash (m : key_metadata) (h : string) : CacheEngineKey :=
  CEKey (km_fmt m) (km_model_name m) (km_world_size m) (km_worker_id m) h.

(** [mask.numel() - mask.long().sum().item()]. *)
Definition num_falses (mask : option (list bool)) : Z :=
  match mask with
  | None => 0
  | Some m => zlen m - zlen (filter (λ b, b = true) m)
  end.

Module Chunked.

(** The attributes of [ChunkedTokenDatabase]; [None] is an attribute that was
    never assigned ([chunk_size] and [save_unfull_chunk] are only assigned when
    a configuration is given). *)
Record t := DB {
  chunk_size : option Z;
  save_unfull_chunk : option bool;
  metadata : option key_metadata
}.

Definition init (config : option (Z * bool)) (m : option key_metadata) : t :=
  match config with
  | Some (c, u) => DB (Some c) (Some u) m
  | None => DB None None m
  end.

Definition make_key_by_hash (db : t) (h : string) : result CacheEngineKey :=
  match metadata db with
  | None => Raise AssertionError
  | Some m => Ok (key_of_hash m h)
  end.

Definition get_init_hash : string := EmptyString.

Definition hash (tokens : token_seq) (prefix_hash : string) : result string :=
  let! tb := tokens_bytes tokens in
  let! pb := encode_ascii prefix_hash in
  Ok (Sha256.hexdigest (pb ++ tb)).

(** [_chunk_tokens]: the slices, or the exception its first step raises. *)
Definition chunk_tokens (db : t) (tokens : token_seq) : result (list token_seq) :=
  let n := zlen (toks tokens) in
  let! u := of_option AttributeError (save_unfull_chunk db) in
  let! c := of_option AttributeError (chunk_size db) in
  let! stop := (if u : bool then Ok n else let! r := py_mod n c in Ok (n - r)) in
  let! idxs := py_range 0 stop c in
  Ok ((λ i, tslice tokens i (i + c)) <$> idxs).

(** [_prefix_hash]. *)
Fixpoint prefix_hash (h : string) (chunks : list token_seq) : gen string :=
  match chunks with
  | [] => GEnd
  | c :: cs =>
      match hash c h with
      | Ok h' => GYield h' (prefix_hash h' cs)
      | Raise e => GRaise e
      end
  end.

(** The loop of [process_tokens] over [enumerate(prefix_hashes)]. *)
Fixpoint process_loop {A} (mk : string → result A) (c nf total : Z) (chunk_id : Z)
    (hs : gen string) : gen (Z * Z * A) :=
  match hs with
  | GEnd => GEnd
  | GRaise e => GRaise e
  | GYield h hs' =>
      let start_idx := chunk_id * c in
      let end_idx := Z.min (start_idx + c) total in
      if start_idx <? nf then process_loop mk c nf total (chunk_id + 1) hs'
      else match mk h with
           | Ok k => GYield (start_idx, end_idx, k) (process_loop mk c nf total (chunk_id + 1) hs')
           | Raise e => GRaise e
           end
  end.

Definition process_with {A} (mk : string → result A) (db : t) (tokens : token_seq)
    (mask : option (list bool)) : gen (Z * Z * A) :=
  match chunk_size db with
  | None => GRaise AttributeError
  | Some c =>
      match py_mod (num_falses mask) c with
      | Raise e => GRaise e
      | Ok r =>
          if negb (r =? 0) then GRaise ValueError
          else match chunk_tokens db tokens with
               | Raise e => GRaise e
               | Ok chunks =>
                   process_loop mk c (num_falses mask) (zlen (toks tokens)) 0
                     (prefix_hash get_init_hash chunks)
               end
      end
  end.

(** [process_tokens(tokens, mask)] and [process_tokens(tokens, mask, make_key=False)]. *)
Definition process_tokens (db : t) := process_with (make_key_by_hash db) db.
Definition process_tokens_hash (db : t) := process_with (@Ok string) db.

(** *** The abstract view: the digest of a prefix *)

(** The bytes of a token list, each token taken modulo 2^32. *)
Definition tok_bytes (l : list Z) : list Z := l ≫= (λ x, le_bytes4 (x mod 2 ^ 32)).

(** The chunks of [c] tokens of a list, as bytes; the last one may be shorter. *)
Definition chunk_count (c : nat) (l : list Z) : nat := Z.to_nat (cdiv (zlen l) (Z.of_nat c)).
Definition chunk (c : nat) (l : list Z) (i : nat) : list Z := take c (drop (i * c)%nat l).
Definition byte_chunks (c : nat) (l : list Z) : list (list Z) :=
  (λ i, tok_bytes (chunk c l i)) <$> seq 0 (chunk_count c l).

Definition codes (s : string) : list Z :=
  (λ a, Z.of_nat (Ascii.nat_of_ascii a)) <$> String.list_ascii_of_string s.

Definition digest_step (h : string) (b : list Z) : string := Sha256.hexdigest (codes h ++ b).

(** The name of a token prefix: the hash chained over its chunks. *)
Definition prefix_digest (c : nat) (l : list Z) : string :=
  foldl digest_step EmptyString (byte_chunks c l).

(** Tokens every element of which fits [array.array("I")]. *)
Definition tokens_valid (t : token_seq) : Prop :=
  match t with TTensor _ => True | TList l => Forall (λ x, 0 ≤ x < 2 ^ 32) l end.

(** Consecutive non-empty intervals from [a] to [b]. *)
Inductive tiles {A} : Z → Z → list (Z * Z * A) → Prop :=
  | tiles_nil a : tiles a a []
  | tiles_cons a m b x l : a < m → tiles m b l → tiles a b ((a, m, x) :: l).

(** A pair of distinct inputs with one digest. *)
Definition sha_collision : Prop :=
  ∃ x y : list Z, x ≠ y ∧ Sha256.hexdigest x = Sha256.hexdigest y.

Lemma tokens_bytes_valid t : tokens_valid t → tokens_bytes t = Ok (tok_bytes (toks t)).
Proof.
  destruct t as [l|l]; simpl; [done|]. intros H.
  assert (forallb (λ x, (0 <=? x) && (x <? 2 ^ 32)) l = true) as ->.
  { apply forallb_forall. intros x Hx%list_elem_of_In.
    rewrite Forall_forall in H. destruct (H x Hx). apply andb_true_iff.
    split; [by apply Z.leb_le|by apply Z.ltb_lt]. }
  f_equal. unfold tok_bytes. induction H as [|x l Hx Hl IH]; [done|]. rewrite !bind_cons.
  by rewrite (Z.mod_small x), IH by done.
Qed.

Lemma tslice_valid t i j : tokens_valid t → tokens_valid (tslice t i j).
Proof.
  destruct t as [l|l]; simpl; [done|]. intros H. unfold py_slice.
  by apply Forall_take, Forall_drop.
Qed.

Lemma toks_tslice t i j : toks (tslice t i j) = py_slice (toks t) i j.
Proof. by destruct t. Qed.

Lemma is_hex_ascii a : Sha256.is_hex a = true → Z.of_nat (Ascii.nat_of_ascii a) < 128.
Proof. unfold Sha256.is_hex. intros H. apply orb_true_iff in H as [H|H]; zbool; lia. Qed.

Lemma encode_hexdigest bs : encode_ascii (Sha256.hexdigest bs) = Ok (codes (Sha256.hexdigest bs)).
Proof.
  unfold encode_ascii, codes. pose proof (Sha256.hexdigest_hex bs) as H.
  rewrite (proj2 (forallb_forall _ _)); [done|]. intros x Hx%list_elem_of_In.
  apply list_elem_of_fmap in Hx as (a & -> & Ha). apply Z.ltb_lt, is_hex_ascii.
  unfold Sha256.all_hex in H. rewrite Forall_forall in H. by apply H.
Qed.

(** A hash the chain can start from. *)
Definition chain_hash (h : string) : Prop := h = EmptyString ∨ ∃ bs, h = Sha256.hexdigest bs.

Lemma encode_chain_hash h : chain_hash h → encode_ascii h = Ok (codes h).
Proof. intros [->|[bs ->]]; [done|apply encode_hexdigest]. Qed.

(** The chain of hashes over byte chunks. *)
Fixpoint chain (h : string) (bs : list (list Z)) : list string :=
  match bs with
  | [] => []
  | b :: bs' => digest_step h b :: chain (digest_step h b) bs'
  end.

Lemma chain_lookup h bs i :
  (i < length bs)%nat → chain h bs !! i = Some (foldl digest_step h (take (S i) bs)).
Proof.
  revert h i. induction bs as [|b bs IH]; intros h [|i] Hi; simpl in *; [lia|lia|done|].
  apply IH. lia.
Qed.

Lemma chain_length h bs : length (chain h bs) = length bs.
Proof. revert h. induction bs as [|b bs IH]; intros h; simpl; [done|]. by rewrite IH. Qed.

Lemma prefix_hash_chain h cs :
  chain_hash h → Forall tokens_valid cs →
  prefix_hash h cs = gen_of_list (chain h (tok_bytes ∘ toks <$> cs)).
Proof.
  intros Hh Hcs. revert h Hh. induction Hcs as [|c cs Hc Hcs IH]; intros h Hh; [done|].
  cbn [prefix_hash fmap list_fmap chain gen_of_list]. unfold hash.
  rewrite (tokens_bytes_valid c Hc), (encode_chain_hash h Hh). simpl.
  change (Sha256.hexdigest (codes h ++ tok_bytes (toks c))) with (digest_step h (tok_bytes (toks c))).
  f_equal. apply IH. right. by eexists.
Qed.

Lemma take_min_l {A} (e n : nat) (l : list A) : (e <= n)%nat → take e (take n l) = take e l.
Proof. intros. by rewrite take_take, Nat.min_l. Qed.

(** Where the chunks of a sequence of [n] tokens stop. *)
Definition stop_index (u : bool) (c n : Z) : Z := if u then n else n - n mod c.

Lemma stop_bounds u c n : 0 < c → 0 ≤ n → 0 ≤ stop_index u c n ≤ n.
Proof.
  unfold stop_index. intros Hc Hn. destruct u; [lia|].
  pose proof (Z.mod_le n c Hn Hc). pose proof (Z.mod_pos_bound n c Hc). lia.
Qed.

Lemma chunk_tokens_spec (c : nat) u m t :
  (0 < c)%nat →
  chunk_tokens (DB (Some (Z.of_nat c)) (Some u) m) t
  = Ok ((λ i : nat, tslice t (Z.of_nat (i * c)) (Z.of_nat (i * c) + Z.of_nat c))
        <$> seq 0 (Z.to_nat (cdiv (stop_index u (Z.of_nat c) (zlen (toks t))) (Z.of_nat c)))).
Proof.
  intros Hc. unfold chunk_tokens. simpl.
  assert ((if u then Ok (zlen (toks t))
           else let! r := py_mod (zlen (toks t)) (Z.of_nat c) in Ok (zlen (toks t) - r))
          = Ok (stop_index u (Z.of_nat c) (zlen (toks t)))) as ->.
  { unfold py_mod, stop_index. destruct u; [done|].
    by rewrite (proj2 (Z.eqb_neq (Z.of_nat c) 0)) by lia. }
  simpl. rewrite py_range_pos by lia. simpl. f_equal.
  rewrite Z.sub_0_r, seqZ_seq, <- !list_fmap_compose.
  apply list_fmap_ext. intros i x _. simpl. f_equal; lia.
Qed.

Lemma chunk_take c e l i :
  ((S i * c <= e)%nat ∨ (length l <= e)%nat) → chunk c (take e l) i = chunk c l i.
Proof.
  unfold chunk. intros [H|H]; [|by rewrite (take_ge l) by done].
  rewrite skipn_firstn_comm, take_take. f_equal. nia.
Qed.

Lemma byte_chunks_take c e l :
  (0 < c)%nat → (e <= length l)%nat → ((∃ k, e = k * c)%nat ∨ e = length l) →
  byte_chunks c (take e l) = take (Z.to_nat (cdiv (Z.of_nat e) (Z.of_nat c))) (byte_chunks c l).
Proof.
  intros Hc He Hk. unfold byte_chunks, chunk_count.
  rewrite <- fmap_take. assert (zlen (take e l) = Z.of_nat e) as ->.
  { unfold zlen. rewrite length_take. lia. }
  assert (cdiv (Z.of_nat e) (Z.of_nat c) ≤ cdiv (zlen l) (Z.of_nat c)) as Hle
    by (apply cdiv_mono; unfold zlen; lia).
  rewrite take_seq, Nat.min_l by lia.
  apply list_fmap_ext. intros i x [-> Hi]%lookup_seq. f_equal. apply chunk_take.
  destruct Hk as [[k ->]|]; [left|right; lia].
  rewrite Nat2Z.inj_mul, cdiv_mul in Hi by lia. simpl. nia.
Qed.

Lemma byte_chunks_chunks (c : nat) u t :
  (0 < c)%nat →
  let stop := stop_index u (Z.of_nat c) (zlen (toks t)) in
  (tok_bytes ∘ toks <$> ((λ i : nat, tslice t (Z.of_nat (i * c)) (Z.of_nat (i * c) + Z.of_nat c))
        <$> seq 0 (Z.to_nat (cdiv stop (Z.of_nat c)))))
  = byte_chunks c (take (Z.to_nat stop) (toks t)).
Proof.
  intros Hc stop. pose proof (stop_bounds u (Z.of_nat c) (zlen (toks t)) ltac:(lia) (zlen_nonneg _)) as Hs.
  fold stop in Hs. unfold zlen in Hs.
  rewrite byte_chunks_take; [|done|lia|].
  - rewrite (Z2Nat.id stop) by lia. unfold byte_chunks. rewrite <- fmap_take, take_seq, Nat.min_l.
    + rewrite <- list_fmap_compose. apply list_fmap_ext. intros i x _. simpl.
      rewrite toks_tslice, py_slice_nonneg by lia. unfold chunk. do 3 f_equal; lia.
    + unfold chunk_count. apply Z2Nat.inj_le; try (apply cdiv_nonneg; unfold zlen; lia).
      apply cdiv_mono; unfold zlen; lia.
  - unfold stop, stop_index, zlen in *. destruct u; [right; lia|left].
    exists (Z.to_nat (zlen (toks t) `div` Z.of_nat c)). unfold zlen. zlia.
Qed.

Lemma process_loop_list {A} (f : string → A) (c : Z) (q id : nat) total hs :
  0 < c →
  process_loop (λ h, Ok (f h)) c (Z.of_nat q * c) total (Z.of_nat id) (gen_of_list hs)
  = gen_of_list (imap (λ i h, let s := Z.of_nat (id + (q - id) + i) * c in
                              (s, Z.min (s + c) total, f h)) (drop (q - id) hs)).
Proof.
  intros Hc. revert id. induction hs as [|h hs IH]; intros id; simpl; [by rewrite drop_nil|].
  rewrite <- (Nat2Z.inj_succ id : _ = Z.of_nat id + 1), IH.
  destruct (Z.of_nat id * c <? Z.of_nat q * c) eqn:E; zbool.
  - assert (q - id = S (q - S id))%nat as -> by nia. simpl. f_equal.
    apply imap_ext. intros i x _. simpl. do 3 f_equal; lia.
  - assert (q - id = 0)%nat as -> by nia. assert (q - S id = 0)%nat as -> by nia. simpl.
    rewrite !drop_0. do 2 f_equal.
    + do 2 f_equal; lia.
    + apply imap_ext. intros i x _. simpl. do 3 f_equal; lia.
Qed.

(** What the generator yields, for a database with all its attributes. *)
Definition expected_items (c : nat) (u : bool) (q : nat) (l : list Z) : list (Z * Z * string) :=
  let stop := Z.to_nat (stop_index u (Z.of_nat c) (zlen l)) in
  imap (λ i h, let s := Z.of_nat (q + i) * Z.of_nat c in (s, Z.min (s + Z.of_nat c) (zlen l), h))
    (drop q (chain EmptyString (byte_chunks c (take stop l)))).

Lemma gen_of_list_fmap {A B} (f : A → B) (g : nat → string → A) hs :
  gen_of_list (imap (λ i h, f (g i h)) hs) = gen_of_list (f <$> imap g hs).
Proof. by rewrite fmap_imap. Qed.

Lemma process_with_items {A} (f : string → A) (c : nat) u m t mask (q : nat) :
  (0 < c)%nat → tokens_valid t → num_falses mask = Z.of_nat q * Z.of_nat c →
  process_with (λ h, Ok (f h)) (DB (Some (Z.of_nat c)) (Some u) m) t mask
  = gen_of_list ((λ '(s, e, h), (s, e, f h)) <$> expected_items c u q (toks t)).
Proof.
  intros Hc Hv Hq. unfold process_with. cbn [chunk_size].
  unfold py_mod. rewrite (proj2 (Z.eqb_neq (Z.of_nat c) 0)) by lia.
  rewrite Hq, Z.mod_mul by lia. simpl negb. cbn match.
  rewrite chunk_tokens_spec by done.
  rewrite prefix_hash_chain; [|by left|].
  - rewrite byte_chunks_chunks by done.
    rewrite (process_loop_list f (Z.of_nat c) q 0) by lia.
    unfold expected_items. rewrite <- gen_of_list_fmap, Nat.sub_0_r. done.
  - apply Forall_fmap, Forall_true. intros i. by apply tslice_valid.
Qed.

Lemma process_with_ext {A} (mk mk' : string → result A) db t mask :
  (∀ h, mk h = mk' h) → process_with mk db t mask = process_with mk' db t mask.
Proof.
  intros Hext. unfold process_with. repeat (case_match; try done).
  generalize (prefix_hash get_init_hash a0). generalize 0. intros id g.
  revert id. induction g as [|e|h g IH]; intros id; simpl; [done..|].
  rewrite Hext, IH. done.
Qed.

(** [process_tokens] on a database with a configuration and metadata. *)
Lemma process_tokens_items (c : nat) u m t mask (q : nat) :
  (0 < c)%nat → tokens_valid t → num_falses mask = Z.of_nat q * Z.of_nat c →
  process_tokens (DB (Some (Z.of_nat c)) (Some u) (Some m)) t mask
  = gen_of_list ((λ '(s, e, h), (s, e, key_of_hash m h)) <$> expected_items c u q (toks t)).
Proof.
  intros. rewrite <- (process_with_items _ c u (Some m) t mask q) by done.
  by apply process_with_ext.
Qed.

Lemma tiles_fmap {A B} (f : A → B) a b (l : list (Z * Z * A)) :
  tiles a b l → tiles a b ((λ '(s, e, h), (s, e, f h)) <$> l).
Proof. induction 1; [constructor|]. rewrite fmap_cons. by constructor. Qed.

Lemma tiles_intervals (c : Z) stop n (hs : list string) k :
  0 < c → stop ≤ n → (stop = n ∨ ∃ j, stop = j * c) →
  Z.of_nat (length hs) = Z.max 0 (cdiv stop c - Z.of_nat k) →
  tiles (Z.min (Z.of_nat k * c) stop) stop
    (imap (λ i h, let s := Z.of_nat (k + i) * c in (s, Z.min (s + c) n, h)) hs).
Proof.
  intros Hc Hn Hs. revert k. induction hs as [|h hs IH]; intros k Hlen.
  - pose proof (cdiv_spec stop c Hc). simpl in *. rewrite Z.min_r by nia. constructor.
  - pose proof (cdiv_spec stop c Hc) as Hd. simpl in *.
    assert (Z.of_nat k * c < stop) by nia.
    rewrite Nat.add_0_r, (Z.min_l (Z.of_nat k * c)) by lia.
    assert (Z.min (Z.of_nat k * c + c) n = Z.min (Z.of_nat (S k) * c) stop) as ->.
    { destruct Hs as [->|[j ->]]; [lia|]. assert (Z.of_nat k < j) by nia. nia. }
    constructor; [nia|].
    specialize (IH (S k) ltac:(lia)).
    erewrite imap_ext; [exact IH|]. intros i x _. simpl. by rewrite Nat.add_succ_r.
Qed.

(** The items tile the tokens between the mask and the last chunk. *)
Lemma expected_items_tiles (c : nat) u q l :
  (0 < c)%nat →
  let stop := stop_index u (Z.of_nat c) (zlen l) in
  tiles (Z.min (Z.of_nat q * Z.of_nat c) stop) stop (expected_items c u q l).
Proof.
  intros Hc stop. pose proof (stop_bounds u (Z.of_nat c) (zlen l) ltac:(lia) (zlen_nonneg l)) as Hs.
  fold stop in Hs. apply tiles_intervals; [lia|lia|..].
  - unfold stop, stop_index. destruct u; [by left|right]. exists (zlen l `div` Z.of_nat c). zlia.
  - rewrite length_drop, chain_length. unfold byte_chunks. rewrite length_fmap, length_seq.
    unfold chunk_count. fold stop. assert (zlen (take (Z.to_nat stop) l) = stop) as ->.
    { unfold zlen in *. rewrite length_take. lia. }
    pose proof (cdiv_nonneg stop (Z.of_nat c)). lia.
Qed.

(** Each item's hash is the digest of the token prefix it ends. *)
Lemma expected_items_digest (c : nat) u q l :
  (0 < c)%nat →
  Forall (λ '(s, e, h), 0 ≤ e ≤ zlen l ∧ h = prefix_digest c (take (Z.to_nat e) l))
    (expected_items c u q l).
Proof.
  intros Hc. pose proof (stop_bounds u (Z.of_nat c) (zlen l) ltac:(lia) (zlen_nonneg l)) as Hs.
  set (stop := stop_index u (Z.of_nat c) (zlen l)) in *.
  apply Forall_forall. intros [[s e] h] (i & Hi)%list_elem_of_lookup.
  unfold expected_items in Hi. fold stop in Hi. rewrite list_lookup_imap in Hi.
  apply fmap_Some in Hi as (h' & Hi & [= -> -> ->]). rewrite lookup_drop in Hi.
  pose proof (lookup_lt_Some _ _ _ Hi) as Hlt. rewrite chain_length in Hlt.
  rewrite chain_lookup in Hi by done. injection Hi as <-.
  unfold byte_chunks, chunk_count in Hlt. rewrite length_fmap, length_seq in Hlt.
  assert (zlen (take (Z.to_nat stop) l) = stop) as Hz.
  { unfold zlen in *. rewrite length_take. lia. }
  rewrite Hz in Hlt. pose proof (cdiv_spec stop (Z.of_nat c) ltac:(lia)) as Hd.
  set (j := (q + i)%nat) in *. split; [nia|].
  set (e := Z.min (Z.of_nat j * Z.of_nat c + Z.of_nat c) (zlen l)).
  assert (Z.of_nat j * Z.of_nat c < stop) by nia.
  assert (e ≤ stop ∧ ((∃ k, Z.to_nat e = k * c)%nat ∨ Z.to_nat e = Z.to_nat stop)
          ∧ cdiv e (Z.of_nat c) = Z.of_nat (S j)) as (He & Hk & Hj).
  { unfold e, stop, stop_index in *. destruct u.
    - split; [lia|]. split; [|apply cdiv_unique; lia].
      destruct (decide (zlen l ≤ Z.of_nat j * Z.of_nat c + Z.of_nat c)); [right; lia|].
      left. exists (S j). nia.
    - assert (Z.of_nat j < zlen l `div` Z.of_nat c) by zlia.
      assert (Z.of_nat j * Z.of_nat c + Z.of_nat c ≤ zlen l - zlen l mod Z.of_nat c) by zlia.
      split; [lia|]. split; [left; exists (S j); nia|apply cdiv_unique; lia]. }
  unfold prefix_digest. f_equal.
  rewrite <- (take_min_l (Z.to_nat e) (Z.to_nat stop) l) by lia.
  rewrite (byte_chunks_take c (Z.to_nat e) (take (Z.to_nat stop) l));
    [|done|unfold zlen in *; rewrite length_take; lia|].
  - rewrite Z2Nat.id by lia. f_equal. rewrite Hj. lia.
  - destruct Hk as [Hk|Hk]; [by left|right]. unfold zlen in *. rewrite length_take. lia.
Qed.

(** *** Digests name prefixes *)

Lemma codes_inj s1 s2 : codes s1 = codes s2 → s1 = s2.
Proof.
  unfold codes. intros H. assert (String.list_ascii_of_string s1 = String.list_ascii_of_string s2).
  { revert H. generalize (String.list_ascii_of_string s2).
    induction (String.list_ascii_of_string s1) as [|a l1 IH]; intros [|b l2]; try done.
    intros [= Hab H]. f_equal; [|by apply IH].
    apply Nat2Z.inj in Hab. rewrite <- (Ascii.ascii_nat_embedding a), Hab.
    apply Ascii.ascii_nat_embedding. }
  rewrite <- (String.string_of_list_ascii_of_string s1), H0.
  apply String.string_of_list_ascii_of_string.
Qed.

Lemma foldl_digest_inj h (xs ys : list (list Z)) L :
  Forall (λ b, length b = L) xs → Forall (λ b, length b = L) ys →
  h = EmptyString →
  foldl digest_step h xs = foldl digest_step h ys → xs = ys ∨ sha_collision.
Proof.
  intros Hx Hy ->. revert ys Hy. induction xs as [|x xs IH] using rev_ind; intros ys Hy.
  - destruct ys as [|y ys _] using rev_ind; [by left|]. rewrite foldl_app. simpl. intros H.
    exfalso. apply (f_equal String.length) in H. unfold digest_step in H.
    rewrite Sha256.hexdigest_length in H. done.
  - destruct ys as [|y ys _] using rev_ind; rewrite !foldl_app; simpl; intros H.
    { exfalso. apply (f_equal String.length) in H. unfold digest_step in H.
      rewrite Sha256.hexdigest_length in H. done. }
    apply Forall_app in Hx as [Hx Hx1]. apply Forall_app in Hy as [Hy Hy1].
    rewrite Forall_singleton in Hx1. rewrite Forall_singleton in Hy1.
    unfold digest_step at 1 in H. unfold digest_step at 2 in H.
    set (h1 := foldl digest_step EmptyString xs) in *.
    set (h2 := foldl digest_step EmptyString ys) in *.
    destruct (decide (codes h1 ++ x = codes h2 ++ y)) as [Heq|Hne];
      [|right; by exists (codes h1 ++ x), (codes h2 ++ y)].
    apply app_inj_2 in Heq as [Hh ->]; [|simpl in *; congruence].
    apply codes_inj in Hh. destruct (IH Hx ys Hy Hh) as [->|?]; [by left|by right].
Qed.

Lemma le_bytes4_inj x y :
  0 ≤ x < 2 ^ 32 → 0 ≤ y < 2 ^ 32 → le_bytes4 x = le_bytes4 y → x = y.
Proof.
  intros Hx Hy [= H0 H1 H2 H3].
  assert (∀ z, 0 ≤ z < 2 ^ 32 → z = z mod 256 + 256 * ((z / 256) mod 256)
    + 65536 * ((z / 65536) mod 256) + 16777216 * ((z / 16777216) mod 256)) as split4.
  { intros z Hz. change 16777216 with (65536 * 256). change 65536 with (256 * 256).
    rewrite <- !Z.div_div by lia.
    rewrite (Z.mod_small (z / 256 / 256 / 256)) by (Z.div_mod_to_equations; lia).
    Z.div_mod_to_equations. lia. }
  rewrite (split4 x Hx), (split4 y Hy). congruence.
Qed.

Lemma tok_bytes_inj l1 l2 :
  tok_bytes l1 = tok_bytes l2 → (λ x, x mod 2 ^ 32) <$> l1 = (λ x, x mod 2 ^ 32) <$> l2.
Proof.
  unfold tok_bytes. revert l2. induction l1 as [|x l1 IH]; intros [|y l2] H;
    try done. rewrite !bind_cons in H.
  apply app_inj_1 in H as [Hxy H]; [|done].
  rewrite !fmap_cons. f_equal; [|by apply IH].
  apply le_bytes4_inj in Hxy; [done|apply Z.mod_pos_bound; lia..].
Qed.

Lemma tok_bytes_app l1 l2 : tok_bytes (l1 ++ l2) = tok_bytes l1 ++ tok_bytes l2.
Proof. apply bind_app. Qed.

Lemma tok_bytes_length l : length (tok_bytes l) = (4 * length l)%nat.
Proof.
  induction l as [|x l IH]; [done|]. unfold tok_bytes in *. rewrite bind_cons, length_app, IH.
  simpl. lia.
Qed.

Lemma concat_chunks c l n :
  concat ((λ i, tok_bytes (chunk c l i)) <$> seq 0 n) = tok_bytes (take (n * c) l).
Proof.
  induction n as [|n IH]; [done|].
  rewrite seq_S, fmap_app, concat_app, IH. simpl. rewrite app_nil_r, <- tok_bytes_app. f_equal.
  unfold chunk. rewrite (Nat.add_comm c). apply take_take_drop.
Qed.

Lemma byte_chunks_concat c l : (0 < c)%nat → concat (byte_chunks c l) = tok_bytes l.
Proof.
  intros Hc. unfold byte_chunks. rewrite concat_chunks. f_equal. apply take_ge.
  unfold chunk_count. pose proof (cdiv_spec (zlen l) (Z.of_nat c) ltac:(lia)).
  pose proof (cdiv_nonneg (zlen l) (Z.of_nat c) ltac:(lia) (zlen_nonneg l)).
  unfold zlen in *. nia.
Qed.

Lemma byte_chunks_full c l k :
  (0 < c)%nat → length l = (k * c)%nat → Forall (λ b, length b = (4 * c)%nat) (byte_chunks c l).
Proof.
  intros Hc Hl. apply Forall_forall. intros b (i & -> & Hi)%list_elem_of_fmap.
  apply elem_of_seq in Hi as [_ Hi]. rewrite tok_bytes_length. f_equal. unfold chunk.
  unfold chunk_count, zlen in Hi. rewrite Hl, Nat2Z.inj_mul, cdiv_mul in Hi by lia.
  rewrite length_take, length_drop, Hl. nia.
Qed.

(** C16. The yielded intervals tile the tokens from the end of the mask to the last chunk
    without gap or overlap, and each interval [(start, end)] carries the key of the digest of
    the whole token prefix up to [end] - so a key depends on nothing behind it. *)
Theorem process_tokens_prefix_keys (c : nat) u m t mask (q : nat) :
  (0 < c)%nat → tokens_valid t → num_falses mask = Z.of_nat q * Z.of_nat c →
  ∃ items,
    process_tokens (DB (Some (Z.of_nat c)) (Some u) (Some m)) t mask = gen_of_list items
    ∧ (let stop := stop_index u (Z.of_nat c) (zlen (toks t)) in
       tiles (Z.min (Z.of_nat q * Z.of_nat c) stop) stop items)
    ∧ Forall (λ '(s, e, k), k = key_of_hash m (prefix_digest c (take (Z.to_nat e) (toks t)))) items.
Proof.
  intros Hc Hv Hq. eexists. split; [by apply process_tokens_items|]. split.
  - by apply tiles_fmap, expected_items_tiles.
  - apply Forall_fmap. eapply Forall_impl; [by apply expected_items_digest|].
    intros [[s e] h] [_ ->]. done.
Qed.

Example process_tokens_prefix_keys_witness :
  let m := KeyMeta "vllm" "llama" 1 0 in
  ∃ items,
    process_tokens (DB (Some 2) (Some false) (Some m)) (TList [10; 11; 12; 13; 14])
      (Some [false; false; true; true; true]) = gen_of_list items
    ∧ tiles 2 4 items
    ∧ Forall (λ '(s, e, k), k = key_of_hash m
        (prefix_digest 2 (take (Z.to_nat e) [10; 11; 12; 13; 14]))) items.
Proof.
  apply (process_tokens_prefix_keys 2 false (KeyMeta "vllm" "llama" 1 0)
           (TList [10; 11; 12; 13; 14]) (Some [false; false; true; true; true]) 1).
  - lia.
  - repeat constructor; lia.
  - reflexivity.
Defined.

(** C32. Two token prefixes made of whole chunks that get the same digest hold the same
    tokens modulo 2^32, unless a collision of SHA-256 is exhibited. *)
Theorem prefix_digest_injective (c : nat) (l1 l2 : list Z) (k1 k2 : nat) :
  (0 < c)%nat → length l1 = (k1 * c)%nat → length l2 = (k2 * c)%nat →
  prefix_digest c l1 = prefix_digest c l2 →
  (λ x, x mod 2 ^ 32) <$> l1 = (λ x, x mod 2 ^ 32) <$> l2 ∨ sha_collision.
Proof.
  intros Hc H1 H2 H. unfold prefix_digest in H.
  destruct (foldl_digest_inj EmptyString (byte_chunks c l1) (byte_chunks c l2) (4 * c))
    as [Heq|?]; [eauto using byte_chunks_full..|done|done| |by right].
  left. apply tok_bytes_inj. by rewrite <- !(byte_chunks_concat c), Heq.
Qed.

Example prefix_digest_injective_witness :
  (λ x, x mod 2 ^ 32) <$> [7; 8; 9; 4294967295] = (λ x, x mod 2 ^ 32) <$> [7; 8; 9; -1]
  ∨ sha_collision.
Proof.
  apply (prefix_digest_injective 2 _ _ 2 2); [lia|reflexivity..|vm_compute; reflexivity].
Defined.

End Chunked.

Module Segment.

(** The attributes of [SegmentTokenDatabase]; the separator comes from the
    model's tokenizer. *)
Record t := DB { sep_tokens : list Z; metadata : key_metadata }.

Definition sep_len (db : t) : Z := zlen (sep_tokens db).

(** [_hash]: the digest of the segment alone. *)
Definition hash (l : list Z) : string := Sha256.hexdigest (Chunked.tok_bytes l).

(** The indices whose window of [sep_len] tokens equals the separator. *)
Definition matches (db : t) (l : list Z) : list Z :=
  filter (λ i, take (length (sep_tokens db)) (drop (Z.to_nat i) l) = sep_tokens db)
    (seqZ 0 (zlen l - sep_len db + 1)).

(** The slices between the matches; the last slice runs to the end. *)
Fixpoint cut (db : t) (l : list Z) (start : Z) (ms : list Z) : list (list Z) :=
  match ms with
  | [] => [py_slice l start (zlen l)]
  | idx :: ms' => py_slice l start idx :: cut db l (idx + sep_len db) ms'
  end.

(** [_fast_split_by_subtensor]: the early [yield tokens] has no [return] behind
    it, and [tokens.unfold] raises on a tensor shorter than the window. *)
Definition fast_split_by_subtensor (db : t) (l : list Z) : gen (list Z) :=
  let rest := if zlen l <? sep_len db then GRaise RuntimeError
              else gen_of_list (cut db l 0 (matches db l)) in
  if (sep_len db =? 0) || (zlen l <? sep_len db) then GYield l rest else rest.

(** The loop of [process_tokens] over [enumerate(token_chunks)]. *)
Fixpoint process_loop {A} (mk : string → A) (s nf : Z) (first : bool) (start_idx : Z)
    (g : gen (list Z)) : gen (Z * Z * A) :=
  match g with
  | GEnd => GEnd
  | GRaise e => GRaise e
  | GYield c g' =>
      let a := if first then start_idx else start_idx + s in
      let e := a + zlen c in
      let rest := process_loop mk s nf false e g' in
      if nf <=? a then GYield (a, e, mk (hash c)) rest else rest
  end.

Definition process_with {A} (mk : string → A) (db : t) (tokens : token_seq)
    (mask : option (list bool)) : gen (Z * Z * A) :=
  match tokens with
  | TList _ => GRaise AssertionError
  | TTensor l =>
      if num_falses mask <? zlen l
      then process_loop mk (sep_len db) (num_falses mask) true 0 (fast_split_by_subtensor db l)
      else GRaise AssertionError
  end.

Definition process_tokens (db : t) := process_with (key_of_hash (metadata db)) db.
Definition process_tokens_hash (db : t) := process_with (λ h : string, h) db.

(** *** Segments of a sequence whose separators do not overlap *)

(** Every separator starts at or behind the end of the one before it. *)
Fixpoint apart (s start : Z) (ms : list Z) : Prop :=
  match ms with
  | [] => True
  | idx :: ms' => start ≤ idx ∧ apart s (idx + s) ms'
  end.

(** Intervals from [a] to [b], each followed by one separator. *)
Inductive segments {A} (sep l : list Z) (f : list Z → A) : Z → list (Z * Z * A) → Prop :=
  | segments_last a : segments sep l f a [(a, zlen l, f (drop (Z.to_nat a) l))]
  | segments_cons a e rest :
      a ≤ e → e + zlen sep ≤ zlen l →
      take (length sep) (drop (Z.to_nat e) l) = sep →
      segments sep l f (e + zlen sep) rest →
      segments sep l f a ((a, e, f (take (Z.to_nat (e - a)) (drop (Z.to_nat a) l))) :: rest).

Lemma matches_elem db l i :
  i ∈ matches db l →
  0 ≤ i ∧ i + sep_len db ≤ zlen l
  ∧ take (length (sep_tokens db)) (drop (Z.to_nat i) l) = sep_tokens db.
Proof.
  unfold matches. rewrite list_elem_of_filter, elem_of_seqZ. intros [? ?]. repeat split; [lia..|done].
Qed.

Lemma cut_segments db l ms (first : bool) start0 start :
  (start = if first then start0 else start0 + sep_len db) →
  0 ≤ start ≤ zlen l → apart (sep_len db) start ms →
  (∀ i, i ∈ ms → i + sep_len db ≤ zlen l
        ∧ take (length (sep_tokens db)) (drop (Z.to_nat i) l) = sep_tokens db) →
  ∃ items,
    process_loop (key_of_hash (metadata db)) (sep_len db) 0 first start0
      (gen_of_list (cut db l start ms)) = gen_of_list items
    ∧ segments (sep_tokens db) l (λ w, key_of_hash (metadata db) (hash w)) start items.
Proof.
  revert first start0 start. induction ms as [|idx ms IH]; intros first start0 start Hst Hs Ha Hm; simpl.
  - rewrite <- Hst, (proj2 (Z.leb_le 0 start)) by lia.
    rewrite py_slice_nonneg, take_ge by (rewrite ?length_drop; unfold zlen in *; lia).
    assert (start + zlen (drop (Z.to_nat start) l) = zlen l) as ->
      by (unfold zlen in *; rewrite length_drop; lia).
    eexists [_]. split; [done|constructor].
  - destruct Ha as [Ha Hap]. destruct (Hm idx) as [Hi Hw]; [by left|].
    rewrite <- Hst, (proj2 (Z.leb_le 0 start)) by lia. unfold sep_len in *.
    rewrite py_slice_nonneg by lia.
    assert (start + zlen (take (Z.to_nat (idx - start)) (drop (Z.to_nat start) l)) = idx) as ->
      by (unfold zlen in *; rewrite length_take, length_drop; lia).
    destruct (IH false idx (idx + zlen (sep_tokens db))) as (items & -> & Hseg);
      [done|pose proof (zlen_nonneg (sep_tokens db)); lia|done| |].
    { intros i Hin. apply Hm. by right. }
    eexists (_ :: items). split; [done|]. by constructor.
Qed.

(** With a non-empty separator whose occurrences do not overlap, and no mask, the
    segments run from 0 to the end of the tokens, one separator lies in each gap, and
    each segment carries the key of its own tokens. *)
Theorem process_tokens_segments (db : t) (l : list Z) :
  0 < sep_len db ≤ zlen l → apart (sep_len db) 0 (matches db l) →
  ∃ items,
    process_tokens db (TTensor l) None = gen_of_list items
    ∧ segments (sep_tokens db) l (λ w, key_of_hash (metadata db) (hash w)) 0 items.
Proof.
  intros Hs Ha. unfold process_tokens, process_with, fast_split_by_subtensor. simpl num_falses.
  rewrite (proj2 (Z.ltb_lt 0 (zlen l))), (proj2 (Z.ltb_ge (zlen l) (sep_len db))),
    (proj2 (Z.eqb_neq (sep_len db) 0)) by lia. simpl.
  apply cut_segments; [done|lia|done|].
  intros i Hi%matches_elem. tauto.
Qed.

Example process_tokens_segments_witness :
  let db := DB [9; 9] (KeyMeta "vllm" "llama" 1 0) in
  ∃ items,
    process_tokens db (TTensor [1; 9; 9; 2; 3]) None = gen_of_list items
    ∧ segments [9; 9] [1; 9; 9; 2; 3] (λ w, key_of_hash (metadata db) (hash w)) 0 items.
Proof.
  apply (process_tokens_segments (DB [9; 9] (KeyMeta "vllm" "llama" 1 0))).
  - split; [reflexivity|vm_compute; discriminate].
  - vm_compute. repeat split; discriminate.
Defined.

(** A tensor shorter than the separator is yielded whole, and the next step of
    the generator raises [RuntimeError]: the early [yield] misses its [return]. *)
Lemma short_tokens_raise db l :
  0 < zlen l < sep_len db →
  gen_exn (process_tokens db (TTensor l) None) = Some RuntimeError.
Proof.
  intros Hl. unfold process_tokens, process_with, fast_split_by_subtensor. simpl num_falses.
  rewrite (proj2 (Z.ltb_lt 0 (zlen l))), (proj2 (Z.ltb_lt (zlen l) (sep_len db))) by lia.
  rewrite orb_true_r. simpl. done.
Qed.

(** With the separator [9; 9], the tokens [9; 9; 9] hold two overlapping matches
    and the reported interval of the last segment lies outside the tokens. *)
Example overlapping_separators :
  let db := DB [9; 9] (KeyMeta "vllm" "llama" 1 0) in
  (λ '(s, e, _), (s, e)) <$> gen_items (process_tokens db (TTensor [9; 9; 9]) None)
  = [(0, 0); (2, 2); (4, 4)].
Proof. vm_compute. reflexivity. Qed.

End Segment.
