(* ===== verification/Evictor.v ===== *)
(** [infinikv/infinikv/v1/storage_backend/evictor/]: the least-recently-used
    evictor.  [current_cache_size] is a float that starts at [0.0] and only ever
    has integers added and subtracted; it is kept as an integer here, which is
    exact while the sizes stay below 2^53 bytes (see [lru_size_bounded]). *)
From S2P Require Export OrderedDict.
From stdpp Require Import options.

(** [PutStatus]. *)
Inductive PutStatus := LEGAL | ILLEGAL.

#[export] Instance PutStatus_eq_dec : EqDecision PutStatus.
Proof. solve_decision. Defined.

(** What the evictor reads of a cache entry: [is_pinned] and [size]. *)
Record entry := Entry { size : Z; is_pinned : bool }.

(** [LRUEvictor]. *)
Record LRUEvictor := Evictor { MAX_CACHE_SIZE : Z; current_cache_size : Z }.

(** [LRUEvictor.__init__], from a size in whole GiB. *)
Definition evictor_init (max_cache_size : Z) : LRUEvictor :=
  Evictor (max_cache_size * 1024 ^ 3) 0.

Section lru.
Context {K : Type} `{EqDecision K}.
Implicit Types (d : list (K * entry)).

Definition update_on_hit (k : K) d : result (list (K * entry)) := od_move_to_end k d.

(** The [while] loop of [update_on_put], on the rest of the dictionary's
    iterator: the exception of an exhausted iterator leaves the size as the
    loop has made it. *)
Fixpoint evict_loop (items : list (K * entry)) (cache_size max cur : Z) (evict_keys : list K)
    : result (list K) * Z :=
  if max <? cache_size + cur then
    match items with
    | [] => (Raise StopIteration, cur)
    | (k, e) :: rest =>
        if is_pinned e then evict_loop rest cache_size max cur evict_keys
        else evict_loop rest cache_size max (cur - size e) (evict_keys ++ [k])
    end
  else (Ok evict_keys, cur).

Definition update_on_put (d : list (K * entry)) (cache_size : Z) : py LRUEvictor (list K * PutStatus) :=
  λ s,
    if MAX_CACHE_SIZE s <? cache_size then (Ok ([], ILLEGAL), s)
    else match evict_loop d cache_size (MAX_CACHE_SIZE s) (current_cache_size s) [] with
         | (Ok ks, cur) => (Ok (ks, LEGAL), Evictor (MAX_CACHE_SIZE s) (cur + cache_size))
         | (Raise e, cur) => (Raise e, Evictor (MAX_CACHE_SIZE s) cur)
         end.

(** *** The victims *)

Definition unpinned d : list (K * entry) := filter (λ '(_, e), is_pinned e = false) d.
Definition total_size (l : list (K * entry)) : Z := foldr (λ '(_, e) acc, size e + acc) 0 l.

(** [n] unpinned entries make room for [need] bytes more than [cur], and fewer do not. *)
Definition least_room (d : list (K * entry)) (need max : Z) (n : nat) : Prop :=
  (n <= length (unpinned d))%nat
  ∧ need - total_size (take n (unpinned d)) ≤ max
  ∧ ∀ j, (j < n)%nat → max < need - total_size (take j (unpinned d)).

Lemma evict_loop_spec d cache_size max cur ks :
  match evict_loop d cache_size max cur ks with
  | (Ok ks', cur') =>
      ∃ n, least_room d (cache_size + cur) max n
           ∧ ks' = ks ++ (take n (unpinned d)).*1
           ∧ cur' = cur - total_size (take n (unpinned d))
  | (Raise e, cur') =>
      e = StopIteration ∧ cur' = cur - total_size (unpinned d)
      ∧ ∀ j, max < cache_size + cur - total_size (take j (unpinned d))
  end.
Proof.
  revert cur ks. induction d as [|[k e] d IH]; intros cur ks; cbn [evict_loop];
    destruct (max <? cache_size + cur) eqn:E; zbool;
    try (exists 0%nat; unfold least_room; simpl; rewrite app_nil_r; repeat split; try lia; fail).
  - simpl. repeat split; [lia|]. intros [|j]; simpl; lia.
  - destruct (is_pinned e) eqn:Hp.
    + specialize (IH cur ks).
      assert (unpinned ((k, e) :: d) = unpinned d) as Hu
        by (unfold unpinned; by rewrite filter_cons, decide_False by congruence).
      unfold least_room in *. rewrite !Hu. done.
    + specialize (IH (cur - size e) (ks ++ [k])).
      assert (unpinned ((k, e) :: d) = (k, e) :: unpinned d) as Hu
        by (unfold unpinned; by rewrite filter_cons, decide_True).
      unfold least_room in *. rewrite !Hu.
      destruct (evict_loop d cache_size max (cur - size e) (ks ++ [k])) as [[ks'|ex] cur'].
      * destruct IH as (n & (Hn & Hr & Hl) & -> & ->). exists (S n). simpl.
        rewrite <- app_assoc. repeat split; [lia|lia| |lia].
        intros [|j] Hj; simpl; [lia|]. specialize (Hl j). lia.
      * destruct IH as (-> & -> & Hj). simpl. repeat split; [lia|].
        intros [|j]; simpl; [lia|]. specialize (Hj j). lia.
Qed.

Lemma total_size_nonneg (l : list (K * entry)) :
  Forall (λ '(_, e), 0 ≤ size e) l → 0 ≤ total_size l.
Proof. induction 1 as [|[k e] l]; simpl; lia. Qed.

(** An accepted put evicts, in recency order, exactly the shortest prefix of the
    unpinned entries that makes room, never a pinned one, and charges the new entry; a put
    larger than the cache is refused with nothing evicted; and when all unpinned entries
    together do not make room the put raises [StopIteration] with every one of them already
    subtracted from the size although none is evicted. *)
Theorem lru_put_shortest_prefix (d : list (K * entry)) (cache_size : Z) (s : LRUEvictor) :
  match update_on_put d cache_size s with
  | (Ok (ks, LEGAL), s') =>
      cache_size ≤ MAX_CACHE_SIZE s
      ∧ ∃ n, least_room d (cache_size + current_cache_size s) (MAX_CACHE_SIZE s) n
           ∧ ks = (take n (unpinned d)).*1
           ∧ s' = Evictor (MAX_CACHE_SIZE s) (current_cache_size s
                    - total_size (take n (unpinned d)) + cache_size)
           ∧ current_cache_size s' ≤ MAX_CACHE_SIZE s'
  | (Ok (ks, ILLEGAL), s') => MAX_CACHE_SIZE s < cache_size ∧ ks = [] ∧ s' = s
  | (Raise e, s') =>
      e = StopIteration
      ∧ s' = Evictor (MAX_CACHE_SIZE s) (current_cache_size s - total_size (unpinned d))
      ∧ ∀ j, MAX_CACHE_SIZE s
             < cache_size + current_cache_size s - total_size (take j (unpinned d))
  end.
Proof.
  unfold update_on_put. destruct (MAX_CACHE_SIZE s <? cache_size) eqn:E; zbool; [done|].
  pose proof (evict_loop_spec d cache_size (MAX_CACHE_SIZE s) (current_cache_size s) []) as H.
  destruct (evict_loop d cache_size (MAX_CACHE_SIZE s) (current_cache_size s) []) as [[ks|e] cur].
  - destruct H as (n & Hn & -> & ->). split; [lia|]. exists n. split; [done|]. simpl.
    destruct Hn as (_ & Hr & _). repeat split. lia.
  - destruct H as (-> & -> & Hj). done.
Qed.

(** The size stays within the integers a float represents exactly, as long as
    the entries' sizes add up to what has been charged. *)
Lemma lru_size_bounded d cache_size s ks st s' :
  update_on_put d cache_size s = (Ok (ks, st), s') →
  0 ≤ cache_size → Forall (λ '(_, e), 0 ≤ size e) d →
  total_size (unpinned d) ≤ current_cache_size s ≤ MAX_CACHE_SIZE s →
  0 ≤ current_cache_size s' ≤ MAX_CACHE_SIZE s'.
Proof.
  unfold update_on_put. intros H Hc Hd Hs.
  destruct (MAX_CACHE_SIZE s <? cache_size) eqn:E; zbool.
  { injection H as <- <- <-. split; [|lia]. etrans; [|apply Hs].
    apply total_size_nonneg. unfold unpinned. by apply Forall_filter. }
  pose proof (evict_loop_spec d cache_size (MAX_CACHE_SIZE s) (current_cache_size s) []) as Hl.
  destruct (evict_loop d cache_size (MAX_CACHE_SIZE s) (current_cache_size s) []) as [[ks'|e] cur];
    [|done]. injection H as <- <- <-. simpl.
  destruct Hl as (n & (Hn & Hr & _) & _ & ->). split; [|lia].
  assert (total_size (take n (unpinned d)) ≤ total_size (unpinned d)); [|lia].
  assert (Forall (λ '(_, e), 0 ≤ size e) (unpinned d)) as Hu
    by (unfold unpinned; by apply Forall_filter).
  clear -Hu. revert n. induction Hu as [|[k e] l He Hl IH]; intros [|n]; simpl; [lia..| |].
  - pose proof (total_size_nonneg l Hl). lia.
  - specialize (IH n). lia.
Qed.
End lru.
