(* ===== verification/GpuFS.v ===== *)
(** The GPU file store behind the backend: the contract that the Python side relies
    on ([FileStore], [FileStoreLaws]), the wrappers of
    [infinikv/infinikv/_custom_ops.py] over it, and an instance of the contract that
    follows [GPUFileManager::openGPUFile] and [GeminiFS::geminifs_batched_xfer] of
    [infinikv/csrc/GeminiFS/libgeminifs].  A transfer takes effect when it is issued:
    what the streams delay is modelled by the backend's queue of prefetches. *)
From S2P Require Export OrderedDict.
From stdpp Require Import options.

(** The bytes of one block of one layer, of K or of V. *)
Abbreviation blob := (list Z).
Abbreviation kv_blob := (blob * blob)%type.

(** The operations that [infinikv.c_ops.GeminiFS] exports. *)
Class FileStore (S : Type) := {
  fs_open_file : S → option Z * S;
  fs_batched_write : S → list kv_blob → list Z → Z → bool * S;
  fs_batched_read : S → list kv_blob → list Z → Z → option (list kv_blob)
}.

(** A transfer whose tensors have the store's object size and whose files are open. *)
Definition xfer_ok (opened : gset Z) (size : Z) (kvs : list kv_blob) (ids : list Z) : Prop :=
  kvs ≠ [] ∧ length kvs = length ids
  ∧ Forall (λ '(k, v), zlen k = size ∧ zlen v = size) kvs ∧ Forall (λ i, i ∈ opened) ids.

(** What the store promises: a file that is opened was closed before; a transfer that
    is in order and finds its IO contexts succeeds; a read returns what was last written
    to the file's layer.  [fs_free] counts the opens that are sure to succeed (an open
    needs a closed file and memory on the device, and may be refused again after a
    success), [fs_room] the blocks a transfer may have and still find its IO contexts in
    the pool; a write that fails may have changed the files it names in its layer. *)
Class FileStoreLaws (S : Type) `{FileStore S} := {
  fs_inv : S → Prop;
  fs_opened : S → gset Z;
  fs_size : S → Z;
  fs_free : S → nat;
  fs_room : S → Z;
  fs_block : S → Z → Z → kv_blob;
  fs_open_spec s o s' :
    fs_inv s → fs_open_file s = (o, s') →
    fs_inv s' ∧ fs_size s' = fs_size s ∧ fs_room s' = fs_room s ∧ fs_block s' = fs_block s
    ∧ match o with
      | Some i => (i ∉ fs_opened s) ∧ fs_opened s' = ({[i]} ∪ fs_opened s)
                  ∧ (fs_free s <= Datatypes.S (fs_free s'))%nat
      | None => fs_opened s' = fs_opened s ∧ fs_free s = 0%nat
      end;
  fs_write_frame s kvs ids l b s' :
    fs_inv s → fs_batched_write s kvs ids l = (b, s') →
    fs_inv s' ∧ fs_size s' = fs_size s ∧ fs_room s' = fs_room s ∧ fs_opened s' = fs_opened s
    ∧ ∀ i l', i ∉ ids ∨ l' ≠ l → fs_block s' i l' = fs_block s i l';
  fs_write_ok s kvs ids l :
    fs_inv s → xfer_ok (fs_opened s) (fs_size s) kvs ids → zlen ids ≤ fs_room s → NoDup ids →
    (fs_batched_write s kvs ids l).1 = true
    ∧ ∀ n i kv, ids !! n = Some i → kvs !! n = Some kv →
        fs_block (fs_batched_write s kvs ids l).2 i l = kv;
  fs_blocks_sized s i l :
    fs_inv s → i ∈ fs_opened s →
    zlen (fs_block s i l).1 = fs_size s ∧ zlen (fs_block s i l).2 = fs_size s;
  fs_read_ok s kvs ids l :
    fs_inv s → xfer_ok (fs_opened s) (fs_size s) kvs ids → zlen ids ≤ fs_room s →
    fs_batched_read s kvs ids l = Some ((λ i, fs_block s i l) <$> ids)
}.

(** *** [infinikv/infinikv/_custom_ops.py]

    The module holds one instance, or none before [initialize_geminifs]; every
    wrapper catches the binding's exceptions and answers [False] or [None]. *)
Module CustomOps.
Section ops.
Context {S : Type} `{FileStore S}.
Implicit Types g : option S.

Definition initialize_geminifs (available : bool) (mk : option S)
    (gpu_file_shape : option (list Z)) g : bool * option S :=
  if negb available then (false, g)
  else match gpu_file_shape with
       | None => (false, g)
       | Some _ => match mk with Some s => (true, Some s) | None => (false, g) end
       end.

Definition gpu_open_file g : option Z * option S :=
  match g with
  | None => (None, None)
  | Some s => let '(o, s') := fs_open_file s in (o, Some s')
  end.

Definition geminifs_batched_read g (kvs : list kv_blob) (ids : list Z) (layer : Z)
    : option (list kv_blob) :=
  match g with None => None | Some s => fs_batched_read s kvs ids layer end.

Definition geminifs_batched_write g (kvs : list kv_blob) (ids : list Z) (layer : Z)
    : bool * option S :=
  match g with
  | None => (false, None)
  | Some s => let '(b, s') := fs_batched_write s kvs ids layer in (b, Some s')
  end.

(** The binding has no [geminifs_batched_read_unified] and no
    [geminifs_batched_write_unified] (they are commented out in [geminifs_pybind.cu]):
    the attribute error is caught and the answer is [False]. *)
Definition geminifs_batched_read_unified g (caches : list blob) (ids : list Z) (layer : Z)
    : option (list blob) := None.

Definition geminifs_batched_write_unified g (caches : list blob) (ids : list Z) (layer : Z)
    : bool * option S := (false, g).
End ops.
End CustomOps.

(** *** The store of [libgeminifs] *)
Module GpuFS.

(** [free_list_], the keys of [file_id_to_ctx_map_], the object size of the file
    shape, and the files' contents by layer; of the device, the answers to the
    allocations of [openGPUFile] to come (none is left: refused), the entries of the IO
    context pool that no other transfer holds, and the page mappings of one tensor. *)
Record t := FS {
  free_list : list Z;
  ctx : gset Z;
  object_size : Z;
  data : Z → Z → kv_blob;
  device : list bool;
  io_pool : Z;
  mappings : Z
}.

(** [GPUFileManager::openGPUFile]: the back of the free list; when [cudaMalloc] or
    [cudaMemcpy] fails the file goes back where it was taken. *)
Definition open_file (s : t) : option Z * t :=
  match last (free_list s) with
  | None => (None, s)
  | Some i =>
      let rest := take (length (free_list s) - 1) (free_list s) in
      match device s with
      | true :: dev =>
          (Some i, FS rest ({[i]} ∪ ctx s) (object_size s) (data s) dev (io_pool s) (mappings s))
      | dev =>
          (None, FS (rest ++ [i]) (ctx s) (object_size s) (data s) (drop 1 dev) (io_pool s)
                    (mappings s))
      end
  end.

(** [MAX_IOCTX_PER_BATCH], and the entries a transfer of [n] blocks takes from the pool:
    a context for each page of K and of V. *)
Definition max_ioctx_per_batch : Z := 512.

Definition io_entries (s : t) (n : Z) : Z :=
  (2 * (n * mappings s) + max_ioctx_per_batch - 1) `div` max_ioctx_per_batch.

(** The checks of [geminifs_batched_xfer]; the size of the first V tensor is not among
    them.  The entries it took are given back when the transfer ends, or at once when
    the pool has too few. *)
Definition xfer_check (s : t) (kvs : list kv_blob) (ids : list Z) : bool :=
  bool_decide (kvs ≠ []) && Nat.eqb (length kvs) (length ids)
  && match kvs with
     | (k, _) :: rest =>
         (zlen k =? object_size s)
         && forallb (λ '(k, v), (zlen k =? object_size s) && (zlen v =? object_size s)) rest
     | [] => false
     end
  && forallb (λ i, bool_decide (i ∈ ctx s)) ids
  && (0 <? mappings s) && (io_entries s (zlen ids) <=? io_pool s).

(** The kernel moves as many bytes as an object has. *)
Definition fit (size : Z) (kv : kv_blob) : kv_blob :=
  (resize (Z.to_nat size) 0 kv.1, resize (Z.to_nat size) 0 kv.2).

(** The kernel's writes, one file after the other. *)
Fixpoint write_all (d : Z → Z → kv_blob) (kvs : list kv_blob) (ids : list Z) (layer : Z)
    : Z → Z → kv_blob :=
  match kvs, ids with
  | kv :: kvs', i :: ids' =>
      write_all (λ i' l', if decide (i' = i ∧ l' = layer) then kv else d i' l') kvs' ids' layer
  | _, _ => d
  end.

Definition batched_write (s : t) (kvs : list kv_blob) (ids : list Z) (layer : Z) : bool * t :=
  if xfer_check s kvs ids
  then (true, FS (free_list s) (ctx s) (object_size s)
          (write_all (data s) (fit (object_size s) <$> kvs) ids layer)
          (device s) (io_pool s) (mappings s))
  else (false, s).

Definition batched_read (s : t) (kvs : list kv_blob) (ids : list Z) (layer : Z)
    : option (list kv_blob) :=
  if xfer_check s kvs ids then Some ((λ i, data s i layer) <$> ids) else None.

#[global] Instance file_store : FileStore t := {
  fs_open_file := open_file;
  fs_batched_write := batched_write;
  fs_batched_read := batched_read
}.

(** A store of files 0 to [n - 1], all closed, on a device with memory for all of them,
    with the pool of 64K entries and tensors of one page. *)
Definition create (n : nat) (size : Z) : t :=
  FS (Z.of_nat <$> seq 0 n) ∅ size (λ _ _, fit size ([], [])) (replicate n true) (64 * 1024) 1.

(** The allocations that succeed before the first refusal. *)
Fixpoint granted (dev : list bool) : nat :=
  match dev with true :: dev' => Datatypes.S (granted dev') | _ => 0%nat end.

Definition inv (s : t) : Prop :=
  NoDup (free_list s) ∧ (∀ i, i ∈ free_list s → i ∉ ctx s) ∧ 0 ≤ object_size s ∧ 0 < mappings s
  ∧ ∀ i l, zlen (data s i l).1 = object_size s ∧ zlen (data s i l).2 = object_size s.

Lemma fit_size size kv : 0 ≤ size → zlen (fit size kv).1 = size ∧ zlen (fit size kv).2 = size.
Proof. intros. unfold fit, zlen. simpl. rewrite !length_resize. lia. Qed.

Lemma fit_id size kv : zlen kv.1 = size → zlen kv.2 = size → fit size kv = kv.
Proof.
  destruct kv as [k v]. unfold fit, zlen. simpl. intros Hk Hv.
  rewrite !resize_all_alt by lia. done.
Qed.

Lemma write_all_sized d size kvs ids layer :
  0 ≤ size → (∀ i l, zlen (d i l).1 = size ∧ zlen (d i l).2 = size) →
  ∀ i l, let kv := write_all d (fit size <$> kvs) ids layer i l in
         zlen kv.1 = size ∧ zlen kv.2 = size.
Proof.
  intros Hs. revert d ids. induction kvs as [|kv kvs IH]; intros d [|i' ids] Hd; try done.
  apply IH. intros i l. destruct (decide _); [by apply fit_size|done].
Qed.

(** The blocks for which the pool has entries. *)
Definition room (s : t) : Z := (io_pool s * max_ioctx_per_batch) `div` (2 * mappings s).

Lemma room_entries s n : 0 < mappings s → n ≤ room s → io_entries s n ≤ io_pool s.
Proof.
  intros Hm Hn. unfold room, io_entries, max_ioctx_per_batch in *.
  assert (2 * mappings s * n ≤ io_pool s * 512).
  { pose proof (Z.mul_div_le (io_pool s * 512) (2 * mappings s)). nia. }
  transitivity ((io_pool s * 512 + 511) `div` 512); [apply Z.div_le_mono; nia|].
  rewrite Z.add_comm, Z.div_add by lia. done.
Qed.

Lemma xfer_check_ok s kvs ids :
  inv s → xfer_ok (ctx s) (object_size s) kvs ids → zlen ids ≤ room s →
  xfer_check s kvs ids = true.
Proof.
  intros (_ & _ & _ & Hm & _) (Hne & Hlen & Hsz & Hop) Hroom. unfold xfer_check.
  rewrite !andb_true_iff. repeat split; [..|lia|apply Z.leb_le; by apply room_entries].
  - by apply bool_decide_eq_true.
  - by apply Nat.eqb_eq.
  - destruct kvs as [|[k0 v0] kvs]; [done|]. apply Forall_cons in Hsz as [[-> _] Hsz].
    rewrite Z.eqb_refl. simpl. apply forallb_forall. intros [k v] Hin%list_elem_of_In.
    rewrite Forall_forall in Hsz. destruct (Hsz _ Hin) as [-> ->].
    by rewrite Z.eqb_refl.
  - apply forallb_forall. intros i Hin%list_elem_of_In.
    rewrite Forall_forall in Hop. by apply bool_decide_eq_true, Hop.
Qed.

Lemma write_all_other d kvs ids layer i l :
  i ∉ ids ∨ l ≠ layer → write_all d kvs ids layer i l = d i l.
Proof.
  revert d ids. induction kvs as [|kv kvs IH]; intros d [|i' ids] H; simpl; [done..|].
  rewrite IH.
  - rewrite decide_False; [done|]. rewrite not_elem_of_cons in H. tauto.
  - rewrite not_elem_of_cons in H. tauto.
Qed.

Lemma write_all_at d kvs ids layer n i kv :
  NoDup ids → ids !! n = Some i → kvs !! n = Some kv → write_all d kvs ids layer i layer = kv.
Proof.
  revert d ids n. induction kvs as [|kv' kvs IH]; intros d [|i' ids] [|n]; try done; simpl.
  - intros [Hni _]%NoDup_cons [= ->] [= ->]. rewrite write_all_other by by left.
    by rewrite decide_True.
  - intros [_ Hnd]%NoDup_cons. by apply IH.
Qed.

Lemma open_inv s : inv s → inv (open_file s).2.
Proof.
  unfold inv, open_file. intros (Hnd & Hd & Hsz).
  destruct (last (free_list s)) as [i|] eqn:Hl; simpl; [|done].
  apply last_Some in Hl as [l' Hl]. rewrite Hl in Hnd |- *.
  rewrite length_app, Nat.add_sub, take_app_length.
  destruct (device s) as [|[] dev]; simpl.
  1, 3: by rewrite Hl in Hd.
  apply NoDup_app in Hnd as (Hn1 & Hn2 & _). split; [done|]. split; [|done].
  intros j Hj. apply not_elem_of_union. split.
  - intros ->%elem_of_singleton. apply (Hn2 i Hj). by apply list_elem_of_singleton.
  - apply Hd. rewrite Hl. apply elem_of_app. by left.
Qed.

#[global] Program Instance file_store_laws : FileStoreLaws t := {
  fs_inv := inv;
  fs_opened := ctx;
  fs_size := object_size;
  fs_free := λ s, Nat.min (length (free_list s)) (granted (device s));
  fs_room := room;
  fs_block := data
}.
Next Obligation.
  intros s o s' Hs Ho. pose proof (open_inv s Hs) as Hi. unfold fs_open_file in Ho; simpl in Ho.
  rewrite Ho in Hi. split; [done|]. unfold open_file in Ho.
  destruct (last (free_list s)) as [i|] eqn:Hl; simplify_eq.
  - destruct (device s) as [|[] dev] eqn:Hdev; simplify_eq; simpl.
    + repeat split; simpl; lia.
    + repeat split.
      * destruct Hs as (_ & Hd & _). apply Hd, last_Some_elem_of, Hl.
      * apply last_Some in Hl as [l' ->]. rewrite length_take, length_app. simpl. lia.
    + repeat split; simpl; lia.
  - apply last_None in Hl. by rewrite Hl.
Qed.
Next Obligation.
  intros s kvs ids l b s' Hs Hw. unfold fs_batched_write in Hw; simpl in Hw.
  unfold batched_write in Hw. destruct (xfer_check s kvs ids); simplify_eq; [|done].
  destruct Hs as (H1 & H2 & H3 & H4 & H5). split.
  { split; [done|]. split; [done|]. split; [done|]. split; [done|]. by apply write_all_sized. }
  split; [done|]. split; [done|]. split; [done|]. intros i l' Hil. by apply write_all_other.
Qed.
Next Obligation.
  intros s kvs ids l Hs Hok Hroom Hnd. unfold fs_batched_write; simpl. unfold batched_write.
  rewrite xfer_check_ok by done. split; [done|]. simpl. intros n i kv Hi Hkv. apply (write_all_at _ _ ids l n); [done..|].
  rewrite list_lookup_fmap, Hkv. simpl. f_equal. destruct Hok as (_ & _ & Hsz & _).
  pose proof (Forall_lookup_1 _ _ _ _ Hsz Hkv) as Hk. destruct kv as [k v], Hk as [Hk Hv]. by apply fit_id.
Qed.
Next Obligation. intros s i l (_ & _ & _ & _ & Hd) _. apply Hd. Qed.
Next Obligation.
  intros s kvs ids l Hs Hok Hroom. unfold fs_batched_read; simpl. unfold batched_read.
  by rewrite xfer_check_ok.
Qed.

Lemma create_inv n size : 0 ≤ size → inv (create n size).
Proof.
  intros Hs. split; [|split; [set_solver|split; [done|split; [done|intros; by apply (fit_size size)]]]]. simpl.
  apply NoDup_fmap_2; [apply _|apply NoDup_seq].
Qed.
End GpuFS.
