(* ===== verification/GeminiBackend.v ===== *)
(** [infinikv/infinikv/v1/storage_backend/geminifs_backend.py]: the storage backend.
    It maps the key of a chunk to the GPU file that holds the chunk's KV cache, and
    moves the blocks of the paged KV cache to and from these files layer by layer.
    The GPU file store is the interface of [GpuFS.v].  A read that is issued on the
    load stream is queued and reaches the KV cache when the stream is waited for;
    writes take effect when they are issued. *)
From S2P Require Export CacheKey GpuFS.
From stdpp Require Import options.

(** [GPUFileMetadata]: it has these two fields and no method. *)
Record GPUFileMetadata := GPUFile { gf_id : Z; gf_key : CacheEngineKey }.

#[export] Instance GPUFileMetadata_eq_dec : EqDecision GPUFileMetadata.
Proof. solve_decision. Defined.

(** The blocks of one layer of the paged KV cache: [kvcache[0]] and [kvcache[1]], or
    for MLA the one plane [kvcache] (then [plane_v] is not used). *)
Record layer_cache := Planes { plane_k : list blob; plane_v : list blob }.

(** The messages for the controller ([KVAdmitMsg], [KVEvictMsg]). *)
Inductive kv_msg :=
  | KVAdmit (instance_id : string) (worker_id : Z) (key : string) (location : string)
  | KVEvict (instance_id : string) (worker_id : Z) (key : string) (location : string).

(** A dictionary as pickled: [is_odict] tells an [OrderedDict] from a [dict]. *)
Record snapshot_data := Snapshot {
  sn_dict : list (CacheEngineKey * GPUFileMetadata);
  sn_is_odict : bool;
  sn_usage : Z;
  sn_instance_id : string
}.

(** What the snapshot file holds: nothing, an unreadable or foreign object, or a
    dictionary some of whose required fields may be missing. *)
Inductive snapshot_file :=
  | NoFile
  | Garbage
  | NotADict
  | MissingFields
  | Saved (d : snapshot_data).

Module GeminiBackend.

(** A read issued on the load stream: the layer, the destination blocks and the files. *)
Record prefetch := Prefetch { pf_layer : Z; pf_blocks : list Z; pf_files : list Z }.

Section backend.
Context {S : Type} `{FileStore S}.

(** The attributes of [GeminiFSBackend], the module-level store instance of
    [_custom_ops], the snapshot file, the messages sent, the keys removed from the
    lookup server, the KV cache tensors and the load stream's queue. *)
Record t := Backend {
  dict : list (CacheEngineKey * GPUFileMetadata);
  usage : Z;
  num_gpu_files : Z;
  instance_id : string;
  max_capacity : Z;
  num_layers : Z;
  use_mla : bool;
  has_worker : bool;
  has_lookup_server : bool;
  store : option S;
  snapshot : snapshot_file;
  msgs : list kv_msg;
  unpublished : list CacheEngineKey;
  kvcaches : list layer_cache;
  load_queue : list prefetch
}.

Definition set_index d u n s st : t :=
  Backend d u n (instance_id s) (max_capacity s) (num_layers s) (use_mla s) (has_worker s)
    (has_lookup_server s) st (snapshot s) (msgs s) (unpublished s) (kvcaches s) (load_queue s).

Definition set_store st s : t := set_index (dict s) (usage s) (num_gpu_files s) s st.

Definition set_gpu m q s : t :=
  Backend (dict s) (usage s) (num_gpu_files s) (instance_id s) (max_capacity s) (num_layers s)
    (use_mla s) (has_worker s) (has_lookup_server s) (store s) (snapshot s) (msgs s)
    (unpublished s) m q.

Definition set_snapshot f s : t :=
  Backend (dict s) (usage s) (num_gpu_files s) (instance_id s) (max_capacity s) (num_layers s)
    (use_mla s) (has_worker s) (has_lookup_server s) (store s) f (msgs s)
    (unpublished s) (kvcaches s) (load_queue s).

Definition set_out m u s : t :=
  Backend (dict s) (usage s) (num_gpu_files s) (instance_id s) (max_capacity s) (num_layers s)
    (use_mla s) (has_worker s) (has_lookup_server s) (store s) (snapshot s) m u
    (kvcaches s) (load_queue s).

(** The geometry computed by [__init__] from [kv_shape = (num_layer, 2, chunk_size,
    num_kv_head, head_size)] and the size of an element: the shape of a GPU file, its
    size and how many files the capacity holds. *)
Definition gpu_file_shape (mla : bool) (kv_shape : list Z) (itemsize : Z) : result (list Z) :=
  let! c := py_index kv_shape 2 in
  let! h := py_index kv_shape 3 in
  let! d := py_index kv_shape 4 in
  let! l := py_index kv_shape 0 in
  Ok [if mla then 1 else 2; l; c * h * d * itemsize].

Definition max_num_local_file (max_capacity : Z) (shape : list Z) : result Z :=
  let! a := py_index shape 0 in
  let! b := py_index shape 1 in
  let! c := py_index shape 2 in
  py_div max_capacity (a * b * c).

(** *** The index *)

Definition contains (k : CacheEngineKey) (pin : bool) : py t bool := gets (λ s, od_mem k (dict s)).

Definition get (k : CacheEngineKey) : py t (option GPUFileMetadata) :=
  gets (λ s, od_get k (dict s)).

Definition allocate (k : CacheEngineKey) : py t (option GPUFileMetadata) := λ s,
  match CustomOps.gpu_open_file (store s) with
  | (None, st) => (Ok None, set_store st s)
  | (Some i, st) =>
      let m := GPUFile i k in
      (Ok (Some m), set_index (od_set k m (dict s)) (usage s) (num_gpu_files s + 1) s st)
  end.

(** [self.dict[key].pin()]: the metadata has no such method. *)
Definition pin (k : CacheEngineKey) : py t bool :=
  let* b := gets (λ s, od_mem k (dict s)) in
  if b then raise AttributeError else ret false.

Definition unpin (k : CacheEngineKey) : py t bool :=
  let* b := gets (λ s, od_mem k (dict s)) in
  if b then raise AttributeError else ret false.

(** [self.dict[key].size]: the metadata has no such field, so what follows the
    second line is not reached. *)
Definition remove (k : CacheEngineKey) : py t unit :=
  let* s := get_st in
  let* _ := lift (of_option KeyError (od_get k (dict s))) in
  raise AttributeError.

(** [self._key_to_id]: there is no such method. *)
Definition insert_key (k : CacheEngineKey) : py t unit := raise AttributeError.

(** [self.path]: there is no such attribute. *)
Definition key_to_path (k : CacheEngineKey) : py t string := raise AttributeError.

(** *** The snapshot *)

(** [pickle.dump] and [os.replace] to a path that can be written ([io_ok]). *)
Definition persist (io_ok : bool) : py t bool :=
  let* s := get_st in
  if io_ok then
    modify (set_snapshot (Saved (Snapshot (dict s) false (usage s) (instance_id s)))) ;;;
    ret true
  else ret false.

(** [_restore_from_snapshot]: the dictionary and the usage are overwritten before
    they are checked, and every exception becomes [False]. *)
Definition restore_from_snapshot : py t bool := λ s,
  match snapshot s with
  | NoFile | Garbage | NotADict | MissingFields => (Ok false, s)
  | Saved d =>
      let s' := set_index (sn_dict d) (sn_usage d) (num_gpu_files s) s (store s) in
      if sn_usage d <=? max_capacity s then (Ok (sn_is_odict d), s') else (Ok false, s')
  end.

(** [dict_size], [usage] and [instance_id] of [get_snapshot_info]. *)
Definition get_snapshot_info : py t (option (Z * Z * string)) :=
  gets (λ s, match snapshot s with
             | Saved d => Some (zlen (sn_dict d), sn_usage d, sn_instance_id d)
             | _ => None
             end).

Definition close : py t unit :=
  modify (λ s, if has_lookup_server s
               then set_out (msgs s) (unpublished s ++ od_keys (dict s)) s else s).

(** *** Blocks of the paged KV cache *)

(** [_get_kv_block]. *)
Definition get_kv_block (mla : bool) (c : layer_cache) (block_id : Z) : result kv_blob :=
  if mla then let! b := py_index (plane_k c) block_id in Ok (b, b)
  else let! k := py_index (plane_k c) block_id in
       let! v := py_index (plane_v c) block_id in Ok (k, v).

(** The element that [l[i] = x] replaces, for an index in range. *)
Definition py_set {A} (l : list A) (i : Z) (x : A) : list A :=
  <[Z.to_nat (if (i <? 0) then i + zlen l else i) := x]> l.

Definition set_kv_block (mla : bool) (c : layer_cache) (block_id : Z) (kv : kv_blob) : layer_cache :=
  if mla then Planes (py_set (plane_k c) block_id kv.1) (plane_v c)
  else Planes (py_set (plane_k c) block_id kv.1) (py_set (plane_v c) block_id kv.2).

(** The loop that collects the tensors of one layer. *)
Definition gather (mla : bool) (c : layer_cache) (block_ids : list Z) : result (list kv_blob) :=
  map_result (get_kv_block mla c) block_ids.

Definition write_layer (mla : bool) (kvs : list kv_blob) (ids : list Z) (layer : Z) (s : t) : t :=
  if mla then set_store (CustomOps.geminifs_batched_write_unified (store s) kvs.*1 ids layer).2 s
  else set_store (CustomOps.geminifs_batched_write (store s) kvs ids layer).2 s.

(** [layerwise_batch_put].  The write is issued on [stream], which first waits for the
    current stream: it moves the blocks as all the work queued before the call leaves
    them, which is the cache of the model's state at the call.  Nothing holds up what
    the current stream does next, so that the model, where the write takes effect at
    once, is faithful when [stream] is the current stream itself, as the worker's
    [save_kv_layer] passes it; a caller with another stream would have to keep the
    blocks and the files untouched until the write has run.
    [layerwise_batch_put_for_async], which the worker calls with its save stream for a
    pending task, waits for the load stream and the layer's completion event instead;
    its delay is not modelled. *)
Definition layerwise_batch_put (gpu_files : list GPUFileMetadata) (block_ids layer_ids : list Z)
    : py t unit :=
  passert ((zlen gpu_files =? zlen block_ids) && (zlen block_ids =? zlen layer_ids)) ;;;
  let* layer := lift (py_index layer_ids 0) in
  let* s := get_st in
  let* kvs := lift (map_result (λ '(b, l),
      let! _ := rassert (layer =? l) in
      let! c := py_index (kvcaches s) l in
      get_kv_block (use_mla s) c b) (zip block_ids layer_ids)) in
  modify (write_layer (use_mla s) kvs (gf_id <$> gpu_files) layer).

(** [batched_put]; the binding refuses the stream object that [batched_put] passes where
    it wants the stream's integer, so that the wrapper answers [False] and nothing is
    written. *)
Definition batched_put (gpu_files : list GPUFileMetadata) (block_ids : list Z) : py t unit :=
  passert (zlen block_ids =? zlen gpu_files) ;;;
  passert ((0 <? zlen block_ids) && (0 <? zlen gpu_files)) ;;;
  let* n := gets num_layers in
  for_each (seqZ 0 n) (λ layer,
    let* s := get_st in
    let* c := lift (py_index (kvcaches s) layer) in
    let* _ := lift (gather (use_mla s) c block_ids) in
    ret tt).

(** One read reaches the KV cache. *)
Fixpoint scatter (mla : bool) (c : layer_cache) (block_ids : list Z) (kvs : list kv_blob)
    : layer_cache :=
  match block_ids, kvs with
  | b :: bs, kv :: kvs' => scatter mla (set_kv_block mla c b kv) bs kvs'
  | _, _ => c
  end.

Definition read_layer (mla : bool) (st : option S) (m : list layer_cache) (p : prefetch)
    : list layer_cache :=
  match py_index m (pf_layer p) with
  | Raise _ => m
  | Ok c =>
      match gather mla c (pf_blocks p) with
      | Raise _ => m
      | Ok dst =>
          let r := if mla
                   then (λ bs : list blob, (λ b, (b, b)) <$> bs)
                        <$> CustomOps.geminifs_batched_read_unified st dst.*1 (pf_files p) (pf_layer p)
                   else CustomOps.geminifs_batched_read st dst (pf_files p) (pf_layer p) in
          match r with
          | None => m
          | Some kvs => py_set m (pf_layer p) (scatter mla c (pf_blocks p) kvs)
          end
      end
  end.

(** [current_stream.wait_stream(load_stream)], or [load_stream.synchronize()]: what was
    queued has reached the KV cache. *)
Definition wait_stream (s : t) : t :=
  set_gpu (foldl (read_layer (use_mla s) (store s)) (kvcaches s) (load_queue s)) [] s.

(** Collect the destination tensors of [layer] and issue the read. *)
Definition issue_read (layer : Z) (c : layer_cache) (gpu_files : list GPUFileMetadata)
    (block_ids : list Z) : py t unit :=
  let* s := get_st in
  let* _ := lift (gather (use_mla s) c block_ids) in
  modify (λ s, set_gpu (kvcaches s)
                 (load_queue s ++ [Prefetch layer block_ids (gf_id <$> gpu_files)]) s).

Definition batched_get (gpu_files : list GPUFileMetadata) (block_ids : list Z) : py t unit :=
  passert (zlen block_ids =? zlen gpu_files) ;;;
  let* n := gets num_layers in
  for_each (seqZ 0 n) (λ layer,
    let* s := get_st in
    let* c := lift (py_index (kvcaches s) layer) in
    issue_read layer c gpu_files block_ids) ;;;
  modify wait_stream.

(** [layerwise_batch_get]: wait for the prefetch of [layer], issue that of the next. *)
Definition layerwise_batch_get (layer : Z) (gpu_files : list GPUFileMetadata) (block_ids : list Z)
    : py t unit :=
  modify wait_stream ;;;
  let* s := get_st in
  if num_layers s <=? layer + 1 then ret tt
  else
    let* c := lift (py_index (kvcaches s) (layer + 1)) in
    passert (zlen gpu_files =? zlen block_ids) ;;;
    issue_read (layer + 1) c gpu_files block_ids.

(** *** Mamba states: one blob per block and layer, passed as K and as V *)

Definition mamba_batched_put (mamba_caches : list (list blob)) (gpu_files : list GPUFileMetadata)
    (block_ids : list Z) : py t unit :=
  if zlen gpu_files =? 0 then ret tt
  else for_each (zip (seqZ 0 (zlen mamba_caches)) mamba_caches) (λ '(layer_idx, cache),
    let* kvs := lift (map_result (λ '(_, b), let! x := py_index cache b in Ok (x, x))
                        (zip gpu_files block_ids)) in
    modify (λ s, set_store (CustomOps.geminifs_batched_write (store s) kvs
                   (gf_id ∘ fst <$> zip gpu_files block_ids) layer_idx).2 s)).

(** The states after [mamba_batched_get]; the V half lands on the K half. *)
Definition mamba_batched_get (mamba_caches : list (list blob)) (gpu_files : list GPUFileMetadata)
    (block_ids : list Z) (s : t) : result (list (list blob)) :=
  if zlen gpu_files =? 0 then Ok mamba_caches
  else map_result (λ '(layer_idx, cache),
    let! kvs := map_result (λ '(_, b), let! x := py_index cache b in Ok (x, x))
                  (zip gpu_files block_ids) in
    match CustomOps.geminifs_batched_read (store s) kvs
            (gf_id ∘ fst <$> zip gpu_files block_ids) layer_idx with
    | None => Ok cache
    | Some kvs' => Ok (foldl (λ c '(b, kv), py_set c b kv.2) cache (zip block_ids kvs'))
    end) (zip (seqZ 0 (zlen mamba_caches)) mamba_caches).

(** *** The KV cache as blocks *)

Definition block_at (c : layer_cache) (b : Z) : option kv_blob :=
  match plane_k c !! Z.to_nat b, plane_v c !! Z.to_nat b with
  | Some k, Some v => Some (k, v)
  | _, _ => None
  end.

Definition layer_block (m : list layer_cache) (l b : Z) : option kv_blob :=
  match m !! Z.to_nat l with Some c => block_at c b | None => None end.

(** A layer of [nb] blocks, every one of [size] bytes for K and for V. *)
Definition shaped_layer (size nb : Z) (c : layer_cache) : Prop :=
  zlen (plane_k c) = nb ∧ zlen (plane_v c) = nb
  ∧ Forall (λ x, zlen x = size) (plane_k c) ∧ Forall (λ x, zlen x = size) (plane_v c).

Definition shaped (size nb L : Z) (m : list layer_cache) : Prop :=
  zlen m = L ∧ Forall (shaped_layer size nb) m.

Definition in_cache (nb : Z) (bids : list Z) : Prop := Forall (λ b, 0 ≤ b < nb) bids.

Lemma shaped_block size nb c b :
  shaped_layer size nb c → 0 ≤ b < nb →
  ∃ kv, block_at c b = Some kv ∧ get_kv_block false c b = Ok kv
        ∧ zlen kv.1 = size ∧ zlen kv.2 = size.
Proof.
  intros (Hk & Hv & Fk & Fv) Hb. unfold block_at, get_kv_block.
  rewrite !py_index_nonneg by lia.
  destruct (lookup_lt_is_Some_2 (plane_k c) (Z.to_nat b)) as [k Ek]; [unfold zlen in *; lia|].
  destruct (lookup_lt_is_Some_2 (plane_v c) (Z.to_nat b)) as [v Ev]; [unfold zlen in *; lia|].
  rewrite Ek, Ev. exists (k, v). repeat split; simpl.
  - by apply (Forall_lookup_1 _ _ _ _ Fk Ek).
  - by apply (Forall_lookup_1 _ _ _ _ Fv Ev).
Qed.

Lemma gather_spec size nb c bids :
  shaped_layer size nb c → in_cache nb bids →
  ∃ kvs, gather false c bids = Ok kvs ∧ length kvs = length bids
         ∧ Forall (λ '(k, v), zlen k = size ∧ zlen v = size) kvs
         ∧ ∀ n b, bids !! n = Some b → kvs !! n = block_at c b.
Proof.
  intros Hc Hb. induction Hb as [|b bids Hb Hbs (kvs & Hg & Hl & Hs & Hn)]; [by exists []|].
  destruct (shaped_block size nb c b Hc Hb) as (kv & Hat & Hkv & Hz).
  exists (kv :: kvs). unfold gather in *. cbn [map_result]. rewrite Hkv. cbn [rbind].
  rewrite Hg. cbn [rbind]. repeat split; simpl; [by rewrite Hl| |].
  - constructor; [by destruct kv|done].
  - intros [|n] b'; simpl; [by intros [= ->]|apply Hn].
Qed.

Lemma block_at_set c b b' kv :
  0 ≤ b < zlen (plane_k c) → 0 ≤ b < zlen (plane_v c) → 0 ≤ b' →
  block_at (set_kv_block false c b kv) b' = if decide (b = b') then Some kv else block_at c b'.
Proof.
  intros Hk Hv Hb'. unfold block_at, set_kv_block, py_set, zlen in *. simpl.
  rewrite (proj2 (Z.ltb_ge b 0)) by lia. simpl. destruct (decide (b = b')) as [->|Hne].
  - rewrite !list_lookup_insert_eq by lia. by destruct kv.
  - by rewrite !list_lookup_insert_ne by lia.
Qed.

Lemma shaped_set size nb c b kv :
  shaped_layer size nb c → zlen kv.1 = size ∧ zlen kv.2 = size →
  shaped_layer size nb (set_kv_block false c b kv).
Proof.
  intros (Hk & Hv & Fk & Fv) [H1 H2]. unfold shaped_layer, set_kv_block, py_set, zlen in *. simpl.
  rewrite !length_insert. repeat split; [done..| |]; by apply Forall_insert.
Qed.

(** What a read leaves in a layer: the files' blocks at their places, nothing else moved. *)
Lemma scatter_spec size nb c bids kvs :
  shaped_layer size nb c → in_cache nb bids → NoDup bids → length bids = length kvs →
  Forall (λ '(k, v), zlen k = size ∧ zlen v = size) kvs →
  shaped_layer size nb (scatter false c bids kvs)
  ∧ (∀ n b, bids !! n = Some b → block_at (scatter false c bids kvs) b = kvs !! n)
  ∧ (∀ b, 0 ≤ b → b ∉ bids → block_at (scatter false c bids kvs) b = block_at c b).
Proof.
  revert c kvs. induction bids as [|b bids IH]; intros c [|kv kvs] Hc Hb Hnd Hl Hs; try done.
  apply Forall_cons in Hb as [Hb Hbs]. apply NoDup_cons in Hnd as [Hni Hnd].
  apply Forall_cons in Hs as [Hkv Hs]. simpl.
  pose proof (shaped_set size nb c b kv Hc) as Hsh.
  destruct (IH (set_kv_block false c b kv) kvs) as (H1 & H2 & H3);
    [apply Hsh; by destruct kv|done|done|simpl in Hl; lia|done|].
  destruct Hc as (Hzk & Hzv & _).
  split; [done|]. split.
  - intros [|n] b'; simpl; [intros [= ->]|by apply H2].
    rewrite H3, block_at_set by (done || lia). by rewrite decide_True.
  - intros b' Hb' [Hne Hni']%not_elem_of_cons. rewrite H3, block_at_set by (done || lia).
    by rewrite decide_False by congruence.
Qed.

(** *** Store and prefetch *)

Section laws.
Context `{!FileStoreLaws S}.

(** The conditions under which the adapter calls the transfers: the store is up, the
    tensors have the registered shape, the files are distinct open files, and the pool
    of IO contexts has room for a transfer of all of them. *)
Record ready (s : t) (fs : S) (nb : Z) (files : list GPUFileMetadata) : Prop := Ready {
  rd_store : store s = Some fs;
  rd_inv : fs_inv fs;
  rd_mla : use_mla s = false;
  rd_layers : 0 < num_layers s;
  rd_shape : shaped (fs_size fs) nb (num_layers s) (kvcaches s);
  rd_ne : files ≠ [];
  rd_nodup : NoDup (gf_id <$> files);
  rd_open : Forall (λ i, i ∈ fs_opened fs) (gf_id <$> files);
  rd_room : zlen files ≤ fs_room fs
}.

Lemma shaped_lookup size nb L m l :
  shaped size nb L m → 0 ≤ l < L →
  ∃ c, m !! Z.to_nat l = Some c ∧ py_index m l = Ok c ∧ shaped_layer size nb c.
Proof.
  intros [HL Hm] Hl.
  destruct (lookup_lt_is_Some_2 m (Z.to_nat l)) as [c Hc]; [unfold zlen in *; lia|].
  exists c. rewrite py_index_nonneg, Hc by lia. repeat split; try done.
  all: by destruct (Forall_lookup_1 _ _ _ _ Hm Hc) as (? & ? & ? & ?).
Qed.

(** The tensors that [layerwise_batch_put] collects for one layer. *)
Lemma put_gather size nb L m bids l :
  shaped size nb L m → 0 ≤ l < L → in_cache nb bids →
  ∃ kvs, map_result (λ '(b, l'), let! _ := rassert (l =? l') in
                      let! c := py_index m l' in get_kv_block false c b)
           (zip bids (replicate (length bids) l)) = Ok kvs
    ∧ length kvs = length bids
    ∧ Forall (λ '(k, v), zlen k = size ∧ zlen v = size) kvs
    ∧ ∀ n b, bids !! n = Some b → kvs !! n = layer_block m l b.
Proof.
  intros Hm Hl Hb. destruct (shaped_lookup size nb L m l Hm Hl) as (c & Hc & Hi & Hsc).
  destruct (gather_spec size nb c bids Hsc Hb) as (kvs & Hg & Hlen & Hs & Hn).
  exists kvs. repeat split; try done.
  - clear Hn Hs Hlen Hb. revert kvs Hg. induction bids as [|b bids IH]; intros kvs Hg; [done|].
    unfold gather in *. simpl in *. rewrite Z.eqb_refl, Hi. simpl.
    apply rbind_ok in Hg as (kv & Hkv & Hg). apply rbind_ok in Hg as (kvs' & Hg & [= <-]).
    rewrite Hkv. simpl. by rewrite (IH kvs' Hg).
  - intros n b Hnb. unfold layer_block. rewrite Hc. by apply Hn.
Qed.

(** One layer of a store: every file receives its block of that layer, and the other
    layers and files are as they were. *)
Lemma layerwise_put_spec s fs nb files bids l :
  ready s fs nb files → length bids = length files → in_cache nb bids → 0 ≤ l < num_layers s →
  ∃ fs', layerwise_batch_put files bids (replicate (length bids) l) s = (Ok tt, set_store (Some fs') s)
    ∧ ready (set_store (Some fs') s) fs' nb files ∧ fs_size fs' = fs_size fs
    ∧ (∀ n f b, files !! n = Some f → bids !! n = Some b →
         Some (fs_block fs' (gf_id f) l) = layer_block (kvcaches s) l b)
    ∧ (∀ i l', l' ≠ l → fs_block fs' i l' = fs_block fs i l').
Proof.
  intros [Hst Hinv Hmla HL Hsh Hne Hnd Hop Hroom] Hlen Hb Hl.
  destruct (put_gather _ nb _ (kvcaches s) bids l Hsh Hl Hb) as (kvs & Hg & Hlk & Hsz & Hn).
  assert (xfer_ok (fs_opened fs) (fs_size fs) kvs (gf_id <$> files)) as Hok.
  { repeat split; try done.
    - intros ->. destruct files; [done|]. simpl in *. lia.
    - rewrite length_fmap. lia. }
  destruct (fs_batched_write fs kvs (gf_id <$> files) l) as [ok fs'] eqn:Hw.
  destruct (fs_write_frame fs kvs _ l ok fs' Hinv Hw) as (Hi' & Hs' & Hr' & Ho' & Hf').
  destruct (fs_write_ok fs kvs _ l Hinv Hok) as [_ Hblk]; [by unfold zlen; rewrite length_fmap|done|]. rewrite Hw in Hblk.
  exists fs'. split; [|split; [|split; [done|split]]].
  - unfold layerwise_batch_put, passert, lift, bind, get_st, modify.
    assert ((zlen files =? zlen bids) && (zlen bids =? zlen (replicate (length bids) l)) = true) as ->.
    { unfold zlen. rewrite length_replicate, Hlen, !Z.eqb_refl. done. }
    simpl. assert (py_index (replicate (length bids) l) 0 = Ok l) as ->.
    { rewrite py_index_nonneg by lia. rewrite lookup_replicate_2; [done|].
      destruct files; [done|]. simpl in *. lia. }
    rewrite Hmla, Hg. unfold write_layer, CustomOps.geminifs_batched_write.
    by rewrite Hst, Hw.
  - constructor; simpl; try done. + by rewrite Hs'. + by rewrite Ho'. + by rewrite Hr'.
  - intros n f b Hfn Hbn. rewrite <- (Hn n b Hbn).
    destruct (lookup_lt_is_Some_2 kvs n) as [kv Hkv].
    { rewrite Hlk. by apply lookup_lt_Some in Hbn. }
    rewrite Hkv. f_equal. apply (Hblk n); [|done]. by rewrite list_lookup_fmap, Hfn.
  - intros i l' Hl'. apply Hf'. by right.
Qed.

(** The store of layers [0 .. L-1] in the order in which the model computes them. *)
Lemma store_layers_spec s fs nb files bids (n : nat) :
  ready s fs nb files → length bids = length files → in_cache nb bids →
  Z.of_nat n ≤ num_layers s →
  ∃ fs', for_each (seqZ 0 (Z.of_nat n))
           (λ l, layerwise_batch_put files bids (replicate (length bids) l)) s
         = (Ok tt, set_store (Some fs') s)
    ∧ ready (set_store (Some fs') s) fs' nb files ∧ fs_size fs' = fs_size fs
    ∧ (∀ l k f b, 0 ≤ l < Z.of_nat n → files !! k = Some f → bids !! k = Some b →
         Some (fs_block fs' (gf_id f) l) = layer_block (kvcaches s) l b).
Proof.
  intros Hr Hlen Hb. induction n as [|n IH]; intros Hn.
  - exists fs. split; [|split; [|split; [done|intros; lia]]].
    + simpl. unfold ret. f_equal. destruct s, Hr; simpl in *. by subst.
    + destruct Hr. by constructor.
  - destruct IH as (fs1 & Hf & Hr1 & Hz1 & H1); [lia|].
    destruct (layerwise_put_spec _ _ nb files bids (Z.of_nat n) Hr1 Hlen Hb)
      as (fs2 & Hp & Hr2 & Hz2 & H2 & H3); [simpl; lia|].
    exists fs2. rewrite for_each_seqZ_S. unfold bind. rewrite Hf, Z.add_0_l, Hp.
    split; [done|]. split; [done|]. split; [congruence|]. intros l k f b Hl Hk Hbk.
    destruct (decide (l = Z.of_nat n)) as [->|Hne]; [by apply (H2 k)|].
    rewrite (H3 _ _ Hne). apply (H1 l k); try done. lia.
Qed.

(** The cache [m'] is [m] with the files' blocks of the layers below [n] at [bids]. *)
Definition loaded (fs : S) (files : list GPUFileMetadata) (bids : list Z) (n : Z)
    (m m' : list layer_cache) : Prop :=
  (∀ l k f b, 0 ≤ l < n → files !! k = Some f → bids !! k = Some b →
     layer_block m' l b = Some (fs_block fs (gf_id f) l))
  ∧ (∀ l b, 0 ≤ l < n → 0 ≤ b → b ∉ bids → layer_block m' l b = layer_block m l b)
  ∧ (∀ l b, n ≤ l → 0 ≤ l → layer_block m' l b = layer_block m l b).

Lemma layer_block_set m l l' c b :
  0 ≤ l < zlen m → 0 ≤ l' →
  layer_block (py_set m l c) l' b = if decide (l = l') then block_at c b else layer_block m l' b.
Proof.
  intros Hl Hl'. unfold layer_block, py_set, zlen in *. rewrite (proj2 (Z.ltb_ge l 0)) by lia.
  destruct (decide (l = l')) as [->|]; [by rewrite list_lookup_insert_eq by lia|].
  by rewrite list_lookup_insert_ne by lia.
Qed.

(** One read that reaches the cache. *)
Lemma read_layer_spec s fs nb files bids m0 m n :
  ready s fs nb files → length bids = length files → in_cache nb bids → NoDup bids →
  0 ≤ n < num_layers s → shaped (fs_size fs) nb (num_layers s) m → loaded fs files bids n m0 m →
  let m' := read_layer false (store s) m (Prefetch n bids (gf_id <$> files)) in
  shaped (fs_size fs) nb (num_layers s) m' ∧ loaded fs files bids (n + 1) m0 m'.
Proof.
  intros [Hst Hinv Hmla HL _ Hne Hnd Hop Hroom] Hlen Hb Hndb Hn Hsh (L1 & L2 & L3).
  destruct (shaped_lookup _ nb _ m n Hsh Hn) as (c & Hc & Hi & Hsc).
  destruct (gather_spec _ nb c bids Hsc Hb) as (dst & Hg & Hlk & Hsz & _).
  assert (xfer_ok (fs_opened fs) (fs_size fs) dst (gf_id <$> files)) as Hok.
  { repeat split; try done.
    - intros ->. destruct files; [done|]. simpl in *. lia.
    - rewrite length_fmap. lia. }
  unfold read_layer; cbn [pf_layer pf_blocks pf_files]. rewrite Hi, Hg, Hst.
  unfold CustomOps.geminifs_batched_read. pose proof (fs_read_ok fs dst _ n Hinv Hok) as Hrd.
  rewrite Hrd by (by unfold zlen; rewrite length_fmap). cbv zeta. set (kvs := (λ i, fs_block fs i n) <$> (gf_id <$> files)) in *.
  assert (Forall (λ '(k, v), zlen k = fs_size fs ∧ zlen v = fs_size fs) kvs) as Hks.
  { apply Forall_fmap, (Forall_impl _ _ _ Hop). intros i Hio. simpl.
    pose proof (fs_blocks_sized fs i n Hinv Hio). by destruct (fs_block fs i n). }
  destruct (scatter_spec _ nb c bids kvs Hsc Hb Hndb) as (S1 & S2 & S3);
    [unfold kvs; by rewrite !length_fmap|done|].
  destruct Hsh as [HzL Hm]. split; [split|].
  - unfold py_set, zlen in *. by rewrite length_insert.
  - unfold py_set. by apply Forall_insert.
  - split; [|split].
    + intros l k f b Hl Hf Hbk. rewrite layer_block_set by lia.
      destruct (decide (n = l)) as [->|]; [|apply (L1 l k); [lia|done..]].
      rewrite (S2 k b Hbk). unfold kvs. by rewrite !list_lookup_fmap, Hf.
    + intros l b Hl Hb0 Hni. rewrite layer_block_set by lia.
      destruct (decide (n = l)) as [->|]; [|apply L2; [lia|done..]].
      rewrite (S3 b Hb0 Hni), <- L3 by lia. unfold layer_block. by rewrite Hc.
    + intros l b Hl Hl0. rewrite layer_block_set by lia.
      rewrite decide_False by lia. apply L3; lia.
Qed.

(** The calls [retrieve_layer(-1), retrieve_layer(0), ...]: call [l] sees layer [l] in
    the cache and leaves the read of layer [l + 1] on the load stream. *)
Lemma prefetch_spec s fs nb files bids (n : nat) :
  ready s fs nb files → length bids = length files → in_cache nb bids → NoDup bids →
  load_queue s = [] → Z.of_nat n ≤ num_layers s →
  ∃ m', for_each (seqZ (-1) (Z.of_nat n + 1)) (λ l, layerwise_batch_get l files bids) s
        = (Ok tt, set_gpu m' (if Z.of_nat n <? num_layers s
                              then [Prefetch (Z.of_nat n) bids (gf_id <$> files)] else []) s)
    ∧ shaped (fs_size fs) nb (num_layers s) m' ∧ loaded fs files bids (Z.of_nat n) (kvcaches s) m'.
Proof.
  intros Hr Hlen Hb Hnd Hq. pose proof Hr as [Hst Hinv Hmla HL Hsh Hne Hndf Hop Hroom].
  assert (∀ (l : Z) m q, 0 ≤ l + 1 →
    shaped (fs_size fs) nb (num_layers s) (foldl (read_layer false (store s)) m q) →
    layerwise_batch_get l files bids (set_gpu m q s)
    = (Ok tt, set_gpu (foldl (read_layer false (store s)) m q)
         (if l + 1 <? num_layers s then [Prefetch (l + 1) bids (gf_id <$> files)] else []) s)) as Hstep.
  { intros l m q Hl Hm. unfold layerwise_batch_get, modify, bind, get_st, wait_stream; simpl.
    rewrite Hmla. destruct (num_layers s <=? l + 1) eqn:E; zbool.
    - by rewrite (proj2 (Z.ltb_ge (l + 1) (num_layers s))) by lia.
    - rewrite (proj2 (Z.ltb_lt (l + 1) (num_layers s))) by lia.
      destruct (shaped_lookup _ nb _ _ (l + 1) Hm) as (c & _ & Hi & Hsc); [lia|].
      destruct (gather_spec _ nb c bids Hsc Hb) as (dst & Hg & _).
      unfold lift. rewrite Hi. unfold passert, lift, zlen. rewrite Hlen, Z.eqb_refl. simpl.
      unfold issue_read, bind, get_st, lift, modify; simpl. by rewrite Hmla, Hg. }
  induction n as [|n IH]; intros Hn.
  - exists (kvcaches s). change (seqZ (-1) (Z.of_nat 0 + 1)) with [-1]. simpl. unfold bind, ret.
    assert (s = set_gpu (kvcaches s) [] s) as Hs by (destruct s; simpl in *; by subst).
    rewrite Hs at 1. rewrite (Hstep (-1) (kvcaches s) []) by (done || lia).
    split; [done|]. split; [done|]. split; [intros; lia|split; [intros; lia|done]].
  - destruct IH as (m & Hf & Hm & Hl); [lia|].
    rewrite (proj2 (Z.ltb_lt (Z.of_nat n) (num_layers s))) in Hf by lia.
    destruct (read_layer_spec s fs nb files bids (kvcaches s) m (Z.of_nat n)) as [Hm' Hl'];
      [done..|lia|done|done|].
    exists (read_layer false (store s) m (Prefetch (Z.of_nat n) bids (gf_id <$> files))).
    replace (Z.of_nat (Datatypes.S n) + 1) with (Z.of_nat (Datatypes.S (Datatypes.S n))) by lia.
    rewrite for_each_seqZ_S. replace (Z.of_nat (Datatypes.S n)) with (Z.of_nat n + 1) by lia.
    unfold bind. rewrite Hf. replace (-1 + (Z.of_nat n + 1)) with (Z.of_nat n) by lia.
    rewrite Hstep by (done || lia). split; [done|]. by split.
Qed.


(** *** The index over a run *)

(** The calls the engine and the controller's worker make on the backend. *)
Inductive op :=
  | OContains (k : CacheEngineKey) (p : bool)
  | OGet (k : CacheEngineKey)
  | OAllocate (k : CacheEngineKey)
  | OPin (k : CacheEngineKey)
  | OUnpin (k : CacheEngineKey)
  | ORemove (k : CacheEngineKey)
  | OInsertKey (k : CacheEngineKey)
  | OPersist (io_ok : bool)
  | OClose
  | OPutLayer (files : list GPUFileMetadata) (bids lids : list Z)
  | OPut (files : list GPUFileMetadata) (bids : list Z)
  | OGetLayer (l : Z) (files : list GPUFileMetadata) (bids : list Z)
  | OBatchedGet (files : list GPUFileMetadata) (bids : list Z)
  | OMambaPut (caches : list (list blob)) (files : list GPUFileMetadata) (bids : list Z).

Definition run_op (o : op) (s : t) : t :=
  match o with
  | OContains k p => (contains k p s).2
  | OGet k => (get k s).2
  | OAllocate k => (allocate k s).2
  | OPin k => (pin k s).2
  | OUnpin k => (unpin k s).2
  | ORemove k => (remove k s).2
  | OInsertKey k => (insert_key k s).2
  | OPersist b => (persist b s).2
  | OClose => (close s).2
  | OPutLayer f b l => (layerwise_batch_put f b l s).2
  | OPut f b => (batched_put f b s).2
  | OGetLayer l f b => (layerwise_batch_get l f b s).2
  | OBatchedGet f b => (batched_get f b s).2
  | OMambaPut c f b => (mamba_batched_put c f b s).2
  end.

(** Every key is bound once, to a record of its own, whose file is open; two keys never
    have one file; and no file is bound that was not counted. *)
Record index_ok (s : t) : Prop := IndexOk {
  ix_wf : od_wf (dict s);
  ix_key : ∀ k m, od_get k (dict s) = Some m → gf_key m = k;
  ix_open : ∀ k m, od_get k (dict s) = Some m →
              ∃ fs, store s = Some fs ∧ gf_id m ∈ fs_opened fs;
  ix_inj : ∀ k1 k2 m1 m2, od_get k1 (dict s) = Some m1 → od_get k2 (dict s) = Some m2 →
             gf_id m1 = gf_id m2 → k1 = k2;
  ix_count : zlen (dict s) ≤ num_gpu_files s;
  ix_store : ∀ fs, store s = Some fs → fs_inv fs
}.

(** A step that keeps the index and the store's open files. *)
Definition same_index (s s' : t) : Prop :=
  dict s' = dict s ∧ num_gpu_files s' = num_gpu_files s
  ∧ match store s, store s' with
    | Some a, Some b => fs_inv a → fs_inv b ∧ fs_opened b = fs_opened a
    | None, None => True
    | _, _ => False
    end.

Lemma same_index_intro s s' :
  dict s' = dict s → num_gpu_files s' = num_gpu_files s → store s' = store s → same_index s s'.
Proof. intros Hd Hn Hs. split; [done|]. split; [done|]. rewrite Hs. by destruct (store s). Qed.

Lemma same_index_refl s : same_index s s.
Proof. by apply same_index_intro. Qed.

Lemma same_index_trans s1 s2 s3 : same_index s1 s2 → same_index s2 s3 → same_index s1 s3.
Proof.
  intros (D1 & N1 & S1) (D2 & N2 & S2). split; [congruence|]. split; [congruence|].
  destruct (store s1), (store s2), (store s3); try done.
  intros Hi. destruct (S1 Hi) as [Hi2 He]. destruct (S2 Hi2) as [? ?]. split; [done|congruence].
Qed.

Lemma same_index_ok s s' : index_ok s → same_index s s' → index_ok s'.
Proof.
  intros [H1 H2 H3 H4 H5 H6] (Hd & Hn & Hs). constructor; rewrite ?Hd, ?Hn; try done.
  - intros k m Hk. destruct (H3 k m Hk) as (fs & Hfs & Hin). rewrite Hfs in Hs.
    destruct (store s') as [fs'|]; [|done]. exists fs'. split; [done|].
    destruct (Hs (H6 fs Hfs)) as [_ ->]. done.
  - intros fs' Hfs'. rewrite Hfs' in Hs. destruct (store s) as [fs|] eqn:E; [|done].
    by apply Hs, H6.
Qed.

Lemma same_index_write mla kvs ids l s : same_index s (write_layer mla kvs ids l s).
Proof.
  unfold write_layer. destruct mla; [by apply same_index_intro|].
  split; [done|]. split; [done|]. simpl. unfold CustomOps.geminifs_batched_write.
  destruct (store s) as [fs|]; [|done]. destruct (fs_batched_write fs kvs ids l) as [b fs'] eqn:E.
  simpl. intros Hi. destruct (fs_write_frame _ _ _ _ _ _ Hi E) as (? & _ & _ & ? & _). done.
Qed.

Lemma same_index_for_each {A} (l : list A) (f : A → py t unit) s :
  (∀ x s0, same_index s0 (f x s0).2) → same_index s (for_each l f s).2.
Proof.
  intros Hf. apply (for_each_inv (same_index s)); [|apply same_index_refl].
  intros x s0 _ H0. apply (same_index_trans _ s0); [done|apply Hf].
Qed.

(** The transfers do not touch the index, whatever they raise. *)
Lemma same_index_transfer o s :
  match o with
  | OPutLayer _ _ _ | OPut _ _ | OGetLayer _ _ _ | OBatchedGet _ _ | OMambaPut _ _ _ =>
      same_index s (run_op o s)
  | _ => True
  end.
Proof.
  assert (∀ l c f b s0, same_index s0 (issue_read l c f b s0).2) as Hissue.
  { intros l c f b s0. unfold issue_read, bind, get_st, lift, modify.
    by destruct (gather (use_mla s0) c b); apply same_index_intro. }
  assert (∀ s0, same_index s0 (wait_stream s0)) as Hwait
    by (intros s0; by apply same_index_intro).
  destruct o as [| | | | | | | | |f b l|f b|l f b|f b|c f b]; try done; simpl.
  - unfold layerwise_batch_put, passert, lift, bind, get_st, modify.
    destruct (rassert _); [|apply same_index_refl].
    destruct (py_index l 0); [|apply same_index_refl].
    destruct (map_result _ _); [apply same_index_write|apply same_index_refl].
  - unfold batched_put, passert, lift, bind, gets.
    destruct (rassert _); [|apply same_index_refl]. destruct (rassert _); [|apply same_index_refl].
    apply same_index_for_each. intros x s0. unfold get_st.
    destruct (py_index _ _); [|apply same_index_refl].
    destruct (gather _ _ _); apply same_index_refl.
  - unfold layerwise_batch_get, modify, bind, get_st, passert, lift.
    destruct (num_layers (wait_stream s) <=? l + 1); [apply Hwait|].
    destruct (py_index _ _) as [c|]; [|apply Hwait]. destruct (rassert _); [|apply Hwait].
    apply (same_index_trans _ (wait_stream s)); [apply Hwait|apply Hissue].
  - unfold batched_get, passert, lift, bind at 1 2, gets.
    destruct (rassert _); [|apply same_index_refl]. unfold bind at 1.
    match goal with |- context [ for_each ?l ?g s ] =>
      assert (same_index s (for_each l g s).2) as Hl; [|destruct (for_each l g s) as [[[]|] s']] end.
    + apply same_index_for_each. intros x s0. unfold bind, get_st, lift.
      destruct (py_index _ _); [apply Hissue|apply same_index_refl].
    + apply (same_index_trans _ s'); [done|apply Hwait].
    + done.
  - unfold mamba_batched_put. destruct (zlen f =? 0); [apply same_index_refl|].
    apply same_index_for_each. intros [i ca] s0. unfold bind, lift, modify.
    destruct (map_result _ _) as [kvs|]; [|apply same_index_refl].
    apply (same_index_write false kvs).
Qed.

Lemma allocate_ok k s : index_ok s → index_ok (allocate k s).2.
Proof.
  intros [H1 H2 H3 H4 H5 H6]. unfold allocate, CustomOps.gpu_open_file.
  destruct (store s) as [fs|] eqn:Hst; simpl; [|by constructor; rewrite ?Hst].
  destruct (fs_open_file fs) as [o fs'] eqn:Ho.
  destruct (fs_open_spec fs o fs' (H6 fs eq_refl) Ho) as (Hi & _ & _ & _ & Hop).
  assert (∀ k0 m, od_get k0 (dict s) = Some m → gf_id m ∈ fs_opened fs) as Hin.
  { intros k0 m Hk. destruct (H3 k0 m Hk) as (? & [= ->] & ?). done. }
  destruct o as [i|]; simpl.
  - destruct Hop as (Hnew & Hop & _). constructor; simpl.
    + by apply od_wf_set.
    + intros k' m. destruct (decide (k' = k)) as [->|Hne].
      * rewrite od_get_set. by intros [= <-].
      * rewrite od_get_set_ne by done. apply H2.
    + intros k' m Hk. exists fs'. split; [done|]. rewrite Hop. revert Hk.
      destruct (decide (k' = k)) as [->|Hne].
      * rewrite od_get_set. intros [= <-]. simpl. apply elem_of_union. left. by apply elem_of_singleton.
      * rewrite od_get_set_ne by done. intros Hk. apply elem_of_union. right. by apply (Hin k').
    + intros k1 k2 m1 m2. destruct (decide (k1 = k)) as [->|N1], (decide (k2 = k)) as [->|N2];
        rewrite ?od_get_set, ?od_get_set_ne by done; [done|..].
      * intros [= <-] Hk%Hin Hid. simpl in Hid. subst. done.
      * intros Hk%Hin [= <-] Hid. simpl in Hid. subst. done.
      * apply H4.
    + unfold zlen in *. assert (length (od_set k (GPUFile i k) (dict s)) <= Datatypes.S (length (dict s)))%nat; [|lia].
      pose proof (od_keys_set k (GPUFile i k) (dict s)) as Hk. apply (f_equal length) in Hk.
      unfold od_keys in Hk. rewrite length_fmap in Hk. rewrite Hk.
      destruct (od_mem k (dict s)); rewrite ?length_app, length_fmap; simpl; lia.
    + by intros ? [= <-].
  - destruct Hop as [Hop _]. constructor; simpl; try done.
    + intros k0 m Hk. exists fs'. split; [done|]. rewrite Hop. by apply (Hin k0).
    + by intros ? [= <-].
Qed.

(** C31. No chunk ever loses its file to another: over any sequence of backend calls, with
    whatever exceptions they raise, every key stays bound to a record of its own whose
    GPU file is open, two keys never share a file, and a key once bound stays bound. *)
Theorem index_invariant (ops : list op) (s : t) :
  index_ok s →
  index_ok (foldl (λ s o, run_op o s) s ops)
  ∧ ∀ k, od_mem k (dict s) = true → od_mem k (dict (foldl (λ s o, run_op o s) s ops)) = true.
Proof.
  revert s. induction ops as [|o ops IH]; intros s Hs; [done|]. simpl.
  assert (index_ok (run_op o s) ∧ ∀ k, od_mem k (dict s) = true → od_mem k (dict (run_op o s)) = true)
    as [H1 H2].
  { pose proof (same_index_transfer o s) as Ht.
    destruct o; try (split; [by apply (same_index_ok s)|by destruct Ht as (-> & _)]); simpl.
    1,2: done.
    1: { split; [by apply allocate_ok|]. intros k'. unfold allocate.
         destruct (CustomOps.gpu_open_file (store s)) as [[i|] st]; [|done]. simpl.
         rewrite !od_mem_true, !od_get_is_Some, od_keys_set.
         destruct (od_mem k (dict s)); [done|]. rewrite elem_of_app. auto. }
    1,2: unfold pin, unpin, bind, gets; by destruct (od_mem _ _).
    1: unfold remove, bind, get_st, lift; by destruct (of_option _ _).
    1: done.
    1: { unfold persist, bind, get_st. destruct io_ok; [|done].
         split; [|done]. apply (same_index_ok s); [done|]. by apply same_index_intro. }
    1: { unfold close, modify. destruct (has_lookup_server s); [|done].
         split; [|done]. apply (same_index_ok s); [done|]. by apply same_index_intro. } }
  destruct (IH _ H1) as [H3 H4]. split; [done|]. auto.
Qed.

(** The snapshot that [persist] has just written is refused by
    [_restore_from_snapshot], which has by then replaced the index by the snapshot's:
    the backend's dictionary is a [dict] and the check wants an [OrderedDict]. *)
Theorem persist_restore_refused (s s' : t) :
  persist true s = (Ok true, s') →
  ∀ s2, snapshot s2 = snapshot s' →
    restore_from_snapshot s2
    = (Ok false, set_index (dict s) (usage s) (num_gpu_files s2) s2 (store s2)).
Proof.
  intros [= <-] s2 Hs2. unfold restore_from_snapshot. rewrite Hs2. simpl.
  by destruct (usage s <=? max_capacity s2).
Qed.
End laws.
End backend.

Arguments t : clear implicits.

(** *** Witnesses: a backend of two layers over the store of [libgeminifs] *)

(** Files 2 and 1 of a store of three are open; a cache of three blocks of one byte. *)
Definition demo_store : GpuFS.t :=
  (GpuFS.open_file (GpuFS.open_file (GpuFS.create 3 1)).2).2.

Definition demo_key (h : string) : CacheEngineKey := CEKey "vllm" "llama" 1 0 h.

Definition demo_cache : list layer_cache :=
  [Planes [[1]; [2]; [3]] [[4]; [5]; [6]]; Planes [[11]; [12]; [13]] [[14]; [15]; [16]]].

Definition demo (fs : GpuFS.t) : t GpuFS.t :=
  Backend [] 0 0 "instance" 100 2 false false false (Some fs) NoFile [] [] demo_cache [].

Definition demo_files : list GPUFileMetadata := [GPUFile 2 (demo_key "a"); GPUFile 1 (demo_key "b")].

Lemma demo_shaped : shaped 1 3 2 demo_cache.
Proof. split; [done|]. by repeat constructor. Qed.

Lemma demo_ready : ready (demo demo_store) demo_store 3 demo_files.
Proof.
  constructor; try done.
  - apply (GpuFS.open_inv (GpuFS.open_file _).2), GpuFS.open_inv, GpuFS.create_inv. lia.
  - by repeat constructor.
  - apply (bool_decide_unpack (NoDup (gf_id <$> demo_files))). by vm_compute.
  - apply (bool_decide_unpack (Forall (λ i, i ∈ GpuFS.ctx demo_store) (gf_id <$> demo_files))).
    by vm_compute.
Qed.


Lemma demo_index_ok : index_ok (demo (GpuFS.create 3 1)).
Proof. constructor; try done; [constructor|]. intros fs [= <-]. apply GpuFS.create_inv. lia. Qed.

Example index_invariant_witness :
  let s := demo (GpuFS.create 3 1) in
  let ops := [OAllocate (demo_key "a"); OAllocate (demo_key "b"); ORemove (demo_key "a")] in
  index_ok (foldl (λ s o, run_op o s) s ops)
  ∧ ∀ k, od_mem k (dict s) = true → od_mem k (dict (foldl (λ s o, run_op o s) s ops)) = true.
Proof. apply index_invariant, demo_index_ok. Defined.

Example persist_restore_refused_witness :
  let s := (allocate (demo_key "a") (demo (GpuFS.create 3 1))).2 in
  let s1 := (persist true s).2 in
  restore_from_snapshot s1
  = (Ok false, set_index (dict s) (usage s) (num_gpu_files s1) s1 (store s1)).
Proof.
  apply (persist_restore_refused (allocate (demo_key "a") (demo (GpuFS.create 3 1))).2
           (persist true (allocate (demo_key "a") (demo (GpuFS.create 3 1))).2).2 eq_refl
           (persist true (allocate (demo_key "a") (demo (GpuFS.create 3 1))).2).2 eq_refl).
Defined.

(** A restored index names files that the restarted store hands out again. *)
Example restore_breaks_index :
  let s := (persist true (allocate (demo_key "a") (demo (GpuFS.create 3 1))).2).2 in
  let restarted := set_snapshot (snapshot s) (demo (GpuFS.create 3 1)) in
  let s' := (allocate (demo_key "b") (restore_from_snapshot restarted).2).2 in
  gf_id <$> (dict s').*2 = [2; 2].
Proof. vm_compute. reflexivity. Qed.

(** The four methods that always raise on a stored key. *)
Example pin_unpin_remove_insert_raise :
  let s := (allocate (demo_key "a") (demo (GpuFS.create 3 1))).2 in
  ((pin (demo_key "a") s).1, (unpin (demo_key "a") s).1)
  = (Raise AttributeError, Raise AttributeError)
  ∧ ((remove (demo_key "a") s).1, (insert_key (demo_key "a") s).1)
    = (Raise AttributeError, Raise AttributeError).
Proof. vm_compute. done. Qed.

(** An MLA model: the store pass returns normally and writes nothing. *)
Example mla_put_writes_nothing :
  let s := Backend [] 0 0 "instance" 100 2 true false false (Some demo_store) NoFile [] []
             [Planes [[1]; [2]; [3]] []; Planes [[11]; [12]; [13]] []] [] in
  layerwise_batch_put demo_files [0; 2] [0; 0] s = (Ok tt, s).
Proof. vm_compute. reflexivity. Qed.
End GeminiBackend.
