(* ===== verification/Engine.v ===== *)
(** [infinikv/infinikv/v1/infinikv_engine.py]: the cache engine, which names the chunks
    of a token sequence by the token database and finds, allocates and moves their
    files through the storage backend; and the process-wide registry of engines. *)
From S2P Require Export TokenDatabase GeminiBackend.
From stdpp Require Import options.

Module Engine.
Section engine.
Context {S : Type} `{FileStore S}.

(** The attributes of [InfiniKVEngine]: [lookup_cache] is created empty and never
    written; [lookup_server], when there is one, records the inserted keys. *)
Record t := Eng {
  token_database : Chunked.t;
  backend : GeminiBackend.t S;
  lookup_cache : list CacheEngineKey;
  lookup_server : option (list CacheEngineKey);
  num_layers : Z
}.

Definition set_backend (b : GeminiBackend.t S) (e : t) : t :=
  Eng (token_database e) b (lookup_cache e) (lookup_server e) (num_layers e).

(** A call on the storage backend. *)
Definition on_backend {A} (m : py (GeminiBackend.t S) A) : py t A := λ e,
  let '(r, b) := m (backend e) in (r, set_backend b e).

(** [ret_mask[start:end] = True]. *)
Definition set_range (m : list bool) (a b : Z) : list bool :=
  imap (λ i x, x || ((a <=? Z.of_nat i) && (Z.of_nat i <? b))) m.

(** [block_ids[index].item()], where [block_ids] is [None] or a tensor. *)
Definition block_of (block_ids : option (list Z)) (index : Z) : result Z :=
  match block_ids with None => Raise TypeError | Some l => py_index l index end.

(** The loop of [prepare_for_load]. *)
Fixpoint load_loop (g : gen (Z * Z * CacheEngineKey)) (block_ids : option (list Z))
    (ret_mask : list bool) (gpu_files : list GPUFileMetadata) (blocks : list Z) (index : Z)
    : py t (list bool * list GPUFileMetadata * list Z) :=
  match g with
  | GEnd => ret (ret_mask, gpu_files, blocks)
  | GRaise ex => raise ex
  | GYield (s, e, k) g' =>
      let* cached := gets (λ en, bool_decide (k ∈ lookup_cache en)) in
      if cached then load_loop g' block_ids ret_mask gpu_files blocks index
      else
        let* m := on_backend (GeminiBackend.get k) in
        match m with
        | None => ret (ret_mask, gpu_files, blocks)
        | Some f =>
            let* b := lift (block_of block_ids index) in
            load_loop g' block_ids (set_range ret_mask s e) (gpu_files ++ [f]) (blocks ++ [b])
              (index + 1)
        end
  end.

(** [torch.zeros_like(tokens, dtype=torch.bool)]: of a tensor only. *)
Definition zeros_like (tokens : token_seq) : result (list bool) :=
  match tokens with
  | TTensor l => Ok (replicate (length l) false)
  | TList _ => Raise TypeError
  end.

Definition prepare_for_load (tokens : token_seq) (mask : option (list bool))
    (block_ids : option (list Z)) : py t (list bool * list GPUFileMetadata * list Z) :=
  let* ret_mask := lift (zeros_like tokens) in
  let* db := gets token_database in
  load_loop (Chunked.process_tokens db tokens mask) block_ids ret_mask [] [] 0.

(** The loop of [prepare_for_store]. *)
Fixpoint store_loop (g : gen (Z * Z * CacheEngineKey)) (block_ids : option (list Z))
    (keys : list CacheEngineKey) (gpu_files : list GPUFileMetadata) (blocks : list Z) (index : Z)
    : py t (list CacheEngineKey * list GPUFileMetadata * list Z) :=
  match g with
  | GEnd => ret (keys, gpu_files, blocks)
  | GRaise ex => raise ex
  | GYield (s, e, k) g' =>
      let* c := on_backend (GeminiBackend.contains k false) in
      if c then store_loop g' block_ids keys gpu_files blocks index
      else
        let* m := on_backend (GeminiBackend.allocate k) in
        match m with
        | None => ret (keys, gpu_files, blocks)
        | Some f =>
            let* b := lift (block_of block_ids index) in
            store_loop g' block_ids (keys ++ [k]) (gpu_files ++ [f]) (blocks ++ [b]) (index + 1)
        end
  end.

(** [prepare_for_store]; its argument [offset] is not used. *)
Definition prepare_for_store (tokens : token_seq) (mask : option (list bool))
    (block_ids : option (list Z)) (offset : option Z) : py t (list GPUFileMetadata * list Z) :=
  let* db := gets token_database in
  let* (keys, gpu_files, blocks) :=
    store_loop (Chunked.process_tokens db tokens mask) block_ids [] [] [] 0 in
  modify (λ e, match lookup_server e with
               | None => e
               | Some l => Eng (token_database e) (backend e) (lookup_cache e) (Some (l ++ keys))
                             (num_layers e)
               end) ;;;
  ret (gpu_files, blocks).

(** The mamba states share the keys of the KV cache. *)
Definition prepare_for_load_mamba := prepare_for_load.
Definition prepare_for_store_mamba := prepare_for_store.

(** The transfers are those of the backend. *)
Definition retrieve_mamba_state (caches : list (list blob)) (files : list GPUFileMetadata)
    (bids : list Z) (e : t) : result (list (list blob)) :=
  GeminiBackend.mamba_batched_get caches files bids (backend e).
Definition store_mamba_state (caches : list (list blob)) (files : list GPUFileMetadata)
    (bids : list Z) : py t unit := on_backend (GeminiBackend.mamba_batched_put caches files bids).
Definition retrive (files : list GPUFileMetadata) (bids : list Z) : py t unit :=
  on_backend (GeminiBackend.batched_get files bids).
Definition store (files : list GPUFileMetadata) (bids : list Z) : py t unit :=
  on_backend (GeminiBackend.batched_put files bids).
Definition store_layer (files : list GPUFileMetadata) (bids lids : list Z) : py t unit :=
  on_backend (GeminiBackend.layerwise_batch_put files bids lids).

Definition retrieve_layer (next_layer : Z) (files : list GPUFileMetadata) (bids : list Z)
    : py t unit :=
  let* n := gets num_layers in
  if n <=? next_layer then ret tt
  else on_backend (GeminiBackend.layerwise_batch_get next_layer files bids).

(** The loop of [lookup]: [inl] is the early [return old_end], [inr] the last [end]. *)
Fixpoint lookup_loop (g : gen (Z * Z * CacheEngineKey)) (pin : bool) (last_end old_end : Z)
    : py t Z :=
  match g with
  | GEnd => ret last_end
  | GRaise ex => raise ex
  | GYield (s, e, k) g' =>
      let* c := on_backend (GeminiBackend.contains k pin) in
      if c then lookup_loop g' pin e e else ret old_end
  end.

Definition lookup (tokens : token_seq) (pin : bool) : py t Z :=
  let* db := gets token_database in
  lookup_loop (Chunked.process_tokens db tokens None) pin 0 0.

(** [clear]: the backend has no [clear] ([AttributeError]) and its [remove] takes no
    [locations] ([TypeError]). *)
Definition clear (tokens : option token_seq) : py t Z :=
  match tokens with
  | None => raise AttributeError
  | Some tk =>
      if zlen (toks tk) =? 0 then raise AttributeError
      else
        let* db := gets token_database in
        let* o := gen_for (Chunked.process_tokens db tk None) (λ _, raise TypeError) in
        ret (default 0 o)
  end.

(** [close]: the engine has no attribute [enable_p2p]. *)
Definition close : py t unit := raise AttributeError.

(** *** The chunks in the index *)

(** The chunks up to the first that is not in the index, with their files. *)
Fixpoint hit_prefix (d : list (CacheEngineKey * GPUFileMetadata))
    (items : list (Z * Z * CacheEngineKey)) : list (Z * Z * GPUFileMetadata) :=
  match items with
  | [] => []
  | (s, e, k) :: rest =>
      match od_get k d with Some f => (s, e, f) :: hit_prefix d rest | None => [] end
  end.

(** The end of the last of some chunks, [a] when there is none. *)
Definition end_of {A} (a : Z) (items : list (Z * Z * A)) : Z :=
  foldl (λ _ '(_, e, _), e) a items.

Lemma end_of_cons {A} a s e (x : A) l : end_of a ((s, e, x) :: l) = end_of e l.
Proof. done. Qed.

Lemma hit_prefix_tiles d a b items :
  Chunked.tiles a b items →
  Chunked.tiles a (end_of a (hit_prefix d items)) (hit_prefix d items)
  ∧ a ≤ end_of a (hit_prefix d items) ≤ b.
Proof.
  induction 1 as [a|a m b k l Ham Hl [IH1 IH2]]; simpl.
  - split; [constructor|]. unfold end_of. simpl. lia.
  - assert (m ≤ b) by (clear -Hl; induction Hl; lia).
    destruct (od_get k d) as [f|]; [|split; [constructor|unfold end_of; simpl; lia]].
    rewrite end_of_cons. split; [by constructor|lia].
Qed.

Lemma set_range_lookup m a b i :
  set_range m a b !! i = (λ x, x || ((a <=? Z.of_nat i) && (Z.of_nat i <? b))) <$> m !! i.
Proof. unfold set_range. by rewrite list_lookup_imap. Qed.

Lemma set_range_app m a b c : a ≤ b ≤ c → set_range (set_range m a b) b c = set_range m a c.
Proof.
  intros Hab. apply list_eq. intros i. rewrite !set_range_lookup.
  destruct (m !! i) as [x|]; [|done]. simpl. f_equal. destruct x; [done|]. simpl.
  repeat match goal with |- context [?p <=? ?q] => destruct (Z.leb_spec p q)
                       | |- context [?p <? ?q] => destruct (Z.ltb_spec p q) end;
    simpl; (done || lia).
Qed.

Lemma set_range_empty m a : set_range m a a = m.
Proof.
  apply list_eq. intros i. rewrite set_range_lookup. destruct (m !! i) as [x|]; [|done].
  simpl. f_equal. destruct x; [done|]. simpl.
  destruct (Z.leb_spec a (Z.of_nat i)), (Z.ltb_spec (Z.of_nat i) a); (done || lia).
Qed.

Lemma load_loop_spec e items bids a b m files blocks (idx : nat) :
  lookup_cache e = [] → Chunked.tiles a b items →
  let hs := hit_prefix (GeminiBackend.dict (backend e)) items in
  (idx + length hs <= length bids)%nat →
  load_loop (gen_of_list items) (Some bids) m files blocks (Z.of_nat idx) e
  = (Ok (set_range m a (end_of a hs), files ++ hs.*2, blocks ++ take (length hs) (drop idx bids)), e).
Proof.
  intros Hlc Ht. revert m files blocks idx.
  induction Ht as [a|a mid b k l Ham Hl IH]; intros m files blocks idx hs Hlen.
  - unfold hs; simpl. unfold ret. by rewrite !app_nil_r, set_range_empty.
  - subst hs. simpl in Hlen |- *. unfold bind at 1, gets. rewrite Hlc.
    rewrite bool_decide_false by apply not_elem_of_nil.
    unfold bind, on_backend, GeminiBackend.get, gets, lift.
    assert (set_backend (backend e) e = e) as He by by destruct e. rewrite He.
    destruct (od_get k (GeminiBackend.dict (backend e))) as [f|] eqn:Hk; simpl in Hlen |- *.
    + rewrite py_index_nonneg, Nat2Z.id by lia.
      destruct (lookup_lt_is_Some_2 bids idx) as [bl Hbl]; [lia|]. rewrite Hbl. simpl.
      rewrite <- (Nat2Z.inj_succ idx : _ = Z.of_nat idx + 1), IH by lia.
      rewrite set_range_app.
      * rewrite <- !app_assoc. simpl. by rewrite (drop_S bids bl idx Hbl).
      * pose proof (hit_prefix_tiles (GeminiBackend.dict (backend e)) _ _ _ Hl). lia.
    + unfold ret. by rewrite !app_nil_r, set_range_empty.
Qed.

Lemma lookup_loop_spec e items a b pin :
  Chunked.tiles a b items →
  lookup_loop (gen_of_list items) pin a a e
  = (Ok (end_of a (hit_prefix (GeminiBackend.dict (backend e)) items)), e).
Proof.
  intros Ht. assert (set_backend (backend e) e = e) as He by by destruct e.
  induction Ht as [a|a mid b k l Ham Hl IH]; [done|]. simpl.
  unfold bind, on_backend, GeminiBackend.contains, gets. rewrite He. unfold od_mem.
  destruct (od_get k (GeminiBackend.dict (backend e))); [apply IH|done].
Qed.

(** *** Prefixes of the token sequence *)

(** The chunks of a token list, as [process_tokens] yields them behind [q] masked ones. *)
Definition chunk_items (c : nat) (u : bool) (m : key_metadata) (q : nat) (l : list Z)
    : list (Z * Z * CacheEngineKey) :=
  (λ '(s, e, h), (s, e, key_of_hash m h)) <$> Chunked.expected_items c u q l.

Lemma chunk_items_tiles c u m q l :
  (0 < c)%nat →
  let stop := Chunked.stop_index u (Z.of_nat c) (zlen l) in
  Chunked.tiles (Z.min (Z.of_nat q * Z.of_nat c) stop) stop (chunk_items c u m q l).
Proof. intros. by apply Chunked.tiles_fmap, Chunked.expected_items_tiles. Qed.

(** [n] is how many chunks, from the first one on, are in the index. *)
Definition cached_chunks (d : list (CacheEngineKey * GPUFileMetadata))
    (items : list (Z * Z * CacheEngineKey)) (n : nat) : Prop :=
  (n <= length items)%nat
  ∧ (∀ i s e k, (i < n)%nat → items !! i = Some (s, e, k) → od_mem k d = true)
  ∧ (∀ s e k, items !! n = Some (s, e, k) → od_mem k d = false).

Lemma hit_prefix_cached d items :
  cached_chunks d items (length (hit_prefix d items))
  ∧ (∀ i s e f, hit_prefix d items !! i = Some (s, e, f) →
       ∃ k, items !! i = Some (s, e, k) ∧ od_get k d = Some f)
  ∧ (∀ a, end_of a (hit_prefix d items) = end_of a (take (length (hit_prefix d items)) items)).
Proof.
  unfold cached_chunks in *.
  induction items as [|[[s e] k] items ((H1 & H2 & H3) & H4 & H5)]; simpl.
  - repeat split; try done; intros; lia.
  - destruct (od_get k d) as [f|] eqn:Hk; simpl.
    + split; [split; [lia|split]|split].
      * intros [|i] s' e' k' Hi; simpl; [intros [= <- <- <-]; unfold od_mem; by rewrite Hk|].
        apply H2. lia.
      * done.
      * intros [|i] s' e' f'; simpl; [intros [= <- <- <-]; eauto|apply H4].
      * intros a. apply H5.
    + split; [split; [lia|split; [intros; lia|]]|split; [|done]].
      * intros s' e' k' [= <- <- <-]. unfold od_mem. by rewrite Hk.
      * done.
Qed.

Lemma num_cached_unique d items n1 n2 :
  cached_chunks d items n1 → cached_chunks d items n2 → n1 = n2.
Proof.
  intros (L1 & A1 & B1) (L2 & A2 & B2).
  destruct (Nat.lt_trichotomy n1 n2) as [Hlt|[?|Hlt]]; [|done|]; exfalso.
  - destruct (lookup_lt_is_Some_2 items n1) as [[[s e] k] Hk]; [lia|].
    specialize (A2 n1 s e k Hlt Hk). specialize (B1 s e k Hk). congruence.
  - destruct (lookup_lt_is_Some_2 items n2) as [[[s e] k] Hk]; [lia|].
    specialize (A1 n2 s e k Hlt Hk). specialize (B2 s e k Hk). congruence.
Qed.

(** An engine as the builder makes it: a chunked database and no lookup cache. *)
Record configured (c : nat) (u : bool) (m : key_metadata) (e : t) : Prop := Configured {
  cf_pos : (0 < c)%nat;
  cf_db : token_database e = Chunked.DB (Some (Z.of_nat c)) (Some u) (Some m);
  cf_cache : lookup_cache e = []
}.

(** C15. [lookup] answers the number of tokens of the longest prefix of whole chunks all
    of which are in the index, whatever lies behind the first chunk that is missing, and
    changes nothing; [pin] has no effect. *)
Theorem lookup_longest_prefix (c : nat) u m e tokens pin :
  configured c u m e → Chunked.tokens_valid tokens →
  let items := chunk_items c u m 0 (toks tokens) in
  ∃ n, cached_chunks (GeminiBackend.dict (backend e)) items n
    ∧ lookup tokens pin e = (Ok (end_of 0 (take n items)), e).
Proof.
  intros [Hc Hdb _] Hv items.
  destruct (hit_prefix_cached (GeminiBackend.dict (backend e)) items) as (H1 & _ & H3).
  exists (length (hit_prefix (GeminiBackend.dict (backend e)) items)). split; [done|].
  unfold lookup, bind, gets. rewrite Hdb, (Chunked.process_tokens_items c u m tokens None 0) by done.
  fold (chunk_items c u m 0 (toks tokens)). fold items. rewrite <- H3.
  eapply lookup_loop_spec. pose proof (chunk_items_tiles c u m 0 (toks tokens) Hc) as Ht. simpl in Ht.
  rewrite Z.min_l in Ht; [exact Ht|]. apply Chunked.stop_bounds; [lia|apply zlen_nonneg].
Qed.

(** C30. On a configured engine with an empty lookup cache, a tensor of tokens of which
    the mask leaves out the first [q] chunks, and a block id for every remaining chunk,
    [prepare_for_load] selects the files of the cached chunks [q], [q + 1], ... up to the
    first missing one and masks exactly their tokens; but it pairs the file of chunk
    [q + i] with block number [i] of the request, which is the block of chunk [q + i]
    only when [q = 0].  The engine changes in nothing.  On a list of tokens it raises
    [TypeError], whatever the mask and the blocks. *)
Theorem prepare_for_load_pairs (c : nat) u m e l mask (q : nat) bids :
  configured c u m e →
  num_falses mask = Z.of_nat q * Z.of_nat c →
  let items := chunk_items c u m q l in
  let start := Z.min (Z.of_nat q * Z.of_nat c)
                 (Chunked.stop_index u (Z.of_nat c) (zlen l)) in
  (length items <= length bids)%nat →
  (∀ mask' bids', prepare_for_load (TList l) mask' bids' e = (Raise TypeError, e))
  ∧ ∃ n files,
    cached_chunks (GeminiBackend.dict (backend e)) items n
    ∧ prepare_for_load (TTensor l) mask (Some bids) e
      = (Ok (set_range (replicate (length l) false) start (end_of start (take n items)),
             files, take n bids), e)
    ∧ length files = n
    ∧ (∀ i f, files !! i = Some f → ∃ s en k,
         items !! i = Some (s, en, k) ∧ s = Z.of_nat (q + i) * Z.of_nat c
         ∧ od_get k (GeminiBackend.dict (backend e)) = Some f).
Proof.
  intros [Hc Hdb Hlc] Hq items start Hlen. split; [done|].
  set (d := GeminiBackend.dict (backend e)).
  destruct (hit_prefix_cached d items) as (H1 & H2 & H3).
  set (hs := hit_prefix d items) in *.
  pose proof (chunk_items_tiles c u m q l Hc) as Ht. fold items in Ht. simpl in Ht.
  fold start in Ht.
  exists (length hs), hs.*2. split; [done|]. split; [|split; [by rewrite length_fmap|]].
  - unfold prepare_for_load, bind, lift, gets, zeros_like.
    rewrite Hdb, (Chunked.process_tokens_items c u m (TTensor l) mask q) by done.
    simpl toks. fold (chunk_items c u m q l). fold items.
    rewrite (load_loop_spec e items bids start _ _ [] [] 0 Hlc Ht).
    + fold d. fold hs. simpl. by rewrite H3.
    + fold d. fold hs. destruct H1. simpl. lia.
  - intros i f Hf. rewrite list_lookup_fmap in Hf.
    destruct (hs !! i) as [[[s en] f']|] eqn:Hi; [|done]. injection Hf as <-.
    destruct (H2 i s en f' Hi) as (k & Hk & Hg). exists s, en, k. split; [done|]. split; [|done].
    unfold items, chunk_items, Chunked.expected_items in Hk.
    rewrite list_lookup_fmap, list_lookup_imap in Hk.
    destruct (drop q _ !! i) as [h|]; [|done]. by injection Hk as <- _ _.
Qed.

Lemma tiles_end_of {A} a b (l : list (Z * Z * A)) : Chunked.tiles a b l → end_of a l = b.
Proof. induction 1; [done|]. by rewrite end_of_cons. Qed.

Section laws.
Context `{!FileStoreLaws S}.

(** The backend's index only grew, by the given new files. *)
Record grown (b b' : GeminiBackend.t S) (files : list GPUFileMetadata) : Prop := Grown {
  gr_ok : GeminiBackend.index_ok b';
  gr_old : ∀ k m, od_get k (GeminiBackend.dict b) = Some m → od_get k (GeminiBackend.dict b') = Some m;
  gr_new : ∀ f, f ∈ files → od_get (gf_key f) (GeminiBackend.dict b) = None
             ∧ od_get (gf_key f) (GeminiBackend.dict b') = Some f;
  gr_nodup : NoDup (gf_key <$> files);
  gr_none : ∀ k, od_get k (GeminiBackend.dict b) = None →
              od_get k (GeminiBackend.dict b') ≠ None → k ∈ (gf_key <$> files)
}.

Lemma allocate_grown k b fs :
  GeminiBackend.index_ok b → GeminiBackend.store b = Some fs → (0 < fs_free fs)%nat →
  od_get k (GeminiBackend.dict b) = None →
  ∃ f b' fs', GeminiBackend.allocate k b = (Ok (Some f), b') ∧ gf_key f = k
    ∧ GeminiBackend.store b' = Some fs' ∧ (fs_free fs <= Datatypes.S (fs_free fs'))%nat
    ∧ GeminiBackend.index_ok b'
    ∧ GeminiBackend.dict b' = GeminiBackend.dict b ++ [(k, f)].
Proof.
  intros Hok Hst Hfree Hk. pose proof (GeminiBackend.allocate_ok k b Hok) as Hok'.
  unfold GeminiBackend.allocate, CustomOps.gpu_open_file in *. rewrite Hst in *.
  destruct (fs_open_file fs) as [o fs'] eqn:Ho.
  destruct (fs_open_spec fs o fs' (GeminiBackend.ix_store b Hok fs Hst) Ho) as (_ & _ & _ & _ & Hcase).
  destruct o as [i|]; [|lia]. destruct Hcase as (_ & _ & Hfr).
  eexists _, _, _. split; [done|]. split; [done|]. split; [done|]. split; [done|]. split; [done|].
  simpl. by rewrite od_set_fresh.
Qed.

Lemma store_loop_spec e items bids keys files blocks (idx : nat) fs :
  GeminiBackend.index_ok (backend e) → GeminiBackend.store (backend e) = Some fs →
  (length items <= fs_free fs)%nat → (idx + length items <= length bids)%nat →
  ∃ files' b',
    store_loop (gen_of_list items) (Some bids) keys files blocks (Z.of_nat idx) e
    = (Ok (keys ++ (gf_key <$> files'), files ++ files', blocks ++ take (length files') (drop idx bids)),
       set_backend b' e)
    ∧ grown (backend e) b' files' ∧ (length files' <= length items)%nat
    ∧ ∀ s en k, (s, en, k) ∈ items → od_mem k (GeminiBackend.dict b') = true.
Proof.
  revert e keys files blocks idx fs.
  induction items as [|[[s en] k] items IH]; intros e keys files blocks idx fs Hok Hst Hfr Hlen.
  - exists [], (backend e). simpl. unfold ret. rewrite !app_nil_r.
    split; [by destruct e|]. split; [|split; [lia|intros ??? Hin; by apply elem_of_nil in Hin]].
    constructor; try done. + intros f Hin. by apply elem_of_nil in Hin. + constructor.
  - simpl in Hfr, Hlen. simpl. unfold bind at 1, on_backend, GeminiBackend.contains, gets.
    assert (set_backend (backend e) e = e) as He by by destruct e. rewrite He.
    destruct (od_mem k (GeminiBackend.dict (backend e))) eqn:Hm.
    + destruct (IH e keys files blocks idx fs Hok Hst) as (fs1 & b' & H1 & H2 & H3 & H4); [lia..|].
      exists fs1, b'. split; [done|]. split; [done|]. split; [lia|].
      intros s' en' k' [[= -> -> ->]|Hin]%elem_of_cons; [|by eapply H4].
      apply od_mem_true in Hm as [m Hm]. apply od_mem_true. rewrite (gr_old _ _ _ H2 _ _ Hm). eauto.
    + apply od_mem_false in Hm.
      destruct (allocate_grown k (backend e) fs Hok Hst) as (f & b1 & fs1 & Ha & Hf & Hst1 & Hfr1 & Hok1 & Hd1);
        [lia|done|].
      unfold bind, lift. rewrite Ha, py_index_nonneg, Nat2Z.id by lia.
      destruct (lookup_lt_is_Some_2 bids idx) as [bl Hbl]; [lia|]. rewrite Hbl. simpl.
      rewrite <- (Nat2Z.inj_succ idx : _ = Z.of_nat idx + 1).
      destruct (IH (set_backend b1 e) (keys ++ [k]) (files ++ [f]) (blocks ++ [bl]) (Datatypes.S idx) fs1)
        as (fs2 & b' & H1 & [G1 G2 G3 G4 G5] & H3 & H4); [done|done|lia|lia|].
      simpl in G2, G3, G5. rewrite Hd1 in G2, G3, G5.
      assert (od_get k (GeminiBackend.dict (backend e) ++ [(k, f)]) = Some f) as Hkf.
      { rewrite od_get_app, Hm. simpl. by rewrite decide_True. }
      exists (f :: fs2), b'. split; [|split; [constructor|split]].
      * rewrite H1. simpl. by rewrite <- !app_assoc, Hf, (drop_S bids bl idx Hbl).
      * done.
      * intros k' m Hk'. apply G2. rewrite od_get_app, Hk'. done.
      * intros f' [->|Hin]%elem_of_cons.
        -- rewrite Hf. split; [done|]. by apply G2.
        -- destruct (G3 f' Hin) as [Ha' Hb']. split; [|done]. rewrite od_get_app in Ha'.
           by destruct (od_get (gf_key f') (GeminiBackend.dict (backend e))).
      * simpl. apply NoDup_cons. split; [|done]. rewrite Hf. intros (f' & Hkf' & Hin)%list_elem_of_fmap.
        destruct (G3 f' Hin) as [Ha' _]. rewrite <- Hkf', Hkf in Ha'. done.
      * intros k' Hn Hk'. simpl. destruct (decide (k' = k)) as [->|Hne]; [rewrite Hf; by left|].
        right. apply G5; [|done]. rewrite od_get_app, Hn. simpl. by rewrite decide_False.
      * simpl. lia.
      * intros s' en' k' [[= -> -> ->]|Hin]%elem_of_cons; [|by eapply H4].
        apply od_mem_true. rewrite (G2 _ _ Hkf). eauto.
Qed.

(** C14. When the store is sure to open a GPU file for every chunk ([fs_free]) and there
    is a block for every chunk, [prepare_for_store] binds
    every chunk that is missing from the index to a new file of its own, leaves every
    older binding alone and pairs the [i]-th new file with block number [i]; afterwards
    a lookup of the same tokens finds them all, up to the last whole chunk. *)
Theorem store_then_lookup (c : nat) u m e tokens mask (q : nat) bids off fs :
  configured c u m e → Chunked.tokens_valid tokens →
  num_falses mask = Z.of_nat q * Z.of_nat c →
  GeminiBackend.index_ok (backend e) → GeminiBackend.store (backend e) = Some fs →
  let items := chunk_items c u m q (toks tokens) in
  (length items <= fs_free fs)%nat → (length items <= length bids)%nat →
  ∃ files e',
    prepare_for_store tokens mask (Some bids) off e = (Ok (files, take (length files) bids), e')
    ∧ grown (backend e) (backend e') files
    ∧ (∀ s en k, (s, en, k) ∈ items → od_mem k (GeminiBackend.dict (backend e')) = true)
    ∧ (q = 0%nat → ∀ pin,
         lookup tokens pin e' = (Ok (Chunked.stop_index u (Z.of_nat c) (zlen (toks tokens))), e')).
Proof.
  intros [Hc Hdb Hlc] Hv Hq Hok Hst items Hfr Hlen.
  destruct (store_loop_spec e items bids [] [] [] 0 fs Hok Hst) as (files & b' & H1 & H2 & _ & H4);
    [done..|]. change (Z.of_nat 0) with 0 in H1.
  unfold prepare_for_store, bind at 1, gets.
  rewrite Hdb, (Chunked.process_tokens_items c u m tokens mask q) by done.
  fold (chunk_items c u m q (toks tokens)). fold items. unfold bind at 1. rewrite H1.
  unfold bind, modify, ret. simpl.
  set (e' := match lookup_server e with None => _ | Some _ => _ end).
  assert (backend e' = b' ∧ token_database e' = token_database e) as [Hb Ht]
    by (unfold e'; destruct (lookup_server e); done).
  exists files, e'. rewrite Hb. split; [done|]. split; [done|]. split; [done|].
  intros -> pin. unfold lookup, bind, gets.
  rewrite Ht, Hdb, (Chunked.process_tokens_items c u m tokens None 0) by done.
  fold (chunk_items c u m 0 (toks tokens)). fold items.
  pose proof (chunk_items_tiles c u m 0 (toks tokens) Hc) as Hti. fold items in Hti. simpl in Hti.
  rewrite Z.min_l in Hti by (apply Chunked.stop_bounds; [lia|apply zlen_nonneg]).
  rewrite (lookup_loop_spec e' items 0 _ pin Hti), Hb.
  destruct (hit_prefix_cached (GeminiBackend.dict b') items) as (Hcc & _ & ->).
  assert (length (hit_prefix (GeminiBackend.dict b') items) = length items) as ->.
  { apply (num_cached_unique _ _ _ _ Hcc). split; [done|]. split.
    - intros i s en k _ Hi. apply list_elem_of_lookup_2 in Hi. by eapply H4.
    - intros s en k Hi. apply lookup_lt_Some in Hi. lia. }
  rewrite take_ge by done. change 0 with (Z.of_nat 0 * Z.of_nat c) at 1.
  by rewrite (tiles_end_of _ _ _ Hti).
Qed.
End laws.

(** The loop of [clear] over a sequence that has a chunk. *)
Lemma clear_raises (c : nat) u m e tokens :
  configured c u m e → Chunked.tokens_valid tokens →
  chunk_items c u m 0 (toks tokens) ≠ [] → toks tokens ≠ [] →
  (clear (Some tokens) e).1 = Raise TypeError ∧ (clear None e).1 = Raise AttributeError.
Proof.
  intros [Hc Hdb _] Hv Hne Hnt. split; [|done]. unfold clear.
  rewrite (proj2 (Z.eqb_neq (zlen (toks tokens)) 0))
    by (destruct (toks tokens); [done|]; rewrite zlen_cons; pose proof (zlen_nonneg l); lia).
  unfold bind at 1, gets. rewrite Hdb, (Chunked.process_tokens_items c u m tokens None 0) by done.
  fold (chunk_items c u m 0 (toks tokens)).
  by destruct (chunk_items c u m 0 (toks tokens)) as [|x l].
Qed.
End engine.
Arguments t : clear implicits.

(** *** Witnesses *)

Definition demo_meta : key_metadata := KeyMeta "vllm" "llama" 1 0.

(** An engine over the demonstration backend, with chunks of two tokens. *)
Definition demo : t GpuFS.t :=
  Eng (Chunked.DB (Some 2) (Some false) (Some demo_meta))
    (GeminiBackend.demo (GpuFS.create 3 1)) [] None 2.

Lemma demo_configured : configured 2 false demo_meta demo.
Proof. by constructor; [lia|..]. Qed.

Example lookup_longest_prefix_witness :
  let tokens := TList [10; 11; 12; 13; 14] in
  ∃ n, cached_chunks (GeminiBackend.dict (backend demo)) (chunk_items 2 false demo_meta 0 (toks tokens)) n
    ∧ lookup tokens true demo = (Ok (end_of 0 (take n (chunk_items 2 false demo_meta 0 (toks tokens)))), demo).
Proof.
  apply (lookup_longest_prefix 2 false demo_meta demo (TList [10; 11; 12; 13; 14]) true).
  - apply demo_configured.
  - repeat constructor; lia.
Defined.

(** The engine after the chunks of five tokens were prepared for storing. *)
Definition demo_stored : t GpuFS.t :=
  (prepare_for_store (TTensor [10; 11; 12; 13; 14]) None (Some [7; 8; 9]) None demo).2.

Example prepare_for_load_pairs_witness :
  let tokens := [10; 11; 12; 13; 14] in
  let mask := Some [false; false; true; true; true] in
  let items := chunk_items 2 false demo_meta 1 tokens in
  let start := Z.min (1 * 2) (Chunked.stop_index false 2 5) in
  (∀ mask' bids', prepare_for_load (TList tokens) mask' bids' demo_stored
                  = (Raise TypeError, demo_stored))
  ∧ ∃ n files,
    cached_chunks (GeminiBackend.dict (backend demo_stored)) items n
    ∧ prepare_for_load (TTensor tokens) mask (Some [7; 8; 9]) demo_stored
      = (Ok (set_range (replicate 5 false) start (end_of start (take n items)),
             files, take n [7; 8; 9]), demo_stored)
    ∧ length files = n
    ∧ (∀ i f, files !! i = Some f → ∃ s en k,
         items !! i = Some (s, en, k) ∧ s = Z.of_nat (1 + i) * 2
         ∧ od_get k (GeminiBackend.dict (backend demo_stored)) = Some f).
Proof.
  apply (prepare_for_load_pairs 2 false demo_meta demo_stored [10; 11; 12; 13; 14]
           (Some [false; false; true; true; true]) 1 [7; 8; 9]).
  - constructor; [lia|vm_compute; reflexivity|vm_compute; reflexivity].
  - reflexivity.
  - apply Nat.leb_le. vm_compute. reflexivity.
Defined.

(** The second chunk of the sequence goes into the request's first block. *)
Example load_overwrites_cached_block :
  let '(r, _) := prepare_for_load (TTensor [10; 11; 12; 13; 14])
                   (Some [false; false; true; true; true]) (Some [7; 8; 9]) demo_stored in
  match r with
  | Ok (m, files, blocks) => m = [false; false; true; true; false] ∧ length files = 1%nat ∧ blocks = [7]
  | Raise _ => False
  end.
Proof. vm_compute. done. Qed.

Example store_then_lookup_witness :
  let tokens := TList [10; 11; 12; 13; 14] in
  let items := chunk_items 2 false demo_meta 0 (toks tokens) in
  ∃ files e',
    prepare_for_store tokens None (Some [7; 8; 9]) None demo
    = (Ok (files, take (length files) [7; 8; 9]), e')
    ∧ grown (backend demo) (backend e') files
    ∧ (∀ s en k, (s, en, k) ∈ items → od_mem k (GeminiBackend.dict (backend e')) = true)
    ∧ (0%nat = 0%nat → ∀ pin, lookup tokens pin e' = (Ok (Chunked.stop_index false 2 5), e')).
Proof.
  apply (store_then_lookup 2 false demo_meta demo (TList [10; 11; 12; 13; 14]) None 0 [7; 8; 9] None
           (GpuFS.create 3 1)).
  - apply demo_configured.
  - repeat constructor; lia.
  - reflexivity.
  - apply GeminiBackend.demo_index_ok.
  - reflexivity.
  - apply Nat.leb_le. vm_compute. reflexivity.
  - apply Nat.leb_le. vm_compute. reflexivity.
Defined.
End Engine.

(** *** [InfiniKVEngineBuilder]: the registry of engines by instance id *)
Module Builder.
Section builder.
Context {Cfg Meta Eng : Type} `{EqDecision Cfg, EqDecision Meta}.
(** The constructor of the engine and its [close], both of which may raise. *)
Variable mk : Cfg → Meta → result Eng.
Variable close : Eng → result unit.

(** The four class-level dictionaries; the statistics loggers are counted only. *)
Record t := Registry {
  instances : list (string * Eng);
  cfgs : list (string * Cfg);
  metadatas : list (string * Meta);
  stat_loggers : list (string * unit)
}.

Definition get_or_create (instance_id : string) (config : Cfg) (metadata : Meta) : py t Eng :=
  let* s := get_st in
  match od_get instance_id (instances s) with
  | None =>
      let* e := lift (mk config metadata) in
      modify (λ s, Registry (od_set instance_id e (instances s)) (od_set instance_id config (cfgs s))
                     (od_set instance_id metadata (metadatas s))
                     (od_set instance_id tt (stat_loggers s))) ;;;
      ret e
  | Some e =>
      let* c := lift (of_option KeyError (od_get instance_id (cfgs s))) in
      if decide (c ≠ config) then raise ValueError
      else
        let* m := lift (of_option KeyError (od_get instance_id (metadatas s))) in
        if decide (m ≠ metadata) then raise ValueError else ret e
  end.

Definition get (instance_id : string) : py t (option Eng) := gets (λ s, od_get instance_id (instances s)).

Definition destroy (instance_id : string) : py t unit :=
  let* s := get_st in
  match od_get instance_id (instances s) with
  | None => ret tt
  | Some e =>
      let* _ := lift (of_option KeyError (od_get instance_id (stat_loggers s))) in
      let* _ := lift (close e) in
      modify (λ s, Registry (od_del instance_id (instances s)) (od_del instance_id (cfgs s))
                     (od_del instance_id (metadatas s)) (od_del instance_id (stat_loggers s)))
  end.

(** Every instance has a configuration, metadata and a logger, and was built from them. *)
Definition registry_ok (s : t) : Prop :=
  od_wf (instances s) ∧ od_wf (cfgs s) ∧ od_wf (metadatas s) ∧ od_wf (stat_loggers s)
  ∧ ∀ i, match od_get i (instances s) with
         | Some e => ∃ c m, od_get i (cfgs s) = Some c ∧ od_get i (metadatas s) = Some m
                            ∧ od_get i (stat_loggers s) = Some tt ∧ mk c m = Ok e
         | None => od_get i (cfgs s) = None ∧ od_get i (metadatas s) = None
                   ∧ od_get i (stat_loggers s) = None
         end.

Lemma get_or_create_ok i c m s : registry_ok s → registry_ok (get_or_create i c m s).2.
Proof.
  intros (W1 & W2 & W3 & W4 & Hi). unfold get_or_create, bind, get_st, lift, modify, ret, raise.
  destruct (od_get i (instances s)) as [e|] eqn:Ei.
  - pose proof (Hi i) as Hi0. rewrite Ei in Hi0. destruct Hi0 as (c0 & m0 & -> & -> & _). simpl.
    by destruct (decide (c0 ≠ c)), (decide (m0 ≠ m)).
  - destruct (mk c m) as [e|ex] eqn:Em; [|by repeat split]. simpl.
    repeat split; [by apply od_wf_set..|]. intros j. simpl.
    destruct (decide (j = i)) as [->|Hne]; [rewrite !od_get_set; eauto 10|].
    rewrite !od_get_set_ne by done. apply Hi.
Qed.

Lemma destroy_ok i s : registry_ok s → registry_ok (destroy i s).2.
Proof.
  intros (W1 & W2 & W3 & W4 & Hi). unfold destroy, bind, get_st, lift, modify, ret.
  destruct (od_get i (instances s)) as [e|] eqn:Ei; [|by repeat split].
  destruct (of_option KeyError (od_get i (stat_loggers s))); [|by repeat split].
  destruct (close e); [|by repeat split]. simpl.
  repeat split; [by apply od_wf_del..|]. intros j. simpl.
  destruct (decide (j = i)) as [->|Hne]; [by rewrite !od_get_del|].
  rewrite !od_get_del_ne by done. apply Hi.
Qed.

(** One engine per instance id: a second [get_or_create] returns the engine of the
    first and builds none when configuration and metadata are equal, raises [ValueError]
    and changes nothing when either differs; and an engine whose [close] raises is never
    deregistered. *)
Theorem registry_one_engine (s : t) i c m :
  registry_ok s →
  registry_ok (get_or_create i c m s).2 ∧ registry_ok (destroy i s).2
  ∧ (∀ e s', get_or_create i c m s = (Ok e, s') →
       get i s' = (Ok (Some e), s') ∧ mk c m = Ok e
       ∧ (∀ c' m', get_or_create i c' m' s'
            = (if decide (c' = c ∧ m' = m) then Ok e else Raise ValueError, s'))
       ∧ (∀ ex, close e = Raise ex → destroy i s' = (Raise ex, s'))).
Proof.
  intros Hs. pose proof (get_or_create_ok i c m s Hs) as Hg.
  split; [done|]. split; [by apply destroy_ok|]. intros e s' E. rewrite E in Hg. simpl in Hg.
  assert (od_get i (instances s') = Some e ∧ od_get i (cfgs s') = Some c
          ∧ od_get i (metadatas s') = Some m ∧ od_get i (stat_loggers s') = Some tt) as (H1 & H2 & H3 & H4).
  { revert E. unfold get_or_create, bind, get_st, lift, modify, ret, raise.
    destruct Hs as (_ & _ & _ & _ & Hi). specialize (Hi i).
    destruct (od_get i (instances s)) as [e0|] eqn:Ei.
    - destruct Hi as (c0 & m0 & Hc & Hm & Hl & _). rewrite Hc, Hm. simpl.
      destruct (decide (c0 ≠ c)) as [|<-%dec_stable]; [done|].
      destruct (decide (m0 ≠ m)) as [|<-%dec_stable]; [done|]. by intros [= <- <-].
    - destruct (mk c m); [|done]. intros [= <- <-]. simpl. by rewrite !od_get_set. }
  destruct Hg as (_ & _ & _ & _ & Hi). specialize (Hi i). rewrite H1, H2, H3 in Hi.
  destruct Hi as (c0 & m0 & [= <-] & [= <-] & _ & Hmk).
  split; [unfold get, gets; by rewrite H1|]. split; [done|]. split.
  - intros c' m'. unfold get_or_create, bind, get_st, lift, ret, raise. rewrite H1, H2, H3. simpl.
    destruct (decide (c ≠ c')) as [Hc|Hc], (decide (m ≠ m')) as [Hm|Hm],
      (decide (c' = c ∧ m' = m)) as [[Hc' Hm']|Hn]; try done; try congruence.
    destruct Hn. split; symmetry; by apply dec_stable.
  - intros ex Hex. unfold destroy, bind, get_st, lift. rewrite H1, H4. simpl. by rewrite Hex.
Qed.
End builder.
Arguments t : clear implicits.

(** The real engine's [close] raises, so that [destroy] never removes it. *)
Definition engine_close (e : Engine.t GpuFS.t) : result unit := (Engine.close e).1.

Definition demo_mk (c : Z) (m : unit) : result (Engine.t GpuFS.t) := Ok Engine.demo.

Example registry_one_engine_witness :
  let s := Registry [] [] [] [] in
  registry_ok demo_mk (get_or_create demo_mk "vllm-instance" 2 tt s).2
  ∧ registry_ok demo_mk (destroy engine_close "vllm-instance" s).2
  ∧ (∀ e s', get_or_create demo_mk "vllm-instance" 2 tt s = (Ok e, s') →
       get "vllm-instance" s' = (Ok (Some e), s') ∧ demo_mk 2 tt = Ok e
       ∧ (∀ c' m', get_or_create demo_mk "vllm-instance" c' m' s'
            = (if decide (c' = 2 ∧ m' = tt) then Ok e else Raise ValueError, s'))
       ∧ (∀ ex, engine_close e = Raise ex → destroy engine_close "vllm-instance" s' = (Raise ex, s'))).
Proof.
  apply (registry_one_engine demo_mk engine_close (Registry [] [] [] []) "vllm-instance" 2 tt).
  repeat split; constructor.
Defined.

Example destroy_raises :
  let s := (get_or_create demo_mk "vllm-instance" 2 tt (Registry [] [] [] [])).2 in
  (destroy engine_close "vllm-instance" s).1 = Raise AttributeError.
Proof. reflexivity. Qed.
End Builder.
