(* ===== verification/TaskQueue.v ===== *)
(** [infinikv/infinikv/integration/vllm/vllm_v1_adapter.py: TaskQueueforSave]: the queue
    of blocks that wait to be written, with the set of the block ids in it. *)
From S2P Require Export GeminiBackend.
From stdpp Require Import options.

(** [IOSpec]. *)
Record IOSpec := IOTask {
  io_gpu_file : GPUFileMetadata; io_block_id : Z; io_layer : Z; io_request_id : string }.

#[export] Instance IOSpec_eq_dec : EqDecision IOSpec.
Proof. solve_decision. Defined.

Module TaskQueue.

(** [_tasks] and [_pending_block_ids]. *)
Record t := Queue { tasks : list IOSpec; pending : gset Z }.

Definition create : t := Queue [] ∅.

Definition get_exist_io_num (q : t) : Z := zlen (tasks q).

(** One round of the loop of [submit_tasks]. *)
Definition submit_task (q : t) (task : IOSpec) : t :=
  if decide (io_block_id task ∈ pending q) then q
  else Queue (tasks q ++ [task]) ({[io_block_id task]} ∪ pending q).

Definition submit_tasks (l : list IOSpec) : py t unit := modify (λ q, foldl submit_task q l).

(** The loop of [get_next_ntasks]: [set.remove] raises on an absent id. *)
Fixpoint pop_tasks (n : nat) (acc : list IOSpec) : py t (list IOSpec) := λ q,
  match n with
  | O => (Ok acc, q)
  | S n' =>
      match tasks q with
      | [] => (Raise IndexError, q)
      | task :: rest =>
          if decide (io_block_id task ∈ pending q)
          then pop_tasks n' (acc ++ [task]) (Queue rest (pending q ∖ {[io_block_id task]}))
          else (Raise KeyError, Queue rest (pending q))
      end
  end.

Definition get_next_ntasks (n : Z) : py t (list IOSpec) := λ q,
  let num_to_pop := Z.min n (zlen (tasks q)) in
  if num_to_pop =? 0 then (Ok [], q) else pop_tasks (Z.to_nat num_to_pop) [] q.

Definition withdraw_tasks (request_id : string) : py t Z := λ q,
  let keep := filter (λ x, io_request_id x ≠ request_id) (tasks q) in
  let withdraw := filter (λ x, io_request_id x = request_id) (tasks q) in
  let count := zlen (tasks q) - zlen keep in
  if 0 <? count
  then (Ok count, Queue keep (pending q ∖ list_to_set (io_block_id <$> withdraw)))
  else (Ok count, q).

(** *** The queue as a list of distinct blocks *)

(** The set holds exactly the block ids of the tasks, each of which occurs once. *)
Definition queue_ok (q : t) : Prop :=
  NoDup (io_block_id <$> tasks q) ∧ ∀ b, b ∈ pending q ↔ b ∈ (io_block_id <$> tasks q).

(** The tasks of [l] whose block is neither in [ids] nor named by an earlier task. *)
Fixpoint fresh_tasks (ids : list Z) (l : list IOSpec) : list IOSpec :=
  match l with
  | [] => []
  | x :: l' => if decide (io_block_id x ∈ ids) then fresh_tasks ids l'
               else x :: fresh_tasks (ids ++ [io_block_id x]) l'
  end.

Lemma create_ok : queue_ok create.
Proof. split; [constructor|]. intros b. simpl. rewrite elem_of_nil, elem_of_empty. done. Qed.

Lemma submit_task_ok q x : queue_ok q → queue_ok (submit_task q x).
Proof.
  intros [Hnd Hp]. unfold submit_task. destruct (decide _) as [|Hni]; [done|].
  split; simpl.
  - rewrite fmap_app. apply NoDup_app. split; [done|]. split; [|apply NoDup_singleton].
    intros b Hb ->%list_elem_of_singleton. apply Hni, Hp, Hb.
  - intros b. rewrite elem_of_union, elem_of_singleton, Hp, fmap_app, elem_of_app. simpl.
    rewrite list_elem_of_singleton. tauto.
Qed.

Lemma submit_spec l q :
  queue_ok q →
  queue_ok (foldl submit_task q l)
  ∧ tasks (foldl submit_task q l) = tasks q ++ fresh_tasks (io_block_id <$> tasks q) l.
Proof.
  revert q. induction l as [|x l IH]; intros q Hq; simpl; [by rewrite app_nil_r|].
  destruct (IH (submit_task q x) (submit_task_ok q x Hq)) as [H1 H2]. split; [done|].
  rewrite H2. unfold submit_task. destruct Hq as [_ Hp].
  destruct (decide (io_block_id x ∈ pending q)) as [Hin|Hni].
  - rewrite decide_True by by apply Hp. done.
  - rewrite decide_False by by rewrite <- Hp. simpl. by rewrite fmap_app, <- app_assoc.
Qed.

Lemma pop_tasks_spec n acc q :
  queue_ok q → (n <= length (tasks q))%nat →
  ∃ q', pop_tasks n acc q = (Ok (acc ++ take n (tasks q)), q') ∧ queue_ok q'
        ∧ tasks q' = drop n (tasks q).
Proof.
  revert acc q. induction n as [|n IH]; intros acc q Hq Hn; simpl.
  - exists q. by rewrite app_nil_r, drop_0.
  - destruct q as [[|x ts] p]; simpl in *; [lia|]. destruct Hq as [Hnd Hp]. simpl in *.
    rewrite decide_True by (apply Hp; by left). apply NoDup_cons in Hnd as [Hni Hnd].
    destruct (IH (acc ++ [x]) (Queue ts (p ∖ {[io_block_id x]}))) as (q' & H1 & H2 & H3).
    + split; [done|]. intros b. simpl. rewrite elem_of_difference, elem_of_singleton, Hp, elem_of_cons.
      split; [tauto|]. intros Hb. split; [by right|]. by intros ->.
    + simpl. lia.
    + exists q'. by rewrite H1, <- app_assoc.
Qed.

Lemma withdraw_spec r q :
  queue_ok q →
  let '(n, q') := withdraw_tasks r q in
  n = Ok (zlen (filter (λ x, io_request_id x = r) (tasks q)))
  ∧ queue_ok q' ∧ tasks q' = filter (λ x, io_request_id x ≠ r) (tasks q).
Proof.
  intros [Hnd Hp]. unfold withdraw_tasks.
  assert (zlen (tasks q) - zlen (filter (λ x, io_request_id x ≠ r) (tasks q))
          = zlen (filter (λ x, io_request_id x = r) (tasks q))) as Hcount.
  { clear. induction (tasks q) as [|x l IH]; [done|]. rewrite !filter_cons.
    destruct (decide (io_request_id x = r)); [rewrite decide_False by tauto|rewrite decide_True by tauto];
      rewrite !zlen_cons; lia. }
  rewrite Hcount. destruct (0 <? zlen (filter (λ x, io_request_id x = r) (tasks q))) eqn:E; zbool.
  - split; [done|]. split; [|done]. split; simpl.
    + eapply sublist_NoDup; [done|]. apply fmap_sublist, sublist_filter.
    + intros b. rewrite elem_of_difference, Hp, elem_of_list_to_set, !list_elem_of_fmap. split.
      * intros [(x & -> & Hx) Hn]. exists x. split; [done|]. apply list_elem_of_filter. split; [|done].
        intros Hr. apply Hn. exists x. split; [done|]. by apply list_elem_of_filter.
      * intros (x & -> & [Hr Hx]%list_elem_of_filter). split; [by exists x|].
        intros (y & Hxy & [Hry Hy]%list_elem_of_filter). apply Hr.
        replace x with y; [done|]. clear -Hnd Hxy Hx Hy.
        induction (tasks q) as [|z l IH]; [by apply elem_of_nil in Hx|].
        apply NoDup_cons in Hnd as [Hz Hnd].
        apply elem_of_cons in Hx as [->|Hx], Hy as [->|Hy]; try done; [..|by apply IH];
          exfalso; apply Hz; apply list_elem_of_fmap; eauto.
  - assert (filter (λ x, io_request_id x = r) (tasks q) = []) as Hf.
    { apply length_zero_iff_nil. unfold zlen in E. lia. }
    rewrite Hf. split; [done|]. split; [done|]. clear -Hf.
    induction (tasks q) as [|x l IH]; [done|]. rewrite filter_cons in Hf |- *.
    destruct (decide (io_request_id x = r)); [done|]. rewrite decide_True by done. f_equal. by apply IH.
Qed.

(** C38. The save queue is a first-in-first-out list of distinct blocks with its pending
    set: a submission appends the tasks of blocks not yet queued, once each and in order;
    taking [n] tasks never raises and pops the oldest; withdrawing removes the tasks of
    the request and no other. *)
Theorem task_queue_refines_fifo (q : t) (l : list IOSpec) (n : Z) (r : string) :
  queue_ok q →
  (let '(o, q') := submit_tasks l q in
   o = Ok tt ∧ queue_ok q' ∧ tasks q' = tasks q ++ fresh_tasks (io_block_id <$> tasks q) l)
  ∧ (let k := Z.to_nat (Z.min n (get_exist_io_num q)) in
     let '(o, q') := get_next_ntasks n q in
     o = Ok (take k (tasks q)) ∧ queue_ok q' ∧ tasks q' = drop k (tasks q))
  ∧ (let '(o, q') := withdraw_tasks r q in
     o = Ok (zlen (filter (λ x, io_request_id x = r) (tasks q)))
     ∧ queue_ok q' ∧ tasks q' = filter (λ x, io_request_id x ≠ r) (tasks q)).
Proof.
  intros Hq. split; [|split].
  - unfold submit_tasks, modify. split; [done|]. by apply submit_spec.
  - unfold get_next_ntasks, get_exist_io_num.
    destruct (Z.min n (zlen (tasks q)) =? 0) eqn:E; zbool; [by rewrite E|].
    destruct (pop_tasks_spec (Z.to_nat (Z.min n (zlen (tasks q)))) [] q Hq) as (q' & -> & H1 & H2);
      [unfold zlen; lia|]. done.
  - by apply withdraw_spec.
Qed.

Definition demo_task (b : Z) : IOSpec := IOTask (GPUFile b (GeminiBackend.demo_key "a")) b 0 EmptyString.

Example task_queue_refines_fifo_witness :
  let q := create in
  let l := [demo_task 3; demo_task 4; demo_task 3] in
  (let '(o, q') := submit_tasks l q in
   o = Ok tt ∧ queue_ok q' ∧ tasks q' = tasks q ++ fresh_tasks (io_block_id <$> tasks q) l)
  ∧ (let k := Z.to_nat (Z.min 2 (get_exist_io_num q)) in
     let '(o, q') := get_next_ntasks 2 q in
     o = Ok (take k (tasks q)) ∧ queue_ok q' ∧ tasks q' = drop k (tasks q))
  ∧ (let '(o, q') := withdraw_tasks "req" q in
     o = Ok (zlen (filter (λ x, io_request_id x = "req"%string) (tasks q)))
     ∧ queue_ok q' ∧ tasks q' = filter (λ x, io_request_id x ≠ "req"%string) (tasks q)).
Proof. apply (task_queue_refines_fifo create), create_ok. Defined.
End TaskQueue.
