(* ===== verification/ReqMeta.v ===== *)
(** [infinikv/infinikv/integration/vllm/]: what the scheduler side of the connector
    keeps per request ([RequestTracker], [LoadSpec], [SaveSpec], [ReqMeta] of
    [vllm_v1_adapter.py]) and the multimodal helpers of [utils.py]. *)
From S2P Require Export PyStr TokenDatabase GeminiBackend.
From Stdlib Require Import Ascii.
From stdpp Require Import options.

(** *** [utils.py] *)

(** The value of a hexadecimal digit. *)
Definition hex_digit_value (c : ascii) : option Z :=
  let n := Z.of_nat (nat_of_ascii c) in
  if (48 <=? n) && (n <=? 57) then Some (n - 48)
  else if (65 <=? n) && (n <=? 70) then Some (n - 55)
  else if (97 <=? n) && (n <=? 102) then Some (n - 87)
  else None.

(** Hexadecimal digits with single underscores between them; [us] as in [parse_digits]. *)
Fixpoint parse_hex (s : string) (v : Z) (us : bool) : option Z :=
  match s with
  | EmptyString => if us then None else Some v
  | String c s' =>
      match hex_digit_value c with
      | Some d => parse_hex s' (16 * v + d) false
      | None => if decide (c = "_"%char) then (if us then None else parse_hex s' v true) else None
      end
  end.

(** An optional [0x] in front of the digits, behind which an underscore may stand. *)
Definition parse_hex_prefix (s : string) : option Z :=
  match s with
  | String z (String x s') =>
      if decide (z = "0"%char ∧ (x = "x"%char ∨ x = "X"%char)) then parse_hex s' 0 (match s' with String "_" _ => false | _ => true end)
      else parse_hex s 0 true
  | _ => parse_hex s 0 true
  end.

Definition parse_hex_signed (s : string) : option Z :=
  match s with
  | String c s' =>
      if decide (c = "-"%char) then Z.opp <$> parse_hex_prefix s'
      else if decide (c = "+"%char) then parse_hex_prefix s'
      else parse_hex_prefix s
  | EmptyString => None
  end.

(** [hex_hash_to_int16]: [int(s, 16) & 0xFFFF]. *)
Definition hex_hash_to_int16 (s : string) : result Z :=
  let! v := of_option ValueError (parse_hex_signed (rstrip (lstrip s))) in
  Ok (Z.land v 0xFFFF).

(** [PlaceholderRange]. *)
Record PlaceholderRange := Placeholder { pr_offset : Z; pr_length : Z }.

(** An element of [mm_features]. *)
Record MMFeature := Feature {
  identifier : string; mm_hash : option string; mm_position : PlaceholderRange }.

(** [extract_mm_features] on a request with the given features and, on the legacy
    path, hashes and positions. *)
Definition extract_mm_features (mm_features : list MMFeature) (legacy : option (list string * list PlaceholderRange))
    : list string * list PlaceholderRange :=
  match mm_features with
  | _ :: _ => (identifier <$> mm_features, mm_position <$> mm_features)
  | [] => match legacy with
          | Some (_ :: _ as hs, ps) => (hs, ps)
          | _ => ([], [])
          end
  end.

(** [token_ids[start:end] = value]. *)
Definition fill (l : list Z) (start en value : Z) : list Z :=
  imap (λ i x, if (clip (zlen l) start <=? Z.of_nat i) && (Z.of_nat i <? clip (zlen l) en)
               then value else x) l.

Definition apply_mm_hash (l : list Z) (h : string) (p : PlaceholderRange) : result (list Z) :=
  if zlen l <=? pr_offset p then Ok l
  else let! v := hex_hash_to_int16 h in
       Ok (fill l (pr_offset p) (Z.min (pr_offset p + pr_length p) (zlen l)) v).

(** [apply_mm_hashes_to_token_ids]: the tensor as left by the loop. *)
Fixpoint apply_mm_hashes_to_token_ids (l : list Z) (hs : list string) (ps : list PlaceholderRange)
    : result (list Z) :=
  match hs, ps with
  | h :: hs', p :: ps' => let! l' := apply_mm_hash l h p in apply_mm_hashes_to_token_ids l' hs' ps'
  | _, _ => Ok l
  end.

(** *** Specs and trackers *)

Record LoadSpec := Load {
  vllm_cached_tokens : Z;
  external_cached_tokens : Z;
  can_load : bool;
  ls_gpu_files : option (list GPUFileMetadata);
  block_ids_to_load : option (list Z)
}.

Record SaveSpec := Save {
  sv_req_id : string;
  skip_leading_tokens : Z;
  can_save : bool;
  sv_gpu_files : option (list GPUFileMetadata);
  block_ids_to_save : option (list Z)
}.

Record RequestTracker := Tracker {
  rt_req_id : string;
  rt_token_ids : list Z;
  allocated_block_ids : list Z;
  num_saved_tokens : Z;
  mm_hashes : list string;
  mm_positions : list PlaceholderRange
}.

(** [block_ids] of a new request: a list, or a list per cache group. *)
Inductive block_arg := FlatBlocks (l : list Z) | GroupBlocks (l : list (list Z)).

Record NewRequestData := NewRequest {
  nr_req_id : string;
  prompt_token_ids : list Z;
  nr_block_ids : block_arg;
  num_computed_tokens : Z;
  nr_mm_features : list MMFeature
}.

Record ReqMeta := Meta {
  rm_req_id : string;
  rm_token_ids : list Z;
  slot_mapping : list Z;
  rm_block_ids : list Z;
  save_spec : option SaveSpec;
  load_spec : option LoadSpec
}.

(** The hashes and positions of the features that have a hash. *)
Definition hashed_features (fs : list MMFeature) : list string * list PlaceholderRange :=
  let with_hash := omap (λ f, (λ h, (h, mm_position f)) <$> mm_hash f) fs in
  (with_hash.*1, with_hash.*2).

(** [RequestTracker.from_new_request]. *)
Definition from_new_request (r : NewRequestData) (num_tokens_to_compute external_cached : Z)
    : result RequestTracker :=
  let! blocks :=
    match nr_block_ids r with
    | FlatBlocks [] => Raise IndexError
    | FlatBlocks l => Ok l
    | GroupBlocks l => py_index l 0
    end in
  let '(hs, ps) := hashed_features (nr_mm_features r) in
  Ok (Tracker (nr_req_id r) (py_slice (prompt_token_ids r) 0 num_tokens_to_compute) blocks
        external_cached hs ps).

(** [RequestTracker.update]. *)
Definition update (new_token_ids : list Z) (new_block_ids : option (list (list Z)))
    (t : RequestTracker) : RequestTracker :=
  Tracker (rt_req_id t) (rt_token_ids t ++ new_token_ids)
    (allocated_block_ids t ++ match new_block_ids with Some (l :: _) => l | _ => [] end)
    (num_saved_tokens t) (mm_hashes t) (mm_positions t).

Definition set_saved (n : Z) (t : RequestTracker) : RequestTracker :=
  Tracker (rt_req_id t) (rt_token_ids t) (allocated_block_ids t) n (mm_hashes t) (mm_positions t).

(** [block_offsets + block_ids * block_size], flattened and cut to the tokens. *)
Definition make_slot_mapping (block_size : Z) (block_ids : list Z) (n : nat) : list Z :=
  take n (block_ids ≫= (λ b, (λ o, o + b * block_size) <$> seqZ 0 block_size)).

(** [ReqMeta.from_request_tracker]. *)
Definition from_request_tracker (block_size chunk : Z) (load : option LoadSpec)
    (skip_save discard_partial_chunks : bool) : py RequestTracker (option ReqMeta) :=
  let* t := get_st in
  let input_token_len := zlen (rt_token_ids t) in
  let skip_leading := num_saved_tokens t in
  if chunk =? 0 then raise ZeroDivisionError
  else
    let chunk_boundary := cdiv (num_saved_tokens t + 1) chunk * chunk in
    let skip_save := skip_save || (input_token_len <? chunk_boundary) in
    if skip_save && bool_decide (load = None) then ret None
    else
      let num_tokens_to_save :=
        if discard_partial_chunks then input_token_len / chunk * chunk else input_token_len in
      (if skip_save then ret tt else modify (set_saved num_tokens_to_save)) ;;;
      let save := Save (rt_req_id t) skip_leading (negb skip_save) None None in
      let token_ids := py_slice (rt_token_ids t) 0 num_tokens_to_save in
      let* token_ids := lift (match mm_hashes t with
                              | [] => Ok token_ids
                              | hs => apply_mm_hashes_to_token_ids token_ids hs (mm_positions t)
                              end) in
      let load' := match load with Some l => if can_load l then Some l else None | None => None end in
      ret (Some (Meta (rt_req_id t) token_ids
                   (make_slot_mapping block_size (allocated_block_ids t) (length token_ids))
                   (allocated_block_ids t) (Some save) load')).

#[export] Instance LoadSpec_eq_dec : EqDecision LoadSpec.
Proof. solve_decision. Defined.

(** *** Slots *)

(** Slot [i] of a request is the [i mod block_size]-th slot of the block that
    holds its [i]-th token, for every token that has a block. *)
Theorem slot_mapping_block (block_size : Z) (block_ids : list Z) (n i : nat) :
  0 < block_size → (i < n)%nat → Z.of_nat i < zlen block_ids * block_size →
  make_slot_mapping block_size block_ids n !! i
  = (λ b, b * block_size + Z.of_nat i mod block_size)
      <$> block_ids !! Z.to_nat (Z.of_nat i / block_size).
Proof.
  intros Hb Hi Hl. unfold make_slot_mapping. rewrite lookup_take_lt by done. clear Hi n.
  revert i Hl. induction block_ids as [|b l IH]; intros i Hl; [unfold zlen in Hl; simpl in Hl; lia|].
  rewrite zlen_cons in Hl. rewrite bind_cons.
  assert (length ((λ o, o + b * block_size) <$> seqZ 0 block_size) = Z.to_nat block_size) as Hlen
    by by rewrite length_fmap, length_seqZ.
  destruct (decide (Z.of_nat i < block_size)) as [Hlt|Hge].
  - rewrite lookup_app_l by (rewrite Hlen; lia).
    rewrite list_lookup_fmap, lookup_seqZ_lt by lia.
    rewrite Z.div_small, Z.mod_small by lia. simpl. f_equal. lia.
  - rewrite lookup_app_r, Hlen by (rewrite Hlen; lia).
    rewrite IH by lia.
    assert (Z.of_nat (i - Z.to_nat block_size) = Z.of_nat i + -1 * block_size) as -> by lia.
    rewrite Z.mod_add, Z.div_add by lia.
    assert (1 ≤ Z.of_nat i / block_size) by (apply Z.div_le_lower_bound; lia).
    replace (Z.to_nat (Z.of_nat i / block_size))
      with (S (Z.to_nat (Z.of_nat i / block_size + -1))) by lia. done.
Qed.

Example slot_mapping_block_witness :
  make_slot_mapping 4 [7; 3] 6 !! 5%nat = (λ b, b * 4 + 5 mod 4) <$> [7; 3] !! 1%nat.
Proof. apply (slot_mapping_block 4 [7; 3] 6 5); [lia|lia|reflexivity]. Defined.

(** *** Save windows *)

(** A scheduling step of a request: its new tokens and blocks, and its load. *)
Record sched_step := Step {
  st_tokens : list Z; st_blocks : option (list (list Z)); st_load : option LoadSpec }.

(** The tokens a step asks the workers to save: from the tokens skipped to the end of
    the tokens sent. *)
Definition save_window (m : option ReqMeta) : list (Z * Z * string) :=
  match m with
  | Some m => match save_spec m with
              | Some sp => if can_save sp
                           then [(skip_leading_tokens sp, zlen (rm_token_ids m), rm_req_id m)]
                           else []
              | None => []
              end
  | None => []
  end.

(** The windows of a series of steps, and the tracker behind it. *)
Fixpoint run_steps (block_size chunk : Z) (skip discard : bool) (steps : list sched_step) (t : RequestTracker)
    : list (Z * Z * string) * RequestTracker :=
  match steps with
  | [] => ([], t)
  | s :: rest =>
      let t1 := update (st_tokens s) (st_blocks s) t in
      let '(r, t2) := from_request_tracker block_size chunk (st_load s) skip discard t1 in
      let w := match r with Ok m => save_window m | Raise _ => [] end in
      let '(ws, t3) := run_steps block_size chunk skip discard rest t2 in
      (w ++ ws, t3)
  end.

Lemma save_step (block_size chunk : Z) load skip discard t :
  0 < chunk → mm_hashes t = [] →
  let '(r, t') := from_request_tracker block_size chunk load skip discard t in
  ∃ m, r = Ok m ∧ rt_token_ids t' = rt_token_ids t ∧ mm_hashes t' = []
  ∧ (save_window m = [] ∧ t' = t
       ∧ (skip = false → zlen (rt_token_ids t) < cdiv (num_saved_tokens t + 1) chunk * chunk)
     ∨ save_window m = [(num_saved_tokens t, num_saved_tokens t', rt_req_id t)]
       ∧ num_saved_tokens t' = (if discard then zlen (rt_token_ids t) / chunk * chunk else zlen (rt_token_ids t))
       ∧ num_saved_tokens t < num_saved_tokens t' ≤ zlen (rt_token_ids t)).
Proof.
  intros Hc Hmm. unfold from_request_tracker, bind at 1, get_st.
  rewrite (proj2 (Z.eqb_neq chunk 0)) by lia. cbv zeta.
  set (n := zlen (rt_token_ids t)). set (cb := cdiv (num_saved_tokens t + 1) chunk * chunk).
  destruct (skip || (n <? cb)) eqn:Esk.
  - assert (skip = false → n < cb) as Hsk by (intros ->; simpl in Esk; zbool; lia).
    destruct (bool_decide (load = None)); simpl.
    + exists None. repeat split; try done. left. done.
    + unfold bind, ret, lift. rewrite Hmm. eexists. split; [done|]. split; [done|]. split; [done|].
      left. done.
  - apply orb_false_iff in Esk as [-> Hn]. zbool. simpl. unfold bind, modify, lift, ret. rewrite Hmm.
    eexists. split; [done|]. split; [done|]. split; [done|]. right. simpl.
    pose proof (cdiv_spec (num_saved_tokens t + 1) chunk Hc) as Hcd.
    pose proof (zlen_nonneg (rt_token_ids t)) as Hn0. fold n in Hn0.
    assert (cb ≤ n / chunk * chunk ≤ n) as Hcb.
    { unfold cb in *. split; [|zlia]. apply Z.mul_le_mono_nonneg_r; [lia|].
      apply Z.div_le_lower_bound; lia. }
    assert (0 ≤ n / chunk * chunk) by (pose proof (Z.div_pos n chunk); nia).
    split; [|split; [done|destruct discard; unfold cb in *; lia]].
    rewrite py_slice_0 by (by destruct discard). do 2 f_equal. f_equal. unfold zlen. rewrite length_take.
    destruct discard; unfold n, zlen in *; lia.
Qed.

(** C24. Over any series of scheduling steps of a request without multi-modal hashes
    ([apply_mm_hashes_to_token_ids] may raise on them, and the window would be lost): the
    windows that the workers are asked to save are consecutive, non-empty and without
    overlap; they tile the tokens from those saved at first to those counted as saved at the
    end, and end within the tokens scheduled, on a chunk boundary when partial chunks are
    discarded ([discard]); and unless saving is off ([skip]) the unsaved tokens do not reach
    the next chunk boundary. *)
Theorem save_windows_tile (block_size chunk : Z) skip discard steps t :
  0 < chunk → mm_hashes t = [] →
  let '(ws, t') := run_steps block_size chunk skip discard steps t in
  Chunked.tiles (num_saved_tokens t) (num_saved_tokens t') ws
  ∧ Forall (λ '(_, e, _), (discard = true → e mod chunk = 0) ∧ e ≤ zlen (rt_token_ids t')) ws
  ∧ (skip = false → steps ≠ [] →
     zlen (rt_token_ids t') < cdiv (num_saved_tokens t' + 1) chunk * chunk).
Proof.
  intros Hc. revert t. induction steps as [|s steps IH]; intros t Hmm; simpl.
  { split; [constructor|]. split; [constructor|done]. }
  set (t1 := update (st_tokens s) (st_blocks s) t).
  pose proof (save_step block_size chunk (st_load s) skip discard t1 Hc Hmm) as Hs.
  destruct (from_request_tracker block_size chunk (st_load s) skip discard t1) as [r t2].
  destruct Hs as (m & -> & Htok & Hmm2 & Hcase). specialize (IH t2 Hmm2).
  assert (∀ t, zlen (rt_token_ids t) ≤ zlen (rt_token_ids (run_steps block_size chunk skip discard steps t).2)) as Hgrow.
  { clear -Hc. induction steps as [|s steps IH]; intros t; simpl; [done|].
    assert (∀ l t0, rt_token_ids (from_request_tracker block_size chunk l skip discard t0).2 = rt_token_ids t0) as Hk.
    { intros l t0. unfold from_request_tracker, bind at 1, get_st.
      rewrite (proj2 (Z.eqb_neq chunk 0)) by lia. cbv zeta.
      destruct (_ && _); [done|]. unfold bind, lift, ret, modify.
      destruct (skip || _); destruct (match mm_hashes t0 with [] => _ | _ :: _ => _ end); done. }
    specialize (Hk (st_load s) (update (st_tokens s) (st_blocks s) t)).
    destruct (from_request_tracker _ _ _ _ _ _) as [r t2]. simpl in Hk. specialize (IH t2).
    destruct (run_steps block_size chunk skip discard steps t2) as [ws t3]. simpl in *.
    rewrite Hk in IH. simpl in IH. rewrite zlen_app in IH. pose proof (zlen_nonneg (st_tokens s)). lia. }
  specialize (Hgrow t2).
  destruct (run_steps block_size chunk skip discard steps t2) as [ws t3] eqn:Er.
  destruct IH as (I1 & I2 & I3). simpl in Hgrow.
  assert (skip = false → zlen (rt_token_ids t2) < cdiv (num_saved_tokens t2 + 1) chunk * chunk) as Hlt.
  { intros Hsk. destruct Hcase as [(_ & -> & H)|(_ & Hn & _)]; [by apply H|].
    rewrite Hn, Htok. pose proof (cdiv_spec ((if discard then zlen (rt_token_ids t1) / chunk * chunk else zlen (rt_token_ids t1)) + 1) chunk Hc) as Hcd.
    destruct discard; [|lia]. rewrite (cdiv_unique _ chunk (zlen (rt_token_ids t1) / chunk + 1)) by lia.
    pose proof (Z.mul_succ_div_gt (zlen (rt_token_ids t1)) chunk Hc). lia. }
  assert (skip = false → s :: steps ≠ [] →
          zlen (rt_token_ids t3) < cdiv (num_saved_tokens t3 + 1) chunk * chunk) as H3.
  { intros Hsk _. destruct steps as [|s' steps]; [|by apply I3]. simpl in Er. injection Er as <- <-. by apply Hlt. }
  destruct Hcase as [(-> & -> & _)|(-> & Hn & Hb)].
  - simpl. done.
  - cbn [app]. split; [apply Chunked.tiles_cons; [apply Hb|exact I1]|]. split; [|done].
    constructor; [|done]. rewrite Htok in Hgrow. split; [|lia]. intros ->. rewrite Hn. apply Z.mod_mul. lia.
Qed.

Example save_windows_tile_witness :
  let t := Tracker "req" [1; 2; 3] [0] 0 [] [] in
  let steps := [Step [4; 5] None None; Step [6] (Some [[1]]) None; Step [7; 8; 9] None None] in
  let '(ws, t') := run_steps 4 4 false true steps t in
  Chunked.tiles (num_saved_tokens t) (num_saved_tokens t') ws
  ∧ Forall (λ '(_, e, _), (true = true → e mod 4 = 0) ∧ e ≤ zlen (rt_token_ids t')) ws
  ∧ (false = false → steps ≠ [] →
     zlen (rt_token_ids t') < cdiv (num_saved_tokens t' + 1) 4 * 4).
Proof.
  apply (save_windows_tile 4 4 false true
           [Step [4; 5] None None; Step [6] (Some [[1]]) None; Step [7; 8; 9] None None]
           (Tracker "req" [1; 2; 3] [0] 0 [] [])); [lia|reflexivity].
Defined.
