(* ===== verification/Connector.v ===== *)
(** [infinikv/infinikv/integration/vllm/vllm_v1_adapter.py: InfiniKVConnectorV1Impl],
    the scheduler side: it asks the lookup server how much of a prompt is cached,
    follows the scheduler's allocations, and describes to the workers what to load and
    what to save in a step. *)
From S2P Require Export ReqMeta.
From stdpp Require Import options.

Module Connector.

(** The settings that the scheduler side reads. *)
Record config := Config {
  kv_role : string;
  supports_producer_reuse : bool;
  skip_last_n_tokens : Z;
  block_size : Z;
  chunk_size : Z;
  discard_partial_chunks : bool
}.

(** The fields of vLLM's [Request] that are read. *)
Record request := Request {
  request_id : string;
  req_prompt : list Z;
  req_mm_features : list MMFeature;
  num_tokens : Z;
  ret_first_tok : bool;
  output_token_ids : list Z
}.

(** [load_specs], [_request_trackers] and the ids of [_requests_in_step]. *)
Record t := Sched {
  load_specs : list (string * LoadSpec);
  request_trackers : list (string * RequestTracker);
  requests_in_step : list string
}.

Definition set_load_specs l (s : t) : t := Sched l (request_trackers s) (requests_in_step s).
Definition set_trackers l (s : t) : t := Sched (load_specs s) l (requests_in_step s).
Definition set_in_step l (s : t) : t := Sched (load_specs s) (request_trackers s) l.

Definition set_can_load (b : bool) (l : LoadSpec) : LoadSpec :=
  Load (vllm_cached_tokens l) (external_cached_tokens l) b (ls_gpu_files l) (block_ids_to_load l).

Section connector.
Context (c : config).
(** The answer of the lookup server for a token tensor. *)
Variable lookup : list Z → result Z.

Definition get_num_new_matched_tokens (r : request) (num_computed_tokens : Z) : py t Z :=
  if bool_decide (kv_role c = "kv_producer"%string) && negb (supports_producer_reuse c) then ret 0
  else
    let '(hs, ps) := hashed_features (req_mm_features r) in
    let* token_ids := lift (match hs with
                            | [] => Ok (req_prompt r)
                            | _ => apply_mm_hashes_to_token_ids (req_prompt r) hs ps
                            end) in
    let* hits := lift (if 0 <? skip_last_n_tokens c
                       then lookup (py_slice token_ids 0 (- skip_last_n_tokens c))
                       else lookup token_ids) in
    let need_to_allocate :=
      hits - num_computed_tokens - (if hits =? num_tokens r then 1 else 0) in
    if need_to_allocate <=? 0 then ret 0
    else
      modify (λ s, set_load_specs
                (od_set (request_id r) (Load num_computed_tokens hits false None None) (load_specs s)) s) ;;;
      ret need_to_allocate.

(** [d[k] = v] on the dictionary of the requests in the step, of which the ids matter. *)
Definition add_in_step (k : string) (l : list string) : list string :=
  if decide (k ∈ l) then l else l ++ [k].

Definition update_state_after_alloc (r : request) (num_external_tokens : Z) : py t unit :=
  modify (λ s, set_in_step (add_in_step (request_id r) (requests_in_step s)) s) ;;;
  let* s := get_st in
  match od_get (request_id r) (load_specs s) with
  | None => ret tt
  | Some l =>
      let set b := modify (λ s, set_load_specs
                     (od_set (request_id r) (set_can_load b l) (load_specs s)) s) in
      if num_external_tokens =? 0 then set false
      else
        (if external_cached_tokens l =? num_tokens r then ret tt
         else passert ((0 <? num_external_tokens)
                       && (num_external_tokens
                           =? external_cached_tokens l - vllm_cached_tokens l))) ;;;
        set true
  end.

(** *** [build_connector_meta] *)

(** [scheduled_cached_reqs]: a list of requests, or the structure of later vLLMs. *)
Inductive cached_reqs :=
  | CachedList (l : list (string * list Z * option (list (list Z))))
  | CachedData (req_ids : list string) (new_block_ids : list (option (list (list Z)))).

Record scheduler_output := SchedOut {
  total_num_scheduled_tokens : Z;
  finished_req_ids : list string;
  scheduled_new_reqs : list NewRequestData;
  scheduled_cached_reqs : cached_reqs;
  num_scheduled_tokens : list (string * Z)
}.

(** [InfiniKVConnectorMetadata] as the scheduler fills it. *)
Record connector_meta := ConnMeta { requests : list ReqMeta; num_total : Z; stage : string }.

(** An operation on the tracker object stored under [k]. *)
Definition on_tracker {A} (k : string) (m : py RequestTracker A) : py t A := λ s,
  match od_get k (request_trackers s) with
  | None => (Raise KeyError, s)
  | Some tr => let '(r, tr') := m tr in (r, set_trackers (od_set k tr' (request_trackers s)) s)
  end.

Definition make_meta (load : option LoadSpec) : py RequestTracker (option ReqMeta) :=
  from_request_tracker (block_size c) (chunk_size c) load
    (bool_decide (kv_role c = "kv_consumer"%string)) (discard_partial_chunks c).

Definition finish_request (k : string) : py t unit :=
  modify (λ s, set_in_step (filter (λ x, x ≠ k) (requests_in_step s))
                 (set_trackers (od_del k (request_trackers s)) s)).

Definition new_request (out : scheduler_output) (r : NewRequestData) : py t (option ReqMeta) :=
  let k := nr_req_id r in
  let* load := gets (λ s, od_get k (load_specs s)) in
  modify (λ s, set_load_specs (od_del k (load_specs s)) s) ;;;
  let* n := lift (of_option KeyError (od_get k (num_scheduled_tokens out))) in
  let external := match load with Some l => external_cached_tokens l | None => 0 end in
  let* tr := lift (from_new_request r (num_computed_tokens r + n) external) in
  modify (λ s, set_trackers (od_set k tr (request_trackers s)) s) ;;;
  on_tracker k (make_meta load).

(** A running request in the list form: the scheduler sends its new tokens. *)
Definition cached_old (out : scheduler_output) (x : string * list Z * option (list (list Z)))
    : py t (option ReqMeta * bool) :=
  let '(k, toks, blocks) := x in
  on_tracker k (modify (update toks blocks)) ;;;
  let* n := lift (of_option KeyError (od_get k (num_scheduled_tokens out))) in
  let* m := on_tracker k (make_meta None) in
  ret (m, 1 <? n).

(** A running request in the structure form: its new tokens are read from the request
    object, whose tokens now are [all_token_ids k]. *)
Definition cached_new (all_token_ids : string → list Z) (out : scheduler_output)
    (new_block_ids : list (option (list (list Z)))) (x : Z * string) : py t (option ReqMeta * bool) :=
  let '(i, k) := x in
  let* tr := on_tracker k get_st in
  let* n := lift (of_option KeyError (od_get k (num_scheduled_tokens out))) in
  let* s := get_st in
  if bool_decide (k ∈ requests_in_step s) then
    let cur := zlen (rt_token_ids tr) in
    let* blocks := lift (py_index new_block_ids i) in
    on_tracker k (modify (update (py_slice (all_token_ids k) cur (cur + n)) blocks)) ;;;
    let* m := on_tracker k (make_meta None) in
    ret (m, 1 <? n)
  else raise ValueError.

Definition build_connector_meta (all_token_ids : string → list Z) (out : scheduler_output)
    : py t connector_meta :=
  for_each (finished_req_ids out) finish_request ;;;
  let* news := map_each (scheduled_new_reqs out) (new_request out) in
  let* cached :=
    match scheduled_cached_reqs out with
    | CachedList l => map_each l (cached_old out)
    | CachedData ids blocks =>
        map_each (zip (seqZ 0 (zlen ids)) ids) (cached_new all_token_ids out blocks)
    end in
  let prefill := bool_decide (scheduled_new_reqs out ≠ []) || existsb snd cached in
  ret (ConnMeta (omap id news ++ omap fst cached) (total_num_scheduled_tokens out)
         (if prefill then "prefill" else "decode")).

(** [request_finished]: the delay flag (0) and the first token, if it is asked for. *)
Definition request_finished (r : request) : result (Z * option Z) :=
  if ret_first_tok r then let! x := py_index (output_token_ids r) 0 in Ok (0, Some x)
  else Ok (0, None).

(** *** The load protocol *)

Lemma set_load_specs_get k l d s :
  od_get k (load_specs (set_load_specs (od_set k l d) s)) = Some l.
Proof. simpl. by rewrite od_get_set. Qed.

(** C33. When the connector promises [n] tokens from the external cache and the scheduler
    then allocates exactly [n], the allocation is accepted and the request's load is
    switched on with the numbers of the promise, the other requests' loads untouched; an
    allocation of none switches it off; and, unless the whole prompt is cached, any other
    number is refused. *)
Theorem promised_tokens_load (r : request) (computed n : Z) (s s' : t) :
  get_num_new_matched_tokens r computed s = (Ok n, s') → 0 < n →
  ∃ hits, n = hits - computed - (if hits =? num_tokens r then 1 else 0)
    ∧ (∀ m, let '(o, s2) := update_state_after_alloc r m s' in
         match o with
         | Ok _ => od_get (request_id r) (load_specs s2)
                   = Some (Load computed hits (negb (m =? 0)) None None)
                   ∧ (∀ k, k ≠ request_id r → od_get k (load_specs s2) = od_get k (load_specs s))
                   ∧ request_id r ∈ requests_in_step s2
         | Raise e => e = AssertionError ∧ m ≠ 0 ∧ m ≠ n ∧ hits ≠ num_tokens r
         end)
    ∧ (∀ m, hits ≠ num_tokens r → m ≠ 0 → m ≠ n →
         (update_state_after_alloc r m s').1 = Raise AssertionError).
Proof.
  unfold get_num_new_matched_tokens. intros H Hn.
  destruct (_ && _); [unfold ret in H; by injection H as <- <-|].
  destruct (hashed_features (req_mm_features r)) as [hs ps].
  apply bind_ok in H as (ids & s1 & H1 & H). apply bind_ok in H as (hits & s2 & H2 & H).
  unfold lift in H1, H2. injection H1 as _ <-. injection H2 as _ <-.
  set (need := hits - computed - _) in H.
  destruct (need <=? 0) eqn:E; [unfold ret in H; by injection H as <- <-|]. zbool.
  unfold bind, modify, ret in H. injection H as <- <-.
  exists hits. split; [done|].
  assert (∀ l, request_id r ∈ add_in_step (request_id r) l) as Hin.
  { intros l. unfold add_in_step. destruct (decide _); [done|]. apply elem_of_app. right. by left. }
  split.
  - intros m. unfold update_state_after_alloc, bind, modify, get_st. simpl. rewrite od_get_set. simpl.
    unfold need in *. destruct (m =? 0) eqn:Em; zbool; simpl.
    + rewrite od_get_set. split; [done|]. split; [|apply Hin].
      intros k Hk. by rewrite !od_get_set_ne.
    + destruct (hits =? num_tokens r) eqn:Eh; zbool; simpl.
      * rewrite od_get_set. split; [done|]. split; [|apply Hin].
        intros k Hk. by rewrite !od_get_set_ne.
      * unfold passert, lift, rassert. destruct ((0 <? m) && (m =? hits - computed)) eqn:Ea; simpl.
        -- rewrite od_get_set. split; [done|]. split; [|apply Hin].
           intros k Hk. by rewrite !od_get_set_ne.
        -- split; [done|]. split; [done|]. split; [|done]. intros ->.
           apply andb_false_iff in Ea as [Ea|Ea]; zbool; lia.
  - intros m Hh Hm0 Hmn. unfold update_state_after_alloc, bind, modify, get_st. simpl.
    rewrite od_get_set. simpl. rewrite (proj2 (Z.eqb_neq m 0)), (proj2 (Z.eqb_neq hits _)) by done.
    unfold passert, lift, rassert. unfold need in Hmn.
    rewrite (proj2 (Z.eqb_neq hits (num_tokens r))) in Hmn by done.
    rewrite (proj2 (Z.eqb_neq m (hits - computed))) by lia. by rewrite andb_false_r.
Qed.

(** *** The trackers follow their requests *)

(** Every tracker holds a prefix of its request's tokens. *)
Definition trackers_ok (tokens : string → list Z) (s : t) : Prop :=
  od_wf (request_trackers s)
  ∧ ∀ k tr, od_get k (request_trackers s) = Some tr →
      rt_token_ids tr `prefix_of` tokens k ∧ rt_req_id tr = k ∧ mm_hashes tr = [].

(** What the workers are told about a request. *)
Definition meta_ok (tokens : string → list Z) (m : option ReqMeta) : Prop :=
  match m with
  | Some m => rm_token_ids m `prefix_of` tokens (rm_req_id m)
              ∧ (length (slot_mapping m) <= length (rm_token_ids m))%nat
  | None => True
  end.

Lemma on_tracker_inv tokens k {A} (m : py RequestTracker A) (Q : A → Prop) s :
  trackers_ok tokens s →
  (∀ tr, rt_token_ids tr `prefix_of` tokens k → rt_req_id tr = k → mm_hashes tr = [] →
     let '(r, tr') := m tr in
     rt_token_ids tr' `prefix_of` tokens k ∧ rt_req_id tr' = k ∧ mm_hashes tr' = []
     ∧ ∀ a, r = Ok a → Q a) →
  post (trackers_ok tokens) Q (on_tracker k m s).
Proof.
  intros [Hwf Hs] Hm. unfold on_tracker, post.
  destruct (od_get k (request_trackers s)) as [tr|] eqn:E; [|done].
  destruct (Hs k tr E) as (H1 & H2 & H3). specialize (Hm tr H1 H2 H3).
  destruct (m tr) as [r tr']. destruct Hm as (M1 & M2 & M3 & M4). simpl.
  split; [|done]. split; [by apply od_wf_set|]. intros k' tr2. simpl.
  destruct (decide (k' = k)) as [->|Hne]; [rewrite od_get_set; by intros [= <-]|].
  rewrite od_get_set_ne by done. apply Hs.
Qed.

Lemma make_meta_inv tokens k load s :
  trackers_ok tokens s →
  post (trackers_ok tokens) (meta_ok tokens) (on_tracker k (make_meta load) s).
Proof.
  intros Hs. apply on_tracker_inv; [done|]. intros tr Hp Hk Hmm.
  unfold make_meta, from_request_tracker, bind at 1, get_st.
  destruct (chunk_size c =? 0); [done|]. cbv zeta.
  destruct (_ && _); [unfold ret; repeat split; try done; by intros ? [= <-]|].
  unfold bind, lift, ret, modify. rewrite Hmm.
  match goal with |- context [py_slice (rt_token_ids tr) 0 ?n] => set (toks := py_slice (rt_token_ids tr) 0 n) end.
  assert (meta_ok tokens (Some (Meta (rt_req_id tr) toks
    (make_slot_mapping (block_size c) (allocated_block_ids tr) (length toks)) (allocated_block_ids tr)
    None None))) as Hok.
  { split; simpl.
    - rewrite Hk. etrans; [|exact Hp]. apply py_slice_0_prefix.
    - unfold make_slot_mapping. rewrite length_take. lia. }
  destruct (_ || _); repeat split; try done; intros a [= <-]; apply Hok.
Qed.

Lemma update_inv (tokens : string → list Z) (k : string) cur n blocks tr :
  rt_token_ids tr `prefix_of` tokens k → cur = zlen (rt_token_ids tr) → 0 ≤ n →
  rt_token_ids (update (py_slice (tokens k) cur (cur + n)) blocks tr) `prefix_of` tokens k.
Proof.
  intros [l Hl] -> Hn. simpl. pose proof (zlen_nonneg (rt_token_ids tr)) as Hz.
  rewrite py_slice_nonneg by lia. rewrite Hl. unfold zlen. rewrite Nat2Z.id, drop_app_length.
  apply prefix_app, prefix_take.
Qed.

Lemma finish_request_inv tokens k s :
  trackers_ok tokens s → post (trackers_ok tokens) (λ _, True) (finish_request k s).
Proof.
  intros [Hwf Hs]. apply post_modify. split; [by apply od_wf_del|]. simpl. intros k' tr.
  destruct (decide (k' = k)) as [->|Hne]; [by rewrite od_get_del|].
  rewrite od_get_del_ne by done. apply Hs.
Qed.

Lemma new_request_inv tokens out r s :
  trackers_ok tokens s → prompt_token_ids r `prefix_of` tokens (nr_req_id r) →
  nr_mm_features r = [] →
  post (trackers_ok tokens) (meta_ok tokens) (new_request out r s).
Proof.
  intros Hs Hp Hmm. unfold new_request.
  eapply post_bind; [by apply post_gets|]. intros load s1 _ Hs1 _.
  eapply post_bind; [by apply post_modify|]. intros [] s2 _ Hs2 _.
  eapply post_bind; [by apply post_lift|]. intros n s3 _ Hs3 Hn.
  eapply post_bind; [by apply post_lift|]. intros tr s4 _ Hs4 Htr.
  eapply post_bind; [|intros [] s5 _ Hs5 _; by apply make_meta_inv].
  apply post_modify. unfold from_new_request in Htr. rewrite Hmm in Htr.
  apply rbind_ok in Htr as (bl & _ & [= <-]).
  split; [by apply od_wf_set, Hs4|]. intros k tr. simpl.
  destruct (decide (k = nr_req_id r)) as [->|Hne]; [|rewrite od_get_set_ne by done; apply Hs4].
  rewrite od_get_set. intros [= <-]. simpl. split; [|done].
  etrans; [apply py_slice_0_prefix|done].
Qed.

Lemma cached_new_inv (tokens : string → list Z) out blocks i k s :
  trackers_ok tokens s → (∀ k n, od_get k (num_scheduled_tokens out) = Some n → 0 ≤ n) →
  post (trackers_ok tokens) (λ m, meta_ok tokens m.1) (cached_new tokens out blocks (i, k) s).
Proof.
  intros Hs Hpos. unfold cached_new.
  apply (post_bind _ (λ _ : RequestTracker, True)).
  { apply on_tracker_inv; [done|]. intros tr Htr ??. simpl. done. }
  intros tr s1 Htr Hs1 _. unfold on_tracker, get_st in Htr.
  destruct (od_get k (request_trackers s)) as [tr0|] eqn:Etr; [|done]. injection Htr as <- Hs1eq.
  assert (od_get k (request_trackers s1) = Some tr0) as Etr1 by (subst s1; simpl; by rewrite od_get_set).
  clear Hs1eq. eapply post_bind; [by apply post_lift|].
  intros n s2 [= _ <-] _ Hn. apply of_option_ok in Hn.
  eapply post_bind; [by apply (post_gets _ id)|]. intros s3 s4 [= <- <-] _ _.
  destruct (bool_decide (k ∈ requests_in_step s1)); [|by apply post_raise].
  eapply post_bind; [by apply post_lift|]. intros b s5 [= _ <-] _ _.
  eapply (post_bind _ (λ _, True)).
  - destruct (proj2 Hs1 k tr0 Etr1) as (Hp & Hid & Hmm).
    unfold on_tracker, modify. rewrite Etr1. split; [|done]. split; [by apply od_wf_set, Hs1|].
    intros k' tr'. simpl. destruct (decide (k' = k)) as [->|Hne];
      [|rewrite od_get_set_ne by done; apply Hs1].
    rewrite od_get_set. intros [= <-]. split; [|done]. apply update_inv; [done..|]. by apply (Hpos k).
  - intros [] s6 _ Hs6 _. eapply post_bind; [by apply make_meta_inv|].
    intros m s7 _ Hs7 Hm. by apply post_ret.
Qed.

(** C34. A step's description never runs ahead of the requests, for requests without
    multi-modal features (none among the new ones, no hashes in the trackers) and the
    scheduler output of vLLM, whose cached requests come as one [CachedRequestData] with
    parallel lists (not as a list of objects), whose numbers of scheduled tokens are not
    negative and whose new requests' prompts are those of the requests: whatever the step
    raises, every tracker still holds a prefix of its request's tokens, under the request's own
    id; and every request that is described to the workers is described by a prefix of
    its own tokens, with slots for no more tokens than that. *)
Theorem build_meta_follows_requests (tokens : string → list Z) out ids blocks s :
  trackers_ok tokens s → scheduled_cached_reqs out = CachedData ids blocks →
  Forall (λ kn, 0 ≤ kn.2) (num_scheduled_tokens out) →
  Forall (λ r, prompt_token_ids r `prefix_of` tokens (nr_req_id r) ∧ nr_mm_features r = [])
    (scheduled_new_reqs out) →
  let '(r, s') := build_connector_meta tokens out s in
  trackers_ok tokens s'
  ∧ ∀ m, r = Ok m → Forall (λ x, meta_ok tokens (Some x)) (requests m).
Proof.
  intros Hs Hc Hnum Hnew.
  assert (∀ k n, od_get k (num_scheduled_tokens out) = Some n → 0 ≤ n) as Hpos.
  { intros k n Hk%od_get_elem. rewrite Forall_forall in Hnum. apply (Hnum _ Hk). }
  rewrite Forall_forall in Hnew.
  assert (post (trackers_ok tokens) (λ m, Forall (λ x, meta_ok tokens (Some x)) (requests m))
            (build_connector_meta tokens out s)) as [H1 H2];
    [|by destruct (build_connector_meta tokens out s)].
  unfold build_connector_meta. rewrite Hc.
  eapply post_bind; [apply post_for_each; [intros; by apply finish_request_inv|done]|].
  intros [] s1 _ Hs1 _.
  eapply post_bind; [apply (post_map_each _ (λ _, meta_ok tokens)); [|done]|].
  { intros r s0 Hr Hs0. destruct (Hnew r Hr). by apply new_request_inv. }
  intros news s2 _ Hs2 Hnews.
  eapply post_bind; [apply (post_map_each _ (λ _ m, meta_ok tokens m.1)); [|done]|].
  { intros [i k] s0 _ Hs0. by apply cached_new_inv. }
  intros cached s3 _ Hs3 Hcached. apply post_ret; [done|]. simpl. apply Forall_app. split.
  - clear -Hnews. induction Hnews as [|r m rs ms Hm Hms IH]; simpl; [constructor|].
    destruct m; simpl; [by constructor|done].
  - clear -Hcached. induction Hcached as [|r [m b] rs ms Hm Hms IH]; simpl; [constructor|].
    destruct m; simpl; [by constructor|done].
Qed.
End connector.

(** *** Witnesses *)

Definition demo_config : config := Config "kv_both" false 0 4 4 true.
Definition demo_request : request := Request "req" [1; 2; 3; 4; 5; 6; 7; 8; 9] [] 9 false [].

Example promised_tokens_load_witness :
  let s' := (get_num_new_matched_tokens demo_config (λ _, Ok 8) demo_request 4 (Sched [] [] [])).2 in
  ∃ hits, 4 = hits - 4 - (if hits =? 9 then 1 else 0)
    ∧ (∀ m, let '(o, s2) := update_state_after_alloc demo_request m s' in
         match o with
         | Ok _ => od_get "req"%string (load_specs s2) = Some (Load 4 hits (negb (m =? 0)) None None)
                   ∧ (∀ k, k ≠ "req"%string → od_get k (load_specs s2) = None)
                   ∧ "req"%string ∈ requests_in_step s2
         | Raise e => e = AssertionError ∧ m ≠ 0 ∧ m ≠ 4 ∧ hits ≠ 9
         end)
    ∧ (∀ m, hits ≠ 9 → m ≠ 0 → m ≠ 4 →
         (update_state_after_alloc demo_request m s').1 = Raise AssertionError).
Proof.
  apply (promised_tokens_load demo_config (λ _, Ok 8) demo_request 4 4 (Sched [] [] []));
    [reflexivity|lia].
Defined.

Definition demo_tokens (k : string) : list Z := seqZ 1 12.

Definition demo_out : scheduler_output :=
  SchedOut 9 [] [NewRequest "new" (seqZ 1 8) (GroupBlocks [[3; 4]]) 0 []]
    (CachedData ["old"%string] [Some [[6]]]) [("new"%string, 8); ("old"%string, 1)].

Definition demo_state : t :=
  Sched [] [("old"%string, Tracker "old" (seqZ 1 3) [5] 0 [] [])] ["old"%string].

Example build_meta_follows_requests_witness :
  let '(r, s') := build_connector_meta demo_config demo_tokens demo_out demo_state in
  trackers_ok demo_tokens s'
  ∧ ∀ m, r = Ok m → Forall (λ x, meta_ok demo_tokens (Some x)) (requests m).
Proof.
  apply (build_meta_follows_requests demo_config demo_tokens demo_out ["old"%string] [Some [[6]]] demo_state).
  - split; [apply NoDup_singleton|]. intros k tr. unfold demo_state. simpl.
    destruct (decide (k = "old"%string)) as [->|]; [|done]. intros [= <-]. split; [|done].
    exists (seqZ 4 9). reflexivity.
  - reflexivity.
  - repeat constructor; simpl; lia.
  - constructor; [|constructor]. split; [|done]. exists (seqZ 9 4). reflexivity.
Defined.

(** The step above saves the first two chunks of the new request and the chunk that the
    running request has just completed. *)
Example demo_step :
  let '(r, _) := build_connector_meta demo_config demo_tokens demo_out demo_state in
  (λ m, (stage m, (λ x, (rm_req_id x, rm_token_ids x, slot_mapping x)) <$> requests m)) <$>
    match r with Ok m => Some m | Raise _ => None end
  = Some ("prefill"%string,
      [("new"%string, seqZ 1 8, [12; 13; 14; 15; 16; 17; 18; 19]);
       ("old"%string, seqZ 1 4, [20; 21; 22; 23])]).
Proof. vm_compute. reflexivity. Qed.
End Connector.
