(* ===== verification/Worker.v ===== *)
(** The worker side of the connector: [InfiniKVConnectorV1Impl] of
    [infinikv/infinikv/integration/vllm/vllm_v1_adapter.py], which a forward pass calls
    before the first layer ([start_load_kv]), before every layer ([wait_for_layer_load])
    and behind every layer ([save_kv_layer] or [save_kv_layer_async]); and the alignment
    of the block count in vLLM's [infinikv_connector.py]. *)
From S2P Require Export Engine TaskQueue Connector.
From stdpp Require Import options.

Module Worker.

(** [StoreLayerTask]. *)
Record store_layer_task := StoreTask {
  sl_files : list GPUFileMetadata; sl_blocks : list Z; sl_layers : list Z }.

(** The metadata object of the step, shared by all its calls: the requests, the number of
    tokens, the stage, the tasks of the step and whether [save_stream] is set (its class
    default is [None]). *)
Record metadata := StepMeta {
  md_requests : list ReqMeta;
  md_num_tokens : Z;
  md_stage : string;
  io_count : Z;
  io_tasks : option (list IOSpec);
  save_stream : bool
}.

(** [_get_connector_metadata()] of a step that the scheduler has just described; [io_count]
    has no default and is read only behind [start_load_kv]. *)
Definition fresh_metadata (m : Connector.connector_meta) : metadata :=
  StepMeta (Connector.requests m) (Connector.num_total m) (Connector.stage m) 0 None false.

Section worker.
Context {S : Type} `{FileStore S}.
(** [Simulator.execute]: the number of transfers that fit, and whether there is a stream. *)
Variable simulate : Z → Z → string → result (Z * bool).

Record t := Work {
  engine : Engine.t S;
  meta : metadata;
  task_queue : TaskQueue.t;
  pending_store : list store_layer_task;
  current_layer : Z;
  num_layers : Z;
  chunk_size : Z
}.

Definition set_engine e (w : t) : t :=
  Work e (meta w) (task_queue w) (pending_store w) (current_layer w) (num_layers w) (chunk_size w).
Definition set_meta m (w : t) : t :=
  Work (engine w) m (task_queue w) (pending_store w) (current_layer w) (num_layers w) (chunk_size w).
Definition set_queue q (w : t) : t :=
  Work (engine w) (meta w) q (pending_store w) (current_layer w) (num_layers w) (chunk_size w).
Definition set_pending p (w : t) : t :=
  Work (engine w) (meta w) (task_queue w) p (current_layer w) (num_layers w) (chunk_size w).
Definition set_current n (w : t) : t :=
  Work (engine w) (meta w) (task_queue w) (pending_store w) n (num_layers w) (chunk_size w).

Definition set_requests rs (m : metadata) : metadata :=
  StepMeta rs (md_num_tokens m) (md_stage m) (io_count m) (io_tasks m) (save_stream m).
Definition set_io n ts b (m : metadata) : metadata :=
  StepMeta (md_requests m) (md_num_tokens m) (md_stage m) n ts b.

Definition on_engine {A} (m : py (Engine.t S) A) : py t A := λ w,
  let '(r, e) := m (engine w) in (r, set_engine e w).
Definition on_queue {A} (m : py TaskQueue.t A) : py t A := λ w,
  let '(r, q) := m (task_queue w) in (r, set_queue q w).

(** [len(self.kvcaches) > 0]. *)
Definition has_kvcaches (w : t) : bool :=
  match GeminiBackend.kvcaches (Engine.backend (engine w)) with [] => false | _ => true end.

Definition set_load (l : option LoadSpec) (r : ReqMeta) : ReqMeta :=
  Meta (rm_req_id r) (rm_token_ids r) (slot_mapping r) (rm_block_ids r) (save_spec r) l.
Definition set_save (sp : option SaveSpec) (r : ReqMeta) : ReqMeta :=
  Meta (rm_req_id r) (rm_token_ids r) (slot_mapping r) (rm_block_ids r) sp (load_spec r).

(** [mask = torch.ones_like(tokens); mask[:n] = False]. *)
Definition prefix_mask (len : nat) (n : Z) : list bool :=
  (λ i, clip (Z.of_nat len) n <=? Z.of_nat i) <$> seq 0 len.

(** A change of the [i]-th request object of the step. *)
Definition put_request (i : nat) (r : ReqMeta) : py t unit :=
  modify (λ w, set_meta (set_requests (<[i := r]> (md_requests (meta w))) (meta w)) w).

(** [n // chunk * chunk]. *)
Definition align_down (n chunk : Z) : result Z :=
  let! q := py_div n chunk in Ok (q * chunk).

(** One round of the loop of [_prepare_for_load]: the files and blocks of the request. *)
Definition load_request (i : nat) : py t (list GPUFileMetadata * list Z) :=
  let* w := get_st in
  match md_requests (meta w) !! i with
  | None => ret ([], [])
  | Some r =>
      match load_spec r with
      | None => ret ([], [])
      | Some l =>
          let* masked := lift (align_down (vllm_cached_tokens l) (chunk_size w)) in
          let ext := external_cached_tokens l in
          let* (_, files, blocks) := on_engine (Engine.prepare_for_load
            (TTensor (py_slice (rm_token_ids r) 0 ext))
            (Some (py_slice (prefix_mask (length (rm_token_ids r)) masked) 0 ext))
            (Some (rm_block_ids r))) in
          put_request i (set_load (Some (Load (vllm_cached_tokens l) ext (can_load l)
                                           (Some files) (Some blocks))) r) ;;;
          ret (files, blocks)
      end
  end.

Definition prepare_for_load : py t unit :=
  let* w := get_st in
  passert (has_kvcaches w) ;;;
  let* l := map_each (seq 0 (length (md_requests (meta w)))) load_request in
  let files := concat l.*1 in
  let blocks := concat l.*2 in
  if zlen files =? 0 then ret tt
  else on_engine (Engine.retrieve_layer (-1) files blocks).

(** One round of the loop of [_prepare_for_save]: the tasks of the request, whose
    [request_id] keeps its default. *)
Definition save_request (i : nat) : py t (list IOSpec) :=
  let* w := get_st in
  match md_requests (meta w) !! i with
  | None => ret []
  | Some r =>
      match save_spec r with
      | None => ret []
      | Some sp =>
          if negb (can_save sp) then ret []
          else if skip_leading_tokens sp =? zlen (rm_token_ids r) then ret []
          else
            let* skip := lift (align_down (skip_leading_tokens sp) (chunk_size w)) in
            let* (files, blocks) := on_engine (Engine.prepare_for_store
              (TTensor (rm_token_ids r)) (Some (prefix_mask (length (rm_token_ids r)) skip))
              (Some (rm_block_ids r)) (Some skip)) in
            match files with
            | [] =>
                put_request i (set_save (Some (Save (sv_req_id sp) (skip_leading_tokens sp) false
                                                 (sv_gpu_files sp) (block_ids_to_save sp))) r) ;;;
                ret []
            | _ =>
                put_request i (set_save (Some (Save (sv_req_id sp) (skip_leading_tokens sp) (can_save sp)
                                                 (Some files) (Some blocks))) r) ;;;
                ret ((λ '(f, b), IOTask f b 0 EmptyString) <$> zip files blocks)
            end
      end
  end.

Definition prepare_for_save : py t unit :=
  let* w := get_st in
  let* l := map_each (seq 0 (length (md_requests (meta w)))) save_request in
  let tasks := concat l in
  modify (λ w, set_meta (set_io 0 None (save_stream (meta w)) (meta w)) w) ;;;
  (if 0 <? zlen tasks then on_queue (TaskQueue.submit_tasks tasks) else ret tt) ;;;
  let* w := get_st in
  let* (_, has_stream) := lift (simulate (md_num_tokens (meta w))
                                  (TaskQueue.get_exist_io_num (task_queue w)) (md_stage (meta w))) in
  if negb has_stream then
    modify (λ w, set_meta (set_io (io_count (meta w)) (io_tasks (meta w)) false (meta w)) w)
  else
    let* w := get_st in
    let n := TaskQueue.get_exist_io_num (task_queue w) in
    let* ts := on_queue (TaskQueue.get_next_ntasks n) in
    modify (λ w, set_meta (set_io n (Some ts) (save_stream (meta w)) (meta w)) w).

(** [start_load_kv], the layers' caches being registered. *)
Definition start_load_kv : py t unit :=
  modify (set_current 0) ;;;
  prepare_for_load ;;;
  prepare_for_save.

(** The files and blocks of the requests that load; [extend(None)] raises. *)
Definition load_lists (rs : list ReqMeta) : result (list GPUFileMetadata * list Z) :=
  let! l := map_result (λ r, match load_spec r with
                             | None => Ok ([], [])
                             | Some l => let! f := of_option TypeError (ls_gpu_files l) in
                                         let! b := of_option TypeError (block_ids_to_load l) in
                                         Ok (f, b)
                             end) rs in
  Ok (concat l.*1, concat l.*2).

Definition check_for_layer_need_load : py t bool :=
  let* w := get_st in
  passert (has_kvcaches w) ;;;
  let* (files, _) := lift (load_lists (md_requests (meta w))) in
  ret (negb (zlen files =? 0)).

Definition wait_for_layer_load : py t unit :=
  let* w := get_st in
  passert (has_kvcaches w) ;;;
  let* (files, blocks) := lift (load_lists (md_requests (meta w))) in
  if zlen files =? 0 then ret tt
  else on_engine (Engine.retrieve_layer (current_layer w) files blocks).

(** The tasks whose layer is below the number of layers, and the tasks moved on. *)
Definition due (n : Z) (ts : list IOSpec) : list IOSpec := filter (λ x, io_layer x < n) ts.
Definition advance (n : Z) (ts : list IOSpec) : list IOSpec :=
  (λ x, if io_layer x <? n then IOTask (io_gpu_file x) (io_block_id x) (io_layer x + 1) (io_request_id x)
        else x) <$> ts.

Definition set_tasks (ts : list IOSpec) : py t unit :=
  modify (λ w, set_meta (set_io (io_count (meta w)) (Some ts) (save_stream (meta w)) (meta w)) w).

Definition save_kv_layer : py t unit :=
  let* w := get_st in
  passert (has_kvcaches w) ;;;
  modify (set_current (current_layer w + 1)) ;;;
  if (io_count (meta w) =? 0) || negb (save_stream (meta w)) then ret tt
  else match io_tasks (meta w) with
       | None => ret tt
       | Some ts =>
           let d := due (num_layers w) ts in
           set_tasks (advance (num_layers w) ts) ;;;
           on_engine (Engine.store_layer (io_gpu_file <$> d) (io_block_id <$> d) (io_layer <$> d))
       end.

Definition save_kv_layer_async : py t unit :=
  let* w := get_st in
  passert (has_kvcaches w) ;;;
  modify (set_current (current_layer w + 1)) ;;;
  if io_count (meta w) =? 0 then ret tt
  else match io_tasks (meta w) with
       | None => ret tt
       | Some ts =>
           let d := due (num_layers w) ts in
           set_tasks (advance (num_layers w) ts) ;;;
           modify (λ w, set_pending (pending_store w ++
             [StoreTask (io_gpu_file <$> d) (io_block_id <$> d) (io_layer <$> d)]) w)
       end.

(** [_launch_pending_store_layer_tasks]: [budget -= 1] comes first and raises on [None];
    the loop runs at most once per pending task, which is the fuel. *)
Fixpoint launch_loop (fuel : nat) (budget : option Z) : py t unit := λ w,
  match fuel, pending_store w with
  | Datatypes.S f, x :: rest =>
      match budget with
      | None => (Raise TypeError, w)
      | Some b =>
          if 0 <? b then
            (on_engine (Engine.store_layer (sl_files x) (sl_blocks x) (sl_layers x)) ;;;
             launch_loop f (Some (b - 1))) (set_pending rest w)
          else (Ok tt, w)
      end
  | _, _ => (Ok tt, w)
  end.

Definition launch_io (budget : option Z) : py t unit := λ w,
  launch_loop (length (pending_store w)) budget w.

(** *** A forward pass and the transfers it causes *)

Abbreviation backend_of w := (Engine.backend (engine w)).

Definition set_backend b (w : t) : t := set_engine (Engine.set_backend b (engine w)) w.

(** What attention calls around a layer, with the asynchronous saving. *)
Definition layer_step : py t unit := wait_for_layer_load ;;; save_kv_layer_async.

Lemma read_layer_length mla st m p :
  length (GeminiBackend.read_layer mla st m p) = length m.
Proof.
  unfold GeminiBackend.read_layer.
  repeat case_match; try done; unfold GeminiBackend.py_set; by rewrite length_insert.
Qed.

Lemma wait_stream_length (b : GeminiBackend.t S) :
  length (GeminiBackend.kvcaches (GeminiBackend.wait_stream b)) = length (GeminiBackend.kvcaches b).
Proof.
  unfold GeminiBackend.wait_stream. simpl. generalize (GeminiBackend.kvcaches b).
  induction (GeminiBackend.load_queue b) as [|p q IH]; intros m; simpl; [done|].
  rewrite IH. apply read_layer_length.
Qed.

Lemma batch_get_length l f bs (b : GeminiBackend.t S) :
  length (GeminiBackend.kvcaches (GeminiBackend.layerwise_batch_get l f bs b).2)
  = length (GeminiBackend.kvcaches b).
Proof.
  unfold GeminiBackend.layerwise_batch_get, bind, modify, get_st, passert, lift.
  rewrite <- (wait_stream_length b).
  destruct (_ <=? _); [done|]. destruct (py_index _ _); [|done]. destruct (rassert _); [|done].
  unfold GeminiBackend.issue_read, bind, get_st, lift, modify. by destruct (GeminiBackend.gather _ _ _).
Qed.

Lemma has_kvcaches_length w w' :
  length (GeminiBackend.kvcaches (backend_of w')) = length (GeminiBackend.kvcaches (backend_of w)) →
  has_kvcaches w' = has_kvcaches w.
Proof.
  unfold has_kvcaches. destruct (GeminiBackend.kvcaches (backend_of w)),
    (GeminiBackend.kvcaches (backend_of w')); done.
Qed.

Lemma due_all n l ts : l < n → Forall (λ x, io_layer x = l) ts → due n ts = ts.
Proof.
  intros Hl. unfold due. induction 1 as [|x ts Hx Hts IH]; [done|].
  by rewrite filter_cons, decide_True, IH by lia.
Qed.

Lemma advance_all n l ts :
  l < n → Forall (λ x, io_layer x = l) ts → Forall (λ x, io_layer x = l + 1) (advance n ts).
Proof.
  intros Hl Hall. unfold advance. apply Forall_fmap, (Forall_impl _ _ _ Hall). intros x Hx. simpl.
  by rewrite (proj2 (Z.ltb_lt _ _)), <- Hx by lia.
Qed.

Lemma advance_same n ts :
  io_gpu_file <$> advance n ts = io_gpu_file <$> ts ∧ io_block_id <$> advance n ts = io_block_id <$> ts.
Proof.
  unfold advance. rewrite <- !list_fmap_compose. split; apply list_fmap_ext; intros i x _; simpl;
    by destruct (io_layer x <? n).
Qed.

(** The tasks that the asynchronous saving queues for a layer. *)
Definition layer_task (ts : list IOSpec) (l : Z) : store_layer_task :=
  StoreTask (io_gpu_file <$> ts) (io_block_id <$> ts) (replicate (length ts) l).

Lemma layers_replicate (ts : list IOSpec) l :
  Forall (λ x, io_layer x = l) ts → io_layer <$> ts = replicate (length ts) l.
Proof. induction 1 as [|x ts Hx Hts IH]; [done|]. by rewrite fmap_cons, Hx, IH. Qed.

Lemma layer_step_spec w files blocks ts l b' :
  has_kvcaches w = true → load_lists (md_requests (meta w)) = Ok (files, blocks) → files ≠ [] →
  io_count (meta w) ≠ 0 → io_tasks (meta w) = Some ts → Forall (λ x, io_layer x = l) ts →
  current_layer w = l → l < num_layers w → num_layers w = Engine.num_layers (engine w) →
  GeminiBackend.layerwise_batch_get l files blocks (backend_of w) = (Ok tt, b') →
  layer_step w = (Ok tt, Work (Engine.set_backend b' (engine w))
    (set_io (io_count (meta w)) (Some (advance (num_layers w) ts)) (save_stream (meta w)) (meta w))
    (task_queue w) (pending_store w ++ [layer_task ts l]) (l + 1) (num_layers w) (chunk_size w)).
Proof.
  intros Hk Hll Hf Hio Hts Hall Hc Hl Hn Hget.
  assert (wait_for_layer_load w = (Ok tt, set_backend b' w)) as Hw.
  { unfold wait_for_layer_load, bind, get_st, passert, lift. rewrite Hk. cbn [rassert].
    rewrite Hll. rewrite (proj2 (Z.eqb_neq (zlen files) 0))
      by (destruct files; [done|]; rewrite zlen_cons; pose proof (zlen_nonneg files); lia).
    unfold on_engine, Engine.retrieve_layer, bind, gets.
    rewrite (proj2 (Z.leb_gt (Engine.num_layers (engine w)) (current_layer w))) by lia.
    unfold Engine.on_backend. by rewrite Hc, Hget. }
  unfold layer_step, bind at 1. rewrite Hw.
  assert (has_kvcaches (set_backend b' w) = true) as Hk'.
  { rewrite <- Hk. apply has_kvcaches_length. simpl.
    pose proof (batch_get_length l files blocks (backend_of w)) as H1. by rewrite Hget in H1. }
  unfold save_kv_layer_async, bind, get_st, passert, lift. rewrite Hk'. cbn [rassert].
  unfold modify. cbn [meta set_backend set_engine set_current io_count io_tasks current_layer].
  rewrite (proj2 (Z.eqb_neq _ 0)), Hts by done. unfold set_tasks, modify. cbv zeta.
  cbn [num_layers set_current set_backend set_engine].
  rewrite (due_all _ l) by done. rewrite (layers_replicate ts l Hall), Hc. done.
Qed.

(** C18. A forward pass with the asynchronous saving drives exactly the prefetch
    pipeline of the backend - one call per layer, in the order of the layers - and
    leaves exactly one store task per layer, in order, each of them for all the step's
    blocks. *)
Theorem forward_pass_transfers w files blocks ts (n : nat) b' :
  has_kvcaches w = true → load_lists (md_requests (meta w)) = Ok (files, blocks) → files ≠ [] →
  io_count (meta w) ≠ 0 → io_tasks (meta w) = Some ts → Forall (λ x, io_layer x = 0) ts →
  current_layer w = 0 → Z.of_nat n ≤ num_layers w → num_layers w = Engine.num_layers (engine w) →
  for_each (seqZ 0 (Z.of_nat n)) (λ l, GeminiBackend.layerwise_batch_get l files blocks) (backend_of w)
    = (Ok tt, b') →
  ∃ w', for_each (seqZ 0 (Z.of_nat n)) (λ _, layer_step) w = (Ok tt, w')
    ∧ backend_of w' = b' ∧ current_layer w' = Z.of_nat n
    ∧ pending_store w' = pending_store w ++ (layer_task ts <$> seqZ 0 (Z.of_nat n)).
Proof.
  intros Hk Hll Hf Hio Hts Hall Hc Hn HL Hget.
  assert (∃ w' ts', for_each (seqZ 0 (Z.of_nat n)) (λ _, layer_step) w = (Ok tt, w')
    ∧ backend_of w' = b' ∧ current_layer w' = Z.of_nat n
    ∧ pending_store w' = pending_store w ++ (layer_task ts <$> seqZ 0 (Z.of_nat n))
    ∧ has_kvcaches w' = true ∧ md_requests (meta w') = md_requests (meta w)
    ∧ io_count (meta w') = io_count (meta w) ∧ io_tasks (meta w') = Some ts'
    ∧ Forall (λ x, io_layer x = Z.of_nat n) ts'
    ∧ io_gpu_file <$> ts' = io_gpu_file <$> ts ∧ io_block_id <$> ts' = io_block_id <$> ts
    ∧ num_layers w' = num_layers w ∧ Engine.num_layers (engine w') = Engine.num_layers (engine w))
    as (w' & _ & H1 & H2 & H3 & H4 & _); [|by exists w'].
  revert b' Hn Hget. induction n as [|n IH]; intros b' Hn Hget.
  - injection Hget as <-. exists w, ts. rewrite app_nil_r. repeat split; done.
  - rewrite for_each_seqZ_S in Hget. apply bind_ok in Hget as ([] & b1 & Hb1 & Hget).
    rewrite Z.add_0_l in Hget.
    destruct (IH b1) as (w1 & ts1 & W1 & W2 & W3 & W4 & W5 & W6 & W7 & W8 & W9 & W10 & W11 & W12 & W13);
      [lia|done|].
    pose proof (layer_step_spec w1 files blocks ts1 (Z.of_nat n) b') as Hstep.
    rewrite W2 in Hstep. rewrite W6, W7 in Hstep.
    specialize (Hstep W5 Hll Hf Hio W8 W9 W3). rewrite W12, W13 in Hstep.
    specialize (Hstep ltac:(lia) HL Hget).
    eexists _, (advance (num_layers w) ts1). rewrite for_each_seqZ_S. unfold bind. rewrite W1, Hstep.
    split; [done|]. cbn [engine meta pending_store current_layer num_layers].
    destruct (advance_same (num_layers w) ts1) as [A1 A2].
    repeat split; try done; try lia; try congruence.
    + rewrite W4, Nat2Z.inj_succ, <- Z.add_1_r, seqZ_app, fmap_app, app_assoc by lia. f_equal.
      unfold layer_task. rewrite W10, W11, Z.add_0_l.
      apply (f_equal length) in W10. rewrite !length_fmap in W10. by rewrite W10.
    + rewrite <- W5. apply has_kvcaches_length. simpl. rewrite W2.
      pose proof (batch_get_length (Z.of_nat n) files blocks b1) as H1. by rewrite Hget in H1.
    + rewrite Nat2Z.inj_succ, <- Z.add_1_r. apply advance_all; [lia|done].
Qed.

(** C37. [launch_io] with a budget for every pending task of a forward pass is the store
    pass of the backend, layer by layer, with its outcome; without a budget it raises
    [TypeError] as soon as a task is pending and launches none. *)
Theorem launch_io_store_pass w ts (n : nat) budget :
  pending_store w = layer_task ts <$> seqZ 0 (Z.of_nat n) → Z.of_nat n ≤ budget →
  (let '(r, w') := launch_io (Some budget) w in
   let '(r', b') := for_each (seqZ 0 (Z.of_nat n)) (λ l,
        GeminiBackend.layerwise_batch_put (io_gpu_file <$> ts) (io_block_id <$> ts)
          (replicate (length ts) l)) (backend_of w) in
   r = r' ∧ backend_of w' = b' ∧ (r = Ok tt → pending_store w' = []))
  ∧ ((0 < n)%nat → launch_io None w = (Raise TypeError, w)).
Proof.
  intros Hp Hb. split.
  - unfold launch_io. rewrite Hp, length_fmap, length_seqZ, Nat2Z.id.
    assert (∀ m budget w, Z.of_nat n ≤ budget →
      pending_store w = layer_task ts <$> seqZ m (Z.of_nat n) →
      let '(r, w') := launch_loop n (Some budget) w in
      let '(r', b') := for_each (seqZ m (Z.of_nat n)) (λ l,
        GeminiBackend.layerwise_batch_put (io_gpu_file <$> ts) (io_block_id <$> ts)
          (replicate (length ts) l)) (backend_of w) in
      r = r' ∧ backend_of w' = b' ∧ (r = Ok tt → pending_store w' = [])) as Hloop.
    { clear w Hp Hb. induction n as [|n IH]; intros m budget' w Hb Hp; [by repeat split|].
      rewrite seqZ_cons in Hp |- * by lia. cbn [fmap list_fmap launch_loop for_each] in Hp |- *.
      replace (Z.pred (Z.of_nat (Datatypes.S n))) with (Z.of_nat n) in * by lia.
      rewrite Hp. rewrite (proj2 (Z.ltb_lt 0 budget')) by lia.
      unfold bind, on_engine, Engine.store_layer, Engine.on_backend. cbn [engine set_pending layer_task sl_files sl_blocks sl_layers].
      destruct (GeminiBackend.layerwise_batch_put _ _ _ (backend_of w)) as [[[]|e] b1].
      - exact (IH (Z.succ m) (budget' - 1)
                 (set_engine (Engine.set_backend b1 (engine w))
                    (set_pending (layer_task ts <$> seqZ (Z.succ m) (Z.of_nat n)) w))
                 ltac:(lia) eq_refl).
      - done. }
    by apply Hloop.
  - intros Hn. unfold launch_io. rewrite Hp. destruct n as [|n]; [lia|].
    rewrite seqZ_cons by lia. rewrite fmap_cons. cbn [length launch_loop]. rewrite Hp.
    by rewrite seqZ_cons by lia.
Qed.

(** *** The synchronous saving never writes *)

Section laws.
Context `{!FileStoreLaws S}.

(** The calls of a step with the synchronous saving, as vLLM's attention layers make
    them; [wait_for_save] and [get_finished] do nothing. *)
Inductive call := CStart | CNeedLoad | CWait | CSave.

Definition run_call (x : call) (w : t) : t :=
  match x with
  | CStart => (start_load_kv w).2
  | CNeedLoad => (check_for_layer_need_load w).2
  | CWait => (wait_for_layer_load w).2
  | CSave => (save_kv_layer w).2
  end.

(** The contents of the GPU files are [blk]. *)
Definition contents (blk : Z → Z → kv_blob) (b : GeminiBackend.t S) : Prop :=
  ∃ fs, GeminiBackend.store b = Some fs ∧ fs_inv fs ∧ fs_block fs = blk.

Lemma same_store_contents blk (b b' : GeminiBackend.t S) :
  GeminiBackend.store b' = GeminiBackend.store b → contents blk b → contents blk b'.
Proof. intros Hs (fs & H1 & H2). exists fs. by rewrite Hs. Qed.

Lemma allocate_contents blk k b : contents blk b → contents blk (GeminiBackend.allocate k b).2.
Proof.
  intros (fs & Hfs & Hi & Hb). unfold GeminiBackend.allocate, CustomOps.gpu_open_file. rewrite Hfs.
  destruct (fs_open_file fs) as [o fs'] eqn:Ho.
  destruct (fs_open_spec fs o fs' Hi Ho) as (Hi' & _ & _ & Hb' & _).
  destruct o; exists fs'; simpl; by rewrite Hb'.
Qed.

Lemma batch_get_contents blk l f bs b :
  contents blk b → contents blk (GeminiBackend.layerwise_batch_get l f bs b).2.
Proof.
  apply same_store_contents.
  unfold GeminiBackend.layerwise_batch_get, bind, modify, get_st, passert, lift.
  destruct (_ <=? _); [done|]. destruct (py_index _ _); [|done]. destruct (rassert _); [|done].
  unfold GeminiBackend.issue_read, bind, get_st, lift, modify. by destruct (GeminiBackend.gather _ _ _).
Qed.

(** The engine's preparations keep the contents. *)
Definition eng_contents blk (e : Engine.t S) : Prop := contents blk (Engine.backend e).

Lemma on_backend_contents {A} blk (m : py (GeminiBackend.t S) A) e :
  (contents blk (Engine.backend e) → contents blk (m (Engine.backend e)).2) →
  eng_contents blk e → post (eng_contents blk) (λ _, True) (Engine.on_backend m e).
Proof.
  unfold Engine.on_backend, post, eng_contents. intros Hm He. specialize (Hm He).
  by destruct (m (Engine.backend e)) as [r b].
Qed.

Lemma load_loop_contents blk g bids m f b i e :
  eng_contents blk e → post (eng_contents blk) (λ _, True) (Engine.load_loop g bids m f b i e).
Proof.
  revert m f b i e. induction g as [|ex|[[s en] k] g IH]; intros m f b i e He; simpl;
    [by apply post_ret|by apply post_raise|].
  eapply post_bind; [by apply post_gets|]. intros c e1 _ H1 _. destruct c; [by apply IH|].
  eapply post_bind; [by apply on_backend_contents|]. intros o e2 _ H2 _.
  destruct o; [|by apply post_ret].
  eapply post_bind; [by apply post_lift|]. intros x e3 _ H3 _. by apply IH.
Qed.

Lemma store_loop_contents blk g bids ks f b i e :
  eng_contents blk e → post (eng_contents blk) (λ _, True) (Engine.store_loop g bids ks f b i e).
Proof.
  revert ks f b i e. induction g as [|ex|[[s en] k] g IH]; intros ks f b i e He; simpl;
    [by apply post_ret|by apply post_raise|].
  eapply post_bind; [by apply on_backend_contents|]. intros c e1 _ H1 _. destruct c; [by apply IH|].
  eapply post_bind; [apply on_backend_contents; [apply allocate_contents|done]|]. intros o e2 _ H2 _.
  destruct o; [|by apply post_ret].
  eapply post_bind; [by apply post_lift|]. intros x e3 _ H3 _. by apply IH.
Qed.

Lemma prepare_for_load_contents blk tk m bids e :
  eng_contents blk e → post (eng_contents blk) (λ _, True) (Engine.prepare_for_load tk m bids e).
Proof.
  intros He. eapply post_bind; [by apply post_lift|]. intros z e0 _ H0 _. eapply post_bind; [by apply post_gets|]. intros db e1 _ H1 _. by apply load_loop_contents.
Qed.

Lemma prepare_for_store_contents blk tk m bids off e :
  eng_contents blk e → post (eng_contents blk) (λ _, True) (Engine.prepare_for_store tk m bids off e).
Proof.
  intros He. eapply post_bind; [by apply post_gets|]. intros db e1 _ H1 _.
  eapply post_bind; [by apply store_loop_contents|]. intros [[ks f] b] e2 _ H2 _.
  eapply post_bind; [|intros [] e3 _ H3 _; by apply post_ret].
  apply post_modify. by destruct (Engine.lookup_server e2).
Qed.

Lemma retrieve_layer_contents blk l f bs e :
  eng_contents blk e → post (eng_contents blk) (λ _, True) (Engine.retrieve_layer l f bs e).
Proof.
  intros He. eapply post_bind; [by apply post_gets|]. intros n e1 _ H1 _.
  destruct (n <=? l); [by apply post_ret|]. apply on_backend_contents; [apply batch_get_contents|done].
Qed.

(** The invariant of the synchronous path. *)
Definition unwritten blk (w : t) : Prop :=
  eng_contents blk (engine w) ∧ save_stream (meta w) = false.

Lemma on_engine_unwritten {A} blk (m : py (Engine.t S) A) w :
  (∀ e, eng_contents blk e → post (eng_contents blk) (λ _, True) (m e)) →
  unwritten blk w → post (unwritten blk) (λ _, True) (on_engine m w).
Proof.
  intros Hm [He Hs]. unfold on_engine, post. destruct (Hm (engine w) He) as [H1 _].
  destruct (m (engine w)) as [r e]. done.
Qed.

Lemma on_queue_unwritten {A} blk (m : py TaskQueue.t A) w :
  unwritten blk w → post (unwritten blk) (λ _, True) (on_queue m w).
Proof. intros Hw. unfold on_queue, post. destruct (m (task_queue w)) as [r q]. by split. Qed.

Lemma get_st_unwritten blk w : unwritten blk w → post (unwritten blk) (λ _, True) (get_st w).
Proof. intros Hw. by split. Qed.

Lemma lift_unwritten {A} blk (r : result A) w :
  unwritten blk w → post (unwritten blk) (λ _, True) (lift r w).
Proof. intros Hw. by split. Qed.

Lemma modify_unwritten blk (f : t → t) w :
  unwritten blk w → engine (f w) = engine w →
  save_stream (meta (f w)) = save_stream (meta w) ∨ save_stream (meta (f w)) = false →
  post (unwritten blk) (λ _, True) (modify f w).
Proof.
  intros [Hw Hs] He Hf. apply post_modify. split; [by rewrite He|].
  destruct Hf as [Hf|Hf]; by rewrite Hf.
Qed.

Ltac step_unwritten :=
  match goal with
  | |- post _ _ (bind _ _ _) => eapply (post_bind _ (λ _, True)); [|intros ? ? _ ? _]
  | |- post _ _ (ret _ _) => by apply post_ret
  | |- post _ _ (get_st _) => by apply get_st_unwritten
  | |- post _ _ (lift _ _) => by apply lift_unwritten
  | |- post _ _ (passert _ _) => by apply lift_unwritten
  | |- post _ _ (modify _ _) => apply modify_unwritten; [done|done|first [by left|by right]]
  | |- post _ _ (put_request _ _ _) => apply modify_unwritten; [done|done|by left]
  | |- post _ _ (on_queue _ _) => by apply on_queue_unwritten
  | |- post _ _ (on_engine (Engine.prepare_for_load _ _ _) _) =>
      apply on_engine_unwritten; [by intros; apply prepare_for_load_contents|done]
  | |- post _ _ (on_engine (Engine.prepare_for_store _ _ _ _) _) =>
      apply on_engine_unwritten; [by intros; apply prepare_for_store_contents|done]
  | |- post _ _ (on_engine (Engine.retrieve_layer _ _ _) _) =>
      apply on_engine_unwritten; [by intros; apply retrieve_layer_contents|done]
  | |- post _ _ (match ?x with _ => _ end _) => destruct x
  | |- post _ _ (let '_ := ?x in _) => destruct x
  end.

Lemma load_request_unwritten blk i w :
  unwritten blk w → post (unwritten blk) (λ _, True) (load_request i w).
Proof. intros Hw. unfold load_request. repeat step_unwritten. Qed.

Lemma save_request_unwritten blk i w :
  unwritten blk w → post (unwritten blk) (λ _, True) (save_request i w).
Proof. intros Hw. unfold save_request. repeat step_unwritten. Qed.

Lemma start_unwritten blk w :
  unwritten blk w → post (unwritten blk) (λ _, True) (start_load_kv w).
Proof.
  intros Hw. unfold start_load_kv, prepare_for_load, prepare_for_save.
  repeat first
    [ step_unwritten
    | match goal with
      | |- post _ _ (map_each _ load_request _) =>
          eapply post_weaken; [apply (post_map_each _ (λ _ _, True)); [|done]|done];
          intros; by apply load_request_unwritten
      | |- post _ _ (map_each _ save_request _) =>
          eapply post_weaken; [apply (post_map_each _ (λ _ _, True)); [|done]|done];
          intros; by apply save_request_unwritten
      end ].
Qed.

(** With the synchronous saving, which is the one vLLM's attention layers call, no GPU
    file is ever written: the step's metadata never gets a save stream, so that over any
    sequence of the connector's calls the contents of every file stay as they were -
    while [start_load_kv] has bound the step's chunks to new files. *)
Theorem synchronous_saving_never_writes (calls : list call) w fs :
  save_stream (meta w) = false →
  GeminiBackend.store (backend_of w) = Some fs → fs_inv fs →
  let w' := foldl (λ w x, run_call x w) w calls in
  save_stream (meta w') = false
  ∧ ∃ fs', GeminiBackend.store (backend_of w') = Some fs' ∧ fs_block fs' = fs_block fs.
Proof.
  intros Hs Hst Hi.
  assert (unwritten (fs_block fs) w) as Hw by (split; [by exists fs|done]). clear Hs Hst Hi.
  simpl. revert w Hw. induction calls as [|x calls IH]; intros w Hw; simpl.
  - destruct Hw as [(fs' & H1 & _ & H2) H3]. split; [done|]. by exists fs'.
  - apply IH. destruct x; simpl.
    + by apply start_unwritten.
    + apply (get_st_unwritten (fs_block fs)) in Hw as [Hw _]. simpl in Hw.
      assert (post (unwritten (fs_block fs)) (λ _, True) (check_for_layer_need_load w)) as [? _]; [|done].
      unfold check_for_layer_need_load. repeat step_unwritten.
    + assert (post (unwritten (fs_block fs)) (λ _, True) (wait_for_layer_load w)) as [? _]; [|done].
      unfold wait_for_layer_load. repeat step_unwritten.
    + unfold save_kv_layer, bind, get_st, passert, lift, modify.
      destruct (rassert (has_kvcaches w)); [|done].
      assert (save_stream (meta w) = false) as -> by apply Hw. by rewrite orb_true_r.
Qed.
End laws.
End worker.
Arguments t : clear implicits.

(** *** Witnesses *)

Abbreviation backend_of w := (Engine.backend (engine w)).

Definition demo_engine : Engine.t GpuFS.t :=
  Engine.Eng (Chunked.DB (Some 2) (Some false) (Some Engine.demo_meta))
    (GeminiBackend.demo GeminiBackend.demo_store) [] None 2.

Definition demo_meta_loading : metadata :=
  StepMeta [Meta "req" [10; 11; 12; 13] [] [1; 0] None
              (Some (Load 0 4 true (Some GeminiBackend.demo_files) (Some [1; 0])))]
    1 "prefill" 1 (Some [IOTask (GPUFile 2 (GeminiBackend.demo_key "a")) 2 0 EmptyString]) false.

Definition demo_worker : t GpuFS.t :=
  Work demo_engine demo_meta_loading TaskQueue.create [] 0 2 2.

Definition demo_tasks : list IOSpec :=
  [IOTask (GPUFile 2 (GeminiBackend.demo_key "a")) 2 0 EmptyString].

Example forward_pass_transfers_witness :
  let pipeline := for_each (seqZ 0 2) (λ l,
    GeminiBackend.layerwise_batch_get l GeminiBackend.demo_files [1; 0]) (backend_of demo_worker) in
  ∃ w', for_each (seqZ 0 2) (λ _, layer_step) demo_worker = (Ok tt, w')
    ∧ backend_of w' = pipeline.2 ∧ current_layer w' = 2
    ∧ pending_store w' = [] ++ (layer_task demo_tasks <$> seqZ 0 2).
Proof.
  apply (forward_pass_transfers demo_worker GeminiBackend.demo_files [1; 0] demo_tasks 2).
  all: try reflexivity; try done.
  - repeat constructor.
Defined.

(** The worker with the two tasks of a forward pass pending. *)
Definition demo_pending : t GpuFS.t :=
  set_pending (layer_task demo_tasks <$> seqZ 0 2) demo_worker.

Example launch_io_store_pass_witness :
  (let '(r, w') := launch_io (Some 8) demo_pending in
   let '(r', b') := for_each (seqZ 0 2) (λ l,
        GeminiBackend.layerwise_batch_put (io_gpu_file <$> demo_tasks) (io_block_id <$> demo_tasks)
          (replicate (length demo_tasks) l)) (backend_of demo_pending) in
   r = r' ∧ backend_of w' = b' ∧ (r = Ok tt → pending_store w' = []))
  ∧ ((0 < 2)%nat → launch_io None demo_pending = (Raise TypeError, demo_pending)).
Proof. apply (launch_io_store_pass demo_pending demo_tasks 2 8); [reflexivity|lia]. Defined.

(** A step that saves two chunks of a new request. *)
Definition demo_saving : t GpuFS.t :=
  Work Engine.demo
    (fresh_metadata (Connector.ConnMeta
       [Meta "req" [10; 11; 12; 13] [] [1; 0] (Some (Save "req" 0 true None None)) None] 4 "prefill"))
    TaskQueue.create [] 0 2 2.

Definition demo_simulate (n e : Z) (stage : string) : result (Z * bool) := Ok (e, true).

Example synchronous_saving_never_writes_witness :
  let w' := foldl (λ w x, run_call demo_simulate x w) demo_saving [CStart; CWait; CSave; CWait; CSave] in
  save_stream (meta w') = false
  ∧ ∃ fs', GeminiBackend.store (backend_of w') = Some fs'
           ∧ fs_block fs' = fs_block (GpuFS.create 3 1).
Proof.
  apply (synchronous_saving_never_writes demo_simulate [CStart; CWait; CSave; CWait; CSave]
           demo_saving (GpuFS.create 3 1)); [reflexivity|reflexivity|].
  apply GpuFS.create_inv. lia.
Defined.

(** The step has bound both chunks to files and holds their tasks. *)
Example saving_binds_unwritten_files :
  let w' := foldl (λ w x, run_call demo_simulate x w) demo_saving [CStart; CWait; CSave; CWait; CSave] in
  length (GeminiBackend.dict (backend_of w')) = 2%nat ∧ io_count (meta w') = 2.
Proof. vm_compute. done. Qed.
End Worker.

(** *** [InfiniKVConnectorV1._align_num_blocks_for_geminifs]

    [vllm-infinikv/vllm/distributed/kv_transfer/kv_connector/v1/infinikv_connector.py]:
    the number of KV cache blocks is rounded down until every tensor fills whole pages
    of 65536 bytes. *)
Module Align.

Definition GPU_PAGE_SIZE : Z := 65536.

(** One round of the loop over the tensors' sizes. *)
Definition align_step (num_blocks aligned size : Z) : Z :=
  let per_block_bytes := size / num_blocks in
  if per_block_bytes =? 0 then aligned
  else if (per_block_bytes * num_blocks) mod GPU_PAGE_SIZE =? 0 then aligned
  else
    let blocks_per_align := GPU_PAGE_SIZE / Z.gcd per_block_bytes GPU_PAGE_SIZE in
    Z.min aligned (num_blocks / blocks_per_align * blocks_per_align).

(** The aligned number of blocks and the tensors' sizes behind it. *)
Definition align_num_blocks (num_blocks : Z) (sizes : list Z) : Z * list Z :=
  if num_blocks <=? 0 then (num_blocks, sizes)
  else
    let aligned := foldl (align_step num_blocks) num_blocks sizes in
    if aligned <? num_blocks
    then (aligned, (λ s, s / num_blocks * aligned) <$> sizes)
    else (num_blocks, sizes).

(** [n] blocks of [p] bytes fill whole pages. *)
Definition whole_pages (p n : Z) : Prop := (GPU_PAGE_SIZE | p * n).

Definition per_align (p : Z) : Z := GPU_PAGE_SIZE / Z.gcd p GPU_PAGE_SIZE.

Lemma per_align_spec p : 0 < p → 0 < per_align p ∧ (∀ n, whole_pages p n ↔ (per_align p | n))
  ∧ (per_align p | GPU_PAGE_SIZE).
Proof.
  intros Hp. unfold whole_pages, per_align. set (g := Z.gcd p GPU_PAGE_SIZE).
  assert (0 < g) as Hg.
  { pose proof (Z.gcd_nonneg p GPU_PAGE_SIZE). assert (g ≠ 0); [|unfold g in *; lia].
    intros Hz. apply Z.gcd_eq_0_l in Hz. lia. }
  destruct (Z.gcd_divide_l p GPU_PAGE_SIZE) as [a Ha]. destruct (Z.gcd_divide_r p GPU_PAGE_SIZE) as [b Hb].
  fold g in Ha, Hb.
  assert (GPU_PAGE_SIZE / g = b) as Hq by (rewrite Hb at 1; by rewrite Z.div_mul by lia).
  assert (0 < b) by (assert (GPU_PAGE_SIZE = 65536) by done; nia).
  rewrite Hq. split; [done|]. split; [|exists g; lia].
  assert (Z.gcd a b = 1) as Hco.
  { pose proof (Z.gcd_div_gcd p GPU_PAGE_SIZE g ltac:(lia) eq_refl) as Hd.
    rewrite Hq in Hd. rewrite Ha in Hd at 1. by rewrite Z.div_mul in Hd by lia. }
  intros n. rewrite Hb, Ha. split.
  - intros Hd. replace (a * g * n) with ((a * n) * g) in Hd by lia.
    apply Z.mul_divide_cancel_r in Hd; [|lia]. apply (Z.gauss b a n); [done|]. by rewrite Z.gcd_comm.
  - intros [m ->]. exists (a * m). lia.
Qed.

Lemma divides_pow2 (n : nat) d : 0 < d → (d | 2 ^ Z.of_nat n) → ∃ k, 0 ≤ k ∧ d = 2 ^ k.
Proof.
  revert d. induction n as [|n IH]; intros d Hd Hdiv.
  - exists 0. split; [done|]. apply Z.divide_1_r_nonneg in Hdiv; [done|lia].
  - rewrite Nat2Z.inj_succ, Z.pow_succ_r in Hdiv by lia.
    destruct (Z.Even_or_Odd d) as [[m ->]|[m ->]].
    + apply Z.mul_divide_cancel_l in Hdiv; [|lia].
      destruct (IH m ltac:(lia) Hdiv) as (k & Hk & ->). exists (k + 1). split; [lia|].
      by rewrite Z.pow_add_r, Z.mul_comm by lia.
    + apply Z.gauss in Hdiv; [by apply IH|].
      apply Z.bezout_1_gcd. exists 1, (- m). lia.
Qed.

(** The divisors of a page are totally ordered by divisibility. *)
Lemma page_divisors x y :
  0 < x → 0 < y → (x | GPU_PAGE_SIZE) → (y | GPU_PAGE_SIZE) → x ≤ y → (x | y).
Proof.
  intros Hx Hy Dx Dy Hle.
  destruct (divides_pow2 16 x Hx Dx) as (i & Hi & ->).
  destruct (divides_pow2 16 y Hy Dy) as (j & Hj & ->).
  assert (i ≤ j) by (apply (Z.pow_le_mono_r_iff 2); lia).
  exists (2 ^ (j - i)). rewrite <- Z.pow_add_r by lia. f_equal. lia.
Qed.

(** What the loop has reached behind the tensors of [ps] bytes per block: [n] rounded down
    to a multiple of the greatest of their alignments. *)
Definition reached (n : Z) (ps : list Z) (a : Z) : Prop :=
  ∃ B, 0 < B ∧ (B | GPU_PAGE_SIZE) ∧ Forall (λ p, (per_align p | B)) ps
    ∧ (B = 1 ∨ ∃ p, p ∈ ps ∧ B = per_align p) ∧ a = n / B * B.

Lemma round_down_max n b m : 0 < b → (b | m) → m ≤ n → m ≤ n / b * b.
Proof. intros Hb [q ->] Hm. apply Z.mul_le_mono_nonneg_r; [lia|]. apply Z.div_le_lower_bound; lia. Qed.

Lemma round_down_le n b : 0 < b → n / b * b ≤ n.
Proof. intros. pose proof (Z.mul_div_le n b). lia. Qed.

Lemma align_step_reached n ps a p :
  0 < n → 0 < p → Forall (λ p, 0 < p) ps → reached n ps a →
  reached n (ps ++ [p]) (align_step n a (p * n)).
Proof.
  intros Hn Hp Hps (B & HB & HBp & Hall & HBin & ->).
  destruct (per_align_spec p Hp) as (Hb & Hiff & Hbp).
  assert (align_step n (n / B * B) (p * n)
          = if decide (per_align p | n) then n / B * B
            else Z.min (n / B * B) (n / per_align p * per_align p)) as ->.
  { unfold align_step. rewrite Z.div_mul by lia. rewrite (proj2 (Z.eqb_neq p 0)) by lia.
    fold (per_align p). destruct (decide (per_align p | n)) as [Hd|Hd].
    - apply Hiff in Hd. by rewrite (proj2 (Z.eqb_eq _ 0)) by by apply Z.mod_divide.
    - rewrite (proj2 (Z.eqb_neq _ 0)); [done|]. intros Hz. apply Hd, Hiff. by apply Z.mod_divide in Hz. }
  destruct (decide (per_align p ≤ B)) as [Hle|Hgt].
  - pose proof (page_divisors _ _ Hb HB Hbp HBp Hle) as Hdiv.
    exists B. split; [done|]. split; [done|]. split; [by apply Forall_app; split; [|constructor]|].
    split.
    { destruct HBin as [?|(q & Hq & ?)]; [by left|right]. exists q. split; [|done].
      apply elem_of_app. by left. }
    destruct (decide _); [done|]. apply Z.min_l. apply round_down_max; [done| |by apply round_down_le].
    etrans; [exact Hdiv|]. by exists (n / B).
  - assert (B ≤ per_align p) as Hle by lia.
    pose proof (page_divisors _ _ HB Hb HBp Hbp Hle) as Hdiv.
    exists (per_align p). split; [done|]. split; [done|]. split; [|split].
    + apply Forall_app. split; [|by constructor]. apply (Forall_impl _ _ _ Hall).
      intros q Hq. by etrans.
    + right. exists p. split; [|done]. apply elem_of_app. right. by left.
    + destruct (decide (per_align p | n)) as [Hd|Hd].
      * apply Z.le_antisymm.
        -- etrans; [by apply round_down_le|]. by apply round_down_max.
        -- etrans; [by apply round_down_le|]. apply round_down_max; [done| |done]. by etrans.
      * apply Z.min_r. apply round_down_max; [done| |by apply round_down_le].
        etrans; [exact Hdiv|]. by exists (n / per_align p).
Qed.

Lemma align_fold_reached n ps qs a :
  0 < n → Forall (λ p, 0 < p) ps → Forall (λ p, 0 < p) qs → reached n ps a →
  reached n (ps ++ qs) (foldl (align_step n) a ((λ p, p * n) <$> qs)).
Proof.
  intros Hn Hps Hqs. revert ps a Hps. induction Hqs as [|q qs Hq Hqs IH]; intros ps a Hps Ha; simpl.
  - by rewrite app_nil_r.
  - rewrite (cons_middle q ps qs), app_assoc. apply IH.
    + apply Forall_app. split; [done|by constructor].
    + by apply align_step_reached.
Qed.

(** The alignment answers the largest number of blocks, up to the given one, with
    which every KV cache tensor fills whole pages, and rewrites every tensor's size to
    that many blocks of its own size - even though each tensor is rounded alone and the
    minimum is taken. *)
Theorem align_largest_whole_pages (n : Z) (ps : list Z) :
  0 < n → Forall (λ p, 0 < p) ps →
  let '(a, sizes) := align_num_blocks n ((λ p, p * n) <$> ps) in
  0 ≤ a ≤ n ∧ sizes = (λ p, p * a) <$> ps
  ∧ Forall (λ s, (GPU_PAGE_SIZE | s)) sizes
  ∧ ∀ m, m ≤ n → Forall (λ p, (GPU_PAGE_SIZE | p * m)) ps → m ≤ a.
Proof.
  intros Hn Hps. unfold align_num_blocks. rewrite (proj2 (Z.leb_gt n 0)) by lia.
  destruct (align_fold_reached n [] ps n Hn) as (B & HB & HBp & Hall & HBin & ->);
    [constructor|done| |].
  { exists 1. split; [done|]. split; [apply Z.divide_1_l|]. split; [constructor|]. split; [by left|].
    rewrite Z.div_1_r. lia. }
  simpl in Hall, HBin. pose proof (round_down_le n B HB) as Hle.
  assert (0 ≤ n / B * B) as Hge by (apply Z.mul_nonneg_nonneg; [apply Z.div_pos|]; lia).
  assert (∀ m, m ≤ n → Forall (λ p, (GPU_PAGE_SIZE | p * m)) ps → m ≤ n / B * B) as Hmax.
  { intros m Hm Hw. apply round_down_max; [done| |done].
    destruct HBin as [->|(p & Hp & ->)]; [apply Z.divide_1_l|].
    rewrite Forall_forall in Hw, Hps. destruct (per_align_spec p (Hps p Hp)) as (_ & Hiff & _).
    apply Hiff. by apply Hw. }
  assert (Forall (λ s, (GPU_PAGE_SIZE | s)) ((λ p, p * (n / B * B)) <$> ps)) as Hpages.
  { apply Forall_fmap. rewrite Forall_forall in Hall, Hps |- *. intros p Hp. simpl.
    destruct (per_align_spec p (Hps p Hp)) as (_ & Hiff & _). apply Hiff.
    etrans; [by apply Hall|]. by exists (n / B). }
  destruct (n / B * B <? n) eqn:E; zbool.
  - assert ((λ s, s / n * (n / B * B)) <$> ((λ p, p * n) <$> ps) = (λ p, p * (n / B * B)) <$> ps) as Hs.
    { rewrite <- list_fmap_compose. apply list_fmap_ext. intros i p _. simpl. by rewrite Z.div_mul by lia. }
    rewrite Hs. done.
  - assert (n / B * B = n) as Heq by lia. rewrite Heq in Hpages, Hmax.
    split; [lia|]. done.
Qed.

Example align_largest_whole_pages_witness :
  let '(a, sizes) := align_num_blocks 1001 ((λ p, p * 1001) <$> [147456; 65536; 40960]) in
  0 ≤ a ≤ 1001 ∧ sizes = (λ p, p * a) <$> [147456; 65536; 40960]
  ∧ Forall (λ s, (GPU_PAGE_SIZE | s)) sizes
  ∧ ∀ m, m ≤ 1001 → Forall (λ p, (GPU_PAGE_SIZE | p * m)) [147456; 65536; 40960] → m ≤ a.
Proof. apply (align_largest_whole_pages 1001 [147456; 65536; 40960]); [lia|repeat constructor]. Defined.

Example align_demo : (align_num_blocks 1001 ((λ p, p * 1001) <$> [147456; 65536; 40960])).1 = 1000.
Proof. reflexivity. Qed.
End Align.
