(* ===== verification/Controller.v ===== *)
(** [infinikv/infinikv/v1/cache_controller]: the controller that follows which instance
    holds which chunk ([KVController]) and which workers are reachable where
    ([RegistrationController]), the executor that forwards a clear to the workers, the
    dispatch of their messages, and the worker's own loop steps.  The network is left
    out: a batch is a list of messages, a worker's answer is a function. *)
From S2P Require Export Engine.
From stdpp Require Import options.

Module Controller.

(** [KVChunkMetadata]. *)
Record chunk := Chunk { instance_id : string; worker_id : Z; location : string }.

#[export] Instance chunk_eq_dec : EqDecision chunk.
Proof. solve_decision. Defined.

(** The messages a worker sends ([WorkerMsg]). *)
Inductive worker_msg :=
  | RegisterMsg (i : string) (w : Z) (ip : string) (port : Z)
  | DeRegisterMsg (i : string) (w : Z) (ip : string) (port : Z)
  | KVAdmitMsg (i : string) (w : Z) (key : string) (loc : string)
  | KVEvictMsg (i : string) (w : Z) (key : string) (loc : string)
  | UnknownWorkerMsg.

(** The state of both controllers; a socket is named by its address. *)
Record t := Ctl {
  kv_pool : list (string * list chunk);
  worker_mapping : list (string * list Z);
  socket_mapping : list (string * Z * (string * Z));
  instance_mapping : list (string * string)
}.

Definition init : t := Ctl [] [] [] [].

Definition set_pool p (s : t) : t := Ctl p (worker_mapping s) (socket_mapping s) (instance_mapping s).
Definition set_workers m (s : t) : t := Ctl (kv_pool s) m (socket_mapping s) (instance_mapping s).
Definition set_sockets m (s : t) : t := Ctl (kv_pool s) (worker_mapping s) m (instance_mapping s).
Definition set_instances m (s : t) : t := Ctl (kv_pool s) (worker_mapping s) (socket_mapping s) m.

(** *** [KVController] *)

(** [kv_admit] tests the instance id, not the key, for membership. *)
Definition kv_admit (i : string) (w : Z) (key loc : string) : py t unit :=
  modify (λ s, if od_mem i (kv_pool s) then s else set_pool (od_set key [] (kv_pool s)) s) ;;;
  let* s := get_st in
  let* l := lift (of_option KeyError (od_get key (kv_pool s))) in
  modify (λ s, set_pool (od_set key (l ++ [Chunk i w loc]) (kv_pool s)) s).

Definition evict (i : string) (w : Z) (key loc : string) : py t unit :=
  let* s := get_st in
  match od_get key (kv_pool s) with
  | None => ret tt
  | Some l =>
      match filter (λ m, m ≠ Chunk i w loc) l with
      | [] => modify (λ s, set_pool (od_del key (kv_pool s)) s)
      | remaining => modify (λ s, set_pool (od_set key remaining (kv_pool s)) s)
      end
  end.

(** The loop of [deregister] over the keys of the dictionary: a deletion changes its
    size, and the iterator's next step raises. *)
Fixpoint kv_deregister_loop (keys : list string) (i : string) (w : Z) : py t unit :=
  match keys with
  | [] => ret tt
  | key :: rest =>
      let* s := get_st in
      let* l := lift (of_option KeyError (od_get key (kv_pool s))) in
      match filter (λ m, ¬ (instance_id m = i ∧ worker_id m = w)) l with
      | [] => modify (λ s, set_pool (od_del key (kv_pool s)) s) ;;; raise RuntimeError
      | remaining =>
          modify (λ s, set_pool (od_set key remaining (kv_pool s)) s) ;;;
          kv_deregister_loop rest i w
      end
  end.

Definition kv_deregister (i : string) (w : Z) : py t unit :=
  let* s := get_st in kv_deregister_loop (od_keys (kv_pool s)) i w.

(** The token database of the controller: made without a configuration, with a chunk
    size of 256 set afterwards. *)
Definition controller_db : Chunked.t := Chunked.DB (Some 256) None None.

(** The loop of [lookup]: instance to location and matched tokens. *)
Fixpoint lookup_loop (g : gen (Z * Z * string)) (pool : list (string * list chunk))
    (layout : list (string * (string * Z))) : result (list (string * (string * Z))) :=
  match g with
  | GEnd => Ok layout
  | GRaise e => Raise e
  | GYield (_, en, key) g' =>
      match od_get key pool with
      | None => Ok layout
      | Some l =>
          let! c := py_index l 0 in
          lookup_loop g' pool (od_set (instance_id c) (location c, en) layout)
      end
  end.

Definition lookup (db : Chunked.t) (tokens : token_seq) (s : t)
    : result (list (string * (string * Z))) :=
  lookup_loop (Chunked.process_tokens_hash db tokens None) (kv_pool s) [].

(** *** [RegistrationController] *)

Definition get_socket (i : string) (w : Z) (s : t) : option (string * Z) :=
  od_get (i, w) (socket_mapping s).

Definition get_workers (i : string) (s : t) : list Z := default [] (od_get i (worker_mapping s)).

Definition get_instance_id (ip : string) (s : t) : option string := od_get ip (instance_mapping s).

Definition register (i : string) (w : Z) (ip : string) (port : Z) : py t unit :=
  modify (λ s, set_instances (od_set ip i (instance_mapping s)) s) ;;;
  modify (λ s, set_sockets (od_set (i, w) (ip, port) (socket_mapping s)) s) ;;;
  modify (λ s, set_workers (od_set i (get_workers i s ++ [w]) (worker_mapping s)) s).

(** [l.remove(x)]: the first occurrence, or [ValueError]. *)
Fixpoint list_remove (x : Z) (l : list Z) : result (list Z) :=
  match l with
  | [] => Raise ValueError
  | y :: l' => if decide (x = y) then Ok l' else let! r := list_remove x l' in Ok (y :: r)
  end.

(** [deregister]; the coroutine [kv_controller.deregister(...)] is created and never
    awaited, so that the pool stays as it is. *)
Definition deregister (i : string) (w : Z) (ip : string) : py t unit :=
  modify (λ s, set_instances (od_del ip (instance_mapping s)) s) ;;;
  let* s := get_st in
  match od_get i (worker_mapping s) with
  | None => ret tt
  | Some l =>
      let* l' := lift (list_remove w l) in
      modify (λ s, set_workers (match l' with
                                | [] => od_del i (worker_mapping s)
                                | _ => od_set i l' (worker_mapping s)
                                end) s)
  end ;;;
  modify (λ s, set_sockets (od_del (i, w) (socket_mapping s)) s).

(** *** [InfiniKVClusterExecutor] *)

(** A worker's answer to [ClearWorkerMsg]. *)
Inductive worker_reply := ClearWorkerRet (success : bool) | WorkerError (e : string).

(** What [execute] answers. *)
Inductive executor_reply := ClearRet (success : bool) | ErrorMsg (kind : string).

(** The operations of the cluster executor that [execute] finds by their name. *)
Inductive operation := OpClear (i : string) (tokens : list Z) | OpPin | OpCompress | OpMove
                     | OpHealth | OpCheckFinish | OpOther.

(** [result.success] of every answer while all before were successes; an error message has
    no such field. *)
Fixpoint all_success (rs : list worker_reply) (success : bool) : result bool :=
  match rs with
  | [] => Ok success
  | r :: rs' =>
      if success then match r with
                      | ClearWorkerRet b => all_success rs' b
                      | WorkerError _ => Raise AttributeError
                      end
      else all_success rs' success
  end.

(** The sockets of the workers, up to the first that has none. *)
Fixpoint sockets_of (i : string) (ws : list Z) (s : t) : option (list (string * Z)) :=
  match ws with
  | [] => Some []
  | w :: ws' => match get_socket i w s with
                | None => None
                | Some a => (λ l, a :: l) <$> sockets_of i ws' s
                end
  end.

Definition executor_clear (reply : string * Z → list Z → worker_reply) (i : string) (tokens : list Z)
    (s : t) : result executor_reply :=
  match sockets_of i (get_workers i s) s with
  | None => Ok (ErrorMsg "not registered")
  | Some l => let! b := all_success ((λ a, reply a tokens) <$> l) true in Ok (ClearRet b)
  end.

(** [execute]: [AttributeError] and the others become error messages. *)
Definition execute (reply : string * Z → list Z → worker_reply) (o : operation) (s : t) : executor_reply :=
  let r := match o with
           | OpClear i tokens => executor_clear reply i tokens s
           | OpPin | OpCompress | OpMove | OpHealth | OpCheckFinish => Raise NotImplementedError
           | OpOther => Raise AttributeError
           end in
  match r with
  | Ok m => m
  | Raise AttributeError => ErrorMsg "not supported"
  | Raise _ => ErrorMsg "failed"
  end.

(** *** [InfiniKVControllerManager] *)

(** The messages of an orchestrator: [HealthMsg], [ClearMsg], [PinMsg], [CompressMsg],
    [MoveMsg] and [CheckFinishMsg] are sent on to the executor. *)
Inductive orch_msg :=
  | LookupMsg (tokens : token_seq)
  | QueryInstMsg (ip : string)
  | ExecMsg (o : operation)
  | UnknownOrchMsg.

Inductive orch_ret :=
  | LookupRet (layout : list (string * (string * Z)))
  | QueryInstRet (i : option string)
  | ExecRet (r : executor_reply).

Inductive msg := MWorker (m : worker_msg) | MOrch (m : orch_msg) | MOther.

Definition handle_worker_message (m : worker_msg) : py t unit :=
  match m with
  | RegisterMsg i w ip port => register i w ip port
  | DeRegisterMsg i w ip _ => deregister i w ip
  | KVAdmitMsg i w key loc => kv_admit i w key loc
  | KVEvictMsg i w key loc => evict i w key loc
  | UnknownWorkerMsg => ret tt
  end.

(** [handle_orchestration_message]: the answers, by the state; none changes it. *)
Definition handle_orchestration_message (reply : string * Z → list Z → worker_reply) (m : orch_msg)
    (s : t) : result (option orch_ret) :=
  match m with
  | LookupMsg tokens => let! l := lookup controller_db tokens s in Ok (Some (LookupRet l))
  | QueryInstMsg ip => Ok (Some (QueryInstRet (get_instance_id ip s)))
  | ExecMsg o => Ok (Some (ExecRet (execute reply o s)))
  | UnknownOrchMsg => Ok None
  end.

(** One round of [handle_batched_request]: the answers to orchestration messages are
    dropped; the exception of a message is logged, and the messages behind it in the batch
    are not handled. *)
Definition handle_msg (reply : string * Z → list Z → worker_reply) (m : msg) : py t unit :=
  match m with
  | MWorker w => handle_worker_message w
  | MOrch o => let* s := get_st in let* _ := lift (handle_orchestration_message reply o s) in ret tt
  | MOther => ret tt
  end.

Definition handle_batch reply (l : list msg) (s : t) : t := (for_each l (handle_msg reply) s).2.

(** *** [InfiniKVWorker] *)

(** [batched_get_msg] on a queue that holds messages: the blocking first one and up to
    [max_bsz - 1] more; the batch and the rest of the queue. *)
Definition batched_get_msg {A} (max_bsz : Z) (queue : list A) : list A * list A :=
  let n := S (Z.to_nat (max_bsz - 1)) in (take n queue, drop n queue).

(** [handle_request] on a [ClearWorkerMsg], given the engine's [clear]. *)
Definition handle_clear (clear : list Z → result Z) (tokens : list Z) : worker_reply :=
  match clear tokens with
  | Ok n => ClearWorkerRet (0 <? n)
  | Raise _ => WorkerError "Worker error"
  end.

(** *** Invariants over batches of messages *)

(** Every chunk of the pool has a holder; every socket belongs to a listed worker. *)
Record ctl_ok (s : t) : Prop := CtlOk {
  ok_pool : od_wf (kv_pool s);
  ok_workers : od_wf (worker_mapping s);
  ok_sockets : od_wf (socket_mapping s);
  ok_chunks : ∀ k l, od_get k (kv_pool s) = Some l → l ≠ [];
  ok_listed : ∀ i l, od_get i (worker_mapping s) = Some l → l ≠ [];
  ok_reach : ∀ i w a, od_get (i, w) (socket_mapping s) = Some a → w ∈ get_workers i s
}.

Lemma init_ok : ctl_ok init.
Proof. constructor; try done; apply od_wf_nil. Qed.

Lemma set_pool_ok p s :
  ctl_ok s → od_wf p → (∀ k l, od_get k p = Some l → l ≠ []) → ctl_ok (set_pool p s).
Proof. intros [H1 H2 H3 H4 H5 H6] Hp Hl. by constructor. Qed.

(** The outcome of [kv_admit]: it raises only when the instance id is itself the name of a
    chunk and the key is not. *)
Lemma kv_admit_spec i w key loc s :
  kv_admit i w key loc s
  = if od_mem i (kv_pool s)
    then match od_get key (kv_pool s) with
         | None => (Raise KeyError, s)
         | Some l => (Ok tt, set_pool (od_set key (l ++ [Chunk i w loc]) (kv_pool s)) s)
         end
    else (Ok tt, set_pool (od_set key [Chunk i w loc] (od_set key [] (kv_pool s))) s).
Proof.
  unfold kv_admit, bind, modify, get_st, lift. destruct (od_mem i (kv_pool s)).
  - by destruct (od_get key (kv_pool s)).
  - simpl. by rewrite od_get_set.
Qed.

Lemma kv_admit_ok i w key loc s : ctl_ok s → ctl_ok (kv_admit i w key loc s).2.
Proof.
  intros Hs. rewrite kv_admit_spec. destruct (od_mem i (kv_pool s)).
  - destruct (od_get key (kv_pool s)) as [l|] eqn:E; [|done]. simpl.
    apply set_pool_ok; [done|by apply od_wf_set, Hs|]. intros k l'.
    destruct (decide (k = key)) as [->|Hne].
    + rewrite od_get_set. intros [= <-]. by destruct l.
    + rewrite od_get_set_ne by done. apply Hs.
  - simpl. apply set_pool_ok; [done|by apply od_wf_set, od_wf_set, Hs|]. intros k l'.
    destruct (decide (k = key)) as [->|Hne].
    + rewrite od_get_set. by intros [= <-].
    + rewrite !od_get_set_ne by done. apply Hs.
Qed.

Lemma evict_ok i w key loc s : ctl_ok s → ctl_ok (evict i w key loc s).2.
Proof.
  intros Hs. unfold evict, bind, get_st. destruct (od_get key (kv_pool s)) as [l|]; [|done].
  destruct (filter _ l) as [|c r] eqn:E; simpl; apply set_pool_ok; try done.
  - apply od_wf_del, Hs.
  - intros k l' Hk. destruct (decide (k = key)) as [->|Hne].
    + rewrite od_get_del in Hk by apply Hs. done.
    + rewrite od_get_del_ne in Hk by done. by apply (ok_chunks s Hs k).
  - apply od_wf_set, Hs.
  - intros k l' Hk. destruct (decide (k = key)) as [->|Hne].
    + rewrite od_get_set in Hk. by injection Hk as <-.
    + rewrite od_get_set_ne in Hk by done. by apply (ok_chunks s Hs k).
Qed.

Lemma register_ok i w ip port s : ctl_ok s → ctl_ok (register i w ip port s).2.
Proof.
  intros [H1 H2 H3 H4 H5 H6]. unfold register, bind, modify, get_workers in *.
  constructor; simpl; [done|by apply od_wf_set|by apply od_wf_set|done|..].
  - intros i' l. destruct (decide (i' = i)) as [->|Hne].
    + rewrite od_get_set. intros [= <-]. by destruct (default [] _).
    + rewrite od_get_set_ne by done. apply H5.
  - intros i' w' a. unfold get_workers. simpl. intros Hg.
    destruct (decide (i' = i)) as [->|Hne].
    + rewrite od_get_set. simpl. apply elem_of_app. destruct (decide (w' = w)) as [->|Hw]; [right; by left|].
      left. rewrite od_get_set_ne in Hg by congruence. by apply (H6 i w' a).
    + rewrite od_get_set_ne by done. rewrite od_get_set_ne in Hg by congruence. by apply (H6 i' w' a).
Qed.

Lemma list_remove_elem x l l' : list_remove x l = Ok l' → ∀ y, y ≠ x → y ∈ l → y ∈ l'.
Proof.
  revert l'. induction l as [|z l IH]; intros l'; simpl; [done|].
  destruct (decide (x = z)) as [->|Hne].
  - intros [= <-] y Hy [->|?]%elem_of_cons; done.
  - intros (r & Hr & [= <-])%rbind_ok y Hy [->|Hin]%elem_of_cons; [by left|right; by apply (IH r)].
Qed.

Lemma deregister_ok i w ip s : ctl_ok s → ctl_ok (deregister i w ip s).2.
Proof.
  intros [H1 H2 H3 H4 H5 H6]. unfold deregister, bind, modify, get_st, lift, ret, get_workers in *. simpl.
  assert (∀ i' w' a, od_get (i', w') (od_del (i, w) (socket_mapping s)) = Some a →
            (i', w') ≠ (i, w) ∧ od_get (i', w') (socket_mapping s) = Some a) as Hdel.
  { intros i' w' a Hg. destruct (decide ((i', w') = (i, w))) as [[= -> ->]|Hne].
    - rewrite od_get_del in Hg by done. done.
    - by rewrite od_get_del_ne in Hg by done. }
  destruct (od_get i (worker_mapping s)) as [l|] eqn:E; [|constructor; simpl; try done; [by apply od_wf_del|]].
  - destruct (list_remove w l) as [l'|e] eqn:Er; simpl; [|by constructor].
    constructor; simpl; [done| |by apply od_wf_del|done|..].
    + destruct l'; [by apply od_wf_del|by apply od_wf_set].
    + intros i' l2. destruct (decide (i' = i)) as [->|Hne].
      * destruct l'; [by rewrite od_get_del|]. rewrite od_get_set. by intros [= <-].
      * destruct l'; [rewrite od_get_del_ne by done|rewrite od_get_set_ne by done]; apply H5.
    + intros i' w' a (Hn & Hg)%Hdel. specialize (H6 i' w' a Hg). unfold get_workers in *. simpl.
      destruct (decide (i' = i)) as [->|Hne].
      * rewrite E in H6. simpl in H6. pose proof (list_remove_elem w l l' Er w' ltac:(congruence) H6) as Hin.
        destruct l'; [by apply elem_of_nil in Hin|]. by rewrite od_get_set.
      * destruct l'; [rewrite od_get_del_ne by done|rewrite od_get_set_ne by done]; done.
  - intros i' w' a (Hn & Hg)%Hdel. by apply (H6 i' w' a).
Qed.

Lemma handle_msg_ok reply m s : ctl_ok s → ctl_ok (handle_msg reply m s).2.
Proof.
  destruct m as [m|m|]; simpl; [| |done].
  - destruct m; simpl; [apply register_ok|apply deregister_ok|apply kv_admit_ok|apply evict_ok|done].
  - unfold bind, get_st, lift. by destruct (handle_orchestration_message reply m s).
Qed.

(** C39. Over any batches of messages, with the exceptions that the manager swallows,
    no chunk is left in the pool without a holder, no instance is left without workers,
    and every socket that a command could be sent to belongs to a listed worker; and a
    message that raises makes the manager drop the messages behind it in its batch. *)
Theorem controller_invariant reply (batches : list (list msg)) (s : t) :
  ctl_ok s →
  ctl_ok (foldl (λ s l, handle_batch reply l s) s batches)
  ∧ ∀ l1 m l2 e s1 s2, for_each l1 (handle_msg reply) s = (Ok tt, s1) →
      handle_msg reply m s1 = (Raise e, s2) → handle_batch reply (l1 ++ m :: l2) s = s2.
Proof.
  intros Hs. split.
  - revert s Hs. induction batches as [|l bs IH]; intros s Hs; simpl; [done|]. apply IH. unfold handle_batch.
    apply for_each_inv; [|done]. intros m s0 _. apply handle_msg_ok.
  - intros l1 m l2 e s1 s2 H1 H2. unfold handle_batch. rewrite for_each_app. unfold bind.
    rewrite H1. simpl. unfold bind. by rewrite H2.
Qed.

Example controller_invariant_witness :
  let reply := λ _ _, ClearWorkerRet true in
  let m1 := MWorker (RegisterMsg "i" 0 "ip" 1) in
  let bad := MWorker (DeRegisterMsg "i" 7 "ip" 1) in
  let bs := [[m1; bad; MOrch UnknownOrchMsg]; [MWorker (KVAdmitMsg "i" 0 "key" "disk"); MOther]] in
  ctl_ok (foldl (λ s l, handle_batch reply l s) init bs)
  ∧ ∀ l1 m l2 e s1 s2, for_each l1 (handle_msg reply) init = (Ok tt, s1) →
      handle_msg reply m s1 = (Raise e, s2) → handle_batch reply (l1 ++ m :: l2) init = s2.
Proof. intros reply m1 bad bs. apply (controller_invariant reply bs init), init_ok. Defined.

(** The pool remembers one holder per chunk: unless the id of the admitting instance is
    itself the name of a chunk, an admitted chunk's list holds exactly its last admission, whatever holders
    it had before, and evicting that one holder removes the chunk although the others
    still have it. *)
Theorem pool_keeps_last_holder (s : t) i w key loc :
  ctl_ok s → od_mem i (kv_pool s) = false →
  let s' := (kv_admit i w key loc s).2 in
  (kv_admit i w key loc s).1 = Ok tt
  ∧ od_get key (kv_pool s') = Some [Chunk i w loc]
  ∧ (∀ k, k ≠ key → od_get k (kv_pool s') = od_get k (kv_pool s))
  ∧ od_get key (kv_pool (evict i w key loc s').2) = None
  ∧ (∀ i2 w2 loc2, Chunk i2 w2 loc2 ≠ Chunk i w loc →
       kv_pool (evict i2 w2 key loc2 s').2 = kv_pool s').
Proof.
  intros Hs Hi. rewrite kv_admit_spec, Hi. simpl. split; [done|]. rewrite od_get_set. split; [done|]. split.
  { intros k Hk. by rewrite !od_get_set_ne. }
  unfold evict, bind, get_st. simpl. rewrite od_get_set. split.
  - rewrite filter_cons, decide_False by tauto. simpl.
    apply od_get_del. apply od_wf_set, od_wf_set, Hs.
  - intros i2 w2 loc2 Hne. rewrite filter_cons, decide_True by congruence. simpl.
    apply od_set_same, od_get_set.
Qed.

Example pool_keeps_last_holder_witness :
  let s := (kv_admit "a" 0 "key" "disk" init).2 in
  let s' := (kv_admit "b" 0 "key" "disk" s).2 in
  (kv_admit "b" 0 "key" "disk" s).1 = Ok tt
  ∧ od_get "key"%string (kv_pool s') = Some [Chunk "b" 0 "disk"]
  ∧ (∀ k, k ≠ "key"%string → od_get k (kv_pool s') = od_get k (kv_pool s))
  ∧ od_get "key"%string (kv_pool (evict "b" 0 "key" "disk" s').2) = None
  ∧ (∀ i2 w2 loc2, Chunk i2 w2 loc2 ≠ Chunk "b" 0 "disk" →
       kv_pool (evict i2 w2 "key" loc2 s').2 = kv_pool s').
Proof.
  apply (pool_keeps_last_holder (kv_admit "a" 0 "key" "disk" init).2 "b" 0 "key" "disk").
  - apply kv_admit_ok, init_ok.
  - reflexivity.
Defined.

(** The controller's database has no [save_unfull_chunk]: every lookup raises. *)
Lemma controller_lookup_raises tokens s : lookup controller_db tokens s = Raise AttributeError.
Proof. unfold lookup, Chunked.process_tokens_hash, Chunked.process_with. simpl. done. Qed.

(** A pool whose first chunk belongs to the worker: [deregister] raises half-way. *)
Example kv_deregister_raises reply :
  let s := handle_batch reply [MWorker (KVAdmitMsg "a" 0 "k1" "d"); MWorker (KVAdmitMsg "a" 0 "k2" "d")] init in
  (kv_deregister "a" 0 s).1 = Raise RuntimeError
  ∧ od_keys (kv_pool (kv_deregister "a" 0 s).2) = ["k2"%string].
Proof. vm_compute. done. Qed.

(** A worker that registered twice and deregistered once is listed without a socket, and
    a clear of its instance is refused. *)
Example double_registration :
  let reply := λ _ _, ClearWorkerRet true in
  let reg := MWorker (RegisterMsg "a" 0 "ip" 1) in
  let s := handle_batch reply [reg; reg; MWorker (DeRegisterMsg "a" 0 "ip" 1)] init in
  get_workers "a" s = [0] ∧ get_socket "a" 0 s = None
  ∧ execute reply (OpClear "a" []) s = ErrorMsg "not registered".
Proof. vm_compute. done. Qed.

(** The engine's [clear] raises, so that a clear answers that it is not supported. *)
Example clear_not_supported :
  let reply := λ _ tokens, handle_clear (λ tk, (Engine.clear (Some (TList tk)) Engine.demo).1) tokens in
  let s := handle_batch reply [MWorker (RegisterMsg "a" 0 "ip" 1)] init in
  execute reply (OpClear "a" [1; 2; 3]) s = ErrorMsg "not supported".
Proof. vm_compute. reflexivity. Qed.
End Controller.
