(* ===== verification/Simulator.v ===== *)
(** [infinikv/infinikv/v1/simulator.py]: how many block transfers fit into the time in
    which the GPU waits on the network, and the CUDA stream whose share of processors they
    run on.  The devices' properties, FlashInfer's green contexts and the time model of
    [third_pkg/llm_viewer] are parameters; floats are those of [PyNum.v]. *)
From Stdlib Require Import SpecFloat.
From S2P Require Export Prelude OrderedDict PyNum.
From stdpp Require Import sorting options.

#[local] Open Scope Z_scope.

(** ** What the simulator asks of its stream controller *)

(** The two methods that [Simulator.execute] calls on its [streamController]. *)
Class StreamPool (device stream C : Type) := {
  pool_max_io_count : device → C → result Z;
  pool_matched_stream : device → Z → py C (option stream)
}.

(** ** One stream per size of the partition *)
Module StreamController.
Section controller.
Context {device stream : Type} `{EqDecision device}.
Implicit Types (dev : device).
(** [torch]: whether the device is a CUDA device, and its number of processors;
    [green_ctx]: the streams of a split of the device, one per requested count. *)
Variables (is_cuda : device → bool) (multi_processor_count : device → Z)
  (split_device : device → list Z → result (list stream)).

Record t := SC {
  sms_per_io_task : Z;
  per_device_streams : list (device * list (Z * stream));
  per_device_sorted_sm_counts : list (device * list Z)
}.

(** The streams of the partitions, in their order. *)
Fixpoint make_streams dev (sm_partitions : list Z) (d : list (Z * stream)) : result (list (Z * stream)) :=
  match sm_partitions with
  | [] => Ok d
  | sm :: rest =>
      let! streams := split_device dev [sm] in
      let! s := py_index streams 0 in
      make_streams dev rest (od_set sm s d)
  end.

(** [__init__] and [_init_stream_pool_for_device]. *)
Definition create dev (min_sm_partition sm_partition_step sms : Z) : result t :=
  if negb (is_cuda dev) then Raise ValueError
  else
    let! sm_partitions := py_range min_sm_partition (multi_processor_count dev) sm_partition_step in
    let! streams := make_streams dev sm_partitions [] in
    Ok (SC sms [(dev, streams)] [(dev, sm_partitions)]).

Definition max_io_count dev (c : t) : result Z :=
  match od_get dev (per_device_sorted_sm_counts c) with
  | None => Raise TypeError
  | Some l => let! m := py_index l (-1) in Ok (m * sms_per_io_task c)
  end.

(** The first partition of the list that holds the required processors. *)
Definition first_fit (required_sms : Z) (counts : list Z) : option Z :=
  snd <$> list_find (λ sm, required_sms ≤ sm) counts.

Definition get_matched_stream dev (io_count : Z) (c : t) : result (option stream) :=
  if io_count <=? 0 then Ok None
  else
    match od_get dev (per_device_sorted_sm_counts c), od_get dev (per_device_streams c) with
    | Some ((_ :: _) as counts), Some ((_ :: _) as streams) =>
        let! required_sms := py_div (io_count + sms_per_io_task c - 1) (sms_per_io_task c) in
        let! sm := match first_fit required_sms counts with
                   | Some sm => Ok sm
                   | None => py_index counts (-1)
                   end in
        let! s := of_option KeyError (od_get sm streams) in
        Ok (Some s)
    | _, _ => Ok None
    end.

Definition get_matched_stream_by_sm dev (sm_count : Z) (c : t) : result (option stream) :=
  match od_get dev (per_device_streams c) with
  | Some ((_ :: _) as streams) =>
      let! _ := rassert (sm_count <=? 112) in
      let! s := of_option KeyError (od_get sm_count streams) in
      Ok (Some s)
  | _ => Ok None
  end.

#[global] Instance pool : StreamPool device stream t := {|
  pool_max_io_count := max_io_count;
  pool_matched_stream dev n := λ c, (get_matched_stream dev n c, c)
|}.

(** *** The streams of a created controller *)

Lemma make_streams_get dev sms d d' :
  make_streams dev sms d = Ok d' →
  ∀ sm, od_get sm d' = if decide (sm ∈ sms)
                       then match split_device dev [sm] with Ok (s :: _) => Some s | _ => None end
                       else od_get sm d.
Proof.
  revert d. induction sms as [|x sms IH]; intros d; cbn [make_streams].
  - intros [= <-] sm. case_decide as Hn; [by apply elem_of_nil in Hn|done].
  - intros (l & Hl & (s & Hs & H)%rbind_ok)%rbind_ok sm. rewrite (IH _ H sm).
    destruct (decide (sm ∈ sms)) as [Hin|Hin].
    + destruct (decide (sm ∈ x :: sms)) as [|Hn]; [done|]. destruct Hn. by right.
    + destruct (decide (sm = x)) as [->|Hne].
      * rewrite od_get_set. case_decide as Hn; [|destruct Hn; by left]. rewrite Hl.
        destruct l as [|y l]; [by vm_compute in Hs|]. unfold py_index in Hs. simpl in Hs. congruence.
      * rewrite od_get_set_ne by done. case_decide as Hn; [|done]. by apply elem_of_cons in Hn as [|].
Qed.

Lemma make_streams_ok dev sms d d' :
  make_streams dev sms d = Ok d' → ∀ sm, sm ∈ sms → ∃ s l, split_device dev [sm] = Ok (s :: l).
Proof.
  revert d. induction sms as [|x sms IH]; intros d; simpl; [by intros _ sm ?%elem_of_nil|].
  intros (l & Hl & (s & Hs & H)%rbind_ok)%rbind_ok sm [->|Hin]%elem_of_cons; [|by apply (IH _ H)].
  destruct l; [by vm_compute in Hs|eauto].
Qed.

Lemma py_index_last {A} (l : list A) : l ≠ [] → py_index l (-1) = of_option IndexError (last l).
Proof.
  intros Hl. destruct (exists_last Hl) as (l' & x & ->). unfold py_index. simpl. rewrite zlen_app.
  pose proof (zlen_nonneg l'). replace (zlen [x]) with 1 by reflexivity.
  rewrite (proj2 (Z.ltb_ge _ 0)) by lia. rewrite last_snoc.
  replace (Z.to_nat (-1 + (zlen l' + 1))) with (length l') by (unfold zlen; lia).
  by rewrite list_lookup_middle.
Qed.

(** A size of partition of the device. *)
Definition partition dev mn step sm : Prop :=
  ∃ k, 0 ≤ k ∧ sm = mn + k * step ∧ sm < multi_processor_count dev.

Lemma counts_lookup dev mn step counts i sm :
  0 < step → py_range mn (multi_processor_count dev) step = Ok counts →
  counts !! i = Some sm ↔ sm = mn + Z.of_nat i * step ∧ sm < multi_processor_count dev.
Proof.
  intros Hs. rewrite py_range_pos by done. intros [= <-].
  rewrite list_lookup_fmap_Some. setoid_rewrite lookup_seqZ.
  pose proof (cdiv_spec (multi_processor_count dev - mn) step Hs). split.
  - intros (k & -> & -> & Hk). split; [lia|]. nia.
  - intros [-> Hlt]. exists (Z.of_nat i). split; [lia|]. split; [lia|nia].
Qed.

Lemma counts_elem dev mn step counts sm :
  0 < step → py_range mn (multi_processor_count dev) step = Ok counts →
  sm ∈ counts ↔ partition dev mn step sm.
Proof.
  intros Hs Hr. rewrite list_elem_of_lookup. split.
  - intros [i [-> Hlt]%(counts_lookup dev mn step counts i sm Hs Hr)]. exists (Z.of_nat i). lia.
  - intros (k & Hk & -> & Hlt). exists (Z.to_nat k). apply (counts_lookup dev mn step); [done..|].
    rewrite Z2Nat.id by done. lia.
Qed.

(** Whether a partition holds a number of transfers, as the code computes it. *)
Lemma required_fits n sms sm : 0 < sms → (n + sms - 1) `div` sms ≤ sm ↔ n ≤ sm * sms.
Proof.
  intros H. rewrite <- cdiv_alt by done. pose proof (cdiv_spec n sms H). split; intros; nia.
Qed.

Lemma first_fit_counts dev mn step counts r :
  0 < step → py_range mn (multi_processor_count dev) step = Ok counts →
  match first_fit r counts with
  | Some sm => sm ∈ counts ∧ r ≤ sm ∧ ∀ sm', sm' ∈ counts → r ≤ sm' → sm ≤ sm'
  | None => ∀ sm', sm' ∈ counts → sm' < r
  end.
Proof.
  intros Hs Hr. unfold first_fit. destruct (list_find _ counts) as [[i sm]|] eqn:E; simpl.
  - apply list_find_Some in E as (Hi & Hle & Hmin). split; [by apply list_elem_of_lookup_2 in Hi|].
    split; [done|]. intros sm' [j Hj]%list_elem_of_lookup Hle'.
    destruct (decide (j < i)%nat) as [Hlt|Hge]; [by destruct (Hmin j sm' Hj Hlt)|].
    apply (counts_lookup dev mn step) in Hi as [-> _]; [|done..].
    apply (counts_lookup dev mn step) in Hj as [-> _]; [|done..]. nia.
  - apply list_find_None in E. rewrite Forall_forall in E. intros sm' Hin. specialize (E sm' Hin). lia.
Qed.

Lemma create_fields dev mn step sms c :
  create dev mn step sms = Ok c →
  ∃ counts streams, py_range mn (multi_processor_count dev) step = Ok counts
    ∧ make_streams dev counts [] = Ok streams ∧ c = SC sms [(dev, streams)] [(dev, counts)].
Proof.
  unfold create. destruct (is_cuda dev); simpl; [|done].
  intros (counts & Hr & (streams & Hm & [= <-])%rbind_ok)%rbind_ok. eauto.
Qed.

Lemma last_counts dev mn step counts :
  0 < step → py_range mn (multi_processor_count dev) step = Ok counts → counts ≠ [] →
  ∃ m, last counts = Some m ∧ m ∈ counts ∧ ∀ sm, sm ∈ counts → sm ≤ m.
Proof.
  intros Hs Hr Hne. destruct (last counts) as [m|] eqn:E; [|by apply last_None in E].
  exists m. split; [done|]. rewrite last_lookup in E. split; [by apply list_elem_of_lookup_2 in E|].
  intros sm [j Hj]%list_elem_of_lookup. pose proof (lookup_lt_Some _ _ _ Hj).
  apply (counts_lookup dev mn step) in E as [-> _]; [|done..].
  apply (counts_lookup dev mn step) in Hj as [-> _]; [|done..]. nia.
Qed.

(** A controller that was created on a device gives each positive number of transfers a
    stream of the smallest partition that holds them, with [sms_per_io_task] transfers to a
    processor, and beyond the maximum the stream of the largest partition. *)
Lemma matched_stream_best_fit dev mn step sms c n :
  create dev mn step sms = Ok c → 0 < sms → 0 < step → mn < multi_processor_count dev → 0 < n →
  ∃ m sm s l, max_io_count dev c = Ok (m * sms)
  ∧ partition dev mn step m ∧ (∀ sm', partition dev mn step sm' → sm' ≤ m)
  ∧ get_matched_stream dev n c = Ok (Some s)
  ∧ partition dev mn step sm ∧ split_device dev [sm] = Ok (s :: l)
  ∧ (n ≤ m * sms → n ≤ sm * sms ∧ ∀ sm', partition dev mn step sm' → n ≤ sm' * sms → sm ≤ sm')
  ∧ (m * sms < n → sm = m).
Proof.
  intros (counts & streams & Hr & Hm & ->)%create_fields Hsms Hstep Hmn Hn.
  assert (counts ≠ []) as Hne.
  { intros ->. apply (elem_of_nil mn), (counts_elem dev mn step [] mn Hstep Hr). exists 0. lia. }
  destruct (last_counts dev mn step counts Hstep Hr Hne) as (m & Hlast & Hm1 & Hm2).
  pose proof (first_fit_counts dev mn step counts ((n + sms - 1) `div` sms) Hstep Hr) as Hf.
  assert (∃ sm, match first_fit ((n + sms - 1) `div` sms) counts with Some x => Ok x | None => py_index counts (-1) end
            = Ok sm ∧ sm ∈ counts
          ∧ (n ≤ m * sms → n ≤ sm * sms ∧ ∀ sm', sm' ∈ counts → n ≤ sm' * sms → sm ≤ sm')
          ∧ (m * sms < n → sm = m)) as (sm & Hsel & Hin & Hfit & Hbig).
  { destruct (first_fit _ counts) as [sm|].
    - exists sm. destruct Hf as (? & Hle & Hmin). rewrite required_fits in Hle by done.
      split; [done|]. split; [done|]. split.
      + intros _. split; [done|]. intros sm' Hin' Hle'. apply Hmin; [done|]. by apply required_fits.
      + intros Hlt. specialize (Hm2 sm ltac:(done)). nia.
    - exists m. rewrite py_index_last, Hlast by done. split; [done|]. split; [done|]. split; [|done].
      intros Hle. specialize (Hf m Hm1). apply required_fits in Hle; [lia|done]. }
  destruct (make_streams_ok dev counts [] streams Hm sm Hin) as (s & l & Hsplit).
  pose proof (make_streams_get dev counts [] streams Hm sm) as Hget.
  rewrite decide_True, Hsplit in Hget by done.
  exists m, sm, s, l. setoid_rewrite <- (counts_elem dev mn step counts); [|done..].
  unfold max_io_count, get_matched_stream. cbn [per_device_sorted_sm_counts per_device_streams sms_per_io_task od_get].
  rewrite !(decide_True (P := dev = dev)) by done.
  split; [by rewrite py_index_last, Hlast|]. split; [done|]. split; [done|].
  split; [|done]. rewrite (proj2 (Z.leb_gt n 0)) by done.
  destruct counts as [|x counts]; [done|]. destruct streams as [|y streams]; [done|].
  unfold py_div. rewrite (proj2 (Z.eqb_neq sms 0)) by lia. cbn [rbind]. rewrite Hsel. cbn [rbind].
  by rewrite Hget.
Qed.
End controller.
End StreamController.

(** ** A pool of equal streams *)
Module SmallStreamController.
Section small.
Context {device stream : Type} `{EqDecision device} `{EqDecision stream}.
Implicit Types (dev : device) (s : stream).
Variables (is_cuda : device → bool) (multi_processor_count : device → Z)
  (split_device : device → list Z → result (list stream)).

Record t := SSC {
  per_device_available_streams : list (device * list stream);
  per_device_inuse_streams : list (device * list stream)
}.

(** The partitions of [_init_stream_pool_for_device]. *)
Definition partitions (min_sm_partition total_sm : Z) : list Z :=
  if (min_sm_partition <=? 0) || (total_sm <? min_sm_partition) then [total_sm]
  else replicate (Z.to_nat (total_sm `div` min_sm_partition)) min_sm_partition.

Definition init_stream_pool_for_device (min_sm_partition : Z) dev : py t unit :=
  let* streams := lift (split_device dev (partitions min_sm_partition (multi_processor_count dev))) in
  modify (λ c, SSC (od_set dev streams (per_device_available_streams c))
                   (od_set dev [] (per_device_inuse_streams c))).

(** [__init__]. *)
Definition create (devices : list device) (min_sm_partition : Z) : result t :=
  let! d0 := py_index devices 0 in
  if negb (is_cuda d0) then Raise ValueError
  else
    let '(r, c) := for_each devices (λ dev,
        if negb (is_cuda dev) then raise ValueError
        else init_stream_pool_for_device min_sm_partition dev) (SSC [] []) in
    let! _ := r in Ok c.

Definition max_io_count (_ : device) (_ : t) : result Z := Ok 0.

(** [inuse.add(stream)] on a set of streams. *)
Definition set_add s (l : list stream) : list stream := if decide (s ∈ l) then l else l ++ [s].

(** [avail.pop()] takes the last stream. *)
Definition get_matched_stream dev (_ : Z) : py t (option stream) := λ c,
  match od_get dev (per_device_available_streams c), od_get dev (per_device_inuse_streams c) with
  | Some avail, Some inuse =>
      match last avail with
      | None => (Ok None, c)
      | Some s => (Ok (Some s), SSC (od_set dev (removelast avail) (per_device_available_streams c))
                                    (od_set dev (set_add s inuse) (per_device_inuse_streams c)))
      end
  | _, _ => (Ok None, c)
  end.

Definition acquire_stream dev : py t (option stream) := get_matched_stream dev 1.

Definition mark_stream_done dev s : py t unit := λ c,
  match od_get dev (per_device_available_streams c), od_get dev (per_device_inuse_streams c) with
  | Some avail, Some inuse =>
      if decide (s ∈ inuse) then
        (Ok tt, SSC (od_set dev (avail ++ [s]) (per_device_available_streams c))
                    (od_set dev (filter (λ x, x ≠ s) inuse) (per_device_inuse_streams c)))
      else if decide (s ∈ avail) then (Ok tt, c)
      else (Ok tt, SSC (od_set dev (avail ++ [s]) (per_device_available_streams c))
                       (per_device_inuse_streams c))
  | _, _ => (Ok tt, c)
  end.

#[global] Instance pool : StreamPool device stream t := {|
  pool_max_io_count := max_io_count;
  pool_matched_stream := get_matched_stream
|}.

(** *** The pool keeps its streams *)

Definition avail_of dev (c : t) : list stream := default [] (od_get dev (per_device_available_streams c)).
Definition inuse_of dev (c : t) : list stream := default [] (od_get dev (per_device_inuse_streams c)).

(** The calls of a client. *)
Inductive call := CGet (dev : device) (n : Z) | CDone (dev : device) (s : stream).

Definition run_call (x : call) (c : t) : t :=
  match x with
  | CGet dev n => (get_matched_stream dev n c).2
  | CDone dev s => (mark_stream_done dev s c).2
  end.

(** A device's streams are, without repetition, the available and the used ones. *)
Definition pool_ok (streams : device → list stream) (c : t) : Prop :=
  ∀ dev, NoDup (streams dev) ∧ (avail_of dev c ++ inuse_of dev c ≡ₚ streams dev)
  ∧ (od_get dev (per_device_available_streams c) = None ↔ od_get dev (per_device_inuse_streams c) = None).

Lemma pool_ok_set streams dev a i c :
  pool_ok streams c → is_Some (od_get dev (per_device_available_streams c)) → a ++ i ≡ₚ streams dev →
  pool_ok streams (SSC (od_set dev a (per_device_available_streams c))
                       (od_set dev i (per_device_inuse_streams c))).
Proof.
  intros Hp Hd Hai dev'. destruct (Hp dev') as (Hnd & Hperm & Hiff).
  split; [done|]. unfold avail_of, inuse_of in *. simpl.
  destruct (decide (dev' = dev)) as [->|Hne]; [by rewrite !od_get_set|].
  by rewrite !od_get_set_ne by done.
Qed.

Lemma removelast_last_app {A} (l : list A) x : last l = Some x → l = removelast l ++ [x].
Proof.
  intros H. assert (l ≠ []) as Hl by (by intros ->).
  destruct (exists_last Hl) as (l' & y & ->). rewrite last_snoc in H. injection H as ->.
  by rewrite removelast_last.
Qed.

(** The streams of a device in a well-formed pool. *)
Lemma pool_ok_some streams c dev a :
  pool_ok streams c → od_get dev (per_device_available_streams c) = Some a →
  ∃ i, od_get dev (per_device_inuse_streams c) = Some i ∧ (a ++ i ≡ₚ streams dev) ∧ NoDup (a ++ i).
Proof.
  intros Hp Ha. destruct (Hp dev) as (Hnd & Hperm & Hiff). unfold avail_of, inuse_of in Hperm.
  rewrite Ha in Hperm, Hiff. destruct (od_get dev (per_device_inuse_streams c)) as [i|].
  - exists i. split; [done|]. split; [done|]. by rewrite Hperm.
  - destruct Hiff as [_ Hiff]. by specialize (Hiff eq_refl).
Qed.

Lemma get_matched_stream_ok streams dev n c :
  pool_ok streams c →
  match get_matched_stream dev n c with
  | (Ok (Some s), c') => pool_ok streams c' ∧ s ∈ avail_of dev c ∧ (s ∉ inuse_of dev c) ∧ s ∈ inuse_of dev c'
  | (Ok None, c') => c' = c ∧ avail_of dev c = []
  | (Raise _, _) => False
  end.
Proof.
  intros Hp. unfold get_matched_stream.
  destruct (od_get dev (per_device_available_streams c)) as [a|] eqn:Ha.
  - destruct (pool_ok_some _ _ _ _ Hp Ha) as (i & Hi & Hperm & Hnd). rewrite Hi. simpl.
    assert (avail_of dev c = a ∧ inuse_of dev c = i) as [Ea Ei] by (unfold avail_of, inuse_of; by rewrite Ha, Hi).
    rewrite Ea, Ei.
    destruct (last a) as [s|] eqn:El; [|by apply last_None in El].
    apply removelast_last_app in El. rewrite El in Hperm, Hnd.
    assert (s ∉ i) as Hs.
    { intros Hs. apply NoDup_app in Hnd as (_ & Hd & _). apply (Hd s); [|done]. apply elem_of_app. right. by left. }
    unfold set_add. rewrite decide_False by done. split.
    + apply pool_ok_set; [done|by eexists|]. rewrite <- Hperm, <- app_assoc. f_equiv. apply Permutation_app_comm.
    + split; [|split; [done|]].
      * rewrite El. apply elem_of_app. right. by left.
      * unfold inuse_of. simpl. rewrite od_get_set. apply elem_of_app. right. by left.
  - unfold avail_of. by rewrite Ha.
Qed.

Lemma mark_stream_done_ok streams dev s c :
  pool_ok streams c → s ∈ streams dev → pool_ok streams (mark_stream_done dev s c).2.
Proof.
  intros Hp Hin. unfold mark_stream_done.
  destruct (od_get dev (per_device_available_streams c)) as [a|] eqn:Ha; [|done].
  destruct (pool_ok_some _ _ _ _ Hp Ha) as (i & Hi & Hperm & Hnd). rewrite Hi.
  destruct (decide (s ∈ i)) as [Hs|Hs].
  - simpl. apply pool_ok_set; [done|by eexists|]. rewrite <- Hperm, <- app_assoc. f_equiv.
    apply NoDup_app in Hnd as (_ & _ & Hnd). clear -Hs Hnd.
    induction i as [|x i IH]; [by apply elem_of_nil in Hs|].
    apply NoDup_cons in Hnd as [Hx Hnd]. rewrite filter_cons. case_decide as Hxs.
    + apply elem_of_cons in Hs as [->|Hs]; [done|]. simpl. rewrite Permutation_swap. f_equiv. by apply IH.
    + assert (x = s) as -> by (by destruct (decide (x = s))). simpl. f_equiv.
      clear -Hx. induction i as [|y i IH]; [done|]. rewrite filter_cons, decide_True.
      * f_equiv. apply IH. intros ?. apply Hx. by right.
      * intros ->. apply Hx. by left.
  - destruct (decide (s ∈ a)) as [|Hn]; [done|]. exfalso.
    rewrite <- Hperm in Hin. apply elem_of_app in Hin as [|]; done.
Qed.

(** A created controller: nothing is in use. *)
Lemma create_pool_ok devices mn c :
  create devices mn = Ok c →
  (∀ dev l, split_device dev (partitions mn (multi_processor_count dev)) = Ok l → NoDup l) →
  pool_ok (λ dev, avail_of dev c) c.
Proof.
  unfold create. intros (d0 & _ & H)%rbind_ok Hsplit. destruct (is_cuda d0); [|done]. simpl in H.
  destruct (for_each devices _ _) as [r c'] eqn:E. apply rbind_ok in H as (_ & _ & [= <-]).
  set (I := λ c : t, ∀ dev, NoDup (avail_of dev c) ∧ inuse_of dev c = []
     ∧ (od_get dev (per_device_available_streams c) = None ↔ od_get dev (per_device_inuse_streams c) = None)).
  assert (I c') as HI.
  { replace c' with (for_each devices (λ dev, if negb (is_cuda dev) then raise ValueError
        else init_stream_pool_for_device mn dev) (SSC [] [])).2 by (by rewrite E).
    apply for_each_inv; [|intros dev; by repeat split; try constructor].
    intros dev c _ Hc. destruct (is_cuda dev); [|done]. simpl.
    unfold init_stream_pool_for_device, bind, lift, modify.
    destruct (split_device dev _) as [l|] eqn:El; [|done]. intros dev'. simpl.
    unfold avail_of, inuse_of. simpl. destruct (decide (dev' = dev)) as [->|Hne].
    - rewrite !od_get_set. by apply Hsplit in El.
    - rewrite !od_get_set_ne by done. apply Hc. }
  intros dev. destruct (HI dev) as (Hnd & Hi & Hiff). split; [done|]. split; [|done].
  by rewrite Hi, app_nil_r.
Qed.

(** Whatever the calls of its clients, which give back streams that they were given,
    the pool neither loses nor duplicates a stream: the available and the used ones of a
    device stay its created streams, a call takes a stream that nobody uses, and it
    answers [None] exactly when all are in use; [io_count] plays no part. *)
Theorem small_pool_conserves devices mn c (xs : list call) :
  create devices mn = Ok c →
  (∀ dev l, split_device dev (partitions mn (multi_processor_count dev)) = Ok l → NoDup l) →
  Forall (λ x, match x with CDone dev s => s ∈ avail_of dev c | CGet _ _ => True end) xs →
  let c' := foldl (λ c x, run_call x c) c xs in
  ∀ dev n,
    (avail_of dev c' ++ inuse_of dev c' ≡ₚ avail_of dev c)
    ∧ match get_matched_stream dev n c' with
      | (Ok (Some s), c'') => s ∈ avail_of dev c' ∧ (s ∉ inuse_of dev c') ∧ s ∈ inuse_of dev c''
      | (Ok None, c'') => c'' = c' ∧ (inuse_of dev c' ≡ₚ avail_of dev c)
      | (Raise _, _) => False
      end.
Proof.
  intros Hc Hsplit Hxs c'. pose proof (create_pool_ok _ _ _ Hc Hsplit) as Hp.
  assert (∀ c0, pool_ok (λ dev, avail_of dev c) c0 →
            pool_ok (λ dev, avail_of dev c) (foldl (λ c x, run_call x c) c0 xs)) as Hrun.
  { clear Hp c'. induction Hxs as [|x xs Hx Hxs IH]; intros c0 H0; simpl; [done|].
    apply IH. destruct x as [dev n|dev s]; simpl; [|by apply mark_stream_done_ok].
    pose proof (get_matched_stream_ok _ dev n c0 H0) as H.
    destruct (get_matched_stream dev n c0) as [[[s|]|e] c1]; [apply H| |done]. by destruct H as [-> _]. }
  specialize (Hrun c Hp) as Hp'. fold c' in Hp'. clearbody c'.
  intros dev n. destruct (Hp' dev) as (_ & Hperm & _). split; [done|].
  pose proof (get_matched_stream_ok _ dev n c' Hp') as H.
  destruct (get_matched_stream dev n c') as [[[s|]|e] c'']; [apply H| |done].
  destruct H as [-> Ha]. split; [done|]. by rewrite Ha in Hperm.
Qed.

End small.
End SmallStreamController.

(** ** The simulator *)
Module Simulator.

(** [model_info] and [model_system_info], the fields that [execute] reads. *)
Record model_info := ModelInfo { num_kv_heads : Z; head_size : Z }.
Record model_system_info := SystemInfo { storage_io_bandwidth_Bps : spec_float; block_size : Z }.

Section simulator.
Context {device stream C : Type} `{!StreamPool device stream C}.
(** [model_analyzer.estimate_batch_step_time(...)["prefill_comm_time"]] and its
    ["decode_time"], by the number of tokens. *)
Variables (prefill_comm_time decode_time : Z → result spec_float).
Variables (info : model_info) (system : model_system_info).

Definition overlap_window (stage : string) (num_tokens : Z) : result spec_float :=
  if String.eqb stage "prefill" then prefill_comm_time num_tokens
  else if String.eqb stage "decode" then decode_time num_tokens
  else Raise ValueError.

(** Two bytes times key and value for each element of a block. *)
Definition chunk_bytes : Z := num_kv_heads info * head_size info * block_size system * 2 * 2.

(** [math.floor(total_bytes_to_write / chunk_bytes)]. *)
Definition writable_chunks (window : spec_float) : result Z :=
  let! q := PyFloat.div_int (PyFloat.mul window (storage_io_bandwidth_Bps system)) chunk_bytes in
  PyFloat.floor q.

Definition execute (num_tokens : Z) (dev : device) (exist_io_num : Z) (stage : string)
    : py C (Z * option stream) :=
  let* window := lift (overlap_window stage num_tokens) in
  if PyFloat.le_zero window then ret (0, None)
  else
    let* k := lift (writable_chunks window) in
    let* c := get_st in
    let* m := lift (pool_max_io_count dev c) in
    let io_count := Z.min (Z.min exist_io_num k) m in
    let* s := pool_matched_stream dev io_count in
    ret (io_count, s).
End simulator.

Section with_controller.
Context {device stream : Type} `{EqDecision device}.
Variables (is_cuda : device → bool) (multi_processor_count : device → Z)
  (split_device : device → list Z → result (list stream)).
Variables (prefill_comm_time decode_time : Z → result spec_float).
Variables (info : model_info) (system : model_system_info).

(** With a stream controller made for the device, [execute] admits no transfer that
    does not exist, that the window leaves no time for, or that the controller has no
    processors for; the stream it returns belongs to the smallest partition that holds the
    admitted transfers, and there is one exactly when a transfer is admitted. *)
Theorem execute_fits (dev : device) mn step sms c num_tokens exist stage window k :
  StreamController.create is_cuda multi_processor_count split_device dev mn step sms = Ok c →
  0 < sms → 0 < step → mn < multi_processor_count dev →
  overlap_window prefill_comm_time decode_time stage num_tokens = Ok window →
  PyFloat.le_zero window = false → writable_chunks info system window = Ok k →
  let part sm := StreamController.partition multi_processor_count dev mn step sm in
  ∃ m, part m ∧ (∀ sm, part sm → sm ≤ m) ∧
  let n := Z.min (Z.min exist k) (m * sms) in
  let r := execute prefill_comm_time decode_time info system num_tokens dev exist stage c in
  (n ≤ 0 → r = (Ok (n, None), c))
  ∧ (0 < n → ∃ sm s l, r = (Ok (n, Some s), c) ∧ part sm ∧ split_device dev [sm] = Ok (s :: l)
       ∧ n ≤ sm * sms ∧ ∀ sm', part sm' → n ≤ sm' * sms → sm ≤ sm').
Proof.
  intros Hc Hsms Hstep Hmn Hw Hpos Hk part.
  destruct (StreamController.matched_stream_best_fit _ _ _ dev mn step sms c 1 Hc)
    as (m & _ & _ & _ & Hmax & Hm & Hle & _); [lia..|].
  exists m. split; [done|]. split; [done|]. intros n r.
  assert (r = (let! s := StreamController.get_matched_stream dev n c in Ok (n, s), c)) as ->.
  { subst r. unfold execute, bind, lift, get_st. rewrite Hw, Hpos, Hk.
    change (pool_max_io_count dev c) with (StreamController.max_io_count dev c). rewrite Hmax.
    simpl. fold n. by destruct (StreamController.get_matched_stream dev n c). }
  split; intros Hn.
  - unfold StreamController.get_matched_stream. by rewrite (proj2 (Z.leb_le n 0)).
  - destruct (StreamController.matched_stream_best_fit _ _ _ dev mn step sms c n Hc)
      as (m' & sm & s & l & Hmax' & _ & _ & Hs & Hsm & Hsplit & Hfit & _); [lia..|].
    exists sm, s, l. rewrite Hs. split; [done|]. split; [done|]. split; [done|]. apply Hfit.
    rewrite Hmax in Hmax'. injection Hmax' as Em. rewrite <- Em. unfold n. lia.
Qed.
End with_controller.
End Simulator.

(** ** Concrete inputs *)
Module SimulatorDemo.
Import Simulator.

(** A GPU with 132 processors whose streams bear the size of their partition, a window
    of one second at 10^9 bytes per second, blocks of 65536 bytes. *)
Definition gpu_sms (_ : Z) : Z := 132.
Definition split_by_size (_ : Z) (l : list Z) : result (list Z) := Ok l.
Definition split_by_index (_ : Z) (l : list Z) : result (list Z) := Ok (seqZ 0 (zlen l)).
Definition one_second (_ : Z) : result spec_float := PyFloat.of_int 1.
Definition info : model_info := ModelInfo 8 128.
Definition system : model_system_info :=
  SystemInfo (match PyFloat.of_int (10 ^ 9) with Ok f => f | Raise _ => S754_nan end) 16.
Definition controller : StreamController.t :=
  match StreamController.create (λ _, true) gpu_sms split_by_size 0 8 8 2 with
  | Ok c => c
  | Raise _ => StreamController.SC 0 [] []
  end.
Definition small : SmallStreamController.t :=
  match SmallStreamController.create (λ _, true) gpu_sms split_by_index [0] 8 with
  | Ok c => c
  | Raise _ => SmallStreamController.SSC [] []
  end.

Example execute_fits_witness :
  let part sm := StreamController.partition gpu_sms 0 8 8 sm in
  ∃ m, part m ∧ (∀ sm, part sm → sm ≤ m) ∧
  let n := Z.min (Z.min 45 15258) (m * 2) in
  let r := execute one_second one_second info system 100 0 45 "decode" controller in
  (n ≤ 0 → r = (Ok (n, None), controller))
  ∧ (0 < n → ∃ sm s l, r = (Ok (n, Some s), controller) ∧ part sm ∧ split_by_size 0 [sm] = Ok (s :: l)
       ∧ n ≤ sm * 2 ∧ ∀ sm', part sm' → n ≤ sm' * 2 → sm ≤ sm').
Proof.
  apply (execute_fits (λ _, true) gpu_sms split_by_size one_second one_second info system
           0 8 8 2 controller 100 45 "decode"
           (match PyFloat.of_int 1 with Ok f => f | Raise _ => S754_nan end) 15258);
    [vm_compute; reflexivity|lia|lia|reflexivity|vm_compute; reflexivity|vm_compute; reflexivity|vm_compute; reflexivity].
Defined.

(** The 45 transfers run on the stream of 24 processors. *)
Example execute_demo :
  execute one_second one_second info system 100 0 45 "decode" controller = (Ok (45, Some 24), controller).
Proof. vm_compute. reflexivity. Qed.

Example small_pool_conserves_witness :
  let xs := [SmallStreamController.CGet 0 1; SmallStreamController.CGet 0 5; SmallStreamController.CDone 0 15] in
  let c' := foldl (λ c x, SmallStreamController.run_call x c) small xs in
  (SmallStreamController.avail_of 0 c' ++ SmallStreamController.inuse_of 0 c'
     ≡ₚ SmallStreamController.avail_of 0 small)
  ∧ match SmallStreamController.get_matched_stream 0 1 c' with
    | (Ok (Some s), c'') => s ∈ SmallStreamController.avail_of 0 c'
        ∧ (s ∉ SmallStreamController.inuse_of 0 c') ∧ s ∈ SmallStreamController.inuse_of 0 c''
    | (Ok None, c'') => c'' = c' ∧ (SmallStreamController.inuse_of 0 c' ≡ₚ SmallStreamController.avail_of 0 small)
    | (Raise _, _) => False
    end.
Proof.
  intros xs. apply (SmallStreamController.small_pool_conserves (λ _, true) gpu_sms split_by_index [0] 8 small xs).
  - vm_compute. reflexivity.
  - intros dev l [= <-]. apply NoDup_seqZ.
  - repeat constructor.
Defined.

(** The processors that a partition size does not divide belong to no stream: 16 streams
    of 8 use 128 of the 132. *)
Example small_pool_drops_remainder :
  SmallStreamController.partitions 8 132 = replicate 16 8.
Proof. vm_compute. reflexivity. Qed.

(** A simulator on this pool admits no transfer and takes a stream at every call. *)
Example small_pool_leaks :
  let '(r, c) := execute one_second one_second info system 100 0 45 "decode" small in
  r = Ok (0, Some 15) ∧ SmallStreamController.inuse_of 0 c = [15].
Proof. vm_compute. done. Qed.
End SimulatorDemo.
