(* ===== verification/FreeQueue.v ===== *)
(** [vllm/v1/core/kv_cache_utils.py], first part: the metadata of the GPU's KV cache blocks
    and the doubly linked list of the free ones.  The links are attributes of the blocks,
    so that blocks are objects in a store and a queue is two sentinels and a count. *)
From S2P Require Export Prelude.
From stdpp Require Import options.

(** The address of a block object. *)
Abbreviation loc := Z.

(** [KVCacheBlock]. *)
Record KVCacheBlock := Block {
  block_id : Z;
  ref_cnt : Z;
  block_hash : option (list Z);
  prev_free_block : option loc;
  next_free_block : option loc;
  is_null : bool
}.

#[export] Instance KVCacheBlock_eq_dec : EqDecision KVCacheBlock.
Proof. solve_decision. Defined.

(** [KVCacheBlock(block_id)]. *)
Definition new_block (i : Z) : KVCacheBlock := Block i 0 None None None false.

Definition set_prev (v : option loc) (b : KVCacheBlock) : KVCacheBlock :=
  Block (block_id b) (ref_cnt b) (block_hash b) v (next_free_block b) (is_null b).
Definition set_next (v : option loc) (b : KVCacheBlock) : KVCacheBlock :=
  Block (block_id b) (ref_cnt b) (block_hash b) (prev_free_block b) v (is_null b).
Definition set_ref_cnt (n : Z) (b : KVCacheBlock) : KVCacheBlock :=
  Block (block_id b) n (block_hash b) (prev_free_block b) (next_free_block b) (is_null b).
Definition set_hash (h : option (list Z)) (b : KVCacheBlock) : KVCacheBlock :=
  Block (block_id b) (ref_cnt b) h (prev_free_block b) (next_free_block b) (is_null b).
Definition set_null (b : KVCacheBlock) : KVCacheBlock :=
  Block (block_id b) (ref_cnt b) (block_hash b) (prev_free_block b) (next_free_block b) true.

(** The objects. *)
Abbreviation store := (gmap loc KVCacheBlock).

Definition obj (s : store) (l : loc) : KVCacheBlock := default (new_block l) (s !! l).

(** An assignment to attributes of the object at [l]. *)
Definition upd (l : loc) (f : KVCacheBlock → KVCacheBlock) (s : store) : store := <[l := f (obj s l)]> s.

Lemma obj_upd s l f : obj (upd l f s) l = f (obj s l).
Proof. unfold obj, upd. by rewrite lookup_insert_eq. Qed.

Lemma obj_upd_ne s l l' f : l' ≠ l → obj (upd l f s) l' = obj s l'.
Proof. intros Hne. unfold obj, upd. by rewrite lookup_insert_ne. Qed.

Module FreeQueue.

(** [FreeKVCacheBlockQueue] with the objects. *)
Record t := FQ {
  objs : store;
  num_free_blocks : Z;
  fake_free_list_head : loc;
  fake_free_list_tail : loc
}.

Definition next (q : t) (l : loc) : option loc := next_free_block (obj (objs q) l).
Definition prev (q : t) (l : loc) : option loc := prev_free_block (obj (objs q) l).

Definition assign (l : loc) (f : KVCacheBlock → KVCacheBlock) (q : t) : t :=
  FQ (upd l f (objs q)) (num_free_blocks q) (fake_free_list_head q) (fake_free_list_tail q).
Definition add_num (n : Z) (q : t) : t :=
  FQ (objs q) (num_free_blocks q + n) (fake_free_list_head q) (fake_free_list_tail q).

Definition unlink (b : KVCacheBlock) : KVCacheBlock := set_prev None (set_next None b).

(** The loop of [__init__] that links consecutive blocks. *)
Definition link_step (blocks : list loc) (i : nat) (q : t) : t :=
  let b := nth i blocks 0 in
  let q := if (0 <? i)%nat then assign b (set_prev (Some (nth (i - 1) blocks 0))) q else q in
  if (i <? length blocks - 1)%nat then assign b (set_next (Some (nth (i + 1) blocks 0))) q else q.

(** [__init__] with the new sentinels at [head] and [tail]. *)
Definition create (s : store) (blocks : list loc) (head tail : loc) : t :=
  let q := foldl (λ q i, link_step blocks i q) (FQ s (zlen blocks) head tail) (seq 0 (length blocks)) in
  let q := assign head (λ _, new_block (-1)) q in
  let q := assign tail (λ _, new_block (-1)) q in
  match blocks with
  | b0 :: _ =>
      let bl := List.last blocks 0 in
      let q := assign head (set_next (Some b0)) q in
      let q := assign b0 (set_prev (Some head)) q in
      let q := assign tail (set_prev (Some bl)) q in
      assign bl (set_next (Some tail)) q
  | [] => assign tail (set_prev (Some head)) (assign head (set_next (Some tail)) q)
  end.

Definition popleft : py t loc :=
  let* q := get_st in
  let empty := passert (num_free_blocks q =? 0) ;;; raise ValueError in
  match next q (fake_free_list_head q) with
  | None => empty
  | Some first_block =>
      if decide (first_block = fake_free_list_tail q) then empty
      else
        match next q first_block with
        | None => raise RuntimeError
        | Some second =>
            modify (assign (fake_free_list_head q) (set_next (Some second))) ;;;
            modify (assign second (set_prev (Some (fake_free_list_head q)))) ;;;
            modify (assign first_block unlink) ;;;
            modify (add_num (-1)) ;;;
            ret first_block
        end
  end.

(** The loop of [popleft_n]: the popped blocks and the current one. *)
Fixpoint pop_loop (n : nat) (curr : option loc) : py t (list loc * option loc) :=
  match n with
  | O => ret ([], curr)
  | S n' =>
      match curr with
      | None => raise AssertionError
      | Some c =>
          let* q := get_st in
          modify (assign c unlink) ;;;
          let* (l, last) := pop_loop n' (next q c) in
          ret (c :: l, last)
      end
  end.

Definition popleft_n (n : Z) : py t (list loc) :=
  if n =? 0 then ret []
  else
    let* q := get_st in
    passert (n <=? num_free_blocks q) ;;;
    modify (add_num (- n)) ;;;
    let* (l, curr) := pop_loop (Z.to_nat n) (next q (fake_free_list_head q)) in
    match curr with
    | None => ret tt
    | Some c =>
        modify (assign (fake_free_list_head q) (set_next (Some c))) ;;;
        modify (assign c (set_prev (Some (fake_free_list_head q))))
    end ;;;
    ret l.

Definition remove (b : loc) : py t unit :=
  let* q := get_st in
  match prev q b, next q b with
  | Some p, Some n =>
      modify (assign p (set_next (Some n))) ;;;
      modify (assign n (set_prev (Some p))) ;;;
      modify (assign b unlink) ;;;
      modify (add_num (-1))
  | _, _ => raise RuntimeError
  end.

Definition append (b : loc) : py t unit :=
  let* q := get_st in
  match prev q (fake_free_list_tail q) with
  | None => raise RuntimeError
  | Some last_block =>
      modify (assign last_block (set_next (Some b))) ;;;
      modify (assign b (set_prev (Some last_block))) ;;;
      modify (assign b (set_next (Some (fake_free_list_tail q)))) ;;;
      modify (assign (fake_free_list_tail q) (set_prev (Some b))) ;;;
      modify (add_num 1)
  end.

(** The loop of [append_n]: the links behind [last_block], and the new last block. *)
Fixpoint append_loop (bs : list loc) (last_block : loc) (q : t) : loc * t :=
  match bs with
  | [] => (last_block, q)
  | b :: bs' => append_loop bs' b (assign last_block (set_next (Some b)) (assign b (set_prev (Some last_block)) q))
  end.

Definition append_n (bs : list loc) : py t unit :=
  match bs with
  | [] => ret tt
  | _ =>
      let* q := get_st in
      match prev q (fake_free_list_tail q) with
      | None => raise AssertionError
      | Some last_block =>
          let '(last_block, q) := append_loop bs last_block q in
          put_st (add_num (zlen bs)
            (assign (fake_free_list_tail q) (set_prev (Some last_block))
              (assign last_block (set_next (Some (fake_free_list_tail q))) q)))
      end
  end.

(** The loop of [get_all_free_blocks]; [None] when the fuel runs out. *)
Fixpoint walk (fuel : nat) (q : t) (curr : loc) : option (list loc) :=
  match fuel with
  | O => None
  | S fuel' =>
      match next q curr with
      | None => Some []
      | Some n => cons curr <$> walk fuel' q n
      end
  end.

Definition get_all_free_blocks (fuel : nat) (q : t) : result (option (list loc)) :=
  match next q (fake_free_list_head q) with
  | None => Raise RuntimeError
  | Some c => Ok (walk fuel q c)
  end.

(** *** The list that a queue represents *)

(** Consecutive objects of a path point at each other. *)
Fixpoint linked (q : t) (p : list loc) : Prop :=
  match p with
  | a :: ((b :: _) as p') =>
      next q a = Some b ∧ prev q b = Some a ∧ linked q p'
  | _ => True
  end.

Definition path (q : t) (l : list loc) : list loc := fake_free_list_head q :: l ++ [fake_free_list_tail q].

(** The queue holds the blocks [l] in this order; no other object has links, which
    [remove] relies on to refuse a block that is not free. *)
Record rep (q : t) (l : list loc) : Prop := Rep {
  rep_nodup : NoDup (path q l);
  rep_linked : linked q (path q l);
  rep_num : num_free_blocks q = zlen l;
  rep_ends : prev q (fake_free_list_head q) = None ∧ next q (fake_free_list_tail q) = None;
  rep_out : ∀ x, x ∉ path q l → prev q x = None ∧ next q x = None
}.

(** What the queue leaves alone. *)
Definition data (b : KVCacheBlock) : Z * Z * option (list Z) * bool :=
  (block_id b, ref_cnt b, block_hash b, is_null b).

Definition same_data (q q' : t) : Prop :=
  fake_free_list_head q' = fake_free_list_head q ∧ fake_free_list_tail q' = fake_free_list_tail q
  ∧ ∀ x, data (obj (objs q') x) = data (obj (objs q) x).

#[export] Instance same_data_po : PreOrder same_data.
Proof.
  split; [by intros q|]. intros q1 q2 q3 (H1 & H2 & H3) (H4 & H5 & H6).
  split; [congruence|]. split; [congruence|]. intros x. by rewrite H6.
Qed.

Lemma linked_cons q a b p :
  linked q (a :: b :: p) ↔
  next q a = Some b ∧ prev q b = Some a ∧ linked q (b :: p).
Proof. done. Qed.

Lemma linked_app q p1 a p2 : linked q (p1 ++ a :: p2) ↔ linked q (p1 ++ [a]) ∧ linked q (a :: p2).
Proof.
  induction p1 as [|x p1 IH]; [by simpl; intuition|].
  destruct p1 as [|y p1]; [simpl; intuition|].
  change ((x :: y :: p1) ++ a :: p2) with (x :: y :: (p1 ++ a :: p2)).
  change ((x :: y :: p1) ++ [a]) with (x :: y :: (p1 ++ [a])).
  rewrite !linked_cons. change (y :: p1 ++ a :: p2) with ((y :: p1) ++ a :: p2). rewrite IH. simpl. tauto.
Qed.

(** A chain depends on the [next] of all but its last object and on the [prev] of all but
    its first. *)
Lemma linked_ext q q' p :
  (∀ i a b, p !! i = Some a → p !! S i = Some b →
     next q' a = next q a
     ∧ prev q' b = prev q b) →
  linked q p → linked q' p.
Proof.
  induction p as [|a p IH]; intros Hext; [done|]. destruct p as [|b p]; [done|].
  rewrite !linked_cons. intros (Hn & Hp & Hl). destruct (Hext 0%nat a b eq_refl eq_refl) as [-> ->].
  split; [done|]. split; [done|]. apply IH; [|done]. intros i x y Hx Hy. by apply (Hext (S i)).
Qed.

(** A chain whose first object may have got another [prev]. *)
Lemma linked_ext_tail q q' a p :
  (∀ x, x ∈ a :: p → next q' x = next q x) →
  (∀ x, x ∈ p → prev q' x = prev q x) →
  linked q (a :: p) → linked q' (a :: p).
Proof.
  intros Hn Hp. apply linked_ext. intros i x y Hx Hy.
  split; [apply Hn; by apply list_elem_of_lookup_2 in Hx|apply Hp; by apply (list_elem_of_lookup_2 _ i)].
Qed.

(** A chain whose last object may have got another [next]. *)
Lemma linked_ext_init q q' p a :
  (∀ x, x ∈ p → next q' x = next q x) →
  (∀ x, x ∈ p ++ [a] → prev q' x = prev q x) →
  linked q (p ++ [a]) → linked q' (p ++ [a]).
Proof.
  intros Hn Hp. apply linked_ext. intros i x y Hx Hy.
  split; [|apply Hp; by apply (list_elem_of_lookup_2 _ (S i))]. apply Hn.
  apply lookup_lt_Some in Hy. rewrite length_app in Hy. simpl in Hy.
  rewrite lookup_app_l in Hx by lia. by apply list_elem_of_lookup_2 in Hx.
Qed.

(** The links after assignments. *)
Lemma next_set_next q l v x : next (assign l (set_next v) q) x = if decide (x = l) then v else next q x.
Proof. unfold next, assign. simpl. case_decide as H; [subst; by rewrite obj_upd|by rewrite obj_upd_ne]. Qed.

Lemma next_set_prev q l v x : next (assign l (set_prev v) q) x = next q x.
Proof.
  unfold next, assign. simpl. destruct (decide (x = l)) as [->|H]; [by rewrite obj_upd|by rewrite obj_upd_ne].
Qed.

Lemma prev_set_prev q l v x : prev (assign l (set_prev v) q) x = if decide (x = l) then v else prev q x.
Proof. unfold prev, assign. simpl. case_decide as H; [subst; by rewrite obj_upd|by rewrite obj_upd_ne]. Qed.

Lemma prev_set_next q l v x : prev (assign l (set_next v) q) x = prev q x.
Proof.
  unfold prev, assign. simpl. destruct (decide (x = l)) as [->|H]; [by rewrite obj_upd|by rewrite obj_upd_ne].
Qed.

Lemma next_unlink q l x : next (assign l unlink q) x = if decide (x = l) then None else next q x.
Proof. unfold next, assign. simpl. case_decide as H; [subst; by rewrite obj_upd|by rewrite obj_upd_ne]. Qed.

Lemma prev_unlink q l x : prev (assign l unlink q) x = if decide (x = l) then None else prev q x.
Proof. unfold prev, assign. simpl. case_decide as H; [subst; by rewrite obj_upd|by rewrite obj_upd_ne]. Qed.

Lemma next_add_num q n x : next (add_num n q) x = next q x.
Proof. done. Qed.

Lemma prev_add_num q n x : prev (add_num n q) x = prev q x.
Proof. done. Qed.

Create Rewrite HintDb fq.
#[local] Hint Rewrite next_set_next next_set_prev prev_set_prev prev_set_next next_unlink prev_unlink
  next_add_num prev_add_num : fq.

(** Reads the links of assigned objects. *)
Ltac links := autorewrite with fq; simpl; repeat case_decide; simplify_eq; try done.

(** Splits the memberships of a hypothesis. *)
Ltac members :=
  repeat match goal with
  | H : _ ∈ _ :: _ |- _ => apply elem_of_cons in H as [H|H]
  | H : _ ∈ _ ++ _ |- _ => apply elem_of_app in H as [H|H]
  | H : _ ∈ [] |- _ => apply elem_of_nil in H
  end; simplify_eq; try done.

(** Turns [NoDup] into disequalities and absences. *)
Ltac nodup :=
  repeat match goal with
  | H : NoDup (_ :: _) |- _ => apply NoDup_cons in H as [? H]
  | H : NoDup (_ ++ _) |- _ => apply NoDup_app in H as (? & ? & H)
  | H : _ ∉ _ :: _ |- _ => apply not_elem_of_cons in H as [? H]
  | H : _ ∉ _ ++ _ |- _ => apply not_elem_of_app in H as [? H]
  end.

Lemma assign_data l f q : (∀ b, data (f b) = data b) → same_data q (assign l f q).
Proof.
  intros Hf. split; [done|]. split; [done|]. intros x. simpl.
  destruct (decide (x = l)) as [->|Hne]; [by rewrite obj_upd|by rewrite obj_upd_ne].
Qed.

Lemma add_num_data n q : same_data q (add_num n q).
Proof. done. Qed.

Ltac keeps_data := repeat (first [apply add_num_data | etransitivity; [|apply assign_data; done] | reflexivity]).

Lemma path_same q q' l :
  fake_free_list_head q' = fake_free_list_head q → fake_free_list_tail q' = fake_free_list_tail q →
  path q' l = path q l.
Proof. unfold path. by intros -> ->. Qed.

Lemma path_ne q l :
  NoDup (path q l) →
  fake_free_list_head q ≠ fake_free_list_tail q
  ∧ ∀ x, x ∈ l → x ≠ fake_free_list_head q ∧ x ≠ fake_free_list_tail q.
Proof.
  unfold path. intros Hnd. nodup. split; [done|].
  intros x Hx. split; [by intros ->|]. intros ->. apply (H1 _ Hx). by left.
Qed.

(** Absence from a list, for [links]. *)
Ltac absent := repeat (apply not_elem_of_cons; split; [done|]); try done; try apply not_elem_of_nil.

Lemma popleft_spec q x l :
  rep q (x :: l) → ∃ q', popleft q = (Ok x, q') ∧ rep q' l ∧ same_data q q'.
Proof.
  intros [Hnd Hl Hnum [He1 He2] Hout]. destruct (path_ne _ _ Hnd) as [Hht Hne].
  destruct (Hne x ltac:(by left)) as [_ Hxt]. clear Hne. unfold path in *. simpl in *.
  destruct (l ++ [fake_free_list_tail q]) as [|y r] eqn:E; [by destruct l|].
  destruct Hl as (Hhx & Hxh & Hxy & Hyx & Hr).
  unfold popleft, bind, get_st. rewrite Hhx, decide_False, Hxy by done.
  eexists. split; [reflexivity|]. split; [|keeps_data].
  nodup. split.
  - unfold path. simpl. rewrite E. by repeat (apply NoDup_cons; split; [absent|]).
  - unfold path. simpl. rewrite E. split; [links|]. split; [links|].
    apply (linked_ext_tail q); [..|done]; intros z Hz; links; members.
  - simpl. rewrite Hnum, zlen_cons. lia.
  - simpl. split; links.
  - simpl. intros z Hz. unfold path in Hz. simpl in Hz. rewrite E in Hz. nodup.
    destruct (decide (z = x)) as [->|Hzx]; [split; links|].
    destruct (Hout z) as [Hp Hn]; [absent|]. split; links.
Qed.

Lemma popleft_empty q : rep q [] → popleft q = (Raise ValueError, q).
Proof.
  intros [Hnd Hl Hnum _ _]. simpl in Hl. destruct Hl as (Hn & _).
  unfold popleft, bind, get_st. rewrite Hn, decide_True, Hnum by done. done.
Qed.

(** All of a list unlinked. *)
Definition unlink_all (l : list loc) (q : t) : t := foldl (λ q c, assign c unlink q) q l.

Lemma next_unlink_all l q x : next (unlink_all l q) x = if decide (x ∈ l) then None else next q x.
Proof.
  revert q. induction l as [|c l IH]; intros q; [by rewrite decide_False by apply not_elem_of_nil|].
  cbn [unlink_all foldl]. fold (unlink_all l (assign c unlink q)). rewrite IH, next_unlink.
  destruct (decide (x ∈ l)) as [Hin|Hin]; [by rewrite decide_True by (by right)|].
  destruct (decide (x = c)) as [->|Hne]; [by rewrite decide_True by (by left)|].
  rewrite decide_False; [done|]. absent.
Qed.

Lemma prev_unlink_all l q x : prev (unlink_all l q) x = if decide (x ∈ l) then None else prev q x.
Proof.
  revert q. induction l as [|c l IH]; intros q; [by rewrite decide_False by apply not_elem_of_nil|].
  cbn [unlink_all foldl]. fold (unlink_all l (assign c unlink q)). rewrite IH, prev_unlink.
  destruct (decide (x ∈ l)) as [Hin|Hin]; [by rewrite decide_True by (by right)|].
  destruct (decide (x = c)) as [->|Hne]; [by rewrite decide_True by (by left)|].
  rewrite decide_False; [done|]. absent.
Qed.

Lemma unlink_all_data l q : same_data q (unlink_all l q).
Proof.
  revert q. induction l as [|c l IH]; intros q; [reflexivity|]. cbn [unlink_all foldl].
  etransitivity; [|apply IH]. by apply assign_data.
Qed.

Lemma unlink_all_num l q : num_free_blocks (unlink_all l q) = num_free_blocks q.
Proof. revert q. induction l as [|c l IH]; intros q; [done|]. exact (IH (assign c unlink q)). Qed.
#[local] Hint Rewrite next_unlink_all prev_unlink_all : fq.

Lemma pop_loop_spec p y r q :
  linked q (p ++ y :: r) → NoDup (p ++ y :: r) →
  pop_loop (length p) (head (p ++ y :: r)) q = (Ok (p, Some y), unlink_all p q).
Proof.
  revert q. induction p as [|c p IH]; intros q Hl Hnd; [done|]. simpl in Hnd. apply NoDup_cons in Hnd as [Hc Hnd].
  cbn [pop_loop length app head]. unfold bind, get_st, modify.
  assert (next q c = head (p ++ y :: r)) as ->.
  { destruct p; cbn [app head] in *; by destruct Hl as [-> _]. }
  rewrite IH; [done| |done]. assert (linked q (p ++ y :: r)) as Hl' by (destruct p; apply Hl).
  revert Hl'. apply linked_ext. intros i a b Ha Hb.
  apply list_elem_of_lookup_2 in Ha, Hb. split; links.
Qed.

Lemma linked_add_num q n p : linked q p → linked (add_num n q) p.
Proof. by apply linked_ext. Qed.

Lemma popleft_n_spec q p l :
  rep q (p ++ l) → ∃ q', popleft_n (zlen p) q = (Ok p, q') ∧ rep q' l ∧ same_data q q'.
Proof.
  intros Hrep. destruct p as [|c p0]; [by exists q|]. set (p := c :: p0) in *.
  destruct Hrep as [Hnd Hl Hnum [He1 He2] Hout]. destruct (path_ne _ _ Hnd) as [Hht Hne].
  unfold path in *. rewrite <- app_assoc in *.
  destruct (l ++ [fake_free_list_tail q]) as [|y r] eqn:E; [by destruct l|].
  assert (next q (fake_free_list_head q) = head (p ++ y :: r)) as Hh by apply Hl.
  assert (linked q (p ++ y :: r)) as Hl' by apply Hl.
  assert (linked q (y :: r)) as Hr by (by apply linked_app in Hl' as [_ ?]).
  unfold popleft_n. rewrite (proj2 (Z.eqb_neq (zlen p) 0)) by (unfold p; rewrite zlen_cons; pose proof (zlen_nonneg p0); lia).
  unfold bind at 1, get_st at 1, bind at 1, passert, lift.
  rewrite Hnum, (proj2 (Z.leb_le _ _)) by (rewrite zlen_app; pose proof (zlen_nonneg l); lia). simpl rassert. cbv iota beta.
  unfold bind, modify. replace (Z.to_nat (zlen p)) with (length p) by (unfold zlen; lia).
  rewrite Hh, pop_loop_spec; [|by apply linked_add_num|by apply NoDup_cons in Hnd as [_ ?]].
  match goal with |- context [ret p ?q'] => exists q'; assert (same_data q q') as Hsame end.
  { etransitivity; [apply (add_num_data (- zlen p))|]. etransitivity; [apply (unlink_all_data p)|]. keeps_data. }
  split; [done|]. split; [|done]. pose proof Hsame as (Eh & Et & _).
  apply NoDup_cons in Hnd as [Hhp Hnd]. apply NoDup_app in Hnd as (Hp & Hpy & Hnd).
  apply not_elem_of_app in Hhp as [Hhp Hhr].
  assert (fake_free_list_tail q ∈ y :: r) as Hty by (rewrite <- E; apply elem_of_app; right; by left).
  split.
  - rewrite (path_same _ _ _ Eh Et). unfold path. rewrite E. by apply NoDup_cons.
  - rewrite (path_same _ _ _ Eh Et). unfold path. rewrite E. apply linked_cons. nodup. split; [links|]. split; [links|].
    apply (linked_ext_tail q); [..|done]; intros z Hz; links; members; exfalso; (eapply Hpy; [eassumption|]); first [by left|by right].
  - simpl. rewrite unlink_all_num. simpl. rewrite Hnum, zlen_app. lia.
  - rewrite Eh, Et. nodup. split; links.
  - rewrite (path_same _ _ _ Eh Et). unfold path. rewrite E. intros z Hz. nodup.
    destruct (decide (z ∈ p)) as [Hzp|Hzp]; [split; links|].
    destruct (Hout z) as [Hpr Hnx]; [absent; apply not_elem_of_app; split; [done|absent]|]. split; links.
Qed.

Lemma popleft_n_too_many q l n :
  rep q l → zlen l < n → popleft_n n q = (Raise AssertionError, q).
Proof.
  intros Hrep Hn. pose proof (zlen_nonneg l). unfold popleft_n.
  rewrite (proj2 (Z.eqb_neq n 0)) by lia. unfold bind, get_st, passert, lift.
  rewrite (rep_num _ _ Hrep), (proj2 (Z.leb_gt n (zlen l))) by lia. done.
Qed.

(** A path up to an inner block, with the block before it split off. *)
Lemma path_split q l1 r :
  ∃ pre a, fake_free_list_head q :: l1 ++ r = pre ++ a :: r ∧ fake_free_list_head q :: l1 = pre ++ [a].
Proof.
  destruct (exists_last (l := fake_free_list_head q :: l1)) as (pre & a & E); [done|].
  exists pre, a. rewrite app_comm_cons, E, <- app_assoc. done.
Qed.

Lemma remove_spec q l1 x l2 :
  rep q (l1 ++ x :: l2) → ∃ q', remove x q = (Ok tt, q') ∧ rep q' (l1 ++ l2) ∧ same_data q q'.
Proof.
  intros [Hnd Hl Hnum [He1 He2] Hout]. destruct (path_ne _ _ Hnd) as [Hht Hne].
  destruct (Hne x) as [Hxh Hxt]; [apply elem_of_app; right; by left|]. clear Hne.
  assert (∀ r, fake_free_list_head q :: (l1 ++ r) ++ [fake_free_list_tail q]
               = fake_free_list_head q :: l1 ++ (r ++ [fake_free_list_tail q])) as Ea by (intros; by rewrite <- app_assoc).
  unfold path in *. rewrite Ea in *. cbn [app] in *.
  destruct (l2 ++ [fake_free_list_tail q]) as [|y r] eqn:E; [by destruct l2|].
  destruct (path_split q l1 (x :: y :: r)) as (pre & a & E1 & E2). rewrite E1 in *.
  assert (fake_free_list_head q :: l1 ++ y :: r = pre ++ a :: y :: r) as E3.
  { by rewrite app_comm_cons, E2, <- app_assoc. }
  apply linked_app in Hl as (Hpre & Hax & Hxa & Hxy & Hyx & Hr).
  unfold remove, bind, get_st. rewrite Hxa, Hxy.
  eexists. split; [reflexivity|]. split; [|keeps_data].
  assert (fake_free_list_head q ∈ pre ++ [a]) as Hh by (rewrite <- E2; by left).
  assert (fake_free_list_tail q ∈ y :: r) as Ht by (rewrite <- E; apply elem_of_app; right; by left).
  apply NoDup_app in Hnd as (Hn1 & Hn2 & Hn3).
  assert (∀ z, z ∈ pre → z ≠ a ∧ z ≠ x ∧ z ≠ y ∧ z ∉ r) as Hn4.
  { intros z Hz. specialize (Hn2 z Hz). nodup. done. }
  nodup. split.
  - rewrite (path_same q) by done. unfold path. rewrite Ea, E, E3. apply NoDup_app. split; [done|]. split.
    + intros z Hz. destruct (Hn4 z Hz) as (? & ? & ? & ?). absent.
    + by repeat (apply NoDup_cons; split; [absent|]).
  - rewrite (path_same q) by done. unfold path. rewrite Ea, E, E3. apply linked_app. split; [|split; [links|split; [links|]]].
    + apply (linked_ext_init q); [..|done]; intros z Hz.
      * destruct (Hn4 z Hz) as (? & ? & ? & ?). links.
      * apply elem_of_app in Hz as [Hz|Hz]; [destruct (Hn4 z Hz) as (? & ? & ? & ?); links|]. members; links.
    + apply (linked_ext_tail q); [..|done]; intros z Hz; links; members.
  - simpl. rewrite Hnum, !zlen_app, zlen_cons. lia.
  - simpl. split; links; members; exfalso; by (eapply Hn4; [eassumption|]).
  - rewrite (path_same q) by done. unfold path. rewrite Ea, E, E3. intros z [Hz1 Hz2]%not_elem_of_app. nodup.
    destruct (decide (z = x)) as [->|Hzx]; [split; links|].
    destruct (Hout z) as [Hp Hn]; [apply not_elem_of_app; split; [done|absent]|]. split; links.
Qed.

Lemma remove_absent q l x : rep q l → x ∉ path q l → remove x q = (Raise RuntimeError, q).
Proof. intros Hr Hx. unfold remove, bind, get_st. by destruct (rep_out q l Hr x Hx) as [-> _]. Qed.

(** The chain that [append_loop] builds behind an object, and what it leaves. *)
Lemma append_loop_spec bs a q pre :
  NoDup (pre ++ a :: bs) → linked q (pre ++ [a]) →
  let '(b, q') := append_loop bs a q in
  linked q' (pre ++ a :: bs) ∧ (∃ l, a :: bs = l ++ [b])
  ∧ (∀ x, x ∉ a :: bs → next q' x = next q x) ∧ (∀ x, x ∉ bs → prev q' x = prev q x)
  ∧ same_data q q' ∧ num_free_blocks q' = num_free_blocks q.
Proof.
  revert a q pre. induction bs as [|b bs IH]; intros a q pre Hnd Hl; simpl.
  { split; [done|]. split; [by exists []|]. done. }
  set (q1 := assign a (set_next (Some b)) (assign b (set_prev (Some a)) q)).
  assert (linked q1 ((pre ++ [a]) ++ [b])) as Hl1.
  { apply NoDup_app in Hnd as (Hpre & Hpa & Hnd). apply NoDup_cons in Hnd as [Ha Hnd]. apply not_elem_of_cons in Ha as [Hab _].
    rewrite <- app_assoc. apply linked_app. split; [|split; [subst q1; links|split; [subst q1; links|done]]].
    revert Hl. apply linked_ext_init; intros z Hz; subst q1; links.
    - exfalso. apply (Hpa a Hz). by left.
    - apply elem_of_app in Hz as [Hz|Hz]; [|members]. exfalso. apply (Hpa b Hz). right. by left. }
  specialize (IH b q1 (pre ++ [a])). rewrite <- app_assoc in IH. specialize (IH Hnd Hl1).
  destruct (append_loop bs b q1) as [c q']. destruct IH as (Hc1 & (l & Hc2) & Hc3 & Hc4 & Hc5 & Hc6).
  split; [done|]. split; [exists (a :: l); by rewrite Hc2|]. split; [|split; [|split; [|done]]].
  - intros x [Hxa Hx]%not_elem_of_cons. rewrite Hc3 by done. subst q1. links.
  - intros x [Hxb Hx]%not_elem_of_cons. rewrite Hc4 by done. subst q1. links.
  - etransitivity; [|apply Hc5]. subst q1. keeps_data.
Qed.

(** New elements before the last one. *)
Lemma nodup_insert (pre bs : list loc) a tl :
  NoDup (pre ++ [a; tl]) → NoDup bs → (∀ x, x ∈ bs → x ∉ pre ++ [a; tl]) → NoDup (pre ++ a :: bs ++ [tl]).
Proof.
  intros Hnd Hbs Hfresh. assert (pre ++ a :: bs ++ [tl] ≡ₚ (pre ++ [a; tl]) ++ bs) as ->.
  { rewrite (Permutation_app_comm bs). by rewrite <- app_assoc. }
  apply NoDup_app. split; [done|]. split; [|done]. intros x Hx Hxb. by apply (Hfresh x).
Qed.

Lemma append_n_spec q l bs :
  rep q l → NoDup bs → (∀ x, x ∈ bs → x ∉ path q l) →
  ∃ q', append_n bs q = (Ok tt, q') ∧ rep q' (l ++ bs) ∧ same_data q q'.
Proof.
  intros Hrep Hbs Hfresh. destruct bs as [|b0 bs0]; [exists q; by rewrite app_nil_r|]. set (bs := b0 :: bs0) in *.
  destruct Hrep as [Hnd Hl Hnum [He1 He2] Hout]. destruct (path_ne _ _ Hnd) as [Hht _].
  set (h := fake_free_list_head q) in *. set (tl := fake_free_list_tail q) in *.
  destruct (path_split q l [tl]) as (pre & a & E1 & E2). fold h in E1, E2.
  assert (path q l = pre ++ [a; tl]) as E3 by done. rewrite E3 in Hnd, Hl, Hout. setoid_rewrite E3 in Hfresh.
  apply linked_app in Hl as (Hpre & Hat & Hta & _).
  pose proof (nodup_insert pre bs a tl Hnd Hbs Hfresh) as Hnd2.
  pose proof (append_loop_spec bs a q pre) as Hloop.
  unfold append_n, bs, bind, get_st. fold tl. rewrite Hta. fold bs.
  destruct (append_loop bs a q) as [c q1]. destruct Hloop as (Hl1 & (lc & Hc) & Hn1 & Hp1 & Hs1 & Hm1).
  { rewrite app_comm_cons, app_assoc in Hnd2. by apply NoDup_app in Hnd2 as [? _]. }
  { done. }
  rewrite (proj1 (proj2 Hs1)). fold tl.
  match goal with |- context [put_st ?q' _] => exists q'; assert (same_data q q') as Hsame end.
  { etransitivity; [apply Hs1|]. keeps_data. }
  split; [done|]. split; [|done]. pose proof Hsame as (Eh & Et & _).
  assert (pre ++ a :: bs = (pre ++ lc) ++ [c]) as Ec by (by rewrite Hc, app_assoc).
  assert (path q (l ++ bs) = (pre ++ lc) ++ [c; tl]) as Ep.
  { unfold path. fold h tl. rewrite <- app_assoc, app_comm_cons, E2, <- app_assoc. cbn [app].
    by rewrite (app_comm_cons bs), Hc, <- !app_assoc. }
  rewrite Ec in Hl1. rewrite app_comm_cons, app_assoc, Ec, <- app_assoc in Hnd2. cbn [app] in Hnd2.
  assert (h ∉ bs) as Hh by (intros Hx; apply (Hfresh h Hx); rewrite <- E1; by left).
  apply NoDup_app in Hnd2 as (Hd1 & Hd2 & Hd3).
  pose proof Hd3 as [[Hctl _]%not_elem_of_cons _]%NoDup_cons.
  assert (∀ x, x ∈ a :: bs → x ∈ pre ++ lc ∨ x = c) as Hbc.
  { intros x. rewrite Hc. intros [Hx|Hx]%elem_of_app; [left; apply elem_of_app; by right|]. right. members. }
  assert (tl ∉ a :: bs) as Ht.
  { intros [Hx| ->]%Hbc; [|done]. apply (Hd2 tl Hx). right. by left. }
  split; rewrite ?(path_same _ _ _ Eh Et), ?Ep.
  - apply NoDup_app. done.
  - apply linked_app. split; [|split; [links|split; [links|done]]].
    revert Hl1. apply linked_ext_init; intros z Hz; links.
    + exfalso. apply (Hd2 c Hz). by left.
    + exfalso. apply elem_of_app in Hz as [Hz|Hz]; [|members]. apply (Hd2 tl Hz). right. by left.
  - simpl. rewrite Hm1, Hnum, zlen_app. lia.
  - rewrite Eh, Et. fold h tl. split; links; [by rewrite Hp1|by rewrite Hn1].
  - intros x Hx. apply not_elem_of_app in Hx as [Hx1 Hx2].
    assert (x ∉ a :: bs) as Hxb by (intros [Hx| ->]%Hbc; [done|]; apply Hx2; by left).
    apply not_elem_of_cons in Hxb as [Hxa Hxb]. apply not_elem_of_cons in Hx2 as [Hxc [Hxt _]%not_elem_of_cons].
    destruct (Hout x) as [Hp Hn]; [apply not_elem_of_app; split; [|absent]|].
    { intros Hx. apply Hx1, elem_of_app. by left. }
    split; links; [rewrite Hp1 by done|rewrite Hn1 by absent]; done.
Qed.

Lemma assign_comm l l' f g q : l ≠ l' → assign l f (assign l' g q) = assign l' g (assign l f q).
Proof.
  intros Hne. unfold assign. simpl. f_equal. unfold upd. fold (upd l' g (objs q)) (upd l f (objs q)).
  rewrite !obj_upd_ne by done. by apply insert_insert_ne.
Qed.

Lemma append_spec q l b :
  rep q l → b ∉ path q l → ∃ q', append b q = (Ok tt, q') ∧ rep q' (l ++ [b]) ∧ same_data q q'.
Proof.
  intros Hrep Hb. destruct (append_n_spec q l [b] Hrep) as (q' & Hq & Hq').
  { apply NoDup_singleton. }
  { by intros x ->%list_elem_of_singleton. }
  exists q'. split; [|done]. rewrite <- Hq.
  destruct (path_split q l [fake_free_list_tail q]) as (pre & a & E1 & _).
  pose proof (rep_linked q l Hrep) as Hl. unfold path in Hb, Hl. rewrite E1 in Hb, Hl.
  apply linked_app in Hl as (_ & _ & Hta & _).
  assert (a ≠ b) as Hab by (intros ->; apply Hb, elem_of_app; right; by left).
  unfold append, append_n, bind, get_st, modify, put_st. rewrite Hta. simpl.
  by rewrite (assign_comm a b).
Qed.

Lemma walk_spec q p a fuel :
  linked q (p ++ [a]) → next q a = None → (length p < fuel)%nat →
  match p ++ [a] with x :: _ => walk fuel q x = Some p | [] => True end.
Proof.
  revert fuel. induction p as [|x p IH]; intros fuel Hl Ha Hf; (destruct fuel as [|fuel]; [simpl in Hf; lia|]).
  - simpl. by rewrite Ha.
  - simpl in *. specialize (IH fuel). destruct (p ++ [a]) as [|y r] eqn:E; [by destruct p|].
    destruct Hl as (Hn & _ & Hl). rewrite Hn, IH by (done || lia). done.
Qed.

Lemma get_all_free_blocks_spec q l fuel :
  rep q l → (length l < fuel)%nat → get_all_free_blocks fuel q = Ok (Some l).
Proof.
  intros [Hnd Hl Hnum [He1 He2] _] Hf. unfold path in Hl.
  pose proof (walk_spec q l (fake_free_list_tail q) fuel) as Hw.
  unfold get_all_free_blocks. destruct (l ++ [fake_free_list_tail q]) as [|y r] eqn:E; [by destruct l|].
  destruct Hl as (Hn & _ & Hl). by rewrite Hn, Hw.
Qed.

(** *** The constructor *)

Lemma lookup_nth (l : list loc) i : (i < length l)%nat → l !! i = Some (nth i l 0).
Proof. intros Hi. destruct (lookup_lt_is_Some_2 l i Hi) as [x Hx]. by rewrite Hx, (nth_lookup_Some _ _ _ _ Hx). Qed.

(** The links of a block after [k] iterations of the constructor's loop. *)
Lemma link_steps s blocks k h tl :
  NoDup blocks → (∀ x, next_free_block (obj s x) = None ∧ prev_free_block (obj s x) = None) →
  (k ≤ length blocks)%nat →
  let q0 := FQ s (zlen blocks) h tl in
  let q := foldl (λ q i, link_step blocks i q) q0 (seq 0 k) in
  (∀ i b, blocks !! i = Some b →
     prev q b = (if (0 <? i)%nat && (i <? k)%nat then blocks !! (i - 1)%nat else None)
     ∧ next q b = (if (i <? k)%nat then blocks !! S i else None))
  ∧ (∀ x, x ∉ blocks → prev q x = None ∧ next q x = None)
  ∧ same_data q0 q ∧ num_free_blocks q = zlen blocks.
Proof.
  intros Hnd Hs. induction k as [|k IH]; intros Hk q0 q.
  { split; [|split; [|done]]; intros; [destruct (0 <? i)%nat|]; split; apply Hs. }
  specialize (IH ltac:(lia)) as (Hin & Hout & Hd & Hnum). fold q0 in Hin, Hout, Hd, Hnum.
  subst q. rewrite seq_S, foldl_app. simpl. set (q := foldl _ q0 (seq 0 k)) in *.
  pose proof (lookup_nth blocks k ltac:(lia)) as Hc. unfold link_step. set (c := nth k blocks 0) in *.
  set (q1 := if (0 <? k)%nat then _ else q).
  assert (∀ x, next q1 x = next q x) as Hn1 by (intros x; subst q1; destruct (0 <? k)%nat; links).
  assert (∀ x, prev q1 x = if decide (x = c ∧ (0 < k)%nat) then blocks !! (k - 1)%nat else prev q x) as Hp1.
  { intros x. subst q1. destruct (Nat.ltb_spec 0 k) as [Hk0|Hk0]; links; try (exfalso; lia || tauto).
    by rewrite lookup_nth by lia. }
  assert (same_data q0 q1 ∧ num_free_blocks q1 = zlen blocks) as [Hd1 Hnum1].
  { subst q1. destruct (0 <? k)%nat; [|done]. split; [|done]. etransitivity; [apply Hd|]. keeps_data. }
  set (q2 := if (k <? length blocks - 1)%nat then _ else q1).
  assert (∀ x, prev q2 x = prev q1 x) as Hp2 by (intros x; subst q2; destruct (k <? _)%nat; links).
  assert (∀ x, next q2 x = if decide (x = c) then blocks !! S k else next q x) as Hn2.
  { intros x. subst q2. destruct (Nat.ltb_spec k (length blocks - 1)) as [Hk1|Hk1].
    - rewrite next_set_next, Hn1. destruct (decide (x = c)); [|done]. by rewrite Nat.add_1_r, lookup_nth by lia.
    - rewrite Hn1. destruct (decide (x = c)) as [Hx|Hx]; [|done]. rewrite Hx. destruct (Hin k c Hc) as [_ ->].
      rewrite (proj2 (Nat.ltb_ge k k)) by lia. rewrite lookup_ge_None_2 by lia. done. }
  split; [|split; [|split]].
  - intros i b Hb. destruct (Hin i b Hb) as [Hp Hn]. rewrite Hp2, Hp1, Hn2.
    assert (b = c ↔ i = k) as Hbc.
    { split; [intros ->; by eapply NoDup_lookup|intros ->; congruence]. }
    destruct (decide (i = k)) as [->|Hik].
    + rewrite (decide_True (P := b = c)) by tauto. rewrite Hp, (proj2 (Nat.ltb_ge k k)), (proj2 (Nat.ltb_lt k (S k))) by lia.
      rewrite andb_false_r, andb_true_r. split; [|done].
      destruct (Nat.ltb_spec 0 k); [by rewrite decide_True by tauto|by rewrite decide_False by (intros [_ ?]; lia)].
    + rewrite !decide_False by tauto. rewrite Hp, Hn.
      replace (i <? S k)%nat with (i <? k)%nat; [done|]. destruct (Nat.ltb_spec i k), (Nat.ltb_spec i (S k)); lia.
  - intros x Hx. rewrite Hp2, Hp1, Hn2.
    assert (x ≠ c) by (intros ->; apply Hx; by apply list_elem_of_lookup_2 in Hc).
    rewrite !decide_False by tauto. by apply Hout.
  - subst q2. destruct (k <? _)%nat; [|done]. etransitivity; [apply Hd1|]. keeps_data.
  - subst q2. by destruct (k <? _)%nat.
Qed.

Lemma linked_lookup q p :
  (∀ i a b, p !! i = Some a → p !! S i = Some b → next q a = Some b ∧ prev q b = Some a) → linked q p.
Proof.
  induction p as [|a p IH]; intros H; [done|]. destruct p as [|b p]; [done|]. apply linked_cons.
  destruct (H 0%nat a b eq_refl eq_refl) as [Hn Hp]. split; [done|]. split; [done|].
  apply IH. intros i x y Hx Hy. by apply (H (S i)).
Qed.

Lemma next_sentinel q l x :
  next (assign l (λ _, new_block (-1)) q) x = if decide (x = l) then None else next q x.
Proof. unfold next, assign. simpl. case_decide as H; [subst; by rewrite obj_upd|by rewrite obj_upd_ne]. Qed.

Lemma prev_sentinel q l x :
  prev (assign l (λ _, new_block (-1)) q) x = if decide (x = l) then None else prev q x.
Proof. unfold prev, assign. simpl. case_decide as H; [subst; by rewrite obj_upd|by rewrite obj_upd_ne]. Qed.
#[local] Hint Rewrite next_sentinel prev_sentinel : fq.

Lemma last_nth (l : list loc) x r : l = x :: r → List.last l 0 = nth (length r) l 0.
Proof.
  intros ->. revert x. induction r as [|y r IH]; intros x; [done|].
  change (List.last (y :: r) 0 = nth (length r) (y :: r) 0). apply IH.
Qed.

(** What the constructor needs of its arguments. *)
Record fresh (s : store) (blocks : list loc) (h tl : loc) : Prop := Fresh {
  fresh_nodup : NoDup (h :: blocks ++ [tl]);
  fresh_links : ∀ x, next_free_block (obj s x) = None ∧ prev_free_block (obj s x) = None
}.

(** The links of a new queue. *)
Lemma create_links s blocks h tl b0 rest :
  fresh s blocks h tl → blocks = b0 :: rest →
  let q := create s blocks h tl in
  let bl := List.last blocks 0 in
  next q h = Some b0 ∧ prev q tl = Some bl ∧ prev q h = None ∧ next q tl = None
  ∧ (∀ i b, blocks !! i = Some b →
       prev q b = (if decide (i = 0%nat) then Some h else blocks !! (i - 1)%nat)
       ∧ next q b = (if decide (i = length rest) then Some tl else blocks !! S i))
  ∧ (∀ x, x ∉ blocks → x ≠ h → x ≠ tl → prev q x = None ∧ next q x = None).
Proof.
  intros [Hnd Hs] Hb q bl. nodup.
  assert (tl ∉ blocks) as Htl by (intros Hx; apply (H1 _ Hx); by left).
  destruct (link_steps s blocks (length blocks) h tl H0 Hs ltac:(lia)) as (Hin & Hout & _).
  pose proof (lookup_nth blocks (length rest) ltac:(subst; simpl; lia)) as Hbl.
  rewrite <- (last_nth _ _ _ Hb) in Hbl. fold bl in Hbl.
  assert (blocks !! 0%nat = Some b0) as Hb0 by (by subst).
  assert (∀ i b, blocks !! i = Some b → b ≠ h ∧ b ≠ tl) as Hne.
  { intros i b Hi%list_elem_of_lookup_2. split; by intros ->. }
  destruct (Hne _ _ Hb0) as [Hb0h Hb0t]. destruct (Hne _ _ Hbl) as [Hblh Hblt].
  subst q. unfold create. fold bl. rewrite Hb. cbv zeta. rewrite <- Hb.
  set (q0 := foldl _ _ _) in *. clearbody bl q0.
  split; [links|]. split; [links|]. split; [links|]. split; [links|]. split.
  - intros i b Hi. destruct (Hin i b Hi) as [Hp Hn]. destruct (Hne i b Hi) as [Hbh Hbt].
    pose proof (lookup_lt_Some _ _ _ Hi) as Hlt.
    assert (b = b0 ↔ i = 0%nat) as E0.
    { split; [intros ->; by apply (NoDup_lookup blocks i 0 b0)|intros ->; congruence]. }
    assert (b = bl ↔ i = length rest) as El.
    { split; [intros ->; by apply (NoDup_lookup blocks i (length rest) bl)|intros ->; congruence]. }
    rewrite (proj2 (Nat.ltb_lt i (length blocks))) in Hp, Hn by done. rewrite andb_true_r in Hp.
    autorewrite with fq. rewrite !(decide_False (P := b = h)), !(decide_False (P := b = tl)) by done.
    rewrite (decide_ext _ _ _ _ E0), (decide_ext _ _ _ _ El), Hp, Hn. split; [|done].
    case_decide as Hi0; [done|]. by rewrite (proj2 (Nat.ltb_lt 0 i)) by lia.
  - intros x Hx Hxh Hxt. destruct (Hout x Hx). 
    assert (x ≠ b0) by (intros ->; by apply list_elem_of_lookup_2 in Hb0).
    assert (x ≠ bl) by (intros ->; by apply list_elem_of_lookup_2 in Hbl).
    split; links.
Qed.

Lemma create_data s blocks h tl :
  fresh s blocks h tl →
  let q := create s blocks h tl in
  fake_free_list_head q = h ∧ fake_free_list_tail q = tl ∧ num_free_blocks q = zlen blocks
  ∧ ∀ x, x ≠ h → x ≠ tl → data (obj (objs q) x) = data (obj s x).
Proof.
  intros [Hnd Hs] q. nodup. destruct (link_steps s blocks (length blocks) h tl H0 Hs ltac:(lia)) as (_ & _ & Hd & Hnum).
  subst q. unfold create. set (q0 := foldl _ _ _) in *. destruct Hd as (Eh & Et & Hd). simpl in Eh, Et.
  set (q1 := assign tl _ (assign h _ q0)).
  assert (∀ x, x ≠ h → x ≠ tl → data (obj (objs q1) x) = data (obj s x)) as H1'.
  { intros x Hxh Hxt. subst q1. simpl. rewrite !obj_upd_ne by done. apply Hd. }
  match goal with |- context [fake_free_list_head ?q'] => assert (same_data q1 q' ∧ num_free_blocks q' = num_free_blocks q1) as [(E1 & E2 & E3) E4] end.
  { destruct blocks; (split; [keeps_data|done]). }
  rewrite E1, E2, E4. split; [done|]. split; [done|]. split; [done|]. intros x Hxh Hxt. rewrite E3. by apply H1'.
Qed.

Lemma create_rep s blocks h tl : fresh s blocks h tl → rep (create s blocks h tl) blocks.
Proof.
  intros Hf. pose proof Hf as [Hnd Hs]. destruct (create_data s blocks h tl Hf) as (Eh & Et & Hnum & _).
  assert (path (create s blocks h tl) blocks = h :: blocks ++ [tl]) as Ep by (unfold path; by rewrite Eh, Et).
  destruct blocks as [|b0 rest].
  - simpl in Hnd. nodup. split; rewrite ?Ep, ?Eh, ?Et; try done.
    + by repeat (apply NoDup_cons; split; [absent|]).
    + split; [unfold create; links|]. split; [unfold create; links|done].
    + unfold create. split; links.
    + intros x Hx. simpl in Hx. nodup. destruct (Hs x) as [Hn Hp].
      unfold create. split; links; unfold next, prev; simpl; done.
  - destruct (create_links s (b0 :: rest) h tl b0 rest Hf eq_refl) as (H1 & H2 & H3 & H4 & Hin & Hout).
    set (blocks := b0 :: rest) in *. pose proof (last_nth _ _ _ (eq_refl : blocks = b0 :: rest)) as Hbl.
    split; rewrite ?Ep, ?Eh, ?Et; try done.
    + apply linked_lookup. intros [|i] a b Ha Hb.
      * injection Ha as <-. injection Hb as <-. destruct (Hin 0%nat b0 eq_refl) as [Hp _]. done.
      * cbn [lookup] in Ha, Hb. change (((blocks ++ [tl]) !! i) = Some a) in Ha. change (((blocks ++ [tl]) !! S i) = Some b) in Hb.
        assert (i < length blocks)%nat as Hi.
        { apply lookup_lt_Some in Hb. rewrite length_app in Hb. simpl in Hb. simpl. lia. }
        rewrite lookup_app_l in Ha by done. destruct (Hin i a Ha) as [_ Hn].
        destruct (decide (i = length rest)) as [Hir|Hir].
        -- rewrite lookup_app_r in Hb by (simpl; lia). replace (S i - length blocks)%nat with 0%nat in Hb by (simpl; lia).
           injection Hb as <-. split; [done|]. rewrite H2, Hbl, <- Hir, <- lookup_nth, Ha by (simpl; lia). done.
        -- rewrite lookup_app_l in Hb by (simpl in *; lia). destruct (Hin (S i) b Hb) as [Hp _].
           rewrite Hn, Hp. simpl. by rewrite Nat.sub_0_r.
    + intros x [Hxh [Hx Hxt]%not_elem_of_app]%not_elem_of_cons. apply Hout; [done..|].
      by apply not_elem_of_cons in Hxt as [? _].
Qed.

(** *** Refinement of a list of blocks *)

Inductive op :=
  | Popleft
  | PopleftN (n : Z)
  | Remove (b : loc)
  | Append (b : loc)
  | AppendN (bs : list loc).

Definition run_op (o : op) : py t (list loc) :=
  match o with
  | Popleft => let* b := popleft in ret [b]
  | PopleftN n => popleft_n n
  | Remove b => remove b ;;; ret []
  | Append b => append b ;;; ret []
  | AppendN bs => append_n bs ;;; ret []
  end.

(** The operations on a plain list of the free blocks: what is returned or raised, and the
    list afterwards; [None] on a call outside the contract, which are those with a
    negative count, with a sentinel, or appending a block that is already free. *)
Definition spec_op (h tl : loc) (o : op) (l : list loc) : option (result (list loc) * list loc) :=
  match o with
  | Popleft => Some (match l with [] => (Raise ValueError, []) | b :: l' => (Ok [b], l') end)
  | PopleftN n =>
      if n <? 0 then None
      else if zlen l <? n then Some (Raise AssertionError, l)
      else Some (Ok (take (Z.to_nat n) l), drop (Z.to_nat n) l)
  | Remove b =>
      if decide (b = h ∨ b = tl) then None
      else if decide (b ∈ l) then Some (Ok [], filter (λ x, x ≠ b) l)
      else Some (Raise RuntimeError, l)
  | Append b => if decide (b ∉ h :: l ++ [tl]) then Some (Ok [], l ++ [b]) else None
  | AppendN bs =>
      if decide (NoDup bs ∧ Forall (λ b, b ∉ h :: l ++ [tl]) bs) then Some (Ok [], l ++ bs) else None
  end.

(** A client that catches the exceptions. *)
Fixpoint run_ops (os : list op) (q : t) : list (result (list loc)) * t :=
  match os with
  | [] => ([], q)
  | o :: os' => let '(r, q') := run_op o q in let '(rs, q'') := run_ops os' q' in (r :: rs, q'')
  end.

Fixpoint spec_ops (h tl : loc) (os : list op) (l : list loc) : option (list (result (list loc)) * list loc) :=
  match os with
  | [] => Some ([], l)
  | o :: os' =>
      match spec_op h tl o l with
      | None => None
      | Some (r, l') => (λ '(rs, l''), (r :: rs, l'')) <$> spec_ops h tl os' l'
      end
  end.

Lemma filter_ne_split (l1 l2 : list loc) x :
  x ∉ l1 → x ∉ l2 → filter (λ y, y ≠ x) (l1 ++ x :: l2) = l1 ++ l2.
Proof.
  intros H1 H2. assert (∀ l : list loc, x ∉ l → filter (λ y, y ≠ x) l = l) as Hid.
  { induction l as [|y l IH]; intros Hl; [done|]. apply not_elem_of_cons in Hl as [Hy Hl].
    rewrite filter_cons_True by done. by rewrite IH. }
  rewrite filter_app, filter_cons_False by auto. by rewrite !Hid.
Qed.

(** One operation of the queue is the one of the list. *)
Lemma run_op_refines h tl o q l r l' :
  rep q l → fake_free_list_head q = h → fake_free_list_tail q = tl → spec_op h tl o l = Some (r, l') →
  ∃ q', run_op o q = (r, q') ∧ rep q' l' ∧ same_data q q'.
Proof.
  intros Hrep <- <-. destruct o as [|n|b|b|bs]; simpl; unfold bind.
  - intros Hs. destruct l as [|b l1]; simplify_eq.
    + rewrite popleft_empty by done. by exists q.
    + destruct (popleft_spec q b l' Hrep) as (q' & -> & ?). by exists q'.
  - destruct (Z.ltb_spec n 0); [done|]. destruct (Z.ltb_spec (zlen l) n) as [Hlt|Hle]; intros Hs; simplify_eq.
    + rewrite (popleft_n_too_many q l') by done. by exists q.
    + rewrite <- (take_drop (Z.to_nat n) l) in Hrep. apply popleft_n_spec in Hrep as (q' & Hq & ?).
      exists q'. split; [|done]. rewrite <- Hq. f_equal. unfold zlen in *. rewrite length_take. lia.
  - case_decide as Hb; [done|]. case_decide as Hbl; intros Hs; simplify_eq.
    + apply list_elem_of_split in Hbl as (l1 & l2 & ->). pose proof (rep_nodup q _ Hrep) as Hnd.
      destruct (remove_spec q l1 b l2 Hrep) as (q' & -> & Hq). exists q'. split; [done|].
      unfold path in Hnd. apply NoDup_cons in Hnd as [_ (Hnd & _ & _)%NoDup_app].
      apply NoDup_app in Hnd as (_ & Hd & [Hb2 _]%NoDup_cons). rewrite filter_ne_split; [done| |done].
      intros Hin. apply (Hd b Hin). by left.
    + rewrite (remove_absent q l'); [by exists q|done|]. unfold path.
      apply not_elem_of_cons. split; [tauto|]. apply not_elem_of_app. split; [done|].
      apply not_elem_of_cons. split; [tauto|apply not_elem_of_nil].
  - case_decide as Hb; [|done]. intros Hs. simplify_eq.
    destruct (append_spec q l b Hrep Hb) as (q' & -> & ?). by exists q'.
  - case_decide as Hb; [|done]. destruct Hb as [Hnd Hfresh]. rewrite Forall_forall in Hfresh. intros Hs. simplify_eq.
    destruct (append_n_spec q l bs Hrep Hnd Hfresh) as (q' & -> & ?). by exists q'.
Qed.

(** C13. Over any calls within the contract, the doubly linked queue answers as the plain
    list of its blocks does, exceptions included; it then holds exactly that list, in its
    order, under its count, and has changed nothing of the blocks but their links. *)
Theorem free_queue_refines_list s blocks h tl os outs l :
  fresh s blocks h tl → spec_ops h tl os blocks = Some (outs, l) →
  let '(outs', q) := run_ops os (create s blocks h tl) in
  outs' = outs ∧ get_all_free_blocks (S (length l)) q = Ok (Some l) ∧ num_free_blocks q = zlen l
  ∧ ∀ x, x ≠ h → x ≠ tl → data (obj (objs q) x) = data (obj s x).
Proof.
  intros Hf Hs. destruct (create_data s blocks h tl Hf) as (Eh & Et & _ & Hd).
  assert (∀ q l0, rep q l0 → fake_free_list_head q = h → fake_free_list_tail q = tl →
            spec_ops h tl os l0 = Some (outs, l) →
            let '(outs', q') := run_ops os q in outs' = outs ∧ rep q' l ∧ same_data q q') as Hrun.
  { clear Hs. revert outs. induction os as [|o os IH]; intros outs q l0 Hrep Hh Ht; simpl; [by intros [= <- <-]|].
    destruct (spec_op h tl o l0) as [[r l1]|] eqn:Eo; [|done].
    intros ([rs l2] & Hrs & [= -> <-])%fmap_Some.
    destruct (run_op_refines h tl o q l0 r l1 Hrep Hh Ht Eo) as (q' & -> & Hrep' & Hsame).
    pose proof Hsame as (Eh' & Et' & _). specialize (IH rs q' l1 Hrep' ltac:(congruence) ltac:(congruence) Hrs).
    destruct (run_ops os q') as [rs' q'']. destruct IH as (-> & Hrep'' & Hsame''). split; [done|]. split; [done|].
    by etransitivity. }
  specialize (Hrun _ _ (create_rep s blocks h tl Hf) Eh Et Hs).
  destruct (run_ops os (create s blocks h tl)) as [outs' q]. destruct Hrun as (-> & Hrep & _ & _ & Hsame).
  split; [done|]. split; [apply get_all_free_blocks_spec; [done|lia]|]. split; [by apply Hrep|].
  intros x Hxh Hxt. rewrite Hsame. by apply Hd.
Qed.

Example free_queue_refines_list_witness :
  let os := [Popleft; Remove 2; Remove 2; PopleftN 5; PopleftN 1; AppendN [2; 0]; Append 1; Popleft] in
  let '(outs', q) := run_ops os (create ∅ [0; 1; 2; 3] 4 5) in
  outs' = [Ok [0]; Ok []; Raise RuntimeError; Raise AssertionError; Ok [1]; Ok []; Ok []; Ok [3]]
  ∧ get_all_free_blocks 4 q = Ok (Some [2; 0; 1]) ∧ num_free_blocks q = 3
  ∧ ∀ x, x ≠ 4 → x ≠ 5 → data (obj (objs q) x) = data (obj ∅ x).
Proof.
  intros os.
  apply (free_queue_refines_list ∅ [0; 1; 2; 3] 4 5 os
    [Ok [0]; Ok []; Raise RuntimeError; Raise AssertionError; Ok [1]; Ok []; Ok []; Ok [3]] [2; 0; 1]);
    [|vm_compute; reflexivity].
  split; [|done]. apply (bool_decide_unpack _). vm_compute. exact I.
Defined.
End FreeQueue.
