(* ===== verification/BlockHash.v ===== *)
(** [vllm/v1/core/kv_cache_utils.py], second part, and the token list of
    [vllm/v1/request.py]: the names of full blocks for prefix caching.  A block's hash is
    that of its parent's hash, its tokens and its extra keys; the hash function and the
    seed [NONE_HASH] are parameters. *)
From S2P Require Export Prelude OrderedDict Sha256.
From stdpp Require Import options.

Module BlockHash.

(** *** Keys of a block and its KV cache group *)

(** [n.to_bytes(4, "big", signed=False)]. *)
Definition to_bytes4 (n : Z) : result (list Z) :=
  if (0 <=? n) && (n <? 2 ^ 32) then Ok (Sha256.be_bytes 4 n) else Raise OverflowError.

(** [int.from_bytes(b, "big")]. *)
Definition from_bytes (b : list Z) : Z := foldl (λ acc x, acc * 256 + x) 0 b.

Definition make_block_hash_with_group_id (block_hash : list Z) (group_id : Z) : result (list Z) :=
  let! g := to_bytes4 group_id in Ok (block_hash ++ g).

Definition get_block_hash (key : list Z) : list Z := py_slice key 0 (-4).
Definition get_group_id (key : list Z) : Z := from_bytes (py_slice key (-4) (zlen key)).

(** [maybe_convert_block_hash], by the flag [VLLM_KV_EVENTS_USE_INT_BLOCK_HASHES]. *)
Inductive external_hash := HBytes (b : list Z) | HInt (n : Z).
Definition maybe_convert_block_hash (use_int : bool) (h : list Z) : external_hash :=
  if use_int then HInt (Z.land (from_bytes h) (Z.shiftl 1 64 - 1)) else HBytes h.

(** *** The parts of a request that the hashes depend on *)

Record mm_feature := MMFeature { identifier : option string; mm_offset : Z; mm_length : Z }.

(** An element of a tuple of extra keys. *)
Inductive extra_key := KStr (s : string) | KBytes (b : list Z).

#[export] Instance extra_key_eq_dec : EqDecision extra_key.
Proof. solve_decision. Defined.

(** A request: [lora_request] as its name and id, [prompt_embeds] as the bytes of each
    token's row, and the memo of the rows' hashes by block. *)
Record request := Req {
  mm_features : list mm_feature;
  lora_request : option (string * Z);
  cache_salt : option string;
  prompt_embeds : option (list (list Z));
  prompt_embeds_hashes : list (Z * Z * list Z);
  all_token_ids : list Z;
  block_hashes : list (list Z)
}.

Definition set_embeds_hashes d (r : request) : request :=
  Req (mm_features r) (lora_request r) (cache_salt r) (prompt_embeds r) d (all_token_ids r) (block_hashes r).
Definition set_block_hashes l (r : request) : request :=
  Req (mm_features r) (lora_request r) (cache_salt r) (prompt_embeds r) (prompt_embeds_hashes r)
      (all_token_ids r) l.
Definition set_tokens l (r : request) : request :=
  Req (mm_features r) (lora_request r) (cache_salt r) (prompt_embeds r) (prompt_embeds_hashes r)
      l (block_hashes r).

Definition num_tokens (r : request) : Z := zlen (all_token_ids r).

Definition is_some {A} (o : option A) : bool := match o with Some _ => true | None => false end.

Definition need_extra_keys (r : request) : bool :=
  negb (zlen (mm_features r) =? 0) || is_some (lora_request r) || is_some (cache_salt r).

(** *** Extra keys *)

(** The loop of [_gen_mm_extra_hash_keys] over the inputs from index [idx] on. *)
Fixpoint mm_loop (fs : list mm_feature) (idx start_token_idx end_token_idx : Z) : result (list extra_key * Z) :=
  match fs with
  | [] => Ok ([], idx)
  | f :: fs' =>
      let! ident := of_option AssertionError (identifier f) in
      if end_token_idx >? mm_offset f then
        if start_token_idx >? mm_offset f + mm_length f
        then mm_loop fs' (idx + 1) start_token_idx end_token_idx
        else if end_token_idx >=? mm_offset f + mm_length f then
          let! (keys, idx') := mm_loop fs' (idx + 1) start_token_idx end_token_idx in
          Ok (KStr ident :: keys, idx')
        else Ok ([KStr ident], idx)
      else Ok ([], idx)
  end.

Definition gen_mm_extra_hash_keys (r : request) (start_token_idx end_token_idx start_mm_idx : Z)
    : result (list extra_key * Z) :=
  match last (mm_features r) with
  | None => Ok ([], start_mm_idx)
  | Some last_pos =>
      if mm_offset last_pos + mm_length last_pos <? start_token_idx then Ok ([], start_mm_idx)
      else
        let n := zlen (mm_features r) in
        let! i := if start_mm_idx <? 0
                  then let! _ := rassert (- start_mm_idx <=? n) in Ok (n + start_mm_idx)
                  else Ok start_mm_idx in
        mm_loop (drop (Z.to_nat i) (mm_features r)) i start_token_idx end_token_idx
  end.

Definition gen_lora_extra_hash_keys (r : request) : list extra_key :=
  match lora_request r with None => [] | Some (name, _) => [KStr name] end.

(** [hashlib.sha256(b).digest()]. *)
Definition sha256_digest (b : list Z) : list Z :=
  let s := Sha256.digest_state b in
  Sha256.be_bytes 4 (Sha256.ha s) ++ Sha256.be_bytes 4 (Sha256.hb s) ++ Sha256.be_bytes 4 (Sha256.hc s)
  ++ Sha256.be_bytes 4 (Sha256.hd s) ++ Sha256.be_bytes 4 (Sha256.he s) ++ Sha256.be_bytes 4 (Sha256.hf s)
  ++ Sha256.be_bytes 4 (Sha256.hg s) ++ Sha256.be_bytes 4 (Sha256.hh s).

Definition gen_prompt_embeds_extra_hash_keys (start_token_idx end_token_idx : Z) : py request (list extra_key) :=
  let* r := get_st in
  match prompt_embeds r with
  | None => ret []
  | Some rows =>
      match od_get (start_token_idx, end_token_idx) (prompt_embeds_hashes r) with
      | Some h => ret [KBytes h]
      | None =>
          let h := sha256_digest (concat (py_slice rows start_token_idx end_token_idx)) in
          modify (set_embeds_hashes (od_set (start_token_idx, end_token_idx) h (prompt_embeds_hashes r))) ;;;
          ret [KBytes h]
      end
  end.

Definition salt_keys (r : request) (start_token_idx : Z) : list extra_key :=
  match cache_salt r with
  | Some salt => if (start_token_idx =? 0) && negb (String.eqb salt "") then [KStr salt] else []
  | None => []
  end.

(** The keys of a block, [None] when there is none, and the next multi-modal index. *)
Definition generate_block_hash_extra_keys (start_token_idx end_token_idx start_mm_idx : Z)
    : py request (option (list extra_key) * Z) :=
  let* r := get_st in
  let* (mm, idx) := lift (gen_mm_extra_hash_keys r start_token_idx end_token_idx start_mm_idx) in
  let* embeds := gen_prompt_embeds_extra_hash_keys start_token_idx end_token_idx in
  match gen_lora_extra_hash_keys r ++ mm ++ salt_keys r start_token_idx ++ embeds with
  | [] => ret (None, idx)
  | keys => ret (Some keys, idx)
  end.

(** *** Hashes of blocks *)
Section hashing.
Variable hash_function : list Z * list Z * option (list extra_key) → list Z.
Variable NONE_HASH : list Z.

Definition hash_block_tokens (parent_block_hash : option (list Z)) (tokens : list Z)
    (extra_keys : option (list extra_key)) : list Z :=
  let parent := match parent_block_hash with Some ((_ :: _) as h) => h | _ => NONE_HASH end in
  hash_function (parent, tokens, extra_keys).

(** The loop of the hasher; [None] when the fuel runs out. *)
Fixpoint hasher_loop (fuel : nat) (block_size start_token_idx curr_mm_idx : Z) (prev : option (list Z))
    : py request (option (list (list Z))) :=
  match fuel with
  | O => ret None
  | S fuel' =>
      let* r := get_st in
      let end_token_idx := start_token_idx + block_size in
      if end_token_idx >? num_tokens r then ret (Some [])
      else
        let* (extra_keys, curr_mm_idx) :=
          generate_block_hash_extra_keys start_token_idx end_token_idx curr_mm_idx in
        let block_tokens := py_slice (all_token_ids r) start_token_idx end_token_idx in
        let block_hash := hash_block_tokens prev block_tokens extra_keys in
        let* rest := hasher_loop fuel' block_size (start_token_idx + block_size) curr_mm_idx (Some block_hash) in
        ret (cons block_hash <$> rest)
  end.

(** [request_block_hasher]; every iteration advances by a block, so that one more than
    the number of tokens is fuel enough when blocks are not empty. *)
Definition request_block_hasher (block_size : Z) : py request (option (list (list Z))) :=
  let* r := get_st in
  let start_token_idx := zlen (block_hashes r) * block_size in
  if start_token_idx + block_size >? num_tokens r then ret (Some [])
  else hasher_loop (S (length (all_token_ids r))) block_size start_token_idx
         (if 0 <? start_token_idx then -1 else 0) (last (block_hashes r)).

(** [Request.update_block_hashes]; [false] when the hasher does not return. *)
Definition update_block_hashes (block_size : Z) : py request bool :=
  let* o := request_block_hasher block_size in
  match o with
  | None => ret false
  | Some l => modify (λ r, set_block_hashes (block_hashes r ++ l) r) ;;; ret true
  end.

(** [Request.append_output_token_ids]. *)
Definition append_output_token_ids (block_size : Z) (token_ids : list Z) : py request bool :=
  modify (λ r, set_tokens (all_token_ids r ++ token_ids) r) ;;;
  update_block_hashes block_size.
End hashing.

(** *** [BlockHashListWithBlockSize] *)

(** [_get_value_at]: the concatenation of [scale_factor] consecutive hashes. *)
Definition get_value_at (hashes : list (list Z)) (scale_factor idx : Z) : result (list Z) :=
  let base := idx * scale_factor in
  let! first := py_index hashes base in
  let! rest := map_result (py_index hashes) (seqZ (base + 1) (scale_factor - 1)) in
  Ok (first ++ concat rest).

(** [len], and the slice [[i:]] of the list of merged hashes. *)
Definition merged_len (hashes : list (list Z)) (scale_factor : Z) : result Z :=
  py_div (zlen hashes) scale_factor.

Definition merged_from (hashes : list (list Z)) (scale_factor i : Z) : result (list (list Z)) :=
  let! n := merged_len hashes scale_factor in
  let start := clip n i in
  map_result (get_value_at hashes scale_factor) (seqZ start (n - start)).

(** *** Packing a group id *)

Lemma from_bytes_snoc b x : from_bytes (b ++ [x]) = from_bytes b * 256 + x.
Proof. unfold from_bytes. by rewrite foldl_app. Qed.

Lemma from_be_bytes n x : 0 ≤ x < 256 ^ Z.of_nat n → from_bytes (Sha256.be_bytes n x) = x.
Proof.
  revert x. induction n as [|n IH]; intros x Hx; [change (0 = x); change (256 ^ Z.of_nat 0) with 1 in Hx; lia|]. simpl Sha256.be_bytes.
  rewrite from_bytes_snoc, IH; [pose proof (Z.div_mod x 256); lia|].
  rewrite Nat2Z.inj_succ, Z.pow_succ_r in Hx by lia. split; [apply Z.div_pos; lia|].
  apply Z.div_lt_upper_bound; lia.
Qed.

Lemma be_bytes_length n x : length (Sha256.be_bytes n x) = n.
Proof. revert x. induction n as [|n IH]; intros x; [done|]. simpl. rewrite length_app, IH. simpl. lia. Qed.

(** A block hash and a group id of 32 bits are packed into one key from which both
    come back, so that keys of different groups or hashes differ; a group id out of range
    raises [OverflowError]. *)
Theorem group_key_roundtrip (h : list Z) (g : Z) :
  match make_block_hash_with_group_id h g with
  | Ok key => 0 ≤ g < 2 ^ 32 ∧ get_block_hash key = h ∧ get_group_id key = g
  | Raise e => e = OverflowError ∧ ¬ (0 ≤ g < 2 ^ 32)
  end.
Proof.
  unfold make_block_hash_with_group_id, to_bytes4.
  destruct (Z.leb_spec 0 g), (Z.ltb_spec g (2 ^ 32)); cbn [rbind andb]; [|split; [done|lia]..].
  split; [lia|]. pose proof (be_bytes_length 4 g) as Hl. pose proof (from_be_bytes 4 g ltac:(done)) as Hg.
  pose proof (zlen_nonneg h). set (b := Sha256.be_bytes 4 g) in *. clearbody b.
  assert (clip (zlen (h ++ b)) (-4) = zlen h) as Hc.
  { unfold clip. rewrite zlen_app. unfold zlen at 2. rewrite Hl. simpl. lia. }
  unfold get_block_hash, get_group_id, py_slice. rewrite Hc.
  assert (clip (zlen (h ++ b)) 0 = 0) as ->.
  { unfold clip. simpl. rewrite zlen_app. pose proof (zlen_nonneg (b)). lia. }
  rewrite Z.sub_0_r. simpl (Z.to_nat 0). rewrite drop_0. unfold zlen at 1. rewrite Nat2Z.id, take_app_length.
  split; [done|]. unfold zlen at 4. rewrite Nat2Z.id, drop_app_length, take_ge.
  - done.
  - unfold clip. pose proof (zlen_nonneg (h ++ b)).
    rewrite (proj2 (Z.ltb_ge _ 0)), Z.min_id by lia. rewrite zlen_app. unfold zlen at 2. rewrite Hl. lia.
Qed.

(** *** The names of a request's blocks *)

(** What the hash of a block depends on beyond its parent, for a request without
    multi-modal inputs. *)
Definition item (r : request) (bs i : Z) : list Z * option (list extra_key) :=
  (py_slice (all_token_ids r) (i * bs) (i * bs + bs),
   match gen_lora_extra_hash_keys r ++ salt_keys r (i * bs)
         ++ match prompt_embeds r with
            | None => []
            | Some rows => [KBytes (sha256_digest (concat (py_slice rows (i * bs) (i * bs + bs))))]
            end
   with [] => None | keys => Some keys end).

(** The memo holds what it stands for. *)
Definition memo_ok (r : request) : Prop :=
  ∀ s e h rows, od_get (s, e) (prompt_embeds_hashes r) = Some h → prompt_embeds r = Some rows →
    h = sha256_digest (concat (py_slice rows s e)).

Section names.
Variable hash_function : list Z * list Z * option (list extra_key) → list Z.
Variable NONE_HASH : list Z.
Abbreviation hash_block := (hash_block_tokens hash_function NONE_HASH).

Fixpoint chain (prev : option (list Z)) (items : list (list Z * option (list extra_key))) : list (list Z) :=
  match items with
  | [] => []
  | (tokens, keys) :: items' =>
      let h := hash_block prev tokens keys in h :: chain (Some h) items'
  end.

(** The names of the first [n] blocks. *)
Definition names (r : request) (bs n : Z) : list (list Z) := chain None (item r bs <$> seqZ 0 n).

Lemma chain_app prev l1 l2 :
  chain prev (l1 ++ l2) = chain prev l1 ++ chain (match last (chain prev l1) with Some h => Some h | None => prev end) l2.
Proof.
  revert prev. induction l1 as [|[tk k] l1 IH]; intros prev; [done|]. simpl. rewrite IH. do 2 f_equal.
  destruct (chain (Some _) l1) as [|h hs] eqn:E; [done|]. rewrite last_cons_cons.
  destruct (last (h :: hs)) eqn:El; [done|]. by apply last_None in El.
Qed.

Lemma block_chain_length prev items : length (chain prev items) = length items.
Proof. revert prev. induction items as [|[tk k] items IH]; intros prev; [done|]. simpl. by rewrite IH. Qed.

Lemma names_length r bs n : 0 ≤ n → zlen (names r bs n) = n.
Proof. intros Hn. unfold names, zlen. rewrite block_chain_length, length_fmap, length_seqZ. lia. Qed.

Lemma generate_plain s e mm r :
  mm_features r = [] → memo_ok r →
  ∃ d, generate_block_hash_extra_keys s e mm r
       = (Ok (match gen_lora_extra_hash_keys r ++ salt_keys r s
                    ++ match prompt_embeds r with
                       | None => []
                       | Some rows => [KBytes (sha256_digest (concat (py_slice rows s e)))]
                       end
              with [] => None | keys => Some keys end, mm), set_embeds_hashes d r)
       ∧ memo_ok (set_embeds_hashes d r).
Proof.
  intros Hmm Hmemo. unfold generate_block_hash_extra_keys, gen_mm_extra_hash_keys, bind, get_st, lift. rewrite Hmm. simpl.
  assert (set_embeds_hashes (prompt_embeds_hashes r) r = r) as Hid by (by destruct r).
  unfold gen_prompt_embeds_extra_hash_keys, bind, get_st. destruct (prompt_embeds r) as [rows|] eqn:Er.
  - destruct (od_get (s, e) (prompt_embeds_hashes r)) as [h|] eqn:Eh.
    + exists (prompt_embeds_hashes r). rewrite Hid. split; [|done]. unfold ret.
      rewrite (Hmemo s e h rows Eh Er). by destruct (gen_lora_extra_hash_keys r ++ _).
    + eexists. split; [unfold modify, ret; cbv iota beta; by destruct (gen_lora_extra_hash_keys r ++ _)|].
      intros s' e' h' rows' Hg Hr. simpl in Hg, Hr. rewrite Er in Hr. injection Hr as <-.
      destruct (decide ((s', e') = (s, e))) as [[= -> ->]|Hne].
      * rewrite od_get_set in Hg. by injection Hg.
      * rewrite od_get_set_ne in Hg by done. by apply (Hmemo s' e' h' rows).
  - exists (prompt_embeds_hashes r). rewrite Hid. split; [|done]. unfold ret.
    by destruct (gen_lora_extra_hash_keys r ++ _).
Qed.

Lemma hasher_loop_spec fuel bs i n mm prev r :
  0 < bs → mm_features r = [] → memo_ok r → 0 ≤ i ≤ n → n = num_tokens r `div` bs → n - i < Z.of_nat fuel →
  ∃ d, hasher_loop hash_function NONE_HASH fuel bs (i * bs) mm prev r
       = (Ok (Some (chain prev (item r bs <$> seqZ i (n - i)))), set_embeds_hashes d r)
       ∧ memo_ok (set_embeds_hashes d r).
Proof.
  intros Hbs Hmm. revert i mm prev r Hmm.
  induction fuel as [|fuel IH]; intros i mm prev r Hmm Hmemo Hi Hn Hf; [simpl in Hf; lia|].
  cbn [hasher_loop]. unfold bind at 1, get_st at 1.
  pose proof (Z.div_mod (num_tokens r) bs ltac:(lia)). pose proof (Z.mod_pos_bound (num_tokens r) bs Hbs).
  rewrite Z.gtb_ltb. destruct (Z.ltb_spec (num_tokens r) (i * bs + bs)) as [Hend|Hend].
  - assert (n = i) as -> by nia. rewrite Z.sub_diag. exists (prompt_embeds_hashes r). by destruct r.
  - assert (i < n) as Hlt by nia. rewrite (seqZ_cons i (n - i)) by lia. simpl.
    destruct (generate_plain (i * bs) (i * bs + bs) mm r Hmm Hmemo) as (d & Hg & Hd).
    unfold bind. rewrite Hg. cbv iota beta.
    specialize (IH (i + 1) mm (Some (hash_block prev (item r bs i).1 (item r bs i).2)) (set_embeds_hashes d r) Hmm Hd
                  ltac:(lia) Hn ltac:(lia)) as (d' & Hloop & Hd').
    exists d'. replace ((i + 1) * bs) with (i * bs + bs) in Hloop by lia.
    change (hash_block_tokens hash_function NONE_HASH prev _ _) with (hash_block prev (item r bs i).1 (item r bs i).2).
    rewrite Hloop. split; [|done].
    unfold ret. simpl. replace (Z.pred (n - i)) with (n - (i + 1)) by lia. by rewrite <- Z.add_1_r.
Qed.

Lemma set_tokens_id r : set_tokens (all_token_ids r) r = r.
Proof. by destruct r. Qed.
Lemma set_embeds_hashes_id r : set_embeds_hashes (prompt_embeds_hashes r) r = r.
Proof. by destruct r. Qed.
Lemma set_block_hashes_id r : set_block_hashes (block_hashes r) r = r.
Proof. by destruct r. Qed.

(** A request whose hashes are the names of some of its full blocks. *)
Definition named (bs : Z) (r : request) : Prop :=
  mm_features r = [] ∧ memo_ok r
  ∧ ∃ k, 0 ≤ k ≤ num_tokens r `div` bs ∧ block_hashes r = names r bs k.

Lemma names_split r bs k n :
  0 ≤ k ≤ n → names r bs n = names r bs k ++ chain (last (names r bs k)) (item r bs <$> seqZ k (n - k)).
Proof.
  intros Hk. unfold names at 1. replace n with (k + (n - k)) at 1 by lia.
  rewrite seqZ_app, fmap_app, chain_app by lia. f_equal. fold (names r bs k).
  rewrite Z.add_0_l. by destruct (last (names r bs k)).
Qed.

Lemma update_spec bs r :
  0 < bs → named bs r →
  ∃ d, update_block_hashes hash_function NONE_HASH bs r
       = (Ok true, set_block_hashes (names r bs (num_tokens r `div` bs)) (set_embeds_hashes d r))
       ∧ memo_ok (set_embeds_hashes d r).
Proof.
  intros Hbs (Hmm & Hmemo & k & Hk & Hh). unfold update_block_hashes, request_block_hasher, bind, get_st.
  rewrite Hh, names_length by lia. rewrite Z.gtb_ltb.
  pose proof (Z.div_mod (num_tokens r) bs ltac:(lia)). pose proof (Z.mod_pos_bound (num_tokens r) bs Hbs).
  rewrite (names_split r bs k (num_tokens r `div` bs)) by done.
  destruct (Z.ltb_spec (num_tokens r) (k * bs + bs)) as [Hend|Hend].
  - assert (num_tokens r `div` bs = k) as -> by nia. rewrite Z.sub_diag. exists (prompt_embeds_hashes r).
    split; [|by destruct r]. unfold ret, modify. rewrite Hh. by destruct r.
  - destruct (hasher_loop_spec (S (length (all_token_ids r))) bs k (num_tokens r `div` bs)
                (if 0 <? k * bs then -1 else 0) (last (names r bs k)) r Hbs Hmm Hmemo Hk eq_refl) as (d & Hl & Hd).
    { unfold num_tokens, zlen in *. nia. }
    exists d. rewrite Hl. split; [|done]. unfold ret, modify. simpl. by rewrite Hh.
Qed.

(** Blocks within the tokens keep their names when tokens are appended. *)
Lemma item_append r bs i l :
  0 ≤ i * bs → 0 < bs → i * bs + bs ≤ num_tokens r → item (set_tokens (all_token_ids r ++ l) r) bs i = item r bs i.
Proof.
  intros H0 Hbs Hle. unfold item, num_tokens in *. simpl. f_equal.
  assert (∀ x, 0 ≤ x → x ≤ zlen (all_token_ids r) → clip (zlen (all_token_ids r ++ l)) x = x ∧ clip (zlen (all_token_ids r)) x = x) as Hc.
  { intros x Hx Hxl. unfold clip. rewrite zlen_app. pose proof (zlen_nonneg l). rewrite (proj2 (Z.ltb_ge x 0)) by lia. lia. }
  unfold py_slice. destruct (Hc (i * bs)) as [-> ->]; [lia..|]. destruct (Hc (i * bs + bs)) as [-> ->]; [lia..|].
  unfold zlen in Hle. rewrite drop_app_le by lia. apply take_app_le. rewrite length_drop. lia.
Qed.

Lemma names_append r bs k l :
  0 < bs → k * bs ≤ num_tokens r → names (set_tokens (all_token_ids r ++ l) r) bs k = names r bs k.
Proof.
  intros Hbs Hk. unfold names. f_equal. apply list_fmap_ext. intros j i [-> Hi]%lookup_seqZ.
  apply item_append; nia.
Qed.

Lemma append_output_spec bs l r :
  0 < bs → named bs r →
  ∃ d, append_output_token_ids hash_function NONE_HASH bs l r
       = (Ok true, let r' := set_tokens (all_token_ids r ++ l) r in
                   set_block_hashes (names r' bs (num_tokens r' `div` bs)) (set_embeds_hashes d r'))
       ∧ memo_ok (set_embeds_hashes d r).
Proof.
  intros Hbs (Hmm & Hmemo & k & Hk & Hh). unfold append_output_token_ids, bind, modify.
  destruct (update_spec bs (set_tokens (all_token_ids r ++ l) r) Hbs) as (d & -> & Hd); [|by exists d].
  split; [done|]. split; [done|]. exists k. unfold num_tokens in *. simpl. split.
  - split; [lia|]. etransitivity; [apply Hk|]. apply Z.div_le_mono; [lia|]. rewrite zlen_app. pose proof (zlen_nonneg l). lia.
  - rewrite names_append; [done..|]. unfold num_tokens.
    pose proof (Z.mul_div_le (zlen (all_token_ids r)) bs Hbs). nia.
Qed.

Lemma names_prefix r bs l :
  0 < bs → names r bs (num_tokens r `div` bs) `prefix_of`
           names (set_tokens (all_token_ids r ++ l) r) bs (num_tokens (set_tokens (all_token_ids r ++ l) r) `div` bs).
Proof.
  intros Hbs. rewrite (names_split (set_tokens _ r) bs (num_tokens r `div` bs)).
  - rewrite names_append; [by eexists|done|]. pose proof (Z.mul_div_le (num_tokens r) bs Hbs). lia.
  - split; [apply Z.div_pos; [apply zlen_nonneg|lia]|]. apply Z.div_le_mono; [lia|].
    unfold num_tokens. simpl. rewrite zlen_app. pose proof (zlen_nonneg l). lia.
Qed.

(** Any number of appends. *)
Lemma appends_spec bs xs r :
  0 < bs → mm_features r = [] → memo_ok r → block_hashes r = names r bs (num_tokens r `div` bs) →
  ∃ r2 d2, map_each xs (append_output_token_ids hash_function NONE_HASH bs) r = (Ok (replicate (length xs) true), r2)
  ∧ let r' := set_tokens (all_token_ids r ++ concat xs) r in
    r2 = set_block_hashes (names r' bs (num_tokens r' `div` bs)) (set_embeds_hashes d2 r').
Proof.
  intros Hbs. revert r. induction xs as [|x xs IH]; intros r Hmm Hmemo Hh.
  { exists r, (prompt_embeds_hashes r). split; [done|]. simpl.
    by rewrite app_nil_r, set_tokens_id, set_embeds_hashes_id, <- Hh, set_block_hashes_id. }
  destruct (append_output_spec bs x r Hbs) as (d & Ha & Hd).
  { split; [done|]. split; [done|]. eexists. split; [|exact Hh]. split; [|lia]. apply Z.div_pos; [apply zlen_nonneg|lia]. }
  simpl map_each. unfold bind. rewrite Ha. cbv zeta.
  edestruct IH as (r2 & d2 & -> & Hr2); [| | |exists r2, d2; split; [reflexivity|]]; [done|done|done|].
  rewrite Hr2. cbn. by rewrite <- app_assoc.
Qed.

(** C21. Without multi-modal inputs, however the tokens arrive, at the construction and
    in later appends: every call returns, and the hashes are those of all full blocks, each
    of its parent's hash, its own tokens and its extra keys; they depend on the tokens only,
    not on the calls they came in, and grow by appending. *)
Theorem hashes_incremental bs (r0 : request) (xs : list (list Z)) :
  0 < bs → mm_features r0 = [] → block_hashes r0 = [] → prompt_embeds_hashes r0 = [] →
  ∃ r1 r2,
    update_block_hashes hash_function NONE_HASH bs r0 = (Ok true, r1)
    ∧ map_each xs (append_output_token_ids hash_function NONE_HASH bs) r1 = (Ok (replicate (length xs) true), r2)
    ∧ all_token_ids r2 = all_token_ids r0 ++ concat xs
    ∧ block_hashes r2 = names (set_tokens (all_token_ids r0 ++ concat xs) r0) bs (num_tokens r2 `div` bs)
    ∧ block_hashes r1 `prefix_of` block_hashes r2.
Proof.
  intros Hbs Hmm Hh Hp.
  destruct (update_spec bs r0 Hbs) as (d & -> & Hd).
  { split; [done|]. split; [intros s e h rows Hg; by rewrite Hp in Hg|]. exists 0.
    split; [|by rewrite Hh]. split; [lia|]. apply Z.div_pos; [apply zlen_nonneg|lia]. }
  set (r1 := set_block_hashes _ _).
  destruct (appends_spec bs xs r1 Hbs) as (r2 & d2 & Hm & Hr2); [done|done|done|].
  exists r1, r2. split; [done|]. split; [done|]. rewrite Hr2.
  split; [done|]. split; [done|]. exact (names_prefix r0 bs (concat xs) Hbs).
Qed.

(** A name is the hash of the previous name and the block's item. *)
Lemma block_chain_lookup p items i h :
  chain p items !! i = Some h ↔
  ∃ tk k, items !! i = Some (tk, k)
        ∧ h = hash_block (match i with O => p | S j => chain p items !! j end) tk k.
Proof.
  revert p i. induction items as [|[tk k] items IH]; intros p i; simpl.
  { split; [done|]. by intros (? & ? & ? & _). }
  destruct i as [|i]; simpl.
  - split; [intros [= <-]; by exists tk, k|]. by intros (? & ? & [= <- <-] & ->).
  - rewrite IH. destruct i as [|i]; done.
Qed.

Lemma chain_injective p items1 items2 i h :
  (∀ x, hash_function x ≠ []) →
  chain p items1 !! i = Some h → chain p items2 !! i = Some h →
  (∀ j, (j ≤ i)%nat → items1 !! j = items2 !! j) ∨ ∃ a b, a ≠ b ∧ hash_function a = hash_function b.
Proof.
  intros Hne. revert h. induction i as [|i IH]; intros h H1 H2;
    pose proof H1 as (t1 & k1 & Hi1 & E1)%block_chain_lookup; pose proof H2 as (t2 & k2 & Hi2 & E2)%block_chain_lookup;
    rewrite E1 in E2; unfold hash_block_tokens in E2.
  - destruct (decide ((t1, k1) = (t2, k2))) as [[= -> ->]|Hn].
    + left. intros j Hj. assert (j = 0%nat) as -> by lia. congruence.
    + right. eexists _, _. split; [|exact E2]. congruence.
  - destruct (lookup_lt_is_Some_2 (chain p items1) i) as [h1 Hh1]; [apply lookup_lt_Some in H1; lia|].
    destruct (lookup_lt_is_Some_2 (chain p items2) i) as [h2 Hh2]; [apply lookup_lt_Some in H2; lia|].
    rewrite Hh1, Hh2 in E2.
    assert (h1 ≠ [] ∧ h2 ≠ []) as [Hn1 Hn2].
    { pose proof Hh1 as (? & ? & _ & ->)%block_chain_lookup. pose proof Hh2 as (? & ? & _ & ->)%block_chain_lookup. split; apply Hne. }
    destruct h1 as [|x1 h1], h2 as [|x2 h2]; [done..|].
    destruct (decide ((x1 :: h1, t1, k1) = (x2 :: h2, t2, k2))) as [Heq|Hn]; [|right; by eexists _, _].
    injection Heq as -> -> -> ->. destruct (IH _ Hh1 Hh2) as [Hpre|Hc]; [left|by right].
    intros j Hj. destruct (decide (j = S i)) as [->|]; [congruence|]. apply Hpre. lia.
Qed.

(** The tokens of the first blocks are those of their items. *)
Lemma items_tokens r bs n :
  0 < bs → (n * Z.to_nat bs ≤ length (all_token_ids r))%nat →
  take (n * Z.to_nat bs) (all_token_ids r) = concat ((λ i, (item r bs (Z.of_nat i)).1) <$> seq 0 n).
Proof.
  intros Hbs. induction n as [|n IH]; intros Hn; [done|].
  rewrite seq_S, fmap_app, concat_app, <- IH by lia. simpl. rewrite app_nil_r.
  replace (Z.to_nat bs + n * Z.to_nat bs)%nat with (n * Z.to_nat bs + Z.to_nat bs)%nat by lia.
  rewrite <- take_take_drop. f_equal. rewrite py_slice_nonneg by nia. f_equal; [|f_equal]; nia.
Qed.

(** C20. Two requests without multi-modal inputs ([named]: their hashes are those that the
    hasher gives to full blocks of theirs; with inputs, only the last one counts in a block
    that a generated token fills: [partial_block_forgets_inputs]) that share a hash at
    some block share all tokens and all extra keys
    up to and including this block, so that a prefix-cache hit is a hit on the whole
    prefix, unless the hash function itself collides. *)
Theorem shared_hash_shared_prefix bs r r' (i : nat) h :
  0 < bs → named bs r → named bs r' → (∀ x, hash_function x ≠ []) →
  block_hashes r !! i = Some h → block_hashes r' !! i = Some h →
  (take (S i * Z.to_nat bs) (all_token_ids r) = take (S i * Z.to_nat bs) (all_token_ids r')
   ∧ ∀ j, (j ≤ i)%nat → item r bs (Z.of_nat j) = item r' bs (Z.of_nat j))
  ∨ ∃ a b, a ≠ b ∧ hash_function a = hash_function b.
Proof.
  intros Hbs (_ & _ & k & Hk & Hr) (_ & _ & k' & Hk' & Hr') Hne H1 H2. rewrite Hr in H1. rewrite Hr' in H2.
  assert (Z.of_nat i < k ∧ Z.of_nat i < k') as [Hi Hi'].
  { apply lookup_lt_Some in H1, H2. pose proof (names_length r bs k). pose proof (names_length r' bs k').
    unfold zlen in *. lia. }
  destruct (chain_injective _ _ _ _ _ Hne H1 H2) as [Heq|Hc]; [left|by right].
  assert (∀ j, (j ≤ i)%nat → item r bs (Z.of_nat j) = item r' bs (Z.of_nat j)) as Hitems.
  { intros j Hj. specialize (Heq j Hj). rewrite !list_lookup_fmap, !lookup_seqZ_lt in Heq by lia.
    rewrite !Z.add_0_l in Heq. by apply (inj Some) in Heq. }
  split; [|done].
  rewrite !items_tokens; [|done| |done|]; try (unfold num_tokens, zlen in *; pose proof (Z.mul_div_le (Z.of_nat (length (all_token_ids r))) bs Hbs);
    pose proof (Z.mul_div_le (Z.of_nat (length (all_token_ids r'))) bs Hbs); nia).
  f_equal. apply list_fmap_ext. intros j x [-> Hj]%lookup_seq. rewrite Hitems by lia. done.
Qed.
End names.

(** *** Concrete inputs *)

(** A hash that writes down what it is given. *)
Definition demo_keys (ks : option (list extra_key)) : list Z :=
  match ks with
  | None => [0]
  | Some l => zlen l :: concat ((λ k, match k with
                                      | KStr s => let b := Sha256.bytes_of_string s in zlen b :: b
                                      | KBytes b => zlen b :: b
                                      end) <$> l)
  end.
Definition demo_hash (x : list Z * list Z * option (list extra_key)) : list Z :=
  let '(p, t, k) := x in zlen p :: p ++ zlen t :: t ++ demo_keys k.

Definition text_request (tokens : list Z) : request :=
  Req [] (Some ("lora", 1)) (Some "salt") (Some [[1]; [2]; [3]; [4]; [5]]) [] tokens [].

Example hashes_incremental_witness :
  let r0 := text_request [7; 8; 9] in
  let xs := [[10]; [11; 12; 13]; []] in
  ∃ r1 r2,
    update_block_hashes demo_hash [0] 2 r0 = (Ok true, r1)
    ∧ map_each xs (append_output_token_ids demo_hash [0] 2) r1 = (Ok (replicate (length xs) true), r2)
    ∧ all_token_ids r2 = all_token_ids r0 ++ concat xs
    ∧ block_hashes r2 = names demo_hash [0] (set_tokens (all_token_ids r0 ++ concat xs) r0) 2 (num_tokens r2 `div` 2)
    ∧ block_hashes r1 `prefix_of` block_hashes r2.
Proof. intros r0 xs. apply (hashes_incremental demo_hash [0] 2 r0 xs); [lia|reflexivity|reflexivity|reflexivity]. Defined.

Definition hashed (tokens : list Z) : request :=
  set_block_hashes (names demo_hash [0] (text_request tokens) 2 (zlen tokens `div` 2)) (text_request tokens).

Lemma hashed_named tokens : named demo_hash [0] 2 (hashed tokens).
Proof.
  split; [done|]. split; [done|]. exists (zlen tokens `div` 2). split; [|done].
  split; [|apply Z.le_refl]. apply Z.div_pos; [apply zlen_nonneg|lia].
Qed.

Example shared_hash_shared_prefix_witness :
  let r := hashed [7; 8; 9; 10; 11] in
  let r' := hashed [7; 8; 9; 10; 12; 13] in
  (take 4 (all_token_ids r) = take 4 (all_token_ids r')
   ∧ ∀ j, (j ≤ 1)%nat → item r 2 (Z.of_nat j) = item r' 2 (Z.of_nat j))
  ∨ ∃ a b, a ≠ b ∧ demo_hash a = demo_hash b.
Proof.
  intros r r'. apply (shared_hash_shared_prefix demo_hash [0] 2 r r' 1 (nth 1 (block_hashes r) []));
    [lia|apply hashed_named|apply hashed_named|by intros [[p t] k]|vm_compute; reflexivity|vm_compute; reflexivity].
Defined.

(** A prompt of seven tokens whose second block, of four, holds two one-token inputs and
    is filled by the first generated token. *)
Definition image_request (first_image : string) : request :=
  Req [MMFeature (Some first_image) 4 1; MMFeature (Some "second") 6 1] None None None [] [1; 2; 3; 4; 9; 5; 9] [].

(** When a generated token fills the block, only the last input counts: prompts that
    differ in the first one get equal hashes.  When the block is full at once, they get
    different ones. *)
Example partial_block_forgets_inputs :
  let after tokens r := block_hashes (append_output_token_ids demo_hash [0] 4 tokens
                                        (update_block_hashes demo_hash [0] 4 r).2).2 in
  let full r := block_hashes (update_block_hashes demo_hash [0] 4 (set_tokens (all_token_ids r ++ [6]) r)).2 in
  after [6] (image_request "cat") = after [6] (image_request "dog")
  ∧ length (after [6] (image_request "cat")) = 2%nat
  ∧ full (image_request "cat") ≠ full (image_request "dog").
Proof. vm_compute. done. Qed.
End BlockHash.
