(* ===== verification/BlockPool.v ===== *)
(** [vllm/v1/core/block_pool.py]: the GPU blocks of the KV cache, their reference counts,
    the free ones in the order of their eviction, and the map from block hashes to the
    blocks that hold them for prefix caching.  The metrics collector is left out. *)
From stdpp Require Import gmultiset.
From S2P Require Export FreeQueue BlockHash.
From stdpp Require Import options.
Import BlockHash.

(** ** [BlockHashToBlockMap] *)
Module BlockMap.

(** An entry is a block, or a dictionary of blocks by their ids. *)
Inductive entry := EBlock (b : loc) | EDict (d : list (Z * loc)).
Abbreviation t := (list (list Z * entry)).

Definition get_one_block (key : list Z) (m : t) : result (option loc) :=
  match od_get key m with
  | None => Ok None
  | Some (EBlock b) => Ok (Some b)
  | Some (EDict []) => Raise StopIteration
  | Some (EDict ((_, b) :: _)) => Ok (Some b)
  end.

(** [insert], given the ids of the blocks. *)
Definition insert (id_of : loc → Z) (key : list Z) (block : loc) (m : t) : t :=
  match od_get key m with
  | None => od_set key (EBlock block) m
  | Some (EBlock b) => od_set key (EDict (od_set (id_of block) block (od_set (id_of b) b []))) m
  | Some (EDict d) => od_set key (EDict (od_set (id_of block) block d)) m
  end.

Definition pop (id_of : loc → Z) (key : list Z) (block_id : Z) (m : t) : option loc * t :=
  match od_get key m with
  | None => (None, m)
  | Some (EBlock b) =>
      if id_of b =? block_id then (Some b, od_del key m)
      else (None, od_set key (EBlock b) (od_del key m))
  | Some (EDict d) =>
      let d' := od_del block_id d in
      (od_get block_id d, if 0 <? zlen d' then od_set key (EDict d') (od_del key m) else od_del key m)
  end.

(** *** The blocks of a key *)

Definition members (e : entry) : list loc := match e with EBlock b => [b] | EDict d => d.*2 end.

Definition members_of (key : list Z) (m : t) : list loc :=
  match od_get key m with None => [] | Some e => members e end.

(** The dictionaries are not empty and name their blocks by the blocks' ids. *)
Record wf (id_of : loc → Z) (m : t) : Prop := Wf {
  wf_keys : od_wf m;
  wf_dicts : ∀ key d, od_get key m = Some (EDict d) → d ≠ [] ∧ od_wf d ∧ ∀ i b, (i, b) ∈ d → id_of b = i
}.

Lemma wf_init id_of : wf id_of [].
Proof. split; [apply od_wf_nil|done]. Qed.

Lemma od_elem_set {K V} `{EqDecision K} (d : list (K * V)) k v k' v' :
  (k', v') ∈ od_set k v d → (k' = k ∧ v' = v) ∨ (k', v') ∈ d.
Proof.
  induction d as [|[k0 v0] d IH]; simpl.
  - intros [[= -> ->]| []%elem_of_nil]%elem_of_cons. by left.
  - case_decide as Hk; intros [[= -> ->]|H]%elem_of_cons; [subst; by left|right; by right|right; by left|].
    destruct (IH H) as [?|?]; [by left|right; by right].
Qed.

Lemma od_elem_del {K V} `{EqDecision K} (d : list (K * V)) k k' v' :
  od_wf d → (k', v') ∈ od_del k d ↔ (k', v') ∈ d ∧ k' ≠ k.
Proof.
  intros Hwf. induction d as [|[k0 v0] d IH]; simpl.
  - split; [by intros ?%elem_of_nil|by intros [?%elem_of_nil _]].
  - apply od_wf_cons in Hwf as [Hg Hwf]. case_decide as Hk; rewrite !elem_of_cons.
    + subst k0. split; [|by intros [[[= -> ->]|?] ?]].
      intros Hin. split; [by right|]. intros ->. rewrite (od_elem_get _ _ _ Hwf Hin) in Hg. done.
    + rewrite (IH Hwf). split; [intros [[= -> ->]|[? ?]]; [split; [by left|done]|split; [by right|done]]|].
      intros [[[= -> ->]|?] ?]; [by left|by right].
Qed.

Lemma od_del_nil {K V} `{EqDecision K} (d : list (K * V)) k : od_wf d → od_del k d = [] → ∀ k' v', (k', v') ∈ d → k' = k.
Proof.
  intros Hwf Hd k' v' Hin. destruct (decide (k' = k)) as [|Hne]; [done|].
  assert ((k', v') ∈ od_del k d) as H by (by apply od_elem_del). rewrite Hd in H. by apply elem_of_nil in H.
Qed.

(** A block is a member of a dictionary under its id. *)
Lemma members_dict (id_of : loc → Z) (d : list (Z * loc)) b :
  (∀ i b, (i, b) ∈ d → id_of b = i) → b ∈ d.*2 ↔ (id_of b, b) ∈ d.
Proof.
  intros Hid. rewrite list_elem_of_fmap. split.
  - intros ([i b'] & -> & Hin). simpl. by rewrite (Hid i b' Hin).
  - intros Hin. by exists (id_of b, b).
Qed.

Lemma members_of_set key key' e m :
  members_of key' (od_set key e m) = if decide (key' = key) then members e else members_of key' m.
Proof.
  unfold members_of. case_decide as H; [subst; by rewrite od_get_set|by rewrite od_get_set_ne].
Qed.

Lemma members_of_del key key' m :
  od_wf m → members_of key' (od_del key m) = if decide (key' = key) then [] else members_of key' m.
Proof.
  intros Hwf. unfold members_of. case_decide as H; [subst; by rewrite od_get_del|by rewrite od_get_del_ne].
Qed.

Lemma wf_ext id_of id_of' m : (∀ x, id_of' x = id_of x) → wf id_of m → wf id_of' m.
Proof.
  intros He [Hk Hd]. split; [done|]. intros key d Hg. destruct (Hd key d Hg) as (? & ? & Hid).
  split; [done|]. split; [done|]. intros i b Hin. rewrite He. by apply Hid.
Qed.

(** A new entry under a key. *)
Lemma wf_set id_of key e m :
  wf id_of m → (∀ d, e = EDict d → d ≠ [] ∧ od_wf d ∧ ∀ i b, (i, b) ∈ d → id_of b = i) →
  wf id_of (od_set key e m).
Proof.
  intros [Hk Hd] He. split; [by apply od_wf_set|]. intros key' d.
  destruct (decide (key' = key)) as [->|Hne]; [rewrite od_get_set; intros [= ->]; by apply He|].
  rewrite od_get_set_ne by done. apply Hd.
Qed.

Lemma wf_del id_of key m : wf id_of m → wf id_of (od_del key m).
Proof.
  intros [Hk Hd]. split; [by apply od_wf_del|]. intros key' d.
  destruct (decide (key' = key)) as [->|Hne]; [by rewrite od_get_del|].
  rewrite od_get_del_ne by done. apply Hd.
Qed.

Lemma od_set_nonempty {K V} `{EqDecision K} (d : list (K * V)) k v : od_set k v d ≠ [].
Proof. destruct d as [|[k' v'] d]; simpl; [done|]. by case_decide. Qed.

Lemma insert_spec id_of key b m :
  wf id_of m → (∀ x, x ∈ members_of key m → id_of x = id_of b → x = b) →
  wf id_of (insert id_of key b m)
  ∧ ∀ key' x, x ∈ members_of key' (insert id_of key b m) ↔ x ∈ members_of key' m ∨ (key' = key ∧ x = b).
Proof.
  intros Hwf Hinj. unfold insert. unfold members_of in Hinj.
  destruct (od_get key m) as [[b0|d]|] eqn:Hg.
  - split.
    + apply wf_set; [done|]. intros d Hd. assert (d = od_set (id_of b) b (od_set (id_of b0) b0 [])) as -> by congruence.
      split; [apply od_set_nonempty|]. split; [by apply od_wf_set, od_wf_set, od_wf_nil|].
      intros i x [[-> ->]|[[= -> ->]| []%elem_of_nil]%elem_of_cons]%od_elem_set; done.
    + intros key' x. rewrite members_of_set. case_decide as Hk; [subst key'|intuition congruence].
      unfold members_of. rewrite Hg. simpl. case_decide as Hi; simpl.
      * specialize (Hinj b0 ltac:(by left) (eq_sym Hi)). subst b0. rewrite !elem_of_cons. intuition congruence.
      * rewrite !elem_of_cons. intuition congruence.
  - destruct (wf_dicts _ _ Hwf key d Hg) as (Hd1 & Hd2 & Hd3). 
    assert (∀ i x, (i, x) ∈ od_set (id_of b) b d → id_of x = i) as Hid.
    { intros i x [[-> ->]|Hin]%od_elem_set; [done|by apply Hd3]. }
    split.
    + apply wf_set; [done|]. intros d' Hd'. assert (d' = od_set (id_of b) b d) as -> by congruence. split; [apply od_set_nonempty|]. split; [by apply od_wf_set|done].
    + intros key' x. rewrite members_of_set. case_decide as Hk; [subst key'|intuition congruence].
      unfold members_of. rewrite Hg. simpl. rewrite (members_dict id_of) by done. rewrite (members_dict id_of d) by done.
      split.
      * intros [[_ ->]|?]%od_elem_set; [by right|by left].
      * intros Hx. apply od_get_elem. destruct (decide (id_of x = id_of b)) as [E|Hne].
        { rewrite E, od_get_set. f_equal. symmetry. destruct Hx as [Hx|[_ ->]]; [|done].
          apply Hinj; [|done]. by apply (members_dict id_of). }
        rewrite od_get_set_ne by done. destruct Hx as [Hx|[_ ->]]; [|done]. by apply od_elem_get.
  - split; [by apply wf_set|]. intros key' x. rewrite members_of_set.
    case_decide as Hk; [subst key'|intuition congruence]. unfold members_of. rewrite Hg. simpl.
    rewrite elem_of_cons, !elem_of_nil. intuition congruence.
Qed.

Lemma pop_spec id_of key b m :
  wf id_of m → b ∈ members_of key m →
  (∀ x, x ∈ members_of key m → id_of x = id_of b → x = b) →
  ∃ m', pop id_of key (id_of b) m = (Some b, m') ∧ wf id_of m'
  ∧ ∀ key' x, x ∈ members_of key' m' ↔ x ∈ members_of key' m ∧ ¬ (key' = key ∧ x = b).
Proof.
  intros Hwf Hb Hinj. unfold pop. unfold members_of in Hb, Hinj.
  destruct (od_get key m) as [[b0|d]|] eqn:Hg; [| |by apply elem_of_nil in Hb].
  - simpl in Hb. apply list_elem_of_singleton in Hb as <-. rewrite Z.eqb_refl. eexists. split; [done|].
    split; [by apply wf_del|]. intros key' x. rewrite members_of_del by apply Hwf. case_decide as Hk.
    + subst key'. unfold members_of. rewrite Hg. simpl. rewrite list_elem_of_singleton, elem_of_nil. tauto.
    + tauto.
  - destruct (wf_dicts _ _ Hwf key d Hg) as (Hd1 & Hd2 & Hd3). simpl in Hb, Hinj.
    rewrite (members_dict id_of) in Hb by done. rewrite (od_elem_get _ _ _ Hd2 Hb). eexists. split; [done|].
    assert (∀ i x, (i, x) ∈ od_del (id_of b) d ↔ (i, x) ∈ d ∧ i ≠ id_of b) as Hdel by (intros; by apply od_elem_del).
    assert (∀ x, x ∈ (od_del (id_of b) d).*2 ↔ x ∈ d.*2 ∧ x ≠ b) as Hmem.
    { intros x. rewrite (members_dict id_of d) by done.
      rewrite (members_dict id_of) by (intros i y [Hin _]%Hdel; by apply Hd3). rewrite Hdel.
      split; intros [Hx Hne]; (split; [done|]); [by intros ->|]. intros Hi. apply Hne, Hinj; [|done].
      by apply (members_dict id_of). }
    destruct (od_del (id_of b) d) as [|p d'] eqn:Ed.
    + split; [by apply wf_del|]. intros key' x. simpl. rewrite members_of_del by apply Hwf.
      case_decide as Hk; [|tauto]. subst key'. specialize (Hmem x). unfold members_of. rewrite Hg. simpl members. tauto.
    + rewrite zlen_cons, (proj2 (Z.ltb_lt _ _)) by (pose proof (zlen_nonneg d'); lia). split.
      * apply wf_set; [by apply wf_del|]. intros d2 [= <-]. split; [done|]. rewrite <- Ed.
        split; [by apply od_wf_del|]. rewrite Ed. intros i x [Hin _]%Hdel. by apply Hd3.
      * intros key' x. rewrite members_of_set. case_decide as Hk.
        -- subst key'. specialize (Hmem x). unfold members_of. rewrite Hg. simpl members. tauto.
        -- rewrite members_of_del by apply Hwf. rewrite decide_False by done. tauto.
Qed.

(** A hit exactly when the key has members, and it is one of them. *)
Lemma get_one_block_spec id_of key m :
  wf id_of m →
  match get_one_block key m with
  | Ok (Some b) => b ∈ members_of key m
  | Ok None => members_of key m = []
  | Raise _ => False
  end.
Proof.
  intros Hwf. unfold get_one_block, members_of. destruct (od_get key m) as [[b|d]|] eqn:Hg; [by left| |done].
  destruct (wf_dicts _ _ Hwf key d Hg) as (Hd & _). destruct d as [|[i b] d]; [done|]. by left.
Qed.
End BlockMap.

(** ** [BlockPool] *)
Module BlockPool.
Import FreeQueue.

(** The events of [vllm/distributed/kv_events.py]; their medium is the GPU. *)
Inductive event :=
  | BlockStored (hashes : list external_hash) (parent : option external_hash) (token_ids : list Z)
      (block_size : Z) (lora : option (string * Z)) (extra_keys : option (list (option (list extra_key))))
  | BlockRemoved (hashes : list external_hash)
  | AllBlocksCleared.

Record t := BP {
  free_block_queue : FreeQueue.t;
  num_gpu_blocks : Z;
  enable_caching : bool;
  hash_block_size : Z;
  blocks : list loc;
  cached_block_hash_to_block : BlockMap.t;
  null_block : loc;
  enable_kv_cache_events : bool;
  kv_event_queue : list event
}.

Definition set_queue q (s : t) : t :=
  BP q (num_gpu_blocks s) (enable_caching s) (hash_block_size s) (blocks s)
     (cached_block_hash_to_block s) (null_block s) (enable_kv_cache_events s) (kv_event_queue s).
Definition set_cache m (s : t) : t :=
  BP (free_block_queue s) (num_gpu_blocks s) (enable_caching s) (hash_block_size s) (blocks s)
     m (null_block s) (enable_kv_cache_events s) (kv_event_queue s).
Definition set_events l (s : t) : t :=
  BP (free_block_queue s) (num_gpu_blocks s) (enable_caching s) (hash_block_size s) (blocks s)
     (cached_block_hash_to_block s) (null_block s) (enable_kv_cache_events s) l.

(** The object of a block, an assignment to its attributes, a call on the queue. *)
Definition block_of (s : t) (b : loc) : KVCacheBlock := obj (objs (free_block_queue s)) b.
Definition id_of (s : t) (b : loc) : Z := block_id (block_of s b).
Definition update (b : loc) (f : KVCacheBlock → KVCacheBlock) (s : t) : t :=
  set_queue (assign b f (free_block_queue s)) s.
Definition on_queue {A} (m : py FreeQueue.t A) : py t A := λ s,
  let '(r, q) := m (free_block_queue s) in (r, set_queue q s).

(** [__init__]: the blocks are the objects [0 .. n-1], the sentinels [n] and [n+1]. *)
Definition create (num_gpu_blocks : Z) (enable_caching : bool) (hash_block_size : Z)
    (enable_kv_cache_events : bool) : result t :=
  let! _ := rassert (0 <? num_gpu_blocks) in
  let blocks := seqZ 0 num_gpu_blocks in
  let q := FreeQueue.create ∅ blocks num_gpu_blocks (num_gpu_blocks + 1) in
  let '(r, q) := popleft q in
  let! null_block := r in
  Ok (BP (assign null_block set_null q) num_gpu_blocks enable_caching hash_block_size blocks [] null_block
         enable_kv_cache_events []).

Definition get_num_free_blocks (s : t) : Z := num_free_blocks (free_block_queue s).

(** The loop of [get_cached_block]. *)
Fixpoint get_cached_block (block_hash : list Z) (kv_cache_group_ids : list Z) (s : t)
    : result (option (list loc)) :=
  match kv_cache_group_ids with
  | [] => Ok (Some [])
  | g :: rest =>
      let! key := make_block_hash_with_group_id block_hash g in
      let! block := BlockMap.get_one_block key (cached_block_hash_to_block s) in
      match block with
      | None => Ok None
      | Some b => let! r := get_cached_block block_hash rest s in Ok (cons b <$> r)
      end
  end.

(** [_maybe_evict_cached_block], by the flag of the integer hashes in events. *)
Definition maybe_evict_cached_block (use_int : bool) (block : loc) : py t bool :=
  let* s := get_st in
  match FreeQueue.block_hash (block_of s block) with
  | None => ret false
  | Some h =>
      let '(popped, m) := BlockMap.pop (id_of s) h (id_of s block) (cached_block_hash_to_block s) in
      modify (set_cache m) ;;;
      match popped with
      | None => ret false
      | Some _ =>
          modify (update block (set_hash None)) ;;;
          (if enable_kv_cache_events s
           then modify (λ s, set_events (kv_event_queue s
                                ++ [BlockRemoved [maybe_convert_block_hash use_int (get_block_hash h)]]) s)
           else ret tt) ;;;
          ret true
      end
  end.

(** One block of the loops of [get_new_blocks]. *)
Definition allocate_block (use_int : bool) (block : loc) : py t unit :=
  let* s := get_st in
  (if enable_caching s then let* _ := maybe_evict_cached_block use_int block in ret tt else ret tt) ;;;
  let* s := get_st in
  passert (ref_cnt (block_of s block) =? 0) ;;;
  modify (update block (λ b, set_ref_cnt (ref_cnt b + 1) b)).

Definition get_new_blocks (use_int : bool) (num_blocks : Z) : py t (list loc) :=
  let* s := get_st in
  if num_blocks >? get_num_free_blocks s then raise ValueError
  else
    let* l := on_queue (popleft_n num_blocks) in
    for_each l (allocate_block use_int) ;;;
    ret l.

Definition touch_block (block : loc) : py t unit :=
  let* s := get_st in
  (if (ref_cnt (block_of s block) =? 0) && negb (is_null (block_of s block))
   then on_queue (remove block) else ret tt) ;;;
  modify (update block (λ b, set_ref_cnt (ref_cnt b + 1) b)).

Definition touch (l : list loc) : py t unit := for_each l touch_block.

Definition free_blocks (ordered_blocks : list loc) : py t unit :=
  for_each ordered_blocks (λ b, modify (update b (λ b, set_ref_cnt (ref_cnt b - 1) b))) ;;;
  let* s := get_st in
  on_queue (append_n (filter (λ b, ref_cnt (block_of s b) = 0 ∧ is_null (block_of s b) = false) ordered_blocks)).

(** [evict_blocks], on the ids in the order of the set. *)
Definition evict_blocks (use_int : bool) (block_ids : list Z) : py t unit :=
  for_each block_ids (λ i,
    let* s := get_st in
    passert (i <? zlen (blocks s)) ;;;
    let* b := lift (py_index (blocks s) i) in
    let* _ := maybe_evict_cached_block use_int b in
    ret tt).

Definition reset_prefix_cache : py t bool :=
  let* s := get_st in
  if negb (num_gpu_blocks s - get_num_free_blocks s =? 1) then ret false
  else
    modify (set_cache []) ;;;
    for_each (blocks s) (λ b, modify (update b (set_hash None))) ;;;
    (if enable_kv_cache_events s then modify (λ s, set_events (kv_event_queue s ++ [AllBlocksCleared]) s) else ret tt) ;;;
    ret true.

Definition take_events : py t (list event) :=
  let* s := get_st in
  if enable_kv_cache_events s then modify (set_events []) ;;; ret (kv_event_queue s) else ret [].

(** *** [cache_full_blocks]; the hashes of a request are memoised in it, so that the
    request is part of the state. *)

Definition on_pool {A} (m : py t A) : py (t * request) A := λ '(s, r), let '(a, s') := m s in (a, (s', r)).
Definition on_request {A} (m : py request A) : py (t * request) A := λ '(s, r), let '(a, r') := m r in (a, (s, r')).

(** The new hashes [block_hashes[num_cached_blocks:]], and the one at an index. *)
Definition new_block_hashes (s : t) (r : request) (block_size num_cached_blocks : Z) : result (list (list Z)) :=
  if block_size =? hash_block_size s
  then Ok (py_slice (BlockHash.block_hashes r) num_cached_blocks (zlen (BlockHash.block_hashes r)))
  else
    let! m := py_mod block_size (hash_block_size s) in
    let! _ := rassert (m =? 0) in
    merged_from (BlockHash.block_hashes r) (block_size `div` hash_block_size s) num_cached_blocks.

Definition block_hash_at (s : t) (r : request) (block_size i : Z) : result (list Z) :=
  if block_size =? hash_block_size s then py_index (BlockHash.block_hashes r) i
  else get_value_at (BlockHash.block_hashes r) (block_size `div` hash_block_size s) i.

(** One full block: [None] on a null block, else its hash. *)
Definition cache_block (group_id : Z) (hashes : list (list Z)) (i : Z) (blk : loc) : py t (option (list Z)) :=
  let* s := get_st in
  if is_null (block_of s blk) then ret None
  else
    passert (match FreeQueue.block_hash (block_of s blk) with None => true | Some _ => false end) ;;;
    let* h := lift (py_index hashes i) in
    let* key := lift (make_block_hash_with_group_id h group_id) in
    modify (update blk (set_hash (Some key))) ;;;
    modify (λ s, set_cache (BlockMap.insert (id_of s) key blk (cached_block_hash_to_block s)) s) ;;;
    ret (Some h).

(** The loop over [enumerate(new_full_blocks)]. *)
Fixpoint cache_loop (group_id : Z) (hashes : list (list Z)) (i : Z) (blks : list loc) : py t (list (list Z)) :=
  match blks with
  | [] => ret []
  | blk :: rest =>
      let* o := cache_block group_id hashes i blk in
      let* l := cache_loop group_id hashes (i + 1) rest in
      ret (match o with Some h => h :: l | None => l end)
  end.

(** The loop that collects the extra keys of the blocks for the event. *)
Fixpoint extra_keys_loop (all_blocks : list loc) (block_size : Z) (idxs : list Z) (curr_mm_idx : Z)
    : py (t * request) (list (option (list extra_key))) :=
  match idxs with
  | [] => ret []
  | i :: rest =>
      let* (s, _) := get_st in
      let* b := lift (py_index all_blocks i) in
      if is_null (block_of s b) then extra_keys_loop all_blocks block_size rest curr_mm_idx
      else
        let* (keys, idx) := on_request (generate_block_hash_extra_keys (i * block_size)
                                          (i * block_size + block_size) curr_mm_idx) in
        let* l := extra_keys_loop all_blocks block_size rest idx in
        ret (keys :: l)
  end.

Definition cache_full_blocks (use_int : bool) (all_blocks : list loc)
    (num_cached_blocks num_full_blocks block_size group_id : Z) : py (t * request) unit :=
  if num_cached_blocks >=? num_full_blocks then ret tt
  else
    let* (s, r) := get_st in
    passert (num_full_blocks <=? zlen (BlockHash.block_hashes r)) ;;;
    let* hashes := lift (new_block_hashes s r block_size num_cached_blocks) in
    let* new_hashes := on_pool (cache_loop group_id hashes 0
                                  (py_slice all_blocks num_cached_blocks num_full_blocks)) in
    if enable_kv_cache_events s then
      let* parent := (if num_cached_blocks =? 0 then ret None
                      else let* h := lift (block_hash_at s r block_size (num_cached_blocks - 1)) in
                           ret (Some (maybe_convert_block_hash use_int h))) in
      let* keys := extra_keys_loop all_blocks block_size
                     (seqZ num_cached_blocks (num_full_blocks - num_cached_blocks)) 0 in
      on_pool (modify (λ s, set_events (kv_event_queue s
        ++ [BlockStored (maybe_convert_block_hash use_int <$> new_hashes) parent
              (py_slice (all_token_ids r) (num_cached_blocks * block_size) (num_full_blocks * block_size))
              block_size (lora_request r) (match keys with [] => None | _ => Some keys end)]) s))
    else ret tt.

(** *** The invariant *)

(** [free] are the blocks of the queue in their order; [limbo] are those that an operation
    under way holds: without references and not, or not yet, in the queue. *)
Record inv (s : t) (free : list loc) (limbo : loc → Prop) : Prop := Inv {
  inv_rep : rep (free_block_queue s) free;
  inv_blocks : blocks s = seqZ 0 (num_gpu_blocks s) ∧ 0 < num_gpu_blocks s;
  inv_ends : fake_free_list_head (free_block_queue s) = num_gpu_blocks s
             ∧ fake_free_list_tail (free_block_queue s) = num_gpu_blocks s + 1;
  inv_ids : ∀ b, b ∈ blocks s → id_of s b = b;
  inv_null : null_block s = 0 ∧ (∀ b, b ∈ blocks s → is_null (block_of s b) = true ↔ b = 0)
             ∧ FreeQueue.block_hash (block_of s 0) = None;
  inv_free : ∀ b, b ∈ free ∨ limbo b ↔ b ∈ blocks s ∧ b ≠ 0 ∧ ref_cnt (block_of s b) = 0;
  inv_limbo : ∀ b, limbo b → b ∉ free;
  inv_refs : ∀ b, b ∈ blocks s → b ≠ 0 → 0 ≤ ref_cnt (block_of s b);
  inv_map : BlockMap.wf (id_of s) (cached_block_hash_to_block s);
  inv_index : ∀ key b, b ∈ BlockMap.members_of key (cached_block_hash_to_block s) ↔
                b ∈ blocks s ∧ FreeQueue.block_hash (block_of s b) = Some key
}.

Abbreviation none := (λ _ : loc, False).

Lemma data_eq b b' :
  data b = data b' →
  block_id b = block_id b' ∧ ref_cnt b = ref_cnt b'
  ∧ FreeQueue.block_hash b = FreeQueue.block_hash b' ∧ is_null b = is_null b'.
Proof. by intros [= -> -> -> ->]. Qed.

Lemma inv_mem s free limbo b : inv s free limbo → b ∈ blocks s ↔ 0 ≤ b < num_gpu_blocks s.
Proof. intros Hi. rewrite (proj1 (inv_blocks _ _ _ Hi)), elem_of_seqZ. lia. Qed.

(** The queue's own operations. *)
Lemma inv_queue s free limbo q' free' limbo' :
  inv s free limbo → rep q' free' → same_data (free_block_queue s) q' →
  (∀ x, x ∈ free' ∨ limbo' x ↔ x ∈ free ∨ limbo x) → (∀ x, limbo' x → x ∉ free') →
  inv (set_queue q' s) free' limbo'.
Proof.
  intros [H1 H2 H3 H4 H5 H6 H7 H8 H9 H10] Hrep (Eh & Et & Hd) Hfree Hlimbo.
  assert (∀ b, block_id (obj (objs q') b) = block_id (block_of s b) ∧ ref_cnt (obj (objs q') b) = ref_cnt (block_of s b)
     ∧ FreeQueue.block_hash (obj (objs q') b) = FreeQueue.block_hash (block_of s b)
     ∧ is_null (obj (objs q') b) = is_null (block_of s b)) as He by (intros b; apply data_eq, Hd).
  assert (∀ b, id_of (set_queue q' s) b = id_of s b) as Hid by (intros b; apply He).
  split; simpl; try done.
  - by rewrite Eh, Et.
  - intros b Hb. rewrite Hid. by apply H4.
  - destruct H5 as (? & Hn & ?). split; [done|]. split; [|unfold block_of; simpl; by rewrite (proj1 (proj2 (proj2 (He 0))))].
    intros b Hb. unfold block_of. simpl. rewrite (proj2 (proj2 (proj2 (He b)))). by apply Hn.
  - intros b. unfold block_of. simpl. rewrite (proj1 (proj2 (He b))), Hfree. apply H6.
  - intros b Hb Hne. unfold block_of. simpl. rewrite (proj1 (proj2 (He b))). by apply H8.
  - by apply (BlockMap.wf_ext (id_of s)).
  - intros key b. unfold block_of. simpl. rewrite (proj1 (proj2 (proj2 (He b)))). apply H10.
Qed.

(** Assignments that leave the links alone. *)
Lemma rep_assign q l x f :
  (∀ b, prev_free_block (f b) = prev_free_block b ∧ next_free_block (f b) = next_free_block b) →
  rep q l → rep (assign x f q) l.
Proof.
  intros Hf [H1 H2 H3 H4 H5].
  assert (∀ y, prev (assign x f q) y = prev q y ∧ next (assign x f q) y = next q y) as He.
  { intros y. unfold prev, next, assign. simpl. destruct (decide (y = x)) as [->|Hne]; [|by rewrite obj_upd_ne].
    rewrite obj_upd. apply Hf. }
  split; [done| |done| |].
  - revert H2. apply linked_ext. intros i a b _ _. split; [apply He|apply He].
  - simpl. by rewrite (proj1 (He _)), (proj2 (He _)).
  - intros y Hy. rewrite (proj1 (He y)), (proj2 (He y)). by apply H5.
Qed.

Lemma block_of_update s b f b' :
  block_of (update b f s) b' = if decide (b' = b) then f (block_of s b) else block_of s b'.
Proof. unfold block_of. simpl. case_decide as H; [subst; by rewrite obj_upd|by rewrite obj_upd_ne]. Qed.

(** A new reference count. *)
Lemma inv_set_ref s free limbo b n limbo' :
  inv s free limbo → b ∈ blocks s → (b ≠ 0 → 0 ≤ n) →
  (b ≠ 0 → n = 0 ↔ b ∈ free ∨ limbo' b) → (∀ x, x ≠ b → limbo' x ↔ limbo x) → (limbo' b → b ≠ 0 ∧ b ∉ free) →
  inv (update b (set_ref_cnt n) s) free limbo'.
Proof.
  intros [H1 H2 H3 H4 H5 H6 H7 H8 H9 H10] Hb Hn Hz Hl Hlb.
  assert (∀ x, id_of (update b (set_ref_cnt n) s) x = id_of s x) as Hid.
  { intros x. unfold id_of. rewrite block_of_update. by case_decide as Hx; [subst|]. }
  split; simpl; try done.
  - by apply rep_assign.
  - intros x Hx. rewrite Hid. by apply H4.
  - destruct H5 as (? & Hnull & ?). split; [done|]. split; [intros x Hx|]; rewrite block_of_update;
      case_decide as E; subst; simpl; auto.
  - intros x. rewrite block_of_update. case_decide as Hx.
    + subst x. simpl. destruct (decide (b = 0)) as [->|Hb0]; [|rewrite <- (Hz Hb0); tauto].
      split; [|tauto]. intros [Hf|Hf]; [|by apply Hlb in Hf as [? _]].
      destruct (proj1 (H6 0) (or_introl Hf)) as (_ & ? & _). done.
    + rewrite (Hl x Hx). apply H6.
  - intros x Hx. destruct (decide (x = b)) as [->|Hne]; [by apply Hlb|]. apply H7. by apply Hl.
  - intros x Hx Hx0. rewrite block_of_update. case_decide; [subst; simpl; auto|auto].
  - by apply (BlockMap.wf_ext (id_of s)).
  - intros key x. rewrite block_of_update. case_decide as Hx; [subst x; simpl|]; apply H10.
Qed.

(** A new hash, with a map that follows it. *)
Lemma inv_set_hash s free limbo b o m' :
  inv s free limbo → b ∈ blocks s → (b = 0 → o = None) → BlockMap.wf (id_of s) m' →
  (∀ key x, x ∈ BlockMap.members_of key m' ↔
     x ∈ blocks s ∧ (if decide (x = b) then o else FreeQueue.block_hash (block_of s x)) = Some key) →
  inv (update b (set_hash o) (set_cache m' s)) free limbo.
Proof.
  intros [H1 H2 H3 H4 H5 H6 H7 H8 H9 H10] Hb Hb0 Hwf Hidx.
  assert (∀ x, id_of (update b (set_hash o) (set_cache m' s)) x = id_of s x) as Hid.
  { intros x. unfold id_of. rewrite block_of_update. by case_decide as Hx; [subst|]. }
  assert (∀ x, block_of (set_cache m' s) x = block_of s x) as Hcs by done.
  split; simpl; try done.
  - by apply rep_assign.
  - intros x Hx. rewrite Hid. by apply H4.
  - destruct H5 as (? & Hnull & ?). split; [done|]. clear Hidx.
    split; [intros x Hx|]; rewrite block_of_update, ?Hcs; case_decide as E; subst; simpl; auto.
  - clear Hidx. intros x. rewrite block_of_update, ?Hcs. case_decide as Hx; [subst x; simpl|]; apply H6.
  - clear Hidx. intros x Hx Hx0. rewrite block_of_update, ?Hcs. case_decide; [subst; simpl|]; auto.
  - by apply (BlockMap.wf_ext (id_of s)).
  - intros key x. rewrite Hidx, block_of_update. by destruct (decide (x = b)) as [->|Hx].
Qed.

Lemma inv_set_events s free limbo l : inv s free limbo → inv (set_events l s) free limbo.
Proof. intros [H1 H2 H3 H4 H5 H6 H7 H8 H9 H10]. by split. Qed.

(** What no operation changes, and the attributes of a block after an operation. *)
Definition config (s : t) : Z * bool * Z * list loc * loc * bool :=
  (num_gpu_blocks s, enable_caching s, hash_block_size s, blocks s, null_block s, enable_kv_cache_events s).

Definition same_refs (s s' : t) : Prop :=
  config s' = config s ∧ ∀ x, ref_cnt (block_of s' x) = ref_cnt (block_of s x).

Definition with_ref (n : Z) (d : Z * Z * option (list Z) * bool) : Z * Z * option (list Z) * bool :=
  let '(i, _, h, z) := d in (i, n, h, z).
Definition with_hash (o : option (list Z)) (d : Z * Z * option (list Z) * bool) : Z * Z * option (list Z) * bool :=
  let '(i, n, _, z) := d in (i, n, o, z).

#[export] Instance same_refs_preorder : PreOrder same_refs.
Proof. split; [done|]. intros s1 s2 s3 [? H12] [? H23]. split; [congruence|]. intros x. by rewrite H23. Qed.

(** A step that changes hashes only. *)
Lemma same_refs_hash s s' b o :
  config s' = config s →
  (∀ x, data (block_of s' x) = (if decide (x = b) then with_hash o else id) (data (block_of s x))) → same_refs s s'.
Proof. intros Hc Hd. split; [done|]. intros x. specialize (Hd x). unfold data in Hd. case_decide; simpl in Hd; congruence. Qed.

Lemma data_set_ref_cnt n b : data (set_ref_cnt n b) = with_ref n (data b).
Proof. done. Qed.

Lemma ids_inj s free limbo x b : inv s free limbo → x ∈ blocks s → b ∈ blocks s → id_of s x = id_of s b → x = b.
Proof. intros Hi Hx Hb. by rewrite (inv_ids _ _ _ Hi x Hx), (inv_ids _ _ _ Hi b Hb). Qed.

Lemma evict_spec use_int s free limbo b :
  inv s free limbo → b ∈ blocks s →
  ∃ r s', maybe_evict_cached_block use_int b s = (Ok r, s') ∧ inv s' free limbo ∧ config s' = config s
  ∧ ∀ x, data (block_of s' x) = (if decide (x = b) then with_hash None else id) (data (block_of s x)).
Proof.
  intros Hi Hb. unfold maybe_evict_cached_block, bind, get_st.
  destruct (FreeQueue.block_hash (block_of s b)) as [h|] eqn:Eh.
  - assert (b ∈ BlockMap.members_of h (cached_block_hash_to_block s)) as Hm by (by apply (inv_index _ _ _ Hi)).
    destruct (BlockMap.pop_spec (id_of s) h b (cached_block_hash_to_block s)) as (m' & -> & Hwf & Hmem).
    { apply Hi. }
    { done. }
    { intros x [Hx _]%(inv_index _ _ _ Hi). by apply (ids_inj s free limbo). }
    assert (inv (update b (set_hash None) (set_cache m' s)) free limbo) as Hi'.
    { apply inv_set_hash; [done|done|done|done|]. intros key x. rewrite Hmem, (inv_index _ _ _ Hi).
      case_decide as Hx; [subst x|intuition congruence]. split; [|by intros [_ ?]].
      intros [[_ Hk] Hn]. destruct Hn. split; [congruence|done]. }
    assert (∀ x, data (block_of (update b (set_hash None) (set_cache m' s)) x)
              = (if decide (x = b) then with_hash None else id) (data (block_of s x))) as Hd.
    { intros x. rewrite block_of_update. by case_decide as Hx; [subst|]. }
    unfold modify, ret. destruct (enable_kv_cache_events s); eexists _, _; (split; [done|]); (split; [|done]); [|done].
    by apply inv_set_events.
  - eexists _, s. split; [done|]. split; [done|]. split; [done|]. intros x. case_decide as Hx; [subst x|done].
    unfold data. by rewrite Eh.
Qed.

Lemma allocate_spec use_int s free limbo b :
  inv s free limbo → limbo b →
  ∃ s', allocate_block use_int b s = (Ok tt, s') ∧ inv s' free (λ x, limbo x ∧ x ≠ b) ∧ config s' = config s
  ∧ ∀ x, data (block_of s' x)
       = (if decide (x = b) then λ d, with_ref 1 (if enable_caching s then with_hash None d else d) else id)
           (data (block_of s x)).
Proof.
  intros Hi Hl. destruct (proj1 (inv_free _ _ _ Hi b) (or_intror Hl)) as (Hb & Hb0 & Hr).
  assert (∃ s1, (if enable_caching s then let* _ := maybe_evict_cached_block use_int b in ret tt else ret tt) s = (Ok tt, s1)
     ∧ inv s1 free limbo ∧ config s1 = config s
     ∧ ∀ x, data (block_of s1 x) = (if decide (x = b) then λ d, if enable_caching s then with_hash None d else d else id)
                                     (data (block_of s x))) as (s1 & Hs1 & Hi1 & Hc1 & Hd1).
  { destruct (enable_caching s).
    - destruct (evict_spec use_int s free limbo b Hi Hb) as (r & s1 & He & ?). exists s1. unfold bind. by rewrite He.
    - exists s. split; [done|]. split; [done|]. split; [done|]. intros x. by case_decide. }
  unfold allocate_block. unfold bind at 1, get_st at 1. unfold bind at 1. rewrite Hs1. unfold bind, get_st, passert, lift, modify.
  assert (ref_cnt (block_of s1 b) = 0) as Hr1.
  { specialize (Hd1 b). rewrite decide_True in Hd1 by done. unfold data in Hd1.
    destruct (enable_caching s); simpl in Hd1; congruence. }
  rewrite Hr1. simpl. eexists. split; [reflexivity|]. assert (blocks s1 = blocks s) as Eb by (unfold config in Hc1; congruence).
  split; [|split; [done|]].
  - replace (update b (λ b0, set_ref_cnt (ref_cnt b0 + 1) b0) s1) with (update b (set_ref_cnt 1) s1).
    2:{ unfold update, assign, upd. f_equal. f_equal. f_equal. unfold block_of in Hr1. by rewrite Hr1. }
    apply (inv_set_ref s1 free limbo); [done|by rewrite Eb|lia| |intros x Hx; tauto|tauto].
    intros _. split; [lia|]. intros [Hf|[_ ?]]; [|done]. by destruct (inv_limbo _ _ _ Hi b Hl).
  - intros x. rewrite block_of_update. specialize (Hd1 x). case_decide as Hx; [subst x|done].
    by rewrite data_set_ref_cnt, Hd1, Hr1.
Qed.

Lemma inv_limbo_ext s free limbo limbo' : (∀ x, limbo' x ↔ limbo x) → inv s free limbo → inv s free limbo'.
Proof.
  intros He [H1 H2 H3 H4 H5 H6 H7 H8 H9 H10]. split; try done.
  - intros b. rewrite He. apply H6.
  - intros b Hb. by apply H7, He.
Qed.

Lemma config_num s s' : config s' = config s → num_gpu_blocks s' = num_gpu_blocks s.
Proof. unfold config. congruence. Qed.

Lemma config_blocks s s' : config s' = config s → blocks s' = blocks s.
Proof. unfold config. congruence. Qed.

(** *** Allocation *)

(** What allocation does to a block. *)
Definition allocated (s : t) (d : Z * Z * option (list Z) * bool) : Z * Z * option (list Z) * bool :=
  with_ref 1 (if enable_caching s then with_hash None d else d).

Lemma allocate_all use_int s free limbo l :
  inv s free limbo → NoDup l → (∀ x, x ∈ l → limbo x) →
  ∃ s', for_each l (allocate_block use_int) s = (Ok tt, s') ∧ inv s' free (λ x, limbo x ∧ x ∉ l)
  ∧ config s' = config s
  ∧ ∀ x, data (block_of s' x) = (if decide (x ∈ l) then allocated s else id) (data (block_of s x)).
Proof.
  revert s limbo. induction l as [|b l IH]; intros s limbo Hi Hnd Hl; simpl.
  { exists s. split; [done|]. split; [|done]. revert Hi. apply inv_limbo_ext. intros x.
    split; [by intros [? _]|]. intros. split; [done|apply not_elem_of_nil]. }
  apply NoDup_cons in Hnd as [Hb Hnd].
  destruct (allocate_spec use_int s free limbo b Hi (Hl b ltac:(by left))) as (s1 & H1 & Hi1 & Hc1 & Hd1).
  destruct (IH s1 _ Hi1 Hnd) as (s2 & H2 & Hi2 & Hc2 & Hd2).
  { intros x Hx. split; [apply Hl; by right|]. by intros ->. }
  exists s2. unfold bind. rewrite H1, H2. split; [done|]. split; [|split; [congruence|]].
  - revert Hi2. apply inv_limbo_ext. intros x. rewrite not_elem_of_cons. tauto.
  - intros x. rewrite Hd2, Hd1.
    assert (enable_caching s1 = enable_caching s) as E by (unfold config in Hc1; congruence).
    unfold allocated. rewrite E. destruct (decide (x ∈ l)) as [Hx|Hx].
    + rewrite decide_False by (by intros ->). by destruct (decide (x ∈ b :: l)) as [|[]]; [|right].
    + destruct (decide (x = b)) as [->|Hne].
      * by destruct (decide (b ∈ b :: l)) as [|[]]; [|left].
      * destruct (decide (x ∈ b :: l)) as [Hin|]; [|done]. by apply elem_of_cons in Hin as [|].
Qed.

Lemma get_new_blocks_spec use_int s p l :
  inv s (p ++ l) none →
  ∃ s', get_new_blocks use_int (zlen p) s = (Ok p, s') ∧ inv s' l none ∧ config s' = config s
  ∧ ∀ x, data (block_of s' x) = (if decide (x ∈ p) then allocated s else id) (data (block_of s x)).
Proof.
  intros Hi. pose proof (rep_num _ _ (inv_rep _ _ _ Hi)) as Hnum.
  pose proof (rep_nodup _ _ (inv_rep _ _ _ Hi)) as Hnd. unfold path in Hnd.
  apply NoDup_cons in Hnd as [_ (Hnd & _ & _)%NoDup_app]. apply NoDup_app in Hnd as (Hp & Hpl & _).
  destruct (popleft_n_spec (free_block_queue s) p l (inv_rep _ _ _ Hi)) as (q & Hq & Hrep & Hsame).
  assert (inv (set_queue q s) l (λ x, x ∈ p)) as Hi1.
  { apply (inv_queue s (p ++ l) none); [done|done|done| |done]. intros x. rewrite elem_of_app. tauto. }
  destruct (allocate_all use_int (set_queue q s) l _ p Hi1 Hp (λ x H, H)) as (s' & Hs' & Hi' & Hc' & Hd').
  exists s'. unfold get_new_blocks, get_num_free_blocks, bind at 1, get_st. rewrite Hnum, zlen_app, Z.gtb_ltb.
  rewrite (proj2 (Z.ltb_ge _ _)) by (pose proof (zlen_nonneg l); lia).
  unfold bind, on_queue. rewrite Hq, Hs'. split; [done|]. split; [|split; [done|]].
  - revert Hi'. apply inv_limbo_ext. intros x. tauto.
  - intros x. rewrite Hd'. unfold block_of at 1. simpl. destruct Hsame as (_ & _ & Hdata).
    by rewrite (Hdata x).
Qed.

Lemma get_new_blocks_error use_int s free n :
  inv s free none → zlen free < n → get_new_blocks use_int n s = (Raise ValueError, s).
Proof.
  intros Hi Hn. unfold get_new_blocks, get_num_free_blocks, bind, get_st.
  rewrite (rep_num _ _ (inv_rep _ _ _ Hi)), Z.gtb_ltb. by rewrite (proj2 (Z.ltb_lt _ _)).
Qed.

(** *** References *)

Lemma update_ref_eq s b n : ref_cnt (block_of s b) = n → ∀ k,
  update b (λ b0, set_ref_cnt (ref_cnt b0 + k) b0) s = update b (set_ref_cnt (n + k)) s.
Proof. intros <- k. done. Qed.

Lemma touch_block_spec s free b :
  inv s free none → b ∈ blocks s →
  ∃ s', touch_block b s = (Ok tt, s') ∧ inv s' (filter (λ x, x ≠ b) free) none ∧ config s' = config s
  ∧ ∀ x, data (block_of s' x)
       = (if decide (x = b) then with_ref (ref_cnt (block_of s b) + 1) else id) (data (block_of s x)).
Proof.
  intros Hi Hb. unfold touch_block, bind, get_st, modify.
  assert (b ∉ free → filter (λ x, x ≠ b) free = free) as Hnot by (intros Hf; apply filter_id; by intros x Hx ->).
  destruct ((ref_cnt (block_of s b) =? 0) && negb (is_null (block_of s b))) eqn:E.
  - apply andb_true_iff in E as [Hr%Z.eqb_eq Hn%negb_true_iff].
    assert (b ≠ 0) as Hb0.
    { intros Hb0. apply (proj1 (proj2 (inv_null _ _ _ Hi)) b Hb) in Hb0. congruence. }
    destruct (proj2 (inv_free _ _ _ Hi b)) as [Hf|[]]; [done|].
    apply list_elem_of_split in Hf as (l1 & l2 & ->). pose proof (inv_rep _ _ _ Hi) as Hrep.
    pose proof (rep_nodup _ _ Hrep) as Hnd. unfold path in Hnd.
    apply NoDup_cons in Hnd as [_ (Hnd & _ & _)%NoDup_app]. apply NoDup_app in Hnd as (_ & Hd & [Hb2 _]%NoDup_cons).
    assert (b ∉ l1) as Hb1 by (intros Hin; apply (Hd b Hin); by left).
    destruct (remove_spec _ l1 b l2 Hrep) as (q & Hq & Hrepq & Hsame).
    unfold on_queue. rewrite Hq. rewrite filter_ne_split by done.
    assert (inv (set_queue q s) (l1 ++ l2) (λ x, x = b)) as Hi1.
    { apply (inv_queue s (l1 ++ b :: l2) none); [done|done|done| |].
      - intros x. rewrite !elem_of_app, elem_of_cons. tauto.
      - intros x ->. rewrite elem_of_app. tauto. }
    assert (∀ x, data (block_of (set_queue q s) x) = data (block_of s x)) as Hdata by (intros x; apply Hsame).
    pose proof (data_eq _ _ (Hdata b)) as (_ & Hrb & _).
    eexists. split; [reflexivity|]. rewrite (update_ref_eq _ b 0) by congruence. split; [|split; [done|]].
    + apply (inv_set_ref _ _ (λ x, x = b)); [done|done|lia| |intros x Hx; tauto|tauto].
      intros _. split; [lia|]. intros [Hin|[]]. apply elem_of_app in Hin. tauto.
    + intros x. rewrite block_of_update, Hr. case_decide as Hx; [subst x|apply Hdata].
      by rewrite data_set_ref_cnt, Hdata.
  - eexists. split; [reflexivity|]. rewrite (update_ref_eq _ b _ eq_refl).
    assert (b ≠ 0 → 0 < ref_cnt (block_of s b)) as Hpos.
    { intros Hb0. pose proof (inv_refs _ _ _ Hi b Hb Hb0) as Hge.
      apply andb_false_iff in E as [Hr%Z.eqb_neq|Hn%negb_false_iff]; [lia|].
      by apply (proj1 (proj2 (inv_null _ _ _ Hi)) b Hb) in Hn. }
    assert (b ∉ free) as Hbf.
    { intros Hf. destruct (proj1 (inv_free _ _ _ Hi b) (or_introl Hf)) as (_ & Hb0 & Hr). specialize (Hpos Hb0). lia. }
    rewrite Hnot by done. split; [|split; [done|]].
    + apply (inv_set_ref _ _ none); [done|done|lia| |done|done].
      intros Hb0. specialize (Hpos Hb0). split; [lia|]. intros [?|[]]; done.
    + intros x. rewrite block_of_update. by case_decide as Hx; [subst x|].
Qed.

(** How often a block is in a list. *)
Definition times (b : loc) (l : list loc) : Z := Z.of_nat (multiplicity b (list_to_set_disj l)).

Lemma times_nil b : times b [] = 0.
Proof. done. Qed.

Lemma times_cons b x l : times b (x :: l) = (if decide (b = x) then 1 else 0) + times b l.
Proof. unfold times. rewrite list_to_set_disj_cons, multiplicity_disj_union, multiplicity_singleton. case_decide; lia. Qed.

Lemma times_zero b l : times b l = 0 ↔ b ∉ l.
Proof. unfold times. rewrite <- (elem_of_list_to_set_disj b l), not_elem_of_multiplicity. lia. Qed.

Lemma times_nonneg b l : 0 ≤ times b l.
Proof. unfold times. lia. Qed.

Lemma times_once b l : NoDup (filter (λ b, b ≠ 0) l) → b ∈ l → b ≠ 0 → times b l = 1.
Proof.
  induction l as [|x l IH]; [by intros _ ?%elem_of_nil|]. rewrite filter_cons, times_cons. intros Hnd Hb Hb0.
  apply elem_of_cons in Hb. destruct (decide (b = x)) as [<-|Hne].
  - rewrite decide_True in Hnd by done. apply NoDup_cons in Hnd as [Hn _].
    rewrite (proj2 (times_zero b l)); [lia|]. intros Hb'. apply Hn, list_elem_of_filter. done.
  - destruct Hb as [?|Hb]; [done|]. rewrite (IH); [done| |done|done]. case_decide; [by apply NoDup_cons in Hnd as [_ ?]|done].
Qed.

Lemma times_pos b l : 0 < times b l ↔ b ∈ l.
Proof.
  pose proof (times_nonneg b l). split; intros Hb.
  - apply dec_stable. intros ?%times_zero. lia.
  - assert (times b l ≠ 0) by (by intros ?%times_zero). lia.
Qed.

Lemma with_ref_self b : with_ref (ref_cnt b) (data b) = data b.
Proof. done. Qed.

Lemma with_ref_twice n m d : with_ref n (with_ref m d) = with_ref n d.
Proof. by destruct d as [[[? ?] ?] ?]. Qed.

Lemma ref_of_data b n d : data b = with_ref n d → ref_cnt b = n.
Proof. destruct d as [[[? ?] ?] ?]. unfold data. simpl. congruence. Qed.

Lemma touch_spec s free l :
  inv s free none → (∀ b, b ∈ l → b ∈ blocks s) →
  ∃ s', touch l s = (Ok tt, s') ∧ inv s' (filter (λ x, x ∉ l) free) none ∧ config s' = config s
  ∧ ∀ x, data (block_of s' x) = with_ref (ref_cnt (block_of s x) + times x l) (data (block_of s x)).
Proof.
  revert s free. induction l as [|b l IH]; intros s free Hi Hl.
  { exists s. split; [done|]. rewrite filter_id; [|intros x _; apply not_elem_of_nil]. split; [done|]. split; [done|].
    intros x. by rewrite times_nil, Z.add_0_r, with_ref_self. }
  destruct (touch_block_spec s free b Hi (Hl b ltac:(by left))) as (s1 & H1 & Hi1 & Hc1 & Hd1).
  destruct (IH s1 _ Hi1) as (s2 & H2 & Hi2 & Hc2 & Hd2).
  { intros x Hx. rewrite (config_blocks _ _ Hc1). apply Hl. by right. }
  exists s2. unfold touch in *. simpl. unfold bind. rewrite H1, H2. split; [done|]. split; [|split; [congruence|]].
  - rewrite list_filter_filter in Hi2.
    rewrite (list_filter_iff _ (λ x, (x ∉ l) ∧ x ≠ b)); [done|]. intros x. rewrite not_elem_of_cons. tauto.
  - intros x. rewrite Hd2, times_cons. specialize (Hd1 x). destruct (decide (x = b)) as [->|Hx].
    + rewrite (ref_of_data _ _ _ Hd1), Hd1, with_ref_twice. by rewrite Z.add_assoc.
    + unfold id in Hd1. rewrite Hd1. by apply data_eq in Hd1 as (_ & -> & _).
Qed.

(** The references that [free_blocks] gives back. *)
Lemma decrement_all s free limbo l :
  inv s free limbo → (∀ b, b ∈ l → b ∈ blocks s ∧ (b ≠ 0 → times b l ≤ ref_cnt (block_of s b))) →
  ∃ s', for_each l (λ b, modify (update b (λ b, set_ref_cnt (ref_cnt b - 1) b))) s = (Ok tt, s')
  ∧ inv s' free (λ x, limbo x ∨ x ∈ l ∧ x ≠ 0 ∧ ref_cnt (block_of s x) = times x l) ∧ config s' = config s
  ∧ ∀ x, data (block_of s' x) = with_ref (ref_cnt (block_of s x) - times x l) (data (block_of s x)).
Proof.
  revert s limbo. induction l as [|b l IH]; intros s limbo Hi Hl.
  { exists s. split; [done|]. split; [|split; [done|]].
    - revert Hi. apply inv_limbo_ext. intros x. rewrite elem_of_nil. tauto.
    - intros x. by rewrite times_nil, Z.sub_0_r, with_ref_self. }
  destruct (Hl b ltac:(by left)) as [Hb Hr]. rewrite times_cons, decide_True in Hr by done.
  pose proof (times_nonneg b l) as Hbl.
  set (s1 := update b (λ b0, set_ref_cnt (ref_cnt b0 - 1) b0) s).
  assert (b ≠ 0 → (b ∉ free) ∧ ¬ limbo b) as Hnf.
  { intros Hb0. specialize (Hr Hb0). split; intros Hf.
    - destruct (proj1 (inv_free _ _ _ Hi b) (or_introl Hf)) as (_ & _ & ?). lia.
    - destruct (proj1 (inv_free _ _ _ Hi b) (or_intror Hf)) as (_ & _ & ?). lia. }
  assert (¬ limbo 0) as Hl0 by (intros Hf; by destruct (proj1 (inv_free _ _ _ Hi 0) (or_intror Hf)) as (_ & ? & _)).
  assert (inv s1 free (λ x, limbo x ∨ x = b ∧ b ≠ 0 ∧ ref_cnt (block_of s b) = 1)) as Hi1.
  { change s1 with (update b (set_ref_cnt (ref_cnt (block_of s b) - 1)) s).
    apply (inv_set_ref s free limbo); [done|done|intros Hb0; specialize (Hr Hb0); lia| |intros x Hx; tauto|].
    - intros Hb0. specialize (Hnf Hb0). split; [intros; right; right; split; [done|split; [done|lia]]|].
      intros [?|[?|(_ & _ & ?)]]; [tauto|tauto|lia].
    - intros [?|(_ & ? & _)]; [|tauto]. destruct (decide (b = 0)) as [->|]; [done|]. tauto. }
  assert (∀ x, ref_cnt (block_of s1 x) = ref_cnt (block_of s x) - (if decide (x = b) then 1 else 0)) as Hs1.
  { intros x. unfold s1. rewrite block_of_update. case_decide; [by subst|lia]. }
  destruct (IH s1 _ Hi1) as (s2 & H2 & Hi2 & Hc2 & Hd2).
  { intros x Hx. destruct (Hl x ltac:(by right)) as [Hxb Hxr]. split; [done|]. intros Hx0. specialize (Hxr Hx0).
    rewrite times_cons in Hxr. rewrite Hs1. case_decide; lia. }
  exists s2. cbn [for_each]. unfold bind, modify. fold s1. split; [exact H2|]. split; [|split; [done|]].
  - revert Hi2. apply inv_limbo_ext. intros x. rewrite elem_of_cons, Hs1, times_cons.
    case_decide as Hx; [subst x|intuition lia]. pose proof (times_zero b l).
    destruct (decide (b ∈ l)); intuition lia.
  - intros x. rewrite Hd2, Hs1, times_cons. unfold s1. rewrite block_of_update.
    case_decide as Hx; [subst x; rewrite data_set_ref_cnt, with_ref_twice|]; f_equal; lia.
Qed.

(** The blocks given back, each once but for the null block. *)
Lemma free_blocks_spec s free l :
  inv s free none → NoDup (filter (λ b, b ≠ 0) l) →
  (∀ b, b ∈ l → b ∈ blocks s ∧ (b ≠ 0 → 0 < ref_cnt (block_of s b))) →
  ∃ s', free_blocks l s = (Ok tt, s')
  ∧ inv s' (free ++ filter (λ b, b ≠ 0 ∧ ref_cnt (block_of s b) = 1) l) none ∧ config s' = config s
  ∧ ∀ x, data (block_of s' x) = with_ref (ref_cnt (block_of s x) - times x l) (data (block_of s x)).
Proof.
  intros Hi Hnd Hl.
  assert (∀ b, b ∈ l → b ≠ 0 → times b l = 1) as Hone by (intros; by apply times_once).
  destruct (decrement_all s free none l Hi) as (s1 & H1 & Hi1 & Hc1 & Hd1).
  { intros b Hb. destruct (Hl b Hb) as [? Hr]. split; [done|]. intros Hb0. specialize (Hr Hb0). rewrite Hone by done. lia. }
  assert (∀ x, ref_cnt (block_of s1 x) = ref_cnt (block_of s x) - times x l ∧ is_null (block_of s1 x) = is_null (block_of s x)) as Hr.
  { intros x. specialize (Hd1 x). split; [by apply ref_of_data in Hd1|]. unfold data in Hd1. simpl in Hd1. congruence. }
  assert (filter (λ b, ref_cnt (block_of s1 b) = 0 ∧ is_null (block_of s1 b) = false) l
          = filter (λ b, b ≠ 0 ∧ ref_cnt (block_of s b) = 1) l) as Hf.
  { apply filter_ext_in. intros x Hx. destruct (Hr x) as [-> ->]. destruct (Hl x Hx) as [Hb _]. specialize (Hone x Hx).
    pose proof (proj1 (proj2 (inv_null _ _ _ Hi)) x Hb) as Hn. destruct (is_null (block_of s x)).
    - split; [by intros [_ ?]|]. intros [Hx0 _]. by destruct Hx0; apply Hn.
    - split; [intros [? _]; assert (x ≠ 0) as Hx0 by (by intros Hz%Hn)|intros [Hx0 ?]]; rewrite Hone in * by done; (split; [|]); done || lia. }
  unfold free_blocks, bind, get_st. rewrite H1, Hf. clear Hf. set (bs := filter _ l).
  assert (∀ x, x ∈ bs ↔ x ∈ l ∧ x ≠ 0 ∧ ref_cnt (block_of s x) = times x l) as Hbs.
  { intros x. unfold bs. rewrite list_elem_of_filter. split.
    - intros [[Hx0 Hx1] Hx]. rewrite Hone by done. done.
    - intros (Hx & Hx0 & Hx1). rewrite Hone in Hx1 by done. done. }
  destruct (append_n_spec (free_block_queue s1) free bs (inv_rep _ _ _ Hi1)) as (q & Hq & Hrep & Hsame).
  { unfold bs. rewrite (list_filter_iff _ (λ b, ref_cnt (block_of s b) = 1 ∧ b ≠ 0)) by tauto.
    rewrite <- list_filter_filter. by apply NoDup_filter. }
  { intros x Hx%Hbs. assert (x ∉ free) as Hxf by (apply (inv_limbo _ _ _ Hi1); by right).
    unfold path. destruct (inv_ends _ _ _ Hi1) as [-> ->].
    rewrite (config_num _ _ Hc1). destruct (Hl x (proj1 Hx)) as [Hb%(inv_mem _ _ _ _ Hi) _].
    apply not_elem_of_cons. split; [lia|]. apply not_elem_of_app. split; [done|].
    apply not_elem_of_cons. split; [lia|apply not_elem_of_nil]. }
  exists (set_queue q s1). unfold on_queue. rewrite Hq. split; [done|]. split; [|split; [done|]].
  - apply (inv_queue s1 free _ q _ none Hi1); [done|done| |done].
    intros x. rewrite elem_of_app, Hbs. tauto.
  - intros x. rewrite <- Hd1. apply Hsame.
Qed.

(** *** The map of hashes *)

Lemma py_index_elem {A} (l : list A) i x : py_index l i = Ok x → x ∈ l.
Proof.
  unfold py_index. destruct (_ <? 0); [done|]. intros H%of_option_ok. by apply list_elem_of_lookup_2 in H.
Qed.

Lemma evict_blocks_inv use_int ids s free :
  inv s free none → inv (evict_blocks use_int ids s).2 free none ∧ same_refs s (evict_blocks use_int ids s).2.
Proof.
  intros Hi. unfold evict_blocks.
  apply (for_each_inv (λ s', inv s' free none ∧ same_refs s s')); [|done].
  intros i s0 _ [H0 Hs]. unfold bind, get_st, passert, lift.
  destruct (rassert _); [|done]. destruct (py_index (blocks s0) i) as [b|] eqn:Eb; [|done].
  apply py_index_elem in Eb. destruct (evict_spec use_int s0 free none b H0 Eb) as (r & s1 & -> & H1 & Hc1 & Hd1).
  split; [done|]. transitivity s0; [done|]. by apply (same_refs_hash s0 s1 b None).
Qed.

(** Caching one block: the map gets it, or nothing changes. *)
Lemma cache_block_spec gid hashes i s free b :
  inv s free none → b ∈ blocks s →
  match cache_block gid hashes i b s with
  | (Ok (Some h), s') => inv s' free none ∧ config s' = config s ∧ b ≠ 0
      ∧ FreeQueue.block_hash (block_of s b) = None ∧ py_index hashes i = Ok h
      ∧ (∃ key, make_block_hash_with_group_id h gid = Ok key ∧
         ∀ x, data (block_of s' x) = (if decide (x = b) then with_hash (Some key) else id) (data (block_of s x)))
  | (Ok None, s') => s' = s ∧ b = 0
  | (Raise _, s') => s' = s
  end.
Proof.
  intros Hi Hb. unfold cache_block, bind, get_st, ret, passert, lift, modify.
  destruct (is_null (block_of s b)) eqn:En.
  { split; [done|]. by apply (inv_null _ _ _ Hi). }
  assert (b ≠ 0) as Hb0 by (intros Hz; apply (proj1 (proj2 (inv_null _ _ _ Hi)) b Hb) in Hz; congruence).
  destruct (FreeQueue.block_hash (block_of s b)) as [h0|] eqn:Eh; [done|]. simpl.
  destruct (py_index hashes i) as [h|e] eqn:Ei; [|done].
  destruct (make_block_hash_with_group_id h gid) as [key|e] eqn:Ek; [|done].
  set (s1 := update b (set_hash (Some key)) s).
  assert (∀ x, id_of s1 x = id_of s x) as Hid.
  { intros x. unfold id_of, s1. rewrite block_of_update. by case_decide as Hx; [subst|]. }
  destruct (BlockMap.insert_spec (id_of s1) key b (cached_block_hash_to_block s)) as [Hwf Hmem].
  { apply (BlockMap.wf_ext (id_of s)); [done|apply Hi]. }
  { intros x [Hx _]%(inv_index _ _ _ Hi). rewrite !Hid. by apply (ids_inj s free none). }
  split; [|split; [done|split; [done|split; [done|split; [done|]]]]].
  - change (set_cache _ s1) with (update b (set_hash (Some key))
       (set_cache (BlockMap.insert (id_of s1) key b (cached_block_hash_to_block s)) s)).
    apply inv_set_hash; [done|done|done| |].
    + apply (BlockMap.wf_ext (id_of s1)); [done|done].
    + intros k x. rewrite Hmem, (inv_index _ _ _ Hi). destruct (decide (x = b)) as [->|Hx].
      * rewrite Eh. split; [intros [[_ ?]|[-> _]]; done|]. intros [_ [= <-]]. by right.
      * intuition congruence.
  - exists key. split; [done|]. intros x. 
    change (data (block_of (set_cache _ s1) x)) with (data (block_of s1 x)). unfold s1.
    rewrite block_of_update. by case_decide as Hx; [subst|].
Qed.

Lemma cache_loop_inv gid hashes i bs s free :
  inv s free none → (∀ b, b ∈ bs → b ∈ blocks s) →
  inv (cache_loop gid hashes i bs s).2 free none ∧ same_refs s (cache_loop gid hashes i bs s).2.
Proof.
  revert i s. induction bs as [|b bs IH]; intros i s Hi Hb; [done|]. cbn [cache_loop]. unfold bind.
  pose proof (cache_block_spec gid hashes i s free b Hi (Hb b ltac:(by left))) as Hc.
  destruct (cache_block gid hashes i b s) as [[[h|]|e] s1]; [| |by subst].
  - destruct Hc as (Hi1 & Hc & _ & _ & _ & key & _ & Hd).
    destruct (IH (i + 1) s1 Hi1) as [Hi2 Hs2]; [intros x Hx; rewrite (config_blocks _ _ Hc); apply Hb; by right|].
    assert (same_refs s s1) as Hs1 by (by apply (same_refs_hash s s1 b (Some key))).
    destruct (cache_loop gid hashes (i + 1) bs s1) as [[l|e] s2]; (split; [done|]); by transitivity s1.
  - destruct Hc as (-> & _). destruct (IH (i + 1) s Hi) as [Hi2 Hs2]; [intros x Hx; apply Hb; by right|].
    by destruct (cache_loop gid hashes (i + 1) bs s) as [[l|e] s2].
Qed.

(** Reading the extra keys leaves the pool alone. *)
Lemma extra_keys_loop_pool all_blocks bsz idxs mm s r : (extra_keys_loop all_blocks bsz idxs mm (s, r)).2.1 = s.
Proof.
  revert mm r. induction idxs as [|i idxs IH]; intros mm r; [done|]. cbn [extra_keys_loop].
  unfold bind, get_st, lift. destruct (py_index all_blocks i) as [b|e]; [|done].
  destruct (is_null (block_of s b)); [apply IH|]. unfold on_request.
  destruct (generate_block_hash_extra_keys _ _ mm r) as [[[k idx]|e] r1]; [|done].
  specialize (IH idx r1). by destruct (extra_keys_loop all_blocks bsz idxs idx (s, r1)) as [[l|e] [s2 r2]].
Qed.

Lemma cache_full_blocks_inv use_int bs n m bsz gid s r free :
  inv s free none → (∀ b, b ∈ bs → b ∈ blocks s) →
  inv (cache_full_blocks use_int bs n m bsz gid (s, r)).2.1 free none
  ∧ same_refs s (cache_full_blocks use_int bs n m bsz gid (s, r)).2.1.
Proof.
  intros Hi Hb. unfold cache_full_blocks. destruct (n >=? m); [done|].
  unfold bind, get_st, passert, lift. destruct (rassert _); [|done].
  destruct (new_block_hashes s r bsz n) as [hashes|]; [|done]. unfold on_pool at 1 3.
  destruct (cache_loop_inv gid hashes 0 (py_slice bs n m) s free Hi) as [Hi1 Hs1].
  { intros b Hin. apply Hb. by apply elem_of_py_slice in Hin. }
  destruct (cache_loop gid hashes 0 (py_slice bs n m) s) as [[new|e] s1]; [|done]. simpl in Hi1, Hs1.
  destruct (enable_kv_cache_events s); [|done].
  destruct ((if n =? 0 then ret None else _) (s1, r)) as [[parent|e] [s2 r2]] eqn:Ep.
  - assert (s2 = s1 ∧ r2 = r) as [-> ->].
    { destruct (n =? 0); [by injection Ep|]. by destruct (block_hash_at s r bsz (n - 1)); injection Ep. }
    pose proof (extra_keys_loop_pool bs bsz (seqZ n (m - n)) 0 s1 r) as Hs.
    destruct (extra_keys_loop bs bsz (seqZ n (m - n)) 0 (s1, r)) as [[keys|e] [s3 r3]]; simpl in Hs; subst s3; [|done].
    split; [by apply inv_set_events|done].
  - destruct (n =? 0); [done|]. destruct (block_hash_at s r bsz (n - 1)) as [|e']; [done|]. by injection Ep as _ <- <-.
Qed.

(** *** Reset *)

(** Clearing hashes one by one, next to the map that would have followed. *)
Lemma clear_hashes l s m free :
  inv (set_cache m s) free none → (∀ b, b ∈ l → b ∈ blocks s) →
  ∃ s' m', for_each l (λ b, modify (update b (set_hash None))) s = (Ok tt, s')
  ∧ inv (set_cache m' s') free none ∧ config s' = config s
  ∧ cached_block_hash_to_block s' = cached_block_hash_to_block s
  ∧ kv_event_queue s' = kv_event_queue s
  ∧ ∀ x, data (block_of s' x) = (if decide (x ∈ l) then with_hash None else id) (data (block_of s x)).
Proof.
  revert s m. induction l as [|b l IH]; intros s m Hi Hl.
  { exists s, m. done. }
  set (s1 := update b (set_hash None) s).
  assert (b ∈ blocks s) as Hb by (apply Hl; by left).
  assert (∃ m1, inv (set_cache m1 s1) free none) as (m1 & Hi1).
  { assert (∀ m1, BlockMap.wf (id_of s) m1 →
       (∀ key x, x ∈ BlockMap.members_of key m1 ↔
         x ∈ blocks s ∧ (if decide (x = b) then None else FreeQueue.block_hash (block_of s x)) = Some key) →
       inv (set_cache m1 s1) free none) as Hset.
    { intros m1 Hwf Hmem. exact (inv_set_hash (set_cache m s) free none b None m1 Hi Hb (λ _, eq_refl) Hwf Hmem). }
    pose proof (inv_map _ _ _ Hi) as Hwf. pose proof (inv_index _ _ _ Hi) as Hidx. simpl in Hwf, Hidx.
    change (block_of (set_cache m s)) with (block_of s) in Hidx.
    change (id_of (set_cache m s)) with (id_of s) in Hwf.
    destruct (FreeQueue.block_hash (block_of s b)) as [h|] eqn:Eh.
    - destruct (BlockMap.pop_spec (id_of s) h b m Hwf) as (m1 & _ & Hwf1 & Hmem).
      { by apply Hidx. }
      { intros x [Hx _]%Hidx. by apply (ids_inj _ _ _ x b Hi). }
      exists m1. apply Hset; [done|]. intros key x. rewrite Hmem, Hidx.
      destruct (decide (x = b)) as [->|Hx]; [|intuition congruence].
      rewrite Eh. split; [intros [[_ [= <-]] Hn]; by destruct Hn|by intros [_ ?]].
    - exists m. apply Hset; [done|]. intros key x. rewrite Hidx. by destruct (decide (x = b)) as [->|Hx]; [rewrite Eh|]. }
  destruct (IH s1 m1 Hi1) as (s' & m' & H' & Hi' & Hc' & Hm' & He' & Hd').
  { intros x Hx. apply Hl. by right. }
  exists s', m'. cbn [for_each]. unfold bind, modify. fold s1. repeat (split; [done|]).
  intros x. rewrite Hd'. unfold s1. rewrite block_of_update.
  destruct (decide (x ∈ l)) as [Hx|Hx].
  - destruct (decide (x ∈ b :: l)) as [|[]]; [|by right]. destruct (decide (x = b)) as [->|]; done.
  - destruct (decide (x = b)) as [->|Hne].
    + by destruct (decide (b ∈ b :: l)) as [|[]]; [|left].
    + destruct (decide (x ∈ b :: l)) as [[|]%elem_of_cons|]; done.
Qed.

Lemma reset_spec s free :
  inv s free none →
  ∃ r s', reset_prefix_cache s = (Ok r, s') ∧ inv s' free none ∧ config s' = config s
  ∧ (r = true ↔ zlen free = num_gpu_blocks s - 1)
  ∧ (r = true → ∀ b, b ∈ blocks s → FreeQueue.block_hash (block_of s' b) = None) ∧ (r = false → s' = s)
  ∧ ∀ x, ref_cnt (block_of s' x) = ref_cnt (block_of s x).
Proof.
  intros Hi. unfold reset_prefix_cache, bind, get_st, get_num_free_blocks.
  rewrite (rep_num _ _ (inv_rep _ _ _ Hi)).
  destruct (Z.eqb_spec (num_gpu_blocks s - zlen free) 1) as [Heq|Hne]; cbn [negb].
  2:{ eexists _, _. split; [done|]. split; [done|]. split; [done|]. split; [split; [done|lia]|done]. }
  unfold modify at 1.
  destruct (clear_hashes (blocks s) (set_cache [] s) (cached_block_hash_to_block s) free) as (s' & m' & Hf & Hi' & Hc & Hm & He & Hd).
  { by destruct s. }
  { done. }
  rewrite Hf.
  assert (∀ b, b ∈ blocks s → FreeQueue.block_hash (block_of s' b) = None) as Hnone.
  { intros b Hb. specialize (Hd b). rewrite decide_True in Hd by done. unfold data in Hd. simpl in Hd. congruence. }
  assert (inv s' free none) as Hi2.
  { destruct Hi' as [H1 H2 H3 H4 H5 H6 H7 H8 H9 H10]. split; try done; rewrite Hm.
    - apply BlockMap.wf_init.
    - intros key b. unfold BlockMap.members_of. simpl. rewrite elem_of_nil. split; [done|].
      intros [Hb Hk]. apply config_blocks in Hc. simpl in Hc. rewrite Hc in Hb. by rewrite Hnone in Hk. }
  assert (∀ x, ref_cnt (block_of s' x) = ref_cnt (block_of s x)) as Hrefs.
  { intros x. specialize (Hd x). unfold data in Hd. case_decide; simpl in Hd; unfold block_of in *; simpl in *; congruence. }
  unfold modify, ret. destruct (enable_kv_cache_events s); eexists _, _; (split; [reflexivity|]);
    (split; [by try apply inv_set_events|]); (split; [done|]); (split; [split; [lia|done]|]); done.
Qed.

(** *** Construction *)

Lemma create_spec n caching hbs events s :
  create n caching hbs events = Ok s →
  0 < n ∧ inv s (seqZ 1 (n - 1)) none ∧ config s = (n, caching, hbs, seqZ 0 n, 0, events)
  ∧ (∀ b, b ∈ blocks s → FreeQueue.block_hash (block_of s b) = None ∧ ref_cnt (block_of s b) = 0)
  ∧ kv_event_queue s = [].
Proof.
  unfold create. intros ([] & Hn & H)%rbind_ok. unfold rassert in Hn. destruct (Z.ltb_spec 0 n) as [Hn0|]; [|done]. clear Hn.
  assert (fresh ∅ (seqZ 0 n) n (n + 1)) as Hfresh.
  { split; [|done]. apply NoDup_cons. split.
    - rewrite elem_of_app, elem_of_seqZ, list_elem_of_singleton. lia.
    - apply NoDup_app. split; [apply NoDup_seqZ|]. split; [|apply NoDup_singleton].
      intros x Hx%elem_of_seqZ. rewrite list_elem_of_singleton. lia. }
  pose proof (create_rep _ _ _ _ Hfresh) as Hrep. destruct (create_data _ _ _ _ Hfresh) as (Eh & Et & _ & Hd).
  rewrite (seqZ_cons 0 n) in Hrep at 2 by lia.
  destruct (popleft_spec _ 0 _ Hrep) as (q & Hq & Hrep' & Hh & Ht & Hdq). rewrite Hq in H. simpl in H. injection H as <-.
  replace (Z.pred n) with (n - 1) in Hrep' by lia. change (Z.succ 0) with 1 in Hrep'.
  assert (∀ b, 0 ≤ b < n → data (obj (objs q) b) = (b, 0, None, false)) as Hdata.
  { intros b Hb. rewrite Hdq, Hd by lia. done. }
  set (s := BP _ _ _ _ _ _ _ _ _).
  assert (∀ b, 0 ≤ b < n → data (block_of s b) = (b, 0, None, if decide (b = 0) then true else false)) as Hs.
  { intros b Hb. specialize (Hdata b Hb). unfold block_of. simpl. destruct (decide (b = 0)) as [->|Hne].
    - rewrite obj_upd. unfold data in *. simpl. by injection Hdata as -> -> ->.
    - by rewrite obj_upd_ne. }
  assert (∀ b, 0 ≤ b < n → block_id (block_of s b) = b ∧ ref_cnt (block_of s b) = 0 ∧ FreeQueue.block_hash (block_of s b) = None
     ∧ is_null (block_of s b) = if decide (b = 0) then true else false) as Hf.
  { intros b Hb. specialize (Hs b Hb). unfold data in Hs. by injection Hs. }
  split; [done|]. split; [|split; [done|split; [|done]]].
  2:{ intros b Hb%elem_of_seqZ. split; apply Hf; simpl in *; lia. }
  split; simpl.
  - by apply rep_assign.
  - done.
  - by rewrite Hh, Ht, Eh, Et.
  - intros b Hb%elem_of_seqZ. apply Hf. lia.
  - split; [done|]. split; [|apply Hf; lia]. intros b Hb%elem_of_seqZ. destruct (Hf b) as (_ & _ & _ & ->); [lia|].
    by case_decide.
  - intros b. rewrite !elem_of_seqZ. split; [intros [Hb|[]]|intros (Hb & Hb0 & _); left; lia].
    split; [lia|]. split; [lia|]. apply Hf. lia.
  - done.
  - intros b Hb%elem_of_seqZ _. destruct (Hf b) as (_ & -> & _); lia.
  - apply BlockMap.wf_init.
  - intros key b. unfold BlockMap.members_of. simpl. rewrite elem_of_nil, elem_of_seqZ. split; [done|].
    intros [Hb Hk]. destruct (Hf b) as (_ & _ & Hn & _); [lia|]. congruence.
Qed.

(** *** Runs of the pool *)

Inductive call :=
  | CGetNew (num_blocks : Z)
  | CTouch (l : list loc)
  | CFree (l : list loc)
  | CCache (r : request) (all_blocks : list loc) (num_cached num_full block_size group_id : Z)
  | CEvict (block_ids : list Z)
  | CReset
  | CTakeEvents.

Definition run_call (use_int : bool) (c : call) (s : t) : t :=
  match c with
  | CGetNew n => (get_new_blocks use_int n s).2
  | CTouch l => (touch l s).2
  | CFree l => (free_blocks l s).2
  | CCache r bs n m bsz g => (cache_full_blocks use_int bs n m bsz g (s, r)).2.1
  | CEvict ids => (evict_blocks use_int ids s).2
  | CReset => (reset_prefix_cache s).2
  | CTakeEvents => (take_events s).2
  end.

(** The contract of the callers: blocks of the pool, a count, and to [free_blocks] blocks
    that they hold, each once. *)
Definition allowed (c : call) (s : t) : Prop :=
  match c with
  | CGetNew n => 0 ≤ n
  | CTouch l | CCache _ l _ _ _ _ => ∀ b, b ∈ l → b ∈ blocks s
  | CFree l => NoDup l ∧ ∀ b, b ∈ l → b ∈ blocks s ∧ (b ≠ 0 → 0 < ref_cnt (block_of s b))
  | _ => True
  end.

Inductive reachable (use_int : bool) (n : Z) (caching : bool) (hbs : Z) (events : bool) : t → Prop :=
  | reach_init s : create n caching hbs events = Ok s → reachable use_int n caching hbs events s
  | reach_step s c : reachable use_int n caching hbs events s → allowed c s →
      reachable use_int n caching hbs events (run_call use_int c s).

Lemma run_call_inv use_int c s free :
  inv s free none → allowed c s → ∃ free', inv (run_call use_int c s) free' none.
Proof.
  intros Hi Ha. destruct c as [n|l|l|r bs n m bsz g|ids| |]; simpl in *.
  - destruct (decide (n ≤ zlen free)) as [Hn|Hn].
    + rewrite <- (take_drop (Z.to_nat n) free) in Hi.
      destruct (get_new_blocks_spec use_int s _ _ Hi) as (s' & Hs & Hi' & _).
      replace (zlen (take (Z.to_nat n) free)) with n in Hs by (unfold zlen in *; rewrite length_take; lia).
      rewrite Hs. eauto.
    + rewrite (get_new_blocks_error use_int s free) by (done || lia). eauto.
  - destruct (touch_spec s free l Hi Ha) as (s' & -> & Hi' & _). eauto.
  - destruct Ha as [Hnd Hl].
    destruct (free_blocks_spec s free l Hi (NoDup_filter _ _ Hnd) Hl) as (s' & -> & Hi' & _). eauto.
  - exists free. by apply cache_full_blocks_inv.
  - exists free. by apply evict_blocks_inv.
  - destruct (reset_spec s free Hi) as (r & s' & -> & Hi' & _). eauto.
  - exists free. unfold take_events, bind, get_st, modify, ret. destruct (enable_kv_cache_events s); [|done].
    by apply inv_set_events.
Qed.

(** C8. In every state that calls within the contract reach, exceptions included: the
    free queue is well linked and holds, once each, exactly the blocks without references
    but the null block; reference counts are not negative; and the map has a block under
    a key exactly when the block bears the key as its hash. *)
Theorem pool_invariant use_int n caching hbs events s :
  reachable use_int n caching hbs events s → ∃ free, inv s free none.
Proof.
  induction 1 as [s Hc|s c _ [free Hi] Ha]; [|by apply (run_call_inv use_int c s free)].
  apply create_spec in Hc as (_ & Hi & _). eauto.
Qed.

(** C23. Freed blocks are evicted last, in the order given to [free_blocks]: an allocation
    that needs more than the blocks that were free before takes these first and the freed
    ones in their order; each allocated block has one reference and, with caching, lost
    its hash, and no other block changes. *)
Theorem evicted_in_order use_int s free l k :
  inv s free none → NoDup l → (∀ b, b ∈ l → b ∈ blocks s ∧ b ≠ 0 ∧ ref_cnt (block_of s b) = 1) →
  0 ≤ k ≤ zlen l →
  ∃ s1 s2, free_blocks l s = (Ok tt, s1)
  ∧ get_new_blocks use_int (zlen free + k) s1 = (Ok (free ++ take (Z.to_nat k) l), s2)
  ∧ inv s2 (drop (Z.to_nat k) l) none
  ∧ (∀ b, b ∈ free ++ take (Z.to_nat k) l → ref_cnt (block_of s2 b) = 1
       ∧ (enable_caching s = true → FreeQueue.block_hash (block_of s2 b) = None))
  ∧ ∀ b, b ∉ free → b ∉ l → data (block_of s2 b) = data (block_of s b).
Proof.
  intros Hi Hnd Hl Hk.
  destruct (free_blocks_spec s free l Hi (NoDup_filter _ _ Hnd)) as (s1 & H1 & Hi1 & Hc1 & Hd1).
  { intros b Hb. destruct (Hl b Hb) as (? & ? & ?). split; [done|lia]. }
  rewrite filter_id in Hi1 by (intros b Hb; split; by apply Hl).
  set (p := free ++ take (Z.to_nat k) l).
  replace (free ++ l) with (p ++ drop (Z.to_nat k) l) in Hi1 by (unfold p; by rewrite <- app_assoc, take_drop).
  destruct (get_new_blocks_spec use_int s1 p (drop (Z.to_nat k) l) Hi1) as (s2 & H2 & Hi2 & Hc2 & Hd2).
  exists s1, s2. split; [done|]. split; [|split; [done|split]].
  - rewrite <- H2. f_equal. unfold p. rewrite zlen_app. unfold zlen in *. rewrite length_take. lia.
  - intros b Hb. specialize (Hd2 b). rewrite decide_True in Hd2 by done. unfold allocated in Hd2.
    assert (enable_caching s1 = enable_caching s) as E by (unfold config in Hc1; congruence). rewrite E in Hd2.
    unfold data in Hd2. destruct (enable_caching s); simpl in Hd2; (split; [congruence|]); [congruence|done].
  - intros b Hbf Hbl. rewrite Hd2, Hd1, (proj2 (times_zero b l) Hbl), Z.sub_0_r, with_ref_self, decide_False; [done|].
    intros [?|Hb%elem_of_take]%elem_of_app; [done|]. destruct Hb as (i & Hb & _). apply Hbl. by apply list_elem_of_lookup_2 in Hb.
Qed.

(** [get_cached_block] hits exactly when every group has a block that bears the hash
    under the group's key, and returns such a block for each group; it raises only on a
    group id out of range. *)
Theorem cached_block_hits s free h gids :
  inv s free none →
  match get_cached_block h gids s with
  | Ok (Some bs) => Forall2 (λ g b, b ∈ blocks s ∧
      ∃ key, make_block_hash_with_group_id h g = Ok key ∧ FreeQueue.block_hash (block_of s b) = Some key) gids bs
  | Ok None => ∃ g key, g ∈ gids ∧ make_block_hash_with_group_id h g = Ok key
      ∧ ∀ b, b ∈ blocks s → FreeQueue.block_hash (block_of s b) ≠ Some key
  | Raise e => e = OverflowError ∧ ∃ g, g ∈ gids ∧ ¬ (0 ≤ g < 2 ^ 32)
  end.
Proof.
  intros Hi. induction gids as [|g gids IH]; simpl; [constructor|].
  destruct (make_block_hash_with_group_id h g) as [key|e] eqn:Ek; simpl.
  2:{ unfold make_block_hash_with_group_id, to_bytes4 in Ek.
      destruct (Z.leb_spec 0 g), (Z.ltb_spec g (2 ^ 32)); simpl in Ek; try done; injection Ek as <-;
        (split; [done|]); exists g; (split; [by left|]); lia. }
  pose proof (BlockMap.get_one_block_spec (id_of s) key _ (inv_map _ _ _ Hi)) as Hone.
  destruct (BlockMap.get_one_block key _) as [[b|]|e]; simpl; [|..|done].
  - apply (inv_index _ _ _ Hi) in Hone as [Hb Hh].
    destruct (get_cached_block h gids s) as [[bs|]|e]; simpl.
    + constructor; [|done]. split; [done|]. by exists key.
    + destruct IH as (g' & key' & Hg & ?). exists g', key'. split; [by right|done].
    + destruct IH as (? & g' & Hg & ?). split; [done|]. exists g'. split; [by right|done].
  - exists g, key. split; [by left|]. split; [done|]. intros b Hb Hh.
    assert (b ∈ BlockMap.members_of key (cached_block_hash_to_block s)) as Hm by (by apply (inv_index _ _ _ Hi)).
    rewrite Hone in Hm. by apply elem_of_nil in Hm.
Qed.

(** *** Caching full blocks *)

Lemma make_key_ok h g : 0 ≤ g < 2 ^ 32 → ∃ key, make_block_hash_with_group_id h g = Ok key.
Proof.
  intros Hg. unfold make_block_hash_with_group_id, to_bytes4.
  rewrite (proj2 (Z.leb_le 0 g)), (proj2 (Z.ltb_lt g (2 ^ 32))) by lia. by eexists.
Qed.

(** A block without hash is cached, the null block is passed over. *)
Lemma cache_block_ok gid hashes i s free b h key :
  inv s free none → b ∈ blocks s → (b ≠ 0 → FreeQueue.block_hash (block_of s b) = None) →
  py_index hashes i = Ok h → make_block_hash_with_group_id h gid = Ok key →
  ∃ o s', cache_block gid hashes i b s = (Ok o, s') ∧ inv s' free none ∧ config s' = config s
  ∧ ∀ x, data (block_of s' x)
       = (if decide (x = b ∧ b ≠ 0) then with_hash (Some key) else id) (data (block_of s x)).
Proof.
  intros Hi Hb Hbn Hh Hkey. pose proof (cache_block_spec gid hashes i s free b Hi Hb) as Hc.
  assert (b ≠ 0 → (cache_block gid hashes i b s).1 = Ok (Some h)) as Hres.
  { intros Hb0. unfold cache_block, bind, get_st, ret, passert, lift, modify.
    destruct (is_null (block_of s b)) eqn:En; [by apply (inv_null _ _ _ Hi) in En|].
    rewrite Hbn by done. simpl. rewrite Hh. simpl. by rewrite Hkey. }
  destruct (decide (b = 0)) as [->|Hb0].
  - exists None, s. split.
    + unfold cache_block, bind, get_st, ret. by rewrite (proj2 (proj1 (proj2 (inv_null _ _ _ Hi)) 0 Hb) eq_refl).
    + split; [done|]. split; [done|]. intros x. rewrite decide_False; [done|]. by intros [_ ?].
  - specialize (Hres Hb0). destruct (cache_block gid hashes i b s) as [r s1]. simpl in Hres. subst r.
    destruct Hc as (Hi1 & Hc1 & _ & _ & _ & key' & Hkey' & Hd1). rewrite Hkey in Hkey'. injection Hkey' as <-.
    exists (Some h), s1. split; [done|]. split; [done|]. split; [done|]. intros x. rewrite Hd1.
    destruct (decide (x = b)) as [Hx|Hx].
    + by rewrite decide_True.
    + rewrite decide_False; [done|]. by intros [? _].
Qed.

(** The loop caches the blocks but the null ones. *)
Lemma cache_loop_spec gid hashes bs i s free :
  inv s free none → 0 ≤ gid < 2 ^ 32 → NoDup (filter (λ b, b ≠ 0) bs) →
  (∀ b, b ∈ bs → b ∈ blocks s ∧ (b ≠ 0 → FreeQueue.block_hash (block_of s b) = None)) →
  0 ≤ i → i + zlen bs ≤ zlen hashes →
  ∃ l s', cache_loop gid hashes i bs s = (Ok l, s') ∧ inv s' free none ∧ config s' = config s
  ∧ (∀ j b, bs !! j = Some b → b ≠ 0 → ∃ h key, hashes !! (Z.to_nat i + j)%nat = Some h
       ∧ make_block_hash_with_group_id h gid = Ok key ∧ FreeQueue.block_hash (block_of s' b) = Some key)
  ∧ (∀ x, x = 0 ∨ x ∉ bs → data (block_of s' x) = data (block_of s x))
  ∧ ∀ x, ref_cnt (block_of s' x) = ref_cnt (block_of s x).
Proof.
  revert i s. induction bs as [|b bs IH]; intros i s Hi Hg Hnd Hb Hi0 Hlen.
  { by exists [], s. }
  rewrite zlen_cons in Hlen. pose proof (zlen_nonneg bs).
  destruct (Hb b ltac:(by left)) as (Hbb & Hbn).
  destruct (lookup_lt_is_Some_2 hashes (Z.to_nat i)) as [h Hh]; [unfold zlen in *; lia|].
  destruct (make_key_ok h gid Hg) as [key Hkey].
  destruct (cache_block_ok gid hashes i s free b h key Hi Hbb Hbn) as (o & s1 & Ho & Hi1 & Hc1 & Hd1); [|done|].
  { by rewrite py_index_nonneg, Hh by done. }
  rewrite filter_cons in Hnd.
  assert (b ≠ 0 → b ∉ bs) as Hbbs.
  { intros Hb0 Hin. rewrite decide_True in Hnd by done. apply NoDup_cons in Hnd as [Hn _].
    apply Hn, list_elem_of_filter. done. }
  destruct (IH (i + 1) s1 Hi1 Hg) as (l & s2 & Hl & Hi2 & Hc2 & Hset & Hd2 & Hr2); [|..|lia|lia|].
  { case_decide; [by apply NoDup_cons in Hnd as [_ ?]|done]. }
  { intros x Hx. destruct (Hb x ltac:(by right)) as (? & Hxn). rewrite (config_blocks _ _ Hc1).
    split; [done|]. intros Hx0. specialize (Hd1 x).
    rewrite decide_False in Hd1 by (intros [-> ?]; by apply Hbbs).
    apply data_eq in Hd1 as (_ & _ & -> & _). by apply Hxn. }
  cbn [cache_loop]. unfold bind. rewrite Ho, Hl.
  eexists _, s2. split; [reflexivity|]. split; [done|]. split; [congruence|]. split; [|split].
  - intros [|j] x Hx Hx0; simpl in Hx.
    + injection Hx as <-. exists h, key. rewrite Nat.add_0_r. split; [done|]. split; [done|].
      specialize (Hd2 b (or_intror (Hbbs Hx0))). apply data_eq in Hd2 as (_ & _ & -> & _).
      specialize (Hd1 b). rewrite decide_True in Hd1 by done. unfold data in Hd1. simpl in Hd1. congruence.
    + destruct (Hset j x Hx Hx0) as (h' & k' & Hh' & ?). exists h', k'. split; [|done]. rewrite <- Hh'. f_equal. lia.
  - intros x Hx. rewrite not_elem_of_cons in Hx. rewrite (Hd2 x) by tauto. rewrite (Hd1 x).
    rewrite decide_False; [done|]. intros [-> ?]. tauto.
  - intros x. rewrite Hr2. specialize (Hd1 x). unfold data in Hd1. case_decide; simpl in Hd1; congruence.
Qed.

(** Behind the loop, [cache_full_blocks] changes the events at most. *)
Lemma cache_full_blocks_state use_int bs n m bsz gid s r hashes l s1 :
  n < m → m ≤ zlen (BlockHash.block_hashes r) → new_block_hashes s r bsz n = Ok hashes →
  cache_loop gid hashes 0 (py_slice bs n m) s = (Ok l, s1) →
  ∃ res s' r', cache_full_blocks use_int bs n m bsz gid (s, r) = (res, (s', r'))
  ∧ (s' = s1 ∨ ∃ ev, s' = set_events ev s1) ∧ (enable_kv_cache_events s = false → res = Ok tt).
Proof.
  intros Hnm Hm Hh Hl. unfold cache_full_blocks. rewrite Z.geb_leb, (proj2 (Z.leb_gt m n)) by done.
  unfold bind, get_st, passert, lift, rassert. rewrite (proj2 (Z.leb_le m _)), Hh by done. unfold on_pool at 1. rewrite Hl.
  destruct (enable_kv_cache_events s) eqn:Ee; [|exists (Ok tt), s1, r; split; [done|]; split; [by left|done]].
  destruct ((if n =? 0 then ret None else _) (s1, r)) as [[parent|e] [s2 r2]] eqn:Ep.
  - assert (s2 = s1 ∧ r2 = r) as [-> ->].
    { destruct (n =? 0); [by injection Ep|]. by destruct (block_hash_at s r bsz (n - 1)); injection Ep. }
    pose proof (extra_keys_loop_pool bs bsz (seqZ n (m - n)) 0 s1 r) as Hs.
    destruct (extra_keys_loop bs bsz (seqZ n (m - n)) 0 (s1, r)) as [[keys|e] [s3 r3]]; simpl in Hs; subst s3.
    + eexists _, _, _. split; [reflexivity|]. split; [right; by eexists|done].
    + eexists _, _, _. split; [reflexivity|]. split; [by left|done].
  - destruct (n =? 0); [done|]. destruct (block_hash_at s r bsz (n - 1)) as [|e']; [done|]. injection Ep as <- <- <-.
    eexists _, _, _. split; [reflexivity|]. split; [by left|done].
Qed.

(** A block that bears the key makes a look-up hit. *)
Lemma one_group_hit s free b h g key :
  inv s free none → b ∈ blocks s → make_block_hash_with_group_id h g = Ok key →
  FreeQueue.block_hash (block_of s b) = Some key → ∃ b', get_cached_block h [g] s = Ok (Some [b']).
Proof.
  intros Hi Hb Hk Hh. simpl. rewrite Hk. simpl.
  assert (b ∈ BlockMap.members_of key (cached_block_hash_to_block s)) as Hm by (by apply (inv_index _ _ _ Hi)).
  pose proof (BlockMap.get_one_block_spec (id_of s) key _ (inv_map _ _ _ Hi)) as Hone.
  destruct (BlockMap.get_one_block key _) as [[b'|]|e]; [by exists b'| |done].
  rewrite Hone in Hm. by apply elem_of_nil in Hm.
Qed.

(** C22. Full blocks of a request that are not yet cached bear, after [cache_full_blocks],
    the request's block hashes under the group's key, and a look-up of each of these hashes
    hits; no other block changes. *)
Theorem cached_then_hit use_int s r free bs n m g :
  inv s free none → 0 ≤ g < 2 ^ 32 → 0 ≤ n ≤ m → m ≤ zlen (BlockHash.block_hashes r) → m ≤ zlen bs →
  NoDup (py_slice bs n m) →
  (∀ b, b ∈ py_slice bs n m → b ∈ blocks s ∧ b ≠ 0 ∧ FreeQueue.block_hash (block_of s b) = None) →
  let '(res, (s', _)) := cache_full_blocks use_int bs n m (hash_block_size s) g (s, r) in
  inv s' free none
  ∧ (enable_kv_cache_events s = false → res = Ok tt)
  ∧ (∀ i b, n ≤ Z.of_nat i < m → bs !! i = Some b →
       ∃ h key, BlockHash.block_hashes r !! i = Some h ∧ make_block_hash_with_group_id h g = Ok key
         ∧ FreeQueue.block_hash (block_of s' b) = Some key ∧ ∃ b', get_cached_block h [g] s' = Ok (Some [b']))
  ∧ ∀ x, x ∉ py_slice bs n m → data (block_of s' x) = data (block_of s x).
Proof.
  intros Hi Hg Hnm Hm Hmb Hnd Hb. destruct (decide (m = n)) as [->|Hne].
  { unfold cache_full_blocks. rewrite Z.geb_leb, Z.leb_refl. split; [done|]. split; [done|].
    split; [intros i b Hib; lia|done]. }
  set (hashes := py_slice (BlockHash.block_hashes r) n (zlen (BlockHash.block_hashes r))).
  assert (hashes = drop (Z.to_nat n) (BlockHash.block_hashes r)) as Eh.
  { unfold hashes. rewrite py_slice_nonneg by lia. apply take_ge. rewrite length_drop. unfold zlen in *. lia. }
  assert (py_slice bs n m = take (Z.to_nat (m - n)) (drop (Z.to_nat n) bs)) as Es by (apply py_slice_nonneg; lia).
  assert (zlen (py_slice bs n m) = m - n) as El.
  { rewrite Es. unfold zlen in *. rewrite length_take, length_drop. lia. }
  destruct (cache_loop_spec g hashes (py_slice bs n m) 0 s free Hi Hg (NoDup_filter _ _ Hnd))
    as (l & s1 & Hl & Hi1 & Hc1 & Hset & Hd1 & _); [intros b Hin; by destruct (Hb b Hin) as (? & ? & ?)|lia|rewrite El, Eh; unfold zlen in *; rewrite length_drop; lia|].
  destruct (cache_full_blocks_state use_int bs n m (hash_block_size s) g s r hashes l s1) as (res & s' & r' & -> & Hs' & Hres);
    [lia|done|unfold new_block_hashes; by rewrite Z.eqb_refl|done|].
  assert (inv s' free none ∧ blocks s' = blocks s ∧ ∀ x, block_of s' x = block_of s1 x) as (Hi' & Hbs & He).
  { apply config_blocks in Hc1. destruct Hs' as [->|[ev ->]]; [done|]. split; [by apply inv_set_events|done]. }
  split; [done|]. split; [done|]. split; [|intros x Hx; rewrite He; apply Hd1; by right].
  intros i b Hin Hib. set (j := (i - Z.to_nat n)%nat).
  assert (py_slice bs n m !! j = Some b) as Hj.
  { rewrite Es, lookup_take_lt, lookup_drop by lia. rewrite <- Hib. f_equal. lia. }
  assert (b ≠ 0) as Hb0 by (by apply list_elem_of_lookup_2, Hb in Hj as (_ & ? & _)).
  destruct (Hset j b Hj Hb0) as (h & key & Hh & Hk & Hbk). exists h, key.
  split; [rewrite Eh, lookup_drop in Hh; rewrite <- Hh; f_equal; lia|]. split; [done|]. rewrite He. split; [done|].
  apply (one_group_hit s' free b h g key); [done| |done|by rewrite He].
  rewrite Hbs. apply Hb. by apply list_elem_of_lookup_2 in Hj.
Qed.

(** *** Concrete inputs *)

(** Five blocks of two tokens, one of them null; two are allocated. *)
Definition demo : t :=
  match create 5 true 2 true with
  | Ok s => s
  | Raise _ => BP (FQ ∅ 0 0 0) 0 true 0 [] [] 0 true []
  end.
Definition demo2 : t := (get_new_blocks false 2 demo).2.

Lemma demo_inv : inv demo [1; 2; 3; 4] none.
Proof. destruct (create_spec 5 true 2 true demo) as (_ & Hi & _); [vm_compute; reflexivity|exact Hi]. Qed.

Lemma demo2_inv : inv demo2 [3; 4] none.
Proof.
  destruct (get_new_blocks_spec false demo [1; 2] [3; 4] demo_inv) as (s & Hs & Hi & _).
  unfold demo2. change 2 with (zlen [1; 2]). by rewrite Hs.
Qed.

Definition demo_request : request := Req [] None None None [] [7; 8; 9; 10] [[101; 1]; [102; 2]].

(** A run: allocate, cache, free, touch. *)
Definition run1 : t := run_call false (CGetNew 2) demo.
Definition run2 : t := run_call false (CCache demo_request [1; 2] 0 2 2 0) run1.
Definition run3 : t := run_call false (CFree [2; 1]) run2.
Definition run4 : t := run_call false (CTouch [1]) run3.

Abbreviation demo_reachable := (reachable false 5 true 2 true).

Lemma run4_reachable : demo_reachable run4.
Proof.
  assert (demo_reachable run1) as H1.
  { unfold run1. apply (reach_step _ _ _ _ _ demo (CGetNew 2)); [apply reach_init; vm_compute; reflexivity|simpl; lia]. }
  assert (demo_reachable run2) as H2.
  { unfold run2. apply (reach_step _ _ _ _ _ run1 (CCache demo_request [1; 2] 0 2 2 0)); [exact H1|].
    intros b [->|[->| []%elem_of_nil]%elem_of_cons]%elem_of_cons; vm_compute; repeat (first [left; reflexivity|right]). }
  assert (demo_reachable run3) as H3.
  { unfold run3. apply (reach_step _ _ _ _ _ run2 (CFree [2; 1])); [exact H2|].
    split; [apply (bool_decide_unpack _); vm_compute; exact I|].
    intros b [->|[->| []%elem_of_nil]%elem_of_cons]%elem_of_cons; (split; [|intros _; vm_compute; reflexivity]);
      vm_compute; repeat (first [left; reflexivity|right]). }
  unfold run4. apply (reach_step _ _ _ _ _ run3 (CTouch [1])); [exact H3|].
  intros b ->%list_elem_of_singleton. vm_compute. right. left.
Qed.

Example pool_invariant_witness : ∃ free, inv run4 free none.
Proof. apply (pool_invariant false 5 true 2 true run4), run4_reachable. Defined.

Example evicted_in_order_witness :
  ∃ s1 s2, free_blocks [2; 1] demo2 = (Ok tt, s1)
  ∧ get_new_blocks false (zlen [3; 4] + 1) s1 = (Ok [3; 4; 2], s2)
  ∧ inv s2 [1] none
  ∧ (∀ b, b ∈ [3; 4; 2] → ref_cnt (block_of s2 b) = 1
       ∧ (enable_caching demo2 = true → FreeQueue.block_hash (block_of s2 b) = None))
  ∧ ∀ b, b ∉ [3; 4] → b ∉ [2; 1] → data (block_of s2 b) = data (block_of demo2 b).
Proof.
  apply (evicted_in_order false demo2 [3; 4] [2; 1] 1); [apply demo2_inv| | |vm_compute; split; discriminate].
  - apply (bool_decide_unpack _); vm_compute; exact I.
  - intros b [->|[->| []%elem_of_nil]%elem_of_cons]%elem_of_cons; (split; [|split; [done|vm_compute; reflexivity]]);
      vm_compute; repeat (first [left; reflexivity|right]).
Defined.

Example cached_block_hits_witness :
  match get_cached_block [101; 1] [0] demo2 with
  | Ok (Some bs) => Forall2 (λ g b, b ∈ blocks demo2 ∧
      ∃ key, make_block_hash_with_group_id [101; 1] g = Ok key ∧ FreeQueue.block_hash (block_of demo2 b) = Some key) [0] bs
  | Ok None => ∃ g key, g ∈ [0] ∧ make_block_hash_with_group_id [101; 1] g = Ok key
      ∧ ∀ b, b ∈ blocks demo2 → FreeQueue.block_hash (block_of demo2 b) ≠ Some key
  | Raise e => e = OverflowError ∧ ∃ g, g ∈ [0] ∧ ¬ (0 ≤ g < 2 ^ 32)
  end.
Proof. apply (cached_block_hits demo2 [3; 4] [101; 1] [0]), demo2_inv. Defined.

Example cached_then_hit_witness :
  let '(res, (s', _)) := cache_full_blocks false [1; 2] 0 2 2 0 (demo2, demo_request) in
  inv s' [3; 4] none
  ∧ (enable_kv_cache_events demo2 = false → res = Ok tt)
  ∧ (∀ i b, 0 ≤ Z.of_nat i < 2 → [1; 2] !! i = Some b →
       ∃ h key, BlockHash.block_hashes demo_request !! i = Some h ∧ make_block_hash_with_group_id h 0 = Ok key
         ∧ FreeQueue.block_hash (block_of s' b) = Some key ∧ ∃ b', get_cached_block h [0] s' = Ok (Some [b']))
  ∧ ∀ x, x ∉ py_slice [1; 2] 0 2 → data (block_of s' x) = data (block_of demo2 x).
Proof.
  apply (cached_then_hit false demo2 demo_request [3; 4] [1; 2] 0 2 0); [apply demo2_inv|lia|lia|vm_compute; discriminate..| |].
  - apply (bool_decide_unpack _); vm_compute; exact I.
  - intros b [->|[->| []%elem_of_nil]%elem_of_cons]%elem_of_cons; (split; [|split; [done|vm_compute; reflexivity]]);
      vm_compute; repeat (first [left; reflexivity|right]).
Defined.

(** What the contract of [free_blocks] excludes: a block given twice is queued once and
    counted twice, and an allocation of as many blocks as counted returns the sentinel at
    the end of the list. *)
Example double_free_corrupts :
  let s1 := (touch [1] demo2).2 in
  let s2 := (free_blocks [1; 1] s1).2 in
  get_all_free_blocks 9 (free_block_queue s2) = Ok (Some [3; 4; 1]) ∧ get_num_free_blocks s2 = 4
  ∧ (get_new_blocks false 4 s2).1 = Ok [3; 4; 1; fake_free_list_tail (free_block_queue s2)].
Proof. vm_compute. done. Qed.
End BlockPool.
