(* ===== verification/KVSpec.v ===== *)
(** [vllm/v1/kv_cache_interface.py]: what the layers of a model need of the KV cache.  The
    classes become constructors, and [isinstance] a test of them; [UniformTypeKVCacheSpecs],
    which never reaches the managers, is left out. *)
From S2P Require Export Prelude.
From stdpp Require Import strings options.
Open Scope Z_scope.

Module KVSpec.

(** The fields of [AttentionSpec], and those that [FullAttentionSpec] adds. *)
Record attention := Attention {
  att_block_size : Z;
  num_kv_heads : Z;
  head_size : Z;
  dtype : string;
  page_size_padded : option Z
}.
Record full := FullFields {
  head_size_v : Z;
  sliding_window : option Z;
  attention_chunk_size : option Z
}.
Record mamba := Mamba {
  mamba_block_size : Z;
  shapes : list (list Z);
  dtypes : list string;
  mamba_page_size_padded : option Z;
  mamba_type : string;
  mamba_cache_mode : string;
  num_speculative_blocks : Z
}.

Inductive KVCacheSpec :=
  | FullAttentionSpec (a : attention) (f : full)
  | MLAAttentionSpec (a : attention) (f : full) (cache_dtype_str : option string)
  | SinkFullAttentionSpec (a : attention) (f : full) (sink_len : option Z)
  | SlidingWindowSpec (a : attention) (window : Z)
  | ChunkedLocalAttentionSpec (a : attention) (chunk_size : Z)
  | MambaSpec (m : mamba)
  | CrossAttentionSpec (a : attention)
  | EncoderOnlyAttentionSpec (a : attention).

#[export] Instance attention_eq_dec : EqDecision attention.
Proof. solve_decision. Defined.
#[export] Instance full_eq_dec : EqDecision full.
Proof. solve_decision. Defined.
#[export] Instance mamba_eq_dec : EqDecision mamba.
Proof. solve_decision. Defined.
#[export] Instance KVCacheSpec_eq_dec : EqDecision KVCacheSpec.
Proof. solve_decision. Defined.

Definition block_size (s : KVCacheSpec) : Z :=
  match s with
  | FullAttentionSpec a _ | MLAAttentionSpec a _ _ | SinkFullAttentionSpec a _ _ | SlidingWindowSpec a _
  | ChunkedLocalAttentionSpec a _ | CrossAttentionSpec a | EncoderOnlyAttentionSpec a => att_block_size a
  | MambaSpec m => mamba_block_size m
  end.

(** [isinstance(spec, FullAttentionSpec)]. *)
Definition is_full (s : KVCacheSpec) : bool :=
  match s with FullAttentionSpec _ _ | MLAAttentionSpec _ _ _ | SinkFullAttentionSpec _ _ _ => true | _ => false end.

Definition is_cross (s : KVCacheSpec) : bool := match s with CrossAttentionSpec _ => true | _ => false end.

(** Blocks and windows have a size, and the layers have a manager that takes no blocks out
    of the pool for good, as the one of the attention sinks does. *)
Definition wf_spec (s : KVCacheSpec) : Prop :=
  0 < block_size s ∧
  match s with
  | SlidingWindowSpec _ w => 0 < w
  | ChunkedLocalAttentionSpec _ c => 0 < c
  | MambaSpec m => 0 ≤ num_speculative_blocks m
  | EncoderOnlyAttentionSpec _ | SinkFullAttentionSpec _ _ _ => False
  | _ => True
  end.
End KVSpec.
