(* ===== verification/CacheHit.v ===== *)
(** [find_longest_cache_hit] of the managers in [vllm/v1/core/single_type_kv_cache_manager.py]:
    the search of cached blocks for the first tokens of a request, by attention type. *)
From stdpp Require Import gmultiset strings.
From S2P Require Export BlockPool KVSpec.
From stdpp Require Import options.
Import BlockHash KVSpec.
Open Scope Z_scope.

(** ** The block hashes of a request at the granularity of a group *)
Module HashList.

(** [BlockHashList]: the request's own list, or [BlockHashListWithBlockSize] over it. *)
Inductive t := Plain (l : list (list Z)) | Scaled (l : list (list Z)) (scale_factor : Z).

Definition len (hs : t) : Z := match hs with Plain l => zlen l | Scaled l k => zlen l `div` k end.

Definition get (hs : t) (i : Z) : result (list Z) :=
  match hs with Plain l => py_index l i | Scaled l k => get_value_at l k i end.
End HashList.

(** ** [find_longest_cache_hit] *)
Module CacheHit.
Section scan.
Context (p : BlockPool.t) (kv_cache_group_ids : list Z).

Abbreviation columns := (list (list loc)).

(** [block_pool.get_cached_block] as the condition of an [if]: the empty list is false. *)
Definition cached_block (h : list Z) : result (option (list loc)) :=
  let! o := BlockPool.get_cached_block h kv_cache_group_ids p in
  Ok (match o with Some (_ :: _) => o | _ => None end).

(** [for computed, cached in zip(computed_blocks, cached_block): computed.append(cached)]. *)
Definition append_hit (computed : columns) (cached : list loc) : columns :=
  zip_with (λ c b, c ++ [b]) computed cached.

(** [computed.pop()] for each of the lists. *)
Definition pop_all (computed : columns) : result columns :=
  map_result (λ c, match c with [] => Raise IndexError | _ => Ok (take (length c - 1) c) end) computed.

Definition column0 (computed : columns) : result (list loc) := py_index computed 0.

(** The trailing loop that pops blocks until the length is aligned; [n] is the length of the
    first list, which is aligned when it is empty. *)
Fixpoint align_loop (n : nat) (block_size alignment : Z) (computed : columns) : result columns :=
  match n with
  | O => Ok computed
  | S k =>
      if (block_size =? alignment) || ((Z.of_nat n * block_size) `mod` alignment =? 0) then Ok computed
      else let! computed := pop_all computed in align_loop k block_size alignment computed
  end.

Definition align (block_size alignment : Z) (computed : columns) : result columns :=
  let! c := column0 computed in align_loop (length c) block_size alignment computed.

(** *** Full attention *)

(** The loop over the first hashes, from the left to the first miss. *)
Fixpoint prefix_loop (hs : HashList.t) (idxs : list Z) (computed : columns) : result columns :=
  match idxs with
  | [] => Ok computed
  | i :: rest =>
      let! h := HashList.get hs i in
      let! c := cached_block h in
      match c with
      | Some cached => prefix_loop hs rest (append_hit computed cached)
      | None => Ok computed
      end
  end.

Definition full_hit (hs : HashList.t) (max_length block_size alignment : Z) (use_eagle : bool) : result columns :=
  let max_num_blocks := max_length `div` block_size in
  let! _ := (if max_num_blocks <? 0 then Raise ValueError else Ok tt) in
  let! computed := prefix_loop hs (seqZ 0 (Z.min max_num_blocks (HashList.len hs)))
                     (replicate (length kv_cache_group_ids) []) in
  let! computed :=
    (if use_eagle then
       let! c := column0 computed in
       match c with [] => Ok computed | _ => pop_all computed end
     else Ok computed) in
  if block_size =? alignment then Ok computed else align block_size alignment computed.

(** *** Sliding window *)

(** The loop from right to left: [computed[i] = cached] on a hit, until [needed] blocks in a
    row are found. *)
Fixpoint window_loop (hs : HashList.t) (block_size alignment needed : Z) (n : nat) (computed : columns)
    (num_contiguous : Z) : result (columns * Z * bool) :=
  match n with
  | O => Ok (computed, num_contiguous, false)
  | S i =>
      let! h := HashList.get hs (Z.of_nat i) in
      let! c := cached_block h in
      match c with
      | Some cached =>
          if (num_contiguous =? 0) && negb (block_size =? alignment)
             && negb ((Z.of_nat n * block_size) `mod` alignment =? 0)
          then window_loop hs block_size alignment needed i computed num_contiguous
          else
            let computed := zip_with (λ l b, <[i := b]> l) computed cached in
            let num_contiguous := num_contiguous + 1 in
            if num_contiguous >=? needed
            then Ok (take (i + Z.to_nat num_contiguous) <$> computed, num_contiguous, true)
            else window_loop hs block_size alignment needed i computed num_contiguous
      | None => window_loop hs block_size alignment needed i computed 0
      end
  end.

Definition window_hit (hs : HashList.t) (max_length block_size window alignment : Z) (use_eagle : bool)
    : result columns :=
  let needed := cdiv (window - 1) block_size + (if use_eagle then 1 else 0) in
  let max_num_blocks := Z.to_nat (max_length `div` block_size) in
  let computed := replicate (length kv_cache_group_ids) (replicate max_num_blocks (BlockPool.null_block p)) in
  let! (computed, num_contiguous, match_found) :=
    window_loop hs block_size alignment needed max_num_blocks computed 0 in
  let! computed :=
    (if match_found then Ok computed
     else
       let computed := take (Z.to_nat num_contiguous) <$> computed in
       if block_size =? alignment then Ok computed else align block_size alignment computed) in
  if use_eagle then
    let! c := column0 computed in
    match c with
    | [] => Ok computed
    | _ => let! _ := rassert (block_size =? alignment) in pop_all computed
    end
  else Ok computed.

(** *** Chunked local attention *)

Definition chunk_hit (hs : HashList.t) (max_length block_size chunk_size alignment : Z) : result columns :=
  let! _ := rassert (block_size =? alignment) in
  let max_num_blocks := max_length `div` block_size in
  let local_attention_start_idx :=
    if 0 <? max_length then max_length `div` chunk_size * chunk_size else 0 in
  let start := local_attention_start_idx `div` block_size in
  prefix_loop hs (seqZ start (max_num_blocks - start))
    (replicate (length kv_cache_group_ids) (replicate (Z.to_nat start) (BlockPool.null_block p))).

(** *** Mamba *)

(** The last cached block whose end is aligned, behind as many null blocks. *)
Fixpoint last_loop (hs : HashList.t) (block_size alignment : Z) (n : nat) (computed : columns) : result columns :=
  match n with
  | O => Ok computed
  | S i =>
      let! h := HashList.get hs (Z.of_nat i) in
      let! c := cached_block h in
      match c with
      | Some cached =>
          if negb (block_size =? alignment) && negb ((Z.of_nat n * block_size) `mod` alignment =? 0)
          then last_loop hs block_size alignment i computed
          else Ok (zip_with (λ l b, l ++ replicate i (BlockPool.null_block p) ++ [b]) computed cached)
      | None => last_loop hs block_size alignment i computed
      end
  end.

Definition mamba_hit (hs : HashList.t) (max_length block_size alignment : Z) : result columns :=
  last_loop hs block_size alignment (Z.to_nat (max_length `div` block_size))
    (replicate (length kv_cache_group_ids) []).

(** *** The class method of the group's manager *)

(** The sizes of the context-parallel groups scale the blocks of full attention, the other
    types assert them to be 1. *)
Definition find_longest_cache_hit (hs : HashList.t) (max_length : Z) (spec : KVCacheSpec) (use_eagle : bool)
    (alignment dcp_world_size pcp_world_size : Z) : result columns :=
  let single := (dcp_world_size =? 1) && (pcp_world_size =? 1) in
  match spec with
  | FullAttentionSpec _ _ | MLAAttentionSpec _ _ _ | SinkFullAttentionSpec _ _ _ =>
      let ws := dcp_world_size * pcp_world_size in
      full_hit hs max_length (if 1 <? ws then block_size spec * ws else block_size spec) alignment use_eagle
  | SlidingWindowSpec _ w =>
      let! _ := rassert single in window_hit hs max_length (block_size spec) w alignment use_eagle
  | ChunkedLocalAttentionSpec _ c =>
      let! _ := rassert (negb use_eagle) in
      let! _ := rassert single in chunk_hit hs max_length (block_size spec) c alignment
  | MambaSpec _ => let! _ := rassert single in mamba_hit hs max_length (block_size spec) alignment
  | CrossAttentionSpec _ => Raise NotImplementedError
  | EncoderOnlyAttentionSpec _ => Raise KeyError
  end.
End scan.

(** ** What a search finds *)

Import BlockPool.

Section found.
Context (p : BlockPool.t) (free : list loc) (Hinv : inv p free none) (gids : list Z) (hs : HashList.t).

(** A block of the pool that bears the hash at an index under a group's key. *)
Definition bears (i : Z) (g : Z) (b : loc) : Prop :=
  ∃ h key, HashList.get hs i = Ok h ∧ make_block_hash_with_group_id h g = Ok key
    ∧ b ∈ blocks p ∧ FreeQueue.block_hash (block_of p b) = Some key.

(** The search for an index finds nothing for some group. *)
Definition misses (i : Z) : Prop := ∃ h, HashList.get hs i = Ok h ∧ cached_block p gids h = Ok None.

(** The list of a group: [k] blocks, null or found at their index. *)
Definition found (k : Z) (g : Z) (l : list loc) : Prop :=
  zlen l = k ∧ ∀ i b, l !! i = Some b → b = 0 ∨ bears (Z.of_nat i) g b.

Abbreviation all_found k := (Forall2 (found k) gids).

Lemma get_cached_block_bears h ids bs :
  get_cached_block h ids p = Ok (Some bs) →
  Forall2 (λ g b, b ∈ blocks p ∧ ∃ key, make_block_hash_with_group_id h g = Ok key
     ∧ FreeQueue.block_hash (block_of p b) = Some key) ids bs.
Proof using Hinv.
  revert bs. induction ids as [|g ids IH]; intros bs; simpl; [by intros [= <-]|].
  intros (key & Hkey & Hb)%rbind_ok. apply rbind_ok in Hb as (o & Hone & Hb).
  pose proof (BlockMap.get_one_block_spec (id_of p) key _ (inv_map _ _ _ Hinv)) as Hspec. rewrite Hone in Hspec.
  destruct o as [b|]; [|done]. apply (inv_index _ _ _ Hinv) in Hspec as [Hin Hh].
  apply rbind_ok in Hb as (r & Hr & Hb). destruct r as [l|]; simpl in Hb; [|done]. injection Hb as <-.
  constructor; [split; [done|by exists key]|by apply IH].
Qed.

Lemma cached_block_bears i h bs :
  HashList.get hs i = Ok h → cached_block p gids h = Ok (Some bs) → Forall2 (bears i) gids bs.
Proof using Hinv.
  intros Hh (o & Ho & Hb)%rbind_ok. destruct o as [[|b l]|]; try done. injection Hb as <-.
  eapply Forall2_impl; [by apply (get_cached_block_bears h)|]. intros g x (Hx & key & ? & ?). by exists h, key.
Qed.

Lemma Forall2_zip_with {A B C D} (P : A → B → Prop) (Q : A → C → Prop) (R : A → D → Prop) (f : B → C → D) ks ls ms :
  (∀ a b c, P a b → Q a c → R a (f b c)) → Forall2 P ks ls → Forall2 Q ks ms → Forall2 R ks (zip_with f ls ms).
Proof.
  intros Hf Hl. revert ms. induction Hl as [|a b ks ls Hp Hl IH]; intros ms Hm; inversion Hm; subst; constructor; auto.
Qed.

Lemma found_app k g l b : found k g l → b = 0 ∨ bears k g b → found (k + 1) g (l ++ [b]).
Proof.
  intros [Hl Hf] Hb. split; [by rewrite zlen_app, Hl|]. intros i x Hi.
  apply lookup_app_Some in Hi as [Hi|[Hlen Hi]]; [by apply Hf|].
  apply list_lookup_singleton_Some in Hi as [Hi <-]. unfold zlen in Hl. by replace (Z.of_nat i) with k by lia.
Qed.

Lemma found_take k n g l : found k g l → found (Z.min (Z.of_nat n) k) g (take n l).
Proof.
  intros [Hl Hf]. split; [unfold zlen in *; rewrite length_take; lia|].
  intros i b [Hi _]%lookup_take_Some. by apply Hf.
Qed.

Lemma found_nulls n g : found (Z.of_nat n) g (replicate n 0).
Proof. split; [unfold zlen; by rewrite length_replicate|]. intros i b [-> _]%lookup_replicate. by left. Qed.

Lemma all_found_replicate k l : (∀ g, found k g l) → all_found k (replicate (length gids) l).
Proof. intros Hl. generalize gids. intros ids. by induction ids; constructor. Qed.

Lemma all_found_append k cols bs :
  all_found k cols → Forall2 (bears k) gids bs → all_found (k + 1) (append_hit cols bs).
Proof. intros Hc Hb. eapply Forall2_zip_with; [|done..]. intros g l b Hl Hg. apply found_app; [done|by right]. Qed.

Lemma prefix_loop_found n k cols cols' :
  all_found k cols → prefix_loop p gids hs (seqZ k (Z.of_nat n)) cols = Ok cols' →
  ∃ k', k ≤ k' ≤ k + Z.of_nat n ∧ all_found k' cols' ∧ (k' < k + Z.of_nat n → misses k')
  ∧ (∀ i, k ≤ i < k' → ¬ misses i).
Proof using Hinv.
  revert k cols. induction n as [|n IH]; intros k cols Hc.
  { intros [= <-]. exists k. split; [lia|]. split; [done|]. split; intros; lia. }
  rewrite seqZ_cons by lia. cbn [prefix_loop]. intros (h & Hh & Ho)%rbind_ok. apply rbind_ok in Ho as (o & Ho & Hrec).
  destruct o as [bs|].
  - pose proof (cached_block_bears k h bs Hh Ho) as Hb. replace (Z.pred (Z.of_nat (S n))) with (Z.of_nat n) in Hrec by lia.
    destruct (IH (Z.succ k) (append_hit cols bs)) as (k' & Hk & Hf & Hm & Hn); [by apply all_found_append|done|].
    exists k'. split; [lia|]. split; [done|]. split; [intros; apply Hm; lia|].
    intros i Hi. destruct (decide (i = k)) as [->|]; [|apply Hn; lia].
    intros (h' & Hh' & Ho'). rewrite Hh in Hh'. injection Hh' as <-. congruence.
  - injection Hrec as <-. exists k. split; [lia|]. split; [done|]. split; [|intros; lia]. intros _. by exists h.
Qed.

(** *** Popping *)

Lemma pop_all_found k cols : 0 < k → all_found k cols → ∃ cols', pop_all cols = Ok cols' ∧ all_found (k - 1) cols'.
Proof.
  intros Hk. revert cols. generalize gids. intros ids cols Hc.
  induction Hc as [|g l ids cols Hl Hc (cols' & Hp & IH)]; [by exists []|].
  exists (take (length l - 1) l :: cols'). unfold pop_all in *. simpl. rewrite Hp. destruct Hl as [Hlen Hf].
  destruct l as [|b l]; [rewrite zlen_nil in Hlen; lia|]. split; [done|]. constructor; [|done].
  destruct (found_take k (length (b :: l) - 1) g (b :: l) (conj Hlen Hf)) as [H1 H2]. split; [|done].
  rewrite H1. unfold zlen in *. simpl in *. lia.
Qed.

(** The popping stops at the largest aligned length. *)
Lemma align_loop_found bs al n cols :
  bs ≠ al → all_found (Z.of_nat n) cols →
  ∃ cols' k, align_loop n bs al cols = Ok cols' ∧ 0 ≤ k ≤ Z.of_nat n ∧ all_found k cols'
  ∧ (k * bs) `mod` al = 0 ∧ ∀ i, k < i ≤ Z.of_nat n → (i * bs) `mod` al ≠ 0.
Proof.
  intros Hne. revert cols. induction n as [|n IH]; intros cols Hc.
  { exists cols, 0. split; [done|]. split; [lia|]. split; [done|]. split; [done|lia]. }
  cbn [align_loop]. rewrite (proj2 (Z.eqb_neq bs al)) by done. cbn [orb].
  destruct (Z.eqb_spec ((Z.of_nat (S n) * bs) `mod` al) 0) as [E|E].
  { exists cols, (Z.of_nat (S n)). split; [done|]. split; [lia|]. split; [done|]. split; [done|lia]. }
  destruct (pop_all_found (Z.of_nat (S n)) cols) as (c2 & Hp & Hc2); [lia|done|].
  replace (Z.of_nat (S n) - 1) with (Z.of_nat n) in Hc2 by lia.
  destruct (IH c2 Hc2) as (c3 & k & Ha & Hk & Hf & Hm & Hno). exists c3, k. rewrite Hp. split; [done|].
  split; [lia|]. split; [done|]. split; [done|]. intros i Hi.
  destruct (decide (i = Z.of_nat (S n))) as [->|]; [done|]. apply Hno. lia.
Qed.
Lemma column0_found k cols : gids ≠ [] → all_found k cols → ∃ l, column0 cols = Ok l ∧ zlen l = k.
Proof. intros Hg Hc. destruct Hc as [|g l ids cols [Hl _] Hc]; [done|]. by exists l. Qed.

Lemma align_found bs al k cols :
  gids ≠ [] → 0 ≤ k → bs ≠ al → all_found k cols →
  ∃ cols' k', align bs al cols = Ok cols' ∧ 0 ≤ k' ≤ k ∧ all_found k' cols'
  ∧ (k' * bs) `mod` al = 0 ∧ ∀ i, k' < i ≤ k → (i * bs) `mod` al ≠ 0.
Proof.
  intros Hg Hk Hne Hc. unfold align. destruct (column0_found k cols Hg Hc) as (l & -> & Hl). simpl.
  unfold zlen in Hl. subst k. by apply align_loop_found.
Qed.

(** [if use_eagle and computed_blocks[0]: pop]. *)
Lemma eagle_found (eagle : bool) k cols cols' :
  gids ≠ [] → 0 ≤ k → all_found k cols →
  (if eagle then let! c := column0 cols in match c with [] => Ok cols | _ => pop_all cols end else Ok cols) = Ok cols' →
  ∃ k', 0 ≤ k' ≤ k ∧ all_found k' cols' ∧ (eagle = false → k' = k ∧ cols' = cols).
Proof.
  intros Hg Hk Hc. destruct eagle; [|intros [= <-]; by exists k].
  destruct (column0_found k cols Hg Hc) as (l & -> & Hl). simpl. destruct l as [|b l].
  - intros [= <-]. exists k. split; [lia|]. by split.
  - destruct (pop_all_found k cols) as (c & -> & Hc'); [rewrite <- Hl, zlen_cons; pose proof (zlen_nonneg l); lia|done|].
    intros [= <-]. exists (k - 1). rewrite zlen_cons in Hl. pose proof (zlen_nonneg l). split; [lia|]. by split.
Qed.

Lemma seqZ_to_nat m n : seqZ m n = seqZ m (Z.of_nat (Z.to_nat n)).
Proof. unfold seqZ. by rewrite Nat2Z.id. Qed.

(** What every search promises: lists of one length, of at most so many tokens. *)
Definition within (bs max_length : Z) (cols : list (list loc)) : Prop :=
  ∃ k, 0 ≤ k ∧ k * bs ≤ max_length ∧ all_found k cols.

Lemma within_intro bs ml k cols : 0 < bs → 0 ≤ k ≤ ml `div` bs → all_found k cols → within bs ml cols.
Proof. intros Hb Hk Hc. exists k. split; [lia|]. split; [|done]. pose proof (Z.mul_div_le ml bs Hb). nia. Qed.

(** Full attention finds a prefix: up to the first miss without alignment and EAGLE. *)
Lemma full_hit_found ml bs al eagle cols :
  gids ≠ [] → 0 < bs → 0 ≤ ml → full_hit p gids hs ml bs al eagle = Ok cols →
  within bs ml cols
  ∧ (eagle = false → bs = al → ∃ k, all_found k cols ∧ 0 ≤ k ≤ Z.max 0 (Z.min (ml `div` bs) (HashList.len hs))
       ∧ (k < Z.min (ml `div` bs) (HashList.len hs) → misses k) ∧ ∀ i, 0 ≤ i < k → ¬ misses i).
Proof using Hinv.
  intros Hg Hb Hml H. unfold full_hit in H. pose proof (Z.div_pos ml bs Hml Hb) as Hmax.
  rewrite (proj2 (Z.ltb_ge _ _)) in H by done. cbn [rbind] in H.
  rewrite seqZ_to_nat in H. apply rbind_ok in H as (c1 & H1 & H).
  apply prefix_loop_found in H1 as (k1 & Hk1 & Hf1 & Hm1 & Hn1); [|by apply all_found_replicate].
  apply rbind_ok in H as (c2 & H2 & H). apply (eagle_found eagle k1) in H2 as (k2 & Hk2 & Hf2 & He2); [|done|lia|done].
  destruct (Z.eqb_spec bs al) as [->|Hne].
  - injection H as <-. split; [apply (within_intro _ _ k2); [done|lia|done]|].
    intros He _. destruct (He2 He) as [-> ->]. exists k1. split; [done|]. split; [lia|]. split; [|intros i Hi; apply Hn1; lia].
    intros Hlt. apply Hm1. lia.
  - destruct (align_found bs al k2 c2 Hg) as (c3 & k3 & Ha & Hk3 & Hf3 & _); [lia|done|done|].
    rewrite Ha in H. injection H as <-. split; [apply (within_intro _ _ k3); [done|lia|done]|done].
Qed.

(** *** Sliding window *)

Lemma found_insert N i g l b : found N g l → bears (Z.of_nat i) g b → found N g (<[i := b]> l).
Proof.
  intros [Hl Hf] Hb. split; [unfold zlen in *; by rewrite length_insert|]. intros j x Hj.
  destruct (decide (j = i)) as [->|Hne].
  - apply list_lookup_insert_Some in Hj as [(_ & <- & _)|[? _]]; [by right|done].
  - rewrite list_lookup_insert_ne in Hj by done. by apply Hf.
Qed.

Lemma window_loop_found N bs al need n cols contig cols' contig' b :
  all_found N cols → 0 ≤ contig → Z.of_nat n + contig ≤ N →
  window_loop p gids hs bs al need n cols contig = Ok (cols', contig', b) →
  if b then ∃ k, 0 ≤ k ≤ N ∧ all_found k cols' else all_found N cols' ∧ 0 ≤ contig' ≤ N.
Proof using Hinv.
  revert cols contig. induction n as [|i IH]; intros cols contig Hc H0 Hle.
  { intros [= <- <- <-]. split; [done|lia]. }
  cbn [window_loop]. intros (h & Hh & Ho)%rbind_ok. apply rbind_ok in Ho as (o & Ho & H).
  destruct o as [bs'|]; [|by eapply IH; [| | |exact H]; [done|lia|lia]].
  pose proof (cached_block_bears _ _ _ Hh Ho) as Hb.
  assert (all_found N (zip_with (λ l b, <[i := b]> l) cols bs')) as Hc'.
  { eapply Forall2_zip_with; [|done..]. intros g l x. apply found_insert. }
  case_match; [by eapply IH; [| | |exact H]; [done|lia|lia]|].
  destruct (contig + 1 >=? need).
  - injection H as <- <- <-. exists (Z.min (Z.of_nat (i + Z.to_nat (contig + 1))) N). split; [lia|].
    apply Forall2_fmap_r. eapply Forall2_impl; [exact Hc'|]. intros g l. apply found_take.
  - eapply IH; [| | |exact H]; [done|lia|lia].
Qed.

Lemma all_found_take k n cols :
  0 ≤ n ≤ k → all_found k cols → all_found n (take (Z.to_nat n) <$> cols).
Proof.
  intros Hn Hc. apply Forall2_fmap_r. eapply Forall2_impl; [exact Hc|]. intros g l Hl.
  replace n with (Z.min (Z.of_nat (Z.to_nat n)) k) at 1 by lia. by apply found_take.
Qed.

Lemma window_hit_found ml bs w al eagle cols :
  gids ≠ [] → 0 < bs → 0 ≤ ml → window_hit p gids hs ml bs w al eagle = Ok cols → within bs ml cols.
Proof using Hinv.
  intros Hg Hb Hml H. unfold window_hit in H. pose proof (Z.div_pos ml bs Hml Hb) as Hmax.
  rewrite (proj1 (inv_null _ _ _ Hinv)) in H. apply rbind_ok in H as ([[c1 n1] b1] & H1 & H).
  apply (window_loop_found (ml `div` bs)) in H1; [|apply all_found_replicate; intros g|lia|lia].
  2:{ rewrite <- (Z2Nat.id (ml `div` bs)) at 1 by done. apply found_nulls. }
  assert (∃ c2 k2, 0 ≤ k2 ≤ ml `div` bs ∧ all_found k2 c2 ∧
    (if eagle then let! c := column0 c2 in
       match c with [] => Ok c2 | _ => let! _ := rassert (bs =? al) in pop_all c2 end else Ok c2) = Ok cols) as (c2 & k2 & Hk2 & Hf2 & He).
  { apply rbind_ok in H as (c2 & H2 & H). destruct b1.
    - injection H2 as <-. destruct H1 as (k & Hk & Hf). by exists c1, k.
    - destruct H1 as [Hf Hn]. apply (all_found_take _ n1) in Hf; [|done]. destruct (Z.eqb_spec bs al) as [|Hne].
      + injection H2 as <-. by eexists _, n1.
      + destruct (align_found bs al n1 _ Hg ltac:(lia) Hne Hf) as (c3 & k3 & Ha & Hk3 & Hf3 & _).
        rewrite Ha in H2. injection H2 as <-. exists c3, k3. split; [lia|done]. }
  assert ((if eagle then let! c := column0 c2 in match c with [] => Ok c2 | _ => pop_all c2 end else Ok c2) = Ok cols) as He'.
  { destruct eagle; [|done]. destruct (column0_found k2 c2 Hg Hf2) as (l & Hl & _). rewrite Hl in *. simpl in *.
    destruct l; [done|]. by apply rbind_ok in He as ([] & _ & He). }
  apply (eagle_found eagle k2) in He' as (k & Hk & Hf & _); [|done|lia|done]. by apply (within_intro _ _ k); [|lia|].
Qed.

(** *** The other types *)

Lemma chunk_hit_found ml bs ck al cols :
  0 < bs → 0 < ck → 0 ≤ ml → chunk_hit p gids hs ml bs ck al = Ok cols → within bs ml cols.
Proof using Hinv.
  intros Hb Hck Hml H. unfold chunk_hit in H. apply rbind_ok in H as ([] & _ & H). cbv zeta in H.
  set (idx := if 0 <? ml then _ else _) in H.
  assert (0 ≤ idx ≤ ml) as Hidx.
  { unfold idx. destruct (0 <? ml); [|lia]. pose proof (Z.mul_div_le ml ck Hck). pose proof (Z.div_pos ml ck Hml Hck). nia. }
  set (st := idx `div` bs) in H. assert (0 ≤ st ≤ ml `div` bs) as Hst.
  { split; [apply Z.div_pos|apply Z.div_le_mono]; lia. }
  rewrite seqZ_to_nat, (proj1 (inv_null _ _ _ Hinv)) in H.
  apply prefix_loop_found in H as (k & Hk & Hf & _).
  - apply (within_intro _ _ k); [done|lia|done].
  - apply all_found_replicate. intros g. rewrite <- (Z2Nat.id st) at 1 by lia. apply found_nulls.
Qed.

Lemma last_loop_found bs al n cols cols' :
  all_found 0 cols → last_loop p gids hs bs al n cols = Ok cols' → ∃ k, 0 ≤ k ≤ Z.of_nat n ∧ all_found k cols'.
Proof using Hinv.
  intros Hc. induction n as [|i IH]; [intros [= <-]; by exists 0|].
  cbn [last_loop]. intros (h & Hh & Ho)%rbind_ok. apply rbind_ok in Ho as (o & Ho & H).
  assert (last_loop p gids hs bs al i cols = Ok cols' → ∃ k, 0 ≤ k ≤ Z.of_nat (S i) ∧ all_found k cols') as Hrec.
  { intros Hr. destruct (IH Hr) as (k & Hk & Hf). exists k. split; [lia|done]. }
  destruct o as [bs'|]; [|by apply Hrec]. case_match; [by apply Hrec|]. injection H as <-.
  exists (Z.of_nat i + 1). split; [lia|]. eapply Forall2_zip_with; [|exact Hc|by apply (cached_block_bears _ _ _ Hh Ho)].
  intros g l b [Hl _] Hb. destruct l as [|x l]; [|rewrite zlen_cons in Hl; pose proof (zlen_nonneg l); lia].
  rewrite (proj1 (inv_null _ _ _ Hinv)). simpl. apply found_app; [apply found_nulls|by right].
Qed.

Lemma mamba_hit_found ml bs al cols :
  0 < bs → 0 ≤ ml → mamba_hit p gids hs ml bs al = Ok cols → within bs ml cols.
Proof using Hinv.
  intros Hb Hml H. pose proof (Z.div_pos ml bs Hml Hb). apply last_loop_found in H as (k & Hk & Hf).
  - apply (within_intro _ _ k); [done|lia|done].
  - by apply all_found_replicate.
Qed.

(** Whatever the type, with one rank. *)
Lemma find_longest_cache_hit_found ml spec eagle al cols :
  gids ≠ [] → 0 < block_size spec → (∀ a c, spec = ChunkedLocalAttentionSpec a c → 0 < c) → 0 ≤ ml →
  find_longest_cache_hit p gids hs ml spec eagle al 1 1 = Ok cols → within (block_size spec) ml cols.
Proof using Hinv.
  intros Hg Hb Hck Hml H. destruct spec as [a f|a f d|a f k|a w|a ck|s|a|a]; simpl in H; try done.
  1-3: by apply full_hit_found in H as [? _].
  - by apply window_hit_found in H.
  - apply rbind_ok in H as ([] & _ & H). apply chunk_hit_found in H; [done|done|by eapply Hck|done].
  - by apply mamba_hit_found in H.
Qed.

(** *** When a search returns *)

Section returns.
Context (Hgids : ∀ g, g ∈ gids → 0 ≤ g < 2 ^ 32).

Lemma cached_block_returns h : ∃ o, cached_block p gids h = Ok o.
Proof using Hinv Hgids.
  assert (∀ ids, (∀ g, g ∈ ids → 0 ≤ g < 2 ^ 32) → ∃ o, get_cached_block h ids p = Ok o) as Hget.
  { intros ids. induction ids as [|g ids IH]; intros Hids; [by eexists|]. simpl.
    destruct (make_key_ok h g) as [key ->]; [apply Hids; by left|]. simpl.
    pose proof (BlockMap.get_one_block_spec (id_of p) key _ (inv_map _ _ _ Hinv)) as Hone.
    destruct (BlockMap.get_one_block key _) as [[b|]|e]; [|by eexists|done]. simpl.
    destruct IH as [o ->]; [intros g' Hg'; apply Hids; by right|]. by eexists. }
  unfold cached_block. destruct (Hget gids Hgids) as [o ->]. by eexists.
Qed.

(** The hashes of the first [n] blocks exist. *)
Definition hashed (n : Z) : Prop := ∀ i, 0 ≤ i < n → ∃ h, HashList.get hs i = Ok h.

Lemma prefix_loop_returns idxs cols :
  (∀ i, i ∈ idxs → ∃ h, HashList.get hs i = Ok h) → ∃ cols', prefix_loop p gids hs idxs cols = Ok cols'.
Proof using Hinv Hgids.
  revert cols. induction idxs as [|i idxs IH]; intros cols Hh; [by eexists|]. simpl.
  destruct (Hh i ltac:(by left)) as [h ->]. simpl. destruct (cached_block_returns h) as [o ->]. simpl.
  destruct o; [|by eexists]. apply IH. intros j Hj. apply Hh. by right.
Qed.

Lemma window_loop_returns bs al need n cols contig :
  hashed (Z.of_nat n) → ∃ r, window_loop p gids hs bs al need n cols contig = Ok r.
Proof using Hinv Hgids.
  revert cols contig. induction n as [|i IH]; intros cols contig Hh; [by eexists|]. cbn [window_loop].
  destruct (Hh (Z.of_nat i)) as [h ->]; [lia|]. simpl rbind. destruct (cached_block_returns h) as [o ->]. simpl rbind.
  assert (hashed (Z.of_nat i)) as Hh' by (intros j Hj; apply Hh; lia).
  destruct o; [|by apply IH]. case_match; [by apply IH|]. case_match; [by eexists|by apply IH].
Qed.

Lemma last_loop_returns bs al n cols :
  hashed (Z.of_nat n) → ∃ cols', last_loop p gids hs bs al n cols = Ok cols'.
Proof using Hinv Hgids.
  induction n as [|i IH]; intros Hh; [by eexists|]. cbn [last_loop].
  destruct (Hh (Z.of_nat i)) as [h ->]; [lia|]. simpl rbind. destruct (cached_block_returns h) as [o ->]. simpl rbind.
  assert (hashed (Z.of_nat i)) as Hh' by (intros j Hj; apply Hh; lia).
  destruct o; [|by apply IH]. case_match; [by apply IH|by eexists].
Qed.

(** The types and sizes that a search supports. *)
Definition searchable (spec : KVCacheSpec) (eagle : bool) (al : Z) : Prop :=
  match spec with
  | SlidingWindowSpec _ _ => eagle = true → block_size spec = al
  | ChunkedLocalAttentionSpec _ _ => eagle = false ∧ block_size spec = al
  | CrossAttentionSpec _ | EncoderOnlyAttentionSpec _ => False
  | _ => True
  end.

Lemma eagle_returns (eagle : bool) k cols :
  gids ≠ [] → 0 ≤ k → all_found k cols →
  ∃ cols', (if eagle then let! c := column0 cols in match c with [] => Ok cols | _ => pop_all cols end else Ok cols) = Ok cols'.
Proof.
  intros Hg Hk Hc. destruct eagle; [|by eexists]. destruct (column0_found k cols Hg Hc) as (l & -> & Hl). simpl.
  destruct l as [|b l]; [by eexists|]. rewrite zlen_cons in Hl. pose proof (zlen_nonneg l).
  destruct (pop_all_found k cols) as (c & -> & _); [lia|done|by eexists].
Qed.

Lemma full_hit_returns ml bs al eagle :
  gids ≠ [] → 0 < bs → 0 ≤ ml → hashed (HashList.len hs) → ∃ cols, full_hit p gids hs ml bs al eagle = Ok cols.
Proof using Hinv Hgids.
  intros Hg Hb Hml Hh. unfold full_hit. pose proof (Z.div_pos ml bs Hml Hb) as Hmax.
  rewrite (proj2 (Z.ltb_ge _ _)) by done. cbn [rbind]. rewrite seqZ_to_nat.
  destruct (prefix_loop_returns (seqZ 0 (Z.of_nat (Z.to_nat (Z.min (ml `div` bs) (HashList.len hs)))))
              (replicate (length gids) [])) as [c1 H1].
  { intros i Hi%elem_of_seqZ. apply Hh. lia. }
  rewrite H1. apply prefix_loop_found in H1 as (k1 & Hk1 & Hf1 & _); [|by apply all_found_replicate]. cbn [rbind].
  destruct (eagle_returns eagle k1 c1 Hg) as [c2 H2]; [lia|done|]. rewrite H2. cbn [rbind].
  apply (eagle_found eagle k1) in H2 as (k2 & Hk2 & Hf2 & _); [|done|lia|done].
  destruct (Z.eqb_spec bs al) as [->|Hne]; [by eexists|].
  destruct (align_found bs al k2 c2 Hg) as (c3 & k3 & Ha & _); [lia|done|done|by exists c3].
Qed.

Lemma window_hit_returns ml bs w al eagle :
  gids ≠ [] → 0 < bs → 0 ≤ ml → hashed (ml `div` bs) → (eagle = true → bs = al) →
  ∃ cols, window_hit p gids hs ml bs w al eagle = Ok cols.
Proof using Hinv Hgids.
  intros Hg Hb Hml Hh He. unfold window_hit. pose proof (Z.div_pos ml bs Hml Hb) as Hmax.
  rewrite (proj1 (inv_null _ _ _ Hinv)). cbv zeta.
  set (start := replicate (length gids) (replicate (Z.to_nat (ml `div` bs)) 0)).
  assert (all_found (ml `div` bs) start) as Hstart.
  { apply all_found_replicate. intros g. rewrite <- (Z2Nat.id (ml `div` bs)) at 1 by done. apply found_nulls. }
  destruct (window_loop_returns bs al (cdiv (w - 1) bs + (if eagle then 1 else 0)) (Z.to_nat (ml `div` bs)) start 0)
    as [[[c1 n1] b1] H1]; [by rewrite Z2Nat.id|]. rewrite H1. cbn [rbind].
  apply (window_loop_found (ml `div` bs)) in H1; [|done|lia|lia].
  assert (∃ c2 k2, 0 ≤ k2 ∧ all_found k2 c2 ∧
    (if b1 then Ok c1 else if bs =? al then Ok (take (Z.to_nat n1) <$> c1) else align bs al (take (Z.to_nat n1) <$> c1)) = Ok c2)
    as (c2 & k2 & Hk2 & Hf2 & ->).
  { destruct b1; [destruct H1 as (k & Hk & Hf); exists c1, k; split; [lia|done]|].
    destruct H1 as [Hf Hn]. apply (all_found_take _ n1) in Hf; [|done]. destruct (Z.eqb_spec bs al) as [|Hne].
    - eexists _, n1. split; [lia|done].
    - destruct (align_found bs al n1 _ Hg ltac:(lia) Hne Hf) as (c3 & k3 & Ha & Hk3 & Hf3 & _).
      rewrite Ha. exists c3, k3. split; [lia|done]. }
  cbn [rbind]. destruct (eagle_returns eagle k2 c2 Hg Hk2 Hf2) as [c3 H3]. exists c3. rewrite <- H3.
  destruct eagle; [|done]. rewrite (He eq_refl), Z.eqb_refl. done.
Qed.

Lemma find_longest_cache_hit_returns ml spec eagle al :
  gids ≠ [] → 0 < block_size spec → (∀ a c, spec = ChunkedLocalAttentionSpec a c → 0 < c) → 0 ≤ ml →
  hashed (ml `div` block_size spec) → hashed (HashList.len hs) → searchable spec eagle al →
  ∃ cols, find_longest_cache_hit p gids hs ml spec eagle al 1 1 = Ok cols.
Proof using Hinv Hgids.
  intros Hg Hb Hck Hml Hh Hlen Hs. destruct spec as [a f|a f d|a f k|a w|a ck|s|a|a]; simpl in *; try done.
  1-3: by apply full_hit_returns.
  - by apply window_hit_returns.
  - destruct Hs as [-> Hal]. simpl. unfold chunk_hit. rewrite Hal, Z.eqb_refl. simpl. rewrite <- Hal.
    apply prefix_loop_returns. intros i Hi%elem_of_seqZ. apply Hh. split; [|lia].
    etransitivity; [|exact (proj1 Hi)]. apply Z.div_pos; [|done]. destruct (0 <? ml); [|done].
    specialize (Hck a ck eq_refl). pose proof (Z.div_pos ml ck Hml Hck). nia.
  - unfold mamba_hit. apply last_loop_returns. rewrite Z2Nat.id; [done|]. by apply Z.div_pos.
Qed.
End returns.
End found.
End CacheHit.
