(* ===== verification/SingleTypeManager.v ===== *)
(** [vllm/v1/core/single_type_kv_cache_manager.py]: the tables of the blocks that requests
    hold, one manager for the layers of one attention type, on the common [BlockPool]. *)
From stdpp Require Import gmap gmultiset strings.
From S2P Require Export CacheHit.
From stdpp Require Import options.
Import BlockHash KVSpec.
Open Scope Z_scope.

(** ** Blocks held by a multiset of users *)
Module Held.
Import FreeQueue BlockPool.

Definition bag (l : list loc) : gmultiset loc := list_to_set_disj l.

Abbreviation proper := (λ b : loc, b ≠ 0).

(** The pool is well formed, and every block but the null one has the references that [u]
    counts. *)
Record held (p : BlockPool.t) (u : gmultiset loc) : Prop := Holds {
  held_inv : ∃ free, inv p free none;
  held_refs : ∀ b, b ∈ blocks p → b ≠ 0 → ref_cnt (block_of p b) = Z.of_nat (multiplicity b u);
  held_dom : ∀ b, b ∈ u → b ∈ blocks p
}.

(** The blocks of a list: ones of the pool, and the proper ones once each. *)
Definition distinct (p : BlockPool.t) (l : list loc) : Prop :=
  NoDup (filter proper l) ∧ ∀ b, b ∈ l → b ∈ blocks p.

Lemma bag_nil : bag [] = ∅.
Proof. done. Qed.

Lemma bag_app l1 l2 : bag (l1 ++ l2) = bag l1 ⊎ bag l2.
Proof. apply list_to_set_disj_app. Qed.

Lemma bag_perm l1 l2 : l1 ≡ₚ l2 → bag l1 = bag l2.
Proof. intros H. by apply list_to_set_disj_perm. Qed.

Lemma elem_of_bag b l : b ∈ bag l ↔ b ∈ l.
Proof. apply elem_of_list_to_set_disj. Qed.

Lemma times_bag b l : times b l = Z.of_nat (multiplicity b (bag l)).
Proof. done. Qed.

(** Up to null blocks. *)
Lemma bag_proper b l l' :
  b ≠ 0 → filter proper l ≡ₚ filter proper l' → multiplicity b (bag l) = multiplicity b (bag l').
Proof.
  intros Hb. assert (∀ l, multiplicity b (bag l) = multiplicity b (bag (filter proper l))) as Hf.
  { intros k. induction k as [|x k IH]; [done|]. rewrite filter_cons. unfold bag in *.
    rewrite list_to_set_disj_cons, multiplicity_disj_union, IH. case_decide as Hx.
    - by rewrite list_to_set_disj_cons, multiplicity_disj_union.
    - rewrite multiplicity_singleton_ne; [done|]. intros ->. by destruct Hx. }
  intros Hp. rewrite (Hf l), (Hf l'). by rewrite (bag_perm _ _ Hp).
Qed.

Lemma proper_replicate_null n : filter proper (replicate n 0) = [].
Proof. induction n as [|n IH]; [done|]. simpl. by rewrite filter_cons, decide_False by tauto. Qed.

Lemma proper_insert_null l i b : l !! i = Some b → filter proper l ≡ₚ filter proper (b :: <[i := 0]> l).
Proof.
  intros Hi. assert (i < length l)%nat as Hlt by (by apply lookup_lt_is_Some_1; eexists).
  rewrite <- (take_drop_middle l i b Hi) at 1. rewrite (insert_take_drop l i 0) by done.
  rewrite filter_cons, !filter_app, !filter_cons, (decide_False (P := proper 0)) by tauto.
  case_decide; [|done]. by rewrite Permutation_middle.
Qed.

Lemma held_num_free p u free : held p u → inv p free none → get_num_free_blocks p = zlen free.
Proof. intros _ Hi. apply (rep_num _ _ (inv_rep _ _ _ Hi)). Qed.

(** A block in the free queue has no user. *)
Lemma held_free p u free b : held p u → inv p free none → b ∈ free ↔ b ∈ blocks p ∧ b ≠ 0 ∧ b ∉ u.
Proof.
  intros [_ Hr _] Hi. pose proof (inv_free _ _ _ Hi b) as Hf.
  split.
  - intros Hb. destruct (proj1 Hf (or_introl Hb)) as (? & ? & Hz). split; [done|]. split; [done|].
    apply not_elem_of_multiplicity. rewrite Hr in Hz by done. lia.
  - intros (Hb & Hb0 & Hn). destruct (proj2 Hf) as [?|[]]; [|done]. split; [done|]. split; [done|].
    rewrite Hr by done. apply not_elem_of_multiplicity in Hn. by rewrite Hn.
Qed.

(** Null blocks are not counted. *)
Lemma held_nulls p u u' :
  held p u → (∀ b, b ≠ 0 → multiplicity b u' = multiplicity b u) → held p u'.
Proof.
  intros [[free Hi] Hr Hd] He. split; [eauto| |].
  - intros b Hb Hb0. by rewrite He, Hr.
  - intros b Hb. destruct (decide (b = 0)) as [->|Hb0].
    + apply (inv_mem _ _ _ _ Hi). destruct (inv_blocks _ _ _ Hi) as [_ ?]. lia.
    + apply Hd. rewrite elem_of_multiplicity in *. by rewrite He in Hb.
Qed.

(** What changes neither references nor the frame of the pool. *)
Lemma held_same p p' u : held p u → same_refs p p' → (∃ free, inv p' free none) → held p' u.
Proof.
  intros [_ Hr Hd] [Hc He] Hi. pose proof (config_blocks _ _ Hc) as Hb.
  split; [done|intros b; rewrite Hb, He; apply Hr|intros b; rewrite Hb; apply Hd].
Qed.

Lemma held_touch p u l :
  held p u → (∀ b, b ∈ l → b ∈ blocks p) →
  ∃ p', touch l p = (Ok tt, p') ∧ held p' (bag l ⊎ u) ∧ config p' = config p
  ∧ ∀ x, data (block_of p' x) = with_ref (ref_cnt (block_of p x) + times x l) (data (block_of p x)).
Proof.
  intros [[free Hi] Hr Hd] Hl. destruct (touch_spec p free l Hi Hl) as (p' & Hp & Hi' & Hc & Hdata).
  exists p'. split; [done|]. split; [|done]. pose proof (config_blocks _ _ Hc) as Hb. split; [eauto| |].
  - intros b Hin Hb0. rewrite Hb in Hin. rewrite (ref_of_data _ _ _ (Hdata b)), times_bag, Hr by done.
    rewrite multiplicity_disj_union. lia.
  - intros b. rewrite Hb, gmultiset_elem_of_disj_union, elem_of_bag. intros [?|?]; auto.
Qed.

(** An allocation of that many blocks: new ones, without user before; or no block is free. *)
Lemma held_get use_int p u n :
  held p u → 0 ≤ n →
  (get_num_free_blocks p < n ∧ get_new_blocks use_int n p = (Raise ValueError, p))
  ∨ ∃ l p', get_new_blocks use_int n p = (Ok l, p') ∧ held p' (bag l ⊎ u) ∧ config p' = config p
     ∧ zlen l = n ∧ NoDup l ∧ (∀ b, b ∈ l → b ∈ blocks p ∧ b ≠ 0 ∧ b ∉ u)
     ∧ get_num_free_blocks p' = get_num_free_blocks p - n
     ∧ ∀ x, data (block_of p' x) = (if decide (x ∈ l) then allocated p else id) (data (block_of p x)).
Proof.
  intros Hh Hn. pose proof Hh as [[free Hi] Hr Hd]. pose proof (held_num_free p u free Hh Hi) as Hnum.
  destruct (decide (n ≤ zlen free)) as [Hle|Hgt].
  2:{ left. split; [lia|]. apply (get_new_blocks_error use_int p free); [done|lia]. }
  right. set (l := take (Z.to_nat n) free). set (rest := drop (Z.to_nat n) free).
  assert (free = l ++ rest) as Hfree by (unfold l, rest; by rewrite take_drop).
  assert (zlen l = n) as Hlen by (unfold l, zlen in *; rewrite length_take; lia).
  pose proof Hi as Hi0. rewrite Hfree in Hi. destruct (get_new_blocks_spec use_int p l rest Hi) as (p' & Hp & Hi' & Hc & Hdata).
  rewrite Hlen in Hp. exists l, p'. pose proof (config_blocks _ _ Hc) as Hb.
  assert (∀ b, b ∈ l → b ∈ blocks p ∧ b ≠ 0 ∧ b ∉ u) as Hl.
  { intros b Hin. apply (held_free p u free b Hh Hi0). rewrite Hfree. apply elem_of_app. by left. }
  assert (NoDup l) as Hnd.
  { pose proof (rep_nodup _ _ (inv_rep _ _ _ Hi0)) as H. unfold path in H.
    apply NoDup_cons in H as [_ (H & _ & _)%NoDup_app]. rewrite Hfree in H. by apply NoDup_app in H as (? & _ & _). }
  split; [done|]. split; [|repeat (split; [done|])].
  - split; [eauto| |].
    + intros b Hin Hb0. rewrite Hb in Hin. specialize (Hdata b). rewrite multiplicity_disj_union.
      destruct (decide (b ∈ l)) as [Hbl|Hbl].
      * apply ref_of_data in Hdata. rewrite Hdata. destruct (Hl b Hbl) as (_ & _ & Hu).
        apply not_elem_of_multiplicity in Hu. rewrite Hu.
        pose proof (times_once b l (NoDup_filter _ _ Hnd) Hbl Hb0) as H1. rewrite times_bag in H1. lia.
      * unfold id in Hdata. apply data_eq in Hdata as (_ & -> & _). rewrite Hr by done.
        apply times_zero in Hbl. rewrite times_bag in Hbl. lia.
    + intros b. rewrite Hb, gmultiset_elem_of_disj_union, elem_of_bag. intros [?|?]; [by apply Hl|by apply Hd].
  - split; [|done]. rewrite Hnum. unfold get_num_free_blocks. rewrite (rep_num _ _ (inv_rep _ _ _ Hi')), Hfree, zlen_app. lia.
Qed.

(** Giving back the blocks of a list. *)
Lemma held_release p u l :
  held p (bag l ⊎ u) → NoDup (filter proper l) →
  ∃ p', free_blocks l p = (Ok tt, p') ∧ held p' u ∧ config p' = config p
  ∧ ∀ x, data (block_of p' x) = with_ref (ref_cnt (block_of p x) - times x l) (data (block_of p x)).
Proof.
  intros [[free Hi] Hr Hd] Hnd.
  assert (∀ b, b ∈ l → b ∈ bag l ⊎ u) as Hin by (intros b Hb; apply gmultiset_elem_of_disj_union; left; by apply elem_of_bag).
  destruct (free_blocks_spec p free l Hi Hnd) as (p' & Hp & Hi' & Hc & Hdata).
  { intros b Hb. pose proof (Hin b Hb) as Hbu. split; [by apply Hd|]. intros Hb0. rewrite Hr; [|by apply Hd|done].
    rewrite elem_of_multiplicity in Hbu. lia. }
  exists p'. split; [done|]. split; [|done]. pose proof (config_blocks _ _ Hc) as Hb. split; [eauto| |].
  - intros b Hbp Hb0. rewrite Hb in Hbp. rewrite (ref_of_data _ _ _ (Hdata b)), times_bag, Hr by done.
    rewrite multiplicity_disj_union. lia.
  - intros b Hbu. rewrite Hb. apply Hd, gmultiset_elem_of_disj_union. by right.
Qed.
End Held.

(** ** [SingleTypeKVCacheManager] and its subclasses *)
Module Manager.
Import FreeQueue BlockPool.

Record t := Mgr {
  kv_cache_spec : KVCacheSpec;
  block_size : Z;
  enable_caching : bool;
  kv_cache_group_id : Z;
  req_to_blocks : gmap string (list loc);
  num_cached_block : gmap string Z;
  (** of [MambaManager] *)
  cached_blocks_this_step : gset (list Z);
  last_state_block_idx : gmap string Z;
  allocated_block_reqs : gset string;
  (** of [SinkFullAttentionManager] *)
  sink_blocks : list loc
}.

Definition set_tables v (m : t) : t :=
  Mgr (kv_cache_spec m) (block_size m) (enable_caching m) (kv_cache_group_id m) v (num_cached_block m)
      (cached_blocks_this_step m) (last_state_block_idx m) (allocated_block_reqs m) (sink_blocks m).
Definition set_cached v (m : t) : t :=
  Mgr (kv_cache_spec m) (block_size m) (enable_caching m) (kv_cache_group_id m) (req_to_blocks m) v
      (cached_blocks_this_step m) (last_state_block_idx m) (allocated_block_reqs m) (sink_blocks m).
Definition set_step v (m : t) : t :=
  Mgr (kv_cache_spec m) (block_size m) (enable_caching m) (kv_cache_group_id m) (req_to_blocks m) (num_cached_block m)
      v (last_state_block_idx m) (allocated_block_reqs m) (sink_blocks m).
Definition set_last v (m : t) : t :=
  Mgr (kv_cache_spec m) (block_size m) (enable_caching m) (kv_cache_group_id m) (req_to_blocks m) (num_cached_block m)
      (cached_blocks_this_step m) v (allocated_block_reqs m) (sink_blocks m).
Definition set_allocated v (m : t) : t :=
  Mgr (kv_cache_spec m) (block_size m) (enable_caching m) (kv_cache_group_id m) (req_to_blocks m) (num_cached_block m)
      (cached_blocks_this_step m) (last_state_block_idx m) v (sink_blocks m).

(** [self.req_to_blocks[request_id]]: the default dictionary makes the missing entry. *)
Definition table (r : string) (m : t) : list loc := default [] (req_to_blocks m !! r).
Definition set_table (r : string) (l : list loc) (m : t) : t := set_tables (<[r := l]> (req_to_blocks m)) m.
Definition touch_table (r : string) (m : t) : t := set_table r (table r m) m.

(** The state of a call: the pool, or the pool and the request, and the manager. *)
Definition on_fst {X A} (f : py X A) : py (X * t) A := λ '(x, m), let '(r, x) := f x in (r, (x, m)).
Definition modify_m {X} (f : t → t) : py (X * t) unit := modify (λ '(x, m), (x, f m)).

(** [req_blocks.extend(l)]. *)
Definition extend {X} (r : string) (l : list loc) : py (X * t) unit :=
  modify_m (λ m, set_table r (table r m ++ l) m).

Section manager.
Context (use_int : bool).

(** *** Construction *)

Definition sink_init (spec : KVCacheSpec) (bs : Z) : py BlockPool.t (list loc) :=
  match spec with
  | SinkFullAttentionSpec _ _ sink_len =>
      match sink_len with
      | Some n =>
          passert ((0 <? n) && (n `mod` bs =? 0)) ;;;
          on_queue (popleft_n (n `div` bs))
      | None => raise AssertionError
      end
  | _ => ret []
  end.

(** [get_manager_for_kv_cache_spec]. *)
Definition create (spec : KVCacheSpec) (enable_caching : bool) (gid dcp_world_size pcp_world_size : Z)
    : py BlockPool.t t :=
  match spec with
  | EncoderOnlyAttentionSpec _ => raise KeyError
  | _ =>
      let ws := dcp_world_size * pcp_world_size in
      let bs := KVSpec.block_size spec * (if 1 <? ws then ws else 1) in
      let* sinks := sink_init spec bs in
      ret (Mgr spec bs enable_caching gid ∅ ∅ ∅ ∅ ∅ sinks)
  end.

(** *** Counting *)

Definition get_num_skipped_tokens (spec : KVCacheSpec) (num_computed_tokens : Z) : Z :=
  match spec with
  | SlidingWindowSpec _ w => Z.max 0 (num_computed_tokens - w + 1)
  | ChunkedLocalAttentionSpec _ c => num_computed_tokens `div` c * c
  | MambaSpec _ => num_computed_tokens - 1
  | _ => 0
  end.

(** [ref_cnt == 0 and not is_null]. *)
Definition evictable (p : BlockPool.t) (b : loc) : Prop :=
  ref_cnt (block_of p b) = 0 ∧ is_null (block_of p b) = false.
#[global] Instance evictable_dec p b : Decision (evictable p b).
Proof. unfold evictable. apply _. Defined.

Definition get_num_evictable_blocks (p : BlockPool.t) (l : list loc) : Z := zlen (filter (evictable p) l).

Definition base_num_blocks_to_allocate (p : BlockPool.t) (m : t) (request_id : string) (num_tokens : Z)
    (new_computed_blocks : list loc) (total_computed_tokens : Z) : result Z :=
  let num_required_blocks := cdiv num_tokens (block_size m) in
  let num_req_blocks := zlen (table request_id m) in
  match num_cached_block m !! request_id with
  | Some _ =>
      let! _ := rassert (zlen new_computed_blocks =? 0) in
      Ok (Z.max (num_required_blocks - num_req_blocks) 0)
  | None =>
      let num_skipped_tokens := get_num_skipped_tokens (kv_cache_spec m) total_computed_tokens in
      let num_local_computed_blocks := zlen new_computed_blocks + num_req_blocks in
      let num_skipped_blocks := num_skipped_tokens `div` block_size m in
      let num_new_blocks :=
        Z.max (num_required_blocks - Z.max num_skipped_blocks num_local_computed_blocks) 0 in
      let num_skipped_new_computed_blocks := Z.max 0 (num_skipped_blocks - num_req_blocks) in
      Ok (num_new_blocks
          + get_num_evictable_blocks p (drop (Z.to_nat num_skipped_new_computed_blocks) new_computed_blocks))
  end.

Definition is_align (s : mamba) : bool := bool_decide (mamba_cache_mode s = "align"%string).

(** [new_computed_blocks[-1].block_hash in self.cached_blocks_this_step]. *)
Definition cached_in_step (p : BlockPool.t) (m : t) (l : list loc) : bool :=
  match last l with
  | Some b =>
      match FreeQueue.block_hash (block_of p b) with
      | Some h => bool_decide (h ∈ cached_blocks_this_step m)
      | None => false
      end
  | None => false
  end.

Definition mamba_num_blocks_to_allocate (s : mamba) (request_id : string) (num_tokens : Z)
    (new_computed_blocks : list loc) (total_computed_tokens num_tokens_main_model : Z) : py (BlockPool.t * t) Z :=
  let* (p, m) := get_st in
  if cached_in_step p m new_computed_blocks then ret (num_gpu_blocks p + 1)
  else if is_align s then
    let num_required_blocks := cdiv num_tokens_main_model (block_size m) + num_speculative_blocks s in
    modify_m (touch_table request_id) ;;;
    let num_new_blocks := num_required_blocks - zlen new_computed_blocks - zlen (table request_id m) in
    let num_new_blocks :=
      if 0 <? num_new_blocks then
        if bool_decide (request_id ∈ allocated_block_reqs m) then 1 else 1 + num_speculative_blocks s
      else num_new_blocks in
    ret (num_new_blocks + get_num_evictable_blocks p new_computed_blocks)
  else
    let num_tokens :=
      if 0 <? num_speculative_blocks s then num_tokens + mamba_block_size s * num_speculative_blocks s
      else num_tokens in
    lift (base_num_blocks_to_allocate p m request_id num_tokens new_computed_blocks total_computed_tokens).

Definition get_num_blocks_to_allocate (request_id : string) (num_tokens : Z) (new_computed_blocks : list loc)
    (total_computed_tokens num_tokens_main_model : Z) : py (BlockPool.t * t) Z :=
  let* (p, m) := get_st in
  match kv_cache_spec m with
  | MambaSpec s => mamba_num_blocks_to_allocate s request_id num_tokens new_computed_blocks
                     total_computed_tokens num_tokens_main_model
  | _ => lift (base_num_blocks_to_allocate p m request_id num_tokens new_computed_blocks total_computed_tokens)
  end.

(** *** Allocating *)

(** The computed blocks, touched, behind the skipped ones in the request's table. *)
Definition place_computed_blocks (request_id : string) (num_skipped_blocks : Z) (new_computed_blocks : list loc)
    : py (BlockPool.t * t) unit :=
  let* (p, m) := get_st in
  (if enable_caching m then on_fst (touch new_computed_blocks)
   else passert (match new_computed_blocks with [] => true | _ => false end)) ;;;
  extend request_id (replicate (Z.to_nat num_skipped_blocks) (null_block p)) ;;;
  extend request_id new_computed_blocks ;;;
  modify_m (λ m, set_cached (<[request_id := zlen (table request_id m)]> (num_cached_block m)) m).

(** New blocks for the external computed tokens. *)
Definition allocate_external (request_id : string) (num_total_computed_tokens : Z) : py (BlockPool.t * t) unit :=
  let* (_, m) := get_st in
  let* allocated_blocks := on_fst (get_new_blocks use_int
                             (cdiv num_total_computed_tokens (block_size m) - zlen (table request_id m))) in
  extend request_id allocated_blocks.

Definition base_allocate_new_computed_blocks (request_id : string) (new_computed_blocks : list loc)
    (num_local_computed_tokens num_external_computed_tokens : Z) : py (BlockPool.t * t) unit :=
  let* (p, m) := get_st in
  match num_cached_block m !! request_id with
  | Some _ => passert (zlen new_computed_blocks =? 0)
  | None =>
      modify_m (touch_table request_id) ;;;
      passert (zlen (table request_id m) =? 0) ;;;
      let num_total_computed_tokens := num_local_computed_tokens + num_external_computed_tokens in
      let num_skipped_tokens := get_num_skipped_tokens (kv_cache_spec m) num_total_computed_tokens in
      let num_skipped_blocks := num_skipped_tokens `div` block_size m in
      let new_computed_blocks :=
        if 0 <? num_skipped_blocks then drop (Z.to_nat num_skipped_blocks) new_computed_blocks
        else new_computed_blocks in
      let num_external_computed_tokens :=
        if 0 <? num_skipped_blocks
        then Z.min (num_total_computed_tokens - num_skipped_tokens) num_external_computed_tokens
        else num_external_computed_tokens in
      place_computed_blocks request_id num_skipped_blocks new_computed_blocks ;;;
      if 0 <? num_external_computed_tokens then allocate_external request_id num_total_computed_tokens else ret tt
  end.

Definition allocate_new_computed_blocks (request_id : string) (new_computed_blocks : list loc)
    (num_local_computed_tokens num_external_computed_tokens : Z) : py (BlockPool.t * t) unit :=
  let* (p, m) := get_st in
  if is_cross (kv_cache_spec m) then passert (zlen new_computed_blocks =? 0)
  else base_allocate_new_computed_blocks request_id new_computed_blocks
         num_local_computed_tokens num_external_computed_tokens.

Definition base_allocate_new_blocks (request_id : string) (num_tokens : Z) : py (BlockPool.t * t) (list loc) :=
  modify_m (touch_table request_id) ;;;
  let* (p, m) := get_st in
  let num_required_blocks := cdiv num_tokens (block_size m) in
  let num_new_blocks := num_required_blocks - zlen (table request_id m) in
  if num_new_blocks <=? 0 then ret []
  else
    let* new_blocks := on_fst (get_new_blocks use_int num_new_blocks) in
    extend request_id new_blocks ;;;
    ret new_blocks.

(** The loop that moves the speculative blocks of the previous step to the end. *)
Fixpoint reuse_loop (request_id : string) (num_skipped_blocks : Z) (idxs : list Z) : py (BlockPool.t * t) unit :=
  match idxs with
  | [] => ret tt
  | block_idx :: rest =>
      if block_idx <? num_skipped_blocks then
        let* (p, m) := get_st in
        let* b := lift (py_index (table request_id m) block_idx) in
        extend request_id [b] ;;;
        let* (_, m) := get_st in
        let* l := lift (py_set (table request_id m) block_idx (null_block p)) in
        modify_m (set_table request_id l) ;;;
        reuse_loop request_id num_skipped_blocks rest
      else ret tt
  end.

(** The block with the running state, as the table is before an allocation. *)
Definition record_last_state (s : mamba) (request_id : string) (prev_block_len : Z) : py (BlockPool.t * t) unit :=
  let* (_, m) := get_st in
  if bool_decide (request_id ∈ allocated_block_reqs m) then
    modify_m (λ m, set_last (<[request_id := prev_block_len - 1 - num_speculative_blocks s]>
                               (last_state_block_idx m)) m)
  else if 0 <? prev_block_len then
    modify_m (λ m, set_last (<[request_id := prev_block_len - 1]> (last_state_block_idx m)) m)
  else ret tt.

(** Null blocks for the skipped ones, then the speculative blocks among them moved behind. *)
Definition fill_skipped (s : mamba) (request_id : string) (prev_block_len num_skipped_blocks : Z)
    : py (BlockPool.t * t) unit :=
  let* (p, m) := get_st in
  extend request_id (replicate (Z.to_nat (num_skipped_blocks - prev_block_len)) (null_block p)) ;;;
  if bool_decide (request_id ∈ allocated_block_reqs m) then
    reuse_loop request_id num_skipped_blocks
      (seqZ (prev_block_len - num_speculative_blocks s) (num_speculative_blocks s))
  else ret tt.

(** [MambaManager.allocate_new_blocks] in the mode "align". *)
Definition align_allocate_new_blocks (s : mamba) (request_id : string) (num_tokens : Z)
    : py (BlockPool.t * t) (list loc) :=
  modify_m (touch_table request_id) ;;;
  let* (_, m) := get_st in
  let prev_block_len := zlen (table request_id m) in
  let num_required_blocks := cdiv num_tokens (block_size m) + num_speculative_blocks s in
  if num_required_blocks =? prev_block_len then ret []
  else
    passert (num_required_blocks >? prev_block_len) ;;;
    let blocks_allocated := bool_decide (request_id ∈ allocated_block_reqs m) in
    record_last_state s request_id prev_block_len ;;;
    fill_skipped s request_id prev_block_len (num_required_blocks - num_speculative_blocks s - 1) ;;;
    let* (_, m) := get_st in
    let num_new_blocks := num_required_blocks - zlen (table request_id m) in
    passert (num_new_blocks <=? (if blocks_allocated then 1 else num_speculative_blocks s + 1)) ;;;
    let* new_blocks := on_fst (get_new_blocks use_int num_new_blocks) in
    extend request_id new_blocks ;;;
    modify_m (λ m, set_allocated ({[request_id]} ∪ allocated_block_reqs m) m) ;;;
    let* (_, m) := get_st in
    ret (drop (Z.to_nat prev_block_len) (table request_id m)).

Definition allocate_new_blocks (request_id : string) (num_tokens num_tokens_main_model : Z)
    : py (BlockPool.t * t) (list loc) :=
  let* (p, m) := get_st in
  match kv_cache_spec m with
  | MambaSpec s =>
      if is_align s then align_allocate_new_blocks s request_id num_tokens_main_model
      else
        let num_tokens :=
          if 0 <? num_speculative_blocks s then num_tokens + block_size m * num_speculative_blocks s
          else num_tokens in
        base_allocate_new_blocks request_id num_tokens
  | _ => base_allocate_new_blocks request_id num_tokens
  end.

(** *** Caching *)

Definition base_cache_blocks (request_id : string) (num_tokens : Z)
    : py ((BlockPool.t * request) * t) unit :=
  let* (_, m) := get_st in
  let num_cached_blocks := default 0 (num_cached_block m !! request_id) in
  let num_full_blocks := num_tokens `div` block_size m in
  if num_cached_blocks >=? num_full_blocks then ret tt
  else
    modify_m (touch_table request_id) ;;;
    on_fst (cache_full_blocks use_int (table request_id m) num_cached_blocks num_full_blocks
              (block_size m) (kv_cache_group_id m)) ;;;
    modify_m (λ m, set_cached (<[request_id := num_full_blocks]> (num_cached_block m)) m).

(** [MambaManager] notes the hashes that a step caches. *)
Definition note_cached (b : loc) : py ((BlockPool.t * request) * t) unit :=
  let* ((p, _), _) := get_st in
  if is_null (block_of p b) then ret tt
  else
    match FreeQueue.block_hash (block_of p b) with
    | None => raise AssertionError
    | Some h => modify_m (λ m, set_step ({[h]} ∪ cached_blocks_this_step m) m)
    end.

Definition mamba_cache_blocks (request_id : string) (num_tokens : Z) : py ((BlockPool.t * request) * t) unit :=
  let* (_, m) := get_st in
  let before := default 0 (num_cached_block m !! request_id) in
  base_cache_blocks request_id num_tokens ;;;
  let* (_, m) := get_st in
  let after := default 0 (num_cached_block m !! request_id) in
  if after >? before then
    modify_m (touch_table request_id) ;;;
    for_each (py_slice (table request_id m) before after) note_cached
  else ret tt.

Definition cache_blocks (request_id : string) (num_tokens : Z) : py ((BlockPool.t * request) * t) unit :=
  let* (_, m) := get_st in
  match kv_cache_spec m with
  | CrossAttentionSpec _ => raise ValueError
  | MambaSpec _ => mamba_cache_blocks request_id num_tokens
  | _ => base_cache_blocks request_id num_tokens
  end.

Definition new_step_starts : py (BlockPool.t * t) unit :=
  modify_m (λ m, match kv_cache_spec m with MambaSpec _ => set_step ∅ m | _ => m end).

(** *** Freeing *)

Definition base_free (request_id : string) : py (BlockPool.t * t) unit :=
  let* (_, m) := get_st in
  modify_m (λ m, set_tables (delete request_id (req_to_blocks m)) m) ;;;
  on_fst (free_blocks (reverse (table request_id m))) ;;;
  modify_m (λ m, set_cached (delete request_id (num_cached_block m)) m).

Definition free (request_id : string) : py (BlockPool.t * t) unit :=
  let* (_, m) := get_st in
  (match kv_cache_spec m with
   | MambaSpec s =>
       if is_align s then
         modify_m (λ m, set_last (delete request_id (last_state_block_idx m))
                          (set_allocated (allocated_block_reqs m ∖ {[request_id]}) m))
       else ret tt
   | _ => ret tt
   end) ;;;
  base_free request_id.

(** The loop from block [n - 1] down to the first null block: the removed blocks, and the
    table with null blocks in their places. *)
Fixpoint skip_loop (null : loc) (n : nat) (blocks : list loc) : list loc * list loc :=
  match n with
  | O => ([], blocks)
  | S i =>
      match blocks !! i with
      | Some b =>
          if decide (b = null) then ([], blocks)
          else let '(removed, blocks) := skip_loop null i (<[i := null]> blocks) in (b :: removed, blocks)
      | None => ([], blocks)
      end
  end.

Definition base_remove_skipped_blocks (request_id : string) (total_computed_tokens : Z)
    : py (BlockPool.t * t) unit :=
  let* (p, m) := get_st in
  let num_skipped_tokens := get_num_skipped_tokens (kv_cache_spec m) total_computed_tokens in
  if num_skipped_tokens <=? 0 then ret tt
  else
    let blocks := table request_id m in
    let num_skipped_blocks := Z.min (num_skipped_tokens `div` block_size m) (zlen blocks) in
    let '(removed_blocks, blocks) := skip_loop (null_block p) (Z.to_nat num_skipped_blocks) blocks in
    modify_m (set_table request_id blocks) ;;;
    on_fst (free_blocks removed_blocks).

(** [MambaManager.remove_skipped_blocks]. *)
Definition mamba_remove_skipped_blocks (s : mamba) (request_id : string) (num_computed_tokens : Z)
    : py (BlockPool.t * t) unit :=
  let num_computed_tokens := Z.max 0 (num_computed_tokens - num_speculative_blocks s) in
  base_remove_skipped_blocks request_id num_computed_tokens ;;;
  let* (p, m) := get_st in
  if is_align s then
    match last_state_block_idx m !! request_id with
    | Some idx =>
        if idx <? cdiv num_computed_tokens (block_size m) - 1 then
          modify_m (touch_table request_id) ;;;
          let* b := lift (py_index (table request_id m) idx) in
          if decide (b = null_block p) then ret tt
          else
            on_fst (free_blocks [b]) ;;;
            let* l := lift (py_set (table request_id m) idx (null_block p)) in
            modify_m (set_table request_id l)
        else ret tt
    | None => ret tt
    end
  else ret tt.

Definition remove_skipped_blocks (request_id : string) (total_computed_tokens : Z) : py (BlockPool.t * t) unit :=
  let* (_, m) := get_st in
  match kv_cache_spec m with
  | MambaSpec s => mamba_remove_skipped_blocks s request_id total_computed_tokens
  | _ => base_remove_skipped_blocks request_id total_computed_tokens
  end.

(** *** Shared prefixes *)

(** The leading blocks that every request with a table shares. *)
Fixpoint count_common (p : BlockPool.t) (n : Z) (l : list loc) : Z :=
  match l with
  | [] => 0
  | b :: rest => if ref_cnt (block_of p b) =? n then 1 + count_common p n rest else 0
  end.

Definition get_num_common_prefix_blocks (running_request_id : string) : py (BlockPool.t * t) Z :=
  let* (_, m) := get_st in
  if is_full (kv_cache_spec m) then
    modify_m (touch_table running_request_id) ;;;
    let* (p, m) := get_st in
    ret (count_common p (Z.of_nat (size (req_to_blocks m))) (table running_request_id m))
  else ret 0.
End manager.

(** ** The references of the tables *)

Import Held.

(** What the blocks of the tables amount to, and what those of the other requests do. *)
Definition uses_of (tables : gmap string (list loc)) : gmultiset loc := map_fold (λ _ l u, bag l ⊎ u) ∅ tables.
Definition uses (m : t) : gmultiset loc := uses_of (req_to_blocks m).
Definition others (r : string) (m : t) : gmultiset loc := uses_of (delete r (req_to_blocks m)).

Lemma uses_of_insert T r l : T !! r = None → uses_of (<[r := l]> T) = bag l ⊎ uses_of T.
Proof. intros Hr. apply (map_fold_insert_L (λ _ l u, bag l ⊎ u)); [|done]. intros. multiset_solver. Qed.

Lemma uses_split r m : uses m = bag (table r m) ⊎ others r m.
Proof.
  unfold uses, others, table. destruct (req_to_blocks m !! r) as [l|] eqn:E; simpl.
  - rewrite <- (uses_of_insert _ r l) by apply lookup_delete_eq. by rewrite insert_delete_id.
  - rewrite delete_id by done. by rewrite bag_nil, (left_id_L ∅ (⊎)).
Qed.

Lemma elem_of_uses b m : b ∈ uses m ↔ ∃ r, b ∈ table r m.
Proof.
  split; [|intros [r Hb]; rewrite (uses_split r m), gmultiset_elem_of_disj_union, elem_of_bag; by left].
  unfold uses, table. generalize (req_to_blocks m). clear m. intros T. induction T as [|r l T Hr IH] using map_ind.
  { by intros ?%gmultiset_not_elem_of_empty. }
  rewrite uses_of_insert by done. rewrite gmultiset_elem_of_disj_union, elem_of_bag. intros [Hb|[r' Hb]%IH].
  - exists r. by rewrite lookup_insert_eq.
  - exists r'. destruct (decide (r' = r)) as [->|?]; [|by rewrite lookup_insert_ne].
    rewrite Hr in Hb. by apply elem_of_nil in Hb.
Qed.

Lemma uses_set_table r l m : uses (set_table r l m) = bag l ⊎ others r m.
Proof.
  unfold uses, others, set_table, set_tables. simpl. rewrite <- insert_delete_eq.
  apply uses_of_insert, lookup_delete_eq.
Qed.

Lemma table_set_table r l m : table r (set_table r l m) = l.
Proof. unfold table, set_table, set_tables. simpl. by rewrite lookup_insert_eq. Qed.

Lemma table_set_table_ne r r' l m : r' ≠ r → table r' (set_table r l m) = table r' m.
Proof. intros. unfold table, set_table, set_tables. simpl. by rewrite lookup_insert_ne. Qed.

Lemma table_touch_table r r' m : table r' (touch_table r m) = table r' m.
Proof.
  unfold touch_table. destruct (decide (r' = r)) as [->|?]; [by rewrite table_set_table|by rewrite table_set_table_ne].
Qed.

Lemma uses_touch_table r m : uses (touch_table r m) = uses m.
Proof. unfold touch_table. by rewrite uses_set_table, (uses_split r m). Qed.

(** A manager of the types but sinks: sizes, and tables without doubles. *)
Record ok (m : t) : Prop := Okay {
  ok_spec : wf_spec (kv_cache_spec m);
  ok_size : 0 < block_size m;
  ok_tables : ∀ r, NoDup (filter proper (table r m));
  ok_spare : ∀ s r, kv_cache_spec m = MambaSpec s → r ∈ allocated_block_reqs m →
               is_align s = true ∧ num_speculative_blocks s ≤ zlen (table r m)
}.

Definition params (m : t) : KVCacheSpec * Z * bool * Z :=
  (kv_cache_spec m, block_size m, enable_caching m, kv_cache_group_id m).

(** The invariant of a call on one manager, with [u] for the users in the other managers. *)
Record good (u : gmultiset loc) (c : Z * bool * Z * list loc * loc * bool) (q : KVCacheSpec * Z * bool * Z)
    (s : BlockPool.t * t) : Prop := Good {
  good_held : held s.1 (uses s.2 ⊎ u);
  good_ok : ok s.2;
  good_config : config s.1 = c;
  good_params : params s.2 = q
}.

Section keeps.
Context (use_int : bool) (u : gmultiset loc) (c : Z * bool * Z * list loc * loc * bool) (q : KVCacheSpec * Z * bool * Z).

Abbreviation I := (good u c q).
Abbreviation keeps := (λ o, post I (λ _, True) o).

Lemma good_set r l p p' m :
  I (p, m) → held p' (bag l ⊎ others r m ⊎ u) → NoDup (filter proper l) → config p' = config p →
  zlen (table r m) ≤ zlen l → I (p', set_table r l m).
Proof.
  intros [Hh [H1 H2 H3 H4] Hc Hq] Hh' Hnd Hcc Hlen. split; simpl in *; [by rewrite uses_set_table| |congruence|done].
  split; [done|done|intros r'|intros s r' Hs Hr'; specialize (H4 s r' Hs Hr')];
    (destruct (decide (r' = r)) as [->|?]; [rewrite table_set_table|by rewrite table_set_table_ne]); [done|].
  split; [apply H4|lia].
Qed.

Lemma good_split r p m : I (p, m) → held p (bag (table r m) ⊎ others r m ⊎ u) ∧ NoDup (filter proper (table r m)).
Proof. intros [Hh Ho _ _]. simpl in *. rewrite (uses_split r m) in Hh. split; [done|apply Ho]. Qed.

(** Changes of the manager's own attributes. *)
Lemma good_attr p m m' :
  I (p, m) → req_to_blocks m' = req_to_blocks m → params m' = params m →
  (∀ s r, kv_cache_spec m = MambaSpec s → r ∈ allocated_block_reqs m' →
     r ∈ allocated_block_reqs m ∨ is_align s = true ∧ num_speculative_blocks s ≤ zlen (table r m)) → I (p, m').
Proof.
  intros [Hh [H1 H2 H3 H4] Hc Hq] Ht Hp Ha. simpl in *. injection Hp as Hs Hb Hca Hg.
  split; simpl; [unfold uses; by rewrite Ht| |done|unfold params in *; congruence].
  split; [by rewrite Hs|by rewrite Hb|intros r; unfold table; rewrite Ht; apply H3|].
  intros s r Hsp Hr. rewrite Hs in Hsp. unfold table. rewrite Ht. destruct (Ha s r Hsp Hr); [by apply (H4 s r)|done].
Qed.

Lemma good_touch_table r p m : I (p, m) → I (p, touch_table r m).
Proof. intros Hi. destruct (good_split r p m Hi). by apply (good_set r _ p). Qed.

(** Null blocks in a table, in any number. *)
Lemma good_nulls r l p m :
  I (p, m) → filter proper l ≡ₚ filter proper (table r m) → zlen (table r m) ≤ zlen l → I (p, set_table r l m).
Proof.
  intros Hi Hl Hlen. destruct (good_split r p m Hi) as [Hh Hnd].
  apply (good_set r l p); [done| |by rewrite Hl|done|done].
  apply (held_nulls p _ _ Hh). intros b Hb. rewrite !multiplicity_disj_union.
  by rewrite (bag_proper b _ _ Hb Hl).
Qed.

Lemma good_null p m : I (p, m) → null_block p = 0.
Proof. intros [[[free Hi] _ _] _ _ _]. by destruct (inv_null _ _ _ Hi). Qed.

(** *** Steps that several operations share *)

Lemma keeps_attr f p m :
  I (p, m) → req_to_blocks (f m) = req_to_blocks m → params (f m) = params m →
  allocated_block_reqs (f m) = allocated_block_reqs m → keeps (modify_m f (p, m)).
Proof. intros Hi Ht Hp Ha. apply post_modify. apply (good_attr p m); [done..|]. rewrite Ha. by left. Qed.

(** Allocate and extend. *)
Lemma keeps_get_extend {B} r n (k : list loc → py (BlockPool.t * t) B) p m R :
  I (p, m) → 0 ≤ n →
  (∀ l p' m', m' = set_table r (table r m ++ l) m → zlen l = n → I (p', m') → post I R (k l (p', m'))) →
  post I R ((let* l := on_fst (get_new_blocks use_int n) in (extend r l ;;; k l)) (p, m)).
Proof.
  intros Hi Hn Hk. destruct (good_split r p m Hi) as [Hh Hnd]. unfold bind at 1, on_fst.
  destruct (held_get use_int p _ n Hh Hn) as [[_ ->]|(l & p' & -> & Hh' & Hc & Hlen & Hndl & Hl & _)]; [by apply post_raise|].
  unfold bind, extend, modify_m, modify. apply Hk; [done|done|]. apply (good_set r _ p p'); [done| | |done|].
  - rewrite bag_app. apply (held_nulls p' _ _ Hh'). intros b _. rewrite !multiplicity_disj_union. lia.
  - rewrite filter_app. apply NoDup_app. split; [done|]. split; [|by apply NoDup_filter].
    intros b [Hb0 Hb]%list_elem_of_filter [_ Hbl]%list_elem_of_filter. destruct (Hl b Hbl) as (_ & _ & []).
    rewrite !gmultiset_elem_of_disj_union, elem_of_bag. by left; left.
  - rewrite zlen_app. pose proof (zlen_nonneg l). lia.
Qed.

Lemma keeps_get_extend_last r n p m :
  I (p, m) → 0 ≤ n → keeps ((let* l := on_fst (get_new_blocks use_int n) in extend r l) (p, m)).
Proof.
  intros Hi Hn.
  assert (keeps ((let* l := on_fst (get_new_blocks use_int n) in (extend r l ;;; ret tt)) (p, m))) as H.
  { apply (keeps_get_extend r n (λ _, ret tt)); [done|done|]. intros. by apply post_ret. }
  revert H. unfold bind. by destruct (on_fst (get_new_blocks use_int n) (p, m)) as [[l|e] s].
Qed.

(** Replace a part of the table by null blocks and release it. *)
Lemma release_run r l removed p m :
  I (p, m) → filter proper (table r m) ≡ₚ filter proper (removed ++ l) → zlen (table r m) ≤ zlen l →
  ∃ p', free_blocks removed p = (Ok tt, p') ∧ I (p', set_table r l m)
  ∧ ∀ x, data (block_of p' x) = with_ref (ref_cnt (block_of p x) - times x removed) (data (block_of p x)).
Proof.
  intros Hi Hp Hlen. destruct (good_split r p m Hi) as [Hh Hnd]. rewrite Hp, filter_app in Hnd.
  assert (held p (bag removed ⊎ (bag l ⊎ others r m ⊎ u))) as Hh'.
  { apply (held_nulls p _ _ Hh). intros b Hb.
    pose proof (bag_proper b _ _ Hb Hp) as Hm. rewrite bag_app in Hm. rewrite !multiplicity_disj_union in *. lia. }
  apply NoDup_app in Hnd as (Hr & _ & Hl).
  destruct (held_release p _ removed Hh' Hr) as (p' & Hp' & Hh2 & Hc & Hd).
  exists p'. split; [done|]. split; [by apply (good_set r l p p')|done].
Qed.

(** Touch cached blocks and put them behind null blocks into the empty table. *)
Lemma good_touch_extend r nulls l p m p' :
  I (p, m) → table r m = [] → distinct p l → touch l p = (Ok tt, p') → I (p', set_table r (replicate nulls 0 ++ l) m).
Proof.
  intros Hi Ht [Hnd Hl] Hp. destruct (good_split r p m Hi) as [Hh _]. rewrite Ht, bag_nil, (left_id_L ∅ (⊎)) in Hh.
  destruct (held_touch p _ l Hh Hl) as (p2 & Hp2 & Hh' & Hc & _). rewrite Hp in Hp2. injection Hp2 as <-.
  apply (good_set r _ p p'); [done| | |done|rewrite Ht, zlen_nil; apply zlen_nonneg].
  - apply (held_nulls p' _ _ Hh'). intros b Hb. rewrite !multiplicity_disj_union.
    rewrite (bag_proper b (replicate nulls 0 ++ l) l Hb); [lia|]. by rewrite filter_app, proper_replicate_null.
  - by rewrite filter_app, proper_replicate_null.
Qed.

(** *** The operations *)

Lemma keeps_base_allocate_new_blocks r n p m : I (p, m) → keeps (base_allocate_new_blocks use_int r n (p, m)).
Proof.
  intros Hi%(good_touch_table r). unfold base_allocate_new_blocks. unfold bind at 1, modify_m, modify.
  unfold bind at 1, get_st. cbv zeta. case_match; [by apply post_ret|].
  apply (keeps_get_extend r _ (λ l, ret l)); [done|lia|]. intros. by apply post_ret.
Qed.
Lemma keeps_touch_table r p m : I (p, m) → keeps (modify_m (touch_table r) (p, m)).
Proof. intros Hi. by apply post_modify, (good_touch_table r). Qed.

(** What a call to [allocate_new_computed_blocks] may pass: cached blocks, not more than the
    local tokens fill. *)
Definition hits_ok (p : BlockPool.t) (m : t) (hits : list loc) (local ext : Z) : Prop :=
  distinct p hits ∧ zlen hits * block_size m ≤ local ∧ 0 ≤ ext.

(** The skipped tokens are among the computed ones. *)
Lemma skipped_bound s n : wf_spec s → 0 ≤ n → get_num_skipped_tokens s n ≤ n ∧ -1 ≤ get_num_skipped_tokens s n.
Proof. unfold get_num_skipped_tokens, wf_spec. intros [_ Hw] Hn. destruct s as [| | | |a k| | |]; try lia. pose proof (Z.mul_div_le n k Hw). pose proof (Z.div_pos n k Hn Hw). nia. Qed.

(** The skipped blocks are covered by the computed tokens. *)
Lemma skipped_blocks_bound s bs n :
  wf_spec s → 0 < bs → 0 ≤ n → get_num_skipped_tokens s n `div` bs ≤ n `div` bs.
Proof. intros Hs Hb Hn. apply Z.div_le_mono; [done|]. by apply skipped_bound. Qed.

Lemma div_le_cdiv n b : 0 < b → n `div` b ≤ cdiv n b.
Proof. intros Hb. pose proof (cdiv_spec n b Hb). Z.div_mod_to_equations. nia. Qed.

Lemma distinct_drop p n l : distinct p l → distinct p (drop n l).
Proof.
  intros [Hnd Hl]. split.
  - rewrite <- (take_drop n l), filter_app in Hnd. by apply NoDup_app in Hnd as (_ & _ & ?).
  - intros b Hb. apply Hl. rewrite <- (take_drop n l). apply elem_of_app. by right.
Qed.

Lemma zlen_replicate {A} n (x : A) : zlen (replicate (Z.to_nat n) x) = Z.max 0 n.
Proof. unfold zlen. rewrite length_replicate. lia. Qed.

Lemma zlen_drop {A} n (l : list A) : zlen (drop (Z.to_nat n) l) = Z.max 0 (zlen l - Z.max 0 n).
Proof. unfold zlen. rewrite length_drop. lia. Qed.

(** The table that a new request gets before the external blocks: skipped blocks, then hits. *)
Definition computed_table (m : t) (hits : list loc) (total : Z) : list loc :=
  let skipped := get_num_skipped_tokens (kv_cache_spec m) total `div` block_size m in
  replicate (Z.to_nat skipped) 0 ++ drop (Z.to_nat skipped) hits.

Lemma zlen_computed_table m hits total :
  zlen (computed_table m hits total)
  = Z.max (zlen hits) (Z.max 0 (get_num_skipped_tokens (kv_cache_spec m) total `div` block_size m)).
Proof.
  unfold computed_table. cbv zeta. rewrite zlen_app, zlen_replicate. unfold zlen. rewrite length_drop. lia.
Qed.

(** Into an empty table, the blocks are placed in full, or caching is off and there are some. *)
Lemma place_computed_spec r sk hits p m :
  I (p, m) → table r m = [] → distinct p hits →
  (enable_caching m = false ∧ hits ≠ [] ∧ place_computed_blocks r sk hits (p, m) = (Raise AssertionError, (p, m)))
  ∨ ∃ p' m', place_computed_blocks r sk hits (p, m) = (Ok tt, (p', m')) ∧ I (p', m')
    ∧ touch hits p = (Ok tt, p')
    ∧ let l := replicate (Z.to_nat sk) 0 ++ hits in
      m' = set_cached (<[r := zlen l]> (num_cached_block m)) (set_table r l m).
Proof.
  intros Hi Ht Hd. pose proof (good_null _ _ Hi) as Hnull. destruct (good_split r p m Hi) as [Hh _].
  destruct (held_touch p _ hits Hh) as (p' & Hp' & _ & _); [apply Hd|].
  set (l := replicate (Z.to_nat sk) 0 ++ hits).
  assert (∀ p0, (extend (X:=BlockPool.t) r (replicate (Z.to_nat sk) (null_block p)) ;;; extend r hits ;;;
            modify_m (λ m, set_cached (<[r := zlen (table r m)]> (num_cached_block m)) m)) (p0, m)
          = (Ok tt, (p0, set_cached (<[r := zlen l]> (num_cached_block m)) (set_table r l m)))) as Hrest.
  { intros p0. unfold extend, modify_m, modify, bind. rewrite Hnull, !table_set_table, Ht. unfold set_cached, set_table, set_tables. simpl.
    by rewrite insert_insert_eq. }
  assert (I (p', set_cached (<[r := zlen l]> (num_cached_block m)) (set_table r l m))) as Hi'.
  { apply (good_attr p' (set_table r l m)); [by apply (good_touch_extend r _ hits p m p')|done|done|by left]. }
  unfold place_computed_blocks. rewrite bind_get_st. destruct (enable_caching m) eqn:Hc.
  - right. exists p', (set_cached (<[r := zlen l]> (num_cached_block m)) (set_table r l m)).
    split; [|done]. rewrite (bind_run _ _ (p, m) tt (p', m)) by (unfold on_fst; by rewrite Hp'). apply Hrest.
  - destruct hits as [|b hits]; [|by left]. right. unfold touch, for_each, ret in Hp'. injection Hp' as <-.
    eexists _, _. split; [apply Hrest|]. done.
Qed.

Lemma keeps_base_allocate_new_computed_blocks r hits local ext p m :
  I (p, m) → hits_ok p m hits local ext → keeps (base_allocate_new_computed_blocks use_int r hits local ext (p, m)).
Proof.
  intros Hi (Hd & Hlen & Hext). pose proof (good_ok _ _ _ _ Hi) as [Hs Hbs _ _]. simpl in Hs, Hbs.
  apply (good_touch_table r) in Hi as Hi1. unfold base_allocate_new_computed_blocks, bind at 1, get_st.
  destruct (num_cached_block m !! r); [by apply (post_weaken _ _ _ _ (post_lift _ _ _ Hi))|].
  unfold bind at 1, modify_m at 1, modify at 1. eapply post_bind; [by apply post_lift|].
  intros [] s' Hs' _ Hlen0. unfold passert, lift in Hs'. injection Hs' as _ <-. unfold rassert in Hlen0.
  destruct (Z.eqb_spec (zlen (table r m)) 0) as [Ht|]; [|done]. clear Hlen0.
  assert (table r m = []) as Ht0 by (by apply zlen_nil_inv).
  cbv zeta. set (total := local + ext). set (sk := get_num_skipped_tokens (kv_cache_spec m) total `div` block_size m).
  assert (0 ≤ total) as Htot by (pose proof (zlen_nonneg hits); unfold total; nia).
  assert (sk ≤ cdiv total (block_size m)) as Hsk by (etransitivity; [by apply skipped_blocks_bound|by apply div_le_cdiv]).
  assert (zlen hits ≤ cdiv total (block_size m)) as Hhits.
  { pose proof (cdiv_spec total (block_size m) Hbs). unfold total in *. nia. }
  replace (if 0 <? sk then drop (Z.to_nat sk) hits else hits) with (drop (Z.to_nat sk) hits).
  2:{ destruct (Z.ltb_spec 0 sk); [done|]. by replace (Z.to_nat sk) with O by lia. }
  destruct (place_computed_spec r sk (drop (Z.to_nat sk) hits) p (touch_table r m) Hi1)
    as [(_ & _ & Hp)|(p' & m' & Hp & Hi' & _ & Hm')]; [by rewrite table_touch_table|by apply distinct_drop|..];
    unfold bind; rewrite Hp; [by apply post_raise|]. case_match; [|by apply post_ret].
  unfold allocate_external, bind at 1, get_st. apply keeps_get_extend_last; [done|].
  rewrite Hm'. unfold table, set_cached, set_table, set_tables, touch_table. simpl. rewrite lookup_insert_eq. simpl.
  rewrite zlen_app, zlen_replicate, zlen_drop. pose proof (cdiv_nonneg total (block_size m) Hbs Htot). lia.
Qed.

Lemma keeps_allocate_new_computed_blocks r hits local ext p m :
  I (p, m) → hits_ok p m hits local ext → keeps (allocate_new_computed_blocks use_int r hits local ext (p, m)).
Proof.
  intros Hi Hh. unfold allocate_new_computed_blocks. rewrite bind_get_st.
  destruct (is_cross _); [by apply (post_weaken _ _ _ _ (post_lift _ _ _ Hi))|].
  by apply keeps_base_allocate_new_computed_blocks.
Qed.

(** *** Mamba blocks that move *)

(** Moving the block at an index to the end. *)
Lemma keeps_move r i b p m :
  I (p, m) → 0 ≤ i → py_index (table r m) i = Ok b →
  ∃ l, py_set (table r m ++ [b]) i 0 = Ok l ∧ I (p, set_table r l m) ∧ zlen l = zlen (table r m) + 1.
Proof.
  intros Hi Hi0 Hb. rewrite py_index_nonneg in Hb by done. apply of_option_ok in Hb.
  assert (Z.to_nat i < length (table r m))%nat as Hlt by (by apply lookup_lt_is_Some_1; eexists).
  exists (<[Z.to_nat i := 0]> (table r m ++ [b])).
  assert (zlen (<[Z.to_nat i := 0]> (table r m ++ [b])) = zlen (table r m) + 1) as Hlen.
  { unfold zlen. rewrite length_insert, length_app. simpl. lia. }
  split; [|split; [|done]].
  { apply py_set_nonneg. rewrite zlen_app. unfold zlen. simpl. lia. }
  apply (good_nulls r _ p m); [done| |lia].
  rewrite insert_app_l by done. rewrite (proper_insert_null (table r m) _ b Hb).
  rewrite filter_app, !filter_cons, filter_nil. case_decide; [by rewrite Permutation_app_comm|by rewrite app_nil_r].
Qed.

Lemma keeps_reuse_loop r sk a n p m :
  I (p, m) → 0 ≤ a →
  let '(res, (p', m')) := reuse_loop r sk (seqZ a (Z.of_nat n)) (p, m) in
  I (p', m') ∧ p' = p ∧ allocated_block_reqs m' = allocated_block_reqs m
  ∧ (res = Ok tt → zlen (table r m') = zlen (table r m) + Z.max 0 (Z.min (Z.of_nat n) (sk - a))).
Proof.
  revert a m. induction n as [|n IH]; intros a m Hi Ha.
  { simpl. split; [done|]. split; [done|]. split; [done|]. lia. }
  rewrite seqZ_cons by lia. cbn [reuse_loop]. destruct (Z.ltb_spec a sk); [|split; [done|split; [done|split; [done|lia]]]].
  rewrite bind_get_st. destruct (py_index (table r m) a) as [b|e] eqn:Eb.
  2:{ unfold bind, lift. done. }
  destruct (keeps_move r a b p m Hi Ha Eb) as (l & Hl & Hi' & Hlen). pose proof (good_null _ _ Hi) as Hnull.
  rewrite (bind_run _ _ _ b (p, m)) by done. unfold extend, modify_m. rewrite bind_modify, bind_get_st.
  rewrite table_set_table, Hnull. rewrite (bind_run _ _ _ l (p, set_table r (table r m ++ [b]) m)) by (unfold lift; by rewrite Hl).
  rewrite bind_modify. replace (set_table r l (set_table r (table r m ++ [b]) m)) with (set_table r l m).
  2:{ unfold set_table, set_tables. simpl. by rewrite insert_insert_eq. }
  specialize (IH (Z.succ a) (set_table r l m) Hi'). replace (Z.of_nat (S n) - 1) with (Z.of_nat n) by lia.
  replace (Z.pred (Z.of_nat (S n))) with (Z.of_nat n) by lia.
  destruct (reuse_loop r sk (seqZ (Z.succ a) (Z.of_nat n)) (p, set_table r l m)) as [res [p' m']].
  destruct IH as (H1 & H2 & H3 & H4); [lia|]. split; [done|]. split; [done|]. split; [done|].
  intros Hr. rewrite (H4 Hr), table_set_table. lia.
Qed.
(** Null blocks at the end of a table. *)
Lemma good_extend_nulls r n p m : I (p, m) → I (p, set_table r (table r m ++ replicate n 0) m).
Proof.
  intros Hi. apply (good_nulls r _ p m); [done| |rewrite zlen_app; pose proof (zlen_nonneg (replicate n 0)); lia].
  by rewrite filter_app, proper_replicate_null, app_nil_r.
Qed.

Lemma keeps_record_last_state s r prev p m :
  I (p, m) → ∃ m', record_last_state s r prev (p, m) = (Ok tt, (p, m')) ∧ I (p, m')
  ∧ req_to_blocks m' = req_to_blocks m ∧ params m' = params m ∧ allocated_block_reqs m' = allocated_block_reqs m.
Proof.
  intros Hi. assert (∀ v, I (p, set_last v m)) as Hv by (intros v; apply (good_attr p m); [done..|by left]).
  unfold record_last_state. rewrite bind_get_st. unfold modify_m, modify, ret. by repeat case_match; eexists.
Qed.

(** The filled table is shorter than what the step needs. *)
Lemma keeps_fill_skipped s r prev need p m :
  I (p, m) → kv_cache_spec m = MambaSpec s → prev = zlen (table r m) → prev < need → num_speculative_blocks s < need →
  let '(res, (p', m')) := fill_skipped s r prev (need - num_speculative_blocks s - 1) (p, m) in
  I (p', m') ∧ (res = Ok tt → zlen (table r m') < need).
Proof.
  intros Hi Hs -> Hlt Hcd. pose proof (good_ok _ _ _ _ Hi) as [Hwf _ _ Hsp]. simpl in Hwf, Hsp.
  rewrite Hs in Hwf. destruct Hwf as [_ Hns]. specialize (Hsp s r Hs). set (sk := need - num_speculative_blocks s - 1).
  unfold fill_skipped. rewrite bind_get_st, (good_null _ _ Hi). unfold extend, modify_m. rewrite bind_modify.
  set (m1 := set_table r _ m). apply (good_extend_nulls r (Z.to_nat (sk - zlen (table r m)))) in Hi. fold m1 in Hi.
  assert (zlen (table r m1) = Z.max (zlen (table r m)) sk) as Hlen.
  { unfold m1. rewrite table_set_table, zlen_app, zlen_replicate. lia. }
  case_bool_decide as Hr; [|by split; [|intros _; lia]]. destruct (Hsp Hr) as [_ Hsp'].
  pose proof (keeps_reuse_loop r sk (zlen (table r m) - num_speculative_blocks s) (Z.to_nat (num_speculative_blocks s)) p m1 Hi) as H.
  rewrite Z2Nat.id in H by done. destruct (reuse_loop _ _ _ _) as [res [p' m']].
  destruct H as (Hi' & _ & _ & Hl); [lia|]. split; [done|]. intros Hr'. rewrite (Hl Hr'), Hlen. lia.
Qed.

Lemma keeps_align_allocate_new_blocks s r n p m :
  I (p, m) → kv_cache_spec m = MambaSpec s → is_align s = true → 0 < n → keeps (align_allocate_new_blocks use_int s r n (p, m)).
Proof.
  intros Hi Hs Hal Hn. pose proof (good_ok _ _ _ _ Hi) as [_ Hbs _ _]. simpl in Hbs.
  apply (good_touch_table r) in Hi. unfold align_allocate_new_blocks. unfold modify_m at 1. rewrite bind_modify, bind_get_st. cbv zeta.
  set (m0 := touch_table r m) in *. set (prev := zlen (table r m0)).
  set (need := cdiv n (block_size m0) + num_speculative_blocks s).
  assert (0 < cdiv n (block_size m0)) as Hcd.
  { pose proof (cdiv_spec n (block_size m0) Hbs). assert (0 < block_size m0) by done. nia. }
  destruct (need =? prev); [by apply post_ret|].
  eapply post_bind; [by apply post_lift|]. intros [] s' Hs' _ Hgt. injection Hs' as _ <-.
  unfold rassert in Hgt. rewrite Z.gtb_ltb in Hgt. destruct (Z.ltb_spec prev need) as [Hlt|]; [|done]. clear Hgt.
  destruct (keeps_record_last_state s r prev p m0 Hi) as (m1 & Hrec & Hi1 & Ht & Hq & Ha).
  rewrite (bind_run _ _ _ _ _ Hrec). injection Hq as Hs1 _ _ _.
  assert (prev = zlen (table r m1)) as Hprev by (unfold prev, table; by rewrite Ht).
  pose proof (keeps_fill_skipped s r prev need p m1 Hi1) as Hfill.
  destruct (fill_skipped _ _ _ _ _) as [res [p2 m2]] eqn:Ef.
  destruct Hfill as [Hi2 Hlen]; [by rewrite Hs1|done|done|unfold need; lia|].
  destruct res as [[]|e]; [rewrite (bind_run _ _ _ _ _ Ef)|by rewrite (bind_fail _ _ _ _ _ Ef)].
  specialize (Hlen eq_refl). rewrite bind_get_st. eapply post_bind; [by apply post_lift|].
  intros [] s' Hs' _ _. injection Hs' as _ <-.
  apply (keeps_get_extend r _ (λ l, modify_m (λ m, set_allocated ({[r]} ∪ allocated_block_reqs m) m) ;;; _)); [done|lia|].
  intros l p3 m3 -> Hl Hi3. unfold modify_m. rewrite bind_modify, bind_get_st. apply post_ret; [|done].
  apply (good_attr p3 _ _ Hi3); [done|done|]. intros sp r' Hsp' [->%elem_of_singleton|Hr']%elem_of_union; [right|by left].
  rewrite table_set_table, zlen_app, Hl. assert (sp = s) as ->; [|split; [done|lia]].
  simpl in Hsp'. pose proof (good_params _ _ _ _ Hi2) as H2. pose proof (good_params _ _ _ _ Hi1) as H1. simpl in H1, H2.
  unfold params in H1, H2. simpl in *. congruence.
Qed.

Lemma keeps_allocate_new_blocks r n main p m : I (p, m) → 0 < main → keeps (allocate_new_blocks use_int r n main (p, m)).
Proof.
  intros Hi Hm. unfold allocate_new_blocks. rewrite bind_get_st.
  destruct (kv_cache_spec m) eqn:Hs; try by apply keeps_base_allocate_new_blocks.
  case_match; [by apply keeps_align_allocate_new_blocks|]. by apply keeps_base_allocate_new_blocks.
Qed.
(** *** Freeing *)

Lemma good_delete r p p' m :
  I (p, m) → (∀ s, kv_cache_spec m = MambaSpec s → r ∉ allocated_block_reqs m) →
  held p' (others r m ⊎ u) → config p' = config p → I (p', set_tables (delete r (req_to_blocks m)) m).
Proof.
  intros [_ [H1 H2 H3 H4] Hc Hq] Hr Hh' Hcc. split; simpl in *; [done| |congruence|done].
  split; [done|done|intros r'; specialize (H3 r')|intros s r' Hs Hr'; specialize (H4 s r' Hs Hr'); specialize (Hr s Hs)];
    unfold table, set_tables in *; simpl in *; (destruct (decide (r' = r)) as [->|?];
      [rewrite lookup_delete_eq; simpl|by rewrite lookup_delete_ne]); [by rewrite filter_nil; constructor|done].
Qed.

Lemma keeps_base_free r p m :
  I (p, m) → (∀ s, kv_cache_spec m = MambaSpec s → r ∉ allocated_block_reqs m) → keeps (base_free r (p, m)).
Proof.
  intros Hi Hr. destruct (good_split r p m Hi) as [Hh Hnd].
  rewrite <- (bag_perm (reverse (table r m)) (table r m)) in Hh by apply reverse_Permutation.
  rewrite <- (assoc_L (⊎)) in Hh.
  destruct (held_release p _ (reverse (table r m)) Hh) as (p' & Hp' & Hh' & Hc & _).
  { by rewrite reverse_Permutation. }
  unfold base_free. rewrite bind_get_st. unfold modify_m at 1. rewrite bind_modify.
  rewrite (bind_run _ _ _ tt (p', set_tables (delete r (req_to_blocks m)) m)) by (unfold on_fst; by rewrite Hp').
  apply post_modify, (good_attr p' (set_tables (delete r (req_to_blocks m)) m)); [|done|done|by left].
  by apply (good_delete r p).
Qed.

Lemma keeps_free r p m : I (p, m) → keeps (free r (p, m)).
Proof.
  intros Hi. unfold free. rewrite bind_get_st. destruct (kv_cache_spec m) as [| | | | |s| |] eqn:Hs;
    try by apply keeps_base_free; [|intros s; rewrite Hs].
  destruct (is_align s) eqn:Ha.
  - unfold modify_m. rewrite bind_modify. apply keeps_base_free.
    + apply (good_attr p m); [done..|]. intros s' r' _. simpl. rewrite elem_of_difference. tauto.
    + intros s' _. simpl. rewrite elem_of_difference, elem_of_singleton. tauto.
  - change (keeps (base_free r (p, m))). apply keeps_base_free; [done|]. intros s' Hs' Hr.
    destruct (ok_spare _ (good_ok _ _ _ _ Hi) s r Hs Hr) as [? _]. congruence.
Qed.

Lemma skip_loop_spec n l removed l' :
  (n ≤ length l)%nat → skip_loop 0 n l = (removed, l') →
  filter proper l ≡ₚ filter proper (removed ++ l') ∧ length l' = length l.
Proof.
  revert l removed l'. induction n as [|n IH]; intros l removed l' Hn; simpl; [by intros [= <- <-]|].
  destruct (lookup_lt_is_Some_2 l n) as [b Hb]; [lia|]. rewrite Hb. case_decide; [by intros [= <- <-]|].
  destruct (skip_loop 0 n (<[n := 0]> l)) as [rm l2] eqn:E. intros [= <- <-].
  destruct (IH (<[n := 0]> l) rm l2) as [Hp Hl]; [rewrite length_insert; lia|done|].
  rewrite length_insert in Hl. split; [|done]. rewrite (proper_insert_null l n b Hb). simpl. rewrite !filter_cons.
  by case_decide; rewrite Hp.
Qed.

Lemma keeps_base_remove_skipped_blocks r n p m : I (p, m) → keeps (base_remove_skipped_blocks r n (p, m)).
Proof.
  intros Hi. unfold base_remove_skipped_blocks. rewrite bind_get_st. cbv zeta. case_match; [by apply post_ret|].
  rewrite (good_null _ _ Hi). destruct (skip_loop _ _ _) as [removed l] eqn:E.
  apply skip_loop_spec in E as [Hp Hl]; [|unfold zlen; lia].
  destruct (release_run r l removed p m Hi Hp) as (p' & Hp' & Hi' & _); [unfold zlen; lia|].
  unfold modify_m. rewrite bind_modify. unfold on_fst. rewrite Hp'. by apply post_ret.
Qed.

Lemma keeps_mamba_remove_skipped_blocks s r n p m : I (p, m) → keeps (mamba_remove_skipped_blocks s r n (p, m)).
Proof.
  intros Hi. unfold mamba_remove_skipped_blocks. cbv zeta. eapply post_bind; [by apply keeps_base_remove_skipped_blocks|].
  intros [] [p1 m1] _ Hi1 _. rewrite bind_get_st. destruct (is_align s); [|by apply post_ret].
  destruct (last_state_block_idx m1 !! r) as [idx|]; [|by apply post_ret]. case_match; [|by apply post_ret].
  unfold modify_m at 1. rewrite bind_modify. apply (good_touch_table r) in Hi1. rewrite (good_null _ _ Hi1).
  set (m2 := touch_table r m1) in *. assert (table r m1 = table r m2) as -> by (unfold m2; by rewrite table_touch_table).
  destruct (py_index (table r m2) idx) as [b|e] eqn:Eb; [|by rewrite (bind_fail _ _ _ e (p1, m2)) by (unfold lift; by rewrite ?Eb)].
  rewrite (bind_run _ _ _ b (p1, m2)) by (unfold lift; by rewrite ?Eb). case_decide; [by apply post_ret|].
  destruct (py_index_set _ _ _ 0 Eb) as (j & Hj & Hset).
  destruct (release_run r (<[j := 0]> (table r m2)) [b] p1 m2 Hi1) as (p' & Hp' & Hi' & _).
  { by rewrite (proper_insert_null _ _ _ Hj). }
  { unfold zlen. by rewrite length_insert. }
  rewrite (bind_run _ _ _ tt (p', m2)) by (unfold on_fst; by rewrite Hp'). rewrite Hset.
  by apply post_modify.
Qed.

(** *** The other operations *)

Lemma keeps_get_num_blocks_to_allocate r n hits total main p m :
  I (p, m) → keeps (get_num_blocks_to_allocate r n hits total main (p, m)).
Proof.
  intros Hi. unfold get_num_blocks_to_allocate, mamba_num_blocks_to_allocate. rewrite bind_get_st.
  destruct (kv_cache_spec m); try by apply (post_weaken _ _ _ _ (post_lift _ _ _ Hi)).
  rewrite bind_get_st. case_match; [by apply post_ret|]. case_match; [|by apply (post_weaken _ _ _ _ (post_lift _ _ _ Hi))].
  unfold modify_m. rewrite bind_modify. by apply post_ret; [apply (good_touch_table r)|].
Qed.

Lemma keeps_get_num_common_prefix_blocks r p m : I (p, m) → keeps (get_num_common_prefix_blocks r (p, m)).
Proof.
  intros Hi. unfold get_num_common_prefix_blocks. rewrite bind_get_st. case_match; [|by apply post_ret].
  unfold modify_m. rewrite bind_modify, bind_get_st. by apply post_ret; [apply (good_touch_table r)|].
Qed.

Lemma keeps_new_step_starts p m : I (p, m) → keeps (new_step_starts (p, m)).
Proof. intros Hi. apply post_modify. by destruct (kv_cache_spec m); [..|apply (good_attr p m); [done..|by left]| |]. Qed.
Lemma keeps_remove_skipped_blocks r n p m : I (p, m) → keeps (remove_skipped_blocks r n (p, m)).
Proof.
  intros Hi. unfold remove_skipped_blocks. rewrite bind_get_st.
  destruct (kv_cache_spec m); by apply keeps_base_remove_skipped_blocks || by apply keeps_mamba_remove_skipped_blocks.
Qed.

(** Caching, with the request in the state. *)
Abbreviation I2 := (λ s : (BlockPool.t * request) * t, I (s.1.1, s.2)).

Lemma good_pool p p' m : I (p, m) → same_refs p p' → (∃ free, inv p' free none) → I (p', m).
Proof.
  intros [Hh Ho Hc Hq] Hs Hi. split; simpl in *; [by apply (held_same p)| done| |done]. destruct Hs as [Hcc _]. congruence.
Qed.

Lemma table_blocks r p m b : I (p, m) → b ∈ table r m → b ∈ blocks p.
Proof.
  intros Hi Hb. destruct (good_split r p m Hi) as [[_ _ Hd] _]. apply Hd.
  rewrite !gmultiset_elem_of_disj_union, elem_of_bag. by left; left.
Qed.

Lemma keeps_cache_full_blocks r n k bsz g p rq m :
  I (p, m) → post I2 (λ _, True) (on_fst (cache_full_blocks use_int (table r m) n k bsz g) ((p, rq), m)).
Proof.
  intros Hi. pose proof (good_held _ _ _ _ Hi) as [[free Hf] _ _].
  destruct (cache_full_blocks_inv use_int (table r m) n k bsz g p rq free Hf) as [Hi' Hs].
  { intros b Hb. by apply (table_blocks r p m). }
  unfold on_fst. destruct (cache_full_blocks _ _ _ _ _ _ _) as [res [p' rq']]. simpl in *. split; [|done].
  apply (good_pool p); [done|done|by exists free].
Qed.

Lemma keeps_base_cache_blocks r n p rq m : I (p, m) → post I2 (λ _, True) (base_cache_blocks use_int r n ((p, rq), m)).
Proof.
  intros Hi. unfold base_cache_blocks. rewrite bind_get_st. cbv zeta. case_match; [by apply post_ret|].
  unfold modify_m at 1. rewrite bind_modify. apply (good_touch_table r) in Hi. rewrite <- (table_touch_table r r).
  eapply post_bind; [by apply keeps_cache_full_blocks|]. intros [] [[p1 rq1] m1] _ Hi1 _. apply post_modify.
  simpl. by apply (good_attr p1 m1); [..|by left].
Qed.

Lemma keeps_cache_blocks r n p rq m : I (p, m) → post I2 (λ _, True) (cache_blocks use_int r n ((p, rq), m)).
Proof.
  intros Hi. unfold cache_blocks. rewrite bind_get_st.
  destruct (kv_cache_spec m); [by apply keeps_base_cache_blocks..| |by apply post_raise|by apply keeps_base_cache_blocks].
  unfold mamba_cache_blocks. rewrite bind_get_st. cbv zeta.
  eapply post_bind; [by apply keeps_base_cache_blocks|]. intros [] [[p1 rq1] m1] _ Hi1 _. rewrite bind_get_st.
  case_match; [|by apply post_ret]. unfold modify_m at 1. rewrite bind_modify. simpl in Hi1. apply (good_touch_table r) in Hi1.
  apply post_for_each; [|done]. intros b [[p2 rq2] m2] _ Hi2. unfold note_cached. rewrite bind_get_st. simpl in Hi2.
  case_match; [by apply post_ret|]. case_match; [|by apply post_raise]. apply post_modify. simpl.
  by apply (good_attr p2 m2); [..|by left].
Qed.

End keeps.
End Manager.
