(* ===== verification/CacheCoordinator.v ===== *)
(** [vllm/v1/core/kv_cache_coordinator.py]: the managers of the groups of a model on one
    block pool, and the search of a prefix-cache hit that all groups share. *)
From stdpp Require Import gmap gmultiset strings.
From S2P Require Export SingleTypeManager.
From stdpp Require Import options.
Import BlockHash KVSpec.
Open Scope Z_scope.

Module Coordinator.

(** The three subclasses with the attributes that they add. *)
Inductive variant :=
  | NoPrefixCache
  | Unitary (spec : KVCacheSpec) (block_size dcp_world_size pcp_world_size : Z)
  | Hybrid (hash_block_size : Z) (attention_groups : list (KVCacheSpec * list Z)) (lcm_block_size : Z).

Record t := Coord {
  kind : variant;
  use_eagle : bool;
  block_pool : BlockPool.t;
  single_type_managers : list Manager.t
}.

Definition set_state (p : BlockPool.t) (ms : list Manager.t) (c : t) : t := Coord (kind c) (use_eagle c) p ms.

(** ** Calls on every manager *)

(** [for i, manager in enumerate(managers): f(i)], with what the calls return. *)
Fixpoint run_managers {X A} (f : Z → py (X * Manager.t) A) (i : Z) (ms : list Manager.t) (x : X)
    : result (list A) * (X * list Manager.t) :=
  match ms with
  | [] => (Ok [], (x, []))
  | m :: rest =>
      match f i (x, m) with
      | (Ok a, (x, m)) =>
          let '(r, (x, rest)) := run_managers f (i + 1) rest x in
          (rbind r (λ l, Ok (a :: l)), (x, m :: rest))
      | (Raise e, (x, m)) => (Raise e, (x, m :: rest))
      end
  end.

Definition on_managers {A} (f : Z → py (BlockPool.t * Manager.t) A) : py t (list A) := λ c,
  let '(r, (p, ms)) := run_managers f 0 (single_type_managers c) (block_pool c) in (r, set_state p ms c).

Section coordinator.
Context (use_int : bool).

(** ** Construction *)

(** [verify_and_split_kv_cache_groups]: the groups of equal specs, full attention first. *)
Fixpoint add_group (i : Z) (spec : KVCacheSpec) (groups : list (KVCacheSpec * list Z)) : list (KVCacheSpec * list Z) :=
  match groups with
  | [] => [(spec, [i])]
  | (s, ids) :: rest => if decide (s = spec) then (s, ids ++ [i]) :: rest else (s, ids) :: add_group i spec rest
  end.

Fixpoint split_groups (i : Z) (specs : list KVCacheSpec) (groups : list (KVCacheSpec * list Z))
    : list (KVCacheSpec * list Z) :=
  match specs with
  | [] => groups
  | spec :: rest => split_groups (i + 1) rest (add_group i spec groups)
  end.

Definition full_first (groups : list (KVCacheSpec * list Z)) : list (KVCacheSpec * list Z) :=
  filter (λ g, is_full g.1 = true) groups ++ filter (λ g, is_full g.1 = false) groups.

Definition hybrid_variant (specs : list KVCacheSpec) (hash_block_size dcp_world_size pcp_world_size : Z)
    : result variant :=
  let! rems := map_result (λ s, py_mod (block_size s) hash_block_size) specs in
  let! _ := rassert (forallb (Z.eqb 0) rems) in
  let! _ := rassert (dcp_world_size =? 1) in
  let! _ := rassert (pcp_world_size =? 1) in
  let groups := split_groups 0 specs [] in
  let! _ := rassert (1 <? zlen groups) in
  Ok (Hybrid hash_block_size (full_first groups) (foldr Z.lcm 1 ((λ g, block_size g.1) <$> groups))).

Definition unitary_variant (specs : list KVCacheSpec) (hash_block_size dcp_world_size pcp_world_size : Z)
    : result variant :=
  let! spec := py_index specs 0 in
  let bs := block_size spec in
  let bs := if 1 <? dcp_world_size then bs * dcp_world_size else bs in
  let bs := if 1 <? pcp_world_size then bs * pcp_world_size else bs in
  let! _ := rassert (hash_block_size =? bs) in
  let! _ := rassert (zlen specs =? 1) in
  Ok (Unitary spec bs dcp_world_size pcp_world_size).

(** The base class's [__init__]. *)
Fixpoint create_managers (i : Z) (specs : list KVCacheSpec) (enable_caching : bool) (dcp pcp : Z)
    : py BlockPool.t (list Manager.t) :=
  match specs with
  | [] => ret []
  | spec :: rest =>
      let* m := Manager.create spec enable_caching i dcp pcp in
      let* ms := create_managers (i + 1) rest enable_caching dcp pcp in
      ret (m :: ms)
  end.

(** [get_kv_cache_coordinator]. *)
Definition create (num_blocks : Z) (specs : list KVCacheSpec) (use_eagle enable_caching enable_kv_cache_events : bool)
    (dcp_world_size pcp_world_size hash_block_size : Z) : result t :=
  let! p := BlockPool.create num_blocks enable_caching hash_block_size enable_kv_cache_events in
  let '(r, p) := create_managers 0 specs enable_caching dcp_world_size pcp_world_size p in
  let! ms := r in
  let! v :=
    (if negb enable_caching then Ok NoPrefixCache
     else if zlen specs =? 1 then unitary_variant specs hash_block_size dcp_world_size pcp_world_size
     else hybrid_variant specs hash_block_size dcp_world_size pcp_world_size) in
  Ok (Coord v use_eagle p ms).

(** ** Allocating and freeing *)

Definition get_num_blocks_to_allocate (request_id : string) (num_tokens : Z)
    (new_computed_blocks : list (list loc)) (num_encoder_tokens total_computed_tokens num_tokens_main_model : Z)
    : py t Z :=
  let* l := on_managers (λ i,
    let* (_, m) := get_st in
    if is_cross (Manager.kv_cache_spec m)
    then Manager.get_num_blocks_to_allocate request_id num_encoder_tokens [] 0 num_encoder_tokens
    else
      let* blocks := lift (py_index new_computed_blocks i) in
      Manager.get_num_blocks_to_allocate request_id num_tokens blocks total_computed_tokens num_tokens_main_model) in
  ret (foldr Z.add 0 l).

Definition allocate_new_computed_blocks (request_id : string) (new_computed_blocks : list (list loc))
    (num_local_computed_tokens num_external_computed_tokens : Z) : py t unit :=
  let* _ := on_managers (λ i,
    let* blocks := lift (py_index new_computed_blocks i) in
    Manager.allocate_new_computed_blocks use_int request_id blocks
      num_local_computed_tokens num_external_computed_tokens) in
  ret tt.

Definition allocate_new_blocks (request_id : string) (num_tokens num_tokens_main_model num_encoder_tokens : Z)
    : py t (list (list loc)) :=
  on_managers (λ _,
    let* (_, m) := get_st in
    Manager.allocate_new_blocks use_int request_id
      (if is_cross (Manager.kv_cache_spec m) then num_encoder_tokens else num_tokens) num_tokens_main_model).

(** The request is part of the state: its memo of hashes grows. *)
Definition cache_blocks (request_id : string) (num_computed_tokens : Z) : py (t * request) unit := λ '(c, r),
  let '(res, ((p, r), ms)) :=
    run_managers (λ _, Manager.cache_blocks use_int request_id num_computed_tokens) 0
      (single_type_managers c) (block_pool c, r) in
  (rbind res (λ _, Ok tt), (set_state p ms c, r)).

Definition free (request_id : string) : py t unit :=
  let* _ := on_managers (λ _, Manager.free request_id) in ret tt.

Definition remove_skipped_blocks (request_id : string) (total_computed_tokens : Z) : py t unit :=
  let* _ := on_managers (λ _, Manager.remove_skipped_blocks request_id total_computed_tokens) in ret tt.

Definition new_step_starts : py t unit :=
  let* _ := on_managers (λ _, Manager.new_step_starts) in ret tt.

Definition get_num_common_prefix_blocks (running_request_id : string) : py t (list Z) :=
  let* c := get_st in
  match kind c with
  | NoPrefixCache => ret (replicate (length (single_type_managers c)) 0)
  | _ => on_managers (λ _, Manager.get_num_common_prefix_blocks running_request_id)
  end.

Definition get_blocks (request_id : string) (c : t) : list (list loc) :=
  Manager.table request_id <$> single_type_managers c.

(** ** [find_longest_cache_hit] *)

Section hybrid.
Context (p : BlockPool.t) (eagle : bool) (block_hashes : list (list Z)) (hash_block_size lcm_block_size : Z).

Definition get_block_hashes (spec : KVCacheSpec) : result HashList.t :=
  if block_size spec =? hash_block_size then Ok (HashList.Plain block_hashes)
  else
    let! m := py_mod (block_size spec) hash_block_size in
    let! _ := rassert (m =? 0) in
    Ok (HashList.Scaled block_hashes (block_size spec `div` hash_block_size)).

(** [for group_id, blocks in zip(group_ids, hit_blocks): hit_blocks_by_group[group_id] = blocks]. *)
Definition store_hits (ids : list Z) (hits : list (list loc)) (by_group : list (option (list loc)))
    : list (option (list loc)) :=
  foldl (λ bg '(g, blocks), <[Z.to_nat g := Some blocks]> bg) by_group (zip ids hits).

(** One attention group in a pass: it accepts or reduces the length. *)
Definition group_step (spec : KVCacheSpec) (ids : list Z) (curr_hit_length : Z) (by_group : list (option (list loc)))
    : result (Z * list (option (list loc))) :=
  let! first := py_index ids 0 in
  let! cached_blocks := py_index by_group first in
  if is_full spec && bool_decide (is_Some cached_blocks)
  then Ok (curr_hit_length `div` block_size spec * block_size spec, by_group)
  else
    let! hashes := get_block_hashes spec in
    let! hits := CacheHit.find_longest_cache_hit p ids hashes curr_hit_length spec eagle lcm_block_size 1 1 in
    let! hit := py_index hits 0 in
    Ok (zlen hit * block_size spec, store_hits ids hits by_group).

Fixpoint group_pass (groups : list (KVCacheSpec * list Z)) (curr_hit_length : Z) (by_group : list (option (list loc)))
    : result (Z * list (option (list loc))) :=
  match groups with
  | [] => Ok (curr_hit_length, by_group)
  | (spec, ids) :: rest =>
      let! (curr, by_group) := group_step spec ids curr_hit_length by_group in
      group_pass rest curr by_group
  end.

(** The passes until no group reduces the length, or one pass only; [None] is a loop that
    the fuel does not suffice for. *)
Fixpoint hit_loop (simple : bool) (groups : list (KVCacheSpec * list Z)) (fuel : nat) (hit_length : Z)
    (by_group : list (option (list loc))) : result (option (Z * list (option (list loc)))) :=
  match fuel with
  | O => Ok None
  | S fuel =>
      let! (curr, by_group) := group_pass groups hit_length by_group in
      if curr >=? hit_length then Ok (Some (hit_length, by_group))
      else if simple then Ok (Some (curr, by_group))
      else hit_loop simple groups fuel curr by_group
  end.

(** The blocks of the first group are cut to the length, when it is one of full attention. *)
Definition truncate_full (groups : list (KVCacheSpec * list Z)) (hit_length : Z) (by_group : list (option (list loc)))
    : result (list (option (list loc))) :=
  let! (spec, ids) := py_index groups 0 in
  if is_full spec then
    let n := Z.to_nat (hit_length `div` block_size spec) in
    Ok (foldl (λ bg g, alter (fmap (take n)) (Z.to_nat g) bg) by_group ids)
  else Ok by_group.

Definition hybrid_hit (groups : list (KVCacheSpec * list Z)) (num_groups fuel : nat) (max_cache_hit_length : Z)
    : result (option (list (list loc) * Z)) :=
  let simple := (zlen groups =? 2) && match groups with (s, _) :: _ => is_full s | [] => false end in
  let! o := hit_loop simple groups fuel max_cache_hit_length (replicate num_groups None) in
  match o with
  | None => Ok None
  | Some (hit_length, by_group) =>
      let! by_group := truncate_full groups hit_length by_group in
      Ok (Some (default [] <$> by_group, hit_length))
  end.
End hybrid.

(** A pass for every length from the given one down to zero. *)
Definition find_longest_cache_hit (block_hashes : list (list Z)) (max_cache_hit_length : Z) (c : t)
    : result (option (list (list loc) * Z)) :=
  match kind c with
  | NoPrefixCache => Ok (Some (replicate (length (single_type_managers c)) [], 0))
  | Unitary spec bs dcp pcp =>
      let! hits := CacheHit.find_longest_cache_hit (block_pool c) [0] (HashList.Plain block_hashes)
                     max_cache_hit_length spec (use_eagle c) bs dcp pcp in
      let! hit := py_index hits 0 in
      Ok (Some (hits, zlen hit * bs))
  | Hybrid hbs groups lcm =>
      hybrid_hit (block_pool c) (use_eagle c) block_hashes hbs lcm groups (length (single_type_managers c))
        (S (S (Z.to_nat max_cache_hit_length))) max_cache_hit_length
  end.
End coordinator.

(** ** The references of all tables *)

Import Held.

Definition all_uses (ms : list Manager.t) : gmultiset loc := foldr (λ m u, Manager.uses m ⊎ u) ∅ ms.

Lemma elem_of_all_uses b ms : b ∈ all_uses ms ↔ ∃ m r, m ∈ ms ∧ b ∈ Manager.table r m.
Proof.
  induction ms as [|m ms IH]; simpl.
  - split; [by intros ?%gmultiset_not_elem_of_empty|]. by intros (m & r & ?%elem_of_nil & _).
  - rewrite gmultiset_elem_of_disj_union, Manager.elem_of_uses, IH. split.
    + intros [[r Hb]|(m' & r & Hm & Hb)]; [exists m, r; by split; [left|]|exists m', r; by split; [right|]].
    + intros (m' & r & [->|Hm]%elem_of_cons & Hb); [left; by exists r|right; by exists m', r].
Qed.

(** The invariant of calls on all managers; [u] are users elsewhere. *)
Record good_all (u : gmultiset loc) (c : Z * bool * Z * list loc * loc * bool)
    (qs : list (KVCacheSpec * Z * bool * Z)) (s : BlockPool.t * list Manager.t) : Prop := GoodAll {
  ga_held : held s.1 (all_uses s.2 ⊎ u);
  ga_ok : Forall Manager.ok s.2;
  ga_config : BlockPool.config s.1 = c;
  ga_params : Manager.params <$> s.2 = qs
}.

Section keeps.
Context (use_int : bool) (c : Z * bool * Z * list loc * loc * bool).

(** The invariant of all managers, seen from the first one. *)
Lemma good_all_head u m ms p qs :
  good_all u c qs (p, m :: ms) → Manager.good (all_uses ms ⊎ u) c (Manager.params m) (p, m) ∧ Forall Manager.ok ms.
Proof.
  intros [Hheld Hok Hc _]. simpl in *. apply Forall_cons in Hok as [Hm Hok]. split; [|done].
  split; [|done|done|done]. simpl. by rewrite (assoc_L (⊎)).
Qed.

Lemma good_all_tail u m ms p q :
  Manager.good (all_uses ms ⊎ u) c q (p, m) → Forall Manager.ok ms →
  good_all (Manager.uses m ⊎ u) c (Manager.params <$> ms) (p, ms).
Proof.
  intros [Hheld _ Hc _] Hok. split; [|done|done|done]. simpl in *. apply (held_nulls _ _ _ Hheld). intros b _.
  rewrite !multiplicity_disj_union. lia.
Qed.

Lemma good_all_cons u m ms p q qs :
  good_all (Manager.uses m ⊎ u) c qs (p, ms) → Manager.ok m → Manager.params m = q → good_all u c (q :: qs) (p, m :: ms).
Proof.
  intros [H1 H2 H3 H4] Hm Hq. split; simpl in *; [|by constructor|done|by rewrite Hq; f_equal].
  apply (held_nulls _ _ _ H1). intros b _. rewrite !multiplicity_disj_union. lia.
Qed.

(** What every manager keeps, all keep; [Hyp] is what the calls on the single managers need. *)
Lemma run_managers_keeps {X A} (pool_of : X → BlockPool.t) (f : Z → py (X * Manager.t) A)
    (Hyp : Z → KVCacheSpec * Z * bool * Z → Prop) ms i x u :
  (∀ i u q x m, Hyp i q → Manager.good u c q (pool_of x, m) →
     post (λ s, Manager.good u c q (pool_of s.1, s.2)) (λ _, True) (f i (x, m))) →
  (∀ (j : nat) m, ms !! j = Some m → Hyp (i + Z.of_nat j) (Manager.params m)) →
  good_all u c (Manager.params <$> ms) (pool_of x, ms) →
  let '(_, (x', ms')) := run_managers f i ms x in good_all u c (Manager.params <$> ms) (pool_of x', ms').
Proof.
  intros Hf. revert i x u. induction ms as [|m ms IH]; intros i x u Hh Hall; [done|]. simpl in *.
  destruct (good_all_head _ _ _ _ _ Hall) as [Hg Hok].
  pose proof (Hh O m eq_refl) as Hh0. rewrite Z.add_0_r in Hh0. destruct (Hf i _ _ x m Hh0 Hg) as [Hg' _].
  destruct (f i (x, m)) as [r [x1 m1]]. simpl in Hg'.
  pose proof (good_all_tail _ _ _ _ _ Hg' Hok) as Hrest. destruct Hg' as [_ Hok1 _ Hq1]. simpl in Hok1, Hq1.
  destruct r as [a|e]; [|by apply good_all_cons].
  assert (∀ (j : nat) m', ms !! j = Some m' → Hyp (i + 1 + Z.of_nat j) (Manager.params m')) as Hh'.
  { intros j m' Hj. replace (i + 1 + Z.of_nat j) with (i + Z.of_nat (S j)) by lia. by apply Hh. }
  specialize (IH (i + 1) x1 _ Hh' Hrest).
  destruct (run_managers f (i + 1) ms x1) as [r [x2 ms2]]. by apply good_all_cons.
Qed.

(** The invariant on the coordinator's state. *)
Definition CI (qs : list (KVCacheSpec * Z * bool * Z)) (s : t) : Prop :=
  good_all ∅ c qs (block_pool s, single_type_managers s).

Lemma keeps_on_managers {A} qs (f : Z → py (BlockPool.t * Manager.t) A) (Hyp : Z → KVCacheSpec * Z * bool * Z → Prop) s :
  (∀ i u q p m, Hyp i q → Manager.good u c q (p, m) → post (Manager.good u c q) (λ _, True) (f i (p, m))) →
  (∀ (j : nat) q, qs !! j = Some q → Hyp (Z.of_nat j) q) →
  CI qs s → post (CI qs) (λ _, True) (on_managers f s).
Proof.
  intros Hf Hh Hi. assert (Manager.params <$> single_type_managers s = qs) as <- by apply Hi. unfold on_managers.
  pose proof (run_managers_keeps (λ p, p) f Hyp (single_type_managers s) 0 (block_pool s) ∅) as H.
  destruct (run_managers f 0 _ _) as [r [p' ms']]. split; [|done]. apply H; [|intros j m Hj|done].
  - intros i u q x m Hq Hg. specialize (Hf i u q x m Hq Hg). destruct (f i (x, m)) as [r' [p'' m'']]. done.
  - apply Hh. by rewrite list_lookup_fmap, Hj.
Qed.

(** The same for operations that need nothing. *)
Lemma keeps_on_managers' {A} qs (f : Z → py (BlockPool.t * Manager.t) A) s :
  (∀ i u q p m, Manager.good u c q (p, m) → post (Manager.good u c q) (λ _, True) (f i (p, m))) →
  CI qs s → post (CI qs) (λ _, True) (on_managers f s).
Proof. intros Hf. apply (keeps_on_managers qs f (λ _ _, True)); [|done]. intros. by apply Hf. Qed.

Lemma coord_keeps_get_num_blocks_to_allocate qs r n hits enc total main s :
  CI qs s → post (CI qs) (λ _, True) (get_num_blocks_to_allocate r n hits enc total main s).
Proof.
  intros Hi. unfold get_num_blocks_to_allocate. eapply post_bind; [|by intros; apply post_ret].
  apply keeps_on_managers'; [|done]. intros i u q p m Hg. rewrite bind_get_st.
  case_match; [by apply Manager.keeps_get_num_blocks_to_allocate|].
  eapply post_bind; [by apply post_lift|]. intros blocks s' Hs' _ _. injection Hs' as _ <-.
  by apply Manager.keeps_get_num_blocks_to_allocate.
Qed.

(** The computed blocks of every group. *)
Definition all_hits_ok (qs : list (KVCacheSpec * Z * bool * Z)) (hits : list (list loc)) (local ext : Z) : Prop :=
  0 ≤ ext ∧ Forall2 (λ q l, NoDup (filter proper l) ∧ (∀ b, b ∈ l → b ∈ c.1.1.2) ∧ zlen l * q.1.1.2 ≤ local) qs hits.

Lemma coord_keeps_allocate_new_computed_blocks qs r hits local ext s :
  CI qs s → all_hits_ok qs hits local ext →
  post (CI qs) (λ _, True) (allocate_new_computed_blocks use_int r hits local ext s).
Proof.
  intros Hi [Hext Hh]. unfold allocate_new_computed_blocks. eapply post_bind; [|by intros; apply post_ret].
  apply (keeps_on_managers _ _ (λ i q, 0 ≤ i ∧ ∀ l, hits !! Z.to_nat i = Some l →
     NoDup (filter proper l) ∧ (∀ b, b ∈ l → b ∈ c.1.1.2) ∧ zlen l * q.1.1.2 ≤ local)); [| |done].
  - intros i u q p m [Hi0 Hl] Hg. eapply post_bind; [by apply post_lift|]. intros l s' Hs' _ Hpi. injection Hs' as _ <-.
    rewrite py_index_nonneg in Hpi by done. apply of_option_ok in Hpi. destruct (Hl l Hpi) as (H1 & H2 & H3).
    apply Manager.keeps_allocate_new_computed_blocks; [done|]. destruct Hg as [_ _ Hc Hq]. simpl in *.
    split; [split; [done|]|split; [by rewrite <- Hq in H3|done]]. intros b Hb. specialize (H2 b Hb). by rewrite <- Hc in H2.
  - intros j q Hq. split; [lia|]. intros l Hl. rewrite Nat2Z.id in Hl. by apply (Forall2_lookup_lr _ _ _ _ _ _ Hh Hq Hl).
Qed.

Lemma coord_keeps_allocate_new_blocks qs r n main enc s :
  CI qs s → 0 < main → post (CI qs) (λ _, True) (allocate_new_blocks use_int r n main enc s).
Proof.
  intros Hi Hm. apply keeps_on_managers'; [|done]. intros i u q p m Hg. rewrite bind_get_st.
  by apply Manager.keeps_allocate_new_blocks.
Qed.

Lemma coord_keeps_free qs r s : CI qs s → post (CI qs) (λ _, True) (free r s).
Proof.
  intros Hi. eapply post_bind; [|by intros; apply post_ret]. apply keeps_on_managers'; [|done].
  intros. by apply Manager.keeps_free.
Qed.

Lemma coord_keeps_remove_skipped_blocks qs r n s : CI qs s → post (CI qs) (λ _, True) (remove_skipped_blocks r n s).
Proof.
  intros Hi. eapply post_bind; [|by intros; apply post_ret]. apply keeps_on_managers'; [|done].
  intros. by apply Manager.keeps_remove_skipped_blocks.
Qed.

Lemma coord_keeps_new_step_starts qs s : CI qs s → post (CI qs) (λ _, True) (new_step_starts s).
Proof.
  intros Hi. eapply post_bind; [|by intros; apply post_ret]. apply keeps_on_managers'; [|done].
  intros. by apply Manager.keeps_new_step_starts.
Qed.

Lemma coord_keeps_get_num_common_prefix_blocks qs r s : CI qs s → post (CI qs) (λ _, True) (get_num_common_prefix_blocks r s).
Proof.
  intros Hi. unfold get_num_common_prefix_blocks. rewrite bind_get_st. case_match; [by apply post_ret|..];
    (apply keeps_on_managers'; [|done]); intros; by apply Manager.keeps_get_num_common_prefix_blocks.
Qed.

Lemma coord_keeps_cache_blocks qs r n s rq :
  CI qs s → let '(_, (s', _)) := cache_blocks use_int r n (s, rq) in CI qs s'.
Proof.
  intros Hi. assert (Manager.params <$> single_type_managers s = qs) as <- by apply Hi. unfold cache_blocks.
  pose proof (run_managers_keeps (λ x : BlockPool.t * request, x.1) (λ _, Manager.cache_blocks use_int r n) (λ _ _, True)
                (single_type_managers s) 0 (block_pool s, rq) ∅) as H.
  destruct (run_managers _ _ _ _) as [res [[p' rq'] ms']]. apply H; [|done|done].
  intros i u q [p rq0] m _ Hg. by apply Manager.keeps_cache_blocks.
Qed.
(** *** Construction *)

Lemma create_managers_spec i specs caching dcp pcp p :
  Forall wf_spec specs →
  ∃ ms, create_managers i specs caching dcp pcp p = (Ok ms, p) ∧ Forall Manager.ok ms ∧ all_uses ms = ∅
  ∧ length ms = length specs.
Proof.
  revert i. induction specs as [|spec specs IH]; intros i Hwf; [by exists []|].
  apply Forall_cons in Hwf as [Hs Hwf]. destruct (IH (i + 1) Hwf) as (ms & Hms & Hok & Hu & Hl).
  set (ws := if 1 <? dcp * pcp then dcp * pcp else 1).
  set (m := Manager.Mgr spec (block_size spec * ws) caching i ∅ ∅ ∅ ∅ ∅ []).
  assert (Manager.create spec caching i dcp pcp p = (Ok m, p)) as Hm by (destruct Hs as [_ ?]; by destruct spec).
  exists (m :: ms). split; [simpl; by rewrite (bind_run _ _ _ _ _ Hm), (bind_run _ _ _ _ _ Hms)|].
  split; [|split; [simpl; by rewrite Hu|simpl; by rewrite Hl]]. constructor; [|done].
  assert (0 < ws) as Hws by (unfold ws; destruct (Z.ltb_spec 1 (dcp * pcp)); lia).
  split; [done|destruct Hs as [? _]; simpl; nia|intros r; unfold Manager.table; simpl; rewrite lookup_empty; constructor|].
  intros s r _ Hr. simpl in Hr. by apply not_elem_of_empty in Hr.
Qed.
End keeps.

Lemma create_CI nb specs eagle caching events dcp pcp hbs s :
  create nb specs eagle caching events dcp pcp hbs = Ok s → Forall wf_spec specs →
  ∃ c qs, CI c qs s ∧ length qs = length specs.
Proof.
  intros Hc Hwf. unfold create in Hc. apply rbind_ok in Hc as (p & Hp & Hc).
  destruct (create_managers_spec 0 specs caching dcp pcp p Hwf) as (ms & Hms & Hok & Hu & Hl).
  rewrite Hms in Hc. simpl in Hc. apply rbind_ok in Hc as (v & _ & [= <-]).
  exists (BlockPool.config p), (Manager.params <$> ms). split; [|by rewrite length_fmap].
  apply BlockPool.create_spec in Hp as (_ & Hi & _ & Hb & _). split; simpl; [|done|done|done]. rewrite Hu.
  split; [by eexists| |].
  - intros b Hin _. by destruct (Hb b Hin) as [_ ->].
  - intros b. rewrite (left_id_L ∅ (⊎)). by intros ?%gmultiset_not_elem_of_empty.
Qed.
End Coordinator.
