(* ===== verification/HybridHit.v ===== *)
(** The fixed-point search of [HybridKVCacheCoordinator.find_longest_cache_hit]: it stops,
    and its answer holds for every group. *)
From stdpp Require Import gmap gmultiset strings.
From S2P Require Export CacheCoordinator.
From stdpp Require Import options.
Import BlockHash KVSpec CacheHit Coordinator.
Open Scope Z_scope.

Module HybridHit.

(** Blocks and chunks have a size. *)
Definition sized (spec : KVCacheSpec) : Prop :=
  0 < block_size spec ∧ ∀ a c, spec = ChunkedLocalAttentionSpec a c → 0 < c.

Section passes.
Context (p : BlockPool.t) (free : list loc) (Hinv : BlockPool.inv p free BlockPool.none).
Context (eagle : bool) (block_hashes : list (list Z)) (hbs lcm : Z).

Abbreviation hits_by_group := (list (option (list loc))).

(** The lists of an attention group: [k] blocks each, null or found. *)
Definition lists (bg : hits_by_group) (spec : KVCacheSpec) (ids : list Z) (k : Z) : Prop :=
  ∀ g, g ∈ ids → ∃ l hs, bg !! Z.to_nat g = Some (Some l)
    ∧ get_block_hashes block_hashes hbs spec = Ok hs ∧ found p hs k g l.

Definition in_range (n : nat) (ids : list Z) : Prop := ∀ g, g ∈ ids → 0 ≤ g < Z.of_nat n.

Lemma store_hits_spec hs k ids hits bg :
  NoDup ids → in_range (length bg) ids → Forall2 (found p hs k) ids hits →
  length (store_hits ids hits bg) = length bg
  ∧ (∀ g, g ∈ ids → ∃ l, store_hits ids hits bg !! Z.to_nat g = Some (Some l) ∧ found p hs k g l)
  ∧ ∀ g, 0 ≤ g → g ∉ ids → store_hits ids hits bg !! Z.to_nat g = bg !! Z.to_nat g.
Proof.
  intros Hnd Hr Hf. revert bg Hr. induction Hf as [|g l ids hits Hl Hf IH]; intros bg Hr.
  { split; [done|]. split; [by intros g ?%elem_of_nil|done]. }
  apply NoDup_cons in Hnd as [Hg Hnd]. unfold store_hits in *. simpl.
  destruct (Hr g ltac:(by left)) as [Hg0 Hgn].
  destruct (IH Hnd (<[Z.to_nat g := Some l]> bg)) as (H1 & H2 & H3).
  { intros x Hx. rewrite length_insert. apply Hr. by right. }
  split; [by rewrite H1, length_insert|]. split.
  - intros x [->|Hx]%elem_of_cons; [|by apply H2]. exists l. split; [|done].
    rewrite H3 by done. apply list_lookup_insert_eq. lia.
  - intros x Hx0 [Hx Hxs]%not_elem_of_cons. rewrite H3 by done. apply list_lookup_insert_ne. lia.
Qed.

(** What a full group knows before a step: nothing yet, or enough blocks. *)
Definition ready (bg : hits_by_group) (curr : Z) (spec : KVCacheSpec) (ids : list Z) : Prop :=
  is_full spec = true →
  (∃ k, curr ≤ k * block_size spec ∧ lists bg spec ids k) ∨ (∀ g, g ∈ ids → bg !! Z.to_nat g = Some None).

Lemma group_step_spec spec ids curr bg curr' bg' :
  sized spec → ids ≠ [] → NoDup ids → in_range (length bg) ids → 0 ≤ curr → ready bg curr spec ids →
  group_step p eagle block_hashes hbs lcm spec ids curr bg = Ok (curr', bg') →
  0 ≤ curr' ≤ curr ∧ length bg' = length bg ∧ (∀ g, 0 ≤ g → g ∉ ids → bg' !! Z.to_nat g = bg !! Z.to_nat g)
  ∧ ∃ k, curr' ≤ k * block_size spec ∧ lists bg' spec ids k ∧ (is_full spec = false → k * block_size spec = curr').
Proof using Hinv.
  intros [Hb Hck] Hne Hnd Hr Hc Hready H. unfold group_step in H. destruct ids as [|g0 ids]; [done|].
  destruct (Hr g0 ltac:(by left)) as [Hg0 Hgn]. change (py_index (g0 :: ids) 0) with (@Ok Z g0) in H. cbn [rbind] in H.
  rewrite py_index_nonneg in H by done. apply rbind_ok in H as (o & Ho%of_option_ok & H).
  destruct (is_full spec && bool_decide (is_Some o)) eqn:E.
  - apply andb_true_iff in E as [Hf [l ->]%bool_decide_eq_true]. injection H as <- <-.
    destruct (Hready Hf) as [(k & Hk & Hl)|Hn]; [|rewrite Hn in Ho by (by left); done].
    pose proof (Z.mul_div_le curr _ Hb). pose proof (Z.div_pos curr _ Hc Hb).
    split; [nia|]. split; [done|]. split; [done|]. exists k. split; [nia|]. split; [done|]. congruence.
  - apply rbind_ok in H as (hs & Hhs & H). apply rbind_ok in H as (hits & Hhit & H).
    apply (find_longest_cache_hit_found p free Hinv) in Hhit as (k & Hk0 & Hk & Hf); [|done|done|done|done].
    destruct (store_hits_spec hs k (g0 :: ids) hits bg Hnd Hr Hf) as (H1 & H2 & H3).
    destruct (column0_found p _ hs k hits Hne Hf) as (l & Hl & Hlen). unfold column0 in Hl. rewrite Hl in H. cbn [rbind] in H.
    injection H as <- <-. rewrite Hlen. split; [nia|]. split; [done|]. split; [done|].
    exists k. split; [lia|]. split; [|done]. intros g Hg. destruct (H2 g Hg) as (l' & ? & ?). by exists l', hs.
Qed.

(** *** A pass *)

Definition groups_ok (n : nat) (groups : list (KVCacheSpec * list Z)) : Prop :=
  Forall (λ g, sized g.1 ∧ g.2 ≠ [] ∧ in_range n g.2) groups ∧ NoDup (concat groups.*2).

Lemma groups_ok_cons n spec ids groups :
  groups_ok n ((spec, ids) :: groups) ↔
  (sized spec ∧ ids ≠ [] ∧ in_range n ids ∧ NoDup ids) ∧ groups_ok n groups
  ∧ ∀ g s i, g ∈ ids → (s, i) ∈ groups → g ∉ i.
Proof.
  unfold groups_ok. rewrite Forall_cons. simpl. rewrite NoDup_app. split.
  - intros [[(H1 & H2 & H3) H4] (H5 & H6 & H7)]. split; [done|]. split; [done|].
    intros g s i Hg Hi Hgi. apply (H6 g Hg). apply list_elem_of_In, in_concat. exists i.
    split; [|by apply list_elem_of_In]. apply list_elem_of_In, list_elem_of_fmap. by exists (s, i).
  - intros [(H1 & H2 & H3 & H4) [[H5 H6] H7]]. split; [done|]. split; [done|]. split; [|done].
    intros g Hg Hc%list_elem_of_In. apply in_concat in Hc as (i & Hi & Hgi).
    apply list_elem_of_In, list_elem_of_fmap in Hi as ([s i'] & -> & Hi). apply list_elem_of_In in Hgi. by apply (H7 g s i').
Qed.

(** What a pass leaves for a group; [exact] when no block can be missing. *)
Definition served (bg : hits_by_group) (curr : Z) (exact : Prop) (g : KVCacheSpec * list Z) : Prop :=
  ∃ k, curr ≤ k * block_size g.1 ∧ lists bg g.1 g.2 k ∧ (is_full g.1 = false → exact → k * block_size g.1 = curr).

Lemma group_pass_spec n groups curr bg curr' bg' :
  groups_ok n groups → length bg = n → 0 ≤ curr → Forall (λ g, ready bg curr g.1 g.2) groups →
  group_pass p eagle block_hashes hbs lcm groups curr bg = Ok (curr', bg') →
  0 ≤ curr' ≤ curr ∧ length bg' = n
  ∧ (∀ g, 0 ≤ g → (∀ s i, (s, i) ∈ groups → g ∉ i) → bg' !! Z.to_nat g = bg !! Z.to_nat g)
  ∧ Forall (λ g, served bg' curr' (curr' = curr ∨ last groups = Some g) g) groups.
Proof using Hinv.
  revert curr bg. induction groups as [|[spec ids] groups IH]; intros curr bg Hok Hlen Hc Hready; simpl.
  { intros [= <- <-]. split; [lia|]. split; [done|]. by split; [|constructor]. }
  apply groups_ok_cons in Hok as ((Hs & Hne & Hr & Hnd) & Hok & Hdis). apply Forall_cons in Hready as [Hr0 Hready].
  intros ([c1 b1] & Hstep & Hpass)%rbind_ok.
  apply group_step_spec in Hstep as (Hc1 & Hl1 & Hsame1 & k & Hk & Hlk & Hex); [|done|done|done|by rewrite Hlen|done|done].
  assert (∀ s i g, (s, i) ∈ groups → g ∈ i → bg !! Z.to_nat g = b1 !! Z.to_nat g) as Hb1.
  { intros s i g Hi Hg. symmetry. apply Hsame1; [|by intros ?; apply (Hdis g s i)].
    destruct Hok as [Hf _]. rewrite Forall_forall in Hf. destruct (Hf (s, i) Hi) as (_ & _ & Hrg). by apply Hrg. }
  assert (Forall (λ g, ready b1 c1 g.1 g.2) groups) as Hready1.
  { apply Forall_forall. intros [s i] Hi Hf. rewrite Forall_forall in Hready.
    destruct (Hready (s, i) Hi Hf) as [(k0 & Hk0 & Hl0)|Hn]; [left; exists k0; split; [lia|]|right]; simpl in *; intros g Hg;
      rewrite <- (Hb1 s i g Hi Hg); auto. }
  destruct (IH c1 b1 Hok ltac:(congruence) ltac:(lia) Hready1 Hpass) as (Hc2 & Hl2 & Hsame2 & Hserved).
  split; [lia|]. split; [done|]. split.
  { intros g Hg Hno. rewrite Hsame2; [apply Hsame1; [done|apply (Hno spec); by left]|done|]. intros s i Hi. apply (Hno s). by right. }
  constructor.
  - exists k. simpl. split; [lia|]. split.
    + intros g Hg. destruct (Hlk g Hg) as (l & hs & Hl & ?). exists l, hs. split; [|done]. rewrite <- Hl.
      apply Hsame2; [by apply Hr|]. intros s i Hi. by apply (Hdis g s i).
    + intros Hf He. rewrite (Hex Hf). destruct He as [He|He]; [lia|]. destruct groups as [|g1 groups]; [by injection Hpass|].
      exfalso. assert ((spec, ids) ∈ g1 :: groups) as Hin.
      { apply last_Some in He as [l' He]. destruct l' as [|x l']; [done|]. injection He as -> ->. apply elem_of_app. right. by left. }
      destruct ids as [|g ids]; [done|]. apply (Hdis g spec (g :: ids)); [by left|done|by left].
  - apply Forall_forall. intros g Hin. rewrite Forall_forall in Hserved.
    destruct (Hserved g Hin) as (k0 & H1 & H2 & H3). exists k0. split; [done|]. split; [done|].
    intros Hf He. apply H3; [done|]. destruct He as [->|He]; [left; lia|right]. destruct groups; [|done]. by apply elem_of_nil in Hin.
Qed.

(** *** The loop *)

(** A second pass may start from where a pass with a smaller length ended. *)
Lemma served_ready bg curr E groups :
  Forall (λ g, served bg curr (E g) g) groups → Forall (λ g, ready bg curr g.1 g.2) groups.
Proof. intros Hs. eapply Forall_impl; [exact Hs|]. intros g (k & Hk & Hl & _) _. left. by exists k. Qed.

(** One group of full attention and one other: a single pass is exact. *)
Definition simple_pair (groups : list (KVCacheSpec * list Z)) : Prop :=
  ∃ g1 g2, groups = [g1; g2] ∧ is_full g1.1 = true.

Lemma hit_loop_spec simple n groups fuel hl bg :
  (simple = true → simple_pair groups) →
  groups_ok n groups → length bg = n → 0 ≤ hl → Forall (λ g, ready bg hl g.1 g.2) groups → (Z.to_nat hl < fuel)%nat →
  match hit_loop p eagle block_hashes hbs lcm simple groups fuel hl bg with
  | Ok (Some (h, bg')) => 0 ≤ h ≤ hl ∧ length bg' = n ∧ Forall (served bg' h True) groups
  | Ok None => False
  | Raise _ => True
  end.
Proof using Hinv.
  intros Hsim Hok. revert hl bg. induction fuel as [|fuel IH]; intros hl bg Hlen Hhl Hready Hfuel; [lia|].
  cbn [hit_loop]. destruct (group_pass p eagle block_hashes hbs lcm groups hl bg) as [[curr bg']|e] eqn:Ep; [|done].
  apply (group_pass_spec n) in Ep as (Hc & Hl & _ & Hserved); [|done..]. cbn [rbind]. rewrite Z.geb_leb.
  destruct (Z.leb_spec hl curr) as [Hle|Hlt].
  { assert (curr = hl) as -> by lia. split; [lia|]. split; [done|]. eapply Forall_impl; [exact Hserved|].
    intros g (k & ? & ? & He). exists k. split; [done|]. split; [done|]. intros Hf _. apply He; [done|by left]. }
  destruct simple.
  - destruct (Hsim eq_refl) as (g1 & g2 & -> & Hf1). split; [lia|]. split; [done|].
    apply Forall_cons in Hserved as [(k1 & ? & ? & _) [(k2 & ? & ? & He) _]%Forall_cons].
    repeat constructor; [exists k1|exists k2]; (split; [done|]); (split; [done|]); [congruence|].
    intros Hf _. apply He; [done|by right].
  - specialize (IH curr bg' Hl ltac:(lia) (served_ready _ _ _ _ Hserved) ltac:(lia)).
    destruct (hit_loop _ _ _ _ _ _ _ _ _ _) as [[[h b]|]|e]; [|done|done]. destruct IH as (? & ? & ?). split; [lia|done].
Qed.
(** *** The loop returns *)

(** What the search of a group needs in order to return. *)
Definition supported (ml : Z) (spec : KVCacheSpec) : Prop :=
  searchable spec eagle lcm ∧ ∃ hs, get_block_hashes block_hashes hbs spec = Ok hs
    ∧ hashed hs (ml `div` block_size spec) ∧ hashed hs (HashList.len hs).

Lemma group_step_returns ml spec ids curr bg :
  sized spec → ids ≠ [] → in_range (length bg) ids → (∀ g, g ∈ ids → g < 2 ^ 32) → 0 ≤ curr ≤ ml → supported ml spec →
  ∃ r, group_step p eagle block_hashes hbs lcm spec ids curr bg = Ok r.
Proof using Hinv.
  intros [Hb Hck] Hne Hr H32 Hc (Hs & hs & Hhs & Hml & Hlen). unfold group_step. destruct ids as [|g0 ids]; [done|].
  destruct (Hr g0 ltac:(by left)) as [Hg0 Hgn]. change (py_index (g0 :: ids) 0) with (@Ok Z g0). cbn [rbind].
  rewrite py_index_nonneg by done. destruct (lookup_lt_is_Some_2 bg (Z.to_nat g0)) as [o Ho]; [lia|]. rewrite Ho. cbn [of_option rbind].
  case_match; [by eexists|]. rewrite Hhs. cbn [rbind].
  destruct (find_longest_cache_hit_returns p free Hinv (g0 :: ids) hs) with (ml := curr) (spec := spec) (eagle := eagle) (al := lcm)
    as [hits Hits]; [|done|done|done|lia| |done|done|].
  { intros g Hg. split; [by apply Hr|by apply H32]. }
  { intros j Hj. apply Hml. pose proof (Z.div_le_mono curr ml _ Hb (proj2 Hc)). lia. }
  rewrite Hits. cbn [rbind]. apply (find_longest_cache_hit_found p free Hinv) in Hits as (k & _ & _ & Hf); [|done|done|done|lia].
  destruct (column0_found p _ hs k hits Hne Hf) as (l & Hl & _). unfold column0 in Hl. rewrite Hl. by eexists.
Qed.

Lemma group_pass_returns ml n groups curr bg :
  groups_ok n groups → length bg = n → Z.of_nat n ≤ 2 ^ 32 → 0 ≤ curr ≤ ml → Forall (λ g, ready bg curr g.1 g.2) groups →
  Forall (λ g, supported ml g.1) groups → ∃ r, group_pass p eagle block_hashes hbs lcm groups curr bg = Ok r.
Proof using Hinv.
  revert curr bg. induction groups as [|[spec ids] groups IH]; intros curr bg Hok Hlen Hn Hc Hready Hsup; [by eexists|]. simpl.
  apply groups_ok_cons in Hok as ((Hs & Hne & Hr & Hnd) & Hok & Hdis).
  apply Forall_cons in Hready as [Hr0 Hready]. apply Forall_cons in Hsup as [Hs0 Hsup].
  destruct (group_step_returns ml spec ids curr bg) as [[c1 b1] Hstep]; [done|done|by rewrite Hlen| |done|done|].
  { intros g Hg. specialize (Hr g Hg). lia. }
  rewrite Hstep. cbn [rbind].
  apply group_step_spec in Hstep as (Hc1 & Hl1 & Hsame & _); [|done|done|done|by rewrite Hlen|lia|done].
  apply IH; [done|congruence|done|lia| |done]. apply Forall_forall. intros [s i] Hi Hf. rewrite Forall_forall in Hready.
  assert (∀ g, g ∈ i → bg !! Z.to_nat g = b1 !! Z.to_nat g) as Hb1.
  { intros g Hg. symmetry. apply Hsame; [|by intros ?; apply (Hdis g s i)].
    destruct Hok as [Hok _]. rewrite Forall_forall in Hok. destruct (Hok (s, i) Hi) as (_ & _ & Hrg). by apply Hrg. }
  destruct (Hready (s, i) Hi Hf) as [(k0 & Hk0 & Hl0)|Hno]; [left; exists k0; split; [lia|]|right]; simpl in *; intros g Hg;
    rewrite <- (Hb1 g Hg); auto.
Qed.

Lemma hit_loop_returns ml simple n groups fuel hl bg :
  groups_ok n groups → length bg = n → Z.of_nat n ≤ 2 ^ 32 → 0 ≤ hl ≤ ml → Forall (λ g, ready bg hl g.1 g.2) groups →
  Forall (λ g, supported ml g.1) groups → ∃ o, hit_loop p eagle block_hashes hbs lcm simple groups fuel hl bg = Ok o.
Proof using Hinv.
  intros Hok. revert hl bg. induction fuel as [|fuel IH]; intros hl bg Hlen Hn Hhl Hready Hsup; [by eexists|]. cbn [hit_loop].
  destruct (group_pass_returns ml n groups hl bg) as [[curr bg'] Ep]; [done..|]. rewrite Ep. cbn [rbind].
  apply (group_pass_spec n) in Ep as (Hc & Hl & _ & Hserved); [|done|done|lia|done].
  case_match; [by eexists|]. destruct simple; [by eexists|].
  apply IH; [done|done|lia| |done]. by apply (served_ready _ _ _ _ Hserved).
Qed.

(** *** The last cut *)

Lemma cut_spec n ids bg :
  NoDup ids → in_range (length bg) ids →
  length (foldl (λ bg g, alter (fmap (take n)) (Z.to_nat g) bg) bg ids) = length bg
  ∧ ∀ g, 0 ≤ g → foldl (λ bg g, alter (fmap (M:=option) (take (A:=loc) n)) (Z.to_nat g) bg) bg ids !! Z.to_nat g
       = (if decide (g ∈ ids) then fmap (M:=option) (fmap (M:=option) (take n)) else id) (bg !! Z.to_nat g).
Proof.
  intros Hnd. revert bg. induction Hnd as [|g0 ids Hg0 Hnd IH]; intros bg Hr; [done|].
  destruct (Hr g0 ltac:(by left)) as [H0 Hn]. simpl.
  destruct (IH (alter (fmap (take n)) (Z.to_nat g0) bg)) as [Hl Hg]; [intros x Hx; rewrite length_alter; apply Hr; by right|].
  split; [by rewrite Hl, length_alter|]. intros g Hge. rewrite Hg by done.
  destruct (decide (g = g0)) as [->|Hne].
  - rewrite decide_False by done. rewrite decide_True by (by left). simpl. by rewrite list_lookup_alter_eq.
  - rewrite list_lookup_alter_ne by lia. destruct (decide (g ∈ ids)) as [Hi|Hi].
    + by rewrite decide_True by (by right).
    + rewrite decide_False; [done|]. by intros [?|?]%elem_of_cons.
Qed.

Lemma lists_exact bg k spec ids h :
  0 < block_size spec → k * block_size spec = h → lists bg spec ids k → lists bg spec ids (h `div` block_size spec).
Proof. intros Hb <-. by rewrite Z.div_mul by lia. Qed.

(** With full attention in the first group only, every group is left with the blocks of the
    common length. *)
Lemma truncate_full_spec n spec ids groups h bg :
  groups_ok n ((spec, ids) :: groups) → length bg = n → 0 ≤ h → Forall (λ g, is_full g.1 = false) groups →
  Forall (served bg h True) ((spec, ids) :: groups) →
  ∃ bg', truncate_full ((spec, ids) :: groups) h bg = Ok bg' ∧ length bg' = n
  ∧ Forall (λ g, lists bg' g.1 g.2 (h `div` block_size g.1)) ((spec, ids) :: groups).
Proof.
  intros Hok Hlen Hh Hnf Hserved. pose proof Hok as [Hall _]. apply groups_ok_cons in Hok as ((Hs & Hne & Hr & Hnd) & _ & Hdis).
  unfold truncate_full. change (py_index ((spec, ids) :: groups) 0) with (@Ok (KVCacheSpec * list Z) (spec, ids)). cbn [rbind].
  assert (∀ g, g ∈ groups → lists bg g.1 g.2 (h `div` block_size g.1)) as Hrest.
  { intros g Hg. rewrite Forall_forall in Hnf, Hserved, Hall.
    destruct (Hserved g ltac:(by right)) as (k & _ & Hl & He). destruct (Hall g ltac:(by right)) as ([Hb _] & _).
    apply (lists_exact _ k); [done|by apply He; [apply Hnf|]|done]. }
  apply Forall_cons in Hserved as [(k & Hk & Hl & He) _]. simpl in *. destruct Hs as [Hb _].
  destruct (is_full spec) eqn:Ef.
  2:{ exists bg. split; [done|]. split; [done|]. constructor; [|by apply Forall_forall]. by apply (lists_exact _ k); [|apply He|]. }
  set (m := Z.to_nat (h `div` block_size spec)). destruct (cut_spec m ids bg Hnd) as [Hl2 Hcut]; [by rewrite Hlen|].
  eexists. split; [reflexivity|]. split; [congruence|]. constructor; [|apply Forall_forall; intros [s i] Hg]; simpl.
  - intros g Hg. destruct (Hl g Hg) as (l & hs & Hbg & Hhs & Hf). exists (take m l), hs.
    rewrite Hcut, decide_True, Hbg by (done || by apply Hr). split; [done|]. split; [done|].
    apply (found_take p hs k m) in Hf. pose proof (Z.div_pos h _ Hh Hb).
    assert (h `div` block_size spec ≤ k) by (apply Z.div_le_upper_bound; lia).
    by replace (Z.min (Z.of_nat m) k) with (h `div` block_size spec) in Hf by (unfold m; lia).
  - intros g Hgi. destruct (Hrest (s, i) Hg g Hgi) as (l & hs & Hbg & ?). exists l, hs. split; [|done].
    rewrite Hcut, decide_False; [done|by intros ?; apply (Hdis g s i)|].
    rewrite Forall_forall in Hall. destruct (Hall (s, i) ltac:(by right)) as (_ & _ & Hri). by apply Hri.
Qed.
End passes.

(** ** The groups of equal specs *)

Section groups.
Context (specs : list KVCacheSpec).

Definition positions (n : Z) (s : KVCacheSpec) : list Z :=
  filter (λ j, specs !! Z.to_nat j = Some s) (seqZ 0 n).

Lemma elem_of_positions n s g : g ∈ positions n s ↔ 0 ≤ g < n ∧ specs !! Z.to_nat g = Some s.
Proof. unfold positions. rewrite list_elem_of_filter, elem_of_seqZ. intuition lia. Qed.

Lemma positions_S (n : nat) x s :
  specs !! n = Some x →
  positions (Z.of_nat (S n)) s = positions (Z.of_nat n) s ++ (if decide (s = x) then [Z.of_nat n] else []).
Proof.
  intros Hx. unfold positions. rewrite seqZ_S, filter_app. f_equal.
  rewrite filter_cons, filter_nil, Z.add_0_l, Nat2Z.id, Hx. by repeat case_decide; congruence.
Qed.

(** Adding a group is an entry of a dictionary. *)
Lemma add_group_od i spec gs : add_group i spec gs = od_set spec (default [] (od_get spec gs) ++ [i]) gs.
Proof.
  induction gs as [|[s ids] gs IH]; [done|]. simpl. rewrite IH.
  destruct (decide (s = spec)) as [->|Hne]; [by rewrite !decide_True|by rewrite !decide_False by congruence].
Qed.

Definition split_ok (n : Z) (gs : list (KVCacheSpec * list Z)) : Prop :=
  od_wf gs ∧ ∀ s, default [] (od_get s gs) = positions n s ∧ (od_get s gs = Some [] → False).

Lemma split_groups_ok rest (n : nat) gs :
  drop n specs = rest → split_ok (Z.of_nat n) gs → (n ≤ length specs)%nat →
  split_ok (zlen specs) (split_groups (Z.of_nat n) rest gs).
Proof.
  revert n gs. induction rest as [|x rest IH]; intros n gs Hd [Hwf Hg] Hn; simpl.
  { assert (length specs - n = 0)%nat as Hz by (by rewrite <- length_drop, Hd). unfold zlen.
    by replace (length specs) with n by lia. }
  assert (specs !! n = Some x) as Hx by (by rewrite <- (Nat.add_0_r n), <- lookup_drop, Hd).
  apply lookup_lt_Some in Hx as Hlt. replace (Z.of_nat n + 1) with (Z.of_nat (S n)) by lia.
  apply IH; [by rewrite <- Nat.add_1_r, <- drop_drop, Hd| |lia]. rewrite add_group_od.
  split; [by apply od_wf_set|]. intros s. rewrite (positions_S n x s Hx). destruct (decide (s = x)) as [->|Hne].
  - rewrite od_get_set. simpl. rewrite (proj1 (Hg x)). split; [done|]. intros [= Hnil]. by destruct (positions (Z.of_nat n) x).
  - rewrite od_get_set_ne by done. rewrite app_nil_r. apply Hg.
Qed.

Lemma split_groups_all : split_ok (zlen specs) (split_groups 0 specs []).
Proof.
  apply (split_groups_ok specs 0 []); [done| |lia]. split; [apply od_wf_nil|]. intros s. by split.
Qed.

Abbreviation the_groups := (full_first (split_groups 0 specs [])).

Lemma full_first_perm gs : full_first gs ≡ₚ gs.
Proof.
  unfold full_first. rewrite <- (Permutation_app_comm (filter _ _)).
  induction gs as [|g gs IH]; [done|]. rewrite !filter_cons. destruct (is_full g.1) eqn:E.
  - rewrite decide_False, decide_True by congruence. rewrite <- Permutation_middle. by rewrite IH.
  - rewrite decide_True, decide_False by congruence. simpl. by rewrite IH.
Qed.

(** The groups partition the indices by their specs. *)
Lemma the_groups_elem s ids :
  (s, ids) ∈ the_groups → ids = positions (zlen specs) s ∧ ids ≠ [] ∧ s ∈ specs.
Proof.
  destruct split_groups_all as [Hwf Hg].
  intros Hin. rewrite full_first_perm in Hin. apply (od_elem_get _ _ _ Hwf) in Hin. destruct (Hg s) as [Hp Hn].
  rewrite Hin in Hp, Hn. simpl in Hp. split; [done|]. assert (ids ≠ []) as Hne by (intros ->; by apply Hn).
  split; [done|]. destruct ids as [|g ids]; [done|]. assert (g ∈ positions (zlen specs) s) as Hgp by (rewrite <- Hp; by left).
  apply elem_of_positions in Hgp as [_ Hs]. by apply list_elem_of_lookup_2 in Hs.
Qed.

Lemma the_groups_wf : NoDup the_groups.*1.
Proof.
  destruct split_groups_all as [Hwf Hg].
  rewrite full_first_perm. exact Hwf.
Qed.

Lemma the_groups_cover i s : specs !! i = Some s → ∃ ids, (s, ids) ∈ the_groups ∧ Z.of_nat i ∈ ids.
Proof.
  intros Hi. destruct split_groups_all as [Hwf Hg].
  destruct (Hg s) as [Hp _]. assert (Z.of_nat i ∈ positions (zlen specs) s) as Hin.
  { apply elem_of_positions. apply lookup_lt_Some in Hi as Hlt. rewrite Nat2Z.id. unfold zlen. split; [lia|done]. }
  rewrite <- Hp in Hin. destruct (od_get s (split_groups 0 specs [])) as [ids|] eqn:E; [|by apply elem_of_nil in Hin].
  exists ids. split; [|done]. rewrite full_first_perm. by apply od_get_elem.
Qed.

Lemma the_groups_ok : Forall sized specs → groups_ok (length specs) the_groups.
Proof.
  intros Hs. pose proof the_groups_elem as Helem. pose proof the_groups_wf as Hwf. revert Helem Hwf.
  generalize the_groups. intros gs. induction gs as [|[s ids] gs IH]; intros Helem Hwf; [split; constructor|].
  apply groups_ok_cons. simpl in Hwf. apply NoDup_cons in Hwf as [Hns Hwf].
  destruct (Helem s ids ltac:(by left)) as (Hids & Hne & Hin). split; [|split].
  - split; [rewrite Forall_forall in Hs; by apply Hs|]. split; [done|].
    rewrite Hids. split; [|apply NoDup_filter, NoDup_seqZ]. intros g Hg%elem_of_positions. unfold zlen in Hg. lia.
  - apply IH; [|done]. intros s' i' Hi. apply Helem. by right.
  - intros g s' i' Hg Hi Hgi. destruct (Helem s' i' ltac:(by right)) as (Hi' & _). rewrite Hids in Hg. rewrite Hi' in Hgi.
    apply elem_of_positions in Hg as [_ Hg], Hgi as [_ Hgi]. rewrite Hg in Hgi. injection Hgi as <-.
    apply Hns, list_elem_of_fmap. by exists (s, i').
Qed.

(** One spec of full attention at most: it comes first. *)
Lemma full_first_one g rest :
  (∀ s1 s2, s1 ∈ specs → s2 ∈ specs → is_full s1 = true → is_full s2 = true → s1 = s2) →
  the_groups = g :: rest → Forall (λ g, is_full g.1 = false) rest.
Proof.
  intros Hone Hg. pose proof the_groups_wf as Hwf. pose proof the_groups_elem as Helem.
  assert (∀ x, x ∈ rest → is_full g.1 = true → is_full x.1 = false) as Hhead.
  { intros x Hx Hf. destruct (is_full x.1) eqn:Efx; [|done]. rewrite Hg in Hwf, Helem. simpl in Hwf.
    apply NoDup_cons in Hwf as [Hn _]. destruct Hn. apply list_elem_of_fmap. exists x. split; [|done].
    destruct g as [s i], x as [s' i']. destruct (Helem s i ltac:(by left)) as (_ & _ & ?).
    destruct (Helem s' i' ltac:(by right)) as (_ & _ & ?). by apply Hone. }
  apply Forall_forall. intros x Hx. destruct (is_full g.1) eqn:Efg; [by apply Hhead|].
  unfold full_first in Hg. destruct (filter (λ g, is_full g.1 = true) _) as [|y l] eqn:Ef.
  - assert (x ∈ filter (λ g, is_full g.1 = false) (split_groups 0 specs [])) as Hin by (simpl in Hg; rewrite Hg; by right).
    by apply list_elem_of_filter in Hin as [? _].
  - injection Hg as -> _. assert (g ∈ g :: l) as Hin by (by left). rewrite <- Ef in Hin.
    apply list_elem_of_filter in Hin as [? _]. congruence.
Qed.
End groups.

(** *** The hashes of a group *)

Lemma map_result_returns {A B} (f : A → result B) l : (∀ x, x ∈ l → ∃ y, f x = Ok y) → ∃ ys, map_result f l = Ok ys.
Proof.
  induction l as [|x l IH]; intros Hf; [by eexists|]. simpl. destruct (Hf x ltac:(by left)) as [y ->]. simpl.
  destruct IH as [ys ->]; [intros z Hz; apply Hf; by right|]. by eexists.
Qed.

Lemma py_index_returns {A} (l : list A) i : 0 ≤ i < zlen l → ∃ x, py_index l i = Ok x.
Proof.
  intros [H0 Hl]. rewrite py_index_nonneg by done. destruct (lookup_lt_is_Some_2 l (Z.to_nat i)) as [x ->]; [unfold zlen in Hl; lia|].
  by exists x.
Qed.

Lemma block_hashes_hashed bh hbs spec ml :
  0 < hbs → 0 < block_size spec → block_size spec `mod` hbs = 0 → ml `div` hbs ≤ zlen bh →
  ∃ hs, get_block_hashes bh hbs spec = Ok hs ∧ hashed hs (ml `div` block_size spec) ∧ hashed hs (HashList.len hs).
Proof.
  intros Hh Hb Hmod Hlen. unfold get_block_hashes. destruct (Z.eqb_spec (block_size spec) hbs) as [->|Hne].
  { eexists. split; [done|]. split; intros i Hi; apply py_index_returns; simpl in *; lia. }
  unfold py_mod. rewrite (proj2 (Z.eqb_neq hbs 0)) by lia. cbn [rbind]. rewrite Hmod. cbn [Z.eqb rassert rbind].
  set (k := block_size spec `div` hbs). apply Z.mod_divide in Hmod as [q Hq]; [|lia].
  assert (k = q) as Hk by (unfold k; rewrite Hq; apply Z.div_mul; lia). assert (0 < q) as Hq0 by nia.
  eexists. split; [done|].
  assert (hashed (HashList.Scaled bh k) (zlen bh `div` k)) as Hok.
  { intros i Hi. simpl. unfold get_value_at. pose proof (Z.mul_div_le (zlen bh) k ltac:(lia)).
    destruct (py_index_returns bh (i * k)) as [x ->]; [nia|]. cbn [rbind].
    destruct (map_result_returns (py_index bh) (seqZ (i * k + 1) (k - 1))) as [ys ->]; [|by eexists].
    intros j Hj%elem_of_seqZ. apply py_index_returns. nia. }
  split; [|done]. intros i Hi. apply Hok. split; [lia|]. eapply Z.lt_le_trans; [exact (proj2 Hi)|].
  rewrite Hq, Hk, (Z.mul_comm q), <- Z.div_div by lia. apply Z.div_le_mono; lia.
Qed.

(** ** The search of a hit *)

Lemma hybrid_variant_spec specs hbs dcp pcp v :
  hybrid_variant specs hbs dcp pcp = Ok v → 0 < hbs →
  v = Hybrid hbs (full_first (split_groups 0 specs []))
        (foldr Z.lcm 1 ((λ g, block_size g.1) <$> split_groups 0 specs []))
  ∧ full_first (split_groups 0 specs []) ≠ []
  ∧ ∀ s, s ∈ specs → block_size s `mod` hbs = 0.
Proof.
  unfold hybrid_variant. intros Hv Hh. apply rbind_ok in Hv as (rems & Hrems & Hv).
  apply rbind_ok in Hv as ([] & Hrem0 & Hv). apply rbind_ok in Hv as ([] & _ & Hv). apply rbind_ok in Hv as ([] & _ & Hv).
  cbv zeta in Hv. apply rbind_ok in Hv as ([] & Hmany & [= <-]). split; [done|]. split.
  - intros Hnil. pose proof (full_first_perm (split_groups 0 specs [])) as Hp. rewrite Hnil in Hp.
    apply Permutation_nil_l in Hp. rewrite <- Hp in Hmany. done.
  - unfold rassert in Hrem0. destruct (forallb (Z.eqb 0) rems) eqn:Hf; [|done]. apply map_result_Ok in Hrems.
    intros s Hs. apply list_elem_of_lookup in Hs as [i Hi]. destruct (Forall2_lookup_l _ _ _ _ _ Hrems Hi) as (r & Hr & Hm).
    rewrite forallb_forall in Hf. apply list_elem_of_lookup_2, list_elem_of_In, Hf, Z.eqb_eq in Hr as <-.
    unfold py_mod in Hm. rewrite (proj2 (Z.eqb_neq hbs 0)) in Hm by lia. by injection Hm.
Qed.

(** C25. The search of the hybrid coordinator ends and returns, for a configuration with one
    spec of full attention at most whose types it supports: the length is within the bound,
    and every group gets exactly the blocks of this length, each of them null or a block of
    the pool that bears the request's hash at its position under the group's key. *)
Theorem hybrid_hit_agrees specs hbs dcp pcp groups lcm s free ml bh :
  hybrid_variant specs hbs dcp pcp = Ok (kind s) → kind s = Hybrid hbs groups lcm →
  length (single_type_managers s) = length specs → Z.of_nat (length specs) ≤ 2 ^ 32 → 0 < hbs →
  BlockPool.inv (block_pool s) free BlockPool.none →
  Forall (λ spec, sized spec ∧ searchable spec (use_eagle s) lcm) specs →
  (∀ s1 s2, s1 ∈ specs → s2 ∈ specs → is_full s1 = true → is_full s2 = true → s1 = s2) →
  0 ≤ ml → ml `div` hbs ≤ zlen bh →
  ∃ hits h, find_longest_cache_hit bh ml s = Ok (Some (hits, h)) ∧ 0 ≤ h ≤ ml ∧ length hits = length specs
  ∧ ∀ i spec, specs !! i = Some spec →
      ∃ l hs, hits !! i = Some l ∧ get_block_hashes bh hbs spec = Ok hs
        ∧ found (block_pool s) hs (h `div` block_size spec) (Z.of_nat i) l.
Proof.
  intros Hv Hk Hlen H32 Hhbs Hinv Hspecs Hone Hml Hbh. unfold find_longest_cache_hit. rewrite Hk.
  apply hybrid_variant_spec in Hv as (Hv & Hne & Hmod); [|done]. rewrite Hk in Hv. injection Hv as -> ->.
  set (groups := full_first (split_groups 0 specs [])) in *. set (lcm := foldr Z.lcm 1 _) in *. rewrite Hlen.
  assert (groups_ok (length specs) groups) as Hok.
  { apply the_groups_ok. eapply Forall_impl; [exact Hspecs|]. by intros ? [? _]. }
  assert (Forall (λ g, supported (use_eagle s) bh hbs lcm ml g.1) groups) as Hsup.
  { apply Forall_forall. intros [spec ids] Hg. apply the_groups_elem in Hg as (_ & _ & Hin).
    rewrite Forall_forall in Hspecs. destruct (Hspecs spec Hin) as [[Hb _] Hs]. split; [done|]. apply block_hashes_hashed; auto. }
  set (bg0 := replicate (length specs) (None : option (list loc))).
  assert (length bg0 = length specs) as Hbg0 by (unfold bg0; by rewrite length_replicate).
  assert (Forall (λ g, ready (block_pool s) bh hbs bg0 ml g.1 g.2) groups) as Hready.
  { apply Forall_forall. intros [spec ids] Hg _. right. intros g Hgi. apply lookup_replicate. split; [done|].
    destruct Hok as [Hok _]. rewrite Forall_forall in Hok. destruct (Hok _ Hg) as (_ & _ & Hr). specialize (Hr g Hgi). lia. }
  unfold hybrid_hit. fold bg0. set (simple := (zlen groups =? 2) && _).
  assert (simple = true → simple_pair groups) as Hsim.
  { intros [Hz%Z.eqb_eq Hf]%andb_true_iff. destruct groups as [|g1 [|g2 [|g3 gs]]]; try done.
    - destruct g1. by exists (k, l), g2.
    - rewrite !zlen_cons in Hz. pose proof (zlen_nonneg gs). lia. }
  destruct (hit_loop_returns (block_pool s) free Hinv (use_eagle s) bh hbs lcm ml simple (length specs) groups
              (S (S (Z.to_nat ml))) ml bg0) as [o Ho]; [done|done|done|lia|done|done|].
  pose proof (hit_loop_spec (block_pool s) free Hinv (use_eagle s) bh hbs lcm simple (length specs) groups
                (S (S (Z.to_nat ml))) ml bg0 Hsim Hok Hbg0 Hml Hready ltac:(lia)) as Hspec.
  rewrite Ho in *. destruct o as [[h bg]|]; [|done]. cbn [rbind]. destruct Hspec as (Hh & Hl & Hserved).
  destruct groups as [|[spec0 ids0] rest] eqn:Eg; [done|].
  destruct (truncate_full_spec (block_pool s) bh hbs (length specs) spec0 ids0 rest h bg) as (bg' & Ht & Hl' & Hlists);
    [done|done|lia| |done|]; [by apply (full_first_one specs (spec0, ids0))|].
  rewrite Ht. cbn [rbind]. exists (default [] <$> bg'), h. split; [done|]. split; [done|].
  split; [by rewrite length_fmap|]. intros i spec Hi. destruct (the_groups_cover specs i spec Hi) as (ids & Hg & Hin).
  fold groups in Hg. rewrite Eg in Hg. rewrite Forall_forall in Hlists. destruct (Hlists _ Hg _ Hin) as (l & hs & Hb & Hhs & Hf).
  rewrite Nat2Z.id in Hb. exists l, hs. split; [by rewrite list_lookup_fmap, Hb|]. done.
Qed.
End HybridHit.
