(* ===== verification/KVCacheManager.v ===== *)
(** [vllm/v1/core/kv_cache_manager.py]: the interface between the scheduler and the KV
    cache, on the [Coordinator] of the groups.  Metrics collectors are left out. *)
From stdpp Require Import gmap gmultiset strings.
From S2P Require Export CacheCoordinator.
From stdpp Require Import options.
Import KVSpec.
Open Scope Z_scope.

(** ** [KVCacheBlocks] *)
Module CacheBlocks.

(** The manager's one empty object, which it recognises by identity, or another object. *)
Inductive t := EmptyBlocks | Blocks (l : list (list loc)).

Definition blocks (num_groups : nat) (b : t) : list (list loc) :=
  match b with EmptyBlocks => replicate num_groups [] | Blocks l => l end.

Definition is_empty_object (b : t) : bool := match b with EmptyBlocks => true | Blocks _ => false end.

Definition add (num_groups : nat) (b1 b2 : t) : t :=
  Blocks (zip_with app (blocks num_groups b1) (blocks num_groups b2)).

Definition get_block_ids (num_groups : nat) (allow_none : bool) (p : BlockPool.t) (b : t) : option (list (list Z)) :=
  let l := blocks num_groups b in
  if allow_none && forallb (λ g, zlen g =? 0) l then None
  else Some ((λ g : list loc, BlockPool.id_of p <$> g) <$> l).

Definition get_unhashed_block_ids (num_groups : nat) (p : BlockPool.t) (b : t) : result (list Z) :=
  let l := blocks num_groups b in
  let! _ := rassert (zlen l =? 1) in
  let! g := py_index l 0 in
  Ok (BlockPool.id_of p <$> filter (λ x, FreeQueue.block_hash (BlockPool.block_of p x) = None) g).

Definition new_empty (num_groups : nat) (b : t) : t := Blocks (replicate (length (blocks num_groups b)) []).
End CacheBlocks.

(** ** [PrefixCacheStats] of [vllm/v1/metrics/stats.py] *)
Module PrefixCacheStats.
Record t := Stats {
  reset : bool;
  requests : Z; queries : Z; hits : Z;
  preempted_requests : Z; preempted_queries : Z; preempted_hits : Z
}.
Definition empty : t := Stats false 0 0 0 0 0 0.
Definition record (num_tokens num_hits : Z) (preempted : bool) (s : t) : t :=
  if preempted then
    Stats (reset s) (requests s) (queries s) (hits s)
      (preempted_requests s + 1) (preempted_queries s + num_tokens) (preempted_hits s + num_hits)
  else
    Stats (reset s) (requests s + 1) (queries s + num_tokens) (hits s + num_hits)
      (preempted_requests s) (preempted_queries s) (preempted_hits s).
Definition set_reset (s : t) : t :=
  Stats true (requests s) (queries s) (hits s) (preempted_requests s) (preempted_queries s) (preempted_hits s).
End PrefixCacheStats.

(** ** [KVCacheManager] *)
Module KVCacheManager.
Import CacheBlocks.

(** What the manager reads of a [Request]; the part that hashing reads is [hashing]. *)
Record Request := MkRequest {
  request_id : string;
  num_computed_tokens : Z;
  num_preemptions : Z;
  skip_reading_prefix_cache : bool;
  hashing : BlockHash.request
}.
Definition set_hashing h (r : Request) : Request :=
  MkRequest (request_id r) (num_computed_tokens r) (num_preemptions r) (skip_reading_prefix_cache r) h.
Definition num_tokens (r : Request) : Z := BlockHash.num_tokens (hashing r).

Record t := KVM {
  max_model_len : Z;
  enable_caching : bool;
  prefix_cache_stats : option PrefixCacheStats.t;
  num_kv_cache_groups : nat;
  coordinator : Coordinator.t
}.
Definition set_coordinator c (k : t) : t :=
  KVM (max_model_len k) (enable_caching k) (prefix_cache_stats k) (num_kv_cache_groups k) c.
Definition set_stats s (k : t) : t :=
  KVM (max_model_len k) (enable_caching k) s (num_kv_cache_groups k) (coordinator k).

(** A call on the coordinator, or on its block pool. *)
Definition on_coord {A} (m : py Coordinator.t A) : py t A := λ k,
  let '(r, c) := m (coordinator k) in (r, set_coordinator c k).
Definition on_block_pool {A} (m : py BlockPool.t A) : py t A := on_coord (λ c,
  let '(r, p) := m (Coordinator.block_pool c) in
  (r, Coordinator.set_state p (Coordinator.single_type_managers c) c)).

Section manager.
Context (use_int : bool).

(** The stats exist when [log_stats] is set. *)
Definition create (num_blocks : Z) (specs : list KVCacheSpec) (max_model_len hash_block_size : Z)
    (enable_caching use_eagle log_stats enable_kv_cache_events : bool) (dcp_world_size pcp_world_size : Z) : result t :=
  let! c := Coordinator.create num_blocks specs use_eagle enable_caching enable_kv_cache_events
              dcp_world_size pcp_world_size hash_block_size in
  Ok (KVM max_model_len enable_caching (if log_stats then Some PrefixCacheStats.empty else None) (length specs) c).

Definition make_prefix_cache_stats : py t (option PrefixCacheStats.t) :=
  let* k := get_st in
  match prefix_cache_stats k with
  | None => ret None
  | Some s => modify (set_stats (Some PrefixCacheStats.empty)) ;;; ret (Some s)
  end.

(** [create_kv_cache_blocks]: [any(blocks)], else the one empty object. *)
Definition create_kv_cache_blocks (l : list (list loc)) : CacheBlocks.t :=
  if existsb (λ g, negb (zlen g =? 0)) l then Blocks l else EmptyBlocks.

(** [None] is a search that ran out of fuel. *)
Definition get_computed_blocks (r : Request) : py t (option (CacheBlocks.t * Z)) :=
  let* k := get_st in
  if negb (enable_caching k) || skip_reading_prefix_cache r then ret (Some (EmptyBlocks, 0))
  else
    let max_cache_hit_length := num_tokens r - 1 in
    let* o := lift (Coordinator.find_longest_cache_hit (BlockHash.block_hashes (hashing r)) max_cache_hit_length
                      (coordinator k)) in
    match o with
    | None => ret None
    | Some (computed_blocks, num_new_computed_tokens) =>
        modify (λ k, set_stats (PrefixCacheStats.record (num_tokens r) num_new_computed_tokens
                                  (0 <? num_preemptions r) <$> prefix_cache_stats k) k) ;;;
        ret (Some (create_kv_cache_blocks computed_blocks, num_new_computed_tokens))
    end.

Definition on_manager {A} (m : py t A) : py (t * Request) A := λ '(k, r), let '(a, k) := m k in (a, (k, r)).

(** The coordinator's [cache_blocks] on the request. *)
Definition coord_cache_blocks (num_computed_tokens : Z) : py (t * Request) unit := λ '(k, r),
  let '(a, (c, h)) := Coordinator.cache_blocks use_int (request_id r) num_computed_tokens (coordinator k, hashing r) in
  (a, (set_coordinator c k, set_hashing h r)).

Definition allocate_slots (num_new_tokens num_new_computed_tokens : Z) (new_computed_blocks : option CacheBlocks.t)
    (num_lookahead_tokens num_external_computed_tokens : Z) (delay_cache_blocks : bool) (num_encoder_tokens : Z)
    : py (t * Request) (option CacheBlocks.t) :=
  let* (k, r) := get_st in
  if (num_new_tokens =? 0) && (num_external_computed_tokens =? 0) then raise ValueError
  else
    let new_computed_blocks := default EmptyBlocks new_computed_blocks in
    let new_computed_block_list := blocks (num_kv_cache_groups k) new_computed_blocks in
    let num_local_computed_tokens := num_computed_tokens r + num_new_computed_tokens in
    let total_computed_tokens :=
      Z.min (num_local_computed_tokens + num_external_computed_tokens) (max_model_len k) in
    let num_tokens_main_model := total_computed_tokens + num_new_tokens in
    let num_tokens_need_slot := Z.min (num_tokens_main_model + num_lookahead_tokens) (max_model_len k) in
    on_manager (on_coord (Coordinator.remove_skipped_blocks (request_id r) total_computed_tokens)) ;;;
    let* num_blocks_to_allocate := on_manager (on_coord (Coordinator.get_num_blocks_to_allocate (request_id r)
      num_tokens_need_slot new_computed_block_list num_encoder_tokens
      (num_local_computed_tokens + num_external_computed_tokens) num_tokens_main_model)) in
    let* (k, _) := get_st in
    if num_blocks_to_allocate >? BlockPool.get_num_free_blocks (Coordinator.block_pool (coordinator k)) then ret None
    else
      (if negb (is_empty_object new_computed_blocks) || (0 <? num_external_computed_tokens)
       then on_manager (on_coord (Coordinator.allocate_new_computed_blocks use_int (request_id r)
              new_computed_block_list num_local_computed_tokens num_external_computed_tokens))
       else ret tt) ;;;
      let* new_blocks := on_manager (on_coord (Coordinator.allocate_new_blocks use_int (request_id r)
        num_tokens_need_slot num_tokens_main_model num_encoder_tokens)) in
      if negb (enable_caching k) || delay_cache_blocks then ret (Some (create_kv_cache_blocks new_blocks))
      else
        coord_cache_blocks (Z.min (total_computed_tokens + num_new_tokens) (num_tokens r)) ;;;
        ret (Some (create_kv_cache_blocks new_blocks)).

Definition free (r : Request) : py t unit := on_coord (Coordinator.free (request_id r)).

Definition remove_skipped_blocks (request_id : string) (total_computed_tokens : Z) : py t unit :=
  on_coord (Coordinator.remove_skipped_blocks request_id total_computed_tokens).

Definition evict_blocks (block_ids : list Z) : py t unit := on_block_pool (BlockPool.evict_blocks use_int block_ids).

Definition reset_prefix_cache : py t bool :=
  let* b := on_block_pool BlockPool.reset_prefix_cache in
  if b then
    modify (λ k, set_stats (PrefixCacheStats.set_reset <$> prefix_cache_stats k) k) ;;; ret true
  else ret false.

Definition get_num_common_prefix_blocks (running_request_id : string) : py t (list Z) :=
  on_coord (Coordinator.get_num_common_prefix_blocks running_request_id).

Definition take_events : py t (list BlockPool.event) := on_block_pool BlockPool.take_events.

Definition get_blocks (request_id : string) (k : t) : CacheBlocks.t :=
  create_kv_cache_blocks (Coordinator.get_blocks request_id (coordinator k)).

Definition get_block_ids (request_id : string) (k : t) : option (list (list Z)) :=
  CacheBlocks.get_block_ids (num_kv_cache_groups k) false (Coordinator.block_pool (coordinator k))
    (get_blocks request_id k).

(** The method of the interface, which caches if enabled. *)
Definition cache_blocks (num_computed_tokens : Z) : py (t * Request) unit :=
  let* (k, _) := get_st in
  if enable_caching k then coord_cache_blocks num_computed_tokens else ret tt.

Definition new_step_starts : py t unit := on_coord Coordinator.new_step_starts.
End manager.

(** ** Runs of the manager *)

Import Held.

Inductive call :=
  | CGetComputed (r : Request)
  | CAllocate (r : Request) (num_new_tokens num_new_computed_tokens : Z) (new_computed_blocks : option CacheBlocks.t)
      (num_lookahead_tokens num_external_computed_tokens : Z) (delay_cache_blocks : bool) (num_encoder_tokens : Z)
  | CFree (r : Request)
  | CRemoveSkipped (request_id : string) (total_computed_tokens : Z)
  | CEvict (block_ids : list Z)
  | CReset
  | CCommonPrefix (running_request_id : string)
  | CCache (r : Request) (num_computed_tokens : Z)
  | CTakeEvents
  | CMakeStats
  | CNewStep.

(** The state after a call, which may have raised. *)
Definition run_call (use_int : bool) (c : call) (k : t) : t :=
  match c with
  | CGetComputed r => (get_computed_blocks r k).2
  | CAllocate r n nc blks la ext delay enc => (allocate_slots use_int n nc blks la ext delay enc (k, r)).2.1
  | CFree r => (free r k).2
  | CRemoveSkipped r n => (remove_skipped_blocks r n k).2
  | CEvict ids => (evict_blocks use_int ids k).2
  | CReset => (reset_prefix_cache k).2
  | CCommonPrefix r => (get_num_common_prefix_blocks r k).2
  | CCache r n => (cache_blocks use_int n (k, r)).2.1
  | CTakeEvents => (take_events k).2
  | CMakeStats => (make_prefix_cache_stats k).2
  | CNewStep => (new_step_starts k).2
  end.

Definition pool (k : t) : BlockPool.t := Coordinator.block_pool (coordinator k).
Definition tables (k : t) : list Manager.t := Coordinator.single_type_managers (coordinator k).

(** What the scheduler passes: token counts, and for every group computed blocks of the pool,
    each once but for null blocks, that hold no more than the local computed tokens. *)
Definition allowed (c : call) (k : t) : Prop :=
  match c with
  | CAllocate r n nc blks _ ext _ _ =>
      0 ≤ n ∧ 0 ≤ ext ∧ 0 ≤ num_computed_tokens r + nc ∧ 0 < max_model_len k
      ∧ Forall2 (λ m l, distinct (pool k) l ∧ zlen l * Manager.block_size m ≤ num_computed_tokens r + nc)
          (tables k) (blocks (num_kv_cache_groups k) (default EmptyBlocks blks))
  | _ => True
  end.

Inductive reachable (use_int : bool) (k0 : t) : t → Prop :=
  | reach_init : reachable use_int k0 k0
  | reach_step k c : reachable use_int k0 k → allowed c k → reachable use_int k0 (run_call use_int c k).

Section keeps.
Context (use_int : bool) (c : Z * bool * Z * list loc * loc * bool) (qs : list (KVCacheSpec * Z * bool * Z)).

Definition KI (k : t) : Prop := Coordinator.CI c qs (coordinator k).

Lemma keeps_on_coord {A} (m : py Coordinator.t A) k :
  KI k → post (Coordinator.CI c qs) (λ _, True) (m (coordinator k)) → post KI (λ _, True) (on_coord m k).
Proof. intros Hk [Hi _]. unfold on_coord. by destruct (m (coordinator k)) as [r s]. Qed.

Lemma keeps_on_block_pool {A} (m : py BlockPool.t A) k :
  KI k → (∀ free, BlockPool.inv (pool k) free BlockPool.none →
    (∃ free', BlockPool.inv (m (pool k)).2 free' BlockPool.none) ∧ BlockPool.same_refs (pool k) (m (pool k)).2) →
  post KI (λ _, True) (on_block_pool m k).
Proof.
  intros Hk Hm. apply keeps_on_coord; [done|]. pose proof Hk as [Hh Ho Hc Hq]. simpl in *.
  destruct (held_inv _ _ Hh) as [free Hi]. destruct (Hm free Hi) as [Hi' Hs]. unfold pool in *.
  destruct (m (Coordinator.block_pool (coordinator k))) as [r p]. simpl in *. split; [|done].
  split; simpl; [by apply (held_same (Coordinator.block_pool (coordinator k)))|done| |done].
  destruct Hs as [Hcc _]. congruence.
Qed.

Lemma keeps_coord_cache_blocks n k r : KI k → post (λ s, KI s.1) (λ _, True) (coord_cache_blocks use_int n (k, r)).
Proof.
  intros Hk. unfold coord_cache_blocks.
  pose proof (Coordinator.coord_keeps_cache_blocks use_int c qs (request_id r) n (coordinator k) (hashing r) Hk) as H.
  by destruct (Coordinator.cache_blocks _ _ _ _) as [a [c' h]].
Qed.

Lemma keeps_on_manager {A} (m : py t A) k r :
  post KI (λ _, True) (m k) → post (λ s, KI s.1) (λ _, True) (on_manager m (k, r)).
Proof. unfold on_manager. by destruct (m k) as [a k']. Qed.

Lemma keeps_allocate_slots n nc blks la ext delay enc k r :
  KI k → allowed (CAllocate r n nc blks la ext delay enc) k →
  post (λ s, KI s.1) (λ _, True) (allocate_slots use_int n nc blks la ext delay enc (k, r)).
Proof.
  intros Hk (Hn & Hext & Hloc & Hmax & Hhits). unfold allocate_slots. rewrite bind_get_st.
  destruct ((n =? 0) && (ext =? 0)) eqn:E0; [by apply post_raise|]. cbv zeta.
  set (local := num_computed_tokens r + nc) in *. set (total := Z.min (local + ext) (max_model_len k)).
  assert (0 < total + n) as Hmain.
  { apply andb_false_iff in E0. rewrite !Z.eqb_neq in E0. unfold total. lia. }
  set (hits := blocks _ _) in *.
  assert (Coordinator.all_hits_ok c qs hits local ext) as Hok.
  { split; [done|]. destruct Hk as [_ _ Hc Hq]. simpl in Hc, Hq. rewrite <- Hq. apply Forall2_fmap_l.
    eapply Forall2_impl; [exact Hhits|]. intros m l [[Hnd Hb] Hl]. split; [done|]. split; [|done].
    intros b Hin. rewrite <- Hc. by apply Hb. }
  eapply post_bind; [by apply keeps_on_manager, keeps_on_coord, Coordinator.coord_keeps_remove_skipped_blocks|].
  intros [] [k1 r1] _ Hk1 _. simpl in Hk1.
  eapply post_bind; [by apply keeps_on_manager, keeps_on_coord, Coordinator.coord_keeps_get_num_blocks_to_allocate|].
  intros need [k2 r2] _ Hk2 _. simpl in Hk2. rewrite bind_get_st. case_match; [by apply post_ret|].
  eapply post_bind.
  { instantiate (1 := λ _, True). case_match; [|by apply post_ret].
    by apply keeps_on_manager, keeps_on_coord, Coordinator.coord_keeps_allocate_new_computed_blocks. }
  intros [] [k3 r3] _ Hk3 _. simpl in Hk3.
  eapply post_bind; [by apply keeps_on_manager, keeps_on_coord, Coordinator.coord_keeps_allocate_new_blocks|].
  intros new [k4 r4] _ Hk4 _. simpl in Hk4. case_match; [by apply post_ret|].
  eapply post_bind; [by apply keeps_coord_cache_blocks|]. intros [] s _ Hs _. by apply post_ret.
Qed.

Lemma run_call_KI cl k : KI k → allowed cl k → KI (run_call use_int cl k).
Proof.
  intros Hk Ha. destruct cl as [r|r n nc blks la ext delay enc|r|r n|ids| |r|r n| | |]; simpl.
  - unfold get_computed_blocks. rewrite bind_get_st. case_match; [done|]. unfold bind, lift.
    destruct (Coordinator.find_longest_cache_hit _ _ _) as [[[l z]|]|e]; done.
  - apply keeps_allocate_slots; [done|exact Ha].
  - by apply keeps_on_coord, Coordinator.coord_keeps_free.
  - by apply keeps_on_coord, Coordinator.coord_keeps_remove_skipped_blocks.
  - apply keeps_on_block_pool; [done|]. intros free Hi.
    destruct (BlockPool.evict_blocks_inv use_int ids (pool k) free Hi) as [? ?]. by split; [exists free|].
  - assert (post KI (λ _, True) (on_block_pool BlockPool.reset_prefix_cache k)) as H.
    { apply keeps_on_block_pool; [done|]. intros free Hi.
      destruct (BlockPool.reset_spec (pool k) free Hi) as (b & p & -> & Hp & Hc & _ & _ & _ & Hr). split; [by exists free|done]. }
    unfold reset_prefix_cache, bind. destruct H as [H _].
    by destruct (on_block_pool BlockPool.reset_prefix_cache k) as [[[]|e] k'].
  - by apply keeps_on_coord, Coordinator.coord_keeps_get_num_common_prefix_blocks.
  - unfold cache_blocks. rewrite bind_get_st. case_match; [|done]. by apply keeps_coord_cache_blocks.
  - apply keeps_on_block_pool; [done|]. intros free Hi. unfold BlockPool.take_events, bind, get_st, modify, ret.
    destruct (BlockPool.enable_kv_cache_events (pool k)); (split; [exists free|]); try done. by apply BlockPool.inv_set_events.
  - unfold make_prefix_cache_stats. rewrite bind_get_st. by case_match.
  - by apply keeps_on_coord, Coordinator.coord_keeps_new_step_starts.
Qed.
End keeps.

Lemma reachable_KI use_int nb specs mml hbs caching eagle stats events dcp pcp k0 k :
  create nb specs mml hbs caching eagle stats events dcp pcp = Ok k0 → Forall wf_spec specs →
  reachable use_int k0 k → ∃ c qs, KI c qs k.
Proof.
  intros Hc Hwf Hr. apply rbind_ok in Hc as (co & Hco & [= <-]).
  destruct (Coordinator.create_CI _ _ _ _ _ _ _ _ _ Hco Hwf) as (c & qs & Hci & _).
  exists c, qs. induction Hr as [|k cl _ IH Ha]; [done|by apply run_call_KI].
Qed.

Lemma reachable_pool use_int nb specs mml hbs caching eagle stats events dcp pcp k0 k :
  create nb specs mml hbs caching eagle stats events dcp pcp = Ok k0 → Forall wf_spec specs →
  reachable use_int k0 k → ∃ free, BlockPool.inv (Coordinator.block_pool (coordinator k)) free BlockPool.none.
Proof. intros Hc Hwf Hr. by destruct (reachable_KI _ _ _ _ _ _ _ _ _ _ _ _ _ Hc Hwf Hr) as (c & qs & [[Hi _ _] _ _ _]). Qed.

(** C9. For groups of full attention, MLA, sliding windows, chunked local attention, Mamba
    and cross-attention layers ([wf_spec]; attention sinks are excluded, whose blocks leave
    the pool without references: [sinks_block_reset]), from the construction on, whatever
    calls the scheduler makes ([allowed]: its token counts are not negative, and the
    computed blocks it passes are blocks of the pool, each once but for null blocks, that
    hold no more than the local computed tokens) and whatever they raise: the block pool is well formed, every block but the null one has exactly as many
    references as the requests' tables of all groups hold it, and the blocks that an
    allocation can take are those that no table holds. *)
Theorem references_count_holders use_int nb specs mml hbs caching eagle stats events dcp pcp k0 k :
  create nb specs mml hbs caching eagle stats events dcp pcp = Ok k0 → Forall wf_spec specs →
  reachable use_int k0 k →
  ∃ free, BlockPool.inv (pool k) free BlockPool.none
  ∧ (∀ b, b ∈ BlockPool.blocks (pool k) → b ≠ 0 →
       FreeQueue.ref_cnt (BlockPool.block_of (pool k) b)
       = Z.of_nat (multiplicity b (Coordinator.all_uses (tables k))))
  ∧ ∀ b, b ∈ free ↔ b ∈ BlockPool.blocks (pool k) ∧ b ≠ 0
       ∧ ∀ m r, m ∈ tables k → b ∉ Manager.table r m.
Proof.
  intros Hc Hwf Hr. destruct (reachable_KI _ _ _ _ _ _ _ _ _ _ _ _ _ Hc Hwf Hr) as (c & qs & [Hh _ _ _]). simpl in Hh. rewrite (right_id_L ∅ (⊎)) in Hh. pose proof Hh as [[free Hi] Hrefs _].
  exists free. split; [done|]. split; [done|]. intros b. rewrite (held_free _ _ _ _ Hh Hi), Coordinator.elem_of_all_uses.
  split; intros (? & ? & Hn); (split; [done|split; [done|]]).
  - intros m r Hm Hb. apply Hn. by exists m, r.
  - intros (m & r & Hm & Hb). by apply (Hn m r).
Qed.
End KVCacheManager.
