(* ===== verification/AllocationBudget.v ===== *)
(** The count of blocks in [allocate_slots] covers what the calls behind it take: an
    allocation that passes the check of the free blocks never runs out of them. *)
From stdpp Require Import gmap gmultiset strings.
From S2P Require Export KVCacheManager.
From stdpp Require Import options.
Import KVSpec.
Open Scope Z_scope.

(** ** One manager *)
Module ManagerBudget.
Import FreeQueue BlockPool Held Manager.

(** The types whose managers count and allocate by the methods of the base class. *)
Definition attention_type (spec : KVCacheSpec) : Prop :=
  match spec with MambaSpec _ | CrossAttentionSpec _ => False | _ => True end.

Lemma attention_not_cross spec : attention_type spec → is_cross spec = false.
Proof. by destruct spec; [..|intros []|]. Qed.

(** References only grow from one state of the pool to another. *)
Record grows (p p' : BlockPool.t) : Prop := Grows {
  grows_config : config p' = config p;
  grows_refs : ∀ b, b ∈ blocks p → b ≠ 0 → ref_cnt (block_of p b) ≤ ref_cnt (block_of p' b)
}.

#[export] Instance grows_po : PreOrder grows.
Proof.
  split; [by split|]. intros p1 p2 p3 [H1 H2] [H3 H4]. pose proof (config_blocks _ _ H1) as Hb.
  split; [congruence|]. intros b Hin Hb0. etransitivity; [by apply H2|]. apply H4; [by rewrite Hb|done].
Qed.

Lemma evictable_idle p u b : held p u → b ∈ blocks p → evictable p b ↔ b ≠ 0 ∧ ref_cnt (block_of p b) = 0.
Proof.
  intros [[free Hi] _ _] Hb. destruct (inv_null _ _ _ Hi) as (_ & Hn & _). unfold evictable. rewrite <- not_true_iff_false, Hn by done. tauto.
Qed.

(** What can be evicted later could be evicted before. *)
Lemma num_evictable_grows p0 p u0 u l :
  held p0 u0 → held p u → grows p0 p → (∀ b, b ∈ l → b ∈ blocks p0) →
  get_num_evictable_blocks p l ≤ get_num_evictable_blocks p0 l.
Proof.
  intros H0 Hh [Hc Hg] Hl. pose proof (config_blocks _ _ Hc) as Hb. pose proof H0 as [[free Hi] _ _].
  unfold get_num_evictable_blocks, zlen. apply Nat2Z.inj_le.
  induction l as [|b l IH]; [done|]. rewrite !filter_cons. specialize (IH ltac:(intros; apply Hl; by right)).
  specialize (Hl b ltac:(by left)). pose proof (evictable_idle p0 u0 b H0 Hl) as E0.
  pose proof (evictable_idle p u b Hh ltac:(by rewrite Hb)) as E1. case_decide as D1.
  - rewrite decide_True; [simpl; lia|]. apply E0. apply E1 in D1 as [Hn Hz]. split; [done|].
    specialize (Hg b Hl Hn). pose proof (inv_refs _ _ _ Hi b Hl Hn). lia.
  - case_decide; simpl; lia.
Qed.

(** A touch takes the evictable ones of the list from the free blocks. *)
Lemma touch_budget p u l p' :
  held p u → (∀ b, b ∈ l → b ∈ blocks p) → touch l p = (Ok tt, p') →
  grows p p' ∧ get_num_free_blocks p - get_num_evictable_blocks p l ≤ get_num_free_blocks p'.
Proof.
  intros Hh Hl Ht. destruct (held_touch p u l Hh Hl) as (p2 & Hp2 & Hh' & Hc & Hd). rewrite Ht in Hp2. injection Hp2 as <-.
  assert (∀ b, ref_cnt (block_of p' b) = ref_cnt (block_of p b) + times b l) as Hr by (intros b; apply (ref_of_data _ _ _ (Hd b))).
  pose proof (config_blocks _ _ Hc) as Hb. split; [split; [done|]; intros b _ _; rewrite Hr, times_bag; lia|].
  pose proof Hh as [[free Hi] _ _]. pose proof Hh' as [[free' Hi'] _ _].
  rewrite (held_num_free _ _ _ Hh Hi), (held_num_free _ _ _ Hh' Hi').
  assert (free ⊆+ free' ++ filter (evictable p) l) as Hs.
  { apply NoDup_submseteq.
    - pose proof (rep_nodup _ _ (inv_rep _ _ _ Hi)) as H. unfold path in H. by apply NoDup_cons in H as [_ (H & _ & _)%NoDup_app].
    - intros b Hbf. destruct (proj1 (inv_free _ _ _ Hi b) (or_introl Hbf)) as (Hbb & Hb0 & Hz). apply elem_of_app.
      destruct (decide (b ∈ l)) as [Hbl|Hbl].
      + right. apply list_elem_of_filter. split; [|done]. by apply (evictable_idle p u b Hh Hbb).
      + left. destruct (proj2 (inv_free _ _ _ Hi' b)) as [?|[]]; [|done]. split; [by rewrite Hb|]. split; [done|].
        apply times_zero in Hbl. rewrite Hr. lia. }
  apply submseteq_length in Hs. rewrite length_app in Hs. unfold get_num_evictable_blocks, zlen. lia.
Qed.

(** The blocks that the tables still lack for that many tokens. *)
Definition owed (r : string) (n : Z) (m : t) : Z := Z.max (cdiv n (block_size m) - zlen (table r m)) 0.

Lemma owed_nonneg r n m : 0 ≤ owed r n m.
Proof. unfold owed. lia. Qed.

(** The blocks in front of the window of a request with that many computed tokens. *)
Definition num_skipped_blocks (m : t) (total : Z) : Z :=
  get_num_skipped_tokens (kv_cache_spec m) total `div` block_size m.

(** What a manager knows of a request when [allocate_slots] is called: it runs, or it got its
    blocks without a call for computed blocks, or it is new; [called] tells whether the call
    for the computed blocks is made. *)
Inductive ready (r : string) (hits : list loc) (local ext : Z) (called : bool) (p : BlockPool.t) (m : t) : Prop :=
  | Running k : num_cached_block m !! r = Some k → hits = [] → ready r hits local ext called p m
  | Placed :
      called = false → num_cached_block m !! r = None → hits = [] →
      num_skipped_blocks m (local + ext) ≤ zlen (table r m) → ready r hits local ext called p m
  | New :
      called = true → num_cached_block m !! r = None → table r m = [] → distinct p hits →
      zlen hits * block_size m ≤ local → 0 ≤ ext → enable_caching m = true ∨ hits = [] →
      ready r hits local ext called p m.

(** The count of a new request, and of another one. *)
Definition new_need (p : BlockPool.t) (m : t) (n total : Z) (hits : list loc) : Z :=
  Z.max (cdiv n (block_size m) - Z.max (num_skipped_blocks m total) (zlen hits)) 0
  + get_num_evictable_blocks p (drop (Z.to_nat (num_skipped_blocks m total)) hits).

Lemma new_count p m r n total hits :
  num_cached_block m !! r = None → table r m = [] →
  base_num_blocks_to_allocate p m r n hits total = Ok (new_need p m n total hits).
Proof.
  intros Hk Ht. unfold base_num_blocks_to_allocate, new_need, num_skipped_blocks. rewrite Hk, Ht, zlen_nil. cbv zeta. do 3 f_equal; [lia|].
  f_equal. lia.
Qed.

Lemma old_count p m r n hits local ext called :
  ready r hits local ext called p m → (∃ k, num_cached_block m !! r = Some k) ∨ called = false →
  base_num_blocks_to_allocate p m r n hits (local + ext) = Ok (owed r n m).
Proof.
  intros [k Hk -> | -> Hk -> Hs | -> Hk _ _ _ _ _] H; unfold base_num_blocks_to_allocate; rewrite Hk; simpl; [done| |].
  - rewrite drop_nil. unfold get_num_evictable_blocks. rewrite filter_nil. unfold owed, num_skipped_blocks in *.
    f_equal. rewrite zlen_nil. lia.
  - destruct H as [[? ?]|?]; congruence.
Qed.

Section budget.
Context (use_int : bool) (u : gmultiset loc) (c : Z * bool * Z * list loc * loc * bool) (q : KVCacheSpec * Z * bool * Z).
Abbreviation I := (good u c q).

(** New blocks at the end of a table, when there are enough. *)
Lemma get_extend_budget {B} r n p m (k : list loc → py (BlockPool.t * t) B) :
  I (p, m) → 0 ≤ n ≤ get_num_free_blocks p →
  ∃ l p', (let* l := on_fst (get_new_blocks use_int n) in k l) (p, m) = k l (p', m)
  ∧ I (p', set_table r (table r m ++ l) m) ∧ zlen l = n ∧ grows p p' ∧ get_num_free_blocks p' = get_num_free_blocks p - n.
Proof.
  intros Hi [Hn Hf]. destruct (good_split u c q r p m Hi) as [Hh Hnd].
  destruct (held_get use_int p _ n Hh Hn) as [[? _]|(l & p' & Hp & Hh' & Hc & Hlen & Hndl & Hl & Hnum & Hd)]; [lia|].
  exists l, p'. split; [unfold bind, on_fst; by rewrite Hp|]. split; [|split; [done|split; [|done]]].
  - apply (good_set u c q r _ p p'); [done| | |done|rewrite zlen_app; pose proof (zlen_nonneg l); lia].
    + rewrite bag_app. apply (held_nulls p' _ _ Hh'). intros b _. rewrite !multiplicity_disj_union. lia.
    + rewrite filter_app. apply NoDup_app. split; [done|]. split; [|by apply NoDup_filter].
      intros b [Hb0 Hb]%list_elem_of_filter [_ Hbl]%list_elem_of_filter. destruct (Hl b Hbl) as (_ & _ & []).
      rewrite !gmultiset_elem_of_disj_union, elem_of_bag. by left; left.
  - split; [done|]. intros b Hb Hb0. specialize (Hd b). destruct (decide (b ∈ l)) as [Hbl|].
    + apply ref_of_data in Hd. rewrite Hd. destruct (Hl b Hbl) as (_ & _ & Hu). pose proof (held_refs _ _ Hh b Hb Hb0) as ->.
      apply not_elem_of_multiplicity in Hu. rewrite Hu. done.
    + unfold id in Hd. apply data_eq in Hd as (_ & -> & _). done.
Qed.

Lemma base_allocate_budget r n p m :
  I (p, m) → owed r n m ≤ get_num_free_blocks p →
  ∃ l p' m', base_allocate_new_blocks use_int r n (p, m) = (Ok l, (p', m')) ∧ I (p', m') ∧ grows p p'
  ∧ get_num_free_blocks p' = get_num_free_blocks p - owed r n m ∧ cdiv n (block_size m) ≤ zlen (table r m').
Proof.
  intros Hi Hf. unfold base_allocate_new_blocks, modify_m at 1. rewrite bind_modify, bind_get_st. cbv zeta.
  apply (good_touch_table u c q r) in Hi. unfold owed in *. rewrite <- (table_touch_table r r m) in Hf |- *.
  set (m0 := touch_table r m) in *. change (block_size m) with (block_size m0) in *.
  destruct (Z.leb_spec (cdiv n (block_size m0) - zlen (table r m0)) 0).
  - exists [], p, m0. split; [done|]. split; [done|]. split; [done|]. lia.
  - destruct (get_extend_budget r (cdiv n (block_size m0) - zlen (table r m0)) p m0 (λ l, extend r l ;;; ret l) Hi)
      as (l & p' & -> & Hi' & Hl & Hg & Hn); [lia|].
    exists l, p', (set_table r (table r m0 ++ l) m0). split; [done|]. split; [done|]. split; [done|]. split; [lia|].
    rewrite table_set_table, zlen_app. lia.
Qed.

(** External blocks for a new request behind its computed ones. *)
Lemma external_budget r n total p m :
  I (p, m) → total ≤ n → zlen (table r m) ≤ cdiv total (block_size m) → owed r n m ≤ get_num_free_blocks p →
  ∃ p' m', allocate_external use_int r total (p, m) = (Ok tt, (p', m')) ∧ I (p', m') ∧ grows p p'
  ∧ get_num_free_blocks p - owed r n m + owed r n m' ≤ get_num_free_blocks p'.
Proof.
  intros Hi Hn Ht Hf. pose proof (ok_size _ (good_ok _ _ _ _ Hi)) as Hbs. simpl in Hbs.
  pose proof (cdiv_mono total n (block_size m) Hbs Hn). unfold allocate_external. rewrite bind_get_st. unfold owed in *.
  destruct (get_extend_budget r (cdiv total (block_size m) - zlen (table r m)) p m (extend r) Hi)
    as (l & p' & -> & Hi' & Hl & Hg & Hnum); [lia|].
  exists p', (set_table r (table r m ++ l) m). split; [done|]. split; [done|]. split; [done|].
  rewrite table_set_table, zlen_app. change (block_size (set_table r _ m)) with (block_size m). lia.
Qed.

(** The computed blocks of a new request. *)
Lemma computed_budget r hits local ext n p m :
  I (p, m) → is_cross (kv_cache_spec m) = false → ready r hits local ext true p m → num_cached_block m !! r = None →
  local + ext ≤ n → new_need p m n (local + ext) hits ≤ get_num_free_blocks p →
  ∃ p' m', allocate_new_computed_blocks use_int r hits local ext (p, m) = (Ok tt, (p', m')) ∧ I (p', m') ∧ grows p p'
  ∧ get_num_free_blocks p - new_need p m n (local + ext) hits + owed r n m' ≤ get_num_free_blocks p'.
Proof.
  intros Hi Hcr Hr Hk Hn Hf. destruct Hr as [k Hk' _|? _ _ _|_ _ Ht Hd Hlen Hext Hca]; [congruence|done|].
  pose proof (good_ok _ _ _ _ Hi) as [Hwf Hbs _ _]. simpl in Hwf, Hbs.
  unfold allocate_new_computed_blocks, base_allocate_new_computed_blocks. rewrite bind_get_st, Hcr, bind_get_st, Hk.
  unfold modify_m at 1. rewrite bind_modify, Ht. rewrite (bind_run _ _ _ tt (p, touch_table r m)) by done. cbv zeta.
  unfold new_need, num_skipped_blocks in *. set (total := local + ext) in *.
  set (sk := get_num_skipped_tokens (kv_cache_spec m) total `div` block_size m) in *.
  replace (if 0 <? sk then drop (Z.to_nat sk) hits else hits) with (drop (Z.to_nat sk) hits).
  2:{ destruct (Z.ltb_spec 0 sk); [done|]. by replace (Z.to_nat sk) with O by lia. }
  assert (0 ≤ total) as Htot by (pose proof (zlen_nonneg hits); unfold total; nia).
  assert (sk ≤ cdiv total (block_size m)) as Hsk by (etransitivity; [by apply skipped_blocks_bound|by apply div_le_cdiv]).
  assert (zlen hits ≤ cdiv total (block_size m)) as Hhits by (pose proof (cdiv_spec total (block_size m) Hbs); unfold total in *; nia).
  pose proof (cdiv_nonneg total (block_size m) Hbs Htot) as Hcd.
  destruct (place_computed_spec u c q r sk (drop (Z.to_nat sk) hits) p (touch_table r m))
    as [(Hoff & Hne & _)|(p1 & m1 & Hp1 & Hi1 & Htouch & Hm1)]; [by apply good_touch_table|by rewrite table_touch_table|by apply distinct_drop| |].
  { destruct Hca as [Hca| ->]; [change (enable_caching m = false) in Hoff; congruence|by rewrite drop_nil in Hne]. }
  rewrite (bind_run _ _ _ _ _ Hp1). pose proof (good_held _ _ _ _ Hi) as Hh. simpl in Hh.
  destruct (touch_budget p _ (drop (Z.to_nat sk) hits) p1 Hh) as [Hg Hfree]; [by apply distinct_drop|done|].
  assert (block_size m1 = block_size m ∧ zlen (table r m1) = Z.max (zlen hits) (Z.max 0 sk)) as [Hb1 Hl1].
  { rewrite Hm1. split; [done|]. unfold table, set_cached, set_table, set_tables, touch_table. simpl. rewrite lookup_insert_eq. simpl.
    rewrite zlen_app, zlen_replicate, zlen_drop. lia. }
  assert (owed r n m1 = Z.max (cdiv n (block_size m) - Z.max sk (zlen hits)) 0) as Ho.
  { unfold owed. rewrite Hb1, Hl1. pose proof (zlen_nonneg hits). lia. }
  case_match; [|by exists p1, m1; split; [done|]; split; [done|]; split; [done|]; lia].
  destruct (external_budget r n total p1 m1 Hi1) as (p2 & m2 & Hp2 & Hi2 & Hg2 & Hf2); [done|rewrite Hb1; lia|lia|].
  exists p2, m2. split; [done|]. split; [done|]. split; [by etransitivity|lia].
Qed.

(** What [remove_skipped_blocks] leaves of a request. *)
Definition same_request (r : string) (m m' : t) : Prop :=
  num_cached_block m' !! r = num_cached_block m !! r ∧ zlen (table r m') = zlen (table r m).

Lemma base_remove_run r n p m :
  I (p, m) → ∃ p' m', base_remove_skipped_blocks r n (p, m) = (Ok tt, (p', m')) ∧ I (p', m') ∧ same_request r m m'.
Proof.
  intros Hi. unfold base_remove_skipped_blocks. rewrite bind_get_st. cbv zeta. case_match; [by exists p, m|].
  rewrite (good_null _ _ _ _ _ Hi). destruct (skip_loop _ _ _) as [removed l] eqn:E.
  apply skip_loop_spec in E as [Hp Hl]; [|unfold zlen; lia].
  destruct (release_run u c q r l removed p m Hi Hp) as (p' & Hp' & Hi' & _); [unfold zlen; lia|].
  exists p', (set_table r l m). unfold modify_m. rewrite bind_modify. unfold on_fst. rewrite Hp'.
  split; [done|]. split; [done|]. split; [done|]. rewrite table_set_table. unfold zlen. lia.
Qed.

Lemma remove_skipped_run r n p m :
  I (p, m) → attention_type (kv_cache_spec m) →
  ∃ p' m', remove_skipped_blocks r n (p, m) = (Ok tt, (p', m')) ∧ I (p', m') ∧ same_request r m m'.
Proof.
  intros Hi Ha. unfold remove_skipped_blocks. rewrite bind_get_st.
  destruct (kv_cache_spec m); first [by apply base_remove_run|by destruct Ha].
Qed.

Lemma ready_same r hits local ext called p p' m m' :
  ready r hits local ext called p m → same_request r m m' → params m' = params m → blocks p' = blocks p →
  ready r hits local ext called p' m'.
Proof.
  intros Hr [Hk Hl] Hp Hb. injection Hp as Hs Hbs Hca _. destruct Hr as [k ? ?|? ? ? Hsk|? ? Ht [Hnd Hin] ? ? ?].
  - eapply Running; [by rewrite Hk|done].
  - apply Placed; [done|congruence|done|]. unfold num_skipped_blocks in *. rewrite Hs, Hbs, Hl. done.
  - apply New; [done|congruence| |split; [done|by rewrite Hb]|by rewrite Hbs|done|by rewrite Hca].
    rewrite Ht in Hl. by apply zlen_nil_inv.
Qed.

(** The call for computed blocks, when it is made, after references grew since the count. *)
Lemma ready_budget r hits local ext n p0 u0 p m v :
  I (p, m) → attention_type (kv_cache_spec m) → held p0 u0 → grows p0 p → ready r hits local ext true p0 m →
  local + ext ≤ n → base_num_blocks_to_allocate p0 m r n hits (local + ext) = Ok v → v ≤ get_num_free_blocks p →
  ∃ p' m', allocate_new_computed_blocks use_int r hits local ext (p, m) = (Ok tt, (p', m')) ∧ I (p', m') ∧ grows p p'
  ∧ get_num_free_blocks p - v + owed r n m' ≤ get_num_free_blocks p'.
Proof.
  intros Hi Ha H0 Hg Hr Hn Hv Hf. pose proof (attention_not_cross _ Ha) as Hcr.
  pose proof (good_held _ _ _ _ Hi) as Hh. simpl in Hh. pose proof (config_blocks _ _ (grows_config _ _ Hg)) as Hb.
  destruct (num_cached_block m !! r) as [k|] eqn:Hk.
  - rewrite (old_count _ _ _ _ _ _ _ _ Hr) in Hv by (left; by exists k). injection Hv as <-.
    exists p, m. split; [|split; [done|split; [done|lia]]]. unfold allocate_new_computed_blocks, base_allocate_new_computed_blocks.
    rewrite bind_get_st, Hcr, bind_get_st, Hk. destruct Hr as [? _ -> | |]; [done|congruence..].
  - destruct Hr as [k' ? _|? _ _ _|_ _ Ht Hd Hl Hext Hca]; [congruence|done|]. rewrite new_count in Hv by done. injection Hv as <-.
    assert (new_need p m n (local + ext) hits ≤ new_need p0 m n (local + ext) hits) as Hle.
    { unfold new_need. apply Z.add_le_mono_l, (num_evictable_grows p0 p u0 _ _ H0 Hh Hg). by apply distinct_drop. }
    destruct (computed_budget r hits local ext n p m Hi Hcr) as (p' & m' & ? & ? & ? & ?); [|done|done|lia|].
    { apply New; [done|done|done|destruct Hd as [? Hd]; split; [done|by rewrite Hb]|done..]. }
    exists p', m'. repeat (split; [done|]). lia.
Qed.
End budget.
End ManagerBudget.

(** ** All managers *)
Module AllocationBudget.
Import Coordinator ManagerBudget.

Definition sum_of (l : list Z) : Z := foldr Z.add 0 l.

Lemma sum_of_cons x l : sum_of (x :: l) = x + sum_of l.
Proof. done. Qed.

Lemma sum_of_nonneg l : Forall (Z.le 0) l → 0 ≤ sum_of l.
Proof. induction 1; rewrite ?sum_of_cons; [done|lia]. Qed.

Section coordinator.
Context (use_int : bool) (c : Z * bool * Z * list loc * loc * bool).

(** A call on every manager: with a measure [F] of the pool, a cost for every call that the
    measure covers, and what every call leaves for a later one. *)
Lemma run_managers_total {A J} (f : Z → py (BlockPool.t * Manager.t) A) (F : BlockPool.t → Z) (R : BlockPool.t → Prop)
    (Pre : Z → J → Manager.t → Prop) (cost : J → Z) (Post : J → Manager.t → Prop) (gain : Manager.t → Z) js ms i p u :
  (∀ i j u q p m, Pre i j m → R p → Manager.good u c q (p, m) → cost j ≤ F p →
     ∃ a p' m', f i (p, m) = (Ok a, (p', m')) ∧ Manager.good u c q (p', m') ∧ R p'
       ∧ F p - cost j + gain m' ≤ F p' ∧ Post j m') →
  (∀ m, 0 ≤ gain m) → Forall (Z.le 0) (cost <$> js) → length js = length ms →
  (∀ k j m, js !! k = Some j → ms !! k = Some m → Pre (i + Z.of_nat k) j m) →
  good_all u c (Manager.params <$> ms) (p, ms) → R p → sum_of (cost <$> js) ≤ F p →
  ∃ l p' ms', run_managers f i ms p = (Ok l, (p', ms')) ∧ good_all u c (Manager.params <$> ms) (p', ms') ∧ R p'
  ∧ F p - sum_of (cost <$> js) + sum_of (gain <$> ms') ≤ F p' ∧ Forall2 Post js ms'.
Proof.
  intros Hf Hgain. revert js i p u. induction ms as [|m ms IH]; intros [|j js] i p u Hcost Hlen Hpre Hg HR HF; try done.
  { exists [], p, []. simpl in *. split; [done|]. split; [done|]. split; [done|]. split; [lia|constructor]. }
  cbn [run_managers length] in *. rewrite fmap_cons in Hcost. rewrite fmap_cons in HF. rewrite sum_of_cons in HF. rewrite !fmap_cons, sum_of_cons.
  apply Forall_cons in Hcost as [Hj Hcost]. pose proof (sum_of_nonneg _ Hcost) as Hnn.
  destruct (good_all_head _ _ _ _ _ _ Hg) as [Hm Hok].
  destruct (Hf i j (all_uses ms ⊎ u) (Manager.params m) p m) as (a & p1 & m1 & Hrun & Hm1 & HR1 & HF1 & Hpost); [|done|done|lia|].
  { pose proof (Hpre O j m eq_refl eq_refl) as H. by rewrite Z.add_0_r in H. }
  pose proof (good_all_tail _ _ _ _ _ _ Hm1 Hok) as Ht. pose proof (Hgain m1).
  destruct (IH js (i + 1) p1 (Manager.uses m1 ⊎ u) Hcost ltac:(lia)) as (l & p2 & ms2 & Hrun2 & Hg2 & HR2 & HF2 & Hpost2); [|done|done|lia|].
  { intros k j' m' Hj' Hm'. replace (i + 1 + Z.of_nat k) with (i + Z.of_nat (S k)) by lia. by apply Hpre. }
  exists (a :: l), p2, (m1 :: ms2). rewrite Hrun, Hrun2. split; [done|]. destruct Hm1 as [_ Hok1 _ Hq1].
  split; [by apply good_all_cons|]. split; [done|]. split; [rewrite fmap_cons, sum_of_cons; lia|by constructor].
Qed.

(** A call on every manager that changes nothing. *)
Lemma run_managers_pure {X A} (f : Z → py (X * Manager.t) A) i ms x l :
  length l = length ms →
  (∀ k m a, ms !! k = Some m → l !! k = Some a → f (i + Z.of_nat k) (x, m) = (Ok a, (x, m))) →
  run_managers f i ms x = (Ok l, (x, ms)).
Proof.
  revert i l. induction ms as [|m ms IH]; intros i [|a l] Hl Hf; try done. simpl.
  pose proof (Hf O m a eq_refl eq_refl) as H. rewrite Z.add_0_r in H. rewrite H. rewrite (IH (i + 1) l); [done|by injection Hl|].
  intros k m' a' Hm Ha. replace (i + 1 + Z.of_nat k) with (i + Z.of_nat (S k)) by lia. by apply Hf.
Qed.

Section request.
Context (r : string) (hits : list (list loc)) (local ext : Z) (called : bool).

Definition all_attention (ms : list Manager.t) : Prop := Forall (λ m, attention_type (Manager.kv_cache_spec m)) ms.

(** Every manager and its computed blocks. *)
Definition all_ready (p : BlockPool.t) (ms : list Manager.t) : Prop :=
  length hits = length ms
  ∧ ∀ i m l, ms !! i = Some m → hits !! i = Some l → ready r l local ext called p m.

Lemma all_attention_params ms ms' : all_attention ms → Manager.params <$> ms' = Manager.params <$> ms → all_attention ms'.
Proof.
  unfold all_attention. intros Ha Hp. apply (Forall_fmap Manager.params (λ q, attention_type q.1.1.1)).
  rewrite Hp. apply Forall_fmap. exact Ha.
Qed.

Definition need_of (p : BlockPool.t) (n : Z) (j : Manager.t * list loc) : Z :=
  match Manager.base_num_blocks_to_allocate p j.1 r n j.2 (local + ext) with Ok v => v | Raise _ => 0 end.

Definition need (p : BlockPool.t) (n : Z) (ms : list Manager.t) : Z := sum_of (need_of p n <$> zip ms hits).

Lemma need_of_spec p n m l :
  ready r l local ext called p m →
  Manager.base_num_blocks_to_allocate p m r n l (local + ext) = Ok (need_of p n (m, l)) ∧ 0 ≤ need_of p n (m, l)
  ∧ (called = false → need_of p n (m, l) = owed r n m).
Proof.
  intros Hr. unfold need_of. simpl. destruct (decide (called = false)) as [Hc|Hc].
  - rewrite (old_count _ _ _ _ _ _ _ _ Hr) by (by right). split; [done|]. split; [apply owed_nonneg|done].
  - destruct (Manager.num_cached_block m !! r) as [k|] eqn:Hk.
    + rewrite (old_count _ _ _ _ _ _ _ _ Hr) by (left; by exists k). split; [done|]. split; [apply owed_nonneg|done].
    + destruct Hr as [? ? _|? _ _ _|? _ Ht _ _ _ _]; [congruence|done|]. rewrite new_count by done. split; [done|]. split; [|done].
      unfold new_need, Manager.get_num_evictable_blocks. pose proof (zlen_nonneg (filter (Manager.evictable p)
        (drop (Z.to_nat (num_skipped_blocks m (local + ext))) l))). lia.
Qed.

(** *** The calls of [allocate_slots] *)

Lemma remove_phase qs n s :
  CI c qs s → all_attention (single_type_managers s) → all_ready (block_pool s) (single_type_managers s) →
  ∃ s1, remove_skipped_blocks r n s = (Ok tt, s1) ∧ CI c qs s1 ∧ all_attention (single_type_managers s1)
  ∧ all_ready (block_pool s1) (single_type_managers s1).
Proof.
  intros Hi Ha [Hlen Hr]. pose proof Hi as [_ _ Hc Hq]. simpl in Hc, Hq. subst qs.
  destruct (run_managers_total (λ _, Manager.remove_skipped_blocks r n) (λ _, 0) (λ _, True)
    (λ _ j m, j = m ∧ attention_type (Manager.kv_cache_spec m)) (λ _, 0)
    (λ j m, same_request r j m ∧ Manager.params m = Manager.params j) (λ _, 0)
    (single_type_managers s) (single_type_managers s) 0 (block_pool s) ∅)
    as (l & p1 & ms1 & Hrun & Hi1 & _ & _ & Hpost); [|done|by apply Forall_fmap, Forall_true|done| |done|done|..].
  - intros i j u q p m [-> Hm] _ Hg _. destruct (remove_skipped_run u c q r n p m Hg Hm) as (p' & m' & ? & Hg' & ?).
    pose proof (Manager.good_params _ _ _ _ Hg). pose proof (Manager.good_params _ _ _ _ Hg'). simpl in *.
    exists tt, p', m'. repeat (split; [done|]). congruence.
  - intros k j m Hj Hm. rewrite Hj in Hm. injection Hm as <-. split; [done|]. by apply (Forall_lookup_1 _ _ k _ Ha).
  - clear. induction (single_type_managers s); [done|]. rewrite fmap_cons, sum_of_cons. lia.
  - exists (set_state p1 ms1 s). unfold remove_skipped_blocks, bind, on_managers. rewrite Hrun. split; [done|]. split; [done|].
    pose proof Hi1 as [_ _ Hc1 Hq1]. simpl in Hc1, Hq1. split; [by apply (all_attention_params (single_type_managers s))|].
    simpl. split; [by rewrite Hlen, (Forall2_length _ _ _ Hpost)|]. intros i m l0 Hm Hl0.
    destruct (Forall2_lookup_r _ _ _ _ _ Hpost Hm) as (m0 & Hm0 & Hsame & Hpar).
    apply (ready_same r l0 local ext called (block_pool s) p1 m0 m); [by apply (Hr i)|done|done|].
    apply BlockPool.config_blocks. congruence.
Qed.

Lemma count_phase n enc main s :
  all_attention (single_type_managers s) → all_ready (block_pool s) (single_type_managers s) →
  get_num_blocks_to_allocate r n hits enc (local + ext) main s = (Ok (need (block_pool s) n (single_type_managers s)), s).
Proof.
  intros Ha [Hlen Hr]. unfold get_num_blocks_to_allocate, bind at 1, on_managers.
  rewrite (run_managers_pure _ 0 _ (block_pool s) (need_of (block_pool s) n <$> zip (single_type_managers s) hits)).
  - by destruct s.
  - rewrite length_fmap, length_zip_with. lia.
  - intros k m v Hm Hv. rewrite list_lookup_fmap in Hv. apply fmap_Some in Hv as ([m0 l] & Hz & ->).
    apply lookup_zip_with_Some in Hz as (x & y & [= <- <-] & Hx & Hl). rewrite Hm in Hx. injection Hx as <-.
    pose proof (Forall_lookup_1 _ _ k _ Ha Hm) as Hatt. simpl in Hatt. destruct (need_of_spec _ n m l (Hr k m l Hm Hl)) as (Hn & _).
    rewrite bind_get_st, (attention_not_cross _ Hatt). rewrite (bind_run _ _ _ l (block_pool s, m)).
    2:{ unfold lift. rewrite py_index_nonneg by lia. rewrite Z.add_0_l, Nat2Z.id, Hl. done. }
    unfold Manager.get_num_blocks_to_allocate. rewrite bind_get_st. unfold lift. rewrite Hn.
    by destruct (Manager.kv_cache_spec m).
Qed.

(** The blocks that are still owed when the computed ones are placed. *)
Definition all_owed (n : Z) (ms : list Manager.t) : Z := sum_of (owed r n <$> ms).

Lemma placed_phase p n ms : called = false → all_ready p ms → need p n ms = all_owed n ms.
Proof.
  intros Hc [Hlen Hr]. unfold need, all_owed. f_equal. apply list_eq_same_length with (n := length ms).
  { by rewrite length_fmap. }
  { rewrite length_fmap, length_zip_with. lia. }
  intros k x y Hk Hx Hy. rewrite list_lookup_fmap in Hx. rewrite list_lookup_fmap in Hy. apply fmap_Some in Hx as ([m l] & Hz & ->).
  apply fmap_Some in Hy as (m' & Hm' & ->). apply lookup_zip_with_Some in Hz as (? & ? & [= <- <-] & Hm & Hl).
  assert (m = m') as <- by congruence. by destruct (need_of_spec p n m l (Hr k m l Hm Hl)) as (_ & _ & ->).
Qed.

Lemma computed_phase qs n s :
  called = true → CI c qs s → all_attention (single_type_managers s) → all_ready (block_pool s) (single_type_managers s) →
  local + ext ≤ n → need (block_pool s) n (single_type_managers s) ≤ BlockPool.get_num_free_blocks (block_pool s) →
  ∃ s1, allocate_new_computed_blocks use_int r hits local ext s = (Ok tt, s1) ∧ CI c qs s1
  ∧ all_attention (single_type_managers s1)
  ∧ BlockPool.get_num_free_blocks (block_pool s) - need (block_pool s) n (single_type_managers s)
    + all_owed n (single_type_managers s1) ≤ BlockPool.get_num_free_blocks (block_pool s1).
Proof.
  intros Hcall Hi Ha [Hlen Hr] Hn Hf. pose proof Hi as [Hh _ Hc Hq]. simpl in Hh, Hc, Hq. subst qs.
  destruct (run_managers_total (λ i, let* blocks := lift (py_index hits i) in
        Manager.allocate_new_computed_blocks use_int r blocks local ext) BlockPool.get_num_free_blocks (grows (block_pool s))
    (λ i j m, j.1 = m ∧ py_index hits i = Ok j.2 ∧ attention_type (Manager.kv_cache_spec m) ∧ ready r j.2 local ext called (block_pool s) m)
    (need_of (block_pool s) n) (λ _ _, True) (owed r n)
    (zip (single_type_managers s) hits) (single_type_managers s) 0 (block_pool s) ∅)
    as (l & p1 & ms1 & Hrun & Hi1 & _ & Hfree & _).
  - intros i [m0 l] u q p m ([= ->] & Hpy & Hatt & Hrd) Hg Hgood Hcost. simpl in Hpy, Hrd. rewrite (bind_run _ _ _ l (p, m)) by (unfold lift; by rewrite Hpy).
    rewrite Hcall in Hrd. destruct (need_of_spec (block_pool s) n m l) as (Hv & _); [by rewrite Hcall|].
    destruct (ready_budget use_int u c q r l local ext n (block_pool s) _ p m _ Hgood Hatt Hh Hg Hrd Hn Hv Hcost)
      as (p' & m' & ? & ? & ? & ?). exists tt, p', m'. repeat (split; [done|]). split; [by etransitivity|done].
  - intros. apply owed_nonneg.
  - apply Forall_fmap, Forall_lookup. intros k [m l] Hz. apply lookup_zip_with_Some in Hz as (? & ? & [= <- <-] & Hm & Hl).
    by destruct (need_of_spec (block_pool s) n m l (Hr k m l Hm Hl)) as (_ & ? & _).
  - rewrite length_zip_with. lia.
  - intros k [m0 l] m Hz Hm. apply lookup_zip_with_Some in Hz as (? & ? & [= <- <-] & Hm0 & Hl). simpl.
    assert (m0 = m) as -> by congruence. split; [done|]. split; [|split; [by apply (Forall_lookup_1 _ _ k _ Ha)|by apply (Hr k)]].
    rewrite py_index_nonneg by lia. rewrite Z.add_0_l, Nat2Z.id, Hl. done.
  - done.
  - done.
  - done.
  - exists (set_state p1 ms1 s). unfold allocate_new_computed_blocks, bind at 1, on_managers. rewrite Hrun.
    split; [done|]. split; [done|]. split; [|done]. pose proof Hi1 as [_ _ _ Hq1]. by apply (all_attention_params (single_type_managers s)).
Qed.

(** The call for the computed blocks, or none. *)
Lemma computed_or_placed qs n s :
  CI c qs s → all_attention (single_type_managers s) → all_ready (block_pool s) (single_type_managers s) →
  local + ext ≤ n → need (block_pool s) n (single_type_managers s) ≤ BlockPool.get_num_free_blocks (block_pool s) →
  ∃ s1, (if called then allocate_new_computed_blocks use_int r hits local ext else ret tt) s = (Ok tt, s1) ∧ CI c qs s1
  ∧ all_attention (single_type_managers s1)
  ∧ BlockPool.get_num_free_blocks (block_pool s) - need (block_pool s) n (single_type_managers s)
    + all_owed n (single_type_managers s1) ≤ BlockPool.get_num_free_blocks (block_pool s1).
Proof.
  intros Hi Ha Hr Hn Hf. destruct (decide (called = true)) as [Hc|Hc%not_true_is_false].
  - destruct (computed_phase qs n s Hc Hi Ha Hr Hn Hf) as (s1 & ? & ?). exists s1. by rewrite Hc.
  - exists s. rewrite Hc, <- (placed_phase (block_pool s)) by done. split; [done|]. split; [done|]. split; [done|lia].
Qed.

Lemma new_phase qs n main enc s :
  CI c qs s → all_attention (single_type_managers s) →
  all_owed n (single_type_managers s) ≤ BlockPool.get_num_free_blocks (block_pool s) →
  ∃ new s1, allocate_new_blocks use_int r n main enc s = (Ok new, s1) ∧ CI c qs s1
  ∧ BlockPool.get_num_free_blocks (block_pool s) - all_owed n (single_type_managers s) ≤ BlockPool.get_num_free_blocks (block_pool s1)
  ∧ Forall (λ m, n ≤ zlen (Manager.table r m) * Manager.block_size m) (single_type_managers s1).
Proof.
  intros Hi Ha Hf. pose proof Hi as [_ _ Hc Hq]. simpl in Hc, Hq. subst qs.
  destruct (run_managers_total (λ _, let* (_, m) := get_st in
        Manager.allocate_new_blocks use_int r (if is_cross (Manager.kv_cache_spec m) then enc else n) main)
    BlockPool.get_num_free_blocks (λ _, True) (λ _ j m, j = m ∧ attention_type (Manager.kv_cache_spec m)) (owed r n)
    (λ _ m, n ≤ zlen (Manager.table r m) * Manager.block_size m) (λ _, 0)
    (single_type_managers s) (single_type_managers s) 0 (block_pool s) ∅)
    as (l & p1 & ms1 & Hrun & Hi1 & _ & Hfree & Hpost); [|done| |done| |done|done|exact Hf|].
  - intros i j u q p m [-> Hatt] _ Hg Hcost. rewrite bind_get_st, (attention_not_cross _ Hatt).
    unfold Manager.allocate_new_blocks. rewrite bind_get_st.
    destruct (base_allocate_budget use_int u c q r n p m Hg Hcost) as (l & p' & m' & Hrun & Hg' & _ & Hnum & Hl).
    exists l, p', m'. split; [by destruct (Manager.kv_cache_spec m)|]. split; [done|]. split; [done|]. split; [lia|].
    assert (Manager.block_size m' = Manager.block_size m) as ->.
    { pose proof (Manager.good_params _ _ _ _ Hg) as H1. pose proof (Manager.good_params _ _ _ _ Hg') as H2.
      unfold Manager.params in H1, H2. simpl in H1, H2. congruence. }
    pose proof (Manager.ok_size _ (Manager.good_ok _ _ _ _ Hg)) as Hbs. simpl in Hbs.
    pose proof (cdiv_spec n (Manager.block_size m) Hbs). nia.
  - apply Forall_fmap, Forall_true. intros. apply owed_nonneg.
  - intros k j m Hj Hm. split; [congruence|]. by apply (Forall_lookup_1 _ _ k _ Ha).
  - exists l, (set_state p1 ms1 s). unfold allocate_new_blocks, on_managers. rewrite Hrun. split; [done|]. split; [done|].
    assert (sum_of ((λ _ : Manager.t, 0) <$> ms1) = 0) as H0 by (clear; induction ms1; [done|by rewrite fmap_cons, sum_of_cons, IHms1]).
    rewrite H0 in Hfree. unfold all_owed. split; [simpl; lia|]. apply Forall_lookup. intros i m Hm.
    by destruct (Forall2_lookup_r _ _ _ _ _ Hpost Hm) as (? & _ & ?).
Qed.
End request.
End coordinator.

(** ** [allocate_slots] *)
Import KVCacheManager CacheBlocks.

(** The tokens up to which [allocate_slots] gives slots. *)
Definition slots (n nc la ext : Z) (r : Request) (k : KVCacheManager.t) : Z :=
  Z.min (Z.min (num_computed_tokens r + nc + ext) (max_model_len k) + n + la) (max_model_len k).

(** The calls behind the check: the blocks of a new request, and new blocks. *)
Definition take_blocks (use_int called : bool) (id : string) (hits : list (list loc)) (local ext n main enc : Z)
    : py (KVCacheManager.t * Request) (list (list loc)) :=
  (if called then on_manager (on_coord (allocate_new_computed_blocks use_int id hits local ext)) else ret tt) ;;;
  on_manager (on_coord (allocate_new_blocks use_int id n main enc)).

(** [allocate_slots] up to the caching of full blocks, which a delay leaves out. *)
Lemma allocate_slots_run use_int c qs k r n nc blks la ext enc :
  KI c qs k →
  let computed := default EmptyBlocks blks in
  let local := num_computed_tokens r + nc in
  let total := Z.min (local + ext) (max_model_len k) in
  let hits := blocks (num_kv_cache_groups k) computed in
  let called := negb (is_empty_object computed) || (0 <? ext) in
  all_attention (tables k) → all_ready (request_id r) hits local ext called (pool k) (tables k) →
  0 ≤ n → 0 ≤ ext → 0 < n + ext → 0 ≤ la → local + ext ≤ max_model_len k →
  ∃ k1 need, remove_skipped_blocks (request_id r) total k = (Ok tt, k1)
  ∧ on_coord (get_num_blocks_to_allocate (request_id r) (slots n nc la ext r k) hits enc (local + ext) (total + n)) k1 = (Ok need, k1)
  ∧ if decide (BlockPool.get_num_free_blocks (pool k1) < need) then
      ∀ delay, allocate_slots use_int n nc blks la ext delay enc (k, r) = (Ok None, (k1, r))
    else ∃ new k2,
      (∀ delay, allocate_slots use_int n nc blks la ext delay enc (k, r)
       = (if negb (enable_caching k) || delay then ret (Some (create_kv_cache_blocks new))
          else coord_cache_blocks use_int (Z.min (total + n) (num_tokens r)) ;;; ret (Some (create_kv_cache_blocks new))) (k2, r))
      ∧ take_blocks use_int called (request_id r) hits local ext (slots n nc la ext r k) (total + n) enc (k1, r) = (Ok new, (k2, r))
      ∧ BlockPool.get_num_free_blocks (pool k1) - need ≤ BlockPool.get_num_free_blocks (pool k2)
      ∧ KI c qs k2
      ∧ Forall (λ m, slots n nc la ext r k ≤ zlen (Manager.table (request_id r) m) * Manager.block_size m) (tables k2).
Proof.
  intros Hk computed local total hits called Hatt Hrdy Hn Hext Hsome Hla Hmax. unfold KI in Hk.
  unfold slots. fold local. fold total. set (sl := Z.min (total + n + la) (max_model_len k)).
  assert (local + ext ≤ sl) as Hsl by (unfold sl, total; lia).
  destruct (remove_phase c (request_id r) hits local ext called qs total (coordinator k) Hk Hatt Hrdy) as (c1 & Hrem & Hi1 & Ha1 & Hr1).
  pose proof (count_phase (request_id r) hits local ext called sl enc (total + n) c1 Ha1 Hr1) as Hcount.
  set (nd := need (request_id r) hits local ext (block_pool c1) sl (single_type_managers c1)) in *.
  set (k1 := set_coordinator c1 k). assert (∀ A (m : py Coordinator.t A), on_coord m k1 = let '(a, s) := m c1 in (a, set_coordinator s k)) as Hon by done.
  exists k1, nd. split; [unfold remove_skipped_blocks, on_coord; by rewrite Hrem|]. split; [by rewrite Hon, Hcount|].
  case_decide as Hd; [|destruct (computed_or_placed use_int c (request_id r) hits local ext called qs sl c1 Hi1 Ha1 Hr1 Hsl) as (c2 & Hcomp & Hi2 & Ha2 & Hf2);
    [fold nd; unfold pool in Hd; simpl in Hd; lia|];
    destruct (new_phase use_int c (request_id r) qs sl (total + n) enc c2 Hi2 Ha2) as (new & c3 & Hnew & Hi3 & Hf3 & Hlen);
    [pose proof (sum_of_nonneg (owed (request_id r) sl <$> single_type_managers c2)); unfold pool in *; simpl in *; lia|];
    assert ((if called then on_manager (on_coord (allocate_new_computed_blocks use_int (request_id r) hits local ext)) else ret tt) (k1, r)
            = (Ok tt, (set_coordinator c2 k, r))) as Hc2 by (destruct called; [unfold on_manager; by rewrite Hon, Hcomp|by injection Hcomp as <-]);
    assert (on_manager (on_coord (allocate_new_blocks use_int (request_id r) sl (total + n) enc)) (set_coordinator c2 k, r)
            = (Ok new, (set_coordinator c3 k, r))) as Hc3 by (unfold on_manager, on_coord; simpl; by rewrite Hnew);
    exists new, (set_coordinator c3 k); split; [|split; [|split; [unfold pool in *; simpl in *; fold nd in Hf2; lia|by split]]]].
  3: by unfold take_blocks; rewrite (bind_run _ _ _ _ _ Hc2).
  all: intros delay; unfold allocate_slots; rewrite bind_get_st; replace ((n =? 0) && (ext =? 0)) with false by (symmetry; apply andb_false_iff; lia).
  all: cbv zeta; fold computed local hits total; fold total; fold sl; fold called.
  all: rewrite (bind_run _ _ (k, r) tt (k1, r)) by (unfold on_manager, on_coord; by rewrite Hrem).
  all: rewrite (bind_run _ _ (k1, r) nd (k1, r)) by (unfold on_manager; by rewrite Hon, Hcount); rewrite bind_get_st.
  all: change (block_pool (coordinator k1)) with (pool k1); rewrite Z.gtb_ltb.
  - by rewrite (proj2 (Z.ltb_lt _ _) Hd).
  - rewrite (proj2 (Z.ltb_ge _ _)) by lia. by rewrite (bind_run _ _ _ _ _ Hc2), (bind_run _ _ _ _ _ Hc3).
Qed.

(** C10. An allocation for a model with attention layers never runs out of blocks behind its
    check: in a reachable state, for a request that runs or is new, [allocate_slots] frees
    the skipped blocks and counts the needed ones; it returns None exactly when fewer are
    free. Otherwise the calls for the computed, the external and the new blocks succeed and
    take no more than the counted blocks, every group's table then has slots for all tokens,
    and only the caching of full blocks is left to do. *)
Theorem allocation_never_short use_int nb specs mml hbs caching eagle stats events dcp pcp k0 k
    r n nc blks la ext delay enc :
  create nb specs mml hbs caching eagle stats events dcp pcp = Ok k0 → Forall wf_spec specs → reachable use_int k0 k →
  let computed := default EmptyBlocks blks in
  let local := num_computed_tokens r + nc in
  let total := Z.min (local + ext) (max_model_len k) in
  let hits := blocks (num_kv_cache_groups k) computed in
  all_attention (tables k) →
  all_ready (request_id r) hits local ext (negb (is_empty_object computed) || (0 <? ext)) (pool k) (tables k) →
  0 ≤ n → 0 ≤ ext → 0 < n + ext → 0 ≤ la → local + ext ≤ max_model_len k →
  ∃ k1 need, remove_skipped_blocks (request_id r) total k = (Ok tt, k1)
  ∧ on_coord (get_num_blocks_to_allocate (request_id r) (slots n nc la ext r k) hits enc (local + ext) (total + n)) k1 = (Ok need, k1)
  ∧ if decide (BlockPool.get_num_free_blocks (pool k1) < need) then
      allocate_slots use_int n nc blks la ext delay enc (k, r) = (Ok None, (k1, r))
    else ∃ new k2,
      allocate_slots use_int n nc blks la ext delay enc (k, r)
      = (if negb (enable_caching k) || delay then ret (Some (create_kv_cache_blocks new))
         else coord_cache_blocks use_int (Z.min (total + n) (num_tokens r)) ;;; ret (Some (create_kv_cache_blocks new))) (k2, r)
      ∧ BlockPool.get_num_free_blocks (pool k1) - need ≤ BlockPool.get_num_free_blocks (pool k2)
      ∧ (∃ free, BlockPool.inv (pool k2) free BlockPool.none)
      ∧ Forall (λ m, slots n nc la ext r k ≤ zlen (Manager.table (request_id r) m) * Manager.block_size m) (tables k2).
Proof.
  intros Hc Hwf Hr computed local total hits Hatt Hrdy Hn Hext Hsome Hla Hmax.
  destruct (reachable_KI _ _ _ _ _ _ _ _ _ _ _ _ _ Hc Hwf Hr) as (c & qs & Hk).
  destruct (allocate_slots_run use_int c qs k r n nc blks la ext enc Hk Hatt Hrdy Hn Hext Hsome Hla Hmax) as (k1 & nd & Hrem & Hcount & Hrun).
  exists k1, nd. split; [done|]. split; [done|]. case_decide; [done|]. destruct Hrun as (new & k2 & Hrun & _ & Hfree & [[? _ _] _ _ _] & Hl).
  exists new, k2. split; [apply Hrun|]. done.
Qed.
End AllocationBudget.
