(* ===== verification/TableHashes.v ===== *)
(** Which blocks of the requests' tables bear hashes and are shared: those behind a request's
    cached ones do not, and are in no other table.  So the caching of full blocks never
    meets a block that is cached, and never fails. *)
From stdpp Require Import gmap gmultiset strings.
From S2P Require Export Runs AllocationBudget.
From stdpp Require Import options.
Import KVSpec.
Open Scope Z_scope.

Module TableHashes.
Import FreeQueue BlockPool Held Manager ManagerBudget.

Definition hash_of (p : BlockPool.t) (b : loc) : option (list Z) := FreeQueue.block_hash (block_of p b).
Definition num_cached (r : string) (m : t) : Z := default 0 (num_cached_block m !! r).

Record tidy (p : BlockPool.t) (m : t) : Prop := Tidy {
  tidy_new r i b : table r m !! i = Some b → num_cached r m ≤ Z.of_nat i → b ≠ 0 → hash_of p b = None ∧ (multiplicity b (uses m) ≤ 1)%nat;
  tidy_count r : 0 ≤ num_cached r m
}.

(** Nothing changes but what belongs to the request. *)
Definition alone (r : string) (m m' : t) : Prop :=
  ∀ r', r' ≠ r → table r' m' = table r' m ∧ num_cached_block m' !! r' = num_cached_block m !! r'.

#[export] Instance alone_preorder r : PreOrder (alone r).
Proof. split; [by intros m r' _|]. intros m1 m2 m3 H1 H2 r' Hr. destruct (H1 r' Hr), (H2 r' Hr). split; congruence. Qed.

Lemma alone_set_table r l m : alone r m (set_table r l m).
Proof. intros r' Hr. by rewrite table_set_table_ne. Qed.

Lemma alone_set_cached r k m : alone r m (set_cached (<[r := k]> (num_cached_block m)) m).
Proof. intros r' Hr. split; [done|]. simpl. by rewrite lookup_insert_ne. Qed.

Lemma num_cached_set_table r r' l m : num_cached r' (set_table r l m) = num_cached r' m.
Proof. done. Qed.

Lemma data_hash p p' x : data (block_of p' x) = data (block_of p x) → hash_of p' x = hash_of p x.
Proof. by intros (_ & _ & ? & _)%data_eq. Qed.

Lemma data_ref_hash p p' x n : data (block_of p' x) = with_ref n (data (block_of p x)) → hash_of p' x = hash_of p x.
Proof. unfold data, hash_of. simpl. congruence. Qed.

Lemma multiplicity_zero b l : b ∉ l → multiplicity b (bag l) = 0%nat.
Proof. intros Hb. apply not_elem_of_multiplicity. by rewrite elem_of_bag. Qed.

Lemma multiplicity_once b l : b ≠ 0 → NoDup (filter proper l) → (multiplicity b (bag l) ≤ 1)%nat.
Proof.
  intros Hb Hnd. destruct (decide (b ∈ l)) as [Hin|Hin]; [|by rewrite multiplicity_zero by done; lia].
  pose proof (times_once b l Hnd Hin Hb) as H. rewrite times_bag in H. lia.
Qed.

(** One request's change. *)
Lemma tidy_step r p m p' m' :
  tidy p m → alone r m m' → 0 ≤ num_cached r m' →
  (∀ r' b, r' ≠ r → b ∈ table r' m → b ≠ 0 → hash_of p b = None → (multiplicity b (uses m) ≤ 1)%nat →
     hash_of p' b = None ∧ (multiplicity b (uses m') ≤ 1)%nat) →
  (∀ i b, table r m' !! i = Some b → num_cached r m' ≤ Z.of_nat i → b ≠ 0 → hash_of p' b = None ∧ (multiplicity b (uses m') ≤ 1)%nat) → tidy p' m'.
Proof.
  intros [Hn Hc] Ha Hk Hother Hself. split.
  - intros r' i b Hb Hi Hb0. destruct (decide (r' = r)) as [->|Hr]; [by apply (Hself i)|].
    destruct (Ha r' Hr) as [Ht He]. unfold num_cached in Hi. rewrite Ht in Hb. rewrite He in Hi. destruct (Hn r' i b Hb Hi Hb0).
    apply (Hother r'); [done|by apply list_elem_of_lookup_2 in Hb|done..].
  - intros r'. destruct (decide (r' = r)) as [->|Hr]; [done|]. destruct (Ha r' Hr) as [_ He]. unfold num_cached. rewrite He. apply Hc.
Qed.

(** Blocks of the table that are replaced by null blocks. *)
Lemma tidy_shrink r l removed p p' m :
  tidy p m → (∀ b, hash_of p' b = hash_of p b) → filter proper (table r m) ≡ₚ filter proper (removed ++ l) →
  (∀ i b, l !! i = Some b → b ≠ 0 → table r m !! i = Some b) → tidy p' (set_table r l m).
Proof.
  intros Ht Hh Hp Hl. pose proof Ht as [Hn Hc].
  assert (∀ b, b ≠ 0 → (multiplicity b (uses (set_table r l m)) ≤ multiplicity b (uses m))%nat) as Hle.
  { intros b Hb0. rewrite uses_set_table, (uses_split r m), !multiplicity_disj_union. pose proof (bag_proper b _ _ Hb0 Hp) as Hm.
    rewrite bag_app, multiplicity_disj_union in Hm. lia. }
  apply (tidy_step r p m); [done|apply alone_set_table|apply Hc|..].
  - intros r' b _ _ Hb0 Hb Ho. rewrite Hh. split; [done|]. specialize (Hle b Hb0). lia.
  - intros i b Hb Hi Hb0. rewrite table_set_table in Hb. rewrite Hh. specialize (Hle b Hb0). destruct (Hn r i b) as [? ?]; [by apply Hl|done|done|]. split; [done|lia].
Qed.

Lemma tidy_touch_table r p m : tidy p m → tidy p (touch_table r m).
Proof. intros Ht. by apply (tidy_shrink r _ [] p p). Qed.

(** New blocks at the end of the table. *)
Lemma tidy_extend r l p p' m :
  tidy p m → NoDup l → (∀ b, b ∈ l → (b ∉ uses m) ∧ hash_of p' b = None) → (∀ b, b ∉ l → hash_of p' b = hash_of p b) →
  tidy p' (set_table r (table r m ++ l) m).
Proof.
  intros Ht Hnd Hl Hh. pose proof Ht as [Hn Hc].
  assert (∀ b, multiplicity b (uses (set_table r (table r m ++ l) m)) = (multiplicity b (bag l) + multiplicity b (uses m))%nat) as Hu.
  { intros b. rewrite uses_set_table, bag_app, (uses_split r m), !multiplicity_disj_union. lia. }
  assert (∀ b, b ∉ l → hash_of p b = None → (multiplicity b (uses m) ≤ 1)%nat →
    hash_of p' b = None ∧ (multiplicity b (uses (set_table r (table r m ++ l) m)) ≤ 1)%nat) as Hold.
  { intros b Hb ? ?. rewrite Hu, Hh, multiplicity_zero by done. split; [done|lia]. }
  apply (tidy_step r p m); [done|apply alone_set_table|apply Hc|..].
  - intros r' b _ Hb _ Hb0 Ho. apply Hold; [|done|done]. intros Hbl. destruct (Hl b Hbl) as [Hu' _]. apply Hu', elem_of_uses. by exists r'.
  - intros i b Hb Hi Hb0. rewrite table_set_table in Hb. destruct (decide (b ∈ l)) as [Hbl|Hbl].
    + destruct (Hl b Hbl) as [Hu' Hb']. apply not_elem_of_multiplicity in Hu'. rewrite Hu, Hu'. split; [done|].
      pose proof (multiplicity_once b l Hb0 (NoDup_filter _ _ Hnd)). lia.
    + apply lookup_app_Some in Hb as [Hb|[_ Hb]]; [|by apply list_elem_of_lookup_2 in Hb]. destruct (Hn r i b Hb Hi Hb0). by apply Hold.
Qed.

(** Cached blocks in a new table. *)
Lemma tidy_place r sk hits p p' m :
  tidy p m → (∀ b, hash_of p' b = hash_of p b) → (∀ b, b ∈ hits → b ≠ 0 → hash_of p b ≠ None) →
  let l := replicate sk 0 ++ hits in tidy p' (set_cached (<[r := zlen l]> (num_cached_block m)) (set_table r l m)).
Proof.
  intros Ht Hh Hhits l. assert (num_cached r (set_cached (<[r := zlen l]> (num_cached_block m)) (set_table r l m)) = zlen l) as Hk.
  { unfold num_cached. simpl. by rewrite lookup_insert_eq. }
  apply (tidy_step r p m); [done| |rewrite Hk; apply zlen_nonneg|..].
  - transitivity (set_table r l m); [apply alone_set_table|apply (alone_set_cached r _ (set_table r l m))].
  - intros r' b _ _ Hb0 Hb Ho. rewrite Hh. split; [done|]. change (multiplicity b (uses (set_table r l m)) ≤ 1)%nat.
    rewrite (uses_split r m), multiplicity_disj_union in Ho. rewrite uses_set_table, multiplicity_disj_union, multiplicity_zero; [lia|].
    intros [Hr|Hin]%elem_of_app; [by apply elem_of_replicate in Hr as [-> _]|by apply (Hhits b)].
  - intros i b Hb Hi. change (table r (set_table r l m) !! i = Some b) in Hb. rewrite table_set_table in Hb. rewrite Hk in Hi.
    apply lookup_lt_Some in Hb. unfold zlen in Hi. lia.
Qed.

(** A request that leaves. *)
Lemma tidy_delete r p p' m :
  tidy p m → (∀ b, hash_of p' b = hash_of p b) →
  tidy p' (set_cached (delete r (num_cached_block m)) (set_tables (delete r (req_to_blocks m)) m)).
Proof.
  intros Ht Hh. set (m' := set_cached _ _). assert (table r m' = [] ∧ num_cached r m' = 0) as [Ht0 Hk0].
  { unfold table, num_cached. simpl. by rewrite !lookup_delete_eq. }
  apply (tidy_step r p m); [done| |by rewrite Hk0|..].
  - intros r' Hr. unfold table. simpl. by rewrite !lookup_delete_ne.
  - intros r' b _ _ Hb0 Hb Ho. rewrite Hh. split; [done|]. rewrite (uses_split r m), multiplicity_disj_union in Ho. change (uses m') with (others r m). lia.
  - intros i b. by rewrite Ht0.
Qed.

(** Blocks may lose their hashes at any time. *)
Lemma tidy_forget p p' m : tidy p m → (∀ b, hash_of p' b = hash_of p b ∨ hash_of p' b = None) → tidy p' m.
Proof.
  intros [Hn Hc] Hh. split; [|done]. intros r i b Hb Hi Hb0. destruct (Hn r i b Hb Hi Hb0) as [He ?]. split; [|done]. destruct (Hh b) as [->| ->]; done.
Qed.

(** *** Caching *)

(** The blocks of a slice are not behind it. *)
Lemma slice_once (l : list loc) n k b i :
  NoDup (filter proper l) → 0 ≤ n ≤ k → b ≠ 0 → b ∈ py_slice l n k → l !! i = Some b → Z.of_nat i < k.
Proof.
  intros Hnd Hnk Hb0 Hb Hi. rewrite py_slice_nonneg in Hb by lia. destruct (decide (Z.of_nat i < k)) as [|Hik]; [done|].
  rewrite <- (take_drop (Z.to_nat k) l), filter_app in Hnd. apply NoDup_app in Hnd as (_ & Hd & _). exfalso. apply (Hd b).
  - apply list_elem_of_filter. split; [done|]. apply list_elem_of_lookup in Hb as [j Hj]. apply lookup_take_Some in Hj as [Hj Hlt].
    rewrite lookup_drop in Hj. apply list_elem_of_lookup. exists (Z.to_nat n + j)%nat. rewrite lookup_take_lt; [done|lia].
  - apply list_elem_of_filter. split; [done|]. apply list_elem_of_lookup. exists (i - Z.to_nat k)%nat. rewrite lookup_drop, <- Hi. f_equal. lia.
Qed.

(** A block of the table behind the cached ones bears no hash, and is in no other table. *)
Lemma uncached_block p m r n k b :
  tidy p m → n = num_cached r m → n ≤ k → b ∈ py_slice (table r m) n k → b ≠ 0 →
  hash_of p b = None ∧ ∀ r', r' ≠ r → b ∉ table r' m.
Proof.
  intros Ht -> Hk Hb Hb0. pose proof (tidy_count _ _ Ht r) as Hc. rewrite py_slice_nonneg in Hb by lia.
  apply list_elem_of_lookup in Hb as [j Hj]. apply lookup_take_Some in Hj as [Hj _]. rewrite lookup_drop in Hj.
  destruct (tidy_new _ _ Ht r _ b Hj) as [Hh Ho]; [lia|done|]. split; [done|]. intros r' Hr Hb'.
  rewrite (uses_split r m), multiplicity_disj_union in Ho.
  assert (b ∈ bag (table r m)) as H1 by (apply elem_of_bag; by apply list_elem_of_lookup_2 in Hj).
  assert (b ∈ others r m) as H2.
  { change (others r m) with (uses (set_tables (delete r (req_to_blocks m)) m)). apply elem_of_uses. exists r'.
    unfold table. simpl. by rewrite lookup_delete_ne. }
  rewrite elem_of_multiplicity in H1, H2. lia.
Qed.

Lemma tidy_cache r n k p p' m :
  tidy p m → NoDup (filter proper (table r m)) → n = num_cached r m → n ≤ k →
  (∀ b, b = 0 ∨ b ∉ py_slice (table r m) n k → hash_of p' b = hash_of p b) →
  tidy p' (set_cached (<[r := k]> (num_cached_block m)) m).
Proof.
  intros Ht Hnd Hn Hk Hsame. pose proof (tidy_count _ _ Ht r) as Hc.
  assert (num_cached r (set_cached (<[r := k]> (num_cached_block m)) m) = k) as Hk' by (unfold num_cached; simpl; by rewrite lookup_insert_eq).
  apply (tidy_step r p m); [done|apply alone_set_cached|rewrite Hk'; lia|..].
  - intros r' b Hr Hb Hb0 Hh Ho. split; [|done]. rewrite Hsame; [done|]. right. intros Hin. by apply (uncached_block p m r n k b Ht Hn Hk Hin Hb0) in Hr.
  - intros i b Hb Hi Hb0. change (table r m !! i = Some b) in Hb. rewrite Hk' in Hi. rewrite Hsame; [apply (tidy_new _ _ Ht r i); [done|lia|done]|].
    right. intros Hin. pose proof (slice_once (table r m) n k b i Hnd ltac:(lia) Hb0 Hin Hb). lia.
Qed.

Section operations.
Context (use_int : bool) (c : Z * bool * Z * list loc * loc * bool) (q : KVCacheSpec * Z * bool * Z).
Context (Hcaching : c.1.1.1.1.2 = true).

(** What the calls for a request keep, from a state [m0] of the manager on. *)
Record kept (r : string) (m0 : t) (s : BlockPool.t * t) : Prop := Kept {
  kept_good : good ∅ c q s;
  kept_tidy : tidy s.1 s.2;
  kept_others : alone r m0 s.2
}.
Abbreviation keeps r m0 := (post (kept r m0) (λ _, True)).

Lemma kept_caching r m0 p m : kept r m0 (p, m) → BlockPool.enable_caching p = true.
Proof using Hcaching. intros [[_ _ Hc _] _ _]. rewrite <- Hcaching, <- Hc. done. Qed.

Lemma kept_touch_table r m0 p m : kept r m0 (p, m) → kept r m0 (p, touch_table r m).
Proof. intros [Hg Ht Ha]. split; [by apply good_touch_table|by apply tidy_touch_table|]. etransitivity; [done|apply alone_set_table]. Qed.

(** New blocks. *)
Lemma kept_get_extend {B} r m0 n p m (k : list loc → py (BlockPool.t * t) B) :
  kept r m0 (p, m) → 0 ≤ n → (∀ l p' m', kept r m0 (p', m') → keeps r m0 (k l (p', m'))) →
  keeps r m0 ((let* l := on_fst (get_new_blocks use_int n) in (extend r l ;;; k l)) (p, m)).
Proof using Hcaching.
  intros Hk Hn Hrest. pose proof Hk as [Hg Ht Ha]. destruct (good_split ∅ c q r p m Hg) as [Hh Hnd].
  pose proof (good_held _ _ _ _ Hg) as Hu. simpl in Hu.
  destruct (held_get use_int p _ n Hu Hn) as [[_ He]|(l & p' & Hr & Hh' & Hc & _ & Hndl & Hl & _ & Hd)].
  { rewrite (bind_fail _ _ _ ValueError (p, m)) by (unfold on_fst; by rewrite He). by apply post_raise. }
  pose proof (keeps_get_extend use_int ∅ c q r n (λ _, ret tt) p m (λ _, True) Hg Hn ltac:(intros; by apply post_ret)) as [Hg' _].
  unfold bind, on_fst, ret in Hg' |- *. rewrite Hr in *. unfold extend, modify_m, modify in *. simpl in Hg'.
  apply Hrest. split; [done| |etransitivity; [done|apply alone_set_table]].
  assert (∀ b, hash_of p' b = if decide (b ∈ l) then None else hash_of p b) as Hhash.
  { intros b. specialize (Hd b). unfold allocated in Hd. rewrite (kept_caching r m0 p m Hk) in Hd. unfold data, hash_of in *. case_decide; simpl in Hd; congruence. }
  apply (tidy_extend r l p); [done|done|..].
  - intros b Hb. split; [|by rewrite Hhash, decide_True]. destruct (Hl b Hb) as (_ & _ & Hn'). by rewrite (right_id_L ∅ (⊎)) in Hn'.
  - intros b Hb. by rewrite Hhash, decide_False.
Qed.

Lemma kept_allocate_new_blocks r m0 n p m : kept r m0 (p, m) → keeps r m0 (base_allocate_new_blocks use_int r n (p, m)).
Proof using Hcaching.
  intros Hk%kept_touch_table. unfold base_allocate_new_blocks, modify_m at 1. rewrite bind_modify, bind_get_st. cbv zeta.
  case_match; [by apply post_ret|]. apply kept_get_extend; [done|lia|]. intros. by apply post_ret.
Qed.

(** Skipped blocks. *)
Lemma skip_loop_keeps n l removed l' :
  skip_loop 0 n l = (removed, l') → ∀ i b, l' !! i = Some b → b ≠ 0 → l !! i = Some b.
Proof.
  revert l removed l'. induction n as [|n IH]; intros l removed l'; simpl; [by intros [= _ <-]|].
  destruct (l !! n) as [x|] eqn:Hx; [|by intros [= _ <-]]. case_decide; [by intros [= _ <-]|].
  destruct (skip_loop 0 n (<[n := 0]> l)) as [rm l2] eqn:E. intros [= _ <-] i b Hb Hb0. specialize (IH _ _ _ E i b Hb Hb0).
  apply list_lookup_insert_Some in IH as [(_ & ? & _)|[_ ?]]; congruence.
Qed.

Lemma kept_remove_skipped r m0 n p m :
  kept r m0 (p, m) →
  post (λ s, kept r m0 s ∧ ∀ b, hash_of s.1 b = hash_of p b) (λ _, True) (base_remove_skipped_blocks r n (p, m)).
Proof.
  intros [Hg Ht Ha]. unfold base_remove_skipped_blocks. rewrite bind_get_st. cbv zeta. case_match; [by apply post_ret|].
  rewrite (good_null _ _ _ _ _ Hg). destruct (skip_loop _ _ _) as [removed l] eqn:E. pose proof (skip_loop_keeps _ _ _ _ E) as Hl.
  apply skip_loop_spec in E as [Hp Hlen]; [|unfold zlen; lia].
  destruct (release_run ∅ c q r l removed p m Hg Hp) as (p' & Hp' & Hg' & Hd); [unfold zlen; lia|].
  assert (∀ b, hash_of p' b = hash_of p b) as Hhash by (intros b; by eapply data_ref_hash).
  unfold modify_m. rewrite bind_modify. unfold on_fst. rewrite Hp'. apply post_ret; [|done]. split; [|done].
  split; [done|by apply (tidy_shrink r l removed p)|]. etransitivity; [done|apply alone_set_table].
Qed.

(** The computed blocks of a new request. *)
Lemma kept_get_extend_last r m0 n p m :
  kept r m0 (p, m) → 0 ≤ n → keeps r m0 ((let* l := on_fst (get_new_blocks use_int n) in extend r l) (p, m)).
Proof using Hcaching.
  intros Hk Hn.
  assert (keeps r m0 ((let* l := on_fst (get_new_blocks use_int n) in (extend r l ;;; ret tt)) (p, m))) as H.
  { apply (kept_get_extend r m0 n p m (λ _, ret tt)); [done|done|]. intros. by apply post_ret. }
  revert H. unfold bind. by destruct (on_fst (get_new_blocks use_int n) (p, m)) as [[l|e] s].
Qed.

Lemma kept_place r m0 sk hits p m :
  kept r m0 (p, m) → table r m = [] → distinct p hits → (∀ b, b ∈ hits → b ≠ 0 → hash_of p b ≠ None) →
  post (kept r m0) (λ _, True) (place_computed_blocks r sk hits (p, m))
  ∧ ∀ a p' m', place_computed_blocks r sk hits (p, m) = (Ok a, (p', m')) →
      zlen (table r m') = Z.max 0 sk + zlen hits ∧ block_size m' = block_size m.
Proof.
  intros [Hg Ht Ha] H0 Hd Hh.
  destruct (place_computed_spec ∅ c q r sk hits p m Hg H0 Hd) as [(_ & _ & He)|(p' & m' & He & Hg' & Htouch & Hm')]; rewrite He.
  { split; [by apply post_raise|done]. }
  assert (∀ b, hash_of p' b = hash_of p b) as Hhash.
  { destruct (held_touch p _ hits (good_held _ _ _ _ Hg)) as (p2 & Hp2 & _ & _ & Hdata); [apply Hd|]. rewrite Htouch in Hp2. injection Hp2 as <-.
    intros b. by eapply data_ref_hash. }
  split; [split; [|done]; split; [done| |]|].
  - simpl. rewrite Hm'. by apply (tidy_place r (Z.to_nat sk) hits p p').
  - etransitivity; [exact Ha|]. simpl. rewrite Hm'. intros r' Hr. split; [apply (table_set_table_ne r r' _ m Hr)|]. simpl. by rewrite lookup_insert_ne.
  - intros [] p2 m2 [= <- <-]. rewrite Hm'. split; [|done]. change (zlen (table r (set_table r (replicate (Z.to_nat sk) 0 ++ hits) m)) = Z.max 0 sk + zlen hits).
    by rewrite table_set_table, zlen_app, zlen_replicate.
Qed.

Lemma kept_allocate_computed r m0 hits local ext p m :
  kept r m0 (p, m) → hits_ok p m hits local ext → (∀ b, b ∈ hits → b ≠ 0 → hash_of p b ≠ None) →
  keeps r m0 (base_allocate_new_computed_blocks use_int r hits local ext (p, m)).
Proof using Hcaching.
  intros Hk (Hd & Hlen & Hext) Hh. pose proof (good_ok _ _ _ _ (kept_good _ _ _ Hk)) as [Hs Hbs _ _]. simpl in Hs, Hbs.
  unfold base_allocate_new_computed_blocks. rewrite bind_get_st.
  destruct (num_cached_block m !! r); [by apply (post_weaken _ _ _ _ (post_lift _ _ _ Hk))|].
  unfold modify_m at 1. rewrite bind_modify. apply kept_touch_table in Hk as Hk1. eapply post_bind; [by apply post_lift|].
  intros [] s' Hs' _ Hlen0. unfold passert, lift in Hs'. injection Hs' as _ <-. unfold rassert in Hlen0.
  destruct (Z.eqb_spec (zlen (table r m)) 0) as [Ht|]; [|done]. clear Hlen0.
  assert (table r m = []) as Ht0 by (by apply zlen_nil_inv).
  cbv zeta. set (total := local + ext). set (sk := get_num_skipped_tokens (kv_cache_spec m) total `div` block_size m).
  assert (0 ≤ total) as Htot by (pose proof (zlen_nonneg hits); unfold total; nia).
  assert (sk ≤ cdiv total (block_size m)) as Hsk by (etransitivity; [by apply skipped_blocks_bound|by apply div_le_cdiv]).
  assert (zlen hits ≤ cdiv total (block_size m)) as Hhits by (pose proof (cdiv_spec total (block_size m) Hbs); unfold total in *; nia).
  replace (if 0 <? sk then drop (Z.to_nat sk) hits else hits) with (drop (Z.to_nat sk) hits).
  2:{ destruct (Z.ltb_spec 0 sk); [done|]. by replace (Z.to_nat sk) with O by lia. }
  destruct (kept_place r m0 sk (drop (Z.to_nat sk) hits) p (touch_table r m) Hk1) as [Hp Hl]; [by rewrite table_touch_table|by apply distinct_drop| |].
  { intros b Hb. apply Hh. rewrite <- (take_drop (Z.to_nat sk) hits). apply elem_of_app. by right. }
  eapply post_bind; [exact Hp|]. intros [] [p1 m1] Hrun Hk2 _. destruct (Hl _ _ _ Hrun) as [Hl1 Hb1]. case_match; [|by apply post_ret].
  unfold allocate_external. rewrite bind_get_st. apply kept_get_extend_last; [done|]. rewrite Hl1, Hb1, zlen_drop.
  change (block_size (touch_table r m)) with (block_size m). pose proof (cdiv_nonneg total (block_size m) Hbs Htot). pose proof (zlen_nonneg hits). lia.
Qed.

(** Freeing. *)
Lemma free_keeps r p m :
  good ∅ c q (p, m) → tidy p m → attention_type (kv_cache_spec m) →
  ∃ p' m', free r (p, m) = (Ok tt, (p', m')) ∧ good ∅ c q (p', m') ∧ tidy p' m' ∧ alone r m m'
  ∧ table r m' = [] ∧ num_cached_block m' !! r = None.
Proof.
  intros Hg Ht Ha. destruct (good_split ∅ c q r p m Hg) as [Hh Hnd].
  rewrite <- (bag_perm (reverse (table r m)) (table r m)) in Hh by apply reverse_Permutation. rewrite <- (assoc_L (⊎)) in Hh.
  destruct (held_release p _ (reverse (table r m)) Hh) as (p' & Hp' & Hh' & Hc & Hd); [by rewrite reverse_Permutation|].
  assert (∀ s, kv_cache_spec m = MambaSpec s → r ∉ allocated_block_reqs m) as Hm by (intros s Hs; by rewrite Hs in Ha).
  exists p', (set_cached (delete r (num_cached_block m)) (set_tables (delete r (req_to_blocks m)) m)). split.
  { unfold free. rewrite bind_get_st. assert (base_free r (p, m) = (Ok tt, (p', set_cached (delete r (num_cached_block m)) (set_tables (delete r (req_to_blocks m)) m)))) as Hb.
    { unfold base_free. rewrite bind_get_st. unfold modify_m at 1. rewrite bind_modify.
      by rewrite (bind_run _ _ _ tt (p', set_tables (delete r (req_to_blocks m)) m)) by (unfold on_fst; by rewrite Hp'). }
    destruct (kv_cache_spec m); first [exact Hb|by destruct Ha]. }
  split; [|split; [|split; [|split]]].
  - apply (good_attr ∅ c q p' (set_tables (delete r (req_to_blocks m)) m)); [by apply (good_delete ∅ c q r p p' m)|done|done|by left].
  - apply (tidy_delete r p); [done|]. intros b. by eapply data_ref_hash.
  - intros r' Hr. unfold table. simpl. by rewrite !lookup_delete_ne.
  - unfold table. simpl. by rewrite lookup_delete_eq.
  - simpl. by rewrite lookup_delete_eq.
Qed.

(** Caching never fails: the blocks are without hash, and the request has their hashes. *)
Lemma cache_full_keeps r n p rq m :
  good ∅ c q (p, m) → tidy p m → enable_kv_cache_events p = false → hash_block_size p = block_size m → 0 ≤ kv_cache_group_id m < 2 ^ 32 →
  num_cached r m < n → n ≤ zlen (BlockHash.block_hashes rq) →
  ∃ p' rq', cache_full_blocks use_int (table r m) (num_cached r m) n (block_size m) (kv_cache_group_id m) (p, rq) = (Ok tt, (p', rq'))
  ∧ good ∅ c q (p', m) ∧ tidy p' (set_cached (<[r := n]> (num_cached_block m)) m).
Proof.
  intros Hg Ht He Hbs Hgid Hlt Hn. pose proof (good_held _ _ _ _ Hg) as [[free Hi] _ _]. simpl in Hi. pose proof (tidy_count _ _ Ht r) as Hc.
  destruct (good_split ∅ c q r p m Hg) as [_ Hnd]. set (k := num_cached r m) in *.
  set (hashes := py_slice (BlockHash.block_hashes rq) k (zlen (BlockHash.block_hashes rq))).
  assert (zlen (py_slice (table r m) k n) ≤ zlen hashes) as Hlen.
  { unfold hashes. rewrite !py_slice_nonneg by lia. unfold zlen in *. rewrite !length_take, !length_drop. lia. }
  assert (∀ b, b ∈ py_slice (table r m) k n → b ∈ table r m) as Hsub.
  { intros b. rewrite py_slice_nonneg by lia. intros Hb. apply list_elem_of_lookup in Hb as [j Hj]. apply lookup_take_Some in Hj as [Hj _].
    rewrite lookup_drop in Hj. by apply list_elem_of_lookup_2 in Hj. }
  assert (NoDup (filter proper (py_slice (table r m) k n))) as Hnds.
  { rewrite py_slice_nonneg by lia. rewrite <- (take_drop (Z.to_nat k) (table r m)), filter_app in Hnd. apply NoDup_app in Hnd as (_ & _ & Hnd).
    rewrite <- (take_drop (Z.to_nat (n - k)) (drop (Z.to_nat k) _)), filter_app in Hnd. by apply NoDup_app in Hnd as (? & _ & _). }
  destruct (cache_loop_spec (kv_cache_group_id m) hashes (py_slice (table r m) k n) 0 p free Hi Hgid Hnds)
    as (l & p1 & Hl & Hi1 & Hc1 & Hset & Hd1 & Hr1); [|lia|lia|].
  { intros b Hb. split; [by apply (table_blocks ∅ c q r p m b Hg), Hsub|]. intros Hb0. by apply (uncached_block p m r k n b Ht eq_refl ltac:(lia) Hb Hb0). }
  destruct (cache_full_blocks_state use_int (table r m) k n (block_size m) (kv_cache_group_id m) p rq hashes l p1) as (res & p' & rq' & Hrun & Hs' & Hres);
    [done|done|unfold new_block_hashes; by rewrite Hbs, Z.eqb_refl|done|]. rewrite (Hres He) in Hrun.
  assert ((∃ free, inv p' free none) ∧ same_refs p p' ∧ ∀ x, block_of p' x = block_of p1 x) as (Hi' & Hsame & Hbo).
  { destruct Hs' as [->|[ev ->]]; [by split; [exists free|]|]. split; [exists free; by apply inv_set_events|done]. }
  exists p', rq'. split; [done|]. split; [by apply (good_pool ∅ c q p p')|]. apply (tidy_cache r k n p p' m Ht Hnd eq_refl ltac:(lia)).
  intros b Hb. unfold hash_of. rewrite Hbo. by apply data_hash, Hd1.
Qed.

Lemma cache_keeps r n p rq m :
  good ∅ c q (p, m) → tidy p m → attention_type (kv_cache_spec m) → enable_kv_cache_events p = false → hash_block_size p = block_size m →
  0 ≤ kv_cache_group_id m < 2 ^ 32 → n `div` block_size m ≤ zlen (BlockHash.block_hashes rq) →
  ∃ p' rq' m', cache_blocks use_int r n ((p, rq), m) = (Ok tt, ((p', rq'), m')) ∧ good ∅ c q (p', m') ∧ tidy p' m' ∧ alone r m m' ∧ table r m' = table r m.
Proof.
  intros Hg Ht Ha He Hbs Hgid Hn.
  assert (∃ p' rq' m', base_cache_blocks use_int r n ((p, rq), m) = (Ok tt, ((p', rq'), m')) ∧ good ∅ c q (p', m') ∧ tidy p' m' ∧ alone r m m' ∧ table r m' = table r m)
    as (p' & rq' & m' & Hrun & H).
  { unfold base_cache_blocks. rewrite bind_get_st. cbv zeta. fold (num_cached r m). rewrite Z.geb_leb.
    destruct (Z.leb_spec (n `div` block_size m) (num_cached r m)); [by exists p, rq, m|].
    unfold modify_m at 1. rewrite bind_modify. rewrite <- (table_touch_table r r).
    apply (good_touch_table _ _ _ r) in Hg. apply (tidy_touch_table r) in Ht.
    destruct (cache_full_keeps r (n `div` block_size m) p rq (touch_table r m)) as (p' & rq' & Hrun & Hg' & Ht'); [done..|].
    change (cache_full_blocks use_int (table r (touch_table r m)) (num_cached r m) (n `div` block_size m) (block_size m) (kv_cache_group_id m) (p, rq) = (Ok tt, (p', rq'))) in Hrun.
    exists p', rq', (set_cached (<[r := n `div` block_size m]> (num_cached_block m)) (touch_table r m)).
    split; [by rewrite (bind_run _ _ _ tt ((p', rq'), touch_table r m)) by (unfold on_fst; by rewrite Hrun)|].
    split; [by apply (good_attr ∅ c q p' (touch_table r m)); [done..|left]|]. split; [done|]. split; [|done].
    transitivity (touch_table r m); [apply alone_set_table|apply (alone_set_cached r _ (touch_table r m))]. }
  exists p', rq', m'. split; [|done]. unfold cache_blocks. rewrite bind_get_st. destruct (kv_cache_spec m); first [exact Hrun|by destruct Ha].
Qed.

(** A reset: either nothing is cached any more, and no block was in use, or nothing changed. *)
Lemma reset_tidy p m :
  good ∅ c q (p, m) → tidy p m →
  ∃ b p', reset_prefix_cache p = (Ok b, p') ∧ good ∅ c q (p', m) ∧ tidy p' m.
Proof.
  intros Hg [Hn Hc]. pose proof (good_held _ _ _ _ Hg) as Hh. pose proof Hh as [[free Hi] _ Hd]. simpl in Hi, Hd, Hh.
  destruct (reset_spec p free Hi) as (b & p' & Hrun & Hi' & Hcc & Hall & Hnone & Hid & Hrefs). exists b, p'. split; [done|].
  split; [apply (good_pool ∅ c q p); [done|done|by exists free]|]. destruct b; [|by rewrite (Hid eq_refl)].
  assert (∀ x, x ∈ uses m → x = 0) as Hzero.
  { intros x Hx. destruct (decide (x = 0)) as [|Hx0]; [done|]. exfalso.
    assert (x ∈ blocks p) as Hb by (apply Hd; rewrite (right_id_L ∅ (⊎)); done).
    pose proof (rep_nodup _ _ (inv_rep _ _ _ Hi)) as Hnd. unfold path in Hnd. apply NoDup_cons in Hnd as [_ (Hnd & _ & _)%NoDup_app].
    assert (x ∉ free) as Hxf by (intros (_ & _ & Hu)%(held_free p _ free x Hh Hi); apply Hu; rewrite (right_id_L ∅ (⊎)); done).
    assert (NoDup (0 :: x :: free)) as Hnd2.
    { constructor; [|by constructor]. rewrite not_elem_of_cons. split; [done|]. by intros (_ & ? & _)%(held_free p _ free 0 Hh Hi). }
    assert (0 :: x :: free ⊆+ blocks p) as Hs%submseteq_length.
    { apply NoDup_submseteq; [done|]. intros y [->|[->|Hy]%elem_of_cons]%elem_of_cons; [|done|by apply (held_free p _ free y Hh Hi)].
      apply (inv_mem _ _ _ _ Hi). destruct (inv_blocks _ _ _ Hi). lia. }
    destruct (inv_blocks _ _ _ Hi) as [Hb1 Hb2]. rewrite Hb1, length_seqZ in Hs. simpl in Hs. pose proof (proj1 Hall eq_refl) as Hf.
    unfold zlen in Hf. lia. }
  split; [|done]. intros r i x Hx _ Hx0. destruct Hx0. apply Hzero, elem_of_uses. exists r. by apply list_elem_of_lookup_2 in Hx.
Qed.

(** Blocks that lose their hashes. *)
Lemma evict_run p free ids :
  inv p free none → (∀ i, i ∈ ids → 0 ≤ i < num_gpu_blocks p) →
  runs (evict_blocks use_int ids) p (λ _ p', inv p' free none ∧ same_refs p p' ∧ ∀ b, hash_of p' b = hash_of p b ∨ hash_of p' b = None).
Proof.
  intros Hi Hids. eapply runs_mono; [apply (runs_for_each (λ rest s, (∀ i, i ∈ rest → i ∈ ids) ∧ inv s free none ∧ same_refs p s
    ∧ ∀ b, hash_of s b = hash_of p b ∨ hash_of s b = None))|].
  2:{ split; [done|]. split; [done|]. split; [done|]. by left. }
  2:{ by intros [] p' (_ & ?). }
  intros i rest s (Hsub & Hs & Hsame & Hh). assert (0 ≤ i < num_gpu_blocks s) as Hb.
  { destruct Hsame as [Hc _]. rewrite (config_num _ _ Hc). apply Hids, Hsub. by left. }
  destruct (inv_blocks _ _ _ Hs) as [Hbl _]. runs_step.
  apply runs_passert; [apply Z.ltb_lt; unfold zlen; rewrite Hbl, length_seqZ; lia|].
  apply (runs_lift _ i); [by rewrite py_index_nonneg, Hbl, lookup_seqZ_lt, Z2Nat.id, Z.add_0_l by lia|].
  destruct (evict_spec use_int s free none i Hs ltac:(by apply (inv_mem _ _ _ _ Hs))) as (r & s' & Hrun & Hs' & Hc & Hd).
  apply runs_bind. exists r, s'. split; [done|]. runs_step. split; [intros x Hx; apply Hsub; by right|]. split; [done|].
  split; [etransitivity; [done|by apply (same_refs_hash s s' i None)]|]. intros b. specialize (Hd b). unfold hash_of in *.
  case_decide; [right; unfold data in Hd; simpl in Hd; congruence|]. destruct (data_eq _ _ Hd) as (_ & _ & -> & _). apply Hh.
Qed.

Lemma evict_tidy ids p m :
  good ∅ c q (p, m) → tidy p m → (∀ i, i ∈ ids → 0 ≤ i < num_gpu_blocks p) →
  ∃ p', evict_blocks use_int ids p = (Ok tt, p') ∧ good ∅ c q (p', m) ∧ tidy p' m.
Proof.
  intros Hg Ht Hids. pose proof (good_held _ _ _ _ Hg) as [[free Hi] _ _]. simpl in Hi.
  destruct (evict_run p free ids Hi Hids) as ([] & p' & Hrun & Hi' & Hsame & Hh). exists p'. split; [done|].
  split; [apply (good_pool ∅ c q p); [done|done|by exists free]|by apply (tidy_forget p)].
Qed.
End operations.
End TableHashes.
