(* ===== verification/KVCacheDemo.v ===== *)
(** Sessions of the cache manager on a small pool: the theorems on [KVCacheManager] and on
    the hybrid search at concrete states, and runs that show where the code goes wrong. *)
From stdpp Require Import gmap gmultiset strings.
From S2P Require Export HybridHit AllocationBudget.
From stdpp Require Import options.
Import KVSpec CacheBlocks KVCacheManager.
Open Scope Z_scope.

Module KVCacheDemo.

(** ** A checker of [allowed] for one allocation *)

Definition hits_check (k : t) (local : Z) (hits : list (list loc)) : bool :=
  (zlen (tables k) =? zlen hits)
  && forallb (λ '(m, l), bool_decide (NoDup (filter Held.proper l))
       && forallb (λ b, bool_decide (b ∈ BlockPool.blocks (pool k))) l
       && (zlen l * Manager.block_size m <=? local)) (zip (tables k) hits).

Lemma hits_check_ok k local hits :
  hits_check k local hits = true →
  Forall2 (λ m l, Held.distinct (pool k) l ∧ zlen l * Manager.block_size m ≤ local) (tables k) hits.
Proof.
  unfold hits_check. intros [Hl%Z.eqb_eq Hf]%andb_true_iff. unfold zlen in Hl. apply Nat2Z.inj in Hl.
  apply Forall2_same_length_lookup. split; [done|]. intros i m l Hm Hi.
  rewrite forallb_forall in Hf. specialize (Hf (m, l)). simpl in Hf.
  destruct (proj1 (andb_true_iff _ _) (Hf ltac:(apply list_elem_of_In, (list_elem_of_lookup_2 _ i);
    by apply lookup_zip_with_Some; exists m, l))) as [[Hnd%bool_decide_eq_true Hb]%andb_true_iff Hz%Z.leb_le].
  split; [|done]. split; [done|]. rewrite forallb_forall in Hb. intros b Hin%list_elem_of_In.
  by apply Hb, bool_decide_eq_true in Hin.
Qed.

Lemma allowed_allocate r n nc blks la ext delay enc k :
  (0 <=? n) && (0 <=? ext) && (0 <=? num_computed_tokens r + nc) && (0 <? max_model_len k)
  && hits_check k (num_computed_tokens r + nc) (blocks (num_kv_cache_groups k) (default EmptyBlocks blks)) = true →
  allowed (CAllocate r n nc blks la ext delay enc) k.
Proof. intros [[[[? ?]%andb_true_iff ?]%andb_true_iff ?]%andb_true_iff Hh%hits_check_ok]%andb_true_iff. simpl. repeat split; [lia..|done]. Qed.

(** ** Two groups, full attention and a window of three tokens, with blocks of two tokens *)

Definition heads (n : Z) : attention := Attention 2 1 n "f16" None.
Definition spec_full : KVCacheSpec := FullAttentionSpec (heads 8) (FullFields 8 None None).
Definition spec_full' : KVCacheSpec := FullAttentionSpec (heads 16) (FullFields 8 None None).
Definition spec_window : KVCacheSpec := SlidingWindowSpec (heads 8) 3.

Definition request (id : string) (toks : list Z) (hs : list (list Z)) : Request :=
  MkRequest id 0 0 false (BlockHash.Req [] None None None [] toks hs).

Definition no_pool : BlockPool.t := BlockPool.BP (FreeQueue.FQ ∅ 0 0 0) 0 true 0 [] [] 0 true [].
Definition started (num_blocks : Z) (specs : list KVCacheSpec) : t :=
  match create num_blocks specs 100 2 true false true false 1 1 with
  | Ok k => k
  | Raise _ => KVM 0 false None 0 (Coordinator.Coord Coordinator.NoPrefixCache false no_pool [])
  end.

(** What the caller of [get_computed_blocks] passes on to [allocate_slots]. *)
Definition schedule (r : Request) (num_new_tokens ext : Z) (k : t) : result (option CacheBlocks.t) * t :=
  match get_computed_blocks r k with
  | (Ok (Some (b, n)), k) =>
      let '(res, (k, _)) := allocate_slots false num_new_tokens n (Some b) 0 ext false 0 (k, r) in (res, k)
  | (_, k) => (Raise ValueError, k)
  end.

Definition held_by (id : string) (k : t) : list (list loc) := Manager.table id <$> tables k.

Definition req_a : Request := request "a" [1; 2; 3; 4; 5] [[1]; [2]].
Definition req_b : Request := request "b" [1; 2; 3; 4; 6; 7] [[1]; [2]; [3]].

Definition k0 : t := started 9 [spec_full; spec_window].
Definition k1 : t := run_call false (CAllocate req_a 5 0 None 0 0 false 0) k0.
Definition k2 : t := run_call false (CFree req_a) k1.
Definition k3 : t := run_call false (CAllocate req_b 2 4 (Some (Blocks [[1; 2]; [0; 5]])) 0 0 false 0) k2.

(** The second request finds the blocks of the first, which are in no table any more. *)
Example second_request_hits :
  held_by "a" k1 = [[1; 2; 3]; [4; 5; 6]]
  ∧ (get_computed_blocks req_b k2).1 = Ok (Some (Blocks [[1; 2]; [0; 5]], 4))
  ∧ held_by "b" k3 = [[1; 2; 7]; [0; 5; 8]] ∧ BlockPool.get_num_free_blocks (pool k3) = 3.
Proof. vm_compute. done. Qed.

Abbreviation demo_specs := [spec_full; spec_window].

Lemma demo_created : create 9 demo_specs 100 2 true false true false 1 1 = Ok k0.
Proof. vm_compute. reflexivity. Qed.

Lemma demo_wf : Forall wf_spec demo_specs.
Proof. repeat constructor. Qed.

Lemma k2_reachable : reachable false k0 k2.
Proof.
  assert (reachable false k0 k1) as H1.
  { unfold k1. apply reach_step; [apply reach_init|]. apply allowed_allocate. vm_compute. reflexivity. }
  unfold k2. apply reach_step; [exact H1|exact I].
Qed.

Lemma k3_reachable : reachable false k0 k3.
Proof.
  unfold k3. apply reach_step; [apply k2_reachable|]. apply allowed_allocate. vm_compute. reflexivity.
Qed.

Example references_count_holders_witness :
  ∃ free, BlockPool.inv (pool k3) free BlockPool.none
  ∧ (∀ b, b ∈ BlockPool.blocks (pool k3) → b ≠ 0 →
       FreeQueue.ref_cnt (BlockPool.block_of (pool k3) b)
       = Z.of_nat (multiplicity b (Coordinator.all_uses (tables k3))))
  ∧ ∀ b, b ∈ free ↔ b ∈ BlockPool.blocks (pool k3) ∧ b ≠ 0
       ∧ ∀ m r, m ∈ tables k3 → b ∉ Manager.table r m.
Proof. apply (references_count_holders false 9 demo_specs 100 2 true false true false 1 1 k0 k3 demo_created demo_wf k3_reachable). Defined.

Definition k3_pool : ∃ free, BlockPool.inv (Coordinator.block_pool (coordinator k3)) free BlockPool.none :=
  reachable_pool false 9 demo_specs 100 2 true false true false 1 1 k0 k3 demo_created demo_wf k3_reachable.

(** The search of the hybrid coordinator for a request that shares four tokens. *)
Definition req_c : Request := request "c" [1; 2; 3; 4; 6; 8; 9] [[1]; [2]; [4]].

Example hybrid_hit_agrees_witness :
  ∃ hits h, Coordinator.find_longest_cache_hit [[1]; [2]; [4]] 6 (coordinator k3) = Ok (Some (hits, h)) ∧ 0 ≤ h ≤ 6
  ∧ length hits = length demo_specs
  ∧ ∀ i spec, demo_specs !! i = Some spec →
      ∃ l hs, hits !! i = Some l ∧ Coordinator.get_block_hashes [[1]; [2]; [4]] 2 spec = Ok hs
        ∧ CacheHit.found (Coordinator.block_pool (coordinator k3)) hs (h `div` block_size spec) (Z.of_nat i) l.
Proof.
  destruct k3_pool as [free Hi].
  apply (HybridHit.hybrid_hit_agrees demo_specs 2 1 1 [(spec_full, [0]); (spec_window, [1])] 2 (coordinator k3) free 6 [[1]; [2]; [4]]).
  - vm_compute. reflexivity.
  - vm_compute. reflexivity.
  - vm_compute. reflexivity.
  - vm_compute. discriminate.
  - reflexivity.
  - exact Hi.
  - repeat constructor; vm_compute; congruence.
  - intros s1 s2 H1 H2. revert H1 H2. rewrite !elem_of_cons, !elem_of_nil. intros [->|[->|[]]] [->|[->|[]]]; vm_compute; congruence.
  - lia.
  - vm_compute. discriminate.
Defined.

(** ** A new request with computed and external tokens *)

Definition new_check (k : t) (id : string) (local : Z) (hits : list (list loc)) : bool :=
  hits_check k local hits
  && forallb (λ m, bool_decide (Manager.num_cached_block m !! id = None) && bool_decide (Manager.table id m = [])
                   && Manager.enable_caching m) (tables k).

Lemma new_check_ok k id local ext hits :
  0 ≤ ext → new_check k id local hits = true →
  AllocationBudget.all_ready id hits local ext true (pool k) (tables k).
Proof.
  intros Hext [Hh%hits_check_ok Hf]%andb_true_iff. split; [symmetry; by apply (Forall2_length _ _ _ Hh)|].
  intros i m l Hm Hl. rewrite forallb_forall in Hf.
  destruct (proj1 (andb_true_iff _ _) (Hf m ltac:(apply list_elem_of_In; by apply (list_elem_of_lookup_2 _ i))))
    as [[H1%bool_decide_eq_true H2%bool_decide_eq_true]%andb_true_iff H3].
  destruct (Forall2_lookup_lr _ _ _ _ _ _ Hh Hm Hl) as [Hd Hz]. apply ManagerBudget.New; [done..|by left].
Qed.

Lemma k2_ready : AllocationBudget.all_ready "b" [[1; 2]; [0; 5]] 4 1 true (pool k2) (tables k2).
Proof. apply new_check_ok; [lia|]. vm_compute. reflexivity. Qed.

Lemma k2_attention : AllocationBudget.all_attention (tables k2).
Proof.
  assert (Manager.kv_cache_spec <$> tables k2 = demo_specs) as Hs by (vm_compute; reflexivity).
  apply (Forall_fmap Manager.kv_cache_spec ManagerBudget.attention_type). rewrite Hs. repeat constructor.
Qed.

Example allocation_never_short_witness :
  ∃ k' need, remove_skipped_blocks "b" 5 k2 = (Ok tt, k')
  ∧ on_coord (Coordinator.get_num_blocks_to_allocate "b" (AllocationBudget.slots 1 4 0 1 req_b k2) [[1; 2]; [0; 5]] 0 5 6) k'
    = (Ok need, k')
  ∧ if decide (BlockPool.get_num_free_blocks (pool k') < need) then
      allocate_slots false 1 4 (Some (Blocks [[1; 2]; [0; 5]])) 0 1 false 0 (k2, req_b) = (Ok None, (k', req_b))
    else ∃ new k'',
      allocate_slots false 1 4 (Some (Blocks [[1; 2]; [0; 5]])) 0 1 false 0 (k2, req_b)
      = (if negb (enable_caching k2) || false then ret (Some (create_kv_cache_blocks new))
         else coord_cache_blocks false (Z.min 6 (num_tokens req_b)) ;;; ret (Some (create_kv_cache_blocks new))) (k'', req_b)
      ∧ BlockPool.get_num_free_blocks (pool k') - need ≤ BlockPool.get_num_free_blocks (pool k'')
      ∧ (∃ free, BlockPool.inv (pool k'') free BlockPool.none)
      ∧ Forall (λ m, AllocationBudget.slots 1 4 0 1 req_b k2 ≤ zlen (Manager.table "b" m) * Manager.block_size m) (tables k'').
Proof.
  assert (0 ≤ 1 ∧ 0 < 1 + 1 ∧ 0 ≤ 0) as (H1 & H2 & H0) by lia.
  assert (num_computed_tokens req_b + 4 + 1 ≤ max_model_len k2) as Hm by (vm_compute; discriminate).
  pose proof (AllocationBudget.allocation_never_short false 9 demo_specs 100 2 true false true false 1 1 k0 k2 req_b
    1 4 (Some (Blocks [[1; 2]; [0; 5]])) 0 1 false 0 demo_created demo_wf k2_reachable k2_attention k2_ready H1 H1 H2 H0 Hm) as H.
  assert (max_model_len k2 = 100) as Hl by (vm_compute; reflexivity).
  cbv zeta in H. rewrite Hl in H. exact H.
Defined.

(** ** Runs that go wrong *)

Definition req_long : Request := request "a" [1; 2; 3; 4; 5; 6; 7; 8; 9] [[1]; [2]; [3]; [4]].
Definition req_other : Request :=
  request "c" [21; 22; 23; 24; 25; 26; 27; 28; 29; 30; 31; 32] [[21]; [22]; [23]; [24]; [25]; [26]].
Definition req_more : Request := request "b" [1; 2; 3; 4; 5; 6; 7; 8; 9; 10; 11] [[1]; [2]; [3]; [4]; [5]].

(** Only the first attention group is truncated: with two kinds of full attention and a
    window that reduces the hit to four tokens, the second group keeps blocks for eight. *)
Definition uneven : t :=
  let k := run_call false (CAllocate req_long 9 0 None 0 0 false 0) (started 30 [spec_full; spec_full'; spec_window]) in
  run_call false (CEvict [13; 14]) (run_call false (CFree req_long) k).

Example second_full_group_not_truncated :
  (get_computed_blocks req_long uneven).1 = Ok (Some (Blocks [[1; 2]; [6; 7; 8; 9]; [0; 12]], 4)).
Proof. vm_compute. reflexivity. Qed.

(** The managers touch their hit blocks and allocate for external tokens one after the
    other: the first one takes block 5, a hit of the second that is not touched yet, and the
    block ends in both tables, its content lost. *)
Definition two_full : t :=
  let k := run_call false (CAllocate req_a 5 0 None 0 0 false 0) (started 19 [spec_full; spec_full']) in
  let k := run_call false (CAllocate req_other 12 0 None 0 0 false 0) (run_call false (CFree req_a) k) in
  run_call false (CFree req_other) k.

Example external_allocation_takes_hits :
  (get_computed_blocks req_more two_full).1 = Ok (Some (Blocks [[1; 2]; [4; 5]], 4))
  ∧ let '(res, k) := schedule req_more 1 6 two_full in
    res = Ok (Some (Blocks [[9]; [8]])) ∧ held_by "b" k = [[1; 2; 3; 6; 5; 9]; [4; 5; 12; 11; 10; 8]].
Proof. vm_compute. done. Qed.

(** The blocks of the attention sinks leave the pool for good, and a reset, which wants all
    blocks but the null one free, never succeeds. *)
Definition with_sinks : t := started 9 [SinkFullAttentionSpec (heads 8) (FullFields 8 None None) (Some 4)].

Example sinks_block_reset :
  BlockPool.get_num_free_blocks (pool with_sinks) = 6 ∧ (reset_prefix_cache with_sinks).1 = Ok false.
Proof. vm_compute. done. Qed.

(** The count of the blocks for speculative tokens takes the block size of the spec, their
    allocation the one that the context-parallel groups scale: the check of the free blocks
    passes and the allocation raises. *)
Definition spec_mamba : KVCacheSpec := MambaSpec (Mamba 2 [[1]] ["f16"%string] None "mamba2" "none" 2).
Definition parallel_mamba : t :=
  match create 3 [spec_mamba] 100 4 false false true false 2 1 with Ok k => k | Raise _ => started 3 [] end.

Example mamba_count_too_small :
  BlockPool.get_num_free_blocks (pool parallel_mamba) = 2
  ∧ (allocate_slots false 4 0 None 0 0 false 0 (parallel_mamba, req_a)).1 = Raise ValueError.
Proof. vm_compute. done. Qed.
End KVCacheDemo.
