(* ===== verification/EncoderCache.v ===== *)
(** [vllm/v1/core/encoder_cache_manager.py]: the cache of encoder outputs of multi-modal
    inputs, counted in embeddings, with the placeholders of [vllm/multimodal/inputs.py].
    The two managers are instances of one interface, which the scheduler calls. *)
From stdpp Require Import gmap strings.
From S2P Require Export OrderedDict.
From stdpp Require Import options.
Open Scope Z_scope.

(** ** Multi-modal features of a request *)

(** [MultiModalFeatureSpec] with its [PlaceholderRange]. *)
Record mm_feature := Feature {
  identifier : string;
  offset : Z;
  length_ : Z;
  is_embed : option (list bool)
}.

Record mm_request := MMRequest { mm_request_id : string; mm_features : list mm_feature }.

Module Placeholder.

(** [is_embed.cumsum(dim=0)]. *)
Fixpoint cumsum_from (acc : Z) (l : list bool) : list Z :=
  match l with
  | [] => []
  | b :: l => let acc := acc + (if b then 1 else 0) in acc :: cumsum_from acc l
  end.

Definition embeds_cumsum (f : mm_feature) : option (list Z) := cumsum_from 0 <$> is_embed f.

Definition get_num_embeds (f : mm_feature) : result Z :=
  match embeds_cumsum f with None => Ok (length_ f) | Some c => py_index c (-1) end.

Definition get_embeds_indices_in_range (f : mm_feature) (start_idx end_idx : Z) : result (Z * Z) :=
  match embeds_cumsum f with
  | None => Ok (start_idx, end_idx)
  | Some c =>
      let! embeds_start_idx := (if 0 <? start_idx then py_index c (start_idx - 1) else Ok 0) in
      let! embeds_end_idx := py_index c (end_idx - 1) in
      Ok (embeds_start_idx, embeds_end_idx)
  end.
End Placeholder.

(** [Request.get_num_encoder_embeds]. *)
Definition get_num_encoder_embeds (r : mm_request) (input_id : Z) : result Z :=
  let! _ := rassert (input_id <? zlen (mm_features r)) in
  let! f := py_index (mm_features r) input_id in
  Placeholder.get_num_embeds f.

(** ** What the scheduler calls *)

Class EncoderCacheOps (S : Type) := {
  reset : py S unit;
  check_and_update_cache : mm_request → Z → py S bool;
  can_allocate : mm_request → Z → Z → Z → py S bool;
  allocate : mm_request → Z → py S unit;
  get_cached_input_ids : mm_request → py S (list Z);
  free_encoder_input : mm_request → Z → py S unit;
  free : mm_request → py S unit;
  get_freed_mm_hashes : py S (list string)
}.

(** ** [EncoderCacheManager] *)
Module EncoderCacheManager.

Record t := ECM {
  cache_size : Z;
  num_free_slots : Z;
  num_freeable_slots : Z;
  cached : gmap string (gset string);
  freeable : list (string * Z);
  freed : list string
}.

Definition create (cache_size : Z) : t := ECM cache_size cache_size cache_size ∅ [] [].

Definition set_cached v (s : t) : t := ECM (cache_size s) (num_free_slots s) (num_freeable_slots s) v (freeable s) (freed s).
Definition set_freeable v (s : t) : t := ECM (cache_size s) (num_free_slots s) (num_freeable_slots s) (cached s) v (freed s).
Definition set_freed v (s : t) : t := ECM (cache_size s) (num_free_slots s) (num_freeable_slots s) (cached s) (freeable s) v.
Definition add_free n (s : t) : t := ECM (cache_size s) (num_free_slots s + n) (num_freeable_slots s) (cached s) (freeable s) (freed s).
Definition add_freeable n (s : t) : t := ECM (cache_size s) (num_free_slots s) (num_freeable_slots s + n) (cached s) (freeable s) (freed s).

(** [self.cached[mm_hash].add(request_id)]. *)
Definition add_reference (mm_hash request_id : string) (s : t) : t :=
  set_cached (<[mm_hash := {[request_id]} ∪ default ∅ (cached s !! mm_hash)]> (cached s)) s.

Definition reset_cache : py t unit := modify (λ s, create (cache_size s)).

Definition check_and_update (r : mm_request) (input_id : Z) : py t bool :=
  let* f := lift (py_index (mm_features r) input_id) in
  let mm_hash := identifier f in
  let* s := get_st in
  match cached s !! mm_hash with
  | None => ret false
  | Some refs =>
      (if decide (refs = ∅) then
         match od_get mm_hash (freeable s) with
         | None => raise KeyError
         | Some num_encoder_embeds =>
             modify (set_freeable (od_del mm_hash (freeable s))) ;;;
             modify (add_freeable (- num_encoder_embeds))
         end
       else ret tt) ;;;
      modify (add_reference mm_hash (mm_request_id r)) ;;;
      ret true
  end.

(** The eviction loop, on the entries of [freeable] in their order. *)
Fixpoint reclaim (num_embeds : Z) (entries : list (string * Z)) : py t unit :=
  let* s := get_st in
  if num_embeds >? num_free_slots s then
    match entries with
    | [] => raise KeyError
    | (mm_hash, num_free_embeds) :: rest =>
        modify (set_freeable rest) ;;;
        match cached s !! mm_hash with
        | None => raise KeyError
        | Some _ =>
            modify (λ s, set_cached (delete mm_hash (cached s)) s) ;;;
            modify (λ s, set_freed (freed s ++ [mm_hash]) s) ;;;
            modify (add_free num_free_embeds) ;;;
            reclaim num_embeds rest
        end
    end
  else ret tt.

Definition can_allocate_space (r : mm_request) (input_id encoder_compute_budget num_embeds_to_schedule : Z) : py t bool :=
  let* num_embeds := lift (get_num_encoder_embeds r input_id) in
  if num_embeds >? encoder_compute_budget then ret false
  else
    let num_embeds := num_embeds + num_embeds_to_schedule in
    let* s := get_st in
    if num_embeds <=? num_free_slots s then ret true
    else if num_embeds >? num_freeable_slots s then ret false
    else reclaim num_embeds (freeable s) ;;; ret true.

Definition allocate_space (r : mm_request) (input_id : Z) : py t unit :=
  let* f := lift (py_index (mm_features r) input_id) in
  let mm_hash := identifier f in
  modify (λ s, match cached s !! mm_hash with
               | None => set_cached (<[mm_hash := ∅]> (cached s)) s
               | Some _ => s
               end) ;;;
  let* num_encoder_embeds := lift (get_num_encoder_embeds r input_id) in
  let* s := get_st in
  passert (num_free_slots s >=? num_encoder_embeds) ;;;
  passert (num_freeable_slots s >=? num_encoder_embeds) ;;;
  modify (add_reference mm_hash (mm_request_id r)) ;;;
  modify (add_free (- num_encoder_embeds)) ;;;
  modify (add_freeable (- num_encoder_embeds)).

Definition has_cached (s : t) (r : mm_request) (input_id : Z) : bool :=
  match mm_features r !! Z.to_nat input_id with
  | Some f => bool_decide (is_Some (cached s !! identifier f))
  | None => false
  end.

Definition cached_input_ids (s : t) (r : mm_request) : list Z :=
  filter (λ i, has_cached s r i = true) (seqZ 0 (zlen (mm_features r))).

Definition free_input (r : mm_request) (input_id : Z) : py t unit :=
  let* f := lift (py_index (mm_features r) input_id) in
  let mm_hash := identifier f in
  let* s := get_st in
  match cached s !! mm_hash with
  | None => ret tt
  | Some refs =>
      if decide (refs = ∅) then ret tt
      else
        let refs := refs ∖ {[mm_request_id r]} in
        modify (set_cached (<[mm_hash := refs]> (cached s))) ;;;
        if decide (refs = ∅) then
          let* num_encoder_embeds := lift (get_num_encoder_embeds r input_id) in
          modify (λ s, set_freeable (od_set mm_hash num_encoder_embeds (freeable s)) s) ;;;
          modify (add_freeable num_encoder_embeds)
        else ret tt
  end.

Definition free_request (r : mm_request) : py t unit :=
  let* s := get_st in
  for_each (cached_input_ids s r) (free_input r).

Definition take_freed : py t (list string) :=
  let* s := get_st in
  modify (set_freed []) ;;;
  ret (freed s).
End EncoderCacheManager.

(** Sets of input ids are walked in ascending order, as CPython does for small integers. *)
#[export] Instance encoder_cache_manager : EncoderCacheOps EncoderCacheManager.t := {
  reset := EncoderCacheManager.reset_cache;
  check_and_update_cache := EncoderCacheManager.check_and_update;
  can_allocate := EncoderCacheManager.can_allocate_space;
  allocate := EncoderCacheManager.allocate_space;
  get_cached_input_ids := λ r, gets (λ s, EncoderCacheManager.cached_input_ids s r);
  free_encoder_input := EncoderCacheManager.free_input;
  free := EncoderCacheManager.free_request;
  get_freed_mm_hashes := EncoderCacheManager.take_freed
}.

(** ** [EncoderDecoderCacheManager] *)
Module EncoderDecoderCacheManager.

Record t := EDM { cache_size : Z; num_free_slots : Z; allocated : list string; to_free : list string }.

Definition create (cache_size : Z) : t := EDM cache_size cache_size [] [].
Definition add_free n (s : t) : t := EDM (cache_size s) (num_free_slots s + n) (allocated s) (to_free s).

Definition can_allocate_space (r : mm_request) (input_id encoder_compute_budget num_embeds_to_schedule : Z) : py t bool :=
  let* num_encoder_embeds := lift (get_num_encoder_embeds r input_id) in
  if num_encoder_embeds >? encoder_compute_budget then ret false
  else let* s := get_st in ret (num_encoder_embeds + num_embeds_to_schedule <=? num_free_slots s).

Definition allocate_space (r : mm_request) (input_id : Z) : py t unit :=
  let* num_encoder_embeds := lift (get_num_encoder_embeds r input_id) in
  modify (add_free (- num_encoder_embeds)) ;;;
  let* f := lift (py_index (mm_features r) input_id) in
  modify (λ s, EDM (cache_size s) (num_free_slots s) (allocated s ++ [identifier f]) (to_free s)).

Definition free_input (r : mm_request) (input_id : Z) : py t unit :=
  let* num_encoder_embeds := lift (get_num_encoder_embeds r input_id) in
  modify (add_free num_encoder_embeds).

Definition take_freed : py t (list string) :=
  let* s := get_st in
  modify (λ s, EDM (cache_size s) (num_free_slots s) [] (allocated s)) ;;;
  ret (to_free s).
End EncoderDecoderCacheManager.

#[export] Instance encoder_decoder_cache_manager : EncoderCacheOps EncoderDecoderCacheManager.t := {
  reset := modify (λ s, EncoderDecoderCacheManager.create (EncoderDecoderCacheManager.cache_size s));
  check_and_update_cache := λ _ _, ret false;
  can_allocate := EncoderDecoderCacheManager.can_allocate_space;
  allocate := EncoderDecoderCacheManager.allocate_space;
  get_cached_input_ids := λ r, ret (seqZ 0 (zlen (mm_features r)));
  free_encoder_input := EncoderDecoderCacheManager.free_input;
  free := λ r, for_each (seqZ 0 (zlen (mm_features r))) (EncoderDecoderCacheManager.free_input r);
  get_freed_mm_hashes := EncoderDecoderCacheManager.take_freed
}.

(** ** [compute_mm_encoder_budget] *)

Record encoder_budget_config := BudgetConfig {
  disable_chunked_mm_input : bool;
  max_num_batched_tokens : Z;
  max_num_encoder_input_tokens : Z;
  encoder_cache_size : Z
}.

Definition compute_mm_encoder_budget (c : encoder_budget_config) (mm_max_toks_per_item : list (string * Z)) : result (Z * Z) :=
  match mm_max_toks_per_item.*2 with
  | [] => Ok (0, 0)
  | n :: rest =>
      let max_tokens_per_mm_item := foldl Z.max n rest in
      if disable_chunked_mm_input c && (max_tokens_per_mm_item >? max_num_batched_tokens c) then Raise ValueError
      else Ok (Z.max (max_num_encoder_input_tokens c) max_tokens_per_mm_item,
               Z.max (encoder_cache_size c) max_tokens_per_mm_item)
  end.

(** ** The accounts of the cache *)
Module EncoderAccounts.
Import EncoderCacheManager.

Lemma add_nonempty (x : string) (X : gset string) : {[x]} ∪ X ≠ ∅.
Proof. set_solver. Qed.

Lemma empty_minus (x : string) : (∅ : gset string) = ∅ ∖ {[x]}.
Proof. set_solver. Qed.

Section accounts.
Context (embeds : string → Z) (Hembeds : ∀ h, 0 ≤ embeds h).

(** Features with the same hash are the same data, of as many embeddings. *)
Definition sized (r : mm_request) : Prop :=
  ∀ f, f ∈ mm_features r → Placeholder.get_num_embeds f = Ok (embeds (identifier f)).

Definition used (m : gmap string (gset string)) : Z := map_fold (λ h _ n, embeds h + n) 0 m.
Definition reclaimable (l : list (string * Z)) : Z := foldr Z.add 0 l.*2.

#[local] Arguments reclaimable : simpl never.

(** Slots are taken by the entries, and the entries without references are those that can be
    reclaimed. *)
Record inv (s : t) : Prop := Inv {
  inv_free : num_free_slots s = cache_size s - used (cached s);
  inv_room : 0 ≤ num_free_slots s;
  inv_freeable : num_freeable_slots s = num_free_slots s + reclaimable (freeable s);
  inv_wf : od_wf (freeable s);
  inv_entries : ∀ h n, od_get h (freeable s) = Some n ↔ cached s !! h = Some ∅ ∧ n = embeds h
}.

Lemma used_insert h x m : m !! h = None → used (<[h := x]> m) = embeds h + used m.
Proof. intros Hh. exact (map_fold_insert_L (λ h _ n, embeds h + n) 0 h x m ltac:(intros; simpl; lia) Hh). Qed.

Lemma used_delete h x m : m !! h = Some x → used m = embeds h + used (delete h m).
Proof. intros Hh. exact (map_fold_delete_L (λ h _ n, embeds h + n) 0 h x m ltac:(intros; simpl; lia) Hh). Qed.

Lemma used_update h x y m : m !! h = Some x → used (<[h := y]> m) = used m.
Proof.
  intros Hh. rewrite <- insert_delete_eq, used_insert by apply lookup_delete_eq. by rewrite (used_delete h x m).
Qed.

Lemma used_nonneg m : 0 ≤ used m.
Proof using Hembeds.
  induction m as [|h x m Hh IH] using map_ind; [done|]. rewrite (used_insert h x m Hh). specialize (Hembeds h). lia.
Qed.

Lemma reclaimable_nil : reclaimable [] = 0.
Proof. done. Qed.

Lemma reclaimable_cons h n l : reclaimable ((h, n) :: l) = n + reclaimable l.
Proof. done. Qed.

Lemma reclaimable_app l1 l2 : reclaimable (l1 ++ l2) = reclaimable l1 + reclaimable l2.
Proof. induction l1 as [|[h n] l1 IH]; [done|]. rewrite <- app_comm_cons, !reclaimable_cons. lia. Qed.

Lemma reclaimable_del h n l : od_get h l = Some n → reclaimable l = n + reclaimable (od_del h l).
Proof.
  induction l as [|[h' n'] l IH]; [done|]. cbn [od_get od_del]. rewrite reclaimable_cons.
  case_decide; [by intros [= ->]|]. intros H'%IH. rewrite reclaimable_cons. lia.
Qed.

Lemma inv_create n : 0 ≤ n → inv (create n).
Proof. intros Hn. split; simpl; [unfold used; rewrite map_fold_empty; lia|done|rewrite reclaimable_nil; lia|constructor|]. intros h k. rewrite lookup_empty. split; [done|by intros [? _]]. Qed.

Lemma inv_freed s l : inv s → inv (set_freed l s).
Proof. by intros [? ? ? ? ?]. Qed.

Lemma feature_index r i f : mm_features r !! i = Some f → py_index (mm_features r) (Z.of_nat i) = Ok f.
Proof. intros Hf. rewrite py_index_nonneg by lia. by rewrite Nat2Z.id, Hf. Qed.

Lemma feature_embeds r i f :
  sized r → mm_features r !! i = Some f → get_num_encoder_embeds r (Z.of_nat i) = Ok (embeds (identifier f)).
Proof.
  intros Hr Hf. unfold get_num_encoder_embeds. rewrite (feature_index r i f Hf). apply lookup_lt_Some in Hf as Hlt.
  replace (Z.of_nat i <? zlen (mm_features r)) with true by (unfold zlen; lia). apply Hr. by apply list_elem_of_lookup_2 in Hf.
Qed.

(** *** The operations *)

Lemma check_spec r i f s :
  inv s → mm_features r !! i = Some f →
  match cached s !! identifier f with
  | None => check_and_update r (Z.of_nat i) s = (Ok false, s)
  | Some refs => ∃ s', check_and_update r (Z.of_nat i) s = (Ok true, s') ∧ inv s'
      ∧ num_free_slots s' = num_free_slots s
      ∧ cached s' = <[identifier f := {[mm_request_id r]} ∪ refs]> (cached s)
  end.
Proof.
  intros [H1 H2 H3 H4 H5] Hf. unfold check_and_update. rewrite (bind_run _ _ s f s) by (unfold lift; by rewrite (feature_index r i f Hf)).
  rewrite bind_get_st. destruct (cached s !! identifier f) as [refs|] eqn:Hc; [|done].
  destruct (decide (refs = ∅)) as [->|Hne].
  - assert (od_get (identifier f) (freeable s) = Some (embeds (identifier f))) as Hg by (by apply H5). rewrite Hg.
    eexists. split; [reflexivity|]. simpl. rewrite Hc. simpl. split; [|done].
    pose proof (reclaimable_del _ _ _ Hg) as Hr. split; simpl; [by rewrite (used_update _ ∅)|done|lia|by apply od_wf_del|].
    intros h n. destruct (decide (h = identifier f)) as [->|Hh].
    + rewrite od_get_del, lookup_insert_eq by done. split; [done|]. intros [[= He] _]. by apply add_nonempty in He.
    + rewrite od_get_del_ne, lookup_insert_ne by done. apply H5.
  - eexists. split; [reflexivity|]. simpl. rewrite Hc. simpl. split; [|done].
    split; simpl; [by rewrite (used_update _ refs)|done|done|done|]. intros h n. rewrite H5.
    destruct (decide (h = identifier f)) as [->|Hh]; [|by rewrite lookup_insert_ne].
    rewrite lookup_insert_eq, Hc. split; [by intros [[= ->] _]|]. intros [[= He] _]. by apply add_nonempty in He.
Qed.

(** Evicting the first entries of the list. *)
Definition evicted (l : list (string * Z)) (rest : list (string * Z)) (s : t) : t :=
  ECM (cache_size s) (num_free_slots s + reclaimable l) (num_freeable_slots s)
      (foldl (λ m h, delete h m) (cached s) l.*1) rest (freed s ++ l.*1).

Lemma inv_evict h n rest s :
  inv s → freeable s = (h, n) :: rest → inv (evicted [(h, n)] rest s) ∧ cached s !! h = Some ∅ ∧ n = embeds h.
Proof using Hembeds.
  intros [H1 H2 H3 H4 H5] Hf. rewrite Hf in *. assert (cached s !! h = Some ∅ ∧ n = embeds h) as [Hc ->].
  { apply H5. simpl. by rewrite decide_True. }
  apply od_wf_cons in H4 as [Hn Hwf]. rewrite reclaimable_cons in H3. pose proof (used_delete h ∅ _ Hc). specialize (Hembeds h).
  split; [|done]. split; unfold evicted; cbn [num_free_slots num_freeable_slots cache_size cached freeable foldl fmap list_fmap fst];
    rewrite ?reclaimable_cons, ?reclaimable_nil; [lia|lia|lia|done|].
  intros h' k. destruct (decide (h' = h)) as [->|Hh]; [by rewrite Hn, lookup_delete_eq; split; [|intros [? _]]|].
  rewrite lookup_delete_ne by done. rewrite <- H5. simpl. by rewrite decide_False by congruence.
Qed.

Lemma evicted_nil rest s : rest = freeable s → evicted [] rest s = s.
Proof. intros ->. unfold evicted. simpl. rewrite reclaimable_nil, Z.add_0_r, app_nil_r. by destruct s. Qed.

Lemma reclaim_spec n s :
  inv s → n ≤ num_freeable_slots s →
  ∃ l rest, freeable s = l ++ rest ∧ reclaim n (freeable s) s = (Ok tt, evicted l rest s) ∧ inv (evicted l rest s)
  ∧ n ≤ num_free_slots (evicted l rest s)
  ∧ ∀ l' x, l = l' ++ [x] → num_free_slots s + reclaimable l' < n.
Proof using Hembeds.
  remember (freeable s) as entries eqn:He. revert s He. induction entries as [|[h k] entries IH]; intros s He Hi Hn.
  - exists [], []. split; [done|]. rewrite (evicted_nil _ _ He).
    simpl. rewrite bind_get_st. pose proof (inv_freeable _ Hi) as Hfr. rewrite <- He, reclaimable_nil in Hfr.
    rewrite Z.gtb_ltb. destruct (Z.ltb_spec (num_free_slots s) n); [lia|]. split; [done|]. split; [done|]. split; [lia|].
    intros [|??] ? ?; done.
  - cbn [reclaim]. rewrite bind_get_st, Z.gtb_ltb. destruct (Z.ltb_spec (num_free_slots s) n) as [Hlt|Hge].
    + destruct (inv_evict h k entries s Hi (eq_sym He)) as (Hi' & Hc & Hk).
      destruct (IH (evicted [(h, k)] entries s)) as (l & rest & Hl & Hrun & Hi2 & Hn2 & Hmin); [done|done|done|].
      assert (evicted l rest (evicted [(h, k)] entries s) = evicted ((h, k) :: l) rest s) as Heq.
      { unfold evicted. simpl. rewrite !reclaimable_cons, reclaimable_nil, <- app_assoc. simpl. f_equal. lia. }
      exists ((h, k) :: l), rest. rewrite <- Heq. split; [by rewrite Hl|]. split; [|split; [exact Hi2|split; [exact Hn2|]]].
      * rewrite bind_modify, Hc, !bind_modify. rewrite <- Hrun. f_equal. unfold evicted. simpl. by rewrite reclaimable_cons, reclaimable_nil, Z.add_0_r.
      * intros [|y l'] x Hx; simpl in Hx; injection Hx as <- Hx; [rewrite reclaimable_nil; lia|].
        specialize (Hmin l' x Hx). unfold evicted in Hmin. simpl in Hmin. rewrite reclaimable_cons, reclaimable_nil in Hmin. rewrite reclaimable_cons. lia.
    + exists [], ((h, k) :: entries). split; [done|]. rewrite (evicted_nil _ _ He).
      split; [done|]. split; [done|]. split; [done|]. intros [|??] ? ?; done.
Qed.

Lemma reclaimable_nonneg s : inv s → 0 ≤ reclaimable (freeable s).
Proof using Hembeds.
  intros [_ _ _ Hwf He]. assert (∀ h n, (h, n) ∈ freeable s → 0 ≤ n) as Hn.
  { intros h n Hin. apply od_elem_get in Hin; [|done]. apply He in Hin as [_ ->]. apply Hembeds. }
  clear Hwf He. revert Hn. generalize (freeable s). intros l. induction l as [|[h n] l IH]; intros Hn; [done|].
  rewrite reclaimable_cons. specialize (IH (λ h n Hin, Hn h n ltac:(by right))). specialize (Hn h n ltac:(by left)). lia.
Qed.

(** The evicted entries had no references. *)
Lemma unreferenced l rest s h : inv s → freeable s = l ++ rest → h ∈ l.*1 → cached s !! h = Some ∅.
Proof.
  intros [_ _ _ Hwf He] Hf Hh. apply list_elem_of_fmap in Hh as ([h' n] & -> & Hin). apply (He h' n), od_elem_get; [done|].
  rewrite Hf. apply elem_of_app. by left.
Qed.

Definition answer (r : mm_request) (i : nat) (f : mm_feature) (budget sched : Z) (s : t) : Prop :=
  let need := embeds (identifier f) + sched in
  if decide (embeds (identifier f) ≤ budget ∧ need ≤ num_freeable_slots s) then
    ∃ l rest, freeable s = l ++ rest ∧ can_allocate_space r (Z.of_nat i) budget sched s = (Ok true, evicted l rest s)
    ∧ inv (evicted l rest s) ∧ need ≤ num_free_slots (evicted l rest s) ∧ (∀ h, h ∈ l.*1 → cached s !! h = Some ∅)
    ∧ ∀ l' x, l = l' ++ [x] → num_free_slots s + reclaimable l' < need
  else can_allocate_space r (Z.of_nat i) budget sched s = (Ok false, s).

Lemma can_allocate_spec r i f budget sched s : inv s → sized r → mm_features r !! i = Some f → answer r i f budget sched s.
Proof using Hembeds.
  intros Hi Hr Hf. pose proof (reclaimable_nonneg s Hi) as Hnn. pose proof (inv_freeable _ Hi) as Hfr.
  unfold answer, can_allocate_space. set (need := embeds _ + _).
  rewrite (bind_run _ _ s (embeds (identifier f)) s) by (unfold lift; by rewrite (feature_embeds r i f Hr Hf)). fold need.
  rewrite Z.gtb_ltb. destruct (Z.ltb_spec budget (embeds (identifier f))); [by rewrite decide_False by lia|].
  rewrite bind_get_st. destruct (Z.leb_spec need (num_free_slots s)).
  - rewrite decide_True by lia. exists [], (freeable s). rewrite (evicted_nil _ _ eq_refl). split; [done|]. split; [done|].
    split; [done|]. split; [done|]. split; [by intros h ?%elem_of_nil|]. by intros [|??] ? ?.
  - rewrite Z.gtb_ltb. destruct (Z.ltb_spec (num_freeable_slots s) need); [by rewrite decide_False by lia|].
    rewrite decide_True by lia. destruct (reclaim_spec need s Hi) as (l & rest & Hl & Hrun & Hi' & Hn & Hmin); [done|].
    exists l, rest. split; [done|]. rewrite (bind_run _ _ _ _ _ Hrun). split; [done|]. split; [done|]. split; [done|].
    split; [|done]. intros h. by apply (unreferenced l rest).
Qed.

(** A scheduled input is not cached and fits. *)
Lemma encoder_allocate_spec r i f s :
  inv s → sized r → mm_features r !! i = Some f → cached s !! identifier f = None →
  embeds (identifier f) ≤ num_free_slots s →
  ∃ s', allocate_space r (Z.of_nat i) s = (Ok tt, s') ∧ inv s' ∧ cached s' = <[identifier f := {[mm_request_id r]}]> (cached s)
  ∧ num_free_slots s' = num_free_slots s - embeds (identifier f) ∧ freeable s' = freeable s ∧ freed s' = freed s.
Proof using Hembeds.
  intros Hi Hr Hf Hc Hfit. pose proof (reclaimable_nonneg s Hi) as Hnn. destruct Hi as [H1 H2 H3 H4 H5]. unfold allocate_space.
  rewrite (bind_run _ _ s f s) by (unfold lift; by rewrite (feature_index r i f Hf)). rewrite bind_modify, Hc.
  rewrite (bind_run _ _ _ (embeds (identifier f)) (set_cached (<[identifier f := ∅]> (cached s)) s))
    by (unfold lift; by rewrite (feature_embeds r i f Hr Hf)).
  rewrite bind_get_st. unfold passert, lift, rassert.
  replace (num_free_slots (set_cached _ s) >=? embeds (identifier f)) with true by (simpl; lia).
  replace (num_freeable_slots (set_cached _ s) >=? embeds (identifier f)) with true by (simpl; lia).
  rewrite !(bind_run _ _ _ tt (set_cached (<[identifier f := ∅]> (cached s)) s)) by done. rewrite bind_modify. assert (add_reference (identifier f) (mm_request_id r) (set_cached (<[identifier f := ∅]> (cached s)) s)
    = set_cached (<[identifier f := {[mm_request_id r]}]> (cached s)) s) as ->.
  { unfold add_reference, set_cached. simpl. rewrite lookup_insert_eq, insert_insert_eq. simpl. by rewrite (right_id_L ∅ (∪)). }
  eexists. split; [reflexivity|]. simpl. split; [|split; [done|split; [lia|done]]].
  split; simpl; [rewrite (used_insert _ _ _ Hc); lia|lia|lia|done|]. intros h n. rewrite H5.
  destruct (decide (h = identifier f)) as [->|Hh]; [|by rewrite lookup_insert_ne].
  rewrite lookup_insert_eq, Hc. split; [by intros [? _]|]. by intros [[=] _].
Qed.

Lemma free_input_spec r i f s :
  inv s → sized r → mm_features r !! i = Some f →
  ∃ s', free_input r (Z.of_nat i) s = (Ok tt, s') ∧ inv s' ∧ num_free_slots s' = num_free_slots s
  ∧ cached s' = alter (λ refs, refs ∖ {[mm_request_id r]}) (identifier f) (cached s).
Proof.
  intros Hi Hr Hf. pose proof Hi as [H1 H2 H3 H4 H5]. unfold free_input.
  rewrite (bind_run _ _ s f s) by (unfold lift; by rewrite (feature_index r i f Hf)). rewrite bind_get_st.
  destruct (cached s !! identifier f) as [refs|] eqn:Hc.
  2:{ exists s. rewrite alter_id; [done|]. intros x Hx. congruence. }
  assert (alter (λ refs, refs ∖ {[mm_request_id r]}) (identifier f) (cached s) = <[identifier f := refs ∖ {[mm_request_id r]}]> (cached s)) as ->.
  { apply map_eq. intros h. destruct (decide (h = identifier f)) as [->|Hh].
    - by rewrite lookup_alter_eq, lookup_insert_eq, Hc.
    - by rewrite lookup_alter_ne, lookup_insert_ne. }
  destruct (decide (refs = ∅)) as [->|Hne].
  { exists s. split; [done|]. split; [done|]. split; [done|]. rewrite insert_id; [done|]. rewrite Hc. f_equal. apply empty_minus. }
  rewrite bind_modify. assert (od_get (identifier f) (freeable s) = None) as Hg.
  { apply eq_None_not_Some. intros [n [? _]%H5]. congruence. }
  destruct (decide (refs ∖ {[mm_request_id r]} = ∅)) as [He|Hn2].
  - rewrite (bind_run _ _ _ (embeds (identifier f)) (set_cached (<[identifier f := refs ∖ {[mm_request_id r]}]> (cached s)) s))
      by (unfold lift; by rewrite (feature_embeds r i f Hr Hf)).
    eexists. split; [reflexivity|]. simpl. split; [|done]. rewrite He. split; simpl; [by rewrite (used_update _ refs)|done| | |].
    + rewrite od_set_fresh, reclaimable_app, reclaimable_cons, reclaimable_nil by done. lia.
    + by apply od_wf_set.
    + intros h n. destruct (decide (h = identifier f)) as [->|Hh].
      * rewrite od_get_set, lookup_insert_eq. split; [by intros [= <-]|by intros [_ ->]].
      * rewrite od_get_set_ne, lookup_insert_ne by done. apply H5.
  - eexists. split; [reflexivity|]. simpl. split; [|done]. split; simpl; [by rewrite (used_update _ refs)|done|done|done|].
    intros h n. rewrite H5. destruct (decide (h = identifier f)) as [->|Hh]; [|by rewrite lookup_insert_ne].
    rewrite lookup_insert_eq, Hc. split; intros [[= ?] _]; congruence.
Qed.

Lemma free_request_run r s : inv s → sized r → ∃ s', free_request r s = (Ok tt, s') ∧ inv s' ∧ num_free_slots s' = num_free_slots s
  ∧ ∀ h, cached s !! h = None → cached s' !! h = None.
Proof.
  intros Hi Hr. unfold free_request. rewrite bind_get_st.
  assert (∀ i, i ∈ cached_input_ids s r → ∃ k f, i = Z.of_nat k ∧ mm_features r !! k = Some f) as Hids.
  { intros i (Hc & [Hi0 _]%elem_of_seqZ)%list_elem_of_filter. unfold has_cached in Hc.
    destruct (mm_features r !! Z.to_nat i) as [f|] eqn:Hf; [|done]. exists (Z.to_nat i), f. by rewrite Z2Nat.id. }
  revert s Hi Hids. intros s. generalize (cached_input_ids s r). intros l. revert s.
  induction l as [|i l IH]; intros s Hi Hids; [by exists s|].
  destruct (Hids i ltac:(by left)) as (k & f & -> & Hf).
  destruct (free_input_spec r k f s Hi Hr Hf) as (s1 & Hrun & Hi1 & Hn1 & Hc1). simpl. rewrite (bind_run _ _ _ _ _ Hrun).
  destruct (IH s1 Hi1) as (s2 & ? & ? & Hn2 & Hc2); [intros x Hx; apply Hids; by right|]. exists s2. rewrite Hn2.
  do 3 (split; [done|]). intros h Hh. apply Hc2. by rewrite Hc1, lookup_alter_None.
Qed.

(** *** Runs of the cache *)

Inductive call :=
  | CReset
  | CCheck (r : mm_request) (i : nat)
  | CCanAllocate (r : mm_request) (i : nat) (encoder_compute_budget num_embeds_to_schedule : Z)
  | CAllocate (r : mm_request) (i : nat)
  | CFreeInput (r : mm_request) (i : nat)
  | CFree (r : mm_request)
  | CTakeFreed.

Definition run_call (c : call) (s : t) : result unit * t :=
  match c with
  | CReset => reset s
  | CCheck r i => bind (check_and_update_cache r (Z.of_nat i)) (λ _, ret tt) s
  | CCanAllocate r i b n => bind (can_allocate r (Z.of_nat i) b n) (λ _, ret tt) s
  | CAllocate r i => allocate r (Z.of_nat i) s
  | CFreeInput r i => free_encoder_input r (Z.of_nat i) s
  | CFree r => free r s
  | CTakeFreed => bind get_freed_mm_hashes (λ _, ret tt) s
  end.

(** An input is allocated when it is not cached and [can_allocate] made room for it. *)
Definition allowed (c : call) (s : t) : Prop :=
  match c with
  | CReset | CTakeFreed => True
  | CFree r => sized r
  | CCheck r i | CCanAllocate r i _ _ | CFreeInput r i => sized r ∧ is_Some (mm_features r !! i)
  | CAllocate r i => sized r ∧ ∃ f, mm_features r !! i = Some f ∧ cached s !! identifier f = None
                       ∧ embeds (identifier f) ≤ num_free_slots s
  end.

Inductive reachable (n : Z) : t → Prop :=
  | reach_create : reachable n (create n)
  | reach_call c s : reachable n s → allowed c s → reachable n (run_call c s).2.

Lemma encoder_run_call_inv c s : inv s → allowed c s → (run_call c s).1 = Ok tt ∧ inv (run_call c s).2.
Proof using Hembeds.
  intros Hi Ha. destruct c as [|r i|r i b n|r i|r i|r|]; simpl in *.
  - split; [done|]. apply inv_create. pose proof (used_nonneg (cached s)). destruct Hi. lia.
  - destruct Ha as [Hr [f Hf]]. pose proof (check_spec r i f s Hi Hf) as H.
    destruct (cached s !! identifier f); [destruct H as (s' & Hrun & ? & _)|rename H into Hrun]; by rewrite (bind_run _ _ _ _ _ Hrun).
  - destruct Ha as [Hr [f Hf]]. pose proof (can_allocate_spec r i f b n s Hi Hr Hf) as H. unfold answer in H.
    case_decide; [destruct H as (l & rest & _ & Hrun & ? & _)|rename H into Hrun]; by rewrite (bind_run _ _ _ _ _ Hrun).
  - destruct Ha as (Hr & f & Hf & Hc & Hfit). destruct (encoder_allocate_spec r i f s Hi Hr Hf Hc Hfit) as (s' & Hrun & ? & _). by rewrite Hrun.
  - destruct Ha as [Hr [f Hf]]. destruct (free_input_spec r i f s Hi Hr Hf) as (s' & Hrun & ? & _). by rewrite Hrun.
  - destruct (free_request_run r s Hi Ha) as (s' & Hrun & ? & _). by rewrite Hrun.
  - split; [done|]. by apply inv_freed.
Qed.

(** C11. The encoder cache keeps its accounts over all calls that a caller may make
    ([allowed]): for an input that the request has, and [allocate] only for one that is not
    cached and for which there are free slots, as behind [can_allocate]; features with the
    same hash have the same number of embeddings ([sized]). None of these calls raises, the
    free slots are the size less the embeddings of all entries and never negative, and exactly
    the entries without references can be reclaimed.  [can_allocate] says yes exactly when
    the budget and the reclaimable slots suffice, and then evicts the shortest prefix of the
    oldest unreferenced entries that makes room. *)
Theorem encoder_cache_accounts n s :
  0 ≤ n → reachable n s →
  inv s
  ∧ (∀ c, allowed c s → (run_call c s).1 = Ok tt)
  ∧ ∀ r i f budget sched, sized r → mm_features r !! i = Some f → answer r i f budget sched s.
Proof using Hembeds.
  intros Hn Hr. assert (inv s) as Hi.
  { induction Hr as [|c s _ IH Ha]; [by apply inv_create|by apply encoder_run_call_inv]. }
  split; [done|]. split; [intros c Hc; by apply encoder_run_call_inv|]. intros. by apply can_allocate_spec.
Qed.
End accounts.
End EncoderAccounts.
