(* ===== verification/EncoderSchedule.v ===== *)
(** The encoder inputs of a step: [_try_schedule_encoder_inputs] and [_free_encoder_inputs] of
    [vllm/v1/core/sched/scheduler.py] on the interface of the encoder caches, and what
    [_gather_mm_embeddings] of [vllm/v1/worker/gpu_model_runner.py] then looks up. *)
From stdpp Require Import gmap strings.
From S2P Require Export EncoderCache.
From stdpp Require Import options.
Open Scope Z_scope.

Module EncoderSchedule.
Import Placeholder.

(** ** Scheduling *)

(** The local variables of the loop. *)
Record acc := Acc {
  encoder_inputs_to_schedule : list Z;
  external_load_encoder_input : list Z;
  mm_hashes_to_schedule : gset string;
  num_new_tokens : Z;
  encoder_compute_budget : Z;
  num_embeds_to_schedule : Z
}.
Definition set_new_tokens n (a : acc) : acc :=
  Acc (encoder_inputs_to_schedule a) (external_load_encoder_input a) (mm_hashes_to_schedule a) n
      (encoder_compute_budget a) (num_embeds_to_schedule a).

Section schedule.
Context {S : Type} `{EncoderCacheOps S}.
(** The scheduler's configuration; [has_cache_item] is that of the encoder-cache connector. *)
Context (is_encoder_decoder disable_chunked_mm_input : bool) (has_cache_item : option (string → bool)).
Context (r : mm_request) (num_computed_tokens shift_computed_tokens : Z).

(** An input that the cache has room for: the rest of the loop's body. *)
Definition take_input (i : Z) (f : mm_feature) (num_encoder_embeds : Z) (a : acc) : result acc :=
  let start_idx_rel := Z.max 0 (num_computed_tokens - offset f) in
  let end_idx_rel := Z.min (length_ f) (num_computed_tokens + num_new_tokens a - offset f) in
  let! (curr_embeds_start, curr_embeds_end) := get_embeds_indices_in_range f start_idx_rel end_idx_rel in
  Ok (if curr_embeds_end - curr_embeds_start =? 0 then a
      else if match has_cache_item with Some h => h (identifier f) | None => false end then
        Acc (encoder_inputs_to_schedule a) (external_load_encoder_input a ++ [i])
            ({[identifier f]} ∪ mm_hashes_to_schedule a) (num_new_tokens a) (encoder_compute_budget a)
            (num_embeds_to_schedule a + num_encoder_embeds)
      else
        Acc (encoder_inputs_to_schedule a ++ [i]) (external_load_encoder_input a)
            ({[identifier f]} ∪ mm_hashes_to_schedule a) (num_new_tokens a) (encoder_compute_budget a - num_encoder_embeds)
            (num_embeds_to_schedule a + num_encoder_embeds)).

(** One pass of the loop: whether it breaks, and the variables. *)
Definition input_step (i : Z) (f : mm_feature) (a : acc) : py S (bool * acc) :=
  let start_pos := offset f in
  let num_encoder_tokens := length_ f in
  let* num_encoder_embeds := lift (get_num_embeds f) in
  if start_pos >=? num_computed_tokens + num_new_tokens a + shift_computed_tokens then ret (true, a)
  else if is_encoder_decoder && (0 <? num_computed_tokens) then
    passert (start_pos =? 0) ;;; ret (false, a)
  else if start_pos + num_encoder_tokens <=? num_computed_tokens then ret (false, a)
  else
    let* known :=
      (if negb is_encoder_decoder then
         if decide (identifier f ∈ mm_hashes_to_schedule a) then ret true else check_and_update_cache r i
       else ret false) in
    if known : bool then ret (false, a)
    else if disable_chunked_mm_input && (num_computed_tokens <? start_pos)
            && (num_computed_tokens + num_new_tokens a <? start_pos + num_encoder_tokens)
    then ret (true, set_new_tokens (Z.max 0 (start_pos - (num_computed_tokens + shift_computed_tokens))) a)
    else
      let* room := can_allocate r i (encoder_compute_budget a) (num_embeds_to_schedule a) in
      if negb room then
        ret (true, set_new_tokens (if num_computed_tokens + shift_computed_tokens <? start_pos
                                   then start_pos - (num_computed_tokens + shift_computed_tokens) else 0) a)
      else let* a := lift (take_input i f num_encoder_embeds a) in ret (false, a).

Fixpoint input_loop (i : Z) (fs : list mm_feature) (a : acc) : py S acc :=
  match fs with
  | [] => ret a
  | f :: rest =>
      let* (stop, a) := input_step i f a in
      if stop : bool then ret a else input_loop (i + 1) rest a
  end.

Definition try_schedule_encoder_inputs (num_new_tokens encoder_compute_budget : Z)
    : py S (list Z * Z * Z * list Z) :=
  if (num_new_tokens =? 0) || (zlen (mm_features r) =? 0) then ret ([], num_new_tokens, encoder_compute_budget, [])
  else
    let* a := input_loop 0 (mm_features r) (Acc [] [] ∅ num_new_tokens encoder_compute_budget 0) in
    ret (encoder_inputs_to_schedule a, EncoderSchedule.num_new_tokens a,
         EncoderSchedule.encoder_compute_budget a, external_load_encoder_input a).

(** What [schedule] does with the answer. *)
Definition allocate_inputs (inputs external : list Z) : py S unit :=
  for_each inputs (allocate r) ;;;
  for_each external (allocate r).

(** ** Freeing, when the tokens are computed *)

Definition free_computed (num_computed_tokens : Z) (input_id : Z) : py S unit :=
  let* f := lift (py_index (mm_features r) input_id) in
  if is_encoder_decoder && (0 <? num_computed_tokens) then free_encoder_input r input_id
  else if offset f + length_ f <=? num_computed_tokens then free_encoder_input r input_id
  else ret tt.

Definition free_encoder_inputs (num_computed_tokens : Z) : py S unit :=
  let* cached_encoder_input_ids := get_cached_input_ids r in
  for_each cached_encoder_input_ids (free_computed num_computed_tokens).
End schedule.

(** ** What the model runner looks up *)

(** Whether the loop of [_gather_mm_embeddings] reads the encoder output of a feature, for
    the tokens from [num_computed_tokens] on; the caller adds its shift to them. *)
Definition gathers (num_computed_tokens num_scheduled_tokens : Z) (f : mm_feature) : result bool :=
  if offset f >=? num_computed_tokens + num_scheduled_tokens then Ok false
  else if offset f + length_ f <=? num_computed_tokens then Ok false
  else
    let start_idx := Z.max (num_computed_tokens - offset f) 0 in
    let end_idx := Z.min (num_computed_tokens - offset f + num_scheduled_tokens) (length_ f) in
    let! _ := rassert (start_idx <? end_idx) in
    let! (curr_embeds_start, curr_embeds_end) := get_embeds_indices_in_range f start_idx end_idx in
    Ok (negb (curr_embeds_start =? curr_embeds_end)).

(** ** The scheduled inputs *)

(** Placeholders are not empty, and a mask has their length. *)
Definition valid (f : mm_feature) : Prop := 0 < length_ f ∧ ∀ l, is_embed f = Some l → zlen l = length_ f.

Lemma length_cumsum a l : length (cumsum_from a l) = length l.
Proof. revert a. induction l as [|b l IH]; intros a; simpl; [done|]. by rewrite IH. Qed.

Lemma cumsum_mono a l j k x y :
  (j ≤ k)%nat → cumsum_from a l !! j = Some x → cumsum_from a l !! k = Some y → a ≤ x ≤ y.
Proof.
  revert a j k x y. induction l as [|b l IH]; intros a j k x y Hjk Hx Hy; [done|]. simpl in Hx, Hy.
  assert (∀ a' i z, cumsum_from a' l !! i = Some z → a' ≤ z) as Hle.
  { intros a' i z Hz. destruct (IH a' i i z z ltac:(done) Hz Hz). lia. }
  set (a1 := a + _) in *. assert (a ≤ a1) by (unfold a1; destruct b; lia).
  destruct j as [|j], k as [|k]; simpl in Hx, Hy; [by simplify_eq; lia| |lia|].
  - injection Hx as <-. specialize (Hle _ _ _ Hy). lia.
  - destruct (IH a1 j k x y ltac:(lia) Hx Hy). lia.
Qed.

(** The indices exist, even the one of the empty range, which is the last of the mask. *)
Lemma indices_ok f s e : valid f → 0 ≤ s < length_ f → 0 ≤ e ≤ length_ f → ∃ p, get_embeds_indices_in_range f s e = Ok p.
Proof.
  intros [Hl Hm] Hs He. unfold get_embeds_indices_in_range, embeds_cumsum. destruct (is_embed f) as [l|]; simpl; [|by eexists].
  specialize (Hm l eq_refl). set (c := cumsum_from 0 l). assert (zlen c = length_ f) as Hc by (unfold zlen, c in *; by rewrite length_cumsum).
  assert (∀ i, 0 ≤ i < length_ f → ∃ v, py_index c i = Ok v) as Hi.
  { intros i Hi. rewrite py_index_nonneg by lia. destruct (lookup_lt_is_Some_2 c (Z.to_nat i)) as [v ->]; [unfold zlen in Hc; lia|by eexists]. }
  assert (∃ v, py_index c (e - 1) = Ok v) as [v Hv].
  { destruct (decide (e = 0)) as [->|]; [|apply Hi; lia]. destruct (Hi (length_ f - 1)) as [v Hv]; [lia|]. exists v.
    rewrite <- Hv. unfold py_index. rewrite Hc. simpl. destruct (Z.ltb_spec (length_ f - 1) 0); [lia|].
    by replace (0 - 1 + length_ f) with (length_ f - 1) by lia. }
  rewrite Hv. destruct (Z.ltb_spec 0 s); [|by eexists]. destruct (Hi (s - 1)) as [w ->]; [lia|]. by eexists.
Qed.

(** A range without embeddings has none in a shorter one. *)
Lemma indices_shrink f s e e' c1 c2 :
  valid f → 0 ≤ s → s < e' → e' ≤ e → e ≤ length_ f →
  get_embeds_indices_in_range f s e = Ok (c1, c2) → c2 - c1 = 0 →
  ∃ c, get_embeds_indices_in_range f s e' = Ok (c, c).
Proof.
  intros [Hl Hm] Hs He' Hee He. unfold get_embeds_indices_in_range, embeds_cumsum. destruct (is_embed f) as [l|]; simpl.
  2:{ intros [= <- <-] ?. lia. }
  intros (x & Hx & Hy)%rbind_ok Hc. apply rbind_ok in Hy as (y & Hy & [= -> ->]). exists c1. rewrite Hx. simpl.
  specialize (Hm l eq_refl). rewrite py_index_nonneg in Hy by lia. apply of_option_ok in Hy.
  rewrite py_index_nonneg by lia. destruct (lookup_lt_is_Some_2 (cumsum_from 0 l) (Z.to_nat (e' - 1))) as [z Hz].
  { rewrite length_cumsum. unfold zlen in Hm. lia. }
  rewrite Hz. simpl. do 2 f_equal. pose proof (cumsum_mono 0 l (Z.to_nat (e' - 1)) (Z.to_nat (e - 1)) _ _ ltac:(lia) Hz Hy). destruct (Z.ltb_spec 0 s).
  - rewrite py_index_nonneg in Hx by lia. apply of_option_ok in Hx. pose proof (cumsum_mono 0 l (Z.to_nat (s - 1)) (Z.to_nat (e' - 1)) _ _ ltac:(lia) Hx Hz). lia.
  - injection Hx as <-. lia.
Qed.

(** A lookup happens for tokens that overlap the placeholder, where it has embeddings. *)
Lemma gathers_true c n f :
  gathers c n f = Ok true ↔
  offset f < c + n ∧ c < offset f + length_ f ∧ Z.max 0 (c - offset f) < Z.min (length_ f) (c + n - offset f)
  ∧ ∃ c1 c2, get_embeds_indices_in_range f (Z.max 0 (c - offset f)) (Z.min (length_ f) (c + n - offset f)) = Ok (c1, c2)
      ∧ c2 - c1 ≠ 0.
Proof.
  unfold gathers. rewrite Z.geb_leb. destruct (Z.leb_spec (c + n) (offset f)); [by split; [|lia]|].
  destruct (Z.leb_spec (offset f + length_ f) c); [by split; [|lia]|].
  replace (Z.max (c - offset f) 0) with (Z.max 0 (c - offset f)) by lia.
  replace (Z.min (c - offset f + n) (length_ f)) with (Z.min (length_ f) (c + n - offset f)) by lia.
  cbv zeta. unfold rassert. destruct (Z.ltb_spec (Z.max 0 (c - offset f)) (Z.min (length_ f) (c + n - offset f))); [|by split; [|lia]].
  cbn [rbind]. destruct (get_embeds_indices_in_range _ _ _) as [[c1 c2]|e] eqn:E; cbn [rbind].
  - split; [|intros (_ & _ & _ & ? & ? & [= <- <-] & Hne); do 2 f_equal; by destruct (Z.eqb_spec c1 c2); [lia|]].
    intros [= Hb]. split; [done|]. split; [done|]. split; [done|]. exists c1, c2. split; [done|]. destruct (Z.eqb_spec c1 c2); [done|lia].
  - by split; [|intros (_ & _ & _ & ? & ? & ? & _)].
Qed.

Lemma gathers_mono c n n' f : valid f → n' ≤ n → gathers c n' f = Ok true → gathers c n f = Ok true.
Proof.
  intros Hv Hn (H1 & H2 & H3 & c1 & c2 & Hi & Hne)%gathers_true. apply gathers_true.
  split; [lia|]. split; [done|]. split; [lia|].
  destruct (indices_ok f (Z.max 0 (c - offset f)) (Z.min (length_ f) (c + n - offset f)) Hv) as [[d1 d2] Hd]; [lia|lia|].
  exists d1, d2. split; [done|]. intros Hz.
  destruct (indices_shrink f (Z.max 0 (c - offset f)) (Z.min (length_ f) (c + n - offset f))
    (Z.min (length_ f) (c + n' - offset f)) d1 d2 Hv ltac:(lia) H3 ltac:(lia) ltac:(lia) Hd Hz) as [x Hx].
  rewrite Hi in Hx. injection Hx as <- ->. lia.
Qed.

Module Fit.
Import EncoderCacheManager EncoderAccounts.

Section fit.
Context (embeds : string → Z) (Hembeds : ∀ h, 0 ≤ embeds h).
Context (disable_chunked_mm_input : bool) (has_cache_item : option (string → bool)).
Context (r : mm_request) (c shift n0 : Z) (Hr : sized embeds r).
Context (Hvalid : Forall valid (mm_features r)).
Context (Hsorted : ∀ i j f g, (i ≤ j)%nat → mm_features r !! i = Some f → mm_features r !! j = Some g → offset f ≤ offset g).

Abbreviation step := (input_step (S := t) false disable_chunked_mm_input has_cache_item r c shift).

(** The entry of a hash holds a reference of the request. *)
Definition referenced (s : t) (h : string) : Prop := ∃ refs, cached s !! h = Some refs ∧ mm_request_id r ∈ refs.

(** What the cache does while inputs are chosen. *)
Record extends (s s' : t) : Prop := Extends {
  ext_inv : inv embeds s';
  ext_room : num_free_slots s ≤ num_free_slots s';
  ext_absent : ∀ h, cached s !! h = None → cached s' !! h = None;
  ext_referenced : ∀ h, referenced s h → referenced s' h
}.

Definition input_of (i : Z) (h : string) : Prop := 0 ≤ i ∧ ∃ f, mm_features r !! Z.to_nat i = Some f ∧ identifier f = h.

Definition weight (hs : list string) : Z := foldr Z.add 0 (embeds <$> hs).

(** The chosen inputs: one per hash, with their embeddings. *)
Definition chosen (a : acc) (hi he : list string) : Prop :=
  Forall2 input_of (encoder_inputs_to_schedule a) hi ∧ Forall2 input_of (external_load_encoder_input a) he
  ∧ NoDup (hi ++ he) ∧ (∀ h, h ∈ mm_hashes_to_schedule a ↔ h ∈ hi ++ he)
  ∧ num_embeds_to_schedule a = weight (hi ++ he).

Record choice (k : nat) (a : acc) (s : t) : Prop := Choice {
  ch_inv : inv embeds s;
  ch_chosen : ∃ hi he, chosen a hi he;
  ch_room : num_embeds_to_schedule a ≤ num_free_slots s;
  ch_budget : 0 ≤ encoder_compute_budget a;
  ch_absent : ∀ h, h ∈ mm_hashes_to_schedule a → cached s !! h = None;
  ch_served : ∀ i f, (i < k)%nat → mm_features r !! i = Some f → gathers c (num_new_tokens a) f = Ok true →
                identifier f ∈ mm_hashes_to_schedule a ∨ referenced s (identifier f)
}.

Lemma choice_extends k a s s' : choice k a s → extends s s' → choice k a s'.
Proof.
  intros [H1 H2 H3 H4 H5 H6] [E1 E2 E3 E4]. split; [done|done|lia|done|by intros; apply E3, H5|].
  intros i f Hi Hf Hg. destruct (H6 i f Hi Hf Hg); [by left|right; by apply E4].
Qed.

(** One more feature is served. *)
Lemma choice_next k f a s :
  choice k a s → mm_features r !! k = Some f →
  (gathers c (num_new_tokens a) f = Ok true → identifier f ∈ mm_hashes_to_schedule a ∨ referenced s (identifier f)) →
  choice (Datatypes.S k) a s.
Proof.
  intros [H1 H2 H3 H4 H5 H6] Hf Hs. split; [done..|]. intros i g Hi Hg Hga.
  destruct (decide (i = k)) as [->|]; [|apply (H6 i g); [lia|done|done]]. assert (g = f) as -> by congruence. by apply Hs.
Qed.

Lemma choice_shrink k a s n :
  choice k a s → n ≤ num_new_tokens a → choice k (set_new_tokens n a) s.
Proof using Hvalid.
  intros [H1 H2 H3 H4 H5 H6] Hn. split; [done..|]. intros i f Hi Hf Hg. apply (H6 i f Hi Hf).
  apply (gathers_mono c _ n); [by apply (Forall_lookup_1 _ _ i _ Hvalid)|done|done].
Qed.

(** *** The cache's answers *)

Lemma lookup_evicted l rest s h :
  cached (evicted l rest s) !! h = if decide (h ∈ l.*1) then None else cached s !! h.
Proof.
  unfold evicted. simpl. generalize (cached s). induction (l.*1) as [|x ks IH]; intros m; simpl; [done|]. rewrite IH.
  destruct (decide (h = x)) as [->|Hx].
  - rewrite (decide_True (P := x ∈ x :: ks)) by (by left). case_decide; [done|apply lookup_delete_eq].
  - rewrite lookup_delete_ne by done. apply decide_ext. rewrite elem_of_cons. tauto.
Qed.

Lemma check_extends i f s :
  inv embeds s → mm_features r !! i = Some f →
  (cached s !! identifier f = None ∧ check_and_update r (Z.of_nat i) s = (Ok false, s))
  ∨ ∃ s', check_and_update r (Z.of_nat i) s = (Ok true, s') ∧ extends s s' ∧ referenced s' (identifier f).
Proof.
  intros Hi Hf. pose proof (check_spec embeds r i f s Hi Hf) as H.
  destruct (cached s !! identifier f) as [refs|] eqn:Hc; [|by left]. right. destruct H as (s' & Hrun & Hi' & Hn & Hcc).
  assert (referenced s' (identifier f)) as Hrf.
  { exists ({[mm_request_id r]} ∪ refs). rewrite Hcc, lookup_insert_eq. split; [done|]. apply elem_of_union_l, elem_of_singleton_2. done. }
  exists s'. split; [done|]. split; [|done]. split; [done|by rewrite Hn|..].
  - intros h Hh. rewrite Hcc. rewrite lookup_insert_ne; [done|congruence].
  - intros h (x & Hx & Hin). destruct (decide (h = identifier f)) as [->|Hh]; [done|].
    exists x. by rewrite Hcc, lookup_insert_ne.
Qed.

Lemma room_extends i f budget sched s :
  inv embeds s → mm_features r !! i = Some f →
  can_allocate_space r (Z.of_nat i) budget sched s = (Ok false, s)
  ∨ ∃ s', can_allocate_space r (Z.of_nat i) budget sched s = (Ok true, s') ∧ extends s s'
      ∧ embeds (identifier f) + sched ≤ num_free_slots s' ∧ embeds (identifier f) ≤ budget.
Proof using Hr Hembeds.
  intros Hi Hf. pose proof (can_allocate_spec embeds Hembeds r i f budget sched s Hi Hr Hf) as H. unfold answer in H.
  case_decide as Hd; [|by left]. right. destruct H as (l & rest & Hl & Hrun & Hi' & Hn & Hun & _).
  assert (0 ≤ reclaimable l) as Hnn.
  { pose proof (inv_free _ _ Hi) as H1. pose proof (inv_freeable _ _ Hi) as H2. pose proof (inv_freeable _ _ Hi') as H3.
    pose proof (reclaimable_nonneg embeds Hembeds _ Hi') as H4. unfold evicted in H3, H4. simpl in H3, H4.
    clear -Hembeds Hi Hl Hun. assert (∀ h k, (h, k) ∈ l → 0 ≤ k) as Hk.
    { intros h k Hin. assert (od_get h (freeable s) = Some k) as Hg.
      { apply od_elem_get; [apply Hi|]. rewrite Hl. apply elem_of_app. by left. }
      apply (inv_entries _ _ Hi) in Hg as [_ ->]. apply Hembeds. }
    clear Hl Hun. induction l as [|[h k] l IH]; [done|]. rewrite reclaimable_cons.
    specialize (IH ltac:(intros; eapply Hk; by right)). specialize (Hk h k ltac:(by left)). lia. }
  exists (evicted l rest s). split; [done|]. split; [|by destruct Hd]. split; [done|unfold evicted; simpl; lia|..].
  - intros h Hh. rewrite lookup_evicted. by case_decide.
  - intros h (x & Hx & Hin). exists x. rewrite lookup_evicted. case_decide as Hm; [|done].
    apply Hun in Hm. rewrite Hx in Hm. injection Hm as ->. by apply not_elem_of_empty in Hin.
Qed.
(** *** One pass *)

Lemma weight_app hs1 hs2 : weight (hs1 ++ hs2) = weight hs1 + weight hs2.
Proof.
  unfold weight. rewrite fmap_app. generalize (embeds <$> hs2). induction (embeds <$> hs1) as [|x l IH]; intros l'; [done|].
  simpl. rewrite IH. lia.
Qed.

Lemma weight_one h : weight [h] = embeds h.
Proof. unfold weight. simpl. lia. Qed.

(** The accumulator with one input more, of either kind. *)
Record takes (i : Z) (h : string) (a a' : acc) : Prop := Takes {
  tk_hashes : mm_hashes_to_schedule a' = {[h]} ∪ mm_hashes_to_schedule a;
  tk_new : num_new_tokens a' = num_new_tokens a;
  tk_embeds : num_embeds_to_schedule a' = num_embeds_to_schedule a + embeds h;
  tk_budget : encoder_compute_budget a - embeds h ≤ encoder_compute_budget a';
  tk_list : (encoder_inputs_to_schedule a' = encoder_inputs_to_schedule a ++ [i]
             ∧ external_load_encoder_input a' = external_load_encoder_input a)
          ∨ (encoder_inputs_to_schedule a' = encoder_inputs_to_schedule a
             ∧ external_load_encoder_input a' = external_load_encoder_input a ++ [i])
}.

Lemma take_spec i f a :
  valid f → 0 ≤ num_new_tokens a → offset f < c + num_new_tokens a + shift → shift ≤ 1 → c < offset f + length_ f →
  ∃ a', take_input has_cache_item c i f (embeds (identifier f)) a = Ok a'
  ∧ ((a' = a ∧ gathers c (num_new_tokens a) f ≠ Ok true) ∨ takes i (identifier f) a a').
Proof using Hembeds.
  intros Hv Hn Ho Hs1 Hl. unfold take_input.
  destruct (indices_ok f (Z.max 0 (c - offset f)) (Z.min (length_ f) (c + num_new_tokens a - offset f)) Hv) as [[c1 c2] Hi];
    [destruct Hv; lia|destruct Hv; lia|].
  rewrite Hi. cbn [rbind]. eexists. split; [reflexivity|]. specialize (Hembeds (identifier f)). destruct (Z.eqb_spec (c2 - c1) 0) as [Hz|Hz].
  - left. split; [done|]. intros (_ & _ & _ & d1 & d2 & Hd & Hne)%gathers_true. rewrite Hi in Hd. injection Hd as <- <-. done.
  - right. destruct (match has_cache_item with Some h => h (identifier f) | None => false end); split; simpl; (done || lia || auto).
Qed.

Lemma chosen_takes k f a a' hi he :
  chosen a hi he → mm_features r !! k = Some f → identifier f ∉ mm_hashes_to_schedule a →
  takes (Z.of_nat k) (identifier f) a a' → ∃ hi' he', chosen a' hi' he'.
Proof.
  intros (Hi & He & Hnd & Hh & Hw) Hf Hnew [T1 _ T3 _ T5]. rewrite Hh in Hnew.
  assert (input_of (Z.of_nat k) (identifier f)) as Hin by (split; [lia|exists f; by rewrite Nat2Z.id]).
  destruct T5 as [[Li Le]|[Li Le]]; [exists (hi ++ [identifier f]), he|exists hi, (he ++ [identifier f])];
    unfold chosen; rewrite Li, Le, T1, T3, Hw.
  - split; [by apply Forall2_app, Forall2_cons|]. split; [done|].
    assert ((hi ++ [identifier f]) ++ he ≡ₚ identifier f :: hi ++ he) as Hp by (rewrite <- app_assoc; symmetry; apply Permutation_middle).
    split; [rewrite Hp; by constructor|]. split; [|rewrite !weight_app, weight_one; lia].
    intros h. rewrite elem_of_union, elem_of_singleton, Hp, elem_of_cons, Hh. done.
  - split; [done|]. split; [by apply Forall2_app, Forall2_cons|].
    assert (hi ++ he ++ [identifier f] ≡ₚ identifier f :: hi ++ he) as Hp by (rewrite app_assoc; by rewrite Permutation_app_comm).
    split; [rewrite Hp; by constructor|]. split; [|rewrite !weight_app, weight_one; lia].
    intros h. rewrite elem_of_union, elem_of_singleton, Hp, elem_of_cons, Hh. done.
Qed.

Lemma choice_takes k f a a' s :
  choice k a s → mm_features r !! k = Some f → identifier f ∉ mm_hashes_to_schedule a →
  cached s !! identifier f = None → embeds (identifier f) + num_embeds_to_schedule a ≤ num_free_slots s →
  embeds (identifier f) ≤ encoder_compute_budget a → takes (Z.of_nat k) (identifier f) a a' → choice (Datatypes.S k) a' s.
Proof.
  intros [H1 (hi & he & H2) H3 H4 H5 H6] Hf Hnew Hc Hroom Hbud Ht.
  pose proof (chosen_takes k f a a' hi he H2 Hf Hnew Ht) as Hch. destruct Ht as [T1 T2 T3 T4 _].
  apply (choice_next k f); [|done|intros _; left; rewrite T1; by apply elem_of_union_l, elem_of_singleton_2].
  split; [done|done|lia|lia|..].
  - intros h. rewrite T1, elem_of_union, elem_of_singleton. intros [->|Hh]; [done|by apply H5].
  - intros i g Hi Hg Hga. rewrite T2 in Hga. rewrite T1. destruct (H6 i g Hi Hg Hga); [left; by apply elem_of_union_r|by right].
Qed.

Context (Hshift : 0 ≤ shift ≤ 1).

(** A pass goes on with one more feature served, or stops before its feature. *)
Lemma step_spec k f a s :
  choice k a s → mm_features r !! k = Some f → 0 ≤ num_new_tokens a →
  ∃ stop a' s', step (Z.of_nat k) f a s = (Ok (stop, a'), s') ∧ 0 ≤ num_new_tokens a' ≤ num_new_tokens a
  ∧ if stop : bool then choice k a' s' ∧ (c + num_new_tokens a' ≤ offset f ∨ num_new_tokens a' = 0)
    else choice (Datatypes.S k) a' s'.
Proof using Hembeds Hr Hvalid Hshift.
  intros Hch Hf Hn. pose proof (ch_inv _ _ _ Hch) as Hi. assert (valid f) as Hv by (by apply (Forall_lookup_1 _ _ k _ Hvalid)).
  unfold input_step. rewrite (bind_run _ _ s (embeds (identifier f)) s) by (unfold lift; rewrite (Hr f); [done|by apply list_elem_of_lookup_2 in Hf]).
  rewrite Z.geb_leb. destruct (Z.leb_spec (c + num_new_tokens a + shift) (offset f)) as [Ho|Ho].
  { exists true, a, s. split; [done|]. split; [lia|]. split; [done|lia]. }
  cbn [andb negb]. destruct (Z.leb_spec (offset f + length_ f) c) as [Hl|Hl].
  { exists false, a, s. split; [done|]. split; [lia|]. apply (choice_next k f); [done|done|]. intros (_ & ? & _)%gathers_true. lia. }
  case_decide as Hin.
  { exists false, a, s. split; [done|]. split; [lia|]. apply (choice_next k f); [done|done|by left]. }
  destruct (check_extends k f s Hi Hf) as [[Hc Hrun]|(s1 & Hrun & Hext & Href)].
  2:{ exists false, a, s1. rewrite (bind_run _ _ _ _ _ Hrun). split; [done|]. split; [lia|].
      apply (choice_next k f); [by apply (choice_extends k a s)|done|by right]. }
  rewrite (bind_run _ _ _ _ _ Hrun). cbv iota. destruct (disable_chunked_mm_input && _ && _) eqn:Hroll.
  { apply andb_true_iff in Hroll as [[_ Hr1%Z.ltb_lt]%andb_true_iff _]. eexists true, _, s. split; [reflexivity|]. simpl.
    split; [lia|]. split; [apply choice_shrink; [done|lia]|lia]. }
  destruct (room_extends k f (encoder_compute_budget a) (num_embeds_to_schedule a) s Hi Hf) as [Hno|(s1 & Hyes & Hext & Hfit & Hbud)].
  { rewrite (bind_run _ _ _ _ _ Hno). simpl. eexists true, _, s. split; [reflexivity|]. simpl.
    destruct (Z.ltb_spec (c + shift) (offset f)); (split; [lia|]); (split; [apply choice_shrink; [done|lia]|lia]). }
  rewrite (bind_run _ _ _ _ _ Hyes). simpl. apply (choice_extends k a s s1) in Hch; [|done].
  destruct (take_spec (Z.of_nat k) f a Hv Hn Ho ltac:(lia) Hl) as (a' & Ht & Hcase). exists false, a', s1.
  rewrite (bind_run _ _ s1 a' s1) by (unfold lift; by rewrite Ht). split; [done|].
  destruct Hcase as [[-> Hng]|Ht']; [split; [lia|]; by apply (choice_next k f)|].
  split; [rewrite (tk_new _ _ _ _ Ht'); lia|]. apply (choice_takes k f a); [done|done|done|by apply (ext_absent _ _ Hext)|lia|done|done].
Qed.

(** The loop from a feature on. *)
Lemma loop_spec fs k a s :
  drop k (mm_features r) = fs → choice k a s → 0 ≤ num_new_tokens a →
  ∃ a' s', input_loop false disable_chunked_mm_input has_cache_item r c shift (Z.of_nat k) fs a s = (Ok a', s')
  ∧ 0 ≤ num_new_tokens a' ≤ num_new_tokens a ∧ choice (length (mm_features r)) a' s'.
Proof using Hembeds Hr Hvalid Hshift Hsorted.
  revert k a s. induction fs as [|f fs IH]; intros k a s Hd Hch Hn; simpl.
  - exists a, s. split; [done|]. split; [lia|]. destruct Hch as [H1 H2 H3 H4 H5 H6]. split; [done..|]. intros i f Hi Hf.
    apply (H6 i f); [|done]. apply (f_equal length) in Hd. rewrite length_drop in Hd. simpl in Hd. lia.
  - assert (mm_features r !! k = Some f) as Hf.
    { rewrite <- (Nat.add_0_r k), <- lookup_drop, Hd. done. }
    destruct (step_spec k f a s Hch Hf Hn) as (stop & a1 & s1 & Hrun & Hn1 & Hcase). rewrite (bind_run _ _ _ _ _ Hrun).
    destruct stop.
    + exists a1, s1. split; [done|]. split; [done|]. destruct Hcase as [[H1 H2 H3 H4 H5 H6] Hstop]. split; [done..|].
      intros i g _ Hg Hga. destruct (decide (i < k)%nat) as [Hi|Hi]; [by apply (H6 i g)|].
      pose proof (Hsorted k i f g ltac:(lia) Hf Hg) as Ho. apply gathers_true in Hga as (? & ? & ? & _). lia.
    + destruct (IH (Datatypes.S k) a1 s1) as (a2 & s2 & Hrun2 & Hn2 & Hch2).
      { rewrite (drop_S _ f k Hf) in Hd. by injection Hd. }
      { done. } { lia. }
      replace (Z.of_nat k + 1) with (Z.of_nat (Datatypes.S k)) by lia. exists a2, s2. split; [done|]. split; [lia|done].
Qed.

(** *** Allocating the chosen inputs *)

Lemma weight_cons h hs : weight (h :: hs) = embeds h + weight hs.
Proof. done. Qed.

Lemma weight_nonneg hs : 0 ≤ weight hs.
Proof using Hembeds. induction hs as [|h hs IH]; [done|]. rewrite weight_cons. specialize (Hembeds h). lia. Qed.

Lemma encoder_allocate_all l hs s :
  inv embeds s → Forall2 input_of l hs → NoDup hs → (∀ h, h ∈ hs → cached s !! h = None) → weight hs ≤ num_free_slots s →
  ∃ s', for_each l (allocate r) s = (Ok tt, s') ∧ inv embeds s' ∧ num_free_slots s' = num_free_slots s - weight hs
  ∧ (∀ h, h ∈ hs → referenced s' h) ∧ ∀ h, h ∉ hs → cached s' !! h = cached s !! h.
Proof using Hembeds Hr.
  intros Hi Hf. revert s Hi. induction Hf as [|i h l hs [Hi0 (f & Hf & <-)] Hl IH]; intros s Hi Hnd Hc Hw.
  { exists s. split; [done|]. split; [done|]. split; [unfold weight; simpl; lia|]. split; [by intros h ?%elem_of_nil|done]. }
  apply NoDup_cons in Hnd as [Hh Hnd]. rewrite weight_cons in *. pose proof (weight_nonneg hs).
  destruct (encoder_allocate_spec embeds Hembeds r (Z.to_nat i) f s Hi Hr Hf) as (s1 & Hrun & Hi1 & Hc1 & Hn1 & _); [apply Hc; by left|lia|].
  rewrite Z2Nat.id in Hrun by done. destruct (IH s1 Hi1 Hnd) as (s2 & Hrun2 & Hi2 & Hn2 & Href & Hsame).
  { intros h' Hh'. rewrite Hc1, lookup_insert_ne by congruence. apply Hc. by right. }
  { lia. }
  exists s2. simpl. rewrite (bind_run _ _ _ _ _ Hrun). split; [done|]. split; [done|]. split; [lia|]. split.
  - intros h' [->|Hh']%elem_of_cons; [|by apply Href]. eexists. rewrite Hsame, Hc1, lookup_insert_eq by done.
    split; [done|by apply elem_of_singleton_2].
  - intros h' [Hne Hh']%not_elem_of_cons. by rewrite Hsame, Hc1, lookup_insert_ne by congruence.
Qed.
End fit.

(** C12. The encoder inputs of a step fit: for a decoder-only model and a cache with its
    accounts in order, [_try_schedule_encoder_inputs] raises nothing, never adds tokens and
    stays within the encoder's budget; the allocations that the scheduler then makes for the
    chosen inputs, and for those loaded from outside, all succeed; and every feature that
    the model runner looks up for the scheduled tokens has an entry that the request
    references. *)
Theorem scheduled_inputs_fit embeds disable has_cache_item r c shift n budget s :
  (∀ h, 0 ≤ embeds h) → sized embeds r → Forall valid (mm_features r) → 0 ≤ shift ≤ 1 →
  (∀ i j f g, (i ≤ j)%nat → mm_features r !! i = Some f → mm_features r !! j = Some g → offset f ≤ offset g) →
  0 ≤ n → 0 ≤ budget → inv embeds s →
  ∃ inputs n' budget' external s1 s2,
    try_schedule_encoder_inputs false disable has_cache_item r c shift n budget s = (Ok (inputs, n', budget', external), s1)
    ∧ 0 ≤ n' ≤ n ∧ 0 ≤ budget'
    ∧ allocate_inputs r inputs external s1 = (Ok tt, s2) ∧ inv embeds s2
    ∧ ∀ f, f ∈ mm_features r → gathers c n' f = Ok true → referenced r s2 (identifier f).
Proof.
  intros Hembeds Hr Hvalid Hshift Hsorted Hn Hb Hi. unfold try_schedule_encoder_inputs.
  destruct ((n =? 0) || (zlen (mm_features r) =? 0)) eqn:E0.
  { exists [], n, budget, [], s, s. split; [done|]. split; [lia|]. split; [done|]. split; [done|]. split; [done|].
    intros f Hf Hg. apply orb_true_iff in E0 as [->%Z.eqb_eq|Hz%Z.eqb_eq].
    - apply gathers_true in Hg as (? & ? & ? & _). lia.
    - unfold zlen in Hz. destruct (mm_features r); [by apply elem_of_nil in Hf|simpl in Hz; lia]. }
  assert (choice embeds r c 0 (Acc [] [] ∅ n budget 0) s) as Hch.
  { split; simpl; [done| |apply Hi|done|done|intros; lia]. exists [], []. split; [constructor|]. split; [constructor|].
    split; [constructor|]. split; [|done]. intros h. split; [by intros ?%elem_of_empty|by intros ?%elem_of_nil]. }
  destruct (loop_spec embeds Hembeds disable has_cache_item r c shift Hr Hvalid Hsorted Hshift (mm_features r) 0
              (Acc [] [] ∅ n budget 0) s eq_refl Hch Hn) as (a & s1 & Hrun & Hn' & [H1 (hi & he & Hli & Hle & Hnd & Hh & Hw) H3 H4 H5 H6]).
  rewrite (bind_run _ _ _ _ _ Hrun). simpl in Hn'. rewrite weight_app in Hw. apply NoDup_app in Hnd as (Hndi & Hdis & Hnde).
  pose proof (weight_nonneg embeds Hembeds hi). pose proof (weight_nonneg embeds Hembeds he).
  destruct (encoder_allocate_all embeds Hembeds r Hr _ hi s1 H1 Hli Hndi) as (s2 & Hr2 & Hi2 & Hf2 & Href2 & Hsame2); [|lia|].
  { intros h Hin. apply H5, Hh, elem_of_app. by left. }
  destruct (encoder_allocate_all embeds Hembeds r Hr _ he s2 Hi2 Hle Hnde) as (s3 & Hr3 & Hi3 & _ & Href3 & Hsame3); [|lia|].
  { intros h Hin. rewrite Hsame2 by (intros ?; by apply (Hdis h)). apply H5, Hh, elem_of_app. by right. }
  eexists _, _, _, _, s1, s3. split; [reflexivity|]. split; [lia|]. split; [done|]. split; [unfold allocate_inputs; by rewrite (bind_run _ _ _ _ _ Hr2)|].
  split; [done|]. assert (∀ h, referenced r s2 h → referenced r s3 h) as Hkeep.
  { intros h Hrf. destruct (decide (h ∈ he)); [by apply Href3|]. unfold referenced. by rewrite Hsame3. }
  intros f Hf Hg. apply list_elem_of_lookup in Hf as [i Hf]. destruct (H6 i f (lookup_lt_Some _ _ _ Hf) Hf Hg) as [[Hin|Hin]%Hh%elem_of_app|Hrf].
  - by apply Hkeep, Href2.
  - by apply Href3.
  - apply Hkeep. unfold referenced. destruct (decide (identifier f ∈ hi)) as [Hin|]; [by apply Href2|by rewrite Hsame2].
Qed.
End Fit.
End EncoderSchedule.
