(* ===== verification/EncoderDemo.v ===== *)
(** The encoder cache at concrete requests: the hypotheses of its theorems hold, and an input
    that starts right behind the scheduled tokens is missed for the drafter. *)
From stdpp Require Import gmap strings.
From S2P Require Export EncoderSchedule.
From stdpp Require Import options.
Open Scope Z_scope.

Module EncoderDemo.
Import EncoderCacheManager EncoderAccounts EncoderSchedule.

(** Two images, the second with a mask over its row ends. *)
Definition image : mm_feature := Feature "image" 1 4 None.
Definition masked : mm_feature := Feature "masked" 6 4 (Some [true; true; false; true]).
Definition req_one : mm_request := MMRequest "one" [image; masked].
Definition req_two : mm_request := MMRequest "two" [Feature "image" 3 4 None].

Definition embeds (h : string) : Z := if decide (h = "image"%string) then 4 else 3.

Lemma embeds_nonneg h : 0 ≤ embeds h.
Proof. unfold embeds. case_decide; lia. Qed.

Lemma sized_checked (r : mm_request) :
  forallb (λ f, bool_decide (Placeholder.get_num_embeds f = Ok (embeds (identifier f)))) (mm_features r) = true → sized embeds r.
Proof. intros H f Hf. rewrite forallb_forall in H. apply (bool_decide_unpack _), Is_true_eq_left, H, list_elem_of_In, Hf. Qed.

(** Both inputs are cached for the first request, and the image is shared with the second;
    the first request is done. *)
Definition shared : t :=
  (run_call (CFree req_one) (run_call (CCheck req_two 0) (run_call (CAllocate req_one 1) (run_call (CAllocate req_one 0) (create 8)).2).2).2).2.

Lemma shared_reachable : reachable embeds 8 shared.
Proof.
  apply reach_call; [|by apply sized_checked].
  apply reach_call; [|split; [by apply sized_checked|by eexists]].
  apply reach_call; [|split; [by apply sized_checked|exists masked; by vm_compute]].
  apply reach_call; [|split; [by apply sized_checked|exists image; by vm_compute]].
  apply reach_create.
Qed.

(** The accounts of the shared cache: the masked input can be reclaimed. *)
Example encoder_cache_accounts_witness :
  (inv embeds shared
   ∧ (∀ c, allowed embeds c shared → (run_call c shared).1 = Ok tt)
   ∧ ∀ r i f budget sched, sized embeds r → mm_features r !! i = Some f → answer embeds r i f budget sched shared)
  ∧ num_free_slots shared = 1 ∧ freeable shared = [("masked"%string, 3)].
Proof.
  split; [|vm_compute; done]. apply (encoder_cache_accounts embeds embeds_nonneg 8 shared); [lia|apply shared_reachable].
Defined.

Definition spare : t := create 8.

(** Eight tokens of the first request with an encoder budget of six: the masked input does
    not fit the budget, and the step ends in front of it. *)
Example scheduled_inputs_fit_witness :
  (∃ inputs n' budget' external s1 s2,
     try_schedule_encoder_inputs false false None req_one 0 0 8 6 spare = (Ok (inputs, n', budget', external), s1)
     ∧ 0 ≤ n' ≤ 8 ∧ 0 ≤ budget'
     ∧ allocate_inputs req_one inputs external s1 = (Ok tt, s2) ∧ inv embeds s2
     ∧ ∀ f, f ∈ mm_features req_one → gathers 0 n' f = Ok true → Fit.referenced req_one s2 (identifier f))
  ∧ (try_schedule_encoder_inputs false false None req_one 0 0 8 6 spare).1 = Ok ([0], 6, 2, []).
Proof.
  split; [|vm_compute; done].
  apply (Fit.scheduled_inputs_fit embeds false None req_one 0 0 8 6 spare).
  - apply embeds_nonneg.
  - by apply sized_checked.
  - repeat constructor; by intros l [= <-].
  - done.
  - intros i j f g Hij Hf Hg. destruct i as [|[|i]], j as [|[|j]]; simplify_eq/=; lia.
  - done.
  - done.
  - apply inv_create; done.
Defined.

(** ** An input behind the scheduled tokens *)

(** With EAGLE, the drafter reads the embeddings one token further than the target.  An
    input without mask that starts right behind the scheduled tokens passes the guard, which
    counts that token, but its range, which does not, is empty, and it is not scheduled. *)
Definition behind : mm_request := MMRequest "behind" [Feature "image" 4 4 None].

Example drafter_misses_input :
  try_schedule_encoder_inputs false false None behind 0 1 4 10 spare = (Ok ([], 4, 10, []), spare)
  ∧ gathers (0 + 1) 4 (Feature "image" 4 4 None) = Ok true ∧ ¬ Fit.referenced behind spare "image".
Proof. split; [done|]. split; [done|]. by intros (refs & ? & ?). Qed.

(** A mask with embeddings at its end makes the index of the empty range wrap around to the
    whole mask, and the same input is scheduled. *)
Example masked_input_is_scheduled :
  (try_schedule_encoder_inputs false false None (MMRequest "behind" [Feature "masked" 4 4 (Some [true; true; false; true])])
     0 1 4 10 spare).1 = Ok ([0], 4, 7, []).
Proof. done. Qed.
End EncoderDemo.
