(* ===== verification/HeapQ.v ===== *)
(** Python's [heapq]: binary heaps in lists, as CPython implements them, with the heap
    property, the least element at the root and the sorted order of repeated pops. *)
From stdpp Require Import sorting.
From S2P Require Export Prelude.
From stdpp Require Import options.

#[local] Open Scope nat_scope.

Module HeapQ.

Definition parent (i : nat) : nat := Nat.div2 (pred i).

Section heap.
Context {A : Type} (lt : A → A → bool).

(** ** The algorithms *)

Definition swap (i j : nat) (l : list A) : list A :=
  match l !! i, l !! j with Some x, Some y => <[i := y]> (<[j := x]> l) | _, _ => l end.

(** [siftdown]: towards the root, while the item is less than its parent; a position gets
    smaller with every step, and is enough fuel. *)
Fixpoint siftdown_loop (fuel startpos pos : nat) (l : list A) : list A :=
  match fuel with
  | O => l
  | S fuel =>
      if decide (startpos < pos)%nat then
        match l !! pos, l !! parent pos with
        | Some newitem, Some par =>
            if lt newitem par then siftdown_loop fuel startpos (parent pos) (swap pos (parent pos) l) else l
        | _, _ => l
        end
      else l
  end.
Definition siftdown (startpos pos : nat) (l : list A) : list A := siftdown_loop pos startpos pos l.

(** The child that [siftup] moves up: the right one unless the left one is less. *)
Definition smaller_child (pos : nat) (l : list A) : nat :=
  match l !! (2 * pos + 1), l !! (2 * pos + 2) with
  | Some x, Some y => if lt x y then 2 * pos + 1 else 2 * pos + 2
  | _, _ => 2 * pos + 1
  end.

(** [siftup]: down to a leaf, and from there up to its place. *)
Fixpoint leaf_loop (fuel pos : nat) (l : list A) : nat * list A :=
  match fuel with
  | O => (pos, l)
  | S fuel =>
      if decide (2 * pos + 1 < length l)%nat then
        let childpos := smaller_child pos l in leaf_loop fuel childpos (swap childpos pos l)
      else (pos, l)
  end.
Definition siftup (pos : nat) (l : list A) : list A :=
  let '(leaf, l') := leaf_loop (length l) pos l in siftdown pos leaf l'.

Definition heappush (x : A) (l : list A) : list A := siftdown 0 (length l) (l ++ [x]).

Definition heappop (l : list A) : result (A * list A) :=
  match last l with
  | None => Raise IndexError
  | Some lastelt =>
      match removelast l with
      | [] => Ok (lastelt, [])
      | returnitem :: rest => Ok (returnitem, siftup 0 (lastelt :: rest))
      end
  end.

(** [for i in reversed(range(n // 2))]. *)
Definition heapify (l : list A) : list A := foldr siftup l (seq 0 (Nat.div2 (length l))).

(** Popping until the heap is empty. *)
Fixpoint heap_drain (fuel : nat) (l : list A) : list A :=
  match fuel with
  | O => []
  | S fuel => match heappop l with Ok (x, l') => x :: heap_drain fuel l' | Raise _ => [] end
  end.

(** ** They permute *)

Lemma swap_perm i j l : swap i j l ≡ₚ l.
Proof.
  unfold swap. destruct (l !! i) as [x|] eqn:Hi; [|done]. destruct (l !! j) as [y|] eqn:Hj; [|done].
  destruct (decide (i = j)) as [->|Hij]; [assert (x = y) as -> by congruence; by rewrite !list_insert_id by (rewrite ?list_insert_id by done; done)|].
  apply Permutation_inj. split; [by rewrite !length_insert|].
  exists (λ k, if decide (k = i) then j else if decide (k = j) then i else k). split.
  - intros a b. repeat case_decide; congruence.
  - intros k. pose proof (lookup_lt_Some _ _ _ Hi). pose proof (lookup_lt_Some _ _ _ Hj). case_decide as H1; [|case_decide as H2].
    + subst k. rewrite list_lookup_insert_eq; [done|by rewrite length_insert].
    + subst k. rewrite list_lookup_insert_ne by congruence. by rewrite list_lookup_insert_eq.
    + by rewrite !list_lookup_insert_ne by congruence.
Qed.

Lemma length_swap i j l : length (swap i j l) = length l.
Proof. by rewrite swap_perm. Qed.

Lemma lookup_swap i j l x y k :
  l !! i = Some x → l !! j = Some y →
  swap i j l !! k = if decide (k = i) then Some y else if decide (k = j) then Some x else l !! k.
Proof.
  intros Hi Hj. pose proof (lookup_lt_Some _ _ _ Hi). pose proof (lookup_lt_Some _ _ _ Hj).
  unfold swap. rewrite Hi, Hj. repeat case_decide; subst.
  - by rewrite list_lookup_insert_eq by by rewrite length_insert.
  - by rewrite list_lookup_insert_ne, list_lookup_insert_eq by congruence.
  - by rewrite !list_lookup_insert_ne by congruence.
Qed.

Lemma siftdown_loop_perm fuel s pos l : siftdown_loop fuel s pos l ≡ₚ l.
Proof.
  revert pos l. induction fuel as [|fuel IH]; intros pos l; simpl; [done|]. repeat case_match; try done. by rewrite IH, swap_perm.
Qed.

Lemma leaf_loop_perm fuel pos l : (leaf_loop fuel pos l).2 ≡ₚ l.
Proof. revert pos l. induction fuel as [|fuel IH]; intros pos l; simpl; [done|]. case_decide; [by rewrite IH, swap_perm|done]. Qed.

Lemma siftup_perm pos l : siftup pos l ≡ₚ l.
Proof.
  unfold siftup. pose proof (leaf_loop_perm (length l) pos l) as Hp. destruct (leaf_loop _ _ _) as [leaf l'].
  unfold siftdown. by rewrite siftdown_loop_perm.
Qed.

Lemma heappush_perm x l : heappush x l ≡ₚ x :: l.
Proof. unfold heappush, siftdown. by rewrite siftdown_loop_perm, Permutation_app_comm. Qed.

Lemma heapify_perm l : heapify l ≡ₚ l.
Proof. unfold heapify. induction (seq _ _) as [|i l' IH]; simpl; [done|]. by rewrite siftup_perm. Qed.

Lemma heappop_nil : heappop [] = Raise IndexError.
Proof. done. Qed.

(** A pop takes the root, in whatever order the list is. *)
Lemma heappop_cons x l : ∃ l', heappop (x :: l) = Ok (x, l') ∧ l' ≡ₚ l.
Proof.
  unfold heappop. induction l as [|y l _] using rev_ind; [by exists []|].
  rewrite app_comm_cons, last_snoc, removelast_last. eexists. split; [reflexivity|].
  rewrite siftup_perm. by rewrite Permutation_app_comm.
Qed.
End heap.

(** ** Positions *)

Lemma parent_lt i : 0 < i → parent i < i.
Proof. intros Hi. unfold parent. destruct i as [|i]; [lia|]. simpl pred. pose proof (Nat.lt_div2 i). destruct i; [simpl; lia|lia]. Qed.

Lemma parent_child i p : 0 < i → parent i = p ↔ i = 2 * p + 1 ∨ i = 2 * p + 2.
Proof.
  intros Hi. unfold parent. rewrite Nat.div2_div. pose proof (Nat.div_mod (pred i) 2). pose proof (Nat.mod_upper_bound (pred i) 2). lia.
Qed.

Lemma parent_left p : parent (2 * p + 1) = p.
Proof. apply parent_child; lia. Qed.
Lemma parent_right p : parent (2 * p + 2) = p.
Proof. apply parent_child; lia. Qed.

(** The positions below [k], with [k] itself. *)
Inductive desc (k : nat) : nat → Prop :=
  | desc_refl : desc k k
  | desc_child p c : desc k p → 0 < c → parent c = p → desc k c.

Lemma desc_le k p : desc k p → k ≤ p.
Proof. induction 1 as [|p c _ IH Hc Hp]; [done|]. pose proof (parent_lt c). lia. Qed.

Lemma desc_parent k p : desc k p → p ≠ k → k < p ∧ k ≤ parent p ∧ desc k (parent p).
Proof.
  destruct 1 as [|p c Hd Hc <-]; [done|]. intros _. pose proof (desc_le _ _ Hd). pose proof (parent_lt c Hc). split; [lia|done].
Qed.

Lemma desc_zero n : desc 0 n.
Proof.
  induction n as [n IH] using lt_wf_ind. destruct n as [|n]; [constructor|].
  apply (desc_child 0 (parent (S n))); [apply IH, parent_lt; lia|lia|done].
Qed.

(** ** The heap property *)
Section order.
Context {A : Type} (lt : A → A → bool).

(** [le x y] when [y] is not less than [x]. *)
Definition le (x y : A) : Prop := lt y x = false.

Context (le_trans : ∀ x y z, le x y → le y z → le x z) (lt_le : ∀ x y, lt x y = true → le x y).

Definition le_at (l : list A) (i j : nat) : Prop := ∀ x y, l !! i = Some x → l !! j = Some y → le x y.

Definition heap_from (k : nat) (l : list A) : Prop := ∀ i, 0 < i → k ≤ parent i → le_at l (parent i) i.
Definition heap : list A → Prop := heap_from 0.

(** All is in order but for the edge above [pos]. *)
Definition heap_above (k pos : nat) (l : list A) : Prop :=
  desc k pos
  ∧ (∀ i, 0 < i → k ≤ parent i → i ≠ pos → le_at l (parent i) i)
  ∧ (pos ≠ k → ∀ c, 0 < c → parent c = pos → le_at l (parent pos) c).

(** All is in order but for the edges above and below [pos]. *)
Definition heap_around (k pos : nat) (l : list A) : Prop :=
  desc k pos
  ∧ (∀ i, 0 < i → k ≤ parent i → i ≠ pos → parent i ≠ pos → le_at l (parent i) i)
  ∧ (pos ≠ k → ∀ c, 0 < c → parent c = pos → le_at l (parent pos) c).

Lemma siftdown_step k pos l x y :
  heap_above k pos l → pos ≠ k → l !! pos = Some x → l !! parent pos = Some y → lt x y = true →
  heap_above k (parent pos) (swap pos (parent pos) l).
Proof using le_trans lt_le.
  intros (Hd & He & Hg) Hk Hx Hy Hlt. destruct (desc_parent _ _ Hd Hk) as (Hk1 & Hk2 & Hd'). pose proof (parent_lt pos ltac:(lia)) as Hpp.
  specialize (Hg Hk). assert (le x y) as Hxy by auto. split; [done|]. split.
  - intros i Hi Hki Hip a b. rewrite !(lookup_swap _ _ _ _ _ _ Hx Hy).
    destruct (decide (i = pos)) as [->|Hipos].
    + rewrite (decide_False (P := parent pos = pos)), (decide_True (P := parent pos = parent pos)) by lia. by intros [= <-] [= <-].
    + rewrite (decide_False (P := i = parent pos)) by done. destruct (decide (parent i = pos)) as [Hpi|Hpi].
      * intros [= <-] Hb. by apply (Hg i Hi Hpi y b).
      * case_decide as Hpi2; [|by apply He]. intros [= <-] Hb. apply (le_trans _ y); [done|]. apply (He i Hi Hki Hipos); [by rewrite Hpi2|done].
  - intros Hpk c Hc Hpc a b. rewrite !(lookup_swap _ _ _ _ _ _ Hx Hy). destruct (desc_parent _ _ Hd' Hpk) as (? & ? & ?).
    pose proof (parent_lt (parent pos) ltac:(lia)). rewrite (decide_False (P := parent (parent pos) = pos)), (decide_False (P := parent (parent pos) = parent pos)) by lia.
    intros Ha. assert (le a y) as Hay by (apply (He (parent pos)); [lia|done|lia|done|done]).
    destruct (decide (c = pos)) as [->|Hcp]; [by intros [= <-]|]. rewrite decide_False by (pose proof (parent_lt c Hc); lia).
    intros Hb. apply (le_trans _ y); [done|]. apply (He c Hc); [lia|done|by rewrite Hpc|done].
Qed.

Lemma siftdown_loop_heap fuel k pos l : pos ≤ fuel → heap_above k pos l → heap_from k (siftdown_loop lt fuel k pos l).
Proof using le_trans lt_le.
  revert pos l. induction fuel as [|fuel IH]; intros pos l Hf Ha.
  { destruct Ha as (Hd & He & _). apply desc_le in Hd. intros i Hi Hk. apply He; [done|done|]. pose proof (parent_lt i). lia. }
  simpl. pose proof Ha as (Hd & He & _). case_decide as Hlt.
  2:{ apply desc_le in Hd. intros i Hi Hk. apply He; [done|done|]. pose proof (parent_lt i). lia. }
  assert (∀ i, 0 < i → k ≤ parent i → le_at l (parent pos) pos → le_at l (parent i) i) as Hall.
  { intros i Hi Hk Hp. destruct (decide (i = pos)) as [->|Hne]; [done|by apply He]. }
  destruct (l !! pos) as [x|] eqn:Hx.
  2:{ intros i Hi Hk. apply Hall; [done|done|]. intros a b _ Hb. congruence. }
  destruct (l !! parent pos) as [y|] eqn:Hy.
  2:{ intros i Hi Hk. apply Hall; [done|done|]. intros a b Ha' _. congruence. }
  destruct (lt x y) eqn:Hxy.
  - apply IH; [pose proof (parent_lt pos); lia|]. by apply (siftdown_step k pos l x y); [|lia|..].
  - intros i Hi Hk. apply Hall; [done|done|]. intros a b Ha' Hb. rewrite Hy in Ha'. rewrite Hx in Hb. by injection Ha' as <-; injection Hb as <-.
Qed.

Lemma siftdown_heap k pos l : heap_above k pos l → heap_from k (siftdown lt k pos l).
Proof using le_trans lt_le. by apply siftdown_loop_heap. Qed.

Lemma smaller_child_spec pos l :
  2 * pos + 1 < length l →
  let c := smaller_child lt pos l in
  0 < c ∧ parent c = pos ∧ c < length l ∧ ∀ d, 0 < d → parent d = pos → le_at l c d.
Proof using le_trans lt_le.
  intros Hl c. unfold c, smaller_child. destruct (lookup_lt_is_Some_2 l _ Hl) as [x Hx]. rewrite Hx.
  assert (∀ z, le z z) as Hrefl by (intros z; unfold le; destruct (lt z z) eqn:E; [by apply lt_le in E as E'; unfold le in E'; congruence|done]).
  assert (∀ d, 0 < d → parent d = pos → d = 2 * pos + 1 ∨ d = 2 * pos + 2) as Hd by (intros d Hd1 Hd2; by apply parent_child).
  destruct (l !! (2 * pos + 2)) as [y|] eqn:Hy.
  - pose proof (lookup_lt_Some _ _ _ Hy). destruct (lt x y) eqn:Hxy.
    + rewrite parent_left. split; [lia|]. split; [done|]. split; [lia|]. intros d H1 H2 a b Ha Hb.
      destruct (Hd d H1 H2) as [->| ->]; simplify_eq; [done|by apply lt_le].
    + rewrite parent_right. split; [lia|]. split; [done|]. split; [lia|]. intros d H1 H2 a b Ha Hb.
      destruct (Hd d H1 H2) as [->| ->]; simplify_eq; done.
  - rewrite parent_left. split; [lia|]. split; [done|]. split; [done|]. intros d H1 H2 a b Ha Hb.
    destruct (Hd d H1 H2) as [->| ->]; simplify_eq; done.
Qed.

Lemma leaf_step k pos l :
  heap_around k pos l → 2 * pos + 1 < length l →
  heap_around k (smaller_child lt pos l) (swap (smaller_child lt pos l) pos l).
Proof using le_trans lt_le.
  intros (Hd & He & Hg) Hl. destruct (smaller_child_spec pos l Hl) as (Hc & Hpc & Hcl & Hmin). set (c := smaller_child _ _ _) in *.
  pose proof (parent_lt c Hc) as Hlt. rewrite Hpc in Hlt. destruct (lookup_lt_is_Some_2 l c Hcl) as [v Hv].
  destruct (lookup_lt_is_Some_2 l pos ltac:(lia)) as [x Hx]. pose proof (desc_le _ _ Hd) as Hkp. split; [by apply (desc_child k pos)|]. split.
  - intros i Hi Hk Hic Hpic a b. rewrite !(lookup_swap _ _ _ _ _ _ Hv Hx). rewrite (decide_False (P := parent i = c)), (decide_False (P := i = c)) by done.
    destruct (decide (i = pos)) as [->|Hip].
    + rewrite decide_False by (pose proof (parent_lt pos Hi); lia). intros Ha [= <-]. apply (Hg ltac:(pose proof (parent_lt pos Hi); lia) c Hc Hpc); done.
    + case_decide as Hpi; [|by apply He]. intros [= <-] Hb. by apply (Hmin i Hi Hpi).
  - intros Hck d Hd1 Hpd a b. rewrite !(lookup_swap _ _ _ _ _ _ Hv Hx), Hpc. pose proof (parent_lt d Hd1).
    rewrite (decide_False (P := pos = c)), (decide_True (P := pos = pos)), (decide_False (P := d = c)), (decide_False (P := d = pos)) by lia.
    intros [= <-] Hb. apply (He d Hd1); [lia|lia|lia|by rewrite Hpd|done].
Qed.

Lemma leaf_loop_heap fuel k pos l :
  length l ≤ pos + fuel → heap_around k pos l → let '(leaf, l') := leaf_loop lt fuel pos l in heap_above k leaf l'.
Proof using le_trans lt_le.
  revert pos l. assert (∀ pos l, ¬ 2 * pos + 1 < length l → heap_around k pos l → heap_above k pos l) as Hleaf.
  { intros pos l Hl (Hd & He & Hg). split; [done|]. split; [|done]. intros i Hi Hk Hip. destruct (decide (parent i = pos)) as [Hp|Hp]; [|by apply He].
    intros a b _ Hb. apply lookup_lt_Some in Hb. apply parent_child in Hp; lia. }
  induction fuel as [|fuel IH]; intros pos l Hf Ha; simpl; [apply Hleaf; [lia|done]|].
  case_decide as Hl; [|by apply Hleaf]. apply IH; [|by apply leaf_step].
  destruct (smaller_child_spec pos l Hl) as (Hc & Hpc & _). pose proof (parent_lt _ Hc). rewrite length_swap. lia.
Qed.

Lemma siftup_heap k l : heap_from (S k) l → heap_from k (siftup lt k l).
Proof using le_trans lt_le.
  intros Hl. unfold siftup. pose proof (leaf_loop_heap (length l) k k l ltac:(lia)) as H. destruct (leaf_loop _ _ _ _) as [leaf l'].
  apply siftdown_heap, H. split; [constructor|]. split; [|done]. intros i Hi Hk _ Hp. apply Hl; [done|lia].
Qed.

Lemma heapify_heap l : heap (heapify lt l).
Proof using le_trans lt_le.
  unfold heap, heapify. assert (∀ m j, j + m = Nat.div2 (length l) → heap_from j (foldr (siftup lt) l (seq j m))) as H; [|by apply (H _ 0)].
  intros m. induction m as [|m IH]; intros j Hj; simpl.
  - intros i Hi Hk a b _ Hb. apply lookup_lt_Some in Hb. rewrite Nat.div2_div in Hj.
    pose proof (Nat.div_mod (length l) 2). pose proof (Nat.mod_upper_bound (length l) 2).
    destruct (proj1 (parent_child i (parent i) Hi) eq_refl); lia.
  - apply siftup_heap, IH. lia.
Qed.

Lemma heappush_heap x l : heap l → heap (heappush lt x l).
Proof using le_trans lt_le.
  intros Hl. apply siftdown_heap. assert (∀ i, i ≠ length l → ∀ a, (l ++ [x]) !! i = Some a → l !! i = Some a) as Hlook.
  { intros i Hi a Ha. pose proof (lookup_lt_Some _ _ _ Ha) as Hi'. rewrite length_app in Hi'. simpl in Hi'. by rewrite lookup_app_l in Ha by lia. }
  split; [|split].
  - apply desc_zero.
  - intros i Hi _ Hne a b Ha Hb. pose proof (Hlook _ Hne _ Hb) as Hb'. pose proof (lookup_lt_Some _ _ _ Hb'). pose proof (parent_lt i Hi).
    apply (Hl i); [done|lia|apply Hlook; [lia|done]|done].
  - intros _ c Hc Hpc a b _ Hb. apply lookup_lt_Some in Hb. rewrite length_app in Hb. simpl in Hb. pose proof (parent_lt c Hc). lia.
Qed.

Lemma heappop_heap x l l' : heap l → heappop lt l = Ok (x, l') → heap l'.
Proof using le_trans lt_le.
  unfold heappop. induction l as [|y l _] using rev_ind; [done|]. rewrite last_snoc, removelast_last. intros Hl.
  destruct l as [|z l]; [intros [= <- <-]; by intros i Hi _ a b _ Hb|]. intros [= <- <-]. apply siftup_heap. intros i Hi Hk a b Ha Hb.
  apply (Hl i); [done|lia|..]; destruct i as [|i], (parent _) as [|p]; try lia; simpl in *; by apply lookup_app_l_Some.
Qed.

(** The root is a least element. *)
Lemma heap_least x l : heap (x :: l) → Forall (le x) (x :: l).
Proof using le_trans lt_le.
  intros Hl. assert (∀ i y, (x :: l) !! i = Some y → le x y) as H; [|by apply Forall_lookup].
  intros i. induction i as [i IH] using lt_wf_ind. intros y Hy. destruct (decide (i = 0)) as [->|Hi].
  - injection Hy as <-. unfold le. destruct (lt x x) eqn:E; [|done]. by apply lt_le in E as E'; unfold le in E'; congruence.
  - pose proof (parent_lt i ltac:(lia)) as Hp. destruct (lookup_lt_is_Some_2 (x :: l) (parent i)) as [w Hw].
    { apply lookup_lt_Some in Hy. lia. }
    apply (le_trans _ w); [by apply (IH (parent i))|]. by apply (Hl i ltac:(lia) ltac:(lia)).
Qed.

(** Repeated pops give all elements, in order. *)
Lemma heap_drain_perm fuel l : length l ≤ fuel → heap_drain lt fuel l ≡ₚ l.
Proof.
  revert l. induction fuel as [|fuel IH]; intros l Hl; [by destruct l; [|simpl in Hl; lia]|]. destruct l as [|x l]; [done|].
  destruct (heappop_cons lt x l) as (l' & Hpop & Hp). simpl. rewrite Hpop. constructor. rewrite IH; [done|]. rewrite Hp. simpl in Hl. lia.
Qed.

Lemma heap_drain_sorted fuel l : length l ≤ fuel → heap l → Sorted le (heap_drain lt fuel l).
Proof using le_trans lt_le.
  intros Hl Hh. apply StronglySorted_Sorted. revert l Hl Hh. induction fuel as [|fuel IH]; intros l Hl Hh; [constructor|].
  destruct l as [|x l]; [constructor|]. destruct (heappop_cons lt x l) as (l' & Hpop & Hp). simpl. rewrite Hpop. simpl in Hl.
  assert (length l' ≤ fuel) as Hl' by (rewrite Hp; lia). constructor; [apply IH; [done|by apply (heappop_heap x (x :: l))]|].
  rewrite (heap_drain_perm _ _ Hl'), Hp. apply heap_least in Hh. by inversion Hh.
Qed.

(** With an order that tells all elements apart, the pops give the sorted list. *)
Lemma sorted_unique_le l1 l2 :
  (∀ x y, x ∈ l1 → y ∈ l1 → le x y → le y x → x = y) → Sorted le l1 → Sorted le l2 → l1 ≡ₚ l2 → l1 = l2.
Proof using le_trans.
  intros Hanti Hs1 Hs2. apply Sorted_StronglySorted in Hs1, Hs2; [|exact le_trans..].
  revert l2 Hs2. induction Hs1 as [|x l1 _ IH Hx]; intros l2 Hs2 Hp; [symmetry; by apply Permutation_nil|].
  destruct Hs2 as [|y l2 Hs2 Hy]; [by apply Permutation_nil_r in Hp|].
  assert (x = y) as ->.
  { assert (x ∈ y :: l2) as Hxy by (rewrite <- Hp; left). assert (y ∈ x :: l1) as Hyx by (rewrite Hp; left).
    apply elem_of_cons in Hxy as [->|Hxy]; [done|]. apply elem_of_cons in Hyx as Hyx'. destruct Hyx' as [->|Hyx']; [done|].
    rewrite Forall_forall in Hx, Hy. apply Hanti; [left|done|by apply Hx|by apply Hy]. }
  f_equal. apply IH; [|done|by apply (inj (cons y))]. intros a b Ha Hb. apply Hanti; by right.
Qed.
End order.
End HeapQ.
