(* ===== verification/RequestQueue.v ===== *)
(** [vllm/v1/core/sched/request_queue.py]: the waiting queues of the scheduler, first come
    first served or by priority, behind the interface that the scheduler uses, and the
    order of requests, [Request.__lt__] of [vllm/v1/request.py]. *)
From Stdlib Require Import QArith.
From stdpp Require Import gmap strings sorting.
From S2P Require Export HeapQ.
From stdpp Require Import options.
Open Scope Z_scope.

(** ** The order of requests *)

(** What [__lt__] compares; a finite float is a rational number, and [address] is [id]. *)
Record order_key := OrderKey { priority : Z; arrival_time : Q; key_id : string; address : Z }.

Definition Qltb (x y : Q) : bool := negb (Qle_bool y x).

Definition request_lt (a b : order_key) : bool :=
  if negb (priority a =? priority b) then priority a <? priority b
  else if negb (Qeq_bool (arrival_time a) (arrival_time b)) then Qltb (arrival_time a) (arrival_time b)
  else if negb (String.eqb (key_id a) (key_id b)) then String.ltb (key_id a) (key_id b)
  else address a <? address b.

Lemma Qltb_spec x y : Qltb x y = true ↔ (x < y)%Q.
Proof. unfold Qltb. rewrite negb_true_iff, <- not_true_iff_false, Qle_bool_iff. split; [apply Qnot_le_lt|apply Qlt_not_le]. Qed.

Lemma string_lt_spec s t : String.ltb s t = true ↔ String.compare s t = Lt.
Proof. unfold String.ltb. by destruct (String.compare s t). Qed.

Lemma string_lt_trans s t u : String.compare s t = Lt → String.compare t u = Lt → String.compare s u = Lt.
Proof.
  revert t u. induction s as [|a s IH]; intros [|b t] [|c u]; simpl; try done. unfold Ascii.compare.
  destruct (N.compare_spec (Ascii.N_of_ascii a) (Ascii.N_of_ascii b)), (N.compare_spec (Ascii.N_of_ascii b) (Ascii.N_of_ascii c)),
    (N.compare_spec (Ascii.N_of_ascii a) (Ascii.N_of_ascii c)); try done; try lia. by apply IH.
Qed.

Lemma request_lt_asym a b : request_lt a b = true → request_lt b a = false.
Proof.
  unfold request_lt. rewrite (Z.eqb_sym (priority b)), (Qeq_bool_comm (arrival_time b)), (String.eqb_sym (key_id b)).
  destruct (priority a =? priority b); simpl; [|rewrite Z.ltb_lt, Z.ltb_ge; lia].
  destruct (Qeq_bool (arrival_time a) (arrival_time b)); simpl.
  - destruct (String.eqb (key_id a) (key_id b)); simpl; [rewrite Z.ltb_lt, Z.ltb_ge; lia|].
    unfold String.ltb. rewrite (String.compare_antisym (key_id a)). by destruct (String.compare (key_id b) (key_id a)).
  - rewrite <- not_true_iff_false, !Qltb_spec. intros H1 H2. by apply (Qlt_irrefl (arrival_time a)), (Qlt_trans _ _ _ H1).
Qed.

Lemma string_compare_refl s : String.compare s s = Eq.
Proof. pose proof (String.compare_antisym s s) as E. by destruct (String.compare s s). Qed.

(** When the second request is not before the first. *)
Definition request_le : order_key → order_key → Prop := HeapQ.le request_lt.

Lemma request_le_spec a b :
  request_le a b ↔
  priority a < priority b ∨ (priority a = priority b ∧
    ((arrival_time a < arrival_time b)%Q ∨ ((arrival_time a == arrival_time b)%Q ∧
      (String.compare (key_id a) (key_id b) = Lt ∨ (key_id a = key_id b ∧ address a ≤ address b))))).
Proof.
  unfold request_le, HeapQ.le, request_lt. destruct (Z.eqb_spec (priority b) (priority a)) as [Hp|Hp]; simpl; [|rewrite Z.ltb_ge; lia].
  destruct (Qeq_bool (arrival_time b) (arrival_time a)) eqn:Ht; simpl.
  - apply Qeq_bool_iff in Ht. assert (¬ (arrival_time a < arrival_time b)%Q) as Hnt by (rewrite Ht; apply Qlt_irrefl).
    apply Qeq_sym in Ht. destruct (String.eqb_spec (key_id b) (key_id a)) as [Hid|Hid]; simpl.
    + rewrite Z.ltb_ge. rewrite Hid, string_compare_refl. split; [intros; right; split; [done|]; right; split; [done|]; by right|].
      intros [?|[_ [?|[_ [?|[_ ?]]]]]]; [lia|done|done|done].
    + unfold String.ltb. rewrite String.compare_antisym.
      destruct (String.compare (key_id a) (key_id b)) eqn:Hs; simpl.
      * apply String.compare_eq_iff in Hs. congruence.
      * split; [|done]. intros _. right. split; [done|]. right. split; [done|]. by left.
      * split; [done|]. intros [?|[_ [?|[_ [?|[? ?]]]]]]; [lia|done|done|congruence].
  - assert (¬ (arrival_time b == arrival_time a)%Q) as Hne by (intros H; apply Qeq_bool_iff in H; congruence).
    rewrite <- not_true_iff_false, Qltb_spec. split.
    + intros Hn%Qnot_lt_le%Qle_lteq. right. split; [done|]. left. destruct Hn as [?|E]; [done|]. by rewrite E in Hne.
    + intros [?|[_ [H|[E _]]]] H'; [lia| |by rewrite E in Hne]. by apply (Qlt_irrefl (arrival_time a)), (Qlt_trans _ _ _ H).
Qed.

Lemma request_le_trans a b c : request_le a b → request_le b c → request_le a c.
Proof.
  rewrite !request_le_spec. intros [Hp|[Hp Ht]] [Hp'|[Hp' Ht']]; try (left; lia). right. split; [lia|].
  destruct Ht as [Ht|[Ht Hs]], Ht' as [Ht'|[Ht' Hs']].
  - left. by apply (Qlt_trans _ _ _ Ht).
  - left. by rewrite <- Ht'.
  - left. by rewrite Ht.
  - right. split; [by rewrite Ht|].
    destruct Hs as [Hs|[-> Ha]], Hs' as [Hs'|[<- Ha']]; [left; by apply (string_lt_trans _ _ _ Hs)|by left..|right; split; [done|lia]].
Qed.

Lemma request_lt_le a b : request_lt a b = true → request_le a b.
Proof. intros H%request_lt_asym. exact H. Qed.

(** Requests of the same rank have the same id. *)
Lemma request_le_antisym a b : request_le a b → request_le b a → key_id a = key_id b.
Proof.
  rewrite !request_le_spec. intros [Hp|[Hp Ht]] [Hp'|[Hp' Ht']]; try lia.
  destruct Ht as [Ht|[Ht Hs]], Ht' as [Ht'|[Ht' Hs']].
  - exfalso. by apply (Qlt_irrefl (arrival_time a)), (Qlt_trans _ _ _ Ht).
  - rewrite Ht' in Ht. by apply Qlt_irrefl in Ht.
  - rewrite Ht in Ht'. by apply Qlt_irrefl in Ht'.
  - destruct Hs as [Hs|[? _]]; [|done]. destruct Hs' as [Hs'|[? _]]; [|done].
    pose proof (string_lt_trans _ _ _ Hs Hs') as E. by rewrite string_compare_refl in E.
Qed.

(** ** The interface *)

Inductive SchedulingPolicy := FCFS | PRIORITY.

#[export] Instance SchedulingPolicy_eq_dec : EqDecision SchedulingPolicy.
Proof. solve_decision. Defined.

(** The abstract class [RequestQueue] on references to requests.  Requests are mutable: an
    operation that compares requests reads their keys when it runs. *)
Class RequestQueueOps (A Q : Type) := {
  add_request : (A → order_key) → A → Q → Q;
  pop_request : (A → order_key) → Q → result (A * Q);
  peek_request : Q → result A;
  prepend_request : (A → order_key) → A → Q → Q;
  prepend_requests : (A → order_key) → Q → Q → Q;
  remove_request : (A → order_key) → A → Q → result Q;
  remove_requests : (A → order_key) → list A → Q → Q;
  queue_len : Q → Z;
  queue_iter : (A → order_key) → Q → list A
}.
Definition queue_bool {A Q} `{RequestQueueOps A Q} (q : Q) : bool := 0 <? queue_len q.

(** [list.remove] and [deque.remove], by identity. *)
Fixpoint remove_first {A} `{EqDecision A} (x : A) (l : list A) : result (list A) :=
  match l with
  | [] => Raise ValueError
  | y :: l => if decide (y = x) then Ok l else let! l' := remove_first x l in Ok (y :: l')
  end.

(** What every policy promises of the elements: none is lost or made up, and the request
    that [peek_request] shows is the one that [pop_request] takes. *)
Class RequestQueueLaws (A Q : Type) `{EqDecision A, RequestQueueOps A Q} := {
  queue_elements : Q → list A;
  queue_len_elements q : queue_len q = zlen (queue_elements q);
  queue_iter_elements key q : queue_iter key q ≡ₚ queue_elements q;
  add_elements key x q : queue_elements (add_request key x q) ≡ₚ x :: queue_elements q;
  prepend_elements key x q : queue_elements (prepend_request key x q) ≡ₚ x :: queue_elements q;
  prepend_all_elements key s q : queue_elements (prepend_requests key s q) ≡ₚ queue_elements s ++ queue_elements q;
  remove_elements key x q : x ∈ queue_elements q → ∃ q', remove_request key x q = Ok q' ∧ queue_elements q ≡ₚ x :: queue_elements q';
  remove_all_elements key xs q : queue_elements (remove_requests key xs q) ≡ₚ filter (λ x, x ∉ xs) (queue_elements q);
  pop_elements key q : match peek_request q with
    | Ok x => ∃ q', pop_request key q = Ok (x, q') ∧ queue_elements q ≡ₚ x :: queue_elements q'
    | Raise e => e = IndexError ∧ pop_request key q = Raise IndexError ∧ queue_elements q = []
    end
}.

(** ** First come, first served *)
Module FCFSRequestQueue.
Section fcfs.
Context {A : Type} `{EqDecision A}.

Record t := Deque { items : list A }.

Definition create : t := Deque [].

#[global] Instance fcfs_ops : RequestQueueOps A t := {
  add_request _ x q := Deque (items q ++ [x]);
  pop_request _ q := match items q with [] => Raise IndexError | x :: l => Ok (x, Deque l) end;
  peek_request q := match items q with [] => Raise IndexError | x :: _ => Ok x end;
  prepend_request _ x q := Deque (x :: items q);
  prepend_requests _ s q := Deque (foldl (λ l x, x :: l) (items q) (items s));
  remove_request _ x q := let! l := remove_first x (items q) in Ok (Deque l);
  remove_requests _ xs q := Deque (filter (λ x, x ∉ xs) (items q));
  queue_len q := zlen (items q);
  queue_iter _ q := items q
}.
End fcfs.
Arguments t : clear implicits.
End FCFSRequestQueue.

(** ** By priority *)
Module PriorityRequestQueue.
Section priority.
Context {A : Type} `{EqDecision A}.

Record t := Heap { items : list A }.

Definition create : t := Heap [].

Definition before (key : A → order_key) (x y : A) : bool := request_lt (key x) (key y).

(** [__iter__]: pops from a copy. *)
Definition iterate (key : A → order_key) (q : t) : list A := HeapQ.heap_drain (before key) (length (items q)) (items q).

Definition push (key : A → order_key) (x : A) (q : t) : t := Heap (HeapQ.heappush (before key) x (items q)).

#[global] Instance priority_ops : RequestQueueOps A t := {
  add_request := push;
  pop_request key q :=
    match items q with [] => Raise IndexError | _ => let! (x, l) := HeapQ.heappop (before key) (items q) in Ok (x, Heap l) end;
  peek_request q := match items q with [] => Raise IndexError | x :: _ => Ok x end;
  prepend_request := push;
  prepend_requests key s q := foldl (λ q x, push key x q) q (iterate key s);
  remove_request key x q := let! l := remove_first x (items q) in Ok (Heap (HeapQ.heapify (before key) l));
  remove_requests key xs q := Heap (HeapQ.heapify (before key) (filter (λ x, x ∉ xs) (items q)));
  queue_len q := zlen (items q);
  queue_iter := iterate
}.
End priority.
Arguments t : clear implicits.
End PriorityRequestQueue.

(** ** The queue of a policy *)
Section queue.
Context {A : Type} `{EqDecision A}.

Inductive queue :=
  | FCFSQueue (q : FCFSRequestQueue.t A)
  | PriorityQueue (q : PriorityRequestQueue.t A).

Definition create_request_queue (policy : SchedulingPolicy) : queue :=
  match policy with
  | PRIORITY => PriorityQueue PriorityRequestQueue.create
  | FCFS => FCFSQueue FCFSRequestQueue.create
  end.

(** [extendleft] and the loop of [prepend_requests] read the other queue through its
    [__iter__], whatever its class is. *)
#[export] Instance queue_ops : RequestQueueOps A queue := {
  add_request key x q := match q with FCFSQueue q => FCFSQueue (add_request key x q) | PriorityQueue q => PriorityQueue (add_request key x q) end;
  pop_request key q := match q with
    | FCFSQueue q => let! (x, q) := pop_request key q in Ok (x, FCFSQueue q)
    | PriorityQueue q => let! (x, q) := pop_request key q in Ok (x, PriorityQueue q) end;
  peek_request q := match q with FCFSQueue q => peek_request q | PriorityQueue q => peek_request q end;
  prepend_request key x q := match q with FCFSQueue q => FCFSQueue (prepend_request key x q) | PriorityQueue q => PriorityQueue (prepend_request key x q) end;
  prepend_requests key s q :=
    let l := match s with FCFSQueue s => queue_iter key s | PriorityQueue s => queue_iter key s end in
    match q with
    | FCFSQueue q => FCFSQueue (FCFSRequestQueue.Deque (foldl (λ l x, x :: l) (FCFSRequestQueue.items q) l))
    | PriorityQueue q => PriorityQueue (foldl (λ q x, PriorityRequestQueue.push key x q) q l) end;
  remove_request key x q := match q with
    | FCFSQueue q => let! q := remove_request key x q in Ok (FCFSQueue q)
    | PriorityQueue q => let! q := remove_request key x q in Ok (PriorityQueue q) end;
  remove_requests key xs q := match q with FCFSQueue q => FCFSQueue (remove_requests key xs q) | PriorityQueue q => PriorityQueue (remove_requests key xs q) end;
  queue_len q := match q with FCFSQueue q => queue_len q | PriorityQueue q => queue_len q end;
  queue_iter key q := match q with FCFSQueue q => queue_iter key q | PriorityQueue q => queue_iter key q end
}.
End queue.
Arguments queue : clear implicits.

(** ** The laws *)
Section laws.
Context {A : Type} `{EqDecision A}.

Lemma remove_first_perm (x : A) l : x ∈ l → ∃ l', remove_first x l = Ok l' ∧ l ≡ₚ x :: l'.
Proof.
  induction l as [|y l IH]; [by intros ?%elem_of_nil|]. intros Hx. simpl. case_decide as Hy; [subst; by exists l|].
  apply elem_of_cons in Hx as [->|Hx]; [done|]. destruct (IH Hx) as (l' & -> & Hp). exists (y :: l'). split; [done|]. rewrite Hp. constructor.
Qed.

Lemma foldl_cons_reverse (l s : list A) : foldl (λ l x, x :: l) l s = reverse s ++ l.
Proof. revert l. induction s as [|x s IH]; intros l; simpl; [done|]. by rewrite IH, reverse_cons, <- app_assoc. Qed.

Lemma foldl_push_perm key (s : list A) q :
  PriorityRequestQueue.items (foldl (λ q x, PriorityRequestQueue.push key x q) q s) ≡ₚ s ++ PriorityRequestQueue.items q.
Proof.
  revert q. induction s as [|x s IH]; intros q; simpl; [done|]. rewrite IH. simpl. rewrite HeapQ.heappush_perm. by rewrite Permutation_middle.
Qed.

Lemma iterate_perm key (q : PriorityRequestQueue.t A) : PriorityRequestQueue.iterate key q ≡ₚ PriorityRequestQueue.items q.
Proof. unfold PriorityRequestQueue.iterate. by apply HeapQ.heap_drain_perm. Qed.

#[export, refine] Instance fcfs_laws : RequestQueueLaws A (FCFSRequestQueue.t A) := {| queue_elements := FCFSRequestQueue.items |}.
Proof.
  - done.
  - done.
  - intros key x q. simpl. by rewrite Permutation_app_comm.
  - done.
  - intros key s q. simpl. by rewrite foldl_cons_reverse, reverse_Permutation.
  - intros key x q Hx. destruct (remove_first_perm x _ Hx) as (l & Hl & Hp). exists (FCFSRequestQueue.Deque l). simpl. by rewrite Hl.
  - done.
  - intros key [[|x l]]; simpl; [done|]. by exists (FCFSRequestQueue.Deque l).
Defined.

#[export, refine] Instance priority_laws : RequestQueueLaws A (PriorityRequestQueue.t A) := {| queue_elements := PriorityRequestQueue.items |}.
Proof.
  - done.
  - intros key q. apply iterate_perm.
  - intros key x q. apply HeapQ.heappush_perm.
  - intros key x q. apply HeapQ.heappush_perm.
  - intros key s q. simpl. by rewrite foldl_push_perm, iterate_perm.
  - intros key x q Hx. destruct (remove_first_perm x _ Hx) as (l & Hl & Hp). eexists. simpl. rewrite Hl. split; [reflexivity|]. simpl. by rewrite HeapQ.heapify_perm.
  - intros key xs q. apply HeapQ.heapify_perm.
  - intros key [[|x l]]; simpl; [done|].
    destruct (HeapQ.heappop_cons (PriorityRequestQueue.before key) x l) as (l' & Hpop & Hp). rewrite Hpop. exists (PriorityRequestQueue.Heap l'). split; [done|]. simpl. by constructor.
Defined.

#[export, refine] Instance queue_laws : RequestQueueLaws A (queue A) :=
  {| queue_elements q := match q with FCFSQueue q => queue_elements q | PriorityQueue q => queue_elements q end |}.
Proof.
  - intros [q|q]; exact (queue_len_elements q).
  - intros key [q|q]; exact (queue_iter_elements key q).
  - intros key x [q|q]; exact (add_elements key x q).
  - intros key x [q|q]; exact (prepend_elements key x q).
  - intros key s [q|q]; destruct s as [s|s]; simpl; by rewrite ?foldl_cons_reverse, ?reverse_Permutation, ?foldl_push_perm, ?iterate_perm.
  - intros key x [q|q] Hx.
    + destruct (remove_elements (Q := FCFSRequestQueue.t A) key x q Hx) as (q' & Hr & Hp). exists (FCFSQueue q'). split; [|done].
      cbn [remove_request queue_ops]. by rewrite Hr.
    + destruct (remove_elements (Q := PriorityRequestQueue.t A) key x q Hx) as (q' & Hr & Hp). exists (PriorityQueue q'). split; [|done].
      cbn [remove_request queue_ops]. by rewrite Hr.
  - intros key xs [q|q]; exact (remove_all_elements key xs q).
  - intros key [q|q].
    + pose proof (pop_elements (Q := FCFSRequestQueue.t A) key q) as Hp. cbn [peek_request pop_request queue_ops].
      destruct (peek_request q); [destruct Hp as (q' & Hr & Hp); rewrite Hr; by exists (FCFSQueue q')|].
      destruct Hp as (-> & Hr & Hp). by rewrite Hr.
    + pose proof (pop_elements (Q := PriorityRequestQueue.t A) key q) as Hp. cbn [peek_request pop_request queue_ops].
      destruct (peek_request q); [destruct Hp as (q' & Hr & Hp); rewrite Hr; by exists (PriorityQueue q')|].
      destruct Hp as (-> & Hr & Hp). by rewrite Hr.
Defined.
End laws.

(** ** The order of the priority queue *)
Module PriorityOrder.
Import PriorityRequestQueue.

Section order.
Context {A : Type} `{EqDecision A}.
Context (key : A → order_key).

Abbreviation rank := (HeapQ.le (before key)).

Lemma rank_trans x y z : rank x y → rank y z → rank x z.
Proof. exact (request_le_trans (key x) (key y) (key z)). Qed.

Lemma before_rank x y : before key x y = true → rank x y.
Proof. exact (request_lt_le (key x) (key y)). Qed.

Lemma rank_total x y : rank x y ∨ rank y x.
Proof. destruct (before key y x) eqn:E; [right; by apply before_rank|by left]. Qed.

(** The heap property of the queue, for the keys as they are. *)
Definition ordered (q : t A) : Prop := HeapQ.heap (before key) (items q).

(** Distinct requests have distinct ids. *)
Definition distinct_ids (l : list A) : Prop := ∀ x y, x ∈ l → y ∈ l → key_id (key x) = key_id (key y) → x = y.

(** The reference: a sorted list. *)
Fixpoint insert_sorted (x : A) (l : list A) : list A :=
  match l with
  | [] => [x]
  | y :: l => if before key x y then x :: y :: l else y :: insert_sorted x l
  end.

Lemma insert_sorted_perm x l : insert_sorted x l ≡ₚ x :: l.
Proof. induction l as [|y l IH]; simpl; [done|]. case_match; [done|]. rewrite IH. constructor. Qed.

Lemma insert_sorted_sorted x l : Sorted rank l → Sorted rank (insert_sorted x l).
Proof.
  induction 1 as [|y l Hl IH Hy]; simpl; [by repeat constructor|]. destruct (before key x y) eqn:E.
  - constructor; [by constructor|]. constructor. by apply before_rank.
  - constructor; [done|]. destruct l as [|z l]; simpl; [by constructor|]. case_match; [by constructor|]. constructor. by inversion Hy.
Qed.

Lemma iterate_sorted q : ordered q → Sorted rank (iterate key q).
Proof. intros Hq. apply (HeapQ.heap_drain_sorted _ rank_trans before_rank); [done|exact Hq]. Qed.

(** The iteration is the one sorted list of the elements. *)
Lemma iterate_unique q l : distinct_ids (items q) → ordered q → Sorted rank l → l ≡ₚ items q → iterate key q = l.
Proof.
  intros Hd Hq Hl Hp. apply (HeapQ.sorted_unique_le _ rank_trans); [|by apply iterate_sorted|done|by rewrite iterate_perm].
  intros x y Hx Hy H1 H2. rewrite iterate_perm in Hx, Hy. apply Hd; [done|done|]. by apply request_le_antisym.
Qed.

Lemma ordered_push x q : ordered q → ordered (push key x q).
Proof. apply (HeapQ.heappush_heap _ rank_trans before_rank). Qed.

Lemma ordered_push_all l q : ordered q → ordered (foldl (λ q x, push key x q) q l).
Proof. revert q. induction l as [|x l IH]; intros q Hq; simpl; [done|]. by apply IH, ordered_push. Qed.

Lemma sorted_filter (P : A → Prop) `{!∀ x, Decision (P x)} l : Sorted rank l → Sorted rank (filter P l).
Proof.
  intros Hl%Sorted_StronglySorted; [|exact rank_trans]. apply StronglySorted_Sorted. induction Hl as [|x l Hl IH Hx]; [constructor|].
  rewrite filter_cons. case_decide; [|done]. constructor; [done|]. by apply Forall_filter.
Qed.

Lemma sorted_tail x l : Sorted rank (x :: l) → Sorted rank l.
Proof. by inversion 1. Qed.

Lemma sorted_remove x l l' : Sorted rank l → remove_first x l = Ok l' → Sorted rank l'.
Proof.
  intros Hl%Sorted_StronglySorted; [|exact rank_trans]. intros Hr. apply StronglySorted_Sorted. revert l' Hr.
  induction Hl as [|y l Hl IH Hy]; intros l'; simpl; [done|]. case_decide; [by intros [= <-]|].
  destruct (remove_first x l) as [r|e] eqn:E; [|done]. intros [= <-]. constructor; [by apply IH|].
  destruct (decide (x ∈ l)) as [Hx|Hx].
  - destruct (remove_first_perm x l Hx) as (r' & Hr' & Hp). rewrite E in Hr'. injection Hr' as <-. rewrite Hp in Hy. by inversion Hy.
  - exfalso. apply Hx. clear -E. revert r E. induction l as [|z l IH]; intros r; simpl; [done|]. case_decide; [subst; by left|].
    destruct (remove_first x l); [|done]. intros _. right. by eapply IH.
Qed.

Lemma sorted_merge (l : list A) : ∃ l', Sorted rank l' ∧ l' ≡ₚ l.
Proof.
  induction l as [|x l (l' & Hs & Hp)]; [exists []; by repeat constructor|]. exists (insert_sorted x l').
  split; [by apply insert_sorted_sorted|]. by rewrite insert_sorted_perm, Hp.
Qed.

#[export] Instance distinct_ids_proper : Proper ((≡ₚ) ==> iff) distinct_ids.
Proof. intros l l' Hp. unfold distinct_ids. by setoid_rewrite Hp. Qed.

Lemma distinct_sub (l l' : list A) : l' ⊆ l → distinct_ids l → distinct_ids l'.
Proof. intros Hs Hd x y Hx Hy. by apply Hd; apply Hs. Qed.

(** *** Each operation, as the iteration sees it *)

Lemma iterate_push x q :
  ordered q → distinct_ids (x :: items q) →
  ordered (push key x q) ∧ iterate key (push key x q) = insert_sorted x (iterate key q).
Proof.
  intros Hq Hx. split; [by apply ordered_push|]. apply iterate_unique; simpl.
  - by rewrite HeapQ.heappush_perm.
  - by apply ordered_push.
  - by apply insert_sorted_sorted, iterate_sorted.
  - by rewrite insert_sorted_perm, iterate_perm, HeapQ.heappush_perm.
Qed.

Lemma iterate_push_all l q :
  ordered q → distinct_ids (l ++ items q) →
  ordered (foldl (λ q x, push key x q) q l)
  ∧ iterate key (foldl (λ q x, push key x q) q l) = foldl (λ r x, insert_sorted x r) (iterate key q) l.
Proof.
  revert q. induction l as [|x l IH]; intros q Hq Hd; simpl; [done|].
  assert (distinct_ids (x :: items q)) as Hx.
  { apply (distinct_sub (x :: l ++ items q)); [|done]. intros y. rewrite !elem_of_cons, elem_of_app. tauto. }
  destruct (iterate_push x q Hq Hx) as [Ho <-]. apply IH; [done|]. simpl. by rewrite HeapQ.heappush_perm, <- Permutation_middle.
Qed.

Lemma iterate_pop q :
  ordered q → distinct_ids (items q) →
  match iterate key q with
  | [] => items q = []
  | x :: l => peek_request q = Ok x ∧ ∃ q', pop_request key q = Ok (x, q') ∧ ordered q' ∧ iterate key q' = l
  end.
Proof.
  intros Hq Hd. destruct q as [[|x l]]; [done|]. destruct (HeapQ.heappop_cons (before key) x l) as (l' & Hpop & Hp).
  assert (iterate key (Heap (x :: l)) = x :: iterate key (Heap l')) as ->.
  { unfold iterate. simpl length at 1. cbn [HeapQ.heap_drain items]. rewrite Hpop. by rewrite (Permutation_length Hp). }
  split; [done|]. exists (Heap l'). cbn [pop_request priority_ops items]. rewrite Hpop. split; [done|]. split; [|done].
  by apply (HeapQ.heappop_heap _ rank_trans before_rank x (x :: l)).
Qed.

Lemma ordered_heapify l : ordered (Heap (HeapQ.heapify (before key) l)).
Proof. apply (HeapQ.heapify_heap _ rank_trans before_rank). Qed.

Lemma iterate_remove_all xs q :
  ordered q → distinct_ids (items q) →
  iterate key (remove_requests key xs q) = filter (λ x, x ∉ xs) (iterate key q).
Proof.
  intros Hq Hd. apply iterate_unique; simpl.
  - rewrite HeapQ.heapify_perm. apply (distinct_sub (items q)); [|done]. intros x. by rewrite list_elem_of_filter; intros [_ ?].
  - apply ordered_heapify.
  - by apply sorted_filter, iterate_sorted.
  - by rewrite HeapQ.heapify_perm, iterate_perm.
Qed.

Lemma iterate_remove x q :
  ordered q → distinct_ids (items q) → x ∈ items q →
  ∃ q', remove_request key x q = Ok q' ∧ ordered q' ∧ remove_first x (iterate key q) = Ok (iterate key q').
Proof.
  intros Hq Hd Hx. destruct (remove_first_perm x _ Hx) as (l & Hl & Hp).
  destruct (remove_first_perm x (iterate key q)) as (r & Hr & Hpr); [by rewrite iterate_perm|].
  assert (r ≡ₚ l) as Hrl. { apply (inj (cons x)). by rewrite <- Hpr, iterate_perm, Hp. }
  eexists. cbn [remove_request priority_ops]. rewrite Hl. split; [reflexivity|]. split; [apply ordered_heapify|]. rewrite Hr. f_equal. symmetry.
  apply iterate_unique; simpl.
  - rewrite HeapQ.heapify_perm. apply (distinct_sub (items q)); [|done]. intros y Hy. rewrite Hp. by right.
  - apply ordered_heapify.
  - by apply (sorted_remove x (iterate key q)), Hr; apply iterate_sorted.
  - by rewrite HeapQ.heapify_perm.
Qed.
End order.

(** C19. The priority queue refines a sorted list: for requests with distinct ids and a heap
    in order, iteration gives the requests by (priority, arrival time, id), and it follows
    every operation: a push inserts at the right place, a pop takes the first or raises
    [IndexError], removals delete in place, and adding another queue's requests merges. *)
Theorem priority_queue_sorted {A} `{EqDecision A} (key : A → order_key) (q : t A) :
  ordered key q → distinct_ids key (items q) →
  Sorted (HeapQ.le (before key)) (queue_iter key q)
  ∧ (∀ x, distinct_ids key (x :: items q) →
       ordered key (add_request key x q) ∧ queue_iter key (add_request key x q) = insert_sorted key x (queue_iter key q))
  ∧ match queue_iter key q with
    | [] => peek_request q = Raise IndexError ∧ pop_request key q = Raise IndexError
    | x :: l => peek_request q = Ok x ∧ ∃ q', pop_request key q = Ok (x, q') ∧ ordered key q' ∧ queue_iter key q' = l
    end
  ∧ (∀ xs, ordered key (remove_requests key xs q)
       ∧ queue_iter key (remove_requests key xs q) = filter (λ x, x ∉ xs) (queue_iter key q))
  ∧ (∀ x, x ∈ items q → ∃ q', remove_request key x q = Ok q' ∧ ordered key q'
       ∧ remove_first x (queue_iter key q) = Ok (queue_iter key q'))
  ∧ (∀ s, distinct_ids key (items s ++ items q) →
       ordered key (prepend_requests key s q)
       ∧ queue_iter key (prepend_requests key s q)
         = foldl (λ l x, insert_sorted key x l) (queue_iter key q) (queue_iter key s)).
Proof.
  intros Hq Hd. split; [by apply iterate_sorted|]. split; [intros x Hx; by apply iterate_push|]. split; [|split; [|split]].
  - pose proof (iterate_pop key q Hq Hd) as Hpop. cbn [queue_iter priority_ops]. destruct (iterate key q) as [|x l]; [|done].
    destruct q as [l]. simpl in Hpop. by subst l.
  - intros xs. split; [apply ordered_heapify|by apply iterate_remove_all].
  - intros x Hx. by apply iterate_remove.
  - intros s Hs. apply iterate_push_all; [done|]. cbn [queue_iter priority_ops]. by rewrite iterate_perm.
Qed.
End PriorityOrder.

(** ** Skipped requests *)
Module SkippedRequests.
Import PriorityOrder.

Section skipped.
Context {A : Type} `{EqDecision A}.
Context (key : A → order_key).

(** What [schedule] does with the requests it looks at: each is popped, and either stays with
    the scheduler or is prepended to a temporary queue. *)
Fixpoint pop_some (skips : list bool) (waiting skipped : queue A) : result (queue A * queue A) :=
  match skips with
  | [] => Ok (waiting, skipped)
  | b :: skips =>
      let! (request, waiting) := pop_request key waiting in
      pop_some skips waiting (if b : bool then prepend_request key request skipped else skipped)
  end.

(** The skipped requests among those looked at. *)
Definition chosen (skips : list bool) (l : list A) : list A := (filter (λ bx, bx.1 = true) (zip skips l)).*2.

Definition well_ordered (policy : SchedulingPolicy) (q : queue A) : Prop :=
  match policy, q with
  | FCFS, FCFSQueue _ => True
  | PRIORITY, PriorityQueue q => ordered key q ∧ distinct_ids key (PriorityRequestQueue.items q)
  | _, _ => False
  end.

Lemma chosen_cons b skips x l : chosen (b :: skips) (x :: l) = if b then x :: chosen skips l else chosen skips l.
Proof. unfold chosen. simpl. rewrite filter_cons. by destruct b. Qed.

Lemma chosen_sub skips l : chosen skips l ⊆ l.
Proof.
  revert l. induction skips as [|b skips IH]; intros l y; [by intros ?%elem_of_nil|]. destruct l as [|x l]; [by intros ?%elem_of_nil|].
  rewrite chosen_cons. destruct b; rewrite ?elem_of_cons; [intros [->|Hy]; [by left|]|intros Hy]; right; by apply IH.
Qed.

Lemma chosen_sorted skips l :
  Sorted (HeapQ.le (PriorityRequestQueue.before key)) l → (length skips ≤ length l)%nat →
  Sorted (HeapQ.le (PriorityRequestQueue.before key)) (chosen skips l ++ drop (length skips) l).
Proof.
  intros Hl%Sorted_StronglySorted; [|exact (rank_trans key)]. intros Hn. apply StronglySorted_Sorted. revert skips Hn.
  induction Hl as [|x l Hl IH Hx]; intros [|b skips] Hn; simpl in Hn; try lia; simpl; [constructor|by constructor|].
  rewrite chosen_cons. destruct b; [|by apply IH; lia]. simpl. constructor; [by apply IH; lia|].
  rewrite Forall_forall in Hx |- *. intros y. rewrite elem_of_app. intros [Hy|Hy]; apply Hx; [by apply (chosen_sub skips)|by apply subseteq_drop in Hy].
Qed.

Lemma pop_fcfs skips l s :
  (length skips ≤ length l)%nat →
  pop_some skips (FCFSQueue (FCFSRequestQueue.Deque l)) (FCFSQueue (FCFSRequestQueue.Deque s))
  = Ok (FCFSQueue (FCFSRequestQueue.Deque (drop (length skips) l)),
        FCFSQueue (FCFSRequestQueue.Deque (reverse (chosen skips l) ++ s))).
Proof.
  revert l s. induction skips as [|b skips IH]; intros l s Hn; simpl in Hn; [by destruct l|].
  destruct l as [|x l]; [simpl in Hn; lia|]. rewrite chosen_cons. simpl in Hn.
  destruct b; cbn -[reverse]; rewrite IH by lia; [|done]. by rewrite reverse_cons, <- app_assoc.
Qed.

Lemma pop_priority skips q s :
  (length skips ≤ length (PriorityRequestQueue.items q))%nat → ordered key q → distinct_ids key (PriorityRequestQueue.items q) →
  ∃ q' s', pop_some skips (PriorityQueue q) (PriorityQueue s) = Ok (PriorityQueue q', PriorityQueue s')
  ∧ ordered key q' ∧ queue_iter key q' = drop (length skips) (queue_iter key q)
  ∧ PriorityRequestQueue.items s' ≡ₚ chosen skips (queue_iter key q) ++ PriorityRequestQueue.items s.
Proof.
  revert q s. induction skips as [|b skips IH]; intros q s Hn Hq Hd; [by exists q, s|].
  pose proof (iterate_pop key q Hq Hd) as Hpop. pose proof (iterate_perm key q) as Hp. cbn [queue_iter PriorityRequestQueue.priority_ops] in *.
  destruct (PriorityRequestQueue.iterate key q) as [|x l]; [rewrite Hpop in Hn; simpl in Hn; lia|].
  destruct Hpop as (_ & q1 & Hrun & Hq1 & Hl). pose proof (iterate_perm key q1) as Hp1. rewrite Hl in Hp1.
  assert (PriorityRequestQueue.items q ≡ₚ x :: PriorityRequestQueue.items q1) as Hitems by (by rewrite <- Hp, Hp1).
  rewrite Hitems in Hn, Hd. simpl in Hn.
  destruct (IH q1 (if b then prepend_request key x s else s)) as (q' & s' & Hrun' & Hq' & Hl' & Hs'); [lia|done|by eapply distinct_sub; [|done]; apply list_subseteq_cons|].
  exists q', s'. split.
  - cbn [pop_some]. cbn [pop_request queue_ops]. rewrite Hrun. simpl. rewrite <- Hrun'. by destruct b.
  - rewrite Hl in Hl', Hs'. split; [done|]. split; [done|]. rewrite Hs', chosen_cons. destruct b; [|done].
    simpl. rewrite HeapQ.heappush_perm. by rewrite Permutation_middle.
Qed.

(** Requests that the scheduler skips keep their places: whatever requests at the front
    it pops, when it returns the skipped ones from the temporary queue, an iteration gives
    them in front of the rest, in the order of before; under either policy. *)
Theorem skipped_requests_keep_order policy q skips :
  well_ordered policy q → zlen skips ≤ queue_len q →
  ∃ q' s', pop_some skips q (create_request_queue policy) = Ok (q', s')
  ∧ queue_iter key (prepend_requests key s' q') = chosen skips (queue_iter key q) ++ drop (length skips) (queue_iter key q).
Proof.
  intros Hq Hn. unfold zlen in Hn. destruct policy, q as [q|q]; try done; cbn [queue_len queue_ops FCFSRequestQueue.fcfs_ops PriorityRequestQueue.priority_ops] in Hn; unfold zlen in Hn.
  - destruct q as [l]. simpl in Hn. eexists _, _. split; [apply pop_fcfs; lia|]. simpl. by rewrite foldl_cons_reverse, app_nil_r, reverse_involutive.
  - destruct Hq as [Ho Hd]. destruct (pop_priority skips q PriorityRequestQueue.create) as (q' & s' & Hrun & Hq' & Hl & Hs); [lia|done|done|].
    pose proof (iterate_perm key q) as Hp. pose proof (iterate_sorted key q Ho) as Hsort. pose proof (iterate_perm key q') as Hp'.
    cbn [queue_iter PriorityRequestQueue.priority_ops] in *. rewrite Hl in Hp'. simpl in Hs. rewrite app_nil_r in Hs.
    eexists _, _. split; [exact Hrun|]. cbn [queue_iter prepend_requests queue_ops PriorityRequestQueue.priority_ops]. apply iterate_unique.
    + rewrite foldl_push_perm, (iterate_perm key s'), Hs, <- Hp'. apply (distinct_sub key (PriorityRequestQueue.items q)); [|done].
      intros x. rewrite elem_of_app, <- Hp. intros [Hx|Hx]; [by apply (chosen_sub skips)|by apply subseteq_drop in Hx].
    + by apply ordered_push_all.
    + apply chosen_sorted; [done|]. rewrite Hp. lia.
    + by rewrite foldl_push_perm, (iterate_perm key s'), Hs, <- Hp'.
Qed.
End skipped.
End SkippedRequests.

(** ** Queues at concrete requests *)
Module QueueDemo.
Import PriorityRequestQueue PriorityOrder SkippedRequests.

(** Priorities and arrival times by id; lower priority numbers go first. *)
Definition rank_of (x : string) : Z * Q :=
  if decide (x = "a"%string) then (1, 3 # 2)%Z
  else if decide (x = "b"%string) then (0, 5 # 2)%Z
  else if decide (x = "c"%string) then (1, 1 # 2)%Z
  else (0, 5 # 2)%Z.
Definition key_of (x : string) : order_key := OrderKey (rank_of x).1 (rank_of x).2 x 0.

Definition three : t string := foldl (λ q x, push key_of x q) create ["a"; "b"; "c"]%string.

Lemma distinct_key_of l : distinct_ids key_of l.
Proof. intros x y _ _ H. exact H. Qed.

Lemma three_ordered : ordered key_of three.
Proof. apply ordered_push_all. by intros i Hi _ x y Hx. Qed.

(** Three requests, and a fourth of the same rank as the first but for its id. *)
Example priority_queue_sorted_witness :
  (Sorted (HeapQ.le (before key_of)) (queue_iter key_of three)
  ∧ (∀ x, distinct_ids key_of (x :: items three) →
       ordered key_of (add_request key_of x three) ∧ queue_iter key_of (add_request key_of x three) = insert_sorted key_of x (queue_iter key_of three))
  ∧ match queue_iter key_of three with
    | [] => peek_request three = Raise IndexError ∧ pop_request key_of three = Raise IndexError
    | x :: l => peek_request three = Ok x ∧ ∃ q', pop_request key_of three = Ok (x, q') ∧ ordered key_of q' ∧ queue_iter key_of q' = l
    end
  ∧ (∀ xs, ordered key_of (remove_requests key_of xs three)
       ∧ queue_iter key_of (remove_requests key_of xs three) = filter (λ x, x ∉ xs) (queue_iter key_of three))
  ∧ (∀ x, x ∈ items three → ∃ q', remove_request key_of x three = Ok q' ∧ ordered key_of q'
       ∧ remove_first x (queue_iter key_of three) = Ok (queue_iter key_of q'))
  ∧ (∀ s, distinct_ids key_of (items s ++ items three) →
       ordered key_of (prepend_requests key_of s three)
       ∧ queue_iter key_of (prepend_requests key_of s three)
         = foldl (λ l x, insert_sorted key_of x l) (queue_iter key_of three) (queue_iter key_of s)))
  ∧ queue_iter key_of three = ["b"; "c"; "a"]%string
  ∧ queue_iter key_of (add_request key_of "d"%string three) = ["b"; "d"; "c"; "a"]%string.
Proof.
  split; [|by vm_compute]. apply (priority_queue_sorted key_of three three_ordered), distinct_key_of.
Defined.

(** The first request is skipped and the second is taken. *)
Example skipped_requests_keep_order_witness :
  (∃ q' s', pop_some key_of [true; false] (PriorityQueue three) (create_request_queue PRIORITY) = Ok (q', s')
  ∧ queue_iter key_of (prepend_requests key_of s' q')
    = chosen [true; false] (queue_iter key_of (PriorityQueue three)) ++ drop 2 (queue_iter key_of (PriorityQueue three)))
  ∧ chosen [true; false] (queue_iter key_of (PriorityQueue three)) ++ drop 2 (queue_iter key_of (PriorityQueue three)) = ["b"; "a"]%string.
Proof.
  split; [|by vm_compute]. apply (skipped_requests_keep_order key_of PRIORITY (PriorityQueue three) [true; false]).
  - split; [apply three_ordered|apply distinct_key_of].
  - by vm_compute.
Defined.

(** The scheduler gives a waiting session the arrival time of its next input.  The heap is
    not told: with a later time at its root it pops the session first, though another
    request of the same priority now comes before it, and it iterates out of order. *)
Definition all_four : list string := ["a"; "b"; "c"; "d"].
Definition pushed (key : string → order_key) : t string := foldl (λ q x, push key x q) create all_four.
Definition later_b (x : string) : order_key := if decide (x = "b"%string) then OrderKey 0 9 x 0 else key_of x.

Example session_update_breaks_order :
  (let! (x, _) := pop_request later_b (pushed key_of) in Ok x) = Ok "b"%string
  ∧ queue_iter later_b (pushed key_of) = ["b"; "d"; "c"; "a"]%string
  ∧ queue_iter later_b (pushed later_b) = ["d"; "b"; "c"; "a"]%string.
Proof. by vm_compute. Qed.
End QueueDemo.
