(* ===== verification/SchedRequest.v ===== *)
(** What the scheduler reads and writes of a request: the class [Request] and its statuses
    ([vllm/v1/request.py]), the stop conditions of [vllm/v1/core/sched/utils.py], and the
    continuation of a streaming session ([_update_request_as_session] of
    [vllm/v1/core/sched/scheduler.py]). *)
From Stdlib Require Import QArith.
From stdpp Require Import gmap strings.
From S2P Require Export EncoderCache RequestQueue.
From stdpp Require Import options.
Open Scope Z_scope.

Module SchedRequest.

(** ** Statuses *)

Inductive RequestStatus :=
  | WAITING | WAITING_FOR_FSM | WAITING_FOR_REMOTE_KVS | WAITING_FOR_STREAMING_REQ | RUNNING | PREEMPTED
  | FINISHED_STOPPED | FINISHED_LENGTH_CAPPED | FINISHED_ABORTED | FINISHED_IGNORED | FINISHED_ERROR | FINISHED_REPETITION.

#[export] Instance RequestStatus_eq_dec : EqDecision RequestStatus.
Proof. solve_decision. Defined.

(** The values of the enumeration, in order. *)
Definition status_value (s : RequestStatus) : Z :=
  match s with
  | WAITING => 1 | WAITING_FOR_FSM => 2 | WAITING_FOR_REMOTE_KVS => 3 | WAITING_FOR_STREAMING_REQ => 4
  | RUNNING => 5 | PREEMPTED => 6 | FINISHED_STOPPED => 7 | FINISHED_LENGTH_CAPPED => 8 | FINISHED_ABORTED => 9
  | FINISHED_IGNORED => 10 | FINISHED_ERROR => 11 | FINISHED_REPETITION => 12
  end.
Definition status_is_finished (s : RequestStatus) : bool := status_value s >? status_value PREEMPTED.

(** ** Requests *)

Record RepetitionDetectionParams := Repetition { max_pattern_size : Z; min_pattern_size : Z; min_count : Z }.

Record SamplingParams := Sampling {
  min_tokens : Z;
  eos_token_id : option Z;
  stop_token_ids : list Z;
  repetition_detection : option RepetitionDetectionParams
}.

(** What is set once. *)
Record identity := Identity {
  id_ : string;
  client : Z;
  prio : Z;
  max_tokens_ : Z;
  pooling_params : bool;
  lora : option Z;
  structured_output : bool;
  is_resumable : bool
}.

(** What the input and the output consist of. *)
Record content := Content {
  arrival : Q;
  sampling : option SamplingParams;
  prompt : list Z;
  prompt_len : Z;
  all_ids : list Z;
  output_ids : list Z;
  spec_ids : list Z;
  features : list mm_feature
}.

(** How far it is. *)
Record progress := Progress {
  computed : Z;
  cached_tokens : Z;
  external : Z;
  placeholders : Z;
  preemptions : Z;
  prefill_chunk : bool;
  discard_latest : bool
}.

(** [max_tokens] is carried and, as the class is used, not read. *)
Record StreamingUpdate := Update {
  up_mm_features : list mm_feature;
  up_prompt_token_ids : list Z;
  up_max_tokens : Z;
  up_arrival_time : Q;
  up_sampling_params : option SamplingParams
}.

Inductive stop_reason := StopToken (t : Z) | RepetitionDetected.

Record Request := MkRequest {
  ident : identity;
  cont : content;
  prog : progress;
  status : RequestStatus;
  reason : option stop_reason;
  streaming_queue : option (list (option StreamingUpdate))
}.

Definition request_id (r : Request) : string := id_ (ident r).
Definition client_index (r : Request) : Z := client (ident r).
Definition max_tokens (r : Request) : Z := max_tokens_ (ident r).
Definition lora_int_id (r : Request) : option Z := lora (ident r).
Definition use_structured_output (r : Request) : bool := structured_output (ident r).
Definition resumable (r : Request) : bool := is_resumable (ident r).
Definition sampling_params (r : Request) : option SamplingParams := sampling (cont r).
Definition num_prompt_tokens (r : Request) : Z := prompt_len (cont r).
Definition all_token_ids (r : Request) : list Z := all_ids (cont r).
Definition output_token_ids (r : Request) : list Z := output_ids (cont r).
Definition spec_token_ids (r : Request) : list Z := spec_ids (cont r).
Definition num_computed_tokens (r : Request) : Z := computed (prog r).
Definition num_cached_tokens (r : Request) : Z := cached_tokens (prog r).
Definition num_output_placeholders (r : Request) : Z := placeholders (prog r).
Definition num_preemptions (r : Request) : Z := preemptions (prog r).
Definition is_prefill_chunk (r : Request) : bool := prefill_chunk (prog r).
Definition discard_latest_async_tokens (r : Request) : bool := discard_latest (prog r).

(** The object's [id] is never reached by [__lt__]: requests of one scheduler have
    distinct ids. *)
Definition order_key_of (r : Request) : order_key := OrderKey (prio (ident r)) (arrival (cont r)) (request_id r) 0.
Definition mm_of (r : Request) : mm_request := MMRequest (request_id r) (features (cont r)).

(** *** Properties of the class *)

Definition num_tokens (r : Request) : Z := zlen (all_token_ids r).
Definition num_tokens_with_spec (r : Request) : Z := zlen (all_token_ids r) + zlen (spec_token_ids r).
Definition num_output_tokens (r : Request) : Z := zlen (output_token_ids r).
Definition has_encoder_inputs (r : Request) : bool := 0 <? zlen (features (cont r)).
Definition is_finished (r : Request) : bool := status_is_finished (status r).

(** *** Assignments *)

Definition set_status s (r : Request) : Request := MkRequest (ident r) (cont r) (prog r) s (reason r) (streaming_queue r).
Definition set_reason x (r : Request) : Request := MkRequest (ident r) (cont r) (prog r) (status r) x (streaming_queue r).
Definition set_streaming_queue q (r : Request) : Request := MkRequest (ident r) (cont r) (prog r) (status r) (reason r) q.
Definition set_cont c (r : Request) : Request := MkRequest (ident r) c (prog r) (status r) (reason r) (streaming_queue r).
Definition set_prog p (r : Request) : Request := MkRequest (ident r) (cont r) p (status r) (reason r) (streaming_queue r).

Definition set_spec_token_ids l (r : Request) : Request :=
  let c := cont r in
  set_cont (Content (arrival c) (sampling c) (prompt c) (prompt_len c) (all_ids c) (output_ids c) l (features c)) r.
Definition set_num_computed_tokens n (r : Request) : Request :=
  let p := prog r in
  set_prog (Progress n (cached_tokens p) (external p) (placeholders p) (preemptions p) (prefill_chunk p) (discard_latest p)) r.
Definition set_num_cached_tokens n (r : Request) : Request :=
  let p := prog r in
  set_prog (Progress (computed p) n (external p) (placeholders p) (preemptions p) (prefill_chunk p) (discard_latest p)) r.
Definition set_num_external_computed_tokens n (r : Request) : Request :=
  let p := prog r in
  set_prog (Progress (computed p) (cached_tokens p) n (placeholders p) (preemptions p) (prefill_chunk p) (discard_latest p)) r.
Definition set_num_output_placeholders n (r : Request) : Request :=
  let p := prog r in
  set_prog (Progress (computed p) (cached_tokens p) (external p) n (preemptions p) (prefill_chunk p) (discard_latest p)) r.
Definition set_num_preemptions n (r : Request) : Request :=
  let p := prog r in
  set_prog (Progress (computed p) (cached_tokens p) (external p) (placeholders p) n (prefill_chunk p) (discard_latest p)) r.
Definition set_is_prefill_chunk b (r : Request) : Request :=
  let p := prog r in
  set_prog (Progress (computed p) (cached_tokens p) (external p) (placeholders p) (preemptions p) b (discard_latest p)) r.
Definition set_discard_latest b (r : Request) : Request :=
  let p := prog r in
  set_prog (Progress (computed p) (cached_tokens p) (external p) (placeholders p) (preemptions p) (prefill_chunk p) b) r.

Definition append_output_token_ids (t : Z) (r : Request) : Request :=
  let c := cont r in
  set_cont (Content (arrival c) (sampling c) (prompt c) (prompt_len c) (all_ids c ++ [t]) (output_ids c ++ [t]) (spec_ids c) (features c)) r.

(** ** Stopping *)

(** [_has_repeating_pattern]: the tail of the tokens repeats; the inner and the outer loop. *)
Fixpoint same_token (token_ids : list Z) (pattern_len n target_token : Z) (ms : list Z) : result bool :=
  match ms with
  | [] => Ok true
  | m :: ms =>
      let! t := py_index token_ids (- (pattern_len * m + n)) in
      if t =? target_token then same_token token_ids pattern_len n target_token ms else Ok false
  end.

Fixpoint repeating_loop (token_ids : list Z) (pattern_len repetition_min_count : Z) (ns : list Z) : result bool :=
  match ns with
  | [] => Ok true
  | n :: ns =>
      let! target_token := py_index token_ids (- n) in
      let! same := same_token token_ids pattern_len n target_token (seqZ 1 (repetition_min_count - 1)) in
      if same : bool then repeating_loop token_ids pattern_len repetition_min_count ns else Ok false
  end.

Definition has_repeating_pattern (token_ids : list Z) (pattern_len repetition_min_count : Z) : result bool :=
  repeating_loop token_ids pattern_len repetition_min_count (seqZ 1 pattern_len).

Fixpoint pattern_loop (token_ids : list Z) (min_count : Z) (lens : list Z) : result bool :=
  match lens with
  | [] => Ok false
  | pattern_len :: lens =>
      if pattern_len * min_count >? zlen token_ids then Ok false
      else
        let! b := has_repeating_pattern token_ids pattern_len min_count in
        if b : bool then Ok true else pattern_loop token_ids min_count lens
  end.

Definition check_sequence_repetition (token_ids : list Z) (p : RepetitionDetectionParams) : result bool :=
  let min_pattern_size := if SchedRequest.min_pattern_size p <=? 0 then 1 else SchedRequest.min_pattern_size p in
  if (max_pattern_size p <=? 0) || (min_count p <? 2) || (min_pattern_size >? max_pattern_size p) then Ok false
  else pattern_loop token_ids (min_count p) (seqZ min_pattern_size (max_pattern_size p + 1 - min_pattern_size)).

Definition check_stop (max_model_len : Z) : py Request bool :=
  let* r := get_st in
  passert (negb (pooling_params (ident r))) ;;;
  let* sp := lift (of_option AssertionError (sampling_params r)) in
  if num_output_tokens r <? min_tokens sp then ret false
  else
    let* last_token_id := lift (py_index (output_token_ids r) (-1)) in
    if bool_decide (Some last_token_id = eos_token_id sp) then modify (set_status FINISHED_STOPPED) ;;; ret true
    else if bool_decide (last_token_id ∈ stop_token_ids sp) then
      modify (set_status FINISHED_STOPPED) ;;; modify (set_reason (Some (StopToken last_token_id))) ;;; ret true
    else if (num_tokens r >=? max_model_len) || (num_output_tokens r >=? max_tokens r) then
      modify (set_status FINISHED_LENGTH_CAPPED) ;;; ret true
    else
      match repetition_detection sp with
      | None => ret false
      | Some rd =>
          let* b := lift (check_sequence_repetition (output_token_ids r) rd) in
          if b : bool then
            modify (set_status FINISHED_REPETITION) ;;; modify (set_reason (Some RepetitionDetected)) ;;; ret true
          else ret false
      end.

(** [_update_request_with_output]: append until a token stops the request; the tokens that
    are kept, and whether it stopped. *)
Fixpoint append_and_check (max_model_len : Z) (new_token_ids : list Z) : py Request (list Z * bool) :=
  match new_token_ids with
  | [] => ret ([], false)
  | output_token_id :: rest =>
      modify (append_output_token_ids output_token_id) ;;;
      let* stopped := check_stop max_model_len in
      if stopped : bool then ret ([output_token_id], true)
      else let* (kept, stopped) := append_and_check max_model_len rest in ret (output_token_id :: kept, stopped)
  end.

(** ** Streaming sessions *)

Definition update_of_request (r : Request) : option StreamingUpdate :=
  if resumable r then
    Some (Update (features (cont r)) (prompt (cont r)) (max_tokens r) (arrival (cont r)) (sampling_params r))
  else None.

Definition shift_feature (base : Z) (f : mm_feature) : mm_feature :=
  Feature (identifier f) (offset f + base) (length_ f) (is_embed f).

(** The session's part of [_update_request_as_session]; the caller counts sessions. *)
Definition continue_session (u : StreamingUpdate) (s : Request) : Request :=
  let num_computed := num_computed_tokens s in
  let kept_output_tokens := py_slice (all_token_ids s) (num_prompt_tokens s) num_computed in
  let all := py_slice (all_token_ids s) 0 num_computed in
  let c := cont s in
  let mm := features c ++ map (shift_feature (zlen all)) (up_mm_features u) in
  let prompt' := prompt c ++ kept_output_tokens ++ up_prompt_token_ids u in
  set_status WAITING
    (set_cont (Content (up_arrival_time u) (up_sampling_params u) prompt' (zlen prompt') (all ++ up_prompt_token_ids u) []
                       (spec_ids c) mm) s).

(** ** Repetitions *)

(** The last [n] tokens. *)
Definition tail (l : list Z) (n : Z) : list Z := drop (length l - Z.to_nat n) l.

(** The tokens end in [count] copies of a pattern of the given length. *)
Definition ends_in_copies (token_ids : list Z) (pattern_len count : Z) : Prop :=
  ∃ pattern, zlen pattern = pattern_len ∧ tail token_ids (pattern_len * count) = mjoin (replicate (Z.to_nat count) pattern).

Lemma py_index_back (l : list Z) n : 0 < n ≤ zlen l → py_index l (- n) = of_option IndexError (l !! (length l - Z.to_nat n)%nat).
Proof.
  intros Hn. unfold py_index. unfold zlen in *. destruct (Z.ltb_spec (- n) 0); [|lia].
  replace (- n + Z.of_nat (length l)) with (Z.of_nat (length l - Z.to_nat n)) by lia. cbv zeta.
  rewrite (proj2 (Z.ltb_ge _ 0)) by lia. by rewrite Nat2Z.id.
Qed.

Lemma back_lookup (l : list Z) n : 0 < n ≤ zlen l → ∃ t, l !! (length l - Z.to_nat n)%nat = Some t.
Proof. intros Hn. unfold zlen in Hn. apply lookup_lt_is_Some_2. lia. Qed.

Lemma same_token_spec l p n t ms :
  Forall (λ m, 0 < p * m + n ≤ zlen l) ms →
  ∃ b, same_token l p n t ms = Ok b
  ∧ (b = true ↔ Forall (λ m, l !! (length l - Z.to_nat (p * m + n))%nat = Some t) ms).
Proof.
  induction ms as [|m ms IH]; intros Hf; simpl; [exists true; by split|]. apply Forall_cons in Hf as [Hm Hf].
  rewrite py_index_back by done. destruct (back_lookup l _ Hm) as [x Hx]. rewrite Hx. cbn [of_option rbind].
  destruct (Z.eqb_spec x t) as [->|Hne].
  - destruct (IH Hf) as (b & -> & Hb). exists b. split; [done|]. rewrite Forall_cons, Hx, Hb. by split; [|intros [_ ?]].
  - exists false. split; [done|]. split; [done|]. rewrite Forall_cons, Hx. intros [[= ?] _]. done.
Qed.

Lemma repeating_loop_spec l p c ns :
  0 < p → 1 ≤ c → p * c ≤ zlen l → Forall (λ n, 1 ≤ n ≤ p) ns →
  ∃ b, repeating_loop l p c ns = Ok b
  ∧ (b = true ↔ Forall (λ n, ∀ m, 1 ≤ m < c →
       l !! (length l - Z.to_nat (p * m + n))%nat = l !! (length l - Z.to_nat n)%nat) ns).
Proof.
  intros Hp Hc Hl. induction ns as [|n ns IH]; intros Hf; simpl; [exists true; by split|]. apply Forall_cons in Hf as [Hn Hf].
  assert (0 < n ≤ zlen l) as Hn' by nia. rewrite py_index_back by done. destruct (back_lookup l _ Hn') as [t Ht]. rewrite Ht. cbn [of_option rbind].
  destruct (same_token_spec l p n t (seqZ 1 (c - 1))) as (b & -> & Hb).
  { apply Forall_forall. intros m Hm%elem_of_seqZ. nia. }
  cbn [rbind]. destruct b.
  - destruct (IH Hf) as (b & -> & Hb'). exists b. split; [done|]. rewrite Forall_cons, Ht, Hb'. apply proj1 in Hb. specialize (Hb eq_refl). rewrite Forall_forall in Hb.
    split; [intros H|by intros [_ ?]]. split; [|done]. intros m Hm. apply Hb, elem_of_seqZ. lia.
  - exists false. split; [done|]. split; [done|]. rewrite Forall_cons, Ht. intros [H _]. apply Hb, Forall_forall. intros m Hm%elem_of_seqZ. apply H. lia.
Qed.

Lemma lookup_copies (pattern : list Z) c k :
  (k < c * length pattern)%nat → (mjoin (replicate c pattern)) !! k = pattern !! (k mod length pattern)%nat.
Proof.
  revert k. induction c as [|c IH]; intros k Hk; [simpl in Hk; lia|]. cbn [replicate]. change (mjoin (pattern :: ?l)) with (pattern ++ mjoin l).
  destruct (decide (k < length pattern)%nat) as [Hlt|Hge].
  - by rewrite lookup_app_l, Nat.mod_small by done.
  - rewrite lookup_app_r, IH by (simpl in Hk; lia). f_equal.
    rewrite <- (Nat.Div0.mod_add (k - length pattern) 1). f_equal. lia.
Qed.

Lemma length_copies (pattern : list Z) c : length (mjoin (replicate c pattern)) = (c * length pattern)%nat.
Proof. induction c as [|c IH]; [done|]. cbn [replicate]. change (mjoin (pattern :: ?l)) with (pattern ++ mjoin l). rewrite length_app, IH. lia. Qed.

Lemma length_tail l n : 0 ≤ n ≤ zlen l → length (tail l n) = Z.to_nat n.
Proof. intros Hn. unfold tail, zlen in *. rewrite length_drop. lia. Qed.

Lemma lookup_tail l n k : 0 ≤ n ≤ zlen l → (k < Z.to_nat n)%nat → tail l n !! k = l !! (length l - (Z.to_nat n - k))%nat.
Proof. intros Hn Hk. unfold tail, zlen in *. rewrite lookup_drop. f_equal. lia. Qed.

(** A place in the last [p * c] tokens, counted from the end. *)
Lemma split_place p c k :
  (0 < p)%nat → (k < p * c)%nat →
  ∃ m n, (p * c - k = p * m + n)%nat ∧ (1 ≤ n ≤ p)%nat ∧ (m < c)%nat ∧ (k mod p = p - n)%nat.
Proof.
  intros Hp Hk. pose proof (Nat.div_mod k p ltac:(lia)) as Hd. pose proof (Nat.mod_upper_bound k p ltac:(lia)).
  assert (k / p < c)%nat as Hc by (apply Nat.Div0.div_lt_upper_bound; lia). exists (c - 1 - k / p)%nat, (p - k mod p)%nat.
  split; [|split; [lia|split; lia]]. assert (c = (k / p + 1) + (c - 1 - k / p))%nat as Hc' by lia. nia.
Qed.

(** The comparisons of the code say that the tail is made of copies of the last tokens. *)
Lemma copies_spec l p c :
  0 < p → 1 ≤ c → p * c ≤ zlen l →
  (∀ n, 1 ≤ n ≤ p → ∀ m, 1 ≤ m < c → l !! (length l - Z.to_nat (p * m + n))%nat = l !! (length l - Z.to_nat n)%nat)
  ↔ ends_in_copies l p c.
Proof.
  intros Hp Hc Hl. assert (p ≤ zlen l) as Hpl by nia. split.
  - intros Heq. exists (tail l p). split; [unfold zlen; rewrite length_tail by lia; lia|]. apply list_eq_same_length with (length (tail l (p * c))).
    + rewrite length_copies, !length_tail by nia. lia.
    + done.
    + intros k x y Hk Hx Hy. rewrite length_tail in Hk by nia.
      assert (length (tail l p) = Z.to_nat p) as Hlp by (apply length_tail; lia).
      rewrite lookup_copies, Hlp in Hy by (rewrite Hlp; lia). rewrite lookup_tail in Hx by lia.
      destruct (split_place (Z.to_nat p) (Z.to_nat c) k) as (m & n & Hkn & Hn & Hm & Hmod); [lia|lia|]. rewrite Hmod, lookup_tail in Hy by lia.
      replace (Z.to_nat p - (Z.to_nat p - n))%nat with n in Hy by lia. rewrite Z2Nat.inj_mul, Hkn in Hx by lia.
      destruct (decide (m = 0)%nat) as [->|Hm0]; [rewrite Nat.mul_0_r, Nat.add_0_l in Hx; congruence|].
      specialize (Heq (Z.of_nat n) ltac:(lia) (Z.of_nat m) ltac:(lia)).
      replace (Z.to_nat (p * Z.of_nat m + Z.of_nat n)) with (Z.to_nat p * m + n)%nat in Heq by lia. rewrite Nat2Z.id in Heq. congruence.
  - intros (pattern & Hlen & Htail) n Hn m Hm. unfold zlen in Hlen. assert (∀ i, 0 ≤ i < c →
      l !! (length l - Z.to_nat (p * i + n))%nat = pattern !! Z.to_nat (p - n)) as Hat; [|rewrite Hat by lia].
    + intros i Hi. assert (p * i + n ≤ p * c) by nia. set (k := (Z.to_nat (p * c) - Z.to_nat (p * i + n))%nat).
      assert (tail l (p * c) !! k = l !! (length l - Z.to_nat (p * i + n))%nat) as <-.
      { rewrite lookup_tail by (unfold k; nia). f_equal. unfold k. nia. }
      rewrite Htail, lookup_copies by (unfold k; nia). f_equal. replace (length pattern) with (Z.to_nat p) by lia.
      assert (k = Z.to_nat (p - n) + Z.to_nat (c - 1 - i) * Z.to_nat p)%nat as -> by (unfold k; nia).
      rewrite Nat.Div0.mod_add. apply Nat.mod_small. lia.
    + specialize (Hat 0 ltac:(lia)). by rewrite Z.mul_0_r, Z.add_0_l in Hat.
Qed.

Lemma repeating_pattern_spec l p c :
  0 < p → 1 ≤ c → p * c ≤ zlen l → ∃ b, has_repeating_pattern l p c = Ok b ∧ (b = true ↔ ends_in_copies l p c).
Proof.
  intros Hp Hc Hl. destruct (repeating_loop_spec l p c (seqZ 1 p) Hp Hc Hl) as (b & Hb & Hiff).
  { apply Forall_forall. intros n Hn%elem_of_seqZ. lia. }
  exists b. split; [done|]. rewrite Hiff, <- copies_spec, Forall_forall by done.
  split; intros H n Hn; apply H; [apply elem_of_seqZ; lia|apply elem_of_seqZ in Hn; lia].
Qed.

Lemma pattern_loop_spec l c a n :
  1 ≤ a → 1 ≤ c →
  ∃ b, pattern_loop l c (seqZ a n) = Ok b
  ∧ (b = true ↔ ∃ p, a ≤ p < a + n ∧ p * c ≤ zlen l ∧ ends_in_copies l p c).
Proof.
  intros Ha Hc. destruct (Z.le_gt_cases n 0) as [Hn|Hn].
  { rewrite seqZ_nil by done. exists false. split; [done|]. split; [done|]. intros (p & ? & _). lia. }
  rewrite <- (Z2Nat.id n) by lia. clear Hn. revert a Ha. induction (Z.to_nat n) as [|k IH]; intros a Ha.
  { exists false. split; [done|]. split; [done|]. intros (p & ? & _). lia. }
  rewrite seqZ_cons by lia. cbn [pattern_loop]. rewrite Z.gtb_ltb. destruct (Z.ltb_spec (zlen l) (a * c)) as [Hlt|Hge].
  - exists false. split; [done|]. split; [done|]. intros (p & Hp & Hpl & _). nia.
  - destruct (repeating_pattern_spec l a c) as (b & -> & Hb); [lia|lia|lia|]. cbn [rbind].
    replace (Z.pred (Z.of_nat (S k))) with (Z.of_nat k) by lia. rewrite <- Z.add_1_r. destruct b.
    + exists true. split; [done|]. split; [|done]. intros _. exists a. split; [lia|]. split; [lia|]. by apply Hb.
    + destruct (IH (a + 1)) as (b & -> & Hb'); [lia|]. exists b. split; [done|]. rewrite Hb'. split; intros (p & Hp & Hrest).
      * exists p. split; [lia|done].
      * exists p. split; [|done]. destruct (decide (p = a)) as [->|]; [|lia]. destruct Hrest as [_ He]. by apply Hb in He.
Qed.

(** C26. The detection of repetitions raises nothing, and finds one exactly when, for a
    pattern length between the bounds, the output ends in [min_count] copies of a
    pattern; with a maximum of 0, fewer than two copies or crossed bounds it is off. *)
Theorem repetition_detected token_ids p :
  ∃ b, check_sequence_repetition token_ids p = Ok b
  ∧ (b = true ↔ 2 ≤ min_count p ∧ ∃ n, Z.max 1 (min_pattern_size p) ≤ n ≤ max_pattern_size p
       ∧ n * min_count p ≤ zlen token_ids ∧ ends_in_copies token_ids n (min_count p)).
Proof.
  unfold check_sequence_repetition. set (lo := if min_pattern_size p <=? 0 then 1 else min_pattern_size p).
  assert (lo = Z.max 1 (min_pattern_size p)) as -> by (unfold lo; destruct (Z.leb_spec (min_pattern_size p) 0); lia). rewrite Z.gtb_ltb.
  destruct ((max_pattern_size p <=? 0) || (min_count p <? 2) || (max_pattern_size p <? Z.max 1 (min_pattern_size p))) eqn:Hoff.
  - exists false. split; [done|]. split; [done|]. intros (Hc & n & Hn & _).
    apply orb_true_iff in Hoff as [[?%Z.leb_le|?%Z.ltb_lt]%orb_true_iff|?%Z.ltb_lt]; lia.
  - apply orb_false_iff in Hoff as [[?%Z.leb_gt Hc%Z.ltb_ge]%orb_false_iff ?%Z.ltb_ge].
    destruct (pattern_loop_spec token_ids (min_count p) (Z.max 1 (min_pattern_size p)) (max_pattern_size p + 1 - Z.max 1 (min_pattern_size p)))
      as (b & -> & Hb); [lia|lia|]. exists b. split; [done|]. rewrite Hb. split.
    + intros (n & Hn & Hrest). split; [done|]. exists n. split; [lia|done].
    + intros (_ & n & Hn & Hrest). exists n. split; [lia|done].
Qed.

(** What a stop needs: generation parameters, and a token. *)
Example repetition_ex :
  check_sequence_repetition [7; 1; 2; 1; 2; 1; 2] (Repetition 3 1 3) = Ok true
  ∧ check_sequence_repetition [7; 1; 2; 1; 2; 1; 2] (Repetition 3 1 4) = Ok false
  ∧ check_sequence_repetition [1; 2; 1; 2] (Repetition 3 0 0) = Ok false.
Proof. by vm_compute. Qed.
End SchedRequest.
