(* ===== verification/Scheduler.v ===== *)
(** [vllm/v1/core/sched/scheduler.py] and [async_scheduler.py]: the scheduler over the
    interfaces of the KV cache manager, the encoder cache, the KV connector and the queue of
    waiting requests. *)
From Stdlib Require Import QArith.
From stdpp Require Import gmap strings.
From S2P Require Export SchedRequest EncoderSchedule.
From stdpp Require Import options.
Open Scope Z_scope.

(** ** What the scheduler calls *)

(** [SchedulerOutput], with the requests of [NewRequestData] and [CachedRequestData] by id. *)
Record SchedulerOutput := Output {
  scheduled_new_reqs : list (string * list (list Z) * Z);
  cached_req_ids : list string;
  resumed_req_ids : gset string;
  new_token_ids : list (list Z);
  all_token_ids_of : list (string * list Z);
  new_block_ids : list (option (list (list Z)));
  cached_num_computed_tokens : list Z;
  cached_num_output_tokens : list Z;
  num_scheduled_tokens : list (string * Z);
  total_num_scheduled_tokens : Z;
  scheduled_spec_decode_tokens : list (string * list Z);
  scheduled_encoder_inputs : list (string * list Z);
  num_common_prefix_blocks : list Z;
  preempted_req_ids : gset string;
  output_finished_req_ids : gset string;
  free_encoder_mm_hashes : list string
}.

(** The methods of [KVCacheManager]; [B] is [KVCacheBlocks]. *)
Class KVCacheOps (K B : Type) := {
  kv_new_step_starts : py K unit;
  kv_empty_blocks : B;
  kv_get_computed_blocks : SchedRequest.Request → py K (B * Z);
  kv_allocate_slots : SchedRequest.Request → Z → Z → B → Z → Z → bool → Z → py K (option B);
  kv_free : SchedRequest.Request → py K unit;
  kv_cache_blocks : SchedRequest.Request → Z → py K unit;
  kv_get_blocks : string → K → B;
  kv_block_ids : K → B → list (list Z);
  kv_block_ids_or_none : K → B → option (list (list Z));
  kv_remove_skipped_blocks : string → Z → py K unit;
  kv_get_num_common_prefix_blocks : string → py K (list Z);
  kv_reset_prefix_cache : py K bool
}.

(** [KVCacheManager.evict_blocks], on the ids in the order of the set. *)
Class KVEvictOps (K : Type) := { kv_evict_blocks : list Z → py K unit }.

(** The scheduler's side of a [KVConnectorBase_V1]; the metadata it builds stays opaque. *)
Class KVConnectorOps (C B : Type) := {
  get_num_new_matched_tokens : SchedRequest.Request → Z → py C (option Z * bool);
  update_state_after_alloc : SchedRequest.Request → B → Z → py C unit;
  build_connector_meta : SchedulerOutput → py C unit;
  request_finished : SchedRequest.Request → list (list Z) → py C bool;
  update_connector_output : list string → list string → py C unit;
  connector_reset_cache : py C bool
}.

Inductive PauseState := UNPAUSED | PAUSED_NEW | PAUSED_ALL.

#[export] Instance PauseState_eq_dec : EqDecision PauseState.
Proof. solve_decision. Defined.

(** The configuration, as the constructor reads it. *)
Record config := Config {
  policy : SchedulingPolicy;
  async_scheduling : bool;
  max_num_running_reqs : Z;
  max_num_scheduled_tokens : Z;
  max_model_len : Z;
  long_prefill_token_threshold : Z;
  enable_chunked_prefill : bool;
  disable_chunked_mm_input : bool;
  cache_block_size : Z;
  scheduler_block_size : Z;
  num_spec_tokens : Z;
  num_lookahead_tokens : Z;
  use_eagle : bool;
  is_encoder_decoder : bool;
  max_num_encoder_input_tokens : Z;
  max_loras : option Z;
  need_mamba_block_aligned_split : bool;
  use_pp : bool;
  num_kv_cache_groups : Z
}.

Module Scheduler.
Import SchedRequest.

Section scheduler.
Context {K B E C Q : Type} `{!KVCacheOps K B, !EncoderCacheOps E, !KVConnectorOps C B, !RequestQueueOps string Q}.

(** ** The state *)

(** Requests are objects that [requests] names by id; [waiting] and [running] hold the ids. *)
Record t := Sched {
  requests : gmap string Request;
  waiting : Q;
  running : list string;
  finished_req_ids : gset string;
  num_waiting_for_streaming_input : Z;
  finished_recving_kv_req_ids : gset string;
  failed_recving_kv_req_ids : gset string;
  prev_step_scheduled_req_ids : gset string;
  pause_state : PauseState;
  kv : K;
  enc : E;
  connector : option C
}.

Definition set_requests x (s : t) : t :=
  Sched x (waiting s) (running s) (finished_req_ids s) (num_waiting_for_streaming_input s) (finished_recving_kv_req_ids s)
    (failed_recving_kv_req_ids s) (prev_step_scheduled_req_ids s) (pause_state s) (kv s) (enc s) (connector s).
Definition set_waiting x (s : t) : t :=
  Sched (requests s) x (running s) (finished_req_ids s) (num_waiting_for_streaming_input s) (finished_recving_kv_req_ids s)
    (failed_recving_kv_req_ids s) (prev_step_scheduled_req_ids s) (pause_state s) (kv s) (enc s) (connector s).
Definition set_running x (s : t) : t :=
  Sched (requests s) (waiting s) x (finished_req_ids s) (num_waiting_for_streaming_input s) (finished_recving_kv_req_ids s)
    (failed_recving_kv_req_ids s) (prev_step_scheduled_req_ids s) (pause_state s) (kv s) (enc s) (connector s).
Definition set_finished_req_ids x (s : t) : t :=
  Sched (requests s) (waiting s) (running s) x (num_waiting_for_streaming_input s) (finished_recving_kv_req_ids s)
    (failed_recving_kv_req_ids s) (prev_step_scheduled_req_ids s) (pause_state s) (kv s) (enc s) (connector s).
Definition add_waiting_for_streaming n (s : t) : t :=
  Sched (requests s) (waiting s) (running s) (finished_req_ids s) (num_waiting_for_streaming_input s + n) (finished_recving_kv_req_ids s)
    (failed_recving_kv_req_ids s) (prev_step_scheduled_req_ids s) (pause_state s) (kv s) (enc s) (connector s).
Definition set_recving x y (s : t) : t :=
  Sched (requests s) (waiting s) (running s) (finished_req_ids s) (num_waiting_for_streaming_input s) x y
    (prev_step_scheduled_req_ids s) (pause_state s) (kv s) (enc s) (connector s).
Definition set_prev_step x (s : t) : t :=
  Sched (requests s) (waiting s) (running s) (finished_req_ids s) (num_waiting_for_streaming_input s) (finished_recving_kv_req_ids s)
    (failed_recving_kv_req_ids s) x (pause_state s) (kv s) (enc s) (connector s).
Definition set_pause_state x (s : t) : t :=
  Sched (requests s) (waiting s) (running s) (finished_req_ids s) (num_waiting_for_streaming_input s) (finished_recving_kv_req_ids s)
    (failed_recving_kv_req_ids s) (prev_step_scheduled_req_ids s) x (kv s) (enc s) (connector s).
Definition set_kv x (s : t) : t :=
  Sched (requests s) (waiting s) (running s) (finished_req_ids s) (num_waiting_for_streaming_input s) (finished_recving_kv_req_ids s)
    (failed_recving_kv_req_ids s) (prev_step_scheduled_req_ids s) (pause_state s) x (enc s) (connector s).
Definition set_enc x (s : t) : t :=
  Sched (requests s) (waiting s) (running s) (finished_req_ids s) (num_waiting_for_streaming_input s) (finished_recving_kv_req_ids s)
    (failed_recving_kv_req_ids s) (prev_step_scheduled_req_ids s) (pause_state s) (kv s) x (connector s).
Definition set_connector x (s : t) : t :=
  Sched (requests s) (waiting s) (running s) (finished_req_ids s) (num_waiting_for_streaming_input s) (finished_recving_kv_req_ids s)
    (failed_recving_kv_req_ids s) (prev_step_scheduled_req_ids s) (pause_state s) (kv s) (enc s) x.

Definition create (q : Q) (k : K) (e : E) (c : option C) : t := Sched ∅ q [] ∅ 0 ∅ ∅ ∅ UNPAUSED k e c.

Definition on_kv {A} (m : py K A) : py t A := λ s, let '(a, k) := m (kv s) in (a, set_kv k s).
Definition on_enc {A} (m : py E A) : py t A := λ s, let '(a, e) := m (enc s) in (a, set_enc e s).
(** A call of the connector where there is one, and what happens without. *)
Definition on_connector {A} (none : A) (m : py C A) : py t A := λ s,
  match connector s with
  | None => (Ok none, s)
  | Some c => let '(a, c) := m c in (a, set_connector (Some c) s)
  end.

(** The keys of the waiting requests, as they are. *)
Definition key_of (s : t) (id : string) : order_key :=
  match requests s !! id with Some r => order_key_of r | None => OrderKey 0 0 id 0 end.

Definition get_request (id : string) : py t Request := let* s := get_st in lift (of_option KeyError (requests s !! id)).
Definition update_request (id : string) (f : Request → Request) : py t unit :=
  modify (λ s, set_requests (alter f id (requests s)) s).
Definition run_on_request {A} (id : string) (m : py Request A) : py t A := λ s,
  match requests s !! id with
  | None => (Raise KeyError, s)
  | Some r => let '(a, r) := m r in (a, set_requests (<[id := r]> (requests s)) s)
  end.
Definition change_waiting (f : (string → order_key) → Q → Q) : py t unit := modify (λ s, set_waiting (f (key_of s) (waiting s)) s).

Context (cfg : config).
(** Whether the grammar of a request is compiled, and the encoder-cache connector's answer. *)
Context (grammar_ready : string → bool) (has_cache_item : option (string → bool)).

(** ** Preemption *)

Definition preempt_request (id : string) : py t unit :=
  let* r := get_request id in
  passert (bool_decide (status r = RUNNING)) ;;;
  on_kv (kv_free r) ;;;
  on_enc (free (mm_of r)) ;;;
  update_request id (λ r, set_num_preemptions (num_preemptions r + 1)
    (set_spec_token_ids [] (set_num_computed_tokens 0 (set_status PREEMPTED r)))) ;;;
  change_waiting (λ key, prepend_request key id).

(** [max(self.running, key=...)]: the first of the largest by (priority, arrival time). *)
Definition before_rank (a b : order_key) : bool :=
  (priority a <? priority b) || ((priority a =? priority b) && Qltb (arrival_time a) (arrival_time b)).

Fixpoint last_ranked (key : string → order_key) (best : string) (l : list string) : string :=
  match l with
  | [] => best
  | x :: l => last_ranked key (if before_rank (key best) (key x) then x else best) l
  end.

(** ** The local variables of [schedule] *)

Record step := Step {
  new_reqs : list string;
  resumed_reqs : list string;
  running_reqs : list string;
  preempted : list string;
  req_to_new_blocks : list (string * B);
  scheduled_tokens : list (string * Z);
  token_budget : Z;
  encoder_inputs : list (string * list Z);
  encoder_budget : Z;
  spec_decode : list (string * list Z);
  req_index : Z
}.

Definition set_req_index n (l : step) : step :=
  Step (new_reqs l) (resumed_reqs l) (running_reqs l) (preempted l) (req_to_new_blocks l) (scheduled_tokens l) (token_budget l)
    (encoder_inputs l) (encoder_budget l) (spec_decode l) n.
Definition add_preempted id (l : step) : step :=
  Step (new_reqs l) (resumed_reqs l) (running_reqs l) (preempted l ++ [id]) (req_to_new_blocks l) (scheduled_tokens l) (token_budget l)
    (encoder_inputs l) (encoder_budget l) (spec_decode l) (req_index l).

(** A dict's [pop] without and with a default. *)
Definition od_pop {V} (id : string) (d : list (string * V)) : result (V * list (string * V)) :=
  let! v := of_option KeyError (od_get id d) in Ok (v, od_del id d).

Fixpoint sum_embeds (r : Request) (inputs : list Z) : result Z :=
  match inputs with
  | [] => Ok 0
  | i :: inputs => let! n := get_num_encoder_embeds (mm_of r) i in let! m := sum_embeds r inputs in Ok (n + m)
  end.

(** A preempted request that was scheduled in this step gives back what it got. *)
Definition drop_scheduled (r : Request) (l : step) : result step :=
  let id := request_id r in
  if decide (id ∈ running_reqs l) then
    let! running_reqs' := remove_first id (running_reqs l) in
    let! (n, scheduled_tokens') := od_pop id (scheduled_tokens l) in
    let! (_, req_to_new_blocks') := od_pop id (req_to_new_blocks l) in
    let! restored := match od_get id (encoder_inputs l) with Some inputs => sum_embeds r inputs | None => Ok 0 end in
    Ok (Step (new_reqs l) (resumed_reqs l) running_reqs' (preempted l) req_to_new_blocks' scheduled_tokens' (token_budget l + n)
          (od_del id (encoder_inputs l)) (encoder_budget l + restored) (od_del id (spec_decode l)) (req_index l - 1))
  else Ok l.

(** The request to preempt, taken out of the running ones. *)
Definition take_lowest (l : step) : py t (string * step) :=
  let* s := get_st in
  match policy cfg with
  | PRIORITY =>
      match running s with
      | [] => raise ValueError
      | x :: rest =>
          let id := last_ranked (key_of s) x rest in
          let* running' := lift (remove_first id (running s)) in
          modify (set_running running') ;;;
          let* r := get_request id in
          let* l := lift (drop_scheduled r l) in
          ret (id, l)
      end
  | FCFS =>
      match last (running s) with
      | None => raise IndexError
      | Some id => modify (set_running (removelast (running s))) ;;; ret (id, l)
      end
  end.

(** Allocate, and preempt until there is room or the request itself is preempted.  Every turn
    takes a running request; the fuel is their number. *)
Fixpoint allocate_or_preempt (fuel : nat) (id : string) (num_new_tokens : Z) (l : step) : py t (option B * step) :=
  match fuel with
  | O => raise Exception
  | S fuel =>
      let* r := get_request id in
      let* new_blocks := on_kv (kv_allocate_slots r num_new_tokens 0 kv_empty_blocks (num_lookahead_tokens cfg) 0 false 0) in
      match new_blocks with
      | Some b => ret (Some b, l)
      | None =>
          let* (preempted_req, l) := take_lowest l in
          preempt_request preempted_req ;;;
          let l := add_preempted preempted_req l in
          if decide (preempted_req = id) then ret (None, l) else allocate_or_preempt fuel id num_new_tokens l
      end
  end.

(** ** The number of tokens *)

Definition mamba_block_aligned_split (r : Request) (num_new_tokens local_computed external_computed : Z) : result Z :=
  let! _ := rassert (external_computed =? 0) in
  let num_computed := num_computed_tokens r + local_computed + external_computed in
  if num_computed <? Z.max (num_prompt_tokens r) (num_tokens r - 1) then
    let block_size := cache_block_size cfg in
    let! m := py_mod (num_tokens r) block_size in
    let last_cache_position := num_tokens r - m in
    let last_cache_position := if use_eagle cfg then Z.max (last_cache_position - block_size) 0 else last_cache_position in
    let after := num_computed + num_new_tokens in
    if after <? last_cache_position then let! q := py_div num_new_tokens block_size in Ok (q * block_size)
    else if (num_computed <? last_cache_position) && (last_cache_position <? after) then Ok (last_cache_position - num_computed)
    else Ok num_new_tokens
  else Ok num_new_tokens.

Definition capped (num_new_tokens : Z) : Z :=
  let threshold := long_prefill_token_threshold cfg in
  if (0 <? threshold) && (threshold <? num_new_tokens) then threshold else num_new_tokens.

Definition running_num_new_tokens (r : Request) (token_budget : Z) : Z :=
  let n := capped (num_tokens_with_spec r + num_output_placeholders r - num_computed_tokens r) in
  Z.min (Z.min n token_budget) (max_model_len cfg - 1 - num_computed_tokens r).

(** The last step of an asynchronously scheduled request is already on its way. *)
Definition reached_max_tokens (r : Request) : bool :=
  (0 <? num_output_placeholders r)
  && (num_prompt_tokens r + max_tokens r <=? num_computed_tokens r + 2 - num_output_placeholders r).

Definition shift : Z := if use_eagle cfg then 1 else 0.

(** The encoder inputs to schedule, the tokens left, the encoder's budget left, and the inputs
    that are loaded. *)
Definition schedule_encoder_inputs (r : Request) (num_computed num_new_tokens encoder_compute_budget : Z)
    : py t (list Z * Z * Z * list Z) :=
  if has_encoder_inputs r then
    on_enc (EncoderSchedule.try_schedule_encoder_inputs (is_encoder_decoder cfg) (disable_chunked_mm_input cfg) has_cache_item
              (mm_of r) num_computed shift num_new_tokens encoder_compute_budget)
  else ret ([], num_new_tokens, encoder_compute_budget, []).

(** ** The running requests *)

Definition set_encoder id inputs budget (l : step) : step :=
  Step (new_reqs l) (resumed_reqs l) (running_reqs l) (preempted l) (req_to_new_blocks l) (scheduled_tokens l) (token_budget l)
    (match inputs with [] => encoder_inputs l | _ => od_set id inputs (encoder_inputs l) end)
    (match inputs with [] => encoder_budget l | _ => budget end) (spec_decode l) (req_index l).

(** The chosen encoder inputs are allocated. *)
Definition take_encoder_inputs (id : string) (inputs external : list Z) (new_budget : Z) (l : step) : py t step :=
  let* r := get_request id in
  on_enc (EncoderSchedule.allocate_inputs (mm_of r) inputs external) ;;;
  ret (set_encoder id inputs new_budget l).

(** The draft tokens that are scheduled, when there are any. *)
Definition scheduled_spec (r : Request) (num_new_tokens : Z) (d : list (string * list Z)) : list (string * list Z) :=
  let num_scheduled_spec_tokens := num_new_tokens + num_computed_tokens r - num_tokens r - num_output_placeholders r in
  if 0 <? num_scheduled_spec_tokens then
    od_set (request_id r)
      (if num_scheduled_spec_tokens <? zlen (spec_token_ids r) then py_slice (spec_token_ids r) 0 num_scheduled_spec_tokens
       else spec_token_ids r) d
  else d.

Definition take_running (r : Request) (num_new_tokens : Z) (b : B) (l : step) : step :=
  let id := request_id r in
  Step (new_reqs l) (resumed_reqs l) (running_reqs l ++ [id]) (preempted l) (od_set id b (req_to_new_blocks l))
    (od_set id num_new_tokens (scheduled_tokens l)) (token_budget l - num_new_tokens) (encoder_inputs l) (encoder_budget l)
    (match spec_token_ids r with [] => spec_decode l | _ => scheduled_spec r num_new_tokens (spec_decode l) end) (req_index l + 1).

(** One turn of the loop; whether it breaks. *)
Definition running_turn (l : step) : py t (bool * step) :=
  let* s := get_st in
  let* id := lift (py_index (running s) (req_index l)) in
  let* r := get_request id in
  if reached_max_tokens r then ret (false, set_req_index (req_index l + 1) l)
  else
    let* (inputs, num_new_tokens, new_budget, external) :=
      schedule_encoder_inputs r (num_computed_tokens r) (running_num_new_tokens r (token_budget l)) (encoder_budget l) in
    let* num_new_tokens :=
      (if need_mamba_block_aligned_split cfg then lift (mamba_block_aligned_split r num_new_tokens 0 0) else ret num_new_tokens) in
    if num_new_tokens =? 0 then ret (false, set_req_index (req_index l + 1) l)
    else
      let* (new_blocks, l) := allocate_or_preempt (length (running s)) id num_new_tokens l in
      match new_blocks with
      | None => ret (true, l)
      | Some b =>
          let l := take_running r num_new_tokens b l in
          (match spec_token_ids r with [] => ret tt | _ => update_request id (set_spec_token_ids []) end) ;;;
          let* l := take_encoder_inputs id inputs external new_budget l in
          ret (false, l)
      end.

(** Every turn moves the index towards the end of the list; the fuel is their distance. *)
Fixpoint running_loop (fuel : nat) (l : step) : py t step :=
  let* s := get_st in
  if (req_index l <? zlen (running s)) && (0 <? token_budget l) then
    match fuel with
    | O => raise Exception
    | S fuel =>
        let* (stop, l) := running_turn l in
        if stop : bool then ret l else running_loop fuel l
    end
  else ret l.

(** ** The waiting requests *)

(** [_update_waiting_for_remote_kv]. *)
Definition update_waiting_for_remote_kv (id : string) : py t bool :=
  let* s := get_st in
  passert (bool_decide (is_Some (connector s))) ;;;
  let* r := get_request id in
  if decide (id ∉ finished_recving_kv_req_ids s) then ret false
  else
    (if decide (id ∈ failed_recving_kv_req_ids s) then
       (if num_computed_tokens r =? 0 then on_kv (kv_free r) else on_kv (kv_cache_blocks r (num_computed_tokens r))) ;;;
       modify (λ s, set_recving (finished_recving_kv_req_ids s) (failed_recving_kv_req_ids s ∖ {[id]}) s)
     else
       match kv_block_ids (kv s) (kv_get_blocks id (kv s)) with
       | [block_ids] =>
           let n := Z.min (zlen block_ids * scheduler_block_size cfg) (num_tokens r) in
           let n := if n =? num_tokens r then n - 1 else n in
           on_kv (kv_cache_blocks r n) ;;;
           update_request id (set_num_computed_tokens n)
       | _ => raise ValueError
       end) ;;;
    modify (λ s, set_recving (finished_recving_kv_req_ids s ∖ {[id]}) (failed_recving_kv_req_ids s) s) ;;;
    ret true.

Definition lora_full (r : Request) (scheduled_loras : gset Z) : bool :=
  match max_loras cfg, lora_int_id r with
  | Some m, Some i => (Z.of_nat (size scheduled_loras) =? m) && bool_decide (i ∉ scheduled_loras)
  | _, _ => false
  end.

(** Whether the request at the head of the queue is skipped; it may become ready. *)
Definition not_ready (id : string) (scheduled_loras : gset Z) : py t bool :=
  let* r := get_request id in
  let* waits :=
    (if decide (status r = WAITING_FOR_REMOTE_KVS) then
       let* is_ready := update_waiting_for_remote_kv id in
       if is_ready : bool then
         update_request id (λ r, set_status (if num_preemptions r =? 0 then WAITING else PREEMPTED) r) ;;; ret false
       else ret true
     else ret false) in
  if waits : bool then ret true
  else
    let* r := get_request id in
    if decide (status r = WAITING_FOR_FSM) then
      if use_structured_output r && grammar_ready id then
        update_request id (set_status WAITING) ;;;
        let* r := get_request id in
        ret (lora_full r scheduled_loras)
      else ret true
    else if decide (status r = WAITING_FOR_STREAMING_REQ) then
      passert (match streaming_queue r with Some (_ :: _) => false | _ => true end) ;;; ret true
    else ret (lora_full r scheduled_loras).

(** The computed tokens of a waiting request: blocks and tokens found locally, tokens found by
    the connector, whether these are loaded asynchronously, and all computed tokens; [None]
    when the connector cannot tell yet. *)
Definition computed_prefix (id : string) : py t (option (B * Z * Z * bool * Z)) :=
  let* r := get_request id in
  if num_computed_tokens r =? 0 then
    let* (blocks, local) := on_kv (kv_get_computed_blocks r) in
    let* (ext, load_kv_async) := on_connector (Some 0, false) (get_num_new_matched_tokens r local) in
    match ext with
    | None => ret None
    | Some ext =>
        let* s := get_st in
        (match connector s with None => ret tt | Some _ => update_request id (set_num_external_computed_tokens ext) end) ;;;
        ret (Some (blocks, local, ext, load_kv_async, local + ext))
    end
  else ret (Some (kv_empty_blocks, 0, 0, false, num_computed_tokens r)).

(** The tokens to schedule for a waiting request with its encoder inputs; [None] ends the
    loop. *)
Definition waiting_num_new_tokens (r : Request) (num_computed : Z) (l : step) : py t (option (list Z * Z * Z * list Z)) :=
  let n := capped (num_tokens r - num_computed) in
  if negb (enable_chunked_prefill cfg) && (token_budget l <? n) then ret None
  else
    let n := Z.min n (token_budget l) in
    passert (0 <? n) ;;;
    let* p := schedule_encoder_inputs r num_computed n (encoder_budget l) in
    let '(_, n, _, _) := p in
    if has_encoder_inputs r && (n =? 0) then ret None else ret (Some p).

Definition take_waiting (id : string) (resumed : bool) (b : B) (num_new_tokens : Z) (l : step) : step :=
  Step (if resumed then new_reqs l else new_reqs l ++ [id]) (if resumed then resumed_reqs l ++ [id] else resumed_reqs l)
    (running_reqs l) (preempted l) (od_set id b (req_to_new_blocks l)) (od_set id num_new_tokens (scheduled_tokens l))
    (token_budget l - num_new_tokens) (encoder_inputs l) (encoder_budget l) (spec_decode l) (req_index l).

(** The local variables of the second loop: a step, the LoRAs, and the skipped requests. *)
Definition wstep : Type := step * gset Z * Q.

(** The head of the queue starts to run. *)
Definition start_running (id : string) (num_computed num_new_tokens : Z) (p : list Z * Z * list Z) (w : wstep) : py t wstep :=
  let '(l, scheduled_loras, skipped) := w in
  let '(inputs, new_budget, external) := p in
  modify (λ s, set_running (running s ++ [id]) s) ;;;
  let* r := get_request id in
  let* resumed := (match status r with WAITING => ret false | PREEMPTED => ret true | _ => raise RuntimeError end) in
  let scheduled_loras :=
    match max_loras cfg, lora_int_id r with Some _, Some i => {[i]} ∪ scheduled_loras | _, _ => scheduled_loras end in
  let* s := get_st in
  let l := take_waiting id resumed (kv_get_blocks id (kv s)) num_new_tokens l in
  update_request id (λ r, set_num_computed_tokens num_computed (set_status RUNNING r)) ;;;
  update_request id (λ r, if num_cached_tokens r <? 0 then set_num_cached_tokens num_computed r else r) ;;;
  let* l := take_encoder_inputs id inputs external new_budget l in
  ret (l, scheduled_loras, skipped).

(** The allocation for the head of the queue, and what becomes of it. *)
Definition allocate_waiting (id : string) (c : B * Z * Z * bool * Z) (p : list Z * Z * Z * list Z) (w : wstep)
    : py t (bool * wstep) :=
  let '(l, scheduled_loras, skipped) := w in
  let '(computed_blocks, local, ext, load_kv_async, num_computed) := c in
  let '(inputs, num_new_tokens, new_budget, external) := p in
  let* r := get_request id in
  let* num_encoder_tokens :=
    (if is_encoder_decoder cfg && has_encoder_inputs r then lift (sum_embeds r inputs) else ret 0) in
  let lookahead := if num_computed_tokens r =? 0 then 0 else num_lookahead_tokens cfg in
  let* new_blocks := on_kv (kv_allocate_slots r num_new_tokens local computed_blocks lookahead ext load_kv_async num_encoder_tokens) in
  match new_blocks with
  | None =>
      (if has_encoder_inputs r then on_enc (free (mm_of r)) else ret tt) ;;;
      ret (true, w)
  | Some _ =>
      let* s := get_st in
      on_connector tt (update_state_after_alloc r (kv_get_blocks id (kv s)) ext) ;;;
      let* s := get_st in
      let* (id, waiting') := lift (pop_request (key_of s) (waiting s)) in
      modify (set_waiting waiting') ;;;
      if load_kv_async then
        let* s := get_st in
        let skipped := prepend_request (key_of s) id skipped in
        update_request id (set_status WAITING_FOR_REMOTE_KVS) ;;;
        ret (false, (l, scheduled_loras, skipped))
      else
        let* w := start_running id num_computed num_new_tokens (inputs, new_budget, external) (l, scheduled_loras, skipped) in
        ret (false, w)
  end.

(** The head of the queue is skipped for this step. *)
Definition skip_head (w : wstep) : py t (bool * wstep) :=
  let '(l, scheduled_loras, skipped) := w in
  let* s := get_st in
  let* (id, waiting') := lift (pop_request (key_of s) (waiting s)) in
  modify (set_waiting waiting') ;;;
  let* s := get_st in
  ret (false, (l, scheduled_loras, prepend_request (key_of s) id skipped)).

(** One turn of the loop; whether it breaks. *)
Definition waiting_turn (w : wstep) : py t (bool * wstep) :=
  let '(l, scheduled_loras, skipped) := w in
  let* s := get_st in
  let* id := lift (peek_request (waiting s)) in
  let* skip := not_ready id scheduled_loras in
  if skip : bool then skip_head w
  else
    let* c := computed_prefix id in
    match c with
    | None => skip_head w
    | Some ((computed_blocks, local, ext, load_kv_async, num_computed) as c) =>
        let* r := get_request id in
        let* p :=
          (if load_kv_async : bool then passert (0 <? ext) ;;; ret (Some ([], 0, encoder_budget l, []))
           else waiting_num_new_tokens r num_computed l) in
        match p with
        | None => ret (true, w)
        | Some (inputs, num_new_tokens, new_budget, external) =>
            let* num_new_tokens' :=
              (if need_mamba_block_aligned_split cfg then lift (mamba_block_aligned_split r num_new_tokens local ext) else ret num_new_tokens) in
            if need_mamba_block_aligned_split cfg && (num_new_tokens' =? 0) then ret (true, w)
            else allocate_waiting id c (inputs, num_new_tokens', new_budget, external) w
        end
    end.

(** Every turn takes a request out of the queue; the fuel is their number. *)
Fixpoint waiting_loop (fuel : nat) (w : wstep) : py t wstep :=
  let* s := get_st in
  if (0 <? queue_len (waiting s)) && (0 <? token_budget w.1.1) && negb (zlen (running s) =? max_num_running_reqs cfg) then
    match fuel with
    | O => raise Exception
    | S fuel =>
        let* (stop, w) := waiting_turn w in
        if stop : bool then ret w else waiting_loop fuel w
    end
  else ret w.

(** The LoRAs of the running requests. *)
Definition running_loras (s : t) (l : step) : result (gset Z) :=
  match max_loras cfg with
  | None => Ok ∅
  | Some m =>
      let loras : gset Z := list_to_set (omap (λ id, r ← requests s !! id; i ← lora_int_id r; if 0 <? i then Some i else None) (running_reqs l)) in
      let! _ := rassert (Z.of_nat (size loras) <=? m) in Ok loras
  end.

(** The second part of [schedule]; [empty] is a new queue of the policy. *)
Definition schedule_waiting (empty : Q) (l : step) : py t step :=
  let* s := get_st in
  let* loras := lift (running_loras s l) in
  if bool_decide (preempted l = []) && bool_decide (pause_state s = UNPAUSED) then
    let* (l, _, skipped) := waiting_loop (Z.to_nat (queue_len (waiting s))) (l, loras, empty) in
    (if 0 <? queue_len skipped then change_waiting (λ key, prepend_requests key skipped) else ret tt) ;;;
    ret l
  else ret l.

(** ** The output *)

(** [_make_cached_request_data], by request: token ids for pipeline parallelism, all token
    ids if it was not in the step before, new blocks, computed and output tokens. *)
Definition cached_data (resumed : bool) (l : step) (id : string)
    : py t (list (list Z) * list (string * list Z) * option (list (list Z)) * Z * Z) :=
  let* r := get_request id in
  let* s := get_st in
  let* n := lift (of_option KeyError (od_get id (scheduled_tokens l))) in
  let num_tokens := n - zlen (default [] (od_get id (spec_decode l))) in
  let token_ids :=
    if use_pp cfg && negb (async_scheduling cfg)
    then [py_slice (all_token_ids r) (num_computed_tokens r) (num_computed_tokens r + num_tokens)] else [] in
  let scheduled_in_prev_step := bool_decide (id ∈ prev_step_scheduled_req_ids s) in
  passert (negb (resumed && scheduled_in_prev_step)) ;;;
  let* b := lift (of_option KeyError (od_get id (req_to_new_blocks l))) in
  ret (token_ids, if scheduled_in_prev_step then [] else [(id, all_token_ids r)], kv_block_ids_or_none (kv s) b,
       num_computed_tokens r, num_output_tokens r + num_output_placeholders r).

Definition new_data (l : step) (id : string) : py t (string * list (list Z) * Z) :=
  let* r := get_request id in
  let* s := get_st in
  let* b := lift (of_option KeyError (od_get id (req_to_new_blocks l))) in
  ret (id, kv_block_ids (kv s) b, num_computed_tokens r).

Definition sum_tokens (d : list (string * Z)) : Z := foldr Z.add 0 d.*2.

(** The assertions on the constraints. *)
Definition check_constraints (l : step) : py t unit :=
  let* s := get_st in
  passert (sum_tokens (scheduled_tokens l) <=? max_num_scheduled_tokens cfg) ;;;
  passert (0 <=? token_budget l) ;;;
  passert (zlen (running s) <=? max_num_running_reqs cfg) ;;;
  passert (zlen (new_reqs l) + zlen (resumed_reqs l) + zlen (running_reqs l) <=? zlen (running s)).

Definition make_output (l : step) : py t SchedulerOutput :=
  let* s := get_st in
  let* common :=
    (match running s with
     | [] => ret (replicate (Z.to_nat (num_kv_cache_groups cfg)) 0)
     | any_request_id :: _ => on_kv (kv_get_num_common_prefix_blocks any_request_id)
     end) in
  let* news := map_each (new_reqs l) (new_data l) in
  let* runs := map_each (running_reqs l) (cached_data false l) in
  let* resumes := map_each (resumed_reqs l) (cached_data true l) in
  let cached := runs ++ resumes in
  modify (set_prev_step (list_to_set (od_keys (scheduled_tokens l)))) ;;;
  let* s := get_st in
  let* freed := on_enc get_freed_mm_hashes in
  ret (Output news (running_reqs l ++ resumed_reqs l) (list_to_set (resumed_reqs l))
         (mjoin ((λ x, x.1.1.1.1) <$> cached)) (mjoin ((λ x, x.1.1.1.2) <$> cached)) ((λ x, x.1.1.2) <$> cached)
         ((λ x, x.1.2) <$> cached) (snd <$> cached)
         (scheduled_tokens l) (sum_tokens (scheduled_tokens l)) (spec_decode l) (encoder_inputs l) common
         (list_to_set (preempted l)) (finished_req_ids s) freed).

(** [_update_after_schedule] of the scheduler and, for asynchronous scheduling, what its
    subclass adds. *)
Definition advance (x : string * Z) : py t unit :=
  let '(id, n) := x in
  let* _ := get_request id in
  update_request id (λ r, set_num_computed_tokens (num_computed_tokens r + n) r) ;;;
  update_request id (λ r, set_is_prefill_chunk (num_computed_tokens r <? num_tokens r + num_output_placeholders r) r) ;;;
  let* r := get_request id in
  if has_encoder_inputs r then
    on_enc (EncoderSchedule.free_encoder_inputs (is_encoder_decoder cfg) (mm_of r) (num_computed_tokens r))
  else ret tt.

Definition add_placeholders (spec : list (string * list Z)) (id : string) : py t unit :=
  let* r := get_request id in
  if is_prefill_chunk r then ret tt
  else
    update_request id (λ r, set_spec_token_ids (replicate (Z.to_nat (num_spec_tokens cfg)) (-1))
      (set_num_output_placeholders (num_output_placeholders r + 1 + zlen (default [] (od_get id spec))) r)).

Definition update_after_schedule (o : SchedulerOutput) : py t unit :=
  for_each (num_scheduled_tokens o) advance ;;;
  modify (set_finished_req_ids ∅) ;;;
  if async_scheduling cfg then for_each (od_keys (num_scheduled_tokens o)) (add_placeholders (scheduled_spec_decode_tokens o))
  else ret tt.

Definition first_step (s : t) : step :=
  Step [] [] [] [] [] [] (if decide (pause_state s = PAUSED_ALL) then 0 else max_num_scheduled_tokens cfg) []
    (max_num_encoder_input_tokens cfg) [] 0.

(** [schedule]; with the second model runner the resumed requests count as new ones, which
    is left out. *)
Definition schedule (empty : Q) : py t SchedulerOutput :=
  let* s := get_st in
  on_kv kv_new_step_starts ;;;
  let* l := running_loop (length (running s)) (first_step s) in
  let* l := schedule_waiting empty l in
  check_constraints l ;;;
  let* o := make_output l in
  on_connector tt (build_connector_meta o) ;;;
  update_after_schedule o ;;;
  ret o.

(** ** Requests that come and end *)

Definition connector_finished (r : Request) : py t bool :=
  let* s := get_st in
  match connector s with
  | None => ret false
  | Some _ =>
      on_kv (kv_remove_skipped_blocks (request_id r) (num_tokens r)) ;;;
      let* s := get_st in
      on_connector false (request_finished r (kv_block_ids (kv s) (kv_get_blocks (request_id r) (kv s))))
  end.

Definition free_blocks (id : string) : py t unit :=
  let* r := get_request id in
  passert (is_finished r) ;;;
  on_kv (kv_free r) ;;;
  modify (λ s, set_requests (delete id (requests s)) s).

Definition free_request (id : string) (delay_free_blocks : bool) : py t unit :=
  let* r := get_request id in
  passert (is_finished r) ;;;
  let* connector_delay_free_blocks := connector_finished r in
  on_enc (free (mm_of r)) ;;;
  modify (λ s, set_finished_req_ids ({[id]} ∪ finished_req_ids s) s) ;;;
  if delay_free_blocks || connector_delay_free_blocks then ret tt else free_blocks id.

(** [remove_all], on the ids. *)
Definition remove_all (l : list string) (items_to_remove : list string) : list string :=
  match items_to_remove with
  | [] => l
  | [x] => match remove_first x l with Ok l' => l' | Raise _ => l end
  | _ => filter (λ x, x ∉ items_to_remove) l
  end.

(** The requests to finish: those that run, and those that wait. *)
Fixpoint to_finish (s : t) (ids : list string) : list string * list string :=
  match ids with
  | [] => ([], [])
  | id :: ids =>
      let '(run, wait) := to_finish s ids in
      match requests s !! id with
      | None => (run, wait)
      | Some r =>
          if is_finished r then (run, wait)
          else if decide (status r = RUNNING) then (id :: run, wait) else (run, id :: wait)
      end
  end.

Definition finish_one (finished_status : RequestStatus) (id : string) : py t unit :=
  let* r := get_request id in
  let* s := get_st in
  let delay_free_blocks :=
    bool_decide (status r = WAITING_FOR_REMOTE_KVS) && bool_decide (id ∉ finished_recving_kv_req_ids s) in
  (if decide (status r = WAITING_FOR_REMOTE_KVS) then
     modify (λ s, set_recving (finished_recving_kv_req_ids s ∖ {[id]}) (failed_recving_kv_req_ids s ∖ {[id]}) s)
   else ret tt) ;;;
  update_request id (set_status finished_status) ;;;
  free_request id delay_free_blocks.

(** [finish_requests]; the ids are without duplicates, in the order in which they are
    finished.  [None] of the code stands for all ids. *)
Definition finish_requests (request_ids : list string) (finished_status : RequestStatus) : py t (list (string * Z)) :=
  passert (status_is_finished finished_status) ;;;
  let* s := get_st in
  let '(run, wait) := to_finish s request_ids in
  let valid := filter (λ id, id ∈ run ++ wait) request_ids in
  let* clients := map_each valid (λ id, let* r := get_request id in ret (id, client_index r)) in
  modify (add_waiting_for_streaming
    (- zlen (filter (λ id, status <$> (requests s !! id) = Some WAITING_FOR_STREAMING_REQ) wait))) ;;;
  modify (set_running (remove_all (running s) run)) ;;;
  (match wait with [] => ret tt | _ => change_waiting (λ key, remove_requests key wait) end) ;;;
  for_each valid (finish_one finished_status) ;;;
  ret clients.

(** [_update_request_as_session]. *)
Definition update_request_as_session (id : string) (u : StreamingUpdate) : py t unit :=
  let* r := get_request id in
  (if decide (status r = WAITING_FOR_STREAMING_REQ) then modify (add_waiting_for_streaming (-1)) else ret tt) ;;;
  update_request id (continue_session u).

Definition enqueue_update (u : option StreamingUpdate) : py Request unit :=
  let* r := get_st in
  let* q := lift (of_option AssertionError (streaming_queue r)) in
  modify (set_streaming_queue (Some (q ++ [u]))).

Definition add_request_ (r : Request) : py t unit :=
  let id := request_id r in
  let* s := get_st in
  match requests s !! id with
  | Some existing =>
      let u := update_of_request r in
      if decide (status existing = WAITING_FOR_STREAMING_REQ) then
        match u with
        | Some u => update_request_as_session id u
        | None => let* _ := finish_requests [id] FINISHED_ABORTED in ret tt
        end
      else run_on_request id (enqueue_update u)
  | None =>
      let r := if resumable r then set_streaming_queue (Some []) r else r in
      modify (λ s, set_requests (<[id := r]> (requests s)) s) ;;;
      change_waiting (λ key, add_request key id)
  end.

(** ** The output of the model *)

(** [_handle_stopped_request]: whether the request is finished. *)
Definition handle_stopped_request (id : string) : py t bool :=
  let* r := get_request id in
  if negb (resumable r) then ret true
  else
    let* finished :=
      (match streaming_queue r with
       | Some (u :: rest) =>
           update_request id (set_streaming_queue (Some rest)) ;;;
           match u with
           | None => ret true
           | Some u => update_request_as_session id u ;;; ret false
           end
       | _ =>
           update_request id (set_status WAITING_FOR_STREAMING_REQ) ;;;
           modify (add_waiting_for_streaming 1) ;;; ret false
       end) in
    if finished : bool then ret true
    else change_waiting (λ key, add_request key id) ;;; ret false.

(** [_update_request_with_output], of both schedulers. *)
Definition update_request_with_output (id : string) (token_ids : list Z) : py t (list Z * bool) :=
  let* r := get_request id in
  if async_scheduling cfg then
    if discard_latest_async_tokens r then
      update_request id (set_discard_latest false) ;;; ret ([], false)
    else
      let* (kept, stopped) := run_on_request id (append_and_check (max_model_len cfg) token_ids) in
      update_request id (λ r, set_num_output_placeholders (num_output_placeholders r - zlen kept) r) ;;;
      let* r' := get_request id in
      passert (0 <=? num_output_placeholders r') ;;;
      (if decide (status r = RUNNING)
       then on_kv (kv_cache_blocks r' (num_computed_tokens r' - num_output_placeholders r')) else ret tt) ;;;
      ret (kept, stopped)
  else run_on_request id (append_and_check (max_model_len cfg) token_ids).

Record ModelRunnerOutput := RunnerOutput {
  req_id_to_index : list (string * Z);
  sampled_token_ids : list (list Z);
  pooler_output : list bool;
  kv_finished_recving : list string;
  kv_finished_sending : list string
}.

(** [EngineCoreOutput]; the finish reason as the status it is mapped from. *)
Record EngineCoreOutput := EngineOutput {
  output_request_id : string;
  output_new_token_ids : list Z;
  output_finish_status : option RequestStatus;
  output_stop_reason : option stop_reason;
  output_pooled : bool;
  output_num_cached_tokens : Z
}.

(** The outputs by client, and the requests that stopped. *)
Record results := Results {
  outputs : list (Z * list EngineCoreOutput);
  stopped_running : list string;
  stopped_preempted : list string
}.

Definition add_output (client : Z) (o : EngineCoreOutput) (d : list (Z * list EngineCoreOutput)) : list (Z * list EngineCoreOutput) :=
  od_set client (default [] (od_get client d) ++ [o]) d.

(** Rejected draft tokens were not computed after all. *)
Definition reject_drafts (num_rejected : Z) (r : Request) : Request :=
  let r := if 0 <? num_computed_tokens r then set_num_computed_tokens (num_computed_tokens r - num_rejected) r else r in
  if 0 <? num_output_placeholders r then set_num_output_placeholders (num_output_placeholders r - num_rejected) r else r.

(** The request has output: one turn of the loop of [update_from_output]. *)
Definition update_one (spec : list (string * list Z)) (out : ModelRunnerOutput) (acc : results) (x : string * Z) : py t results :=
  let '(id, num_tokens_scheduled) := x in
  passert (0 <? num_tokens_scheduled) ;;;
  let* s := get_st in
  match requests s !! id with
  | None => ret acc
  | Some r =>
      if is_finished r then ret acc
      else
        let* index := lift (of_option KeyError (od_get id (req_id_to_index out))) in
        let* generated := (match sampled_token_ids out with [] => ret [] | l => lift (py_index l index) end) in
        let scheduled_spec_token_ids := default [] (od_get id spec) in
        (if negb (zlen scheduled_spec_token_ids =? 0) && negb (zlen generated =? 0)
         then update_request id (reject_drafts (zlen scheduled_spec_token_ids - (zlen generated - 1))) else ret tt) ;;;
        let* pooled := (match pooler_output out with [] => ret false | l => lift (py_index l index) end) in
        let* r := get_request id in
        let status_before_stop := status r in
        let* (new_ids, stopped) :=
          (match generated with
           | _ :: _ => update_request_with_output id generated
           | [] => if pooling_params (ident r) && pooled then update_request id (set_status FINISHED_STOPPED) ;;; ret ([], true)
                   else ret ([], false)
           end) in
        let* r := get_request id in
        let* acc :=
          (if stopped : bool then
             let* finished := handle_stopped_request id in
             (if finished : bool then free_request id false else ret tt) ;;;
             ret (if decide (status_before_stop = RUNNING)
                  then Results (outputs acc) (stopped_running acc ++ [id]) (stopped_preempted acc)
                  else Results (outputs acc) (stopped_running acc) (stopped_preempted acc ++ [id]))
           else ret acc) in
        if negb (zlen new_ids =? 0) || pooled || stopped then
          ret (Results (add_output (client_index r)
                 (EngineOutput id new_ids (if stopped then Some (status r) else None) (reason r) pooled (num_cached_tokens r)) (outputs acc))
                 (stopped_running acc) (stopped_preempted acc))
        else ret acc
  end.

Fixpoint update_loop (spec : list (string * list Z)) (out : ModelRunnerOutput) (acc : results) (l : list (string * Z)) : py t results :=
  match l with
  | [] => ret acc
  | x :: l => let* acc := update_one spec out acc x in update_loop spec out acc l
  end.

(** [_update_from_kv_xfer_finished]. *)
Definition finished_recving (id : string) : py t unit :=
  let* s := get_st in
  passert (bool_decide (is_Some (requests s !! id))) ;;;
  let* r := get_request id in
  if decide (status r = WAITING_FOR_REMOTE_KVS) then
    modify (λ s, set_recving ({[id]} ∪ finished_recving_kv_req_ids s) (failed_recving_kv_req_ids s) s)
  else passert (is_finished r) ;;; free_blocks id.

Definition finished_sending (id : string) : py t unit :=
  let* s := get_st in
  passert (bool_decide (is_Some (requests s !! id))) ;;; free_blocks id.

Definition update_from_kv_xfer_finished (recving sending : list string) : py t unit :=
  on_connector tt (update_connector_output recving sending) ;;;
  for_each recving finished_recving ;;;
  for_each sending finished_sending.

(** [update_from_output], without failed loads; statistics, log probabilities, the grammar's
    progress and the events for other processes are left out. *)
Definition update_from_output (o : SchedulerOutput) (out : ModelRunnerOutput) : py t (list (Z * list EngineCoreOutput)) :=
  let* acc := update_loop (scheduled_spec_decode_tokens o) out (Results [] [] []) (num_scheduled_tokens o) in
  modify (λ s, set_running (remove_all (running s) (stopped_running acc)) s) ;;;
  (match stopped_preempted acc with [] => ret tt | l => change_waiting (λ key, remove_requests key l) end) ;;;
  update_from_kv_xfer_finished (kv_finished_recving out) (kv_finished_sending out) ;;;
  ret (outputs acc).

(** ** Draft tokens *)

(** [update_draft_token_ids]; [validate] is the grammar's check of the tokens, the identity for a
    request without grammar. *)
Definition update_draft_token_ids (validate : string → list Z → list Z) (drafts : list (string * list Z)) : py t unit :=
  for_each drafts (λ '(id, spec),
    let* s := get_st in
    match requests s !! id with
    | None => ret tt
    | Some r =>
        if is_finished r then ret tt
        else update_request id (set_spec_token_ids (if is_prefill_chunk r then [] else validate id spec))
    end).

(** [update_draft_token_ids_in_output]: the new draft tokens of the output, and how many of
    each request are invalid. *)
Definition draft_in_output (s : t) (validate : string → list Z → list Z) (acc : list (string * list Z) * list (string * Z))
    (x : string * list Z) : list (string * list Z) * list (string * Z) :=
  let '(sched, invalid) := acc in
  let '(id, spec) := x in
  match requests s !! id, od_get id sched with
  | Some r, Some ((_ :: _) as placeholder) =>
      if is_finished r then acc
      else
        let spec := validate id (py_slice spec 0 (zlen placeholder)) in
        let missing := zlen placeholder - zlen spec in
        (od_set id (spec ++ replicate (Z.to_nat missing) (-1)) sched, if missing =? 0 then invalid else od_set id missing invalid)
  | _, _ => acc
  end.

Definition update_draft_token_ids_in_output (validate : string → list Z → list Z) (drafts sched : list (string * list Z)) (s : t)
    : list (string * list Z) * list (string * Z) :=
  foldl (draft_in_output s validate) (sched, []) drafts.

(** ** Counts and resets *)

Definition get_num_unfinished_requests (s : t) : Z :=
  match pause_state s with
  | PAUSED_ALL => 0
  | PAUSED_NEW => zlen (running s)
  | UNPAUSED => queue_len (waiting s) - num_waiting_for_streaming_input s + zlen (running s)
  end.

(** The loop of [reset_prefix_cache] over the running requests, from the last. *)
Definition force_preempt (id : string) : py t unit :=
  modify (λ s, set_running (removelast (running s)) s) ;;;
  preempt_request id ;;;
  update_request id (λ r, set_discard_latest true (set_num_output_placeholders 0 r)).

Definition reset_connector_cache : py t bool :=
  let* s := get_st in
  match connector s with None => ret false | Some _ => on_connector false connector_reset_cache end.

Definition reset_prefix_cache (reset_running_requests reset_connector : bool) : py t bool :=
  let* s := get_st in
  (if reset_running_requests then
     for_each (reverse (running s)) force_preempt ;;;
     modify (set_prev_step ∅)
   else ret tt) ;;;
  let* reset_successful := on_kv kv_reset_prefix_cache in
  if reset_running_requests && negb reset_successful then raise RuntimeError
  else if reset_connector then
    let* b := reset_connector_cache in ret (b && reset_successful)
  else ret reset_successful.
End scheduler.
Arguments t : clear implicits.
End Scheduler.
