(* ===== verification/SchedulerLaws.v ===== *)
(** What the scheduler relies on: the contracts of the KV cache manager, the encoder cache and
    the KV connector, and the invariant of the scheduler's own state between two steps. *)
From Stdlib Require Import QArith.
From stdpp Require Import gmap strings.
From S2P Require Export Runs Scheduler.
From stdpp Require Import options.
Open Scope Z_scope.

(** ** The KV cache manager *)

(** [kv_ready k id n]: the request [id] has slots for its first [n] tokens; with [n = 0] it holds
    no blocks.  [kv_hits k r b n]: the blocks [b] hold the first [n] tokens of [r]. *)
Class KVCacheLaws (K B : Type) (max_model_len : Z) `{!KVCacheOps K B} := {
  kv_inv : K → Prop;
  kv_ready : K → string → Z → Prop;
  kv_hits : K → SchedRequest.Request → B → Z → Prop;
  kv_ready_le k id m n : 0 < m ≤ n → kv_ready k id n → kv_ready k id m;
  kv_hits_none k r : kv_hits k r kv_empty_blocks 0;
  kv_hits_same k r r' b n : SchedRequest.request_id r' = SchedRequest.request_id r → SchedRequest.all_token_ids r' = SchedRequest.all_token_ids r →
    kv_hits k r b n → kv_hits k r' b n;
  kv_new_step_law k : kv_inv k →
    runs kv_new_step_starts k (λ _ k', kv_inv k' ∧ ∀ id n, kv_ready k id n → kv_ready k' id n);
  kv_computed_law k r : kv_inv k → kv_ready k (SchedRequest.request_id r) 0 → 1 ≤ SchedRequest.num_tokens r < max_model_len →
    runs (kv_get_computed_blocks r) k (λ p k', kv_inv k' ∧ (∀ id n, kv_ready k id n → kv_ready k' id n)
      ∧ kv_hits k' r p.1 p.2 ∧ 0 ≤ p.2 < SchedRequest.num_tokens r);
  (** An allocation for tokens up to the model's length, for a request that runs (and holds
      blocks, if only for tokens to compute again), or for one that starts with the tokens found
      locally and by the connector. *)
  kv_allocate_law k r n local b lookahead ext delay encoder_tokens :
    let c := SchedRequest.num_computed_tokens r in
    kv_inv k → kv_hits k r b local →
    (kv_ready k (SchedRequest.request_id r) (Z.max 1 c) ∧ local = 0 ∧ ext = 0) ∨ (kv_ready k (SchedRequest.request_id r) 0 ∧ c = 0) →
    0 ≤ n → 0 ≤ c → 0 ≤ local → 0 ≤ lookahead → 0 ≤ ext → 0 < n + ext → c + local + ext + n ≤ max_model_len →
    runs (kv_allocate_slots r n local b lookahead ext delay encoder_tokens) k (λ o k', kv_inv k'
      ∧ (∀ id m, id ≠ SchedRequest.request_id r ∨ o = None → kv_ready k id m → kv_ready k' id m)
      ∧ (is_Some o → kv_ready k' (SchedRequest.request_id r) (c + local + ext + n)));
  kv_free_law k r n : kv_inv k → kv_ready k (SchedRequest.request_id r) n →
    runs (kv_free r) k (λ _ k', kv_inv k' ∧ kv_ready k' (SchedRequest.request_id r) 0
      ∧ ∀ id m, id ≠ SchedRequest.request_id r → kv_ready k id m → kv_ready k' id m);
  kv_common_prefix_law k id : kv_inv k →
    runs (kv_get_num_common_prefix_blocks id) k (λ _ k', kv_inv k' ∧ ∀ id n, kv_ready k id n → kv_ready k' id n);
  kv_remove_skipped_law k id n : kv_inv k →
    runs (kv_remove_skipped_blocks id n) k (λ _ k', kv_inv k' ∧ ∀ id n, kv_ready k id n → kv_ready k' id n);
  kv_reset_law k : kv_inv k →
    runs kv_reset_prefix_cache k (λ _ k', kv_inv k' ∧ ∀ id n, kv_ready k id n → kv_ready k' id n)
}.

(** A cache of one group of layers, which the scan of failed blocks assumes. *)
Class KVOneGroup (K B : Type) (max_model_len : Z) `{!KVCacheOps K B, !KVCacheLaws K B max_model_len} :=
  kv_one_group : ∀ k id, kv_inv k → ∃ ids, kv_block_ids k (kv_get_blocks id k) = [ids].

(** Blocks that requests hold can be evicted from the prefix cache; the requests keep them. *)
Class KVEvictLaws (K B : Type) (max_model_len : Z) `{!KVCacheOps K B, !KVCacheLaws K B max_model_len, !KVEvictOps K} :=
  kv_evict_law : ∀ k ids, kv_inv k → (∀ b, b ∈ ids → ∃ id l, kv_block_ids k (kv_get_blocks id k) = [l] ∧ b ∈ l) →
    runs (kv_evict_blocks ids) k (λ _ k', kv_inv k' ∧ ∀ id n, kv_ready k id n → kv_ready k' id n).

(** ** The encoder cache *)

(** [enc_fits e r inputs external]: the inputs can be allocated. *)
Class EncoderLaws (E : Type) (is_encoder_decoder disable_chunked_mm_input : bool) (has_cache_item : option (string → bool))
    `{!EncoderCacheOps E} := {
  enc_inv : E → Prop;
  enc_valid : mm_request → Prop;
  enc_fits : E → mm_request → list Z → list Z → Prop;
  enc_try_law e r c shift n budget :
    enc_inv e → enc_valid r → 0 ≤ shift ≤ 1 → 0 ≤ n → 0 ≤ budget →
    runs (EncoderSchedule.try_schedule_encoder_inputs is_encoder_decoder disable_chunked_mm_input has_cache_item r c shift n budget) e
      (λ p e', enc_inv e' ∧ 0 ≤ p.1.1.2 ≤ n ∧ 0 ≤ p.1.2 ∧ enc_fits e' r p.1.1.1 p.2);
  enc_allocate_law e r inputs external :
    enc_inv e → enc_valid r → enc_fits e r inputs external →
    runs (EncoderSchedule.allocate_inputs r inputs external) e (λ _ e', enc_inv e');
  (** The inputs that fit are inputs of the request. *)
  enc_fits_inputs e r inputs external :
    enc_valid r → enc_fits e r inputs external → Forall (λ i, ∃ n, get_num_encoder_embeds r i = Ok n ∧ 0 ≤ n) inputs;
  enc_free_law e r : enc_inv e → enc_valid r →
    runs (free r) e (λ _ e', enc_inv e' ∧ ∀ r' inputs external, enc_fits e r' inputs external → enc_fits e' r' inputs external);
  enc_free_inputs_law e r c : enc_inv e → enc_valid r →
    runs (EncoderSchedule.free_encoder_inputs is_encoder_decoder r c) e (λ _ e', enc_inv e');
  enc_freed_law e : enc_inv e → runs get_freed_mm_hashes e (λ _ e', enc_inv e')
}.

(** ** The KV connector *)

(** A connector that loads in the step it promises to, as InfiniKV's does: the load is never
    asynchronous, and a promise leaves a token to compute. *)
Class KVConnectorLaws (C B : Type) `{!KVConnectorOps C B} := {
  conn_inv : C → Prop;
  conn_matched_law c r local : conn_inv c → 0 ≤ local < SchedRequest.num_tokens r →
    runs (get_num_new_matched_tokens r local) c (λ p c', conn_inv c' ∧ p.2 = false
      ∧ ∀ ext, p.1 = Some ext → 0 ≤ ext ∧ local + ext < SchedRequest.num_tokens r);
  conn_update_law c r b ext : conn_inv c → runs (update_state_after_alloc r b ext) c (λ _ c', conn_inv c');
  conn_meta_law c o : conn_inv c → runs (build_connector_meta o) c (λ _ c', conn_inv c');
  conn_finished_law c r ids : conn_inv c → runs (request_finished r ids) c (λ _ c', conn_inv c');
  conn_output_law c recving sending : conn_inv c → runs (update_connector_output recving sending) c (λ _ c', conn_inv c');
  conn_reset_law c : conn_inv c → runs connector_reset_cache c (λ _ c', conn_inv c')
}.

Module SchedulerInv.
Import SchedRequest Scheduler.

Section inv.
Context {K B E C Q : Type} `{!KVCacheOps K B, !EncoderCacheOps E, !KVConnectorOps C B, !RequestQueueOps string Q}.
Context (cfg : config) (has_cache_item : option (string → bool)).
Context `{!KVCacheLaws K B (max_model_len cfg), !EncoderLaws E (is_encoder_decoder cfg) (disable_chunked_mm_input cfg) has_cache_item,
          !KVConnectorLaws C B, !RequestQueueLaws string Q}.

Abbreviation t := (Scheduler.t K E C Q).

(** A configuration that makes sense; the scheduler of one step at a time, without LoRAs:
    the assertion on their number can fail. *)
Record good_config : Prop := Good {
  g_tokens : 0 ≤ max_num_scheduled_tokens cfg;
  g_encoder : 0 ≤ max_num_encoder_input_tokens cfg;
  g_lookahead : 0 ≤ num_lookahead_tokens cfg;
  g_running : 0 ≤ max_num_running_reqs cfg;
  g_sync : async_scheduling cfg = false;
  g_mamba : need_mamba_block_aligned_split cfg = true → 0 < cache_block_size cfg;
  g_loras : max_loras cfg = None;
  g_block : 0 < scheduler_block_size cfg
}.

(** A request that generates text from one prompt: shorter than the model's length, with
    its minimum of tokens within it, and not all of its tokens were found in a cache. *)
Record request_ok (r : Request) : Prop := RequestOk {
  r_tokens : 1 ≤ num_tokens r < max_model_len cfg;
  r_output : num_tokens r = num_prompt_tokens r + num_output_tokens r;
  r_computed : 0 ≤ num_computed_tokens r;
  r_sampling : ∃ sp, sampling_params r = Some sp ∧ num_prompt_tokens r + min_tokens sp ≤ max_model_len cfg;
  r_pooling : pooling_params (ident r) = false;
  r_resumable : resumable r = false;
  r_placeholders : num_output_placeholders r = 0;
  r_features : enc_valid (mm_of r);
  r_cached : num_cached_tokens r < num_tokens r
}.

(** The statuses of the requests in the queue. *)
Definition waits (s : RequestStatus) : Prop := s = WAITING ∨ s = WAITING_FOR_FSM ∨ s = PREEMPTED.

(** Where a request is: it runs, it waits (in the queue or among [skipped] ones), or it is
    finished and a connector still sends its blocks.  [live] is what holds of a running
    one; [fresh] when no request was preempted since the step before. *)
Inductive placed (skipped : list string) (live : K → string → Request → Prop) (fresh : Prop) (s : t) (id : string) (r : Request) : Prop :=
  | PRunning : id ∈ running s → status r = RUNNING → request_ok r → live (kv s) id r → placed skipped live fresh s id r
  | PWaiting :
      id ∈ queue_elements (waiting s) ++ skipped → waits (status r) → request_ok r → num_computed_tokens r = 0 →
      kv_ready (kv s) id 0 → (fresh → status r = PREEMPTED → id ∉ prev_step_scheduled_req_ids s) → placed skipped live fresh s id r
  | PFinished n :
      id ∉ running s ++ queue_elements (waiting s) ++ skipped → is_finished r = true → kv_ready (kv s) id n →
      placed skipped live fresh s id r.

Record base (skipped : list string) (live : K → string → Request → Prop) (fresh : Prop) (s : t) : Prop := Base {
  b_nodup : NoDup (running s ++ queue_elements (waiting s) ++ skipped);
  b_dom : ∀ id, id ∈ running s ++ queue_elements (waiting s) ++ skipped → is_Some (requests s !! id);
  b_placed : ∀ id r, requests s !! id = Some r → request_id r = id ∧ placed skipped live fresh s id r;
  b_unknown : ∀ id, requests s !! id = None → kv_ready (kv s) id 0;
  b_len : zlen (running s) ≤ max_num_running_reqs cfg;
  b_kv : kv_inv (kv s);
  b_enc : enc_inv (enc s);
  b_conn : ∀ c, connector s = Some c → conn_inv c ∧ need_mamba_block_aligned_split cfg = false
}.

(** A running request has slots for its computed tokens; it holds blocks even when a failed
    load left it without computed tokens. *)
Definition keeps_slots (k : K) (id : string) (r : Request) : Prop := kv_ready k id (Z.max 1 (num_computed_tokens r)).

(** Between two steps a running request has a token to compute, and slots for the computed
    ones. *)
Definition between (k : K) (id : string) (r : Request) : Prop :=
  num_computed_tokens r < num_tokens r ∧ keeps_slots k id r.

(** The invariant between two steps. *)
Definition inv : t → Prop := base [] between True.
End inv.
End SchedulerInv.
