(* ===== verification/EncoderContract.v ===== *)
(** [EncoderCacheManager] keeps the contract that the scheduler relies on, for a decoder-only
    model: the interface of [SchedulerLaws] is discharged by the lemmas on the cache's
    accounts. *)
From Stdlib Require Import QArith.
From stdpp Require Import gmap strings.
From S2P Require Export SchedulerLaws.
From stdpp Require Import options.
Open Scope Z_scope.

Module EncoderContract.
Import EncoderCacheManager EncoderAccounts EncoderSchedule EncoderSchedule.Fit.

Section contract.
Context (embeds : string → Z) (Hembeds : ∀ h, 0 ≤ embeds h).
Context (disable : bool) (has_cache_item : option (string → bool)).

(** Features with the same hash have as many embeddings, and they come in their order. *)
Definition valid_features (r : mm_request) : Prop :=
  sized embeds r ∧ Forall valid (mm_features r)
  ∧ ∀ i j f g, (i ≤ j)%nat → mm_features r !! i = Some f → mm_features r !! j = Some g → offset f ≤ offset g.

(** The inputs are not in the cache, one per hash, and there is room for all of them. *)
Definition fits (s : t) (r : mm_request) (inputs external : list Z) : Prop :=
  ∃ hi he, Forall2 (input_of r) inputs hi ∧ Forall2 (input_of r) external he ∧ NoDup (hi ++ he)
  ∧ (∀ h, h ∈ hi ++ he → cached s !! h = None) ∧ weight embeds (hi ++ he) ≤ num_free_slots s.

Lemma fits_none s r : inv embeds s → fits s r [] [].
Proof. intros Hi. exists [], []. repeat split; try constructor; [by intros h ?%elem_of_nil|]. apply (inv_room _ _ Hi). Qed.

Lemma try_fits s r c shift n budget :
  inv embeds s → valid_features r → 0 ≤ shift ≤ 1 → 0 ≤ n → 0 ≤ budget →
  runs (try_schedule_encoder_inputs false disable has_cache_item r c shift n budget) s
    (λ p s', inv embeds s' ∧ 0 ≤ p.1.1.2 ≤ n ∧ 0 ≤ p.1.2 ∧ fits s' r p.1.1.1 p.2).
Proof using Hembeds.
  intros Hi (Hr & Hv & Hso) Hs Hn Hb. unfold try_schedule_encoder_inputs. destruct (_ || _).
  { runs_step. split; [done|]. split; [simpl; lia|]. split; [done|by apply fits_none]. }
  assert (choice embeds r c 0 (Acc [] [] ∅ n budget 0) s) as Hch.
  { split; simpl; [done| |apply Hi|done|done|intros; lia]. exists [], []. split; [constructor|]. split; [constructor|].
    split; [constructor|]. split; [|done]. intros h. split; [by intros ?%elem_of_empty|by intros ?%elem_of_nil]. }
  destruct (loop_spec embeds Hembeds disable has_cache_item r c shift Hr Hv Hso Hs (mm_features r) 0
              (Acc [] [] ∅ n budget 0) s eq_refl Hch Hn) as (a & s1 & Hrun & Hn' & [H1 (hi & he & Hli & Hle & Hnd & Hh & Hw) H3 H4 H5 H6]).
  apply runs_bind. exists a, s1. split; [exact Hrun|]. runs_step. split; [done|]. split; [done|]. split; [done|].
  exists hi, he. split; [done|]. split; [done|]. split; [done|]. split; [intros h Hin; by apply H5, Hh|]. simpl. lia.
Qed.

Lemma allocate_fits s r inputs external :
  inv embeds s → valid_features r → fits s r inputs external → runs (allocate_inputs r inputs external) s (λ _ s', inv embeds s').
Proof using Hembeds.
  intros Hi (Hr & _) (hi & he & Hli & Hle & (Hndi & Hdis & Hnde)%NoDup_app & Hc & Hw). rewrite weight_app in Hw.
  pose proof (weight_nonneg embeds Hembeds he).
  destruct (encoder_allocate_all embeds Hembeds r Hr _ hi s Hi Hli Hndi) as (s2 & Hr2 & Hi2 & Hn2 & _ & Hsame2).
  { intros h Hin. apply Hc, elem_of_app. by left. } { lia. }
  destruct (encoder_allocate_all embeds Hembeds r Hr _ he s2 Hi2 Hle Hnde) as (s3 & Hr3 & Hi3 & _).
  { intros h Hin. rewrite Hsame2 by (intros ?; by apply (Hdis h)). apply Hc, elem_of_app. by right. } { lia. }
  unfold allocate_inputs. apply runs_bind. exists tt, s2. split; [exact Hr2|]. by exists tt, s3.
Qed.

Lemma free_fits s r :
  inv embeds s → valid_features r →
  runs (free r) s (λ _ s', inv embeds s' ∧ ∀ r' inputs external, fits s r' inputs external → fits s' r' inputs external).
Proof.
  intros Hi [Hr _]. destruct (free_request_run embeds r s Hi Hr) as (s' & Hrun & Hi' & Hn & Hc). exists tt, s'. split; [done|]. split; [done|].
  intros r' inputs external (hi & he & H1 & H2 & H3 & H4 & H5). exists hi, he. rewrite Hn. do 3 (split; [done|]). split; [|done]. auto.
Qed.

Lemma free_inputs s r c : inv embeds s → valid_features r → runs (free_encoder_inputs false r c) s (λ _ s', inv embeds s').
Proof.
  intros Hi [Hr _]. unfold free_encoder_inputs. apply runs_bind. exists (cached_input_ids s r), s. split; [done|].
  eapply runs_mono; [apply (runs_for_each (λ rest s', inv embeds s' ∧ ∀ i, i ∈ rest → i ∈ cached_input_ids s r))|..]; [|by split|by intros [] s' [? _]].
  intros i rest s1 [Hi1 Hsub]. assert (i ∈ cached_input_ids s r) as (Hc & [Hi0 _]%elem_of_seqZ)%list_elem_of_filter by (apply Hsub; by left).
  assert (∀ j, j ∈ rest → j ∈ cached_input_ids s r) as Hrest by (intros j Hj; apply Hsub; by right).
  unfold has_cached in Hc. destruct (mm_features r !! Z.to_nat i) as [f|] eqn:Hf; [|done]. unfold free_computed.
  apply (runs_lift _ f); [by rewrite py_index_nonneg, Hf|]. simpl. destruct (_ <=? c); [|by runs_step].
  destruct (free_input_spec embeds r (Z.to_nat i) f s1 Hi1 Hr Hf) as (s2 & Hrun & Hi2 & _). rewrite Z2Nat.id in Hrun by done. by exists tt, s2.
Qed.

#[export] Instance encoder_cache_laws : EncoderLaws t false disable has_cache_item.
Proof using embeds Hembeds.
  refine {| enc_inv := inv embeds; enc_valid := valid_features; enc_fits := fits |}.
  - intros e r c shift n budget. apply try_fits.
  - intros e r inputs external. apply allocate_fits.
  - intros e r inputs external (Hr & _) (hi & he & Hf & _). apply Forall_forall. intros i Hi. apply list_elem_of_lookup in Hi as [k Hk].
    destruct (Forall2_lookup_l _ _ _ _ _ Hf Hk) as (h & _ & Hi0 & f & Hfi & <-). exists (embeds (identifier f)). split; [|done].
    rewrite <- (Z2Nat.id i) by done. by apply feature_embeds.
  - intros e r. apply free_fits.
  - intros e r c. apply free_inputs.
  - intros e He. exists (freed e), (set_freed [] e). split; [done|]. by apply inv_freed.
Defined.
End contract.
End EncoderContract.
