(* ===== verification/KVContract.v ===== *)
(** [KVCacheManager] keeps the contract that the scheduler relies on, for a model with one
    group of attention layers: the interface of [SchedulerLaws] is discharged by the lemmas on
    the allocation, the search of hits and the hashes of the blocks. *)
From Stdlib Require Import QArith.
From stdpp Require Import gmap gmultiset strings.
From S2P Require Export TableHashes SchedulerLaws.
From stdpp Require Import options.
Import KVSpec.
Open Scope Z_scope.

(** ** What the manager reads of a request beyond the scheduler's fields *)

(** The block hashes, which the request keeps as its tokens grow ([Request.block_hashes]), and
    the flag that keeps it away from the prefix cache. *)
Class HashedRequests := {
  hashed_request : SchedRequest.Request → BlockHash.request;
  skips_prefix_cache : SchedRequest.Request → bool
}.

(** They are those of the full blocks of the tokens, and do not collide within a request. *)
Class HashedRequestsLaws (bs max_model_len : Z) `{!HashedRequests} := {
  hashing_tokens r : BlockHash.num_tokens (hashed_request r) = SchedRequest.num_tokens r;
  hashing_blocks r : zlen (BlockHash.block_hashes (hashed_request r)) = SchedRequest.num_tokens r `div` bs;
  hashing_distinct r : SchedRequest.num_tokens r < max_model_len → NoDup (BlockHash.block_hashes (hashed_request r))
}.

Module KVContract.
Import KVCacheManager CacheBlocks TableHashes.

(** ** The operations *)

Section ops.
Context (use_int : bool) `{!HashedRequests}.

Definition kv_request (r : SchedRequest.Request) : KVCacheManager.Request :=
  KVCacheManager.MkRequest (SchedRequest.request_id r) (SchedRequest.num_computed_tokens r) (SchedRequest.num_preemptions r)
    (skips_prefix_cache r) (hashed_request r).

(** The search gets fuel that suffices ([hybrid_hit_agrees]). *)
Definition computed_blocks (r : SchedRequest.Request) : py KVCacheManager.t (CacheBlocks.t * Z) :=
  let* o := get_computed_blocks (kv_request r) in lift (of_option RuntimeError o).

Definition slots_for (r : SchedRequest.Request) n local b lookahead ext delay encoder_tokens : py KVCacheManager.t (option CacheBlocks.t) := λ k,
  let '(a, (k', _)) := allocate_slots use_int n local (Some b) lookahead ext delay encoder_tokens (k, kv_request r) in (a, k').

Definition cache_computed (r : SchedRequest.Request) n : py KVCacheManager.t unit := λ k,
  let '(a, (k', _)) := cache_blocks use_int n (k, kv_request r) in (a, k').

#[global] Instance manager_ops : KVCacheOps KVCacheManager.t CacheBlocks.t := {
  kv_new_step_starts := new_step_starts;
  kv_empty_blocks := EmptyBlocks;
  kv_get_computed_blocks := computed_blocks;
  kv_allocate_slots := slots_for;
  kv_free r := free (kv_request r);
  kv_cache_blocks := cache_computed;
  kv_get_blocks := get_blocks;
  kv_block_ids k b := default [] (CacheBlocks.get_block_ids (num_kv_cache_groups k) false (pool k) b);
  kv_block_ids_or_none k b := CacheBlocks.get_block_ids (num_kv_cache_groups k) true (pool k) b;
  kv_remove_skipped_blocks := remove_skipped_blocks;
  kv_get_num_common_prefix_blocks := get_num_common_prefix_blocks;
  kv_reset_prefix_cache := reset_prefix_cache
}.

#[global] Instance manager_evict_ops : KVEvictOps KVCacheManager.t := { kv_evict_blocks := KVCacheManager.evict_blocks use_int }.
End ops.

(** ** One group *)

(** The state with another pool and another manager. *)
Definition put (p : BlockPool.t) (m : Manager.t) (k : KVCacheManager.t) : KVCacheManager.t :=
  set_coordinator (Coordinator.set_state p [m] (coordinator k)) k.

Lemma put_put p m p' m' k : put p m (put p' m' k) = put p m k.
Proof. done. Qed.

Lemma put_same k m : tables k = [m] → put (pool k) m k = k.
Proof. unfold put, tables, pool, set_coordinator, Coordinator.set_state. destruct k as [? ? ? ? [? ? ? ?]]. simpl. by intros ->. Qed.

(** A call on all managers is a call on the one. *)
Lemma on_coord_one {A} (f : Z → py (BlockPool.t * Manager.t) A) p m k :
  on_coord (Coordinator.on_managers f) (put p m k)
  = let '(a, (p', m')) := f 0 (p, m) in (rbind a (λ a, Ok [a]), put p' m' k).
Proof.
  unfold on_coord, Coordinator.on_managers. cbn [put coordinator set_coordinator Coordinator.set_state Coordinator.single_type_managers Coordinator.block_pool Coordinator.run_managers].
  destruct (f 0 (p, m)) as [[a|e] [p' m']]; done.
Qed.

Lemma on_coord_bind {A B} (f : py Coordinator.t A) (g : A → py Coordinator.t B) k :
  on_coord (bind f g) k = (let* a := on_coord f in on_coord (g a)) k.
Proof. unfold on_coord, bind. destruct (f (coordinator k)) as [[a|e] c]; [|done]. simpl. by destruct (g a c). Qed.

Lemma attention_step s m :
  ManagerBudget.attention_type s → match s with MambaSpec _ => Manager.set_step ∅ m | _ => m end = m.
Proof. by destruct s. Qed.

Lemma create_manager s p :
  wf_spec s → Manager.create s true 0 1 1 p = (Ok (Manager.Mgr s (block_size s * 1) true 0 ∅ ∅ ∅ ∅ ∅ []), p).
Proof. intros [_ Hw]. by destruct s. Qed.

Section laws.
Context (use_int : bool) (spec : KVCacheSpec) (eagle : bool) (max_len : Z) `{!HashedRequests, !HashedRequestsLaws (block_size spec) max_len}.
Context (Hwf : wf_spec spec) (Hatt : ManagerBudget.attention_type spec) (Hsearch : CacheHit.searchable spec eagle (block_size spec)).

Abbreviation bs := (block_size spec).
Abbreviation Q := (spec, bs, true, 0).

(** The settings that no call changes. *)
Record settings (k : KVCacheManager.t) : Prop := Settings {
  s_kind : Coordinator.kind (coordinator k) = Coordinator.Unitary spec bs 1 1;
  s_eagle : Coordinator.use_eagle (coordinator k) = eagle;
  s_groups : num_kv_cache_groups k = 1%nat;
  s_caching : enable_caching k = true;
  s_len : max_model_len k = max_len
}.

Record pool_settings (c : Z * bool * Z * list loc * loc * bool) : Prop := PoolSettings {
  p_caching : c.1.1.1.1.2 = true;
  p_hash_size : c.1.1.1.2 = bs;
  p_events : c.2 = false
}.

Record state_of (k : KVCacheManager.t) (p : BlockPool.t) (m : Manager.t) : Prop := StateOf {
  st_put : k = put p m k;
  st_settings : settings k;
  st_pool : pool_settings (BlockPool.config p);
  st_good : Manager.good ∅ (BlockPool.config p) Q (p, m);
  st_tidy : tidy p m
}.

Definition cache_inv (k : KVCacheManager.t) : Prop := ∃ p m, state_of k p m.

(** The first [n] tokens have slots, or the request is unknown. *)
Definition has_slots (m : Manager.t) (id : string) (n : Z) : Prop :=
  if n =? 0 then Manager.table id m = [] ∧ Manager.num_cached_block m !! id = None else n ≤ zlen (Manager.table id m) * bs.

Definition ready (k : KVCacheManager.t) (id : string) (n : Z) : Prop := ∃ m, tables k = [m] ∧ has_slots m id n.

(** Cached blocks for the first [n] tokens. *)
Definition hits (k : KVCacheManager.t) (b : CacheBlocks.t) (n : Z) : Prop :=
  ∃ l, blocks 1 b = [l] ∧ Held.distinct (pool k) l ∧ (∀ x, x ∈ l → x ≠ 0 → hash_of (pool k) x ≠ None)
  ∧ zlen l * bs = n ∧ (l = [] → b = EmptyBlocks).

Lemma state_tables k p m : state_of k p m → tables k = [m] ∧ pool k = p.
Proof. intros [Hk _ _ _ _]. by rewrite Hk. Qed.

Lemma bs_pos : 0 < bs.
Proof using Hwf. apply Hwf. Qed.

(** What a call for one request does to the slots. *)
Lemma state_kept k p m p' m' id :
  state_of k p m → kept (BlockPool.config p) Q id m (p', m') → state_of (put p' m' k) p' m'.
Proof.
  intros [Hk [H1 H2 H3 H4 H5] Hp _ _] [Hg Ht _]. pose proof (Manager.good_config _ _ _ _ Hg) as Hc. simpl in Hc.
  split; [done|by split|by rewrite Hc|by rewrite Hc|done].
Qed.

Lemma slots_others id m m' id' n : alone id m m' → id' ≠ id → has_slots m id' n → has_slots m' id' n.
Proof. intros Ha Hid. destruct (Ha id' Hid) as [Ht Hc]. unfold has_slots. by rewrite Ht, Hc. Qed.

Lemma slots_same m m' id n : ManagerBudget.same_request id m m' → has_slots m id n → has_slots m' id n.
Proof.
  intros [Hc Hl]. unfold has_slots. rewrite Hc, Hl. destruct (n =? 0); [|done]. intros [Ht ?]. split; [|done].
  rewrite Ht in Hl. by apply zlen_nil_inv.
Qed.

Lemma ready_le k id m n : 0 < m ≤ n → ready k id n → ready k id m.
Proof.
  intros Hm (mg & Ht & Hs). exists mg. split; [done|]. unfold has_slots in *. rewrite (proj2 (Z.eqb_neq m 0)) by lia.
  rewrite (proj2 (Z.eqb_neq n 0)) in Hs by lia. lia.
Qed.

(** *** Calls that change no table *)

Lemma on_coord_unit {A} (f : Z → py (BlockPool.t * Manager.t) A) p m k a p' m' :
  f 0 (p, m) = (Ok a, (p', m')) → on_coord (let* _ := Coordinator.on_managers f in ret tt) (put p m k) = (Ok tt, put p' m' k).
Proof. intros Hf. by rewrite on_coord_bind, (bind_run _ _ _ [a] (put p' m' k)) by (by rewrite on_coord_one, Hf). Qed.

(** The manager with an entry that was read stays what it is for every request. *)
Lemma state_touched k p m id :
  state_of k p m → state_of (put p (Manager.touch_table id m) k) p (Manager.touch_table id m)
  ∧ ∀ id' n, ready k id' n → ready (put p (Manager.touch_table id m) k) id' n.
Proof.
  intros Hs. pose proof (state_tables k p m Hs) as [Ht _]. split.
  - apply (state_kept k p m p (Manager.touch_table id m) id Hs). apply kept_touch_table. by split; [apply Hs|apply Hs|].
  - intros id' n (m' & Hm & Hr). rewrite Ht in Hm. injection Hm as <-. exists (Manager.touch_table id m). split; [done|].
    apply (slots_same m); [|done]. split; [done|]. by rewrite Manager.table_touch_table.
Qed.

Lemma new_step_law k :
  cache_inv k → runs new_step_starts k (λ _ k', cache_inv k' ∧ ∀ id n, ready k id n → ready k' id n).
Proof using Hatt.
  intros (p & m & Hs). exists tt, k. split; [|by split; [exists p, m|]]. rewrite (st_put _ _ _ Hs) at 1.
  rewrite (st_put _ _ _ Hs) at 2. unfold new_step_starts, Coordinator.new_step_starts.
  apply (on_coord_unit (λ _, Manager.new_step_starts) p m k tt). unfold Manager.new_step_starts, Manager.modify_m, modify.
  pose proof (Manager.good_params _ _ _ _ (st_good _ _ _ Hs)) as Hq. unfold Manager.params in Hq. simpl in Hq. injection Hq as -> _ _ _.
  by rewrite attention_step.
Qed.

Lemma common_prefix_law k id :
  cache_inv k → runs (get_num_common_prefix_blocks id) k (λ _ k', cache_inv k' ∧ ∀ id n, ready k id n → ready k' id n).
Proof.
  intros (p & m & Hs). unfold get_num_common_prefix_blocks.
  assert (∃ v m', (m' = m ∨ m' = Manager.touch_table id m) ∧ on_coord (Coordinator.get_num_common_prefix_blocks id) (put p m k) = (Ok v, put p m' k))
    as (v & m' & Hm & Hrun).
  { unfold Coordinator.get_num_common_prefix_blocks.
    assert (Coordinator.kind (coordinator (put p m k)) = Coordinator.Unitary spec bs 1 1) as Hkind by apply Hs.
    unfold on_coord at 1. rewrite bind_get_st, Hkind. fold (on_coord (Coordinator.on_managers (λ _, Manager.get_num_common_prefix_blocks id)) (put p m k)).
    rewrite on_coord_one. unfold Manager.get_num_common_prefix_blocks. rewrite bind_get_st. destruct (is_full (Manager.kv_cache_spec m)).
    - eexists _, (Manager.touch_table id m). split; [by right|reflexivity].
    - eexists _, m. split; [by left|reflexivity]. }
  rewrite <- (st_put _ _ _ Hs) in Hrun. exists v, (put p m' k). split; [exact Hrun|].
  destruct Hm as [->| ->]; [rewrite <- (st_put _ _ _ Hs); by split; [exists p, m|]|].
  destruct (state_touched k p m id Hs). split; [by eexists _, _|done].
Qed.

Lemma reset_law k :
  cache_inv k → runs reset_prefix_cache k (λ _ k', cache_inv k' ∧ ∀ id n, ready k id n → ready k' id n).
Proof.
  intros (p & m & Hs). pose proof (state_tables k p m Hs) as [Ht Hp].
  destruct (reset_tidy (BlockPool.config p) Q p m (st_good _ _ _ Hs) (st_tidy _ _ _ Hs)) as (b & p' & Hrun & Hg & Htd).
  assert (state_of (put p' m k) p' m) as Hs1 by (by apply (state_kept k p m p' m ""%string Hs)).
  assert (on_block_pool BlockPool.reset_prefix_cache k = (Ok b, put p' m k)) as Hob.
  { rewrite (st_put _ _ _ Hs) at 1. unfold on_block_pool, on_coord. simpl. by rewrite Hrun. }
  assert (∀ k', (∃ st, k' = set_stats st (put p' m k)) → cache_inv k' ∧ ∀ id n, ready k id n → ready k' id n) as Hend.
  { intros k' (st & ->). split.
    - exists p', m. destruct Hs1 as [_ [H1 H2 H3 H4 H5] H6 H7 H8]. by split; [|split| | |].
    - intros id n (m' & Hm & Hr). rewrite Ht in Hm. injection Hm as <-. by exists m. }
  unfold reset_prefix_cache. apply runs_bind. exists b, (put p' m k). split; [exact Hob|].
  destruct b; [do 2 runs_step|runs_step]; apply Hend; [by eexists|]. exists (prefix_cache_stats k). done.
Qed.

(** *** Freeing *)

Lemma ready_others k p m p' m' id id' n :
  state_of k p m → alone id m m' → id' ≠ id → ready k id' n → ready (put p' m' k) id' n.
Proof.
  intros Hs Ha Hid (m0 & Hm & Hr). rewrite (proj1 (state_tables k p m Hs)) in Hm. injection Hm as <-.
  exists m'. split; [done|]. by apply (slots_others id m).
Qed.

Lemma free_law k r :
  cache_inv k →
  runs (free (kv_request r)) k (λ _ k', cache_inv k' ∧ ready k' (SchedRequest.request_id r) 0
    ∧ ∀ id m, id ≠ SchedRequest.request_id r → ready k id m → ready k' id m).
Proof using Hatt.
  intros (p & m & Hs). pose proof (Manager.good_params _ _ _ _ (st_good _ _ _ Hs)) as Hq. unfold Manager.params in Hq. simpl in Hq.
  destruct (free_keeps (BlockPool.config p) Q (SchedRequest.request_id r) p m (st_good _ _ _ Hs) (st_tidy _ _ _ Hs))
    as (p' & m' & Hrun & Hg & Htd & Ha & Ht0 & Hc0); [by injection Hq as -> _ _ _|].
  exists tt, (put p' m' k). split; [|split; [|split]].
  - rewrite (st_put _ _ _ Hs) at 1. by apply (on_coord_unit (λ _, Manager.free (SchedRequest.request_id r)) p m k tt).
  - exists p', m'. by apply (state_kept k p m p' m' (SchedRequest.request_id r) Hs).
  - by exists m'.
  - intros id n Hid. by apply (ready_others k p m p' m' (SchedRequest.request_id r)).
Qed.

(** *** The search of a hit *)

Lemma NoDup_proper (l : list loc) :
  (∀ i j x, l !! i = Some x → l !! j = Some x → x ≠ 0 → i = j) → NoDup (filter Held.proper l).
Proof.
  induction l as [|y l IH]; intros Hl; [constructor|]. rewrite filter_cons.
  assert (NoDup (filter Held.proper l)) as Hnd by (apply IH; intros i j x Hi Hj Hx; by injection (Hl (Datatypes.S i) (Datatypes.S j) x Hi Hj Hx)).
  case_decide as Hy; [|done]. constructor; [|done]. intros [_ Hin]%list_elem_of_filter. apply list_elem_of_lookup in Hin as [i Hi].
  by specialize (Hl O (Datatypes.S i) y eq_refl Hi Hy).
Qed.

Lemma key_injective h h' g key :
  BlockHash.make_block_hash_with_group_id h g = Ok key → BlockHash.make_block_hash_with_group_id h' g = Ok key → h = h'.
Proof.
  unfold BlockHash.make_block_hash_with_group_id. destruct (BlockHash.to_bytes4 g) as [b|]; [|done]. simpl. intros [= <-] [= He].
  by apply app_inv_tail in He.
Qed.

(** Blocks that bear different hashes of a list are different. *)
Lemma found_distinct p free hs n l :
  BlockPool.inv p free BlockPool.none → NoDup hs → CacheHit.found p (CacheHit.HashList.Plain hs) n 0 l →
  Held.distinct p l ∧ ∀ x, x ∈ l → x ≠ 0 → hash_of p x ≠ None.
Proof.
  intros Hi Hnd [_ Hf].
  assert (∀ i x, l !! i = Some x → x ≠ 0 → ∃ h key, hs !! i = Some h ∧ BlockHash.make_block_hash_with_group_id h 0 = Ok key
            ∧ x ∈ BlockPool.blocks p ∧ hash_of p x = Some key) as Hb.
  { intros i x Hx Hx0. destruct (Hf i x Hx) as [->|(h & key & Hh & Hk & Hin & Hkey)]; [done|]. exists h, key. split; [|done].
    simpl in Hh. rewrite py_index_nonneg, Nat2Z.id in Hh by lia. by apply of_option_ok in Hh. }
  split; [split|].
  - apply NoDup_proper. intros i j x Hx Hy Hx0. destruct (Hb i x Hx Hx0) as (h & key & Hh & Hk & _ & He).
    destruct (Hb j x Hy Hx0) as (h' & key' & Hh' & Hk' & _ & He'). rewrite He in He'. injection He' as <-.
    pose proof (key_injective _ _ _ _ Hk Hk') as <-. by eapply NoDup_lookup.
  - intros x Hx. apply list_elem_of_lookup in Hx as [i Hx]. destruct (decide (x = 0)) as [->|Hx0].
    + apply (BlockPool.inv_mem _ _ _ _ Hi). destruct (BlockPool.inv_blocks _ _ _ Hi). lia.
    + by destruct (Hb i x Hx Hx0) as (? & ? & _ & _ & ? & _).
  - intros x Hx Hx0. apply list_elem_of_lookup in Hx as [i Hx]. destruct (Hb i x Hx Hx0) as (? & ? & _ & _ & _ & ->). done.
Qed.

Lemma find_law k p m r :
  state_of k p m → 1 ≤ SchedRequest.num_tokens r < max_len →
  ∃ l, Coordinator.find_longest_cache_hit (BlockHash.block_hashes (hashed_request r)) (SchedRequest.num_tokens r - 1) (coordinator k)
       = Ok (Some ([l], zlen l * bs))
  ∧ Held.distinct p l ∧ (∀ x, x ∈ l → x ≠ 0 → hash_of p x ≠ None) ∧ zlen l * bs ≤ SchedRequest.num_tokens r - 1.
Proof using All.
  intros Hs Hr. pose proof (state_tables k p m Hs) as [_ Hp]. pose proof (st_settings _ _ _ Hs) as Hset. pose proof bs_pos as Hbs.
  pose proof (Manager.good_held _ _ _ _ (st_good _ _ _ Hs)) as [[free Hi] _ _]. simpl in Hi.
  set (hs := BlockHash.block_hashes (hashed_request r)). set (ml := SchedRequest.num_tokens r - 1).
  assert (∀ a c, spec = ChunkedLocalAttentionSpec a c → 0 < c) as Hck by (intros a ck He; destruct Hwf as [_ H1]; by rewrite He in H1).
  assert (∀ n, n ≤ zlen hs → CacheHit.hashed (CacheHit.HashList.Plain hs) n) as Hhash.
  { intros n Hn i Hi0. destruct (lookup_lt_is_Some_2 hs (Z.to_nat i)) as [h Hh]; [unfold zlen in *; lia|]. exists h. simpl.
    by rewrite py_index_nonneg, Hh by lia. }
  destruct (CacheHit.find_longest_cache_hit_returns p free Hi [0] (CacheHit.HashList.Plain hs)) with (ml := ml) (spec := spec) (eagle := eagle) (al := bs)
    as [cols Hcols]; [by intros g ->%list_elem_of_singleton|done|done|exact Hck|lia| |by apply Hhash|done|].
  { apply Hhash. unfold hs. rewrite hashing_blocks. apply Z.div_le_mono; unfold ml; lia. }
  pose proof (CacheHit.find_longest_cache_hit_found p free Hi [0] (CacheHit.HashList.Plain hs) ml spec eagle bs cols ltac:(done) Hbs Hck ltac:(lia) Hcols)
    as (n & Hn & Hnb & Hf). apply Forall2_cons_inv_l in Hf as (l & rest & Hl & Hrest & ->). apply Forall2_nil_inv_l in Hrest as ->.
  destruct (found_distinct p free hs n l Hi) as [Hd Hh]; [apply hashing_distinct; lia|done|]. destruct Hl as [Hlen _].
  exists l. split; [|split; [done|split; [done|by rewrite Hlen]]].
  unfold Coordinator.find_longest_cache_hit. rewrite (s_kind _ Hset), (s_eagle _ Hset). change (Coordinator.block_pool (coordinator k)) with (pool k).
  rewrite Hp. fold hs ml. by rewrite Hcols.
Qed.

Lemma hits_none k : hits k EmptyBlocks 0.
Proof. exists []. split; [done|]. split; [split; [constructor|by intros b ?%elem_of_nil]|]. split; [by intros x ?%elem_of_nil|done]. Qed.

Lemma computed_law k r :
  cache_inv k → 1 ≤ SchedRequest.num_tokens r < max_len →
  runs (computed_blocks r) k (λ o k', cache_inv k' ∧ (∀ id n, ready k id n → ready k' id n)
    ∧ hits k' o.1 o.2 ∧ 0 ≤ o.2 < SchedRequest.num_tokens r).
Proof using All.
  intros (p & m & Hs) Hr. pose proof (state_tables k p m Hs) as [Ht Hp]. unfold computed_blocks, get_computed_blocks.
  apply runs_bind. destruct (negb (enable_caching k) || skip_reading_prefix_cache (kv_request r)) eqn:E.
  { exists (Some (EmptyBlocks, 0)), k. split; [by rewrite bind_get_st, E|]. exists (EmptyBlocks, 0), k. split; [done|]. split; [by exists p, m|].
    split; [done|]. split; [apply hits_none|simpl; lia]. }
  destruct (find_law k p m r Hs Hr) as (l & Hfind & Hd & Hh & Hlen). pose proof (zlen_nonneg l). pose proof bs_pos.
  eexists (Some (create_kv_cache_blocks [l], zlen l * bs)), _. split.
  { rewrite bind_get_st, E. unfold num_tokens. simpl hashing. rewrite hashing_tokens. by rewrite Hfind. }
  eexists _, _. split; [reflexivity|]. set (k' := set_stats _ k). split; [|split; [|split; [|simpl; nia]]].
  - exists p, m. destruct Hs as [Hk [? ? ? ? ?] ? ? ?]. split; [|by split|done..]. unfold k'. rewrite Hk. done.
  - intros id n (m' & ?). by exists m'.
  - destruct (decide (l = [])) as [->|Hne]; [apply hits_none|]. exists l. unfold create_kv_cache_blocks. simpl.
    rewrite (proj2 (Z.eqb_neq (zlen l) 0)) by (intros ?%zlen_nil_inv; done). simpl. rewrite <- Hp in Hd, Hh. done.
Qed.

(** *** Allocation *)

Lemma state_spec k p m : state_of k p m → Manager.kv_cache_spec m = spec ∧ Manager.block_size m = bs ∧ Manager.enable_caching m = true.
Proof. intros [_ _ _ Hg _]. pose proof (Manager.good_params _ _ _ _ Hg) as Hq. unfold Manager.params in Hq. simpl in Hq. by injection Hq as -> -> -> _. Qed.

Lemma remove_run k p m id n :
  state_of k p m → ∃ p' m', remove_skipped_blocks id n k = (Ok tt, put p' m' k) ∧ kept (BlockPool.config p) Q id m (p', m')
  ∧ ManagerBudget.same_request id m m' ∧ ∀ b, hash_of p' b = hash_of p b.
Proof using Hatt.
  intros Hs. destruct (state_spec k p m Hs) as (Hsp & _).
  assert (ManagerBudget.attention_type (Manager.kv_cache_spec m)) as Ha by (by rewrite Hsp).
  destruct (ManagerBudget.remove_skipped_run ∅ (BlockPool.config p) Q id n p m (st_good _ _ _ Hs) Ha) as (p' & m' & Hrun & _ & Hsame).
  assert (kept (BlockPool.config p) Q id m (p, m)) as Hk0 by (by split; [apply Hs|apply Hs|]).
  destruct (kept_remove_skipped (BlockPool.config p) Q id m n p m Hk0) as [Hkept _].
  assert (Manager.remove_skipped_blocks id n (p, m) = Manager.base_remove_skipped_blocks id n (p, m)) as He.
  { unfold Manager.remove_skipped_blocks. rewrite bind_get_st. destruct (Manager.kv_cache_spec m); first [done|by destruct Ha]. }
  rewrite He in Hrun. rewrite Hrun in Hkept. destruct Hkept as [Hk Hh]. exists p', m'. split; [|done].
  rewrite (st_put _ _ _ Hs) at 1. unfold remove_skipped_blocks, Coordinator.remove_skipped_blocks.
  apply (on_coord_unit (λ _, Manager.remove_skipped_blocks id n) p m k tt). by rewrite He.
Qed.

Lemma remove_law k id n :
  cache_inv k → runs (remove_skipped_blocks id n) k (λ _ k', cache_inv k' ∧ ∀ id n, ready k id n → ready k' id n).
Proof using Hatt.
  intros (p & m & Hs). destruct (remove_run k p m id n Hs) as (p' & m' & Hrun & Hk & Hsame & _). exists tt, (put p' m' k).
  split; [done|]. split; [exists p', m'; by apply (state_kept k p m p' m' id)|]. intros id' n' Hr. destruct (decide (id' = id)) as [->|Hid].
  - destruct Hr as (m0 & Hm & Hr). rewrite (proj1 (state_tables k p m Hs)) in Hm. injection Hm as <-. exists m'. split; [done|]. by apply (slots_same m).
  - apply (ready_others k p m p' m' id); [done|apply Hk|done|done].
Qed.

(** The invariant of a call, on the whole state. *)
Definition kept_state (k : KVCacheManager.t) c id m0 (k' : KVCacheManager.t) : Prop := ∃ p' m', k' = put p' m' k ∧ kept c Q id m0 (p', m').

Lemma on_coord_kept {A} (f : Z → py (BlockPool.t * Manager.t) A) c p m k id m0 (R : list A → Prop) :
  post (kept c Q id m0) (λ _, True) (f 0 (p, m)) → (∀ a, R [a]) → post (kept_state k c id m0) R (on_coord (Coordinator.on_managers f) (put p m k)).
Proof.
  intros [Hk _] HR. rewrite on_coord_one. destruct (f 0 (p, m)) as [a [p' m']]. split; [by exists p', m'|]. intros x Hx. destruct a as [a|e]; [injection Hx as <-; apply HR|done].
Qed.

Lemma take_kept c id m0 called l local ext n main enc p m k r a k' r' :
  c.1.1.1.1.2 = true → kept c Q id m0 (p, m) → Manager.hits_ok p m l local ext → (∀ x, x ∈ l → x ≠ 0 → hash_of p x ≠ None) →
  AllocationBudget.take_blocks use_int called id [l] local ext n main enc (put p m k, r) = (a, (k', r')) →
  kept_state k c id m0 k' ∧ r' = r.
Proof using Hatt.
  intros Hc Hk Hok Hh Hrun.
  assert (∀ p1 m1, kept c Q id m0 (p1, m1) → Manager.kv_cache_spec m1 = spec) as Hsp.
  { intros p1 m1 [Hg _ _]. pose proof (Manager.good_params _ _ _ _ Hg) as Hq. unfold Manager.params in Hq. simpl in Hq. by injection Hq. }
  assert (∀ A (f : py KVCacheManager.t A) k1, post (kept_state k c id m0) (λ _, True) (f k1) →
    post (λ s, kept_state k c id m0 s.1 ∧ s.2 = r) (λ _, True) (on_manager f (k1, r))) as Hon.
  { intros A f k1 [Hf _]. unfold on_manager. by destruct (f k1) as [o k2]. }
  assert (post (λ s, kept_state k c id m0 s.1 ∧ s.2 = r) (λ _, True)
            (AllocationBudget.take_blocks use_int called id [l] local ext n main enc (put p m k, r))) as [Hpost _]; [|by rewrite Hrun in Hpost].
  unfold AllocationBudget.take_blocks. eapply (post_bind _ (λ _, True)).
  - destruct called; [|apply post_ret; [by split; [exists p, m|]|done]]. apply Hon. unfold Coordinator.allocate_new_computed_blocks.
    rewrite on_coord_bind. eapply (post_bind _ (λ _, True)); [apply (on_coord_kept _ c p m k id m0 (λ _, True)); [|done]|intros ? k1 _ (p1 & m1 & -> & Hk1) _; split; [by exists p1, m1|done]].
    rewrite (bind_run _ _ _ l (p, m)) by done. unfold Manager.allocate_new_computed_blocks.
    rewrite bind_get_st, (Hsp p m Hk), (ManagerBudget.attention_not_cross _ Hatt). by apply kept_allocate_computed.
  - intros [] [k1 r1] _ [(p1 & m1 & Hk1 & Hkept1) Hr1] _. simpl in Hk1, Hr1. subst k1 r1. apply Hon. apply (on_coord_kept _ c p1 m1 k id m0 (λ _, True)); [|done].
    rewrite bind_get_st, (Hsp p1 m1 Hkept1), (ManagerBudget.attention_not_cross _ Hatt). unfold Manager.allocate_new_blocks. rewrite bind_get_st, (Hsp p1 m1 Hkept1).
    pose proof (kept_allocate_new_blocks use_int c Q Hc id m0 n p1 m1 Hkept1) as Hnew. clear -Hatt Hnew. by destruct spec.
Qed.

(** What the budget of [allocate_slots] needs to know. *)
Lemma all_ready_state k p m id l b c local ext :
  state_of k p m → (has_slots m id (Z.max 1 c) ∧ local = 0 ∧ ext = 0) ∨ (has_slots m id 0 ∧ c = 0) → 0 ≤ c → 0 ≤ local → 0 ≤ ext →
  blocks 1 b = [l] → Held.distinct p l → zlen l * bs = local → (l = [] → b = EmptyBlocks) →
  AllocationBudget.all_ready id [l] (c + local) ext (negb (is_empty_object b) || (0 <? ext)) p [m].
Proof using Hwf.
  intros Hs Hr Hc Hl He Hbl Hd Hlen Hb. destruct (state_spec k p m Hs) as (Hsp & Hbs & Hca). pose proof bs_pos as Hpos. split; [done|].
  intros [|i] m' l' [= <-] [= <-]. assert (∀ n, 0 ≤ n → ManagerBudget.num_skipped_blocks m n ≤ n `div` bs) as Hsk.
  { intros n Hn. unfold ManagerBudget.num_skipped_blocks. rewrite Hsp, Hbs. by apply Manager.skipped_blocks_bound. }
  destruct Hr as [(Hr & -> & ->)|[[Ht Hn] ->]].
  - unfold has_slots in Hr. rewrite (proj2 (Z.eqb_neq _ 0)) in Hr by lia. assert (l = []) as -> by (apply zlen_nil_inv; nia). rewrite (Hb eq_refl). simpl.
    destruct (Manager.num_cached_block m !! id) as [n|] eqn:Hn; [by eapply ManagerBudget.Running|].
    apply ManagerBudget.Placed; [done..|]. etransitivity; [apply Hsk; lia|]. rewrite !Z.add_0_r. apply Z.lt_succ_r, Z.div_lt_upper_bound; [done|]. lia.
  - destruct (negb (is_empty_object b) || (0 <? ext)) eqn:Ecall.
    + by apply ManagerBudget.New; [..|by rewrite Hbs, Hlen| |left].
    + apply orb_false_iff in Ecall as [Eb Ee]. assert (ext = 0) as -> by lia.
      assert (l = []) as -> by (destruct b; [by injection Hbl|done]).
      apply ManagerBudget.Placed; [done|done|done|]. rewrite Ht. assert (local = 0) as -> by (by rewrite <- Hlen).
      specialize (Hsk 0 ltac:(lia)). by rewrite Z.div_0_l in Hsk by lia.
Qed.

(** The caching of full blocks. *)
Lemma cache_run k p m id n rq :
  state_of k p m → KVCacheManager.request_id rq = id → n `div` bs ≤ zlen (BlockHash.block_hashes (hashing rq)) →
  ∃ p' m' rq', coord_cache_blocks use_int n (k, rq) = (Ok tt, (put p' m' k, rq')) ∧ state_of (put p' m' k) p' m'
  ∧ alone id m m' ∧ Manager.table id m' = Manager.table id m.
Proof using Hatt.
  intros Hs <- Hn. destruct (state_spec k p m Hs) as (Hsp & Hbs & _). pose proof (st_pool _ _ _ Hs) as [Hc1 Hc2 Hc3].
  pose proof (Manager.good_params _ _ _ _ (st_good _ _ _ Hs)) as Hq. unfold Manager.params in Hq. simpl in Hq.
  destruct (cache_keeps use_int (BlockPool.config p) Q (KVCacheManager.request_id rq) n p (hashing rq) m (st_good _ _ _ Hs) (st_tidy _ _ _ Hs))
    as (p' & h & m' & Hrun & Hg & Ht & Ha & Htab); [by rewrite Hsp|done|by rewrite Hbs|by injection Hq as _ _ _ ->|by rewrite Hbs|].
  exists p', m', (set_hashing h rq). split; [|split; [|done]].
  - rewrite (st_put _ _ _ Hs) at 1. unfold coord_cache_blocks, Coordinator.cache_blocks. simpl. by rewrite Hrun.
  - by apply (state_kept k p m p' m' (KVCacheManager.request_id rq)).
Qed.

Lemma good_one c q p m : Manager.good ∅ c q (p, m) → Coordinator.good_all ∅ c [q] (p, [m]).
Proof.
  intros [Hh Hok Hc Hq]. simpl in *. split; simpl; [|by constructor|done|by rewrite Hq]. by rewrite (right_id_L ∅ (⊎) (Manager.uses m)).
Qed.

Section allocate.
Context (r : SchedRequest.Request) (n local : Z) (b : CacheBlocks.t) (lookahead ext encoder_tokens : Z).
Abbreviation id := (SchedRequest.request_id r).
Abbreviation computed := (SchedRequest.num_computed_tokens r).
Context (k : KVCacheManager.t) (p : BlockPool.t) (m : Manager.t) (Hstate : state_of k p m) (Hslots : (has_slots m id (Z.max 1 computed) ∧ local = 0 ∧ ext = 0) ∨ (has_slots m id 0 ∧ computed = 0))
  (Hhits : hits k b local) (Hn : 0 ≤ n) (Hc : 0 ≤ computed) (Hlocal : 0 ≤ local) (Hlook : 0 ≤ lookahead) (Hext : 0 ≤ ext) (Hsome : 0 < n + ext)
  (Hlen : computed + local + ext + n ≤ max_len).

(** Either the blocks do not suffice, or there are slots for all tokens and only the caching
    is left, which a delay leaves out. *)
Lemma slots_run :
  ∃ p1 m1, state_of (put p1 m1 k) p1 m1 ∧ alone id m m1
  ∧ ((∀ delay, slots_for use_int r n local b lookahead ext delay encoder_tokens k = (Ok None, put p1 m1 k)) ∧ (∀ n, has_slots m id n → has_slots m1 id n)
     ∨ ∃ new, has_slots m1 id (computed + local + ext + n)
       ∧ (slots_for use_int r n local b lookahead ext true encoder_tokens k = (Ok (Some new), put p1 m1 k))
       ∧ slots_for use_int r n local b lookahead ext false encoder_tokens k
         = let '(a, (k', _)) := coord_cache_blocks use_int (Z.min (computed + local + ext + n) (SchedRequest.num_tokens r)) (put p1 m1 k, kv_request r) in
           (rbind a (λ _, Ok (Some new)), k')).
Proof using All.
  destruct Hhits as (l & Hbl & Hd & Hh & Hbs & Hb). destruct (state_tables k p m Hstate) as [Ht Hp]. destruct (state_spec k p m Hstate) as (Hsp & Hbs' & _).
  pose proof (st_settings _ _ _ Hstate) as [_ _ Hg Hca Hml]. rewrite Hp in Hd, Hh. pose proof bs_pos as Hpos.
  pose proof (AllocationBudget.allocate_slots_run use_int (BlockPool.config p) [Q] k (kv_request r) n local (Some b) lookahead ext encoder_tokens) as Hrun.
  unfold KI, Coordinator.CI in Hrun. fold (pool k) (tables k) in Hrun. cbv zeta in Hrun. simpl default in Hrun. rewrite Hg, Hbl, Hml, Ht, Hp in Hrun.
  simpl KVCacheManager.request_id in Hrun. simpl KVCacheManager.num_computed_tokens in Hrun.
  change (num_computed_tokens (kv_request r)) with computed in Hrun.
  rewrite (Z.min_l (computed + local + ext) max_len) in Hrun by lia. change (num_tokens (kv_request r)) with (BlockHash.num_tokens (hashed_request r)) in Hrun. rewrite hashing_tokens in Hrun.
  destruct Hrun as (k1 & need & Hrem & _ & Hcase).
  { apply good_one, (st_good _ _ _ Hstate). }
  { by constructor; [rewrite Hsp|]. }
  { by apply (all_ready_state k p m id l b computed local ext). }
  1-5: lia.
  destruct (remove_run k p m id (computed + local + ext) Hstate) as (p1 & m1 & Hrem1 & Hk1 & Hsame & Hhash).
  rewrite Hrem in Hrem1. injection Hrem1 as ->. pose proof (state_kept k p m p1 m1 id Hstate Hk1) as Hs1. destruct (decide (_ < need)).
  - exists p1, m1. split; [done|]. split; [apply Hk1|]. left. split; [|intros n'; by apply (slots_same m)].
    intros delay. unfold slots_for. by rewrite Hcase.
  - destruct Hcase as (new & k2 & Hall & Htake & _ & _ & Hl). destruct (state_spec _ p1 m1 Hs1) as (_ & Hbs1 & _).
    apply (take_kept (BlockPool.config p) id m) in Htake as [(p2 & m2 & -> & Hk2) _];
      [|apply (st_pool _ _ _ Hstate)|exact Hk1|..].
    2:{ split; [|rewrite Hbs1; lia]. destruct Hd as [Hd1 Hd2]. split; [done|]. pose proof (Manager.good_config _ _ _ _ (kept_good _ _ _ _ _ Hk1)) as Hc1.
        simpl in Hc1. intros x Hx. rewrite (BlockPool.config_blocks p p1) by done. by apply Hd2. }
    2:{ intros x Hx Hx0. rewrite Hhash. by apply Hh. }
    pose proof (state_kept k p m p2 m2 id Hstate Hk2) as Hs2. destruct (state_spec _ p2 m2 Hs2) as (_ & Hbs2 & _).
    exists p2, m2. split; [done|]. split; [apply Hk2|]. right. exists (create_kv_cache_blocks new). split; [|split].
    + unfold has_slots. rewrite (proj2 (Z.eqb_neq _ 0)) by lia. apply Forall_cons in Hl as [Hl _]. rewrite Hbs2 in Hl. etransitivity; [|exact Hl].
      unfold AllocationBudget.slots. change (num_computed_tokens (kv_request r)) with computed. rewrite Hml. lia.
    + unfold slots_for. rewrite Hall, orb_true_r. done.
    + unfold slots_for. rewrite Hall, Hca. cbn [negb orb]. unfold bind. by destruct (coord_cache_blocks _ _ _) as [[[]|e] [k' r']].
Qed.
End allocate.

Lemma allocate_law k r n local b lookahead ext delay encoder_tokens :
  let c := SchedRequest.num_computed_tokens r in
  cache_inv k → hits k b local →
  (ready k (SchedRequest.request_id r) (Z.max 1 c) ∧ local = 0 ∧ ext = 0) ∨ (ready k (SchedRequest.request_id r) 0 ∧ c = 0) →
  0 ≤ n → 0 ≤ c → 0 ≤ local → 0 ≤ lookahead → 0 ≤ ext → 0 < n + ext → c + local + ext + n ≤ max_len →
  runs (slots_for use_int r n local b lookahead ext delay encoder_tokens) k (λ o k', cache_inv k'
    ∧ (∀ id m, id ≠ SchedRequest.request_id r ∨ o = None → ready k id m → ready k' id m)
    ∧ (is_Some o → ready k' (SchedRequest.request_id r) (c + local + ext + n))).
Proof using All.
  intros c (p & m & Hs) Hh Hr Hn Hc Hl Hla He Hsome Hlen. pose proof (proj1 (state_tables k p m Hs)) as Htab.
  assert (∀ id' n', ready k id' n' → has_slots m id' n') as Hslots by (intros id' n' (m0 & Hm & ?); rewrite Htab in Hm; by injection Hm as <-).
  destruct (slots_run r n local b lookahead ext encoder_tokens k p m Hs) as (p1 & m1 & Hs1 & Ha & Hcase); try done.
  { destruct Hr as [(? & ? & ?)|[? ?]]; [left|right]; auto. }
  assert (∀ p' m' id' n', alone (SchedRequest.request_id r) m m' → id' ≠ SchedRequest.request_id r → ready k id' n' → ready (put p' m' k) id' n') as Hframe
    by (intros; by apply (ready_others k p m _ _ (SchedRequest.request_id r))).
  destruct Hcase as [[Hrun Hr1]|(new & Hr1 & Hdelay & Hrun)].
  { eexists None, _. split; [apply Hrun|]. split; [by exists p1, m1|]. split; [|by intros [? ?]]. intros id' n' _ Hr'. exists m1. split; [done|].
    destruct (decide (id' = SchedRequest.request_id r)) as [->|Hid]; [by apply Hr1, Hslots|]. apply (slots_others (SchedRequest.request_id r) m); auto. }
  exists (Some new). destruct delay.
  { eexists. split; [exact Hdelay|]. split; [by exists p1, m1|]. split; [intros id' n' [Hid|?]; [by apply Hframe|done]|intros _; by exists m1]. }
  destruct (cache_run (put p1 m1 k) p1 m1 (SchedRequest.request_id r) (Z.min (c + local + ext + n) (SchedRequest.num_tokens r)) (kv_request r) Hs1 eq_refl)
    as (p2 & m2 & rq' & Hcache & Hs2 & Ha2 & Ht2).
  { simpl hashing. rewrite hashing_blocks. apply Z.div_le_mono; [apply bs_pos|lia]. }
  fold c in Hrun. rewrite Hcache in Hrun. eexists. split; [exact Hrun|]. split; [by exists p2, m2|]. split.
  - intros id' n' [Hid|?]; [|done]. rewrite put_put. apply Hframe; [by transitivity m1|done].
  - intros _. exists m2. split; [done|]. unfold has_slots in *. fold c in Hr1. rewrite (proj2 (Z.eqb_neq _ 0)) in Hr1 |- * by lia. by rewrite Ht2.
Qed.

(** *** A new manager *)

Lemma fresh_manager m : Manager.req_to_blocks m = ∅ → Manager.num_cached_block m = ∅ → ∀ p, tidy p m ∧ ∀ id, has_slots m id 0.
Proof.
  intros Ht Hc p. split; [split|].
  - intros r i b. unfold Manager.table. rewrite Ht, lookup_empty. done.
  - intros r. unfold num_cached. by rewrite Hc, lookup_empty.
  - intros id. unfold has_slots, Manager.table. by rewrite Ht, Hc, !lookup_empty.
Qed.

Lemma create_state nb hbs stats k :
  create nb [spec] max_len hbs true eagle stats false 1 1 = Ok k →
  cache_inv k ∧ (∀ id, ready k id 0) ∧ BlockPool.num_gpu_blocks (pool k) = nb.
Proof using Hwf.
  unfold create, Coordinator.create. intros (co & Hco & [= <-])%rbind_ok. apply rbind_ok in Hco as (p & Hp & Hco).
  destruct (Coordinator.create_managers_spec 0 [spec] true 1 1 p ltac:(by constructor)) as (ms & Hms & Hok & Hu & _).
  apply BlockPool.create_spec in Hp as (Hnb & Hi & Hcfg & Hb & _).
  rewrite Hms in Hco. simpl in Hms. rewrite (bind_run _ _ _ _ _ (create_manager spec p Hwf)) in Hms. simpl in Hms. injection Hms as <-.
  simpl in Hco. apply rbind_ok in Hco as (v & Hv & [= <-]).
  unfold Coordinator.unitary_variant in Hv. simpl in Hv. apply rbind_ok in Hv as ([] & Hh & [= <-]).
  unfold rassert in Hh. destruct (Z.eqb_spec hbs bs) as [->|]; [|done]. rewrite Z.mul_1_r in *.
  set (m := Manager.Mgr _ _ _ _ _ _ _ _ _ _) in *. destruct (fresh_manager m eq_refl eq_refl p) as [Ht Hs].
  split; [|split; [intros id; by exists m|]].
  - exists p, m. split; [done|by split| | |done].
    + rewrite Hcfg. by split.
    + apply Forall_cons in Hok as [Hok _]. split; [|done|done|done]. simpl in *. rewrite (right_id_L ∅ (⊎)) in Hu |- *. rewrite Hu.
      split; [by eexists|intros b Hin _; by destruct (Hb b Hin) as [_ ->]|by intros b ?%gmultiset_not_elem_of_empty].
  - unfold BlockPool.config in Hcfg. unfold pool. simpl. congruence.
Qed.

(** *** The contract *)

#[export, refine] Instance manager_laws : KVCacheLaws (KVCacheOps0 := manager_ops use_int) KVCacheManager.t CacheBlocks.t max_len :=
  {| kv_inv := cache_inv; kv_ready := ready; kv_hits k r b n := hits k b n |}.
Proof using All.
  - exact ready_le.
  - intros k r. apply hits_none.
  - done.
  - exact new_step_law.
  - intros k r Hk _. by apply computed_law.
  - exact allocate_law.
  - intros k r n Hk _. by apply free_law.
  - intros k id. apply common_prefix_law.
  - intros k id n. apply remove_law.
  - intros k. apply reset_law.
Defined.

(** *** Failed loads *)

#[local] Existing Instance manager_laws.

Lemma blocks_of_request k p m id :
  state_of k p m → kv_block_ids (KVCacheOps := manager_ops use_int) k (kv_get_blocks (KVCacheOps := manager_ops use_int) id k)
                   = [BlockPool.id_of p <$> Manager.table id m].
Proof.
  intros Hs. destruct (state_tables k p m Hs) as [Ht Hp]. pose proof (s_groups _ (st_settings _ _ _ Hs)) as Hg.
  simpl. unfold get_blocks, Coordinator.get_blocks. unfold tables in Ht. rewrite Ht, Hg, Hp. unfold create_kv_cache_blocks, CacheBlocks.get_block_ids. simpl.
  destruct (Z.eqb_spec (zlen (Manager.table id m)) 0) as [H0|]; [|done]. by apply zlen_nil_inv in H0 as ->.
Qed.

#[export] Instance manager_one_group : KVOneGroup (KVCacheOps0 := manager_ops use_int) KVCacheManager.t CacheBlocks.t max_len.
Proof using All. intros k id (p & m & Hs). eexists. by apply (blocks_of_request k p m). Defined.

#[export] Instance manager_evict_laws : KVEvictLaws (KVCacheOps0 := manager_ops use_int) (KVEvictOps0 := manager_evict_ops use_int) KVCacheManager.t CacheBlocks.t max_len.
Proof using All.
  intros k ids (p & m & Hs) Hids. destruct (state_tables k p m Hs) as [Ht Hp].
  pose proof (Manager.good_held _ _ _ _ (st_good _ _ _ Hs)) as [[free Hi] _ _]. simpl in Hi.
  destruct (evict_tidy use_int (BlockPool.config p) Q ids p m (st_good _ _ _ Hs) (st_tidy _ _ _ Hs)) as (p' & Hrun & Hg & Htd).
  { intros i Hin. destruct (Hids i Hin) as (id & l & Hl & Hil). rewrite (blocks_of_request k p m id Hs) in Hl. injection Hl as <-.
    apply list_elem_of_fmap in Hil as (b & -> & Hb). pose proof (Manager.table_blocks _ _ _ _ _ _ _ (st_good _ _ _ Hs) Hb) as Hbp.
    rewrite (BlockPool.inv_ids _ _ _ Hi) by done. by apply (BlockPool.inv_mem _ _ _ _ Hi). }
  exists tt, (put p' m k). split; [|split].
  - simpl. rewrite (st_put _ _ _ Hs) at 1. unfold evict_blocks, on_block_pool, on_coord. simpl. by rewrite Hrun.
  - exists p', m. by apply (state_kept k p m p' m ""%string Hs).
  - intros id n (m' & Hm & Hr). rewrite Ht in Hm. injection Hm as <-. by exists m.
Defined.
End laws.
End KVContract.
