(* ===== verification/SchedulerRun.v ===== *)
(** The first part of [schedule]: from a state in order, the loop over the running requests
    raises nothing, ends, keeps its accounts, and leaves preempted requests in the queue. *)
From Stdlib Require Import QArith.
From stdpp Require Import gmap strings.
From S2P Require Export SchedulerLaws.
From stdpp Require Import options.
Open Scope Z_scope.

Module SchedulerRun.
Import SchedRequest Scheduler SchedulerInv.

Section run.
Context {K B E C Q : Type} `{!KVCacheOps K B, !EncoderCacheOps E, !KVConnectorOps C B, !RequestQueueOps string Q}.
Context {cfg : config} {has_cache_item : option (string → bool)}.
Context `{!KVCacheLaws K B (max_model_len cfg), !EncoderLaws E (is_encoder_decoder cfg) (disable_chunked_mm_input cfg) has_cache_item,
          !KVConnectorLaws C B, !RequestQueueLaws string Q}.

Abbreviation t := (Scheduler.t K E C Q).
Abbreviation base := (base cfg has_cache_item (K := K) (B := B) (E := E) (C := C) (Q := Q)).
Abbreviation placed := (placed cfg has_cache_item (K := K) (B := B) (E := E) (C := C) (Q := Q)).

(** ** Calls of the components *)

Lemma runs_on_kv {A} (m : py K A) (s : t) (P : A → t → Prop) : runs m (kv s) (λ a k, P a (set_kv k s)) → runs (on_kv m) s P.
Proof. intros (a & k & Hm & HP). exists a, (set_kv k s). unfold on_kv. by rewrite Hm. Qed.

Lemma runs_on_enc {A} (m : py E A) (s : t) (P : A → t → Prop) : runs m (enc s) (λ a e, P a (set_enc e s)) → runs (on_enc m) s P.
Proof. intros (a & e & Hm & HP). exists a, (set_enc e s). unfold on_enc. by rewrite Hm. Qed.

Lemma runs_on_connector {A} (none : A) (m : py C A) (s : t) (P : A → t → Prop) :
  (connector s = None → P none s) →
  (∀ c, connector s = Some c → runs m c (λ a c', P a (set_connector (Some c') s))) → runs (on_connector none m) s P.
Proof.
  intros Hn Hc. unfold on_connector. destruct (connector s) as [c|] eqn:Hs.
  - destruct (Hc c eq_refl) as (a & c' & Hm & HP). exists a, (set_connector (Some c') s). by rewrite Hs, Hm.
  - exists none, s. rewrite Hs. auto.
Qed.

Lemma runs_get_request {A} id r (k : Request → py t A) (s : t) P :
  requests s !! id = Some r → runs (k r) s P → runs (bind (get_request id) k) s P.
Proof. intros Hr Hk. apply runs_bind. exists r, s. unfold get_request, bind, get_st, lift. by rewrite Hr. Qed.

(** ** The parts of the state that the invariant reads *)

(** The invariant follows a change of one component. *)
Lemma base_enc sk live fresh (s : t) e : base sk live fresh s → enc_inv e → base sk live fresh (set_enc e s).
Proof. intros [H1 H2 H3 H4 H5 H6 H7 H8] He. split; try done. intros id r Hr. destruct (H3 id r Hr) as [Hid Hp]. split; [done|]. destruct Hp; by econstructor. Qed.

Lemma base_connector sk live fresh (s : t) c :
  base sk live fresh s → conn_inv c → need_mamba_block_aligned_split cfg = false → base sk live fresh (set_connector (Some c) s).
Proof.
  intros [H1 H2 H3 H4 H5 H6 H7 H8] Hc Hm. split; try done; [|by intros ? [= <-]].
  intros id r Hr. destruct (H3 id r Hr) as [Hid Hp]. split; [done|]. destruct Hp; by econstructor.
Qed.

(** [live] that survives a change of the cache at other requests. *)
Definition stable (live : K → string → Request → Prop) : Prop :=
  ∀ k k' id r, (∀ n, kv_ready k id n → kv_ready k' id n) → live k id r → live k' id r.

Lemma base_kv sk live fresh (s : t) k :
  stable live → base sk live fresh s → kv_inv k → (∀ id n, kv_ready (kv s) id n → kv_ready k id n) → base sk live fresh (set_kv k s).
Proof.
  intros Hst [H1 H2 H3 H4 H5 H6 H7 H8] Hk Hr. split; simpl; try done; [|intros id Hid; apply Hr, H4, Hid].
  intros id r Hq. destruct (H3 id r Hq) as [Hid Hp]. split; [done|]. destruct Hp as [? ? ? Hl|? ? ? ? ?|n ? ? ?].
  - apply PRunning; try done. by apply (Hst (kv s)); [apply Hr|].
  - apply PWaiting; try done. by apply Hr.
  - apply (PFinished _ _ _ _ _ _ _ _ n); try done. by apply Hr.
Qed.

(** *** Where a request is *)

Lemma waits_not_finished r : waits (status r) → is_finished r = false.
Proof. unfold is_finished. by intros [->|[->| ->]]. Qed.

Lemma base_running sk live fresh (s : t) id :
  base sk live fresh s → id ∈ running s →
  ∃ r, requests s !! id = Some r ∧ request_id r = id ∧ status r = RUNNING ∧ request_ok cfg has_cache_item r ∧ live (kv s) id r.
Proof.
  intros Hb Hid. destruct (b_dom _ _ _ _ _ _ Hb id) as [r Hr]; [apply elem_of_app; by left|].
  exists r. split; [done|]. destruct (b_placed _ _ _ _ _ _ Hb id r Hr) as [Heq Hp]. split; [done|].
  destruct Hp as [|Hw|n Hn]; [done| |].
  - exfalso. pose proof (b_nodup _ _ _ _ _ _ Hb) as Hnd. apply NoDup_app in Hnd as (_ & Hd & _). by apply (Hd id).
  - exfalso. apply Hn, elem_of_app. by left.
Qed.

Lemma base_waiting sk live fresh (s : t) id :
  base sk live fresh s → id ∈ queue_elements (waiting s) ++ sk →
  ∃ r, requests s !! id = Some r ∧ request_id r = id ∧ waits (status r) ∧ request_ok cfg has_cache_item r ∧ num_computed_tokens r = 0
    ∧ kv_ready (kv s) id 0 ∧ (fresh → status r = PREEMPTED → id ∉ prev_step_scheduled_req_ids s).
Proof.
  intros Hb Hid. destruct (b_dom _ _ _ _ _ _ Hb id) as [r Hr]; [apply elem_of_app; by right|].
  exists r. split; [done|]. destruct (b_placed _ _ _ _ _ _ Hb id r Hr) as [Heq Hp]. split; [done|].
  destruct Hp as [Hrun| |n Hn]; [|done|].
  - exfalso. pose proof (b_nodup _ _ _ _ _ _ Hb) as Hnd. apply NoDup_app in Hnd as (_ & Hd & _). by apply (Hd id).
  - exfalso. apply Hn, elem_of_app. by right.
Qed.

(** The inputs of the requests stay as they are. *)
Definition same_inputs (s s' : t) : Prop :=
  ∀ id r', requests s' !! id = Some r' → ∃ r, requests s !! id = Some r ∧ mm_of r' = mm_of r.

Lemma same_inputs_refl s : same_inputs s s.
Proof. intros id r Hr. by exists r. Qed.

Lemma same_inputs_eq (s s' : t) : requests s' = requests s → same_inputs s s'.
Proof. intros Heq id r Hr. exists r. by rewrite <- Heq. Qed.

Lemma same_inputs_trans s1 s2 s3 : same_inputs s1 s2 → same_inputs s2 s3 → same_inputs s1 s3.
Proof. intros H1 H2 id r3 Hr3. destruct (H2 id r3 Hr3) as (r2 & Hr2 & E2). destruct (H1 id r2 Hr2) as (r1 & Hr1 & E1). exists r1. by rewrite E2. Qed.

Lemma same_inputs_alter (f : Request → Request) id (s s' : t) :
  (∀ r, mm_of (f r) = mm_of r) → requests s' = alter f id (requests s) → same_inputs s s'.
Proof.
  intros Hf Hs x r'. rewrite Hs. destruct (decide (x = id)) as [->|Hx].
  - rewrite lookup_alter_eq. intros (r & Hr & ->)%fmap_Some. by exists r.
  - rewrite lookup_alter_ne by done. intros Hr. by exists r'.
Qed.

(** The encoder inputs that fit still do. *)
Definition keeps_fits (e e' : E) : Prop := ∀ r inputs external, enc_fits e r inputs external → enc_fits e' r inputs external.

Lemma keeps_fits_refl e : keeps_fits e e.
Proof. by intros ? ? ?. Qed.

Lemma keeps_fits_trans e1 e2 e3 : keeps_fits e1 e2 → keeps_fits e2 e3 → keeps_fits e1 e3.
Proof. intros H1 H2 r i x Hf. by apply H2, H1. Qed.

(** ** Preemption *)

Definition preempted_request (r : Request) : Request :=
  set_num_preemptions (num_preemptions r + 1) (set_spec_token_ids [] (set_num_computed_tokens 0 (set_status PREEMPTED r))).

Lemma preempted_ok r : request_ok cfg has_cache_item r → request_ok cfg has_cache_item (preempted_request r).
Proof. intros [H1 H2 H3 H4 H5 H6 H7 H8]. by split. Qed.

(** A running request moves to the queue. *)
Lemma base_preempt sk live live' fresh (s : t) id r rest k e q :
  base sk live fresh s → running s ≡ₚ id :: rest → requests s !! id = Some r →
  (∀ id' r', id' ≠ id → live (kv s) id' r' → live' k id' r') →
  kv_inv k → kv_ready k id 0 → (∀ id' m, id' ≠ id → kv_ready (kv s) id' m → kv_ready k id' m) → enc_inv e →
  queue_elements q ≡ₚ id :: queue_elements (waiting s) →
  base sk live' False (set_waiting q (set_requests (alter preempted_request id (requests s)) (set_enc e (set_kv k (set_running rest s))))).
Proof.
  intros Hb Hp Hr Hlive Hk Hk0 Hframe He Hq. pose proof (base_running _ _ _ _ id Hb) as Hrun. destruct Hrun as (r' & Hr' & Hid & Hst & Hok & Hl).
  { rewrite Hp. by left. }
  rewrite Hr in Hr'. injection Hr' as <-. destruct Hb as [H1 H2 H3 H4 H5 H6 H7 H8].
  assert (rest ++ queue_elements q ++ sk ≡ₚ running s ++ queue_elements (waiting s) ++ sk) as Hall.
  { rewrite Hq, Hp. simpl. by rewrite <- Permutation_middle. }
  split; simpl; try done.
  - by rewrite Hall.
  - intros x Hx. rewrite Hall in Hx. rewrite lookup_alter_is_Some. by apply H2.
  - intros x rx. destruct (decide (x = id)) as [->|Hx].
    + rewrite lookup_alter_eq, Hr. intros [= <-]. split; [done|]. apply PWaiting; simpl.
      * rewrite Hq. by left.
      * by right; right.
      * by apply preempted_ok.
      * done.
      * done.
      * done.
    + rewrite lookup_alter_ne by done. intros Hrx. destruct (H3 x rx Hrx) as [Hidx Hpl]. split; [done|]. destruct Hpl as [Hrn ? ? ?|Hw ? ? ? ? ?|n Hn ? ?].
      * apply PRunning; simpl; try done; [|by apply Hlive]. rewrite Hp in Hrn. by apply elem_of_cons in Hrn as [?|?].
      * apply PWaiting; simpl; try done; [|by apply Hframe]. rewrite Hq. by right.
      * apply (PFinished _ _ _ _ _ _ _ _ n); simpl; [by rewrite Hall|done|by apply Hframe].
  - intros x. destruct (decide (x = id)) as [->|Hx]; [by rewrite lookup_alter_eq, Hr|]. rewrite lookup_alter_ne by done. intros Hn. by apply Hframe, H4.
  - unfold zlen in *. rewrite (Permutation_length Hp) in H5. simpl in H5. lia.
Qed.

Lemma preempt_spec sk live live' fresh (s : t) id rest :
  base sk live fresh s → running s ≡ₚ id :: rest →
  (∀ k r, live k id r → ∃ n, kv_ready k id n) →
  (∀ k k' id' r', (∀ n, kv_ready k id' n → kv_ready k' id' n) → id' ≠ id → live k id' r' → live' k' id' r') →
  runs (preempt_request id) (set_running rest s) (λ _ s', base sk live' False s' ∧ running s' = rest
    ∧ queue_elements (waiting s') ≡ₚ id :: queue_elements (waiting s) ∧ same_inputs s s'
    ∧ (∀ id', id' ≠ id → requests s' !! id' = requests s !! id') ∧ keeps_fits (enc s) (enc s')).
Proof.
  intros Hb Hp Hready Hlive. destruct (base_running _ _ _ _ id Hb) as (r & Hr & Hid & Hst & Hok & Hl); [rewrite Hp; by left|].
  unfold preempt_request. apply (runs_get_request id r); [done|]. apply runs_passert; [by apply bool_decide_eq_true|].
  destruct (Hready _ _ Hl) as [n Hn]. pose proof (b_kv _ _ _ _ _ _ Hb) as Hk. pose proof (b_enc _ _ _ _ _ _ Hb) as He.
  apply runs_bind, runs_on_kv. eapply runs_mono; [apply (kv_free_law (kv s) r n); [done|by rewrite Hid]|]. rewrite Hid.
  intros [] k (Hk' & Hk0 & Hframe). apply runs_bind, runs_on_enc. eapply runs_mono; [apply (enc_free_law (enc s)); [done|apply Hok]|].
  intros [] e [He' Hfits]. unfold update_request, change_waiting. do 2 runs_step. simpl.
  set (s1 := set_requests _ _). split; [|split; [done|split; [|split]]].
  - eapply (base_preempt sk live live' fresh s id r rest k e); try done; [|by rewrite prepend_elements].
    intros id' r' Hne. apply Hlive; [|done]. intros m. by apply Hframe.
  - by rewrite prepend_elements.
  - by apply (same_inputs_alter preempted_request id).
  - split; [|exact Hfits]. intros id' Hne. by apply lookup_alter_ne.
Qed.

(** ** The accounts of a step *)

(** A running request: what it got in this step, and slots for it. *)
Definition live_step (l : step (B := B)) (k : K) (id : string) (r : Request) : Prop :=
  num_computed_tokens r < num_tokens r ∧
  match od_get id (scheduled_tokens l) with
  | None => keeps_slots cfg k id r
  | Some n =>
      let drafts := zlen (default [] (od_get id (spec_decode l))) in
      let after := num_computed_tokens r + n in
      0 < n ∧ kv_ready k id after ∧ after < max_model_len cfg ∧ after ≤ num_tokens r + drafts ∧ (0 < drafts → after = num_tokens r + drafts)
  end.

Lemma live_step_stable l k k' id r : (∀ n, kv_ready k id n → kv_ready k' id n) → live_step l k id r → live_step l k' id r.
Proof. intros Hk [Hc Hl]. split; [done|]. destruct (od_get id (scheduled_tokens l)); [|by apply Hk]. destruct Hl as (? & ? & ?). auto. Qed.

Lemma live_step_ready l k id r : live_step l k id r → ∃ n, kv_ready k id n.
Proof. intros [_ Hl]. destruct (od_get id (scheduled_tokens l)); [destruct Hl as (_ & ? & _)|]; by eexists. Qed.

Definition inputs_ok (r : Request) (inputs : list Z) : Prop :=
  Forall (λ i, ∃ n, get_num_encoder_embeds (mm_of r) i = Ok n ∧ 0 ≤ n) inputs.

(** The local variables agree with each other; [budget] is what the step began with. *)
Record locals_ok (budget : Z) (l : step (B := B)) (s : t) : Prop := Locals {
  l_budget : 0 ≤ token_budget l ∧ sum_tokens (scheduled_tokens l) + token_budget l = budget;
  l_nodup : NoDup (od_keys (scheduled_tokens l));
  l_keys : od_keys (scheduled_tokens l) ≡ₚ running_reqs l ++ resumed_reqs l ++ new_reqs l;
  l_blocks : od_keys (req_to_new_blocks l) ≡ₚ od_keys (scheduled_tokens l);
  l_sub : ∀ id, id ∈ od_keys (scheduled_tokens l) → id ∈ running s;
  l_spec : od_wf (spec_decode l) ∧ ∀ id, id ∈ od_keys (spec_decode l) → id ∈ od_keys (scheduled_tokens l);
  l_enc : od_wf (encoder_inputs l) ∧ 0 ≤ encoder_budget l
          ∧ ∀ id inputs r, od_get id (encoder_inputs l) = Some inputs → requests s !! id = Some r → inputs_ok r inputs
}.

(** The loop over the running requests has passed the scheduled ones. *)
Definition passed (l : step (B := B)) (s : t) : Prop :=
  0 ≤ req_index l ∧ (∀ id, id ∈ running_reqs l → id ∈ take (Z.to_nat (req_index l)) (running s))
  ∧ resumed_reqs l = [] ∧ new_reqs l = [].

(** The request of the turn. *)
Definition current (l : step (B := B)) (s : t) (id : string) : Prop :=
  id ∈ take (Datatypes.S (Z.to_nat (req_index l))) (running s) ∧ (id ∉ running_reqs l)
  ∧ (policy cfg = FCFS → lookup (Z.to_nat (req_index l)) (running s) = Some id).

(** *** Lists and dictionaries *)

Lemma remove_first_split (x : string) l l' : remove_first x l = Ok l' → ∃ l1 l2, l = l1 ++ x :: l2 ∧ l' = l1 ++ l2.
Proof.
  revert l'. induction l as [|y l IH]; intros l'; simpl; [done|]. case_decide as Hy; [intros [= <-]; exists [], l; by subst|].
  destruct (remove_first x l) as [r|] eqn:Er; [|done]. intros [= <-]. destruct (IH r eq_refl) as (l1 & l2 & -> & ->). by exists (y :: l1), l2.
Qed.

(** Taking an element out brings the others closer to the front. *)
Lemma take_remove (x y : string) n l l' :
  remove_first x l = Ok l' → NoDup l → y ≠ x → y ∈ take n l → y ∈ take n l' ∧ (x ∈ take n l → y ∈ take (n - 1) l').
Proof.
  intros (l1 & l2 & -> & ->)%remove_first_split Hnd Hyx Hy. apply NoDup_app in Hnd as (_ & Hd & Hnd2).
  apply list_elem_of_lookup in Hy as [i Hi]. rewrite lookup_take_Some in Hi. destruct Hi as [Hi Hin].
  destruct (decide (i < length l1)%nat) as [Hlt|Hge].
  - rewrite lookup_app_l in Hi by done. split.
    + apply (list_elem_of_lookup_2 _ i). rewrite lookup_take_Some. split; [by rewrite lookup_app_l by done|done].
    + intros Hx. apply (list_elem_of_lookup_2 _ i). rewrite lookup_take_Some. split; [by rewrite lookup_app_l by done|].
      apply list_elem_of_lookup in Hx as [j Hj]. rewrite lookup_take_Some in Hj. destruct Hj as [Hj Hjn].
      destruct (decide (j < length l1)%nat); [|lia]. exfalso. rewrite lookup_app_l in Hj by done.
      apply (Hd x); [by apply list_elem_of_lookup_2 in Hj|by left].
  - rewrite lookup_app_r in Hi by lia. destruct (i - length l1)%nat as [|j] eqn:Ej; [by injection Hi as ->|]. simpl in Hi.
    assert ((l1 ++ l2) !! (i - 1)%nat = Some y) as Hl.
    { rewrite lookup_app_r by lia. replace (i - 1 - length l1)%nat with j by lia. done. }
    split; [|intros _]; apply (list_elem_of_lookup_2 _ (i - 1)%nat); rewrite lookup_take_Some; (split; [done|lia]).
Qed.

Lemma od_keys_del_perm {V} id (v : V) (d : list (string * V)) : od_get id d = Some v → od_keys d ≡ₚ id :: od_keys (od_del id d).
Proof. intros Hd. unfold od_keys. by rewrite (od_get_perm id v d Hd) at 1. Qed.

Lemma sum_tokens_cons (x : string * Z) d : sum_tokens (x :: d) = x.2 + sum_tokens d.
Proof. done. Qed.

Lemma sum_tokens_perm (d d' : list (string * Z)) : d ≡ₚ d' → sum_tokens d = sum_tokens d'.
Proof. induction 1; rewrite ?sum_tokens_cons; lia. Qed.

Lemma sum_tokens_del id n d : od_get id d = Some n → sum_tokens d = n + sum_tokens (od_del id d).
Proof. intros Hd. by rewrite (sum_tokens_perm _ _ (od_get_perm id n d Hd)). Qed.

Lemma sum_tokens_set id n d : od_get id d = None → sum_tokens (od_set id n d) = sum_tokens d + n.
Proof.
  intros Hd. rewrite od_set_fresh by done. clear. induction d as [|x d IH]; simpl; rewrite ?sum_tokens_cons; [|lia].
  unfold sum_tokens. simpl. lia.
Qed.

Lemma sum_embeds_ok r inputs : inputs_ok r inputs → ∃ n, sum_embeds r inputs = Ok n ∧ 0 ≤ n.
Proof.
  induction 1 as [|i inputs (n & Hn & Hn0) _ (m & Hm & Hm0)]; simpl; [by exists 0|]. rewrite Hn, Hm. simpl. exists (n + m). split; [done|lia].
Qed.

(** *** Choosing whom to preempt *)

(** What choosing leaves: the other requests keep what they got. *)
Record chosen_out (budget : Z) (l l' : step (B := B)) (s : t) (x : string) (rest : list string) : Prop := ChosenOut {
  c_perm : running s ≡ₚ x :: rest;
  c_locals : locals_ok budget l' (set_running rest s);
  c_passed : passed l' (set_running rest s);
  c_out : x ∉ od_keys (scheduled_tokens l');
  c_others : ∀ id, id ≠ x → od_get id (scheduled_tokens l') = od_get id (scheduled_tokens l)
               ∧ od_get id (spec_decode l') = od_get id (spec_decode l);
  c_current : ∀ id, id ≠ x → current l s id → current l' (set_running rest s) id;
  c_index : req_index l - 1 ≤ req_index l' ∧ token_budget l ≤ token_budget l'
}.

(** The parts of the accounts when a request gives back what it got. *)
Lemma drop_keys {V} x (v : V) (d : list (string * V)) : NoDup (od_keys d) → od_get x d = Some v →
  NoDup (od_keys (od_del x d)) ∧ (x ∉ od_keys (od_del x d)) ∧ ∀ id, id ∈ od_keys d → id ≠ x → id ∈ od_keys (od_del x d).
Proof.
  intros Hnd Hv. pose proof (od_keys_del_perm x v d Hv) as Hp. rewrite Hp in Hnd. apply NoDup_cons in Hnd as [Hx Hnd].
  split; [done|]. split; [done|]. intros id. rewrite Hp, elem_of_cons. by intros [?|?].
Qed.

Lemma drop_scheduled_ok budget l s r x rest :
  locals_ok budget l s → passed l s → NoDup (running s) → remove_first x (running s) = Ok rest →
  requests s !! x = Some r → request_id r = x → x ∈ running_reqs l → (∀ n, od_get x (scheduled_tokens l) = Some n → 0 ≤ n) →
  ∃ l', drop_scheduled r l = Ok l' ∧ locals_ok budget l' (set_running rest s) ∧ passed l' (set_running rest s)
  ∧ (x ∉ od_keys (scheduled_tokens l'))
  ∧ (∀ id, id ≠ x → od_get id (scheduled_tokens l') = od_get id (scheduled_tokens l) ∧ od_get id (spec_decode l') = od_get id (spec_decode l))
  ∧ req_index l' = req_index l - 1 ∧ 1 ≤ req_index l ∧ running_reqs l ≡ₚ x :: running_reqs l' ∧ token_budget l ≤ token_budget l'.
Proof.
  intros [[Hb1 Hb2] Hnd Hkeys Hblocks Hsub [Hsp1 Hsp2] (He1 & He2 & He3)] (Hi & Hpos & Hres & Hnew) Hrn Hrest Hr Hid Hs Hn0.
  rewrite Hres, Hnew in Hkeys. simpl in Hkeys. rewrite app_nil_r in Hkeys.
  destruct (remove_first_perm x _ Hs) as (rr & Hrr & Hprr). unfold drop_scheduled. rewrite Hid, decide_True, Hrr by done. cbn [rbind]. unfold od_pop.
  assert (x ∈ od_keys (scheduled_tokens l)) as Hxk by (by rewrite Hkeys).
  destruct (proj2 (od_get_is_Some x (scheduled_tokens l)) Hxk) as [n Hn]. rewrite Hn. cbn [of_option rbind].
  destruct (proj2 (od_get_is_Some x (req_to_new_blocks l))) as [b Hbl]; [by rewrite Hblocks|]. rewrite Hbl. cbn [of_option rbind].
  assert (∃ m, match od_get x (encoder_inputs l) with Some inputs => sum_embeds r inputs | None => Ok 0 end = Ok m ∧ 0 ≤ m) as (m & -> & Hm).
  { destruct (od_get x (encoder_inputs l)) as [inputs|] eqn:Hei; [|by exists 0]. apply sum_embeds_ok. by apply (He3 x). }
  cbn [rbind]. destruct (drop_keys x n _ Hnd Hn) as (Hnd' & Hxd & Hdel).
  pose proof (od_keys_del_perm x n _ Hn) as Hk1. pose proof (od_keys_del_perm x b _ Hbl) as Hk2.
  assert (∀ id, id ∈ od_keys (od_del x (scheduled_tokens l)) → id ∈ running s ∧ id ≠ x) as Hsub'.
  { intros id Hd. split; [apply Hsub; rewrite Hk1; by right|by intros ->]. }
  pose proof (Hpos x Hs) as Hxt. assert (1 ≤ req_index l) as Hi1.
  { destruct (Z.to_nat (req_index l)) as [|k] eqn:Ek; [by apply elem_of_nil in Hxt|lia]. }
  assert (NoDup (running_reqs l)) as Hndr by (by rewrite <- Hkeys).
  pose proof (sum_tokens_del x n _ Hn). specialize (Hn0 n Hn). eexists. split; [reflexivity|]. split; [|split; [|split; [|split; [|split; [|split; [done|split; [done|simpl; lia]]]]]]]; simpl.
  - split; simpl; rewrite ?Hres, ?Hnew; simpl; rewrite ?app_nil_r; try done; [lia|..].
    + apply (inj (cons x)). by rewrite <- Hk1, Hkeys, Hprr.
    + apply (inj (cons x)). by rewrite <- Hk1, <- Hk2.
    + intros id Hd. destruct (Hsub' id Hd) as [Hir Hne]. destruct (remove_first_perm x (running s)) as (rest' & Hrest' & Hperm); [by apply Hsub|].
      rewrite Hrest in Hrest'. injection Hrest' as <-. rewrite Hperm in Hir. by apply elem_of_cons in Hir as [?|?].
    + split; [by apply od_wf_del|]. intros id Hd. apply Hdel; [apply Hsp2; by eapply od_keys_del_elem|]. intros ->.
      apply od_get_is_Some in Hd. rewrite od_get_del in Hd by done. by destruct Hd.
    + split; [by apply od_wf_del|]. split; [lia|]. intros id inputs rq Hd. apply He3. destruct (decide (id = x)) as [->|Hne]; [by rewrite od_get_del in Hd|by rewrite od_get_del_ne in Hd].
  - split; [simpl; lia|]. split; [|done]. simpl. intros id Hd. assert (id ≠ x) as Hne.
    { intros ->. rewrite Hprr in Hndr. by apply NoDup_cons in Hndr as [? _]. }
    destruct (take_remove x id (Z.to_nat (req_index l)) (running s) rest) as [_ Htr]; [done|done|done|apply Hpos; rewrite Hprr; by right|].
    replace (Z.to_nat (req_index l - 1)) with (Z.to_nat (req_index l) - 1)%nat by lia. by apply Htr.
  - done.
  - intros id Hne. by rewrite !od_get_del_ne.
  - done.
Qed.

Lemma drop_spec budget l s r x rest :
  policy cfg = PRIORITY → locals_ok budget l s → passed l s → NoDup (running s) → remove_first x (running s) = Ok rest →
  requests s !! x = Some r → request_id r = x → x ∈ running s → (∀ n, od_get x (scheduled_tokens l) = Some n → 0 ≤ n) →
  ∃ l', drop_scheduled r l = Ok l' ∧ chosen_out budget l l' s x rest.
Proof.
  intros Hpol Hl Hps Hrn Hrest Hr Hid Hx Hn0. destruct (remove_first_perm x (running s) Hx) as (rest' & Hrest' & Hperm).
  rewrite Hrest in Hrest'. injection Hrest' as <-. destruct (decide (x ∈ running_reqs l)) as [Hs|Hs].
  - destruct (drop_scheduled_ok budget l s r x rest Hl Hps Hrn Hrest Hr Hid Hs Hn0) as (l' & Hd & H1 & H2 & H3 & H4 & H5 & H6 & H7 & H8).
    exists l'. split; [done|]. split; [done..| |lia]. intros id Hne (Hc1 & Hc2 & _). split; [|split; [|by rewrite Hpol]].
    + destruct (take_remove x id (Datatypes.S (Z.to_nat (req_index l))) (running s) rest Hrest Hrn Hne Hc1) as [_ Htr]. rewrite H5.
      replace (Datatypes.S (Z.to_nat (req_index l - 1))) with (Datatypes.S (Z.to_nat (req_index l)) - 1)%nat by lia. apply Htr.
      destruct Hps as (_ & Hpos & _). specialize (Hpos x Hs). apply elem_of_take in Hpos as (i & Hi & Hlt). apply elem_of_take. exists i. split; [done|lia].
    + intros Hin. apply Hc2. rewrite H7. by right.
  - unfold drop_scheduled. rewrite Hid, decide_False by done. exists l. split; [done|]. destruct Hps as (Hi & Hpos & Hres & Hnew).
    assert (x ∉ od_keys (scheduled_tokens l)) as Hxk by (by rewrite (l_keys _ _ _ Hl), Hres, Hnew, app_nil_r).
    split; [done| | |done|done| |lia].
    + destruct Hl as [H1 H2 H3 H4 H5 H6 H7]. split; try done. simpl. intros id Hd. specialize (H5 id Hd). rewrite Hperm in H5.
      apply elem_of_cons in H5 as [->|?]; done.
    + split; [done|]. split; [|done]. simpl. intros id Hd. by destruct (take_remove x id _ _ _ Hrest Hrn ltac:(by intros ->) (Hpos id Hd)).
    + intros id Hne (Hc1 & Hc2 & _). split; [|split; [done|by rewrite Hpol]]. by destruct (take_remove x id _ _ _ Hrest Hrn Hne Hc1).
Qed.

Lemma last_ranked_elem key best l : last_ranked key best l = best ∨ last_ranked key best l ∈ l.
Proof.
  revert best. induction l as [|x l IH]; intros best; simpl; [by left|]. destruct (IH (if before_rank (key best) (key x) then x else best)) as [->|H].
  - destruct (before_rank _ _); [right; by left|by left].
  - right. by right.
Qed.

(** Last come is first to leave: the last running request was not reached yet. *)
Lemma pop_last_ok budget l s x rest id :
  policy cfg = FCFS → locals_ok budget l s → passed l s → NoDup (running s) → running s = rest ++ [x] → current l s id →
  chosen_out budget l l s x rest.
Proof.
  intros Hpol Hl (Hi & Hpos & Hres & Hnew) Hrn Hs (_ & _ & Hcur). specialize (Hcur Hpol). pose proof (lookup_lt_Some _ _ _ Hcur) as Hlt.
  rewrite Hs, length_app in Hlt. simpl in Hlt. rewrite Hs in Hrn. apply NoDup_app in Hrn as (_ & Hd & _).
  assert (take (Z.to_nat (req_index l)) (running s) = take (Z.to_nat (req_index l)) rest) as Ht by (rewrite Hs, take_app_le by lia; done).
  assert (x ∉ running_reqs l) as Hx.
  { intros Hx. specialize (Hpos x Hx). rewrite Ht in Hpos. apply subseteq_take in Hpos. apply (Hd x); [done|by left]. }
  assert (x ∉ od_keys (scheduled_tokens l)) as Hxk by (by rewrite (l_keys _ _ _ Hl), Hres, Hnew, app_nil_r).
  split; [by rewrite Hs, Permutation_app_comm| | |done|done| |lia].
  - destruct Hl as [H1 H2 H3 H4 H5 H6 H7]. split; try done. simpl. intros id' Hd'. specialize (H5 id' Hd'). rewrite Hs in H5.
    apply elem_of_app in H5 as [?|H5]; [done|]. apply list_elem_of_singleton in H5 as ->. done.
  - split; [done|]. split; [|done]. simpl. intros id' Hid'. rewrite <- Ht. by apply Hpos.
  - intros id' Hne (Hc1 & Hc2 & Hc3). specialize (Hc3 Hpol). rewrite Hs in Hc3.
    assert (rest !! Z.to_nat (req_index l) = Some id') as Hr.
    { destruct (decide (Z.to_nat (req_index l) < length rest)%nat); [by rewrite lookup_app_l in Hc3|].
      exfalso. rewrite lookup_app_r in Hc3 by lia. apply list_lookup_singleton_Some in Hc3 as [_ ?]. by apply Hne. }
    split; [|split; [done|intros _; exact Hr]]. apply elem_of_take. exists (Z.to_nat (req_index l)). split; [exact Hr|lia].
Qed.

Lemma take_lowest_spec sk fresh budget l s id :
  base sk (live_step l) fresh s → locals_ok budget l s → passed l s → current l s id →
  runs (take_lowest cfg l) s (λ p s', ∃ rest, s' = set_running rest s ∧ chosen_out budget l p.2 s p.1 rest).
Proof.
  intros Hb Hl Hps Hcur. unfold take_lowest. runs_step. pose proof (b_nodup _ _ _ _ _ _ Hb) as Hrn. apply NoDup_app in Hrn as (Hrn & _ & _).
  pose proof Hcur as (Hc1 & _). destruct (policy cfg) eqn:Hpol.
  - destruct (last (running s)) as [x|] eqn:Hlast.
    2:{ apply last_None in Hlast. rewrite Hlast, take_nil in Hc1. by apply elem_of_nil in Hc1. }
    apply last_Some in Hlast as [rest Hs]. do 2 runs_step. exists (removelast (running s)). simpl.
    rewrite Hs, removelast_last. split; [done|]. by apply (pop_last_ok budget l s x rest id).
  - destruct (running s) as [|x0 rest0] eqn:Hs; [by rewrite take_nil in Hc1; apply elem_of_nil in Hc1|]. rewrite <- Hs in *.
    set (x := last_ranked _ _ _). assert (x ∈ running s) as Hx.
    { rewrite Hs. unfold x. destruct (last_ranked_elem (key_of s) x0 rest0) as [->|?]; [by left|by right]. }
    destruct (remove_first_perm x _ Hx) as (rest & Hrest & Hperm). apply (runs_lift _ rest); [done|]. runs_step.
    destruct (base_running _ _ _ _ x Hb Hx) as (r & Hr & Hid & _ & _ & _ & Hlive). apply (runs_get_request x r); [done|].
    destruct (drop_spec budget l s r x rest) as (l' & Hd & Hc'); try done.
    { intros n Hn. rewrite Hn in Hlive. destruct Hlive as [? _]. lia. }
    apply (runs_lift _ l'); [done|]. runs_step. by exists rest.
Qed.

(** *** The allocation *)

(** The requests that still run, or all of them while none was preempted, are as they were. *)
Definition undisturbed (l0 l : step (B := B)) (s0 s : t) : Prop :=
  (preempted l = [] → preempted l0 = []) ∧ (∀ id, id ∈ running s → id ∈ running s0)
  ∧ ∀ id, id ∈ running s ∨ preempted l = [] → requests s !! id = requests s0 !! id.

Lemma undisturbed_trans l0 l1 l2 s0 s1 s2 : undisturbed l0 l1 s0 s1 → undisturbed l1 l2 s1 s2 → undisturbed l0 l2 s0 s2.
Proof.
  intros (A1 & A2 & A3) (B1 & B2 & B3). split; [auto|]. split; [auto|]. intros id Hid. rewrite B3 by done. apply A3.
  destruct Hid as [?|?]; [left; auto|right; auto].
Qed.

(** The outcome for the request of the turn. *)
Definition allocated (budget : Z) (sk : list string) (num_new_tokens : Z) (l0 : step (B := B)) (s0 : t) (id : string)
    (o : option B) (l : step (B := B)) (s : t) : Prop :=
  locals_ok budget l s ∧ passed l s ∧ same_inputs s0 s ∧ keeps_fits (enc s0) (enc s) ∧ undisturbed l0 l s0 s
  ∧ zlen (running s) - req_index l ≤ zlen (running s0) - req_index l0 ∧ token_budget l0 ≤ token_budget l
  ∧ match o with
    | None => base sk (live_step l) (preempted l = []) s
    | Some _ =>
        base sk (λ k x r, if decide (x = id) then num_computed_tokens r < num_tokens r ∧ kv_ready k id (num_computed_tokens r + num_new_tokens)
                          else live_step l k x r) (preempted l = []) s
        ∧ current l s id ∧ requests s !! id = requests s0 !! id
    end.

Lemma base_fresh sk live (fresh fresh' : Prop) s : base sk live fresh s → (fresh' → fresh) → base sk live fresh' s.
Proof.
  intros [H1 H2 H3 H4 H5 H6 H7 H8] Hf. split; try done. intros id r Hr. destruct (H3 id r Hr) as [Hid Hp]. split; [done|].
  destruct Hp as [? ? ? ?|? ? ? ? ? Hp|n ? ? ?]; [by apply PRunning|apply PWaiting; auto|by apply (PFinished _ _ _ _ _ _ _ _ n)].
Qed.

(** A call of the cache for one running request. *)
Lemma base_kv_one sk live live' fresh (s : t) k id :
  base sk live fresh s → id ∈ running s → kv_inv k → (∀ id' n, id' ≠ id → kv_ready (kv s) id' n → kv_ready k id' n) →
  (∀ id' r, requests s !! id' = Some r → live (kv s) id' r → live' k id' r) → base sk live' fresh (set_kv k s).
Proof.
  intros Hb Hin Hk Hframe Hlive. destruct (base_running _ _ _ _ id Hb Hin) as (r0 & Hr0 & _). destruct Hb as [H1 H2 H3 H4 H5 H6 H7 H8].
  pose proof H1 as Hnd. apply NoDup_app in Hnd as (_ & Hd & _). split; simpl; try done.
  - intros x r Hr. destruct (H3 x r Hr) as [Hid Hp]. split; [done|]. destruct Hp as [? ? ? ?|? ? ? ? ? ?|n Hn ? ?].
    + apply PRunning; try done. by apply Hlive.
    + apply PWaiting; try done. apply Hframe; [|done]. intros ->. by apply (Hd id).
    + apply (PFinished _ _ _ _ _ _ _ _ n); try done. apply Hframe; [|done]. intros ->. apply Hn, elem_of_app. by left.
  - intros x Hx. apply Hframe; [congruence|by apply H4].
Qed.

Lemma locals_frame budget l s s' : locals_ok budget l s → running s' = running s → same_inputs s s' → locals_ok budget l s'.
Proof.
  intros [H1 H2 H3 H4 H5 H6 (H7 & H8 & H9)] Hr Hs. split; try done; [by rewrite Hr|]. split; [done|]. split; [done|].
  intros id inputs r' Hi Hr'. destruct (Hs id r' Hr') as (r & Hrq & Hm). unfold inputs_ok. rewrite Hm. by apply (H9 id inputs r).
Qed.

Lemma current_running l s id : current l s id → id ∈ running s.
Proof. intros (H & _). by apply subseteq_take in H. Qed.

Lemma current_unscheduled budget l s id : locals_ok budget l s → passed l s → current l s id → od_get id (scheduled_tokens l) = None.
Proof.
  intros Hl (_ & _ & Hres & Hnew) (_ & Hc & _). apply od_get_None. by rewrite (l_keys _ _ _ Hl), Hres, Hnew, app_nil_r.
Qed.

Lemma allocate_or_preempt_spec sk budget n id r fuel l s :
  0 ≤ num_lookahead_tokens cfg → 0 < n → num_computed_tokens r + n < max_model_len cfg →
  base sk (live_step l) (preempted l = []) s → locals_ok budget l s → passed l s → current l s id → requests s !! id = Some r →
  (length (running s) ≤ fuel)%nat →
  runs (allocate_or_preempt cfg fuel id n l) s (λ p s', allocated budget sk n l s id p.1 p.2 s').
Proof.
  intros Hla Hn Hmax. revert l s. induction fuel as [|fuel IH]; intros l s Hb Hl Hps Hcur Hr Hfuel; pose proof (current_running l s id Hcur) as Hin.
  { destruct (running s); [by apply elem_of_nil in Hin|simpl in Hfuel; lia]. }
  destruct (base_running _ _ _ _ id Hb Hin) as (r' & Hr' & Hid & Hst & Hok & Hlt & Hlive). rewrite Hr in Hr'. injection Hr' as <-.
  pose proof (current_unscheduled budget l s id Hl Hps Hcur) as Hno. rewrite Hno in Hlive. cbn [allocate_or_preempt].
  apply (runs_get_request id r); [done|]. apply runs_bind, runs_on_kv. pose proof (r_computed _ _ _ Hok) as Hc0.
  eapply runs_mono; [apply (kv_allocate_law (max_model_len := max_model_len cfg)); rewrite ?Hid; try done; try lia; [by apply b_kv in Hb|apply kv_hits_none|by left]|].
  rewrite Hid, !Z.add_0_r. intros o k (Hk & Hframe & Ho).
  assert (same_inputs s (set_kv k s)) as Hsi by (intros x rx Hrx; by exists rx). destruct o as [b|].
  - runs_step. split; [by apply (locals_frame budget l s)|].
    split; [done|]. split; [done|]. split; [apply keeps_fits_refl|]. split; [done|]. split; [simpl; lia|]. split; [done|]. split; [|done].
    apply (base_kv_one sk (live_step l) _ _ s k id); try done; [intros x m Hx; apply Hframe; by left|]. intros x rx Hrx Hx. case_decide as Hxi; [|by apply (live_step_stable l (kv s)); [intros m; apply Hframe; by left|]].
    subst x. rewrite Hr in Hrx. injection Hrx as <-. split; [done|]. by apply Ho.
  - assert (base sk (live_step l) (preempted l = []) (set_kv k s)) as Hb1.
    { apply base_kv; try done; [intros k1 k2; apply live_step_stable|]. intros x m. apply Hframe. by right. }
    assert (locals_ok budget l (set_kv k s)) as Hl1 by (by apply (locals_frame budget l s)).
    eapply runs_seq; [by apply (take_lowest_spec sk (preempted l = []) budget l (set_kv k s) id)|]. intros [x l1] s1 (rest & -> & Hch). cbn [fst snd] in Hch.
    destruct Hch as [Cp Cl Cps Cout Coth Ccur [Cidx Cbud]].
    eapply runs_seq; [apply (preempt_spec sk (live_step l) (live_step (add_preempted x l1)) _ _ x rest Hb1 Cp); [intros ? ?; apply live_step_ready|]|].
    { intros k1 k2 id' r' Hkk Hne. destruct (Coth id' Hne) as [E1 E2]. unfold live_step. simpl. rewrite E1, E2.
      exact (live_step_stable l k1 k2 id' r' Hkk). }
    intros [] s2 (Hb2 & Hrun2 & Hq2 & Hin2 & Hreq2 & Hfit2). simpl in Hin2, Hreq2, Hfit2.
    assert (zlen (running s2) = zlen (running s) - 1) as Hlen.
    { rewrite Hrun2. unfold zlen. simpl in Cp. rewrite (Permutation_length Cp). simpl. lia. }
    assert (locals_ok budget (add_preempted x l1) s2) as Hl2.
    { apply (locals_frame budget _ (set_running rest (set_kv k s))); [by destruct Cl|done|done]. }
    assert (passed (add_preempted x l1) s2) as Hps2 by (unfold passed; rewrite Hrun2; exact Cps).
    assert (same_inputs s s2) as Hsame by done.
    assert (base sk (live_step (add_preempted x l1)) (preempted (add_preempted x l1) = []) s2) as Hb3.
    { apply (base_fresh _ _ False); [done|]. simpl. by destruct (preempted l1). }
    assert (undisturbed l (add_preempted x l1) s s2) as Hund.
    { split; [simpl; by destruct (preempted l1)|]. rewrite Hrun2. simpl in Cp. pose proof (b_nodup _ _ _ _ _ _ Hb) as Hnd. rewrite Cp in Hnd.
      apply NoDup_cons in Hnd as [Hx _]. split; [intros y Hy; rewrite Cp; by right|]. intros y [Hy|Hy]; [|simpl in Hy; by destruct (preempted l1)].
      rewrite Hreq2; [done|]. intros ->. by apply Hx, elem_of_app; left. }
    case_decide as Hxi.
    + runs_step. do 5 (split; [done|]). split; [simpl; lia|]. split; [simpl; lia|done].
    + eapply runs_mono; [apply (IH (add_preempted x l1) s2)|].
      * done.
      * done.
      * done.
      * unfold current. rewrite Hrun2. apply (Ccur id); [done|exact Hcur].
      * by rewrite Hreq2.
      * unfold zlen in Hlen. lia.
      * intros [o l3] s3 (A1 & A2 & A3 & A6' & A7' & A4 & A4' & A5). cbn [fst snd] in *. split; [done|]. split; [done|]. split; [by apply (same_inputs_trans s s2)|].
        split; [by apply (keeps_fits_trans _ (enc s2))|]. split; [by apply (undisturbed_trans _ (add_preempted x l1) _ _ s2)|]. split; [simpl in A4; lia|]. split; [simpl in A4'; lia|]. destruct o; [|done]. destruct A5 as (A5 & A6 & A7). split; [done|]. split; [done|]. by rewrite A7, Hreq2.
Qed.
End run.
End SchedulerRun.
