(* ===== verification/SchedulerTurn.v ===== *)
(** The loop of [schedule] over the running requests: every turn keeps the scheduler's state
    and the accounts of the step in order, and brings the loop closer to its end. *)
From Stdlib Require Import QArith.
From stdpp Require Import gmap strings.
From S2P Require Export SchedulerRun.
From stdpp Require Import options.
Open Scope Z_scope.

Module SchedulerTurn.
Import SchedRequest Scheduler SchedulerInv SchedulerRun.

Section turn.
Context {K B E C Q : Type} `{!KVCacheOps K B, !EncoderCacheOps E, !KVConnectorOps C B, !RequestQueueOps string Q}.
Context {cfg : config} {has_cache_item : option (string → bool)}.
Context `{!KVCacheLaws K B (max_model_len cfg), !EncoderLaws E (is_encoder_decoder cfg) (disable_chunked_mm_input cfg) has_cache_item,
          !KVConnectorLaws C B, !RequestQueueLaws string Q}.

Abbreviation t := (Scheduler.t K E C Q).
Abbreviation base := (base cfg has_cache_item (K := K) (B := B) (E := E) (C := C) (Q := Q)).
Abbreviation request_ok := (request_ok cfg has_cache_item).
Abbreviation live_step := (live_step (cfg := cfg) (K := K) (B := B)).
Abbreviation locals_ok := (locals_ok (K := K) (B := B) (E := E) (C := C) (Q := Q)).

(** ** Changes of one running request *)

Lemma base_live sk (live live' : K → string → Request → Prop) fresh (s : t) :
  base sk live fresh s → (∀ id r, id ∈ running s → requests s !! id = Some r → live (kv s) id r → live' (kv s) id r) → base sk live' fresh s.
Proof.
  intros [H1 H2 H3 H4 H5 H6 H7 H8] Hl. split; try done. intros id r Hr. destruct (H3 id r Hr) as [Hid Hp]. split; [done|].
  destruct Hp as [? ? ? ?|? ? ? ? ? ?|n ? ? ?]; [apply PRunning; auto|by apply PWaiting|by apply (PFinished _ _ _ _ _ _ _ _ n)].
Qed.

(** The request is assigned to while it runs. *)
Lemma base_alter sk (live live' : K → string → Request → Prop) fresh (s : t) id (f : Request → Request) :
  base sk live fresh s → id ∈ running s →
  (∀ r, requests s !! id = Some r → request_ok r → live (kv s) id r →
     (request_id (f r) = request_id r ∧ status (f r) = status r) ∧ request_ok (f r) ∧ live' (kv s) id (f r)) →
  (∀ id' r, id' ≠ id → live (kv s) id' r → live' (kv s) id' r) →
  base sk live' fresh (set_requests (alter f id (requests s)) s).
Proof.
  intros Hb Hin Hid Hothers. destruct (base_running _ _ _ _ id Hb Hin) as (r0 & Hr0 & Hid0 & Hst0 & Hok0 & Hl0). destruct Hb as [H1 H2 H3 H4 H5 H6 H7 H8].
  destruct (Hid r0 Hr0 Hok0 Hl0) as ([Hf1 Hf2] & Hok & Hl). split; simpl; try done.
  - intros x Hx. rewrite lookup_alter_is_Some. by apply H2.
  - intros x rx. destruct (decide (x = id)) as [->|Hx].
    + rewrite lookup_alter_eq, Hr0. intros [= <-]. split; [by rewrite Hf1|]. apply PRunning; simpl; try done. by rewrite Hf2.
    + rewrite lookup_alter_ne by done. intros Hrx. destruct (H3 x rx Hrx) as [Hidx Hp]. split; [done|].
      destruct Hp as [? ? ? ?|? ? ? ? ? ?|n ? ? ?]; [apply PRunning; auto|by apply PWaiting|by apply (PFinished _ _ _ _ _ _ _ _ n)].
  - intros x. destruct (decide (x = id)) as [->|Hx]; [by rewrite lookup_alter_eq, Hr0|]. rewrite lookup_alter_ne by done. apply H4.
Qed.

(** ** The accounts of a request that is scheduled *)

(** A request that runs gets [n] tokens of the budget. *)
Lemma locals_take budget l s id b n news res run pre spec' i :
  locals_ok budget l s → od_get id (scheduled_tokens l) = None → id ∈ running s → 0 ≤ n ≤ token_budget l →
  run ++ res ++ news ≡ₚ id :: running_reqs l ++ resumed_reqs l ++ new_reqs l →
  od_wf spec' → (∀ x, x ∈ od_keys spec' → x = id ∨ x ∈ od_keys (spec_decode l)) →
  locals_ok budget (Step news res run pre (od_set id b (req_to_new_blocks l)) (od_set id n (scheduled_tokens l)) (token_budget l - n)
    (encoder_inputs l) (encoder_budget l) spec' i) s.
Proof.
  intros [[Hb1 Hb2] Hnd Hkeys Hblocks Hsub [Hsp1 Hsp2] He] Hno Hin Hn Hlists Hwf Hspec'.
  assert (od_get id (req_to_new_blocks l) = None) as Hnob by (apply od_get_None; rewrite Hblocks; by apply od_get_None).
  assert (od_keys (od_set id n (scheduled_tokens l)) = od_keys (scheduled_tokens l) ++ [id]) as Hk.
  { rewrite od_keys_set. unfold od_mem. by rewrite Hno. }
  assert (od_keys (od_set id b (req_to_new_blocks l)) = od_keys (req_to_new_blocks l) ++ [id]) as Hk'.
  { rewrite od_keys_set. unfold od_mem. by rewrite Hnob. }
  split; simpl; rewrite ?Hk, ?Hk'.
  - rewrite (sum_tokens_set id n _ Hno). lia.
  - rewrite <- Hk. by apply (od_wf_set id n).
  - rewrite Hlists, <- Hkeys. by rewrite Permutation_app_comm.
  - by rewrite Hblocks.
  - intros x [Hx|Hx%list_elem_of_singleton]%elem_of_app; [by apply Hsub|by subst].
  - split; [done|]. intros x Hx. apply elem_of_app. destruct (Hspec' x Hx) as [->|Hx']; [right; by left|left; by apply Hsp2].
  - done.
Qed.

(** The encoder inputs that a request gets. *)
Lemma locals_encoder budget l s id inputs new_budget r :
  locals_ok budget l s → requests s !! id = Some r → inputs_ok r inputs → 0 ≤ new_budget → locals_ok budget (set_encoder id inputs new_budget l) s.
Proof.
  intros [H1 H2 H3 H4 H5 H6 (He1 & He2 & He3)] Hr Hin Hb. split; try done. destruct inputs as [|i inputs]; simpl; [done|]. split; [by apply od_wf_set|].
  split; [done|]. intros x ins rx. destruct (decide (x = id)) as [->|Hx].
  - rewrite od_get_set, Hr. by intros [= <-] [= <-].
  - rewrite od_get_set_ne by done. apply He3.
Qed.

(** The draft tokens that are scheduled with a request. *)
Definition spec_after (r : Request) (n : Z) (d : list (string * list Z)) : list (string * list Z) :=
  match spec_token_ids r with [] => d | _ => scheduled_spec r n d end.

Lemma spec_after_keys r n d : od_wf d → od_wf (spec_after r n d) ∧ ∀ x, x ∈ od_keys (spec_after r n d) → x = request_id r ∨ x ∈ od_keys d.
Proof.
  intros Hd. unfold spec_after, scheduled_spec. destruct (spec_token_ids r) as [|t ts]; [by auto|]. destruct (0 <? _); [|by auto].
  split; [by apply od_wf_set|]. intros x. rewrite od_keys_set. destruct (od_mem _ _); [by auto|]. rewrite elem_of_app, list_elem_of_singleton. tauto.
Qed.

Lemma spec_after_ne r n d x : x ≠ request_id r → od_get x (spec_after r n d) = od_get x d.
Proof. intros Hx. unfold spec_after, scheduled_spec. destruct (spec_token_ids r); [done|]. destruct (0 <? _); [by apply od_get_set_ne|done]. Qed.

(** The tokens that are scheduled are known ones, and then the draft tokens. *)
Lemma spec_after_len r n d :
  od_get (request_id r) d = None → num_output_placeholders r = 0 → num_computed_tokens r + n ≤ num_tokens_with_spec r →
  let drafts := zlen (default [] (od_get (request_id r) (spec_after r n d))) in
  num_computed_tokens r + n ≤ num_tokens r + drafts ∧ (0 < drafts → num_computed_tokens r + n = num_tokens r + drafts).
Proof.
  intros Hd Hp. unfold num_tokens_with_spec, spec_after, scheduled_spec. rewrite Hp. destruct (spec_token_ids r) as [|t ts] eqn:Hs.
  - rewrite Hd. simpl. unfold num_tokens. change (zlen []) with 0. lia.
  - set (k := n + _ - _ - 0). destruct (Z.ltb_spec 0 k) as [Hk|Hk].
    + rewrite od_get_set. cbn [default from_option id]. assert (∀ m, 0 ≤ m ≤ zlen (t :: ts) → zlen (py_slice (t :: ts) 0 m) = m) as Hlen.
      { intros m Hm. rewrite py_slice_0 by lia. unfold zlen in *. rewrite length_take. lia. }
      unfold num_tokens in *. destruct (Z.ltb_spec k (zlen (t :: ts))) as [Hlt|Hge]; [rewrite Hlen by lia|]; lia.
    + rewrite Hd. cbn [default from_option id]. change (zlen []) with 0. unfold num_tokens in *. lia.
Qed.

(** ** How many tokens *)

Lemma mamba_split_ok r n local :
  0 < cache_block_size cfg → 0 ≤ n → ∃ n', mamba_block_aligned_split cfg r n local 0 = Ok n' ∧ 0 ≤ n' ≤ n.
Proof.
  intros Hbs Hn. unfold mamba_block_aligned_split. cbn [rassert Z.eqb rbind]. destruct (_ <? Z.max _ _); [|exists n; split; [done|lia]].
  unfold py_mod, py_div. rewrite (proj2 (Z.eqb_neq _ 0)) by lia. cbn [rbind]. set (last := if use_eagle cfg then _ else _).
  destruct (_ <? last) eqn:E1.
  - eexists. split; [reflexivity|]. pose proof (Z.div_pos n (cache_block_size cfg) Hn Hbs). pose proof (Z.mul_div_le n _ Hbs). nia.
  - destruct ((_ <? last) && _) eqn:E2; [|exists n; split; [done|lia]]. eexists. split; [reflexivity|].
    apply andb_true_iff in E2 as [E2 E3]. apply Z.ltb_lt in E2, E3. lia.
Qed.

Lemma capped_bounds n : 0 < n → 0 < capped cfg n ≤ n.
Proof. intros Hn. unfold capped. destruct (Z.ltb_spec 0 (long_prefill_token_threshold cfg)); simpl; [|lia]. destruct (Z.ltb_spec (long_prefill_token_threshold cfg) n); lia. Qed.

Lemma running_tokens_bounds r budget :
  request_ok r → num_computed_tokens r < num_tokens r → 0 < budget →
  let n := running_num_new_tokens cfg r budget in
  0 < n ≤ budget ∧ num_computed_tokens r + n ≤ num_tokens_with_spec r ∧ num_computed_tokens r + n < max_model_len cfg.
Proof.
  intros Hok Hc Hb. unfold running_num_new_tokens. destruct (r_tokens _ _ _ Hok) as [_ Ht]. rewrite (r_placeholders _ _ _ Hok).
  assert (0 ≤ zlen (spec_token_ids r)) by apply zlen_nonneg. assert (num_tokens_with_spec r = num_tokens r + zlen (spec_token_ids r)) as Hw by done.
  destruct (capped_bounds (num_tokens_with_spec r + 0 - num_computed_tokens r)); lia.
Qed.

(** ** The encoder inputs *)

(** The chosen inputs fit; none fit always. *)
Definition chosen_inputs (e : E) (r : Request) (inputs external : list Z) : Prop :=
  enc_fits e (mm_of r) inputs external ∨ (inputs = [] ∧ external = []).

Lemma chosen_inputs_ok e r inputs external : request_ok r → chosen_inputs e r inputs external → inputs_ok r inputs.
Proof. intros Hok [Hf|[-> _]]; [|by constructor]. by apply (enc_fits_inputs e (mm_of r) inputs external); [apply Hok|]. Qed.

Lemma chosen_inputs_kept e e' r inputs external :
  keeps_fits (cfg := cfg) (has_cache_item := has_cache_item) e e' → chosen_inputs e r inputs external → chosen_inputs e' r inputs external.
Proof. intros Hk [Hf|He]; [left; by apply Hk|by right]. Qed.

Lemma schedule_encoder_spec r c n budget (s : t) :
  enc_inv (enc s) → request_ok r → 0 ≤ n → 0 ≤ budget →
  runs (schedule_encoder_inputs cfg has_cache_item r c n budget) s (λ p s',
    ∃ e, s' = set_enc e s ∧ enc_inv e ∧ 0 ≤ p.1.1.2 ≤ n ∧ 0 ≤ p.1.2 ∧ chosen_inputs e r p.1.1.1 p.2 ∧ (has_encoder_inputs r = false → p.1.1.2 = n)).
Proof.
  intros He Hok Hn Hb. unfold schedule_encoder_inputs. destruct (has_encoder_inputs r).
  - apply runs_on_enc. eapply runs_mono; [apply (enc_try_law (enc s) (mm_of r)); try done; [apply Hok|unfold shift; destruct (use_eagle cfg); lia]|].
    intros [[[inputs n'] nb] ext] e (He' & Hn' & Hnb & Hf). exists e. split; [done|]. split; [done|]. split; [done|]. split; [done|]. split; [by left|done].
  - apply runs_ret. exists (enc s). simpl. split; [by destruct s|]. split; [done|]. split; [lia|]. split; [done|]. split; [by right|done].
Qed.

Lemma allocate_chosen (s : t) r inputs external :
  enc_inv (enc s) → request_ok r → chosen_inputs (enc s) r inputs external →
  runs (on_enc (EncoderSchedule.allocate_inputs (mm_of r) inputs external)) s (λ _ s', ∃ e, s' = set_enc e s ∧ enc_inv e).
Proof.
  intros He Hok Hc. apply runs_on_enc. destruct Hc as [Hf|[-> ->]].
  - eapply runs_mono; [apply (enc_allocate_law (enc s) (mm_of r) inputs external); try done; apply Hok|]. intros [] e He'. by exists e.
  - exists tt, (enc s). split; [done|]. by exists (enc s).
Qed.

(** ** One turn *)

(** The computed tokens of some requests have not become fewer. *)
Definition grown (P : string → Prop) (s0 s : t) : Prop :=
  ∀ id r0 r, P id → requests s0 !! id = Some r0 → requests s !! id = Some r → num_computed_tokens r0 ≤ num_computed_tokens r.

(** What every turn keeps; [s0] is the state that the step began with. *)
Definition turn_inv sk budget (s0 : t) (l : step (B := B)) (s : t) : Prop :=
  base sk (live_step l) (preempted l = []) s ∧ locals_ok budget l s ∧ passed l s ∧ grown (λ id, id ∈ running s ∨ preempted l = []) s0 s.

(** How far the loop is from its end. *)
Definition distance (l : step (B := B)) (s : t) : Z := zlen (running s) - req_index l.

Lemma grown_undisturbed (s0 : t) (l l1 : step (B := B)) (s s1 : t) :
  undisturbed l l1 s s1 → grown (λ id, id ∈ running s ∨ preempted l = []) s0 s → grown (λ id, id ∈ running s1 ∨ preempted l1 = []) s0 s1.
Proof.
  intros (U1 & U2 & U3) Hgr id r0 r Hid Hr0. rewrite U3 by done. apply Hgr; [|done]. destruct Hid as [?|?]; [left; auto|right; auto].
Qed.

Lemma passed_skip (l : step (B := B)) (s : t) : passed l s → passed (set_req_index (req_index l + 1) l) s.
Proof.
  intros (Hi & Hpos & Hrest). split; [simpl; lia|]. split; [|done]. simpl. intros x Hx. specialize (Hpos x Hx).
  apply elem_of_take in Hpos as (i & Hl & Hlt). apply elem_of_take. exists i. split; [done|lia].
Qed.

Lemma turn_skip sk budget s0 l s : turn_inv sk budget s0 l s → turn_inv sk budget s0 (set_req_index (req_index l + 1) l) s.
Proof. intros (Hb & [H1 H2 H3 H4 H5 H6 H7] & Hp & Hgr). split; [done|]. split; [by split|]. split; [by apply passed_skip|done]. Qed.

(** The request of the turn gets its tokens. *)
Lemma take_running_inv sk budget s0 n id r b l s :
  base sk (λ k x r, if decide (x = id) then num_computed_tokens r < num_tokens r ∧ kv_ready k id (num_computed_tokens r + n) else live_step l k x r)
    (preempted l = []) s →
  locals_ok budget l s → passed l s → current (cfg := cfg) l s id → requests s !! id = Some r → request_id r = id → num_output_placeholders r = 0 →
  0 < n ≤ token_budget l → num_computed_tokens r + n ≤ num_tokens_with_spec r → num_computed_tokens r + n < max_model_len cfg →
  grown (λ id, id ∈ running s ∨ preempted l = []) s0 s → turn_inv sk budget s0 (take_running r n b l) s.
Proof.
  intros Hb Hl Hps Hcur Hr Hid Hph Hn Hw Hmax Hgr. pose proof (current_unscheduled budget l s id Hl Hps Hcur) as Hno.
  pose proof (current_running l s id Hcur) as Hin. destruct (l_spec _ _ _ Hl) as [Hsp1 Hsp2].
  assert (od_get id (spec_decode l) = None) as Hnos. { apply od_get_None. intros Hx. apply Hsp2 in Hx. by apply od_get_None in Hno. }
  pose proof (spec_after_len r n (spec_decode l) ltac:(by rewrite Hid) Hph Hw) as Hlen. rewrite Hid in Hlen. split; [|split; [|split; [|done]]].
  - unfold take_running. rewrite Hid. eapply base_live; [exact Hb|]. intros x rx Hxr Hrx Hlx. unfold SchedulerRun.live_step. simpl.
    fold (spec_after r n (spec_decode l)). cbn beta in Hlx. destruct (decide (x = id)) as [Hx|Hx].
    + subst x. rewrite Hr in Hrx. injection Hrx as <-. rewrite od_get_set. destruct Hlx as [Hlt Hrd]. destruct Hlen as [Hn1 Hn2]. split; [done|]. split; [lia|]. by split.
    + rewrite od_get_set_ne, spec_after_ne by (rewrite ?Hid; done). exact Hlx.
  - unfold take_running. rewrite Hid. destruct (spec_after_keys r n _ Hsp1) as [Hwf Hks]. rewrite Hid in Hks. apply locals_take; try done; [lia|].
    rewrite <- app_assoc. simpl. by rewrite <- Permutation_middle.
  - destruct Hps as (Hi & Hpos & Hrest). split; [simpl; lia|]. split; [|done]. simpl. rewrite Hid. destruct Hcur as (Hcur & _).
    replace (Z.to_nat (req_index l + 1)) with (Datatypes.S (Z.to_nat (req_index l))) by lia.
    intros x [Hx|Hx%list_elem_of_singleton]%elem_of_app; [|by subst]. specialize (Hpos x Hx).
    apply elem_of_take in Hpos as (i & Hix & Hlt). apply elem_of_take. exists i. split; [done|lia].
Qed.

(** Its draft tokens are used up, and its encoder inputs are allocated. *)
Lemma finish_turn sk budget s0 inputs external new_budget id r l (s : t) :
  turn_inv sk budget s0 l s → id ∈ running s → requests s !! id = Some r → chosen_inputs (enc s) r inputs external → 0 ≤ new_budget →
  runs ((match spec_token_ids r with [] => ret tt | _ => update_request id (set_spec_token_ids []) end) ;;;
        let* l := take_encoder_inputs id inputs external new_budget l in ret (false, l)) s
    (λ p s', p.1 = false ∧ turn_inv sk budget s0 p.2 s' ∧ distance p.2 s' = distance l s).
Proof.
  intros (Hb & Hl & Hp & Hgr) Hin Hr Hch Hnb. destruct (base_running _ _ _ _ id Hb Hin) as (r' & Hr' & Hid & Hst & Hok & Hlive). rewrite Hr in Hr'. injection Hr' as <-.
  set (P := λ (_ : unit) (s1 : t), base sk (live_step l) (preempted l = []) s1 ∧ running s1 = running s ∧ enc s1 = enc s ∧ same_inputs s s1
    ∧ grown (λ id, id ∈ running s ∨ preempted l = []) s0 s1 ∧ ∃ r1, requests s1 !! id = Some r1 ∧ mm_of r1 = mm_of r ∧ request_ok r1). apply (runs_seq _ _ _ P).
  { unfold P. destruct (spec_token_ids r) as [|tk ts]; [apply runs_ret; split; [done|]; split; [done|]; split; [done|]; split; [apply same_inputs_refl|]; split; [done|by exists r]|].
    unfold update_request. runs_step. split.
    - apply (base_alter sk (live_step l)); try done. intros r0 Hr0 [R1 R2 R3 R4 R5 R6 R7 R8] Hl0. split; [done|]. split; [by split|done].
    - split; [done|]. split; [done|]. split; [by apply (same_inputs_alter (set_spec_token_ids []) id)|]. split.
      { intros x r0 rx Hx Hr0. simpl. destruct (decide (x = id)) as [->|Hne]; [|rewrite lookup_alter_ne by done; by apply Hgr].
        rewrite lookup_alter_eq, Hr. intros [= <-]. by apply (Hgr id r0 r). }
      exists (set_spec_token_ids [] r). simpl. rewrite lookup_alter_eq, Hr. split; [done|]. split; [done|]. by destruct Hok. }
  intros [] s1 (Hb1 & Hrun1 & He1 & Hsame1 & Hgr1 & r1 & Hr1 & Hm1 & Hok1). unfold take_encoder_inputs. apply runs_bind.
  apply (runs_get_request id r1); [done|]. apply runs_bind. rewrite Hm1. rewrite <- He1 in Hch.
  eapply runs_mono; [apply (allocate_chosen s1 r inputs external); try done; by apply b_enc in Hb1|]. intros [] s2 (e & -> & He). do 2 runs_step.
  split; [done|]. assert (inputs_ok r1 inputs) as Hi1. { unfold inputs_ok. rewrite Hm1. by apply (chosen_inputs_ok (enc s1) r inputs external). }
  split; [|unfold distance; simpl; by rewrite Hrun1]. split; [|split; [|split]].
  - apply base_enc; [|done]. eapply base_live; [exact Hb1|]. by intros x rx.
  - apply (locals_frame budget _ s1); [|done|by apply same_inputs_eq]. apply (locals_encoder budget l s1 id inputs new_budget r1); try done.
    by apply (locals_frame budget l s).
  - unfold passed. simpl. rewrite Hrun1. exact Hp.
  - intros x r0 rx Hx. apply Hgr1. simpl in Hx. by rewrite Hrun1 in Hx.
Qed.

Lemma split_or_all r n local :
  good_config cfg → 0 ≤ n →
  ∃ n', (if need_mamba_block_aligned_split cfg then lift (S := t) (mamba_block_aligned_split cfg r n local 0) else ret n) = ret n' ∧ 0 ≤ n' ≤ n.
Proof.
  intros Hg Hn. destruct (need_mamba_block_aligned_split cfg) eqn:Em; [|exists n; split; [done|lia]].
  destruct (mamba_split_ok r n local) as (n' & Hn' & Hb); [by apply g_mamba in Hg|done|]. exists n'. by rewrite Hn'.
Qed.

(** The turn from the choice of the tokens on. *)
Lemma turn_alloc sk budget s0 n id r inputs external new_budget l (s : t) :
  good_config cfg → turn_inv sk budget s0 l s → current (cfg := cfg) l s id → requests s !! id = Some r → 
  0 < n ≤ token_budget l → num_computed_tokens r + n ≤ num_tokens_with_spec r → num_computed_tokens r + n < max_model_len cfg →
  chosen_inputs (enc s) r inputs external → 0 ≤ new_budget →
  runs (let* (new_blocks, l) := allocate_or_preempt cfg (length (running s)) id n l in
        match new_blocks with
        | None => ret (true, l)
        | Some b =>
            let l := take_running r n b l in
            (match spec_token_ids r with [] => ret tt | _ => update_request id (set_spec_token_ids []) end) ;;;
            let* l := take_encoder_inputs id inputs external new_budget l in ret (false, l)
        end) s
    (λ p s', turn_inv sk budget s0 p.2 s' ∧ (p.1 = false → distance p.2 s' < distance l s)).
Proof.
  intros Hg (Hb & Hl & Hp & Hgr) Hcur Hr Hn Hw Hmax Hch Hnb. pose proof (current_running l s id Hcur) as Hin.
  destruct (base_running _ _ _ _ id Hb Hin) as (r' & Hr' & Hid & _ & Hok & _). rewrite Hr in Hr'. injection Hr' as <-.
  eapply runs_seq; [apply (allocate_or_preempt_spec (cfg := cfg) sk budget n id r); try done; [apply g_lookahead, Hg|lia]|].
  intros [[b|] l1] s1 (A1 & A2 & A3 & A4 & U & A5 & A5' & A6); cbn [fst snd] in *;
    assert (grown (λ id, id ∈ running s1 ∨ preempted l1 = []) s0 s1) as Hgr1 by (by apply (grown_undisturbed s0 l l1 s)).
  - destruct A6 as (B1 & B2 & B3). rewrite Hr in B3. pose proof (current_running l1 s1 id B2) as Hin1.
    assert (turn_inv sk budget s0 (take_running r n b l1) s1) as Hinv.
    { apply (take_running_inv sk budget s0 n id r b l1 s1); try done; [apply Hok|lia]. }
    eapply runs_mono; [apply (finish_turn sk budget s0 inputs external new_budget id r (take_running r n b l1) s1); try done; by apply (chosen_inputs_kept (enc s))|].
    intros [stop l2] s2 (-> & Hinv2 & Hd). cbn [fst snd] in *. split; [done|]. intros _. rewrite Hd. unfold distance in *. simpl. lia.
  - runs_step. by split.
Qed.

Lemma turn_inv_enc sk budget s0 l (s : t) e : turn_inv sk budget s0 l s → enc_inv e → turn_inv sk budget s0 l (set_enc e s).
Proof.
  intros (Hb & Hl & Hp & Hgr) He. split; [by apply base_enc|]. split; [|done].
  apply (locals_frame budget l s); [done|done|]. by apply same_inputs_eq.
Qed.

Lemma running_turn_spec sk budget s0 l (s : t) :
  good_config cfg → turn_inv sk budget s0 l s → req_index l < zlen (running s) → 0 < token_budget l →
  runs (running_turn cfg has_cache_item l) s (λ p s', turn_inv sk budget s0 p.2 s' ∧ (p.1 = false → distance p.2 s' < distance l s)).
Proof.
  intros Hg Hinv Hi Hbud. pose proof Hinv as (Hb & Hl & Hp & _). pose proof Hp as (Hi0 & Hpos & _).
  destruct (lookup_lt_is_Some_2 (running s) (Z.to_nat (req_index l))) as [id Hid]; [unfold zlen in Hi; lia|].
  pose proof (list_elem_of_lookup_2 _ _ _ Hid) as Hin.
  assert (current (cfg := cfg) l s id) as Hcur.
  { split; [apply elem_of_take; exists (Z.to_nat (req_index l)); split; [done|lia]|]. split; [|done]. intros Hx. specialize (Hpos id Hx).
    apply elem_of_take in Hpos as (j & Hj & Hlt). pose proof (b_nodup _ _ _ _ _ _ Hb) as Hnd. apply NoDup_app in Hnd as (Hnd & _).
    pose proof (NoDup_lookup _ _ _ _ Hnd Hid Hj). lia. }
  destruct (base_running _ _ _ _ id Hb Hin) as (r & Hr & Hrid & Hst & Hok & Hlt & _). unfold running_turn. runs_step.
  apply (runs_lift _ id); [by rewrite py_index_nonneg, Hid|]. apply (runs_get_request id r); [done|].
  assert (turn_inv sk budget s0 (set_req_index (req_index l + 1) l) s ∧ distance (set_req_index (req_index l + 1) l) s < distance l s) as [Hskip Hskipd].
  { split; [by apply turn_skip|unfold distance; simpl; lia]. }
  destruct (reached_max_tokens r); [by runs_step|]. destruct (running_tokens_bounds r (token_budget l) Hok Hlt Hbud) as (Hn & Hw & Hmax).
  eapply runs_seq; [apply schedule_encoder_spec; [by apply b_enc in Hb|done|lia|by apply (l_enc _ _ _ Hl)]|].
  intros [[[inputs n] nb] external] s1 (e & -> & He & Hne & Hnb & Hch & _). cbn [fst snd] in *.
  destruct (split_or_all r n 0 Hg) as (n' & -> & Hn'); [lia|]. runs_step.
  pose proof (turn_inv_enc _ _ _ _ _ e Hskip He) as Hskip1. destruct (Z.eqb_spec n' 0) as [_|Hnz]; [runs_step; by split|].
  eapply runs_mono; [apply (turn_alloc sk budget s0 n' id r inputs external nb l (set_enc e s)); try done; [by apply turn_inv_enc|lia|lia|lia]|].
  intros [stop l'] s'. done.
Qed.

(** The loop ends within its fuel, the number of running requests. *)
Lemma running_loop_spec sk budget s0 fuel l (s : t) :
  good_config cfg → turn_inv sk budget s0 l s → distance l s ≤ Z.of_nat fuel →
  runs (running_loop cfg has_cache_item fuel l) s (λ l' s', turn_inv sk budget s0 l' s').
Proof.
  intros Hg. revert l s. induction fuel as [|fuel IH]; intros l s Hinv Hd; simpl; runs_step.
  - destruct (Z.ltb_spec (req_index l) (zlen (running s))); [unfold distance in Hd; lia|]. simpl. by runs_step.
  - destruct ((req_index l <? _) && _) eqn:Eg; [|by runs_step]. apply andb_true_iff in Eg as [E1 E2]. apply Z.ltb_lt in E1, E2.
    eapply runs_seq; [by apply (running_turn_spec sk budget s0 l s)|]. intros [stop l1] s1 [Hinv1 Hd1]. cbn [fst snd] in *.
    destruct stop; [by runs_step|]. apply IH; [done|]. specialize (Hd1 eq_refl). lia.
Qed.
End turn.
End SchedulerTurn.
