(* ===== verification/SchedulerWait.v ===== *)
(** The loop of [schedule] over the waiting requests: every turn takes the head of the queue,
    which is skipped, or starts to run with slots for its tokens, or ends the loop. *)
From Stdlib Require Import QArith.
From stdpp Require Import gmap strings.
From S2P Require Export SchedulerTurn.
From stdpp Require Import options.
Open Scope Z_scope.

Module SchedulerWait.
Import SchedRequest Scheduler SchedulerInv SchedulerRun SchedulerTurn.

Section wait.
Context {K B E C Q : Type} `{!KVCacheOps K B, !EncoderCacheOps E, !KVConnectorOps C B, !RequestQueueOps string Q}.
Context {cfg : config} (grammar_ready : string → bool) {has_cache_item : option (string → bool)}.
Context `{!KVCacheLaws K B (max_model_len cfg), !EncoderLaws E (is_encoder_decoder cfg) (disable_chunked_mm_input cfg) has_cache_item,
          !KVConnectorLaws C B, !RequestQueueLaws string Q}.

Abbreviation t := (Scheduler.t K E C Q).
Abbreviation base := (base cfg has_cache_item (K := K) (B := B) (E := E) (C := C) (Q := Q)).
Abbreviation placed := (placed cfg has_cache_item (K := K) (B := B) (E := E) (C := C) (Q := Q)).
Abbreviation request_ok := (request_ok cfg has_cache_item).
Abbreviation live_step := (live_step (cfg := cfg) (K := K) (B := B)).
Abbreviation locals_ok := (locals_ok (K := K) (B := B) (E := E) (C := C) (Q := Q)).

(** ** Changes of a waiting request *)

(** The assignments to a waiting request that leave it in order. *)
Definition keeps_waiting (f : Request → Request) : Prop :=
  ∀ r, request_id (f r) = request_id r ∧ mm_of (f r) = mm_of r ∧ num_computed_tokens (f r) = num_computed_tokens r
       ∧ all_token_ids (f r) = all_token_ids r
       ∧ (waits (status r) → waits (status (f r))) ∧ (status (f r) = PREEMPTED → status r = PREEMPTED)
       ∧ (request_ok r → request_ok (f r)).

Lemma base_alter_waiting sk live fresh (s : t) id f :
  base sk live fresh s → id ∈ queue_elements (waiting s) ++ sk → keeps_waiting f →
  base sk live fresh (set_requests (alter f id (requests s)) s).
Proof.
  intros Hb Hin Hf. destruct (base_waiting _ _ _ _ id Hb Hin) as (r & Hr & Hid & Hw & Hok & Hc & Hk & Hp).
  destruct Hb as [H1 H2 H3 H4 H5 H6 H7 H8]. destruct (Hf r) as (F1 & F2 & F3 & F4 & F5 & F6 & F7). split; simpl; try done.
  - intros x Hx. rewrite lookup_alter_is_Some. by apply H2.
  - intros x rx. destruct (decide (x = id)) as [->|Hx].
    + rewrite lookup_alter_eq, Hr. intros [= <-]. split; [by rewrite F1|]. apply PWaiting; simpl; auto; by rewrite F3.
    + rewrite lookup_alter_ne by done. intros Hrx. destruct (H3 x rx Hrx) as [Hidx Hp']. split; [done|].
      destruct Hp' as [? ? ? ?|? ? ? ? ? ?|n ? ? ?]; [by apply PRunning|by apply PWaiting|by apply (PFinished _ _ _ _ _ _ _ _ n)].
  - intros x. destruct (decide (x = id)) as [->|Hx]; [by rewrite lookup_alter_eq, Hr|]. rewrite lookup_alter_ne by done. apply H4.
Qed.

(** What a turn leaves alone until the head of the queue starts. *)
Definition same_queues (s s' : t) : Prop :=
  running s' = running s ∧ waiting s' = waiting s ∧ prev_step_scheduled_req_ids s' = prev_step_scheduled_req_ids s ∧ same_inputs s s'
  ∧ ∀ id, num_computed_tokens <$> requests s' !! id = num_computed_tokens <$> requests s !! id.

Lemma same_queues_eq (s s' : t) :
  running s' = running s → waiting s' = waiting s → prev_step_scheduled_req_ids s' = prev_step_scheduled_req_ids s → requests s' = requests s → same_queues s s'.
Proof. intros H1 H2 H3 H4. do 3 (split; [done|]). split; [by apply same_inputs_eq|]. intros id. by rewrite H4. Qed.

Lemma same_queues_refl s : same_queues s s.
Proof. by apply same_queues_eq. Qed.

Lemma same_queues_trans s1 s2 s3 : same_queues s1 s2 → same_queues s2 s3 → same_queues s1 s3.
Proof.
  intros (A1 & A2 & A3 & A4 & A5) (B1 & B2 & B3 & B4 & B5). split; [congruence|]. split; [congruence|]. split; [congruence|].
  split; [by apply (same_inputs_trans _ s2)|]. intros id. by rewrite B5.
Qed.

Lemma same_queues_alter (s : t) id f : keeps_waiting f → same_queues s (set_requests (alter f id (requests s)) s).
Proof.
  intros Hf. do 3 (split; [done|]). split.
  - apply (same_inputs_alter f id); [|done]. intros r. by destruct (Hf r) as (_ & ? & _).
  - intros x. simpl. destruct (decide (x = id)) as [->|Hx]; [rewrite lookup_alter_eq|by rewrite lookup_alter_ne].
    destruct (requests s !! id) as [r|]; [|done]. simpl. by destruct (Hf r) as (_ & _ & -> & _).
Qed.

Lemma same_queues_grown P s0 s s' : same_queues s s' → grown P s0 s → grown P s0 s'.
Proof.
  intros (_ & _ & _ & _ & Hc) Hg id r0 r Hid Hr0 Hr. specialize (Hc id). rewrite Hr in Hc. simpl in Hc.
  destruct (requests s !! id) as [r1|] eqn:Hr1; [|done]. injection Hc as ->. by apply (Hg id r0 r1).
Qed.

(** ** Whether the head is ready *)

Lemma set_waiting_status_keeps : keeps_waiting (set_status WAITING).
Proof. intros r. do 4 (split; [done|]). split; [by left|]. split; [done|]. by intros []. Qed.

Lemma set_external_keeps n : keeps_waiting (set_num_external_computed_tokens n).
Proof. intros r. do 6 (split; [done|]). by intros []. Qed.

Lemma not_ready_spec sk live fresh (s : t) id loras :
  base sk live fresh s → id ∈ queue_elements (waiting s) →
  runs (not_ready cfg grammar_ready id loras) s (λ skip s', base sk live fresh s' ∧ same_queues s s'
    ∧ ∃ r, requests s' !! id = Some r ∧ (skip = false → status r = WAITING ∨ status r = PREEMPTED)).
Proof.
  intros Hb Hin. assert (id ∈ queue_elements (waiting s) ++ sk) as Hin' by (apply elem_of_app; by left).
  destruct (base_waiting _ _ _ _ id Hb Hin') as (r & Hr & Hid & Hw & _). unfold not_ready. apply (runs_get_request id r); [done|].
  rewrite decide_False by (destruct Hw as [->|[->| ->]]; done). runs_step. apply (runs_get_request id r); [done|].
  case_decide as Hf.
  - destruct (use_structured_output r && grammar_ready id).
    + unfold update_request. runs_step. apply (runs_get_request id (set_status WAITING r)); [simpl; by rewrite lookup_alter_eq, Hr|]. runs_step.
      split; [by apply base_alter_waiting; [| |apply set_waiting_status_keeps]|]. split; [by apply same_queues_alter, set_waiting_status_keeps|].
      exists (set_status WAITING r). simpl. rewrite lookup_alter_eq, Hr. split; [done|]. intros _. by left.
    + runs_step. split; [done|]. split; [apply same_queues_refl|]. by exists r.
  - rewrite decide_False by (destruct Hw as [->|[->| ->]]; done). runs_step. split; [done|]. split; [apply same_queues_refl|]. exists r.
    split; [done|]. intros _. destruct Hw as [->|[?| ->]]; [by left|done|by right].
Qed.

(** ** The tokens that are computed already *)

(** A prefix that was found: part of it in the cache, part of it by the connector. *)
Definition prefix_found (s : t) (id : string) (c : B * Z * Z * bool * Z) : Prop :=
  let '(blocks, local, ext, load_kv_async, num_computed) := c in
  load_kv_async = false ∧ num_computed = local + ext ∧ 0 ≤ local ∧ 0 ≤ ext
  ∧ (need_mamba_block_aligned_split cfg = true → ext = 0)
  ∧ ∃ r, requests s !! id = Some r ∧ kv_hits (kv s) r blocks local ∧ num_computed < num_tokens r.

Lemma connector_prefix sk live fresh (s : t) id r local :
  base sk live fresh s → requests s !! id = Some r → 0 ≤ local < num_tokens r →
  runs (on_connector (Some 0, false) (get_num_new_matched_tokens r local)) s (λ p s',
    base sk live fresh s' ∧ same_queues s s' ∧ requests s' = requests s ∧ kv s' = kv s ∧ (connector s' = None ↔ connector s = None) ∧ p.2 = false
    ∧ ∀ ext, p.1 = Some ext → 0 ≤ ext ∧ local + ext < num_tokens r ∧ (need_mamba_block_aligned_split cfg = true → ext = 0)).
Proof.
  intros Hb Hr Hl. apply runs_on_connector.
  - intros Hn. split; [done|]. split; [apply same_queues_refl|]. do 4 (split; [done|]). intros ext [= <-]. split; [lia|]. split; [lia|done].
  - intros c Hc. destruct (b_conn _ _ _ _ _ _ Hb c Hc) as [Hci Hm]. eapply runs_mono; [by apply (conn_matched_law c r local)|].
    intros [o a] c' (Hci' & Ha & He). cbn [fst snd] in *. split; [by apply base_connector|].
    split; [by apply same_queues_eq|]. split; [done|]. split; [done|]. split; [simpl; by rewrite Hc|]. split; [done|].
    intros ext Hx. destruct (He ext Hx). split; [done|]. split; [done|]. by rewrite Hm.
Qed.

Lemma computed_prefix_spec sk live fresh (s : t) id :
  stable live → base sk live fresh s → id ∈ queue_elements (waiting s) →
  runs (computed_prefix id) s (λ o s', base sk live fresh s' ∧ same_queues s s' ∧ (∀ c, o = Some c → prefix_found s' id c)
    ∧ ∀ r, requests s !! id = Some r → ∃ r', requests s' !! id = Some r' ∧ status r' = status r).
Proof.
  intros Hst Hb Hin. assert (id ∈ queue_elements (waiting s) ++ sk) as Hin' by (apply elem_of_app; by left).
  destruct (base_waiting _ _ _ _ id Hb Hin') as (r & Hr & Hid & Hw & Hok & Hc & Hk & _). unfold computed_prefix.
  apply (runs_get_request id r); [done|]. rewrite Hc. cbn [Z.eqb]. apply runs_bind, runs_on_kv. destruct (r_tokens _ _ _ Hok) as [Ht _].
  eapply runs_mono; [apply (kv_computed_law (max_model_len := max_model_len cfg) (kv s) r); [by apply b_kv in Hb|by rewrite Hid|apply (r_tokens _ _ _ Hok)]|].
  intros [blocks local] k (Hki & Hkr & Hhits & Hl0 & Hl1). cbn [fst snd] in *.
  assert (base sk live fresh (set_kv k s)) as Hb1 by (by apply base_kv).
  eapply runs_seq; [apply (connector_prefix sk live fresh (set_kv k s) id r local); [done|done|lia]|].
  intros [o a] s1 (Hb2 & Hq & Hrq & Hkv & Hcn & Ha & He). cbn [fst snd] in *. subst a. assert (same_queues s s1) as Hq' by exact Hq.
  destruct o as [ext|]; [|runs_step; split; [done|]; split; [done|]; split; [done|]; intros r0 Hr0; exists r0; by rewrite Hrq].
  destruct (He ext eq_refl) as (He1 & He2 & He3). runs_step. simpl in Hrq, Hkv.
  assert (∀ r', requests s1 !! id = Some r' ∨ Some (set_num_external_computed_tokens ext r) = Some r' → kv_hits (kv s1) r' blocks local ∧ local + ext < num_tokens r') as Hfound.
  { intros r' [Hr'|[= <-]]; rewrite Hkv; [rewrite Hrq, Hr in Hr'; by injection Hr' as <-|]. split; [by apply (kv_hits_same k r)|done]. }
  assert (id ∈ queue_elements (waiting s1) ++ sk) as Hin1. { destruct Hq' as (_ & -> & _). done. }
  destruct (connector s1) as [c|].
  - unfold update_request. do 2 runs_step. split; [by apply base_alter_waiting; [| |apply set_external_keeps]|].
    split; [by eapply same_queues_trans; [exact Hq'|apply same_queues_alter, set_external_keeps]|]. simpl. rewrite lookup_alter_eq, Hrq, Hr. simpl.
    split; [|intros r0 [= <-]; by eexists]. intros c' [= <-]. do 5 (split; [done|]). exists (set_num_external_computed_tokens ext r).
    split; [simpl; by rewrite lookup_alter_eq, Hr|].
    apply Hfound. by right.
  - do 2 runs_step. split; [done|]. split; [done|]. rewrite Hrq, Hr. split; [|intros r0 [= <-]; by eexists]. intros c' [= <-]. do 5 (split; [done|]).
    exists r. split; [by rewrite Hrq|]. apply Hfound. left. by rewrite Hrq.
Qed.

(** ** The queue *)

(** What every turn keeps. *)
Definition wait_inv (budget : Z) (s0 : t) (w : wstep (B := B) (Q := Q)) (s : t) : Prop :=
  let '(l, _, skipped) := w in
  base (queue_elements skipped) (live_step l) True s ∧ locals_ok budget l s ∧ preempted l = []
  ∧ (∀ id, id ∈ resumed_reqs l → id ∉ prev_step_scheduled_req_ids s) ∧ grown (λ _, True) s0 s.

Lemma base_queue sk sk' live fresh (s : t) q :
  base sk live fresh s → queue_elements q ++ sk' ≡ₚ queue_elements (waiting s) ++ sk → base sk' live fresh (set_waiting q s).
Proof.
  intros [H1 H2 H3 H4 H5 H6 H7 H8] Hq. split; simpl; try done; [by rewrite Hq|intros id; rewrite Hq; apply H2|].
  intros id r Hr. destruct (H3 id r Hr) as [Hid Hp]. split; [done|]. destruct Hp as [? ? ? ?|? ? ? ? ? ?|n ? ? ?].
  - by apply PRunning.
  - apply PWaiting; try done. simpl. by rewrite Hq.
  - apply (PFinished _ _ _ _ _ _ _ _ n); try done. simpl. by rewrite Hq.
Qed.

Lemma peek_head (s : t) id : peek_request (waiting s) = Ok id →
  ∃ q, pop_request (key_of s) (waiting s) = Ok (id, q) ∧ queue_elements (waiting s) ≡ₚ id :: queue_elements q ∧ queue_len q < queue_len (waiting s).
Proof.
  intros Hp. pose proof (pop_elements (key_of s) (waiting s)) as H. rewrite Hp in H. destruct H as (q & Hq & Hperm). exists q.
  split; [done|]. split; [done|]. rewrite !queue_len_elements. unfold zlen. rewrite (Permutation_length Hperm). simpl. lia.
Qed.

Lemma skip_head_spec budget s0 w (s : t) id :
  wait_inv budget s0 w s → peek_request (waiting s) = Ok id →
  runs (skip_head w) s (λ p s', wait_inv budget s0 p.2 s' ∧ queue_len (waiting s') < queue_len (waiting s)).
Proof.
  destruct w as [[l loras] skipped]. intros (Hb & Hl & Hp & Hres & Hgr) Hpeek. destruct (peek_head s id Hpeek) as (q & Hpop & Hperm & Hlen).
  unfold skip_head. runs_step. apply (runs_lift _ (id, q)); [done|]. do 3 runs_step. split; [|done]. split.
  - apply (base_queue (queue_elements skipped)); [done|]. rewrite prepend_elements, Hperm. simpl. by rewrite <- Permutation_middle.
  - split; [by apply (locals_frame budget l s); [| |apply same_inputs_eq]|done].
Qed.

(** ** The head of the queue starts to run *)

Definition started (num_computed : Z) (r : Request) : Request :=
  let r := set_num_computed_tokens num_computed (set_status RUNNING r) in
  if num_cached_tokens r <? 0 then set_num_cached_tokens num_computed r else r.

Lemma started_ok n r : 0 ≤ n < num_tokens r → request_ok r → request_ok (started n r).
Proof. intros [Hn Hlt] [H1 H2 H3 H4 H5 H6 H7 H8 H9]. unfold started. destruct (_ <? 0); by split. Qed.

Lemma started_same n r :
  request_id (started n r) = request_id r ∧ status (started n r) = RUNNING ∧ num_computed_tokens (started n r) = n
  ∧ num_tokens (started n r) = num_tokens r ∧ mm_of (started n r) = mm_of r.
Proof. unfold started. by destruct (_ <? 0). Qed.

(** The request moves from the queue to the running ones. *)
Lemma base_start sk live live' (s s' : t) id f r :
  base sk live True s → requests s !! id = Some r →
  queue_elements (waiting s) ≡ₚ id :: queue_elements (waiting s') → running s' = running s ++ [id] → requests s' = alter f id (requests s) →
  prev_step_scheduled_req_ids s' = prev_step_scheduled_req_ids s → zlen (running s) < max_num_running_reqs cfg →
  kv_inv (kv s') → (∀ id' m, id' ≠ id → kv_ready (kv s) id' m → kv_ready (kv s') id' m) → enc_inv (enc s') →
  (∀ c, connector s' = Some c → conn_inv c ∧ need_mamba_block_aligned_split cfg = false) →
  request_id (f r) = id → status (f r) = RUNNING → request_ok (f r) → live' (kv s') id (f r) →
  (∀ id' r', id' ≠ id → live (kv s) id' r' → live' (kv s') id' r') → base sk live' True s'.
Proof.
  intros [H1 H2 H3 H4 H5 H6 H7 H8] Hr Hq Hrun Hreq Hprev Hlen Hk Hframe He Hc Fid Fst Fok Flive Hlive.
  assert (running s' ++ queue_elements (waiting s') ++ sk ≡ₚ running s ++ queue_elements (waiting s) ++ sk) as Hall.
  { rewrite Hrun, Hq, <- app_assoc. done. }
  split; try done; rewrite ?Hreq.
  - by rewrite Hall.
  - intros x. rewrite Hall, lookup_alter_is_Some. apply H2.
  - intros x rx. destruct (decide (x = id)) as [->|Hx].
    + rewrite lookup_alter_eq, Hr. intros [= <-]. split; [done|]. apply PRunning; try done. rewrite Hrun. apply elem_of_app. right. by left.
    + rewrite lookup_alter_ne by done. intros Hrx. destruct (H3 x rx Hrx) as [Hidx Hp]. split; [done|]. destruct Hp as [Hi ? ? ?|Hi ? ? ? ? ?|n Hi ? ?].
      * apply PRunning; auto. rewrite Hrun. apply elem_of_app. by left.
      * apply PWaiting; auto; [|by rewrite Hprev]. rewrite Hq in Hi. by apply elem_of_cons in Hi as [?|?].
      * apply (PFinished _ _ _ _ _ _ _ _ n); auto. by rewrite Hall.
  - intros x. destruct (decide (x = id)) as [->|Hx]; [by rewrite lookup_alter_eq, Hr|]. rewrite lookup_alter_ne by done. auto.
  - rewrite Hrun. unfold zlen in *. rewrite length_app. simpl. lia.
Qed.

Lemma start_running_spec id r num_computed n inputs new_budget external l loras skipped (s : t) :
  requests s !! id = Some r → status r = WAITING ∨ status r = PREEMPTED → request_ok r → enc_inv (enc s) → chosen_inputs (enc s) r inputs external →
  runs (start_running cfg id num_computed n (inputs, new_budget, external) (l, loras, skipped)) s (λ w s', ∃ e b loras',
    enc_inv e ∧ w = (set_encoder id inputs new_budget (take_waiting id (bool_decide (status r = PREEMPTED)) b n l), loras', skipped)
    ∧ s' = set_enc e (set_requests (alter (started num_computed) id (requests s)) (set_running (running s ++ [id]) s))).
Proof.
  intros Hr Hst Hok He Hch. unfold start_running. runs_step. apply (runs_get_request id r); [done|].
  assert ((match status r with WAITING => ret (S := t) false | PREEMPTED => ret true | _ => raise RuntimeError end)
    = ret (bool_decide (status r = PREEMPTED))) as -> by (by destruct Hst as [->| ->]).
  do 2 runs_step. unfold update_request. do 2 runs_step. cbn [set_requests set_running requests running].
  unfold take_encoder_inputs. apply runs_bind, runs_bind.
  set (s1 := set_requests _ _). destruct (started_same num_computed r) as (_ & _ & _ & _ & Hmm).
  assert (requests s1 = alter (started num_computed) id (requests s)) as Hreq by (unfold s1; simpl; by rewrite alter_alter_eq).
  exists (started num_computed r), s1. split; [unfold get_request, bind, get_st, lift; by rewrite Hreq, lookup_alter_eq, Hr|].
  apply runs_bind. rewrite Hmm. eapply runs_mono; [by apply (allocate_chosen s1 r inputs external)|]. intros [] s2 (e & -> & He'). do 2 runs_step.
  eexists e, _, _. split; [done|]. split; [reflexivity|]. unfold s1. simpl. by rewrite alter_alter_eq.
Qed.

(** The accounts after the head of the queue got its tokens. *)
Lemma locals_waiting budget l (s s' : t) id b n inputs new_budget r resumed f :
  locals_ok budget l s → od_get id (scheduled_tokens l) = None → 0 ≤ n ≤ token_budget l → 0 ≤ new_budget →
  running s' = running s ++ [id] → requests s' = alter f id (requests s) → (∀ r, mm_of (f r) = mm_of r) → requests s !! id = Some r → inputs_ok r inputs →
  locals_ok budget (set_encoder id inputs new_budget (take_waiting id resumed b n l)) s'.
Proof.
  intros [H1 H2 H3 H4 H5 H6 H7] Hno Hn Hnb Hrun Hreq Hmm Hr Hin.
  assert (locals_ok budget l s') as Hl.
  { split; try done; [intros x Hx; rewrite Hrun; apply elem_of_app; left; by apply H5|]. destruct H7 as (E1 & E2 & E3). split; [done|]. split; [done|].
    intros x ins rx Hg Hrx. destruct (same_inputs_alter f id s s' Hmm Hreq x rx Hrx) as (r0 & Hr0 & Hm0). unfold inputs_ok. rewrite Hm0. by apply (E3 x ins r0). }
  apply (locals_encoder budget _ s' id inputs new_budget (f r)); [|by rewrite Hreq, lookup_alter_eq, Hr|unfold inputs_ok; by rewrite Hmm|done].
  apply locals_take; try done; [rewrite Hrun; apply elem_of_app; right; by left| |by apply H6|by right].
  destruct resumed; [rewrite <- app_assoc|rewrite (Permutation_app_comm (new_reqs l) [id])]; simpl;
    by rewrite <- (Permutation_middle (resumed_reqs l)), <- Permutation_middle.
Qed.

(** What else a request that runs needs in this step. *)
Lemma live_started l id b n inputs new_budget resumed num_computed r k :
  od_get id (spec_decode l) = None → 0 < n → num_computed + n ≤ num_tokens r → num_computed < num_tokens r → request_ok r →
  kv_ready k id (num_computed + n) → live_step (set_encoder id inputs new_budget (take_waiting id resumed b n l)) k id (started num_computed r).
Proof.
  intros Hsp Hn Hle Hlt Hok Hk. destruct (started_same num_computed r) as (_ & _ & Hc & Ht & _). destruct (r_tokens _ _ _ Hok).
  unfold SchedulerRun.live_step. rewrite Hc, Ht. split; [done|]. simpl. rewrite od_get_set, Hsp. simpl. change (zlen []) with 0. repeat split; try done; lia.
Qed.

(** A waiting request is not among the scheduled ones. *)
Lemma waiting_unscheduled sk live fresh budget l (s : t) id :
  base sk live fresh s → locals_ok budget l s → id ∈ queue_elements (waiting s) → od_get id (scheduled_tokens l) = None ∧ od_get id (spec_decode l) = None.
Proof.
  intros Hb Hl Hin. assert (id ∉ od_keys (scheduled_tokens l)) as Hk.
  { intros Hx%(l_sub _ _ _ Hl). pose proof (b_nodup _ _ _ _ _ _ Hb) as Hnd. apply NoDup_app in Hnd as (_ & Hd & _). apply (Hd id Hx), elem_of_app. by left. }
  split; apply od_get_None; [done|]. intros Hx. by apply (l_spec _ _ _ Hl) in Hx.
Qed.

(** The head of the queue has its slots: it leaves the queue and runs. *)
Lemma allocated_waiting budget s0 l loras skipped (s : t) k id r num_computed n inputs new_budget external bl ext :
  wait_inv budget s0 (l, loras, skipped) s → peek_request (waiting s) = Ok id → requests s !! id = Some r → status r = WAITING ∨ status r = PREEMPTED →
  chosen_inputs (enc s) r inputs external → 0 ≤ new_budget → 0 < n ≤ token_budget l → 0 ≤ num_computed → num_computed + n ≤ num_tokens r →
  zlen (running s) < max_num_running_reqs cfg → kv_inv k → (∀ id' m, id' ≠ id → kv_ready (kv s) id' m → kv_ready k id' m) → kv_ready k id (num_computed + n) →
  runs (on_connector tt (update_state_after_alloc r bl ext) ;;;
        let* s := get_st in
        let* (id, waiting') := lift (pop_request (key_of s) (waiting s)) in
        modify (set_waiting waiting') ;;;
        let* w := start_running cfg id num_computed n (inputs, new_budget, external) (l, loras, skipped) in ret (false, w)) (set_kv k s)
    (λ p s', wait_inv budget s0 p.2 s' ∧ (p.1 = false → queue_len (waiting s') < queue_len (waiting s))).
Proof.
  intros (Hb & Hl & Hpre & Hres & Hgr) Hpeek Hr Hst Hch Hnb Hn Hc0 Hc Hlen Hk Hframe Hready.
  destruct (peek_head s id Hpeek) as (q & Hpop & Hperm & Hql). assert (id ∈ queue_elements (waiting s)) as Hin by (rewrite Hperm; by left).
  destruct (base_waiting _ _ _ _ id Hb ltac:(apply elem_of_app; by left)) as (r' & Hr' & Hid & _ & Hok & Hrc & _ & Hnp). rewrite Hr in Hr'. injection Hr' as <-.
  destruct (waiting_unscheduled _ _ _ _ _ _ id Hb Hl Hin) as [Hno Hnos].
  apply (runs_seq _ _ _ (λ _ s1, ∃ c, s1 = set_connector c (set_kv k s) ∧ ∀ c', c = Some c' → conn_inv c' ∧ need_mamba_block_aligned_split cfg = false)).
  { apply runs_on_connector; [intros Hcn; exists None; split; [by destruct s; simpl in *; subst|done]|]. intros c Hcn.
    destruct (b_conn _ _ _ _ _ _ Hb c Hcn) as [Hci Hm]. eapply runs_mono; [by apply conn_update_law|]. intros [] c' Hc'. exists (Some c'). split; [done|]. by intros ? [= <-]. }
  intros [] s1 (c & -> & Hci). runs_step. apply (runs_lift _ (id, q)); [exact Hpop|]. runs_step.
  eapply runs_seq; [apply (start_running_spec id r num_computed n inputs new_budget external l loras skipped); try done; by apply b_enc in Hb|].
  intros w s2 (e & b & loras' & He & -> & ->). runs_step. cbn [fst snd]. split; [|done].
  destruct (started_same num_computed r) as (S1 & S2 & S3 & S4 & S5).
  set (l' := set_encoder _ _ _ _). split; [|split; [|split; [by unfold l'|split]]].
  - eapply (base_start (queue_elements skipped) (live_step l) (live_step l') s _ id (started num_computed) r); try done; [by rewrite S1|apply started_ok; [lia|done]| |].
    + apply live_started; try done; lia.
    + intros x rx Hx Hlx. unfold SchedulerRun.live_step, l' in *. simpl in *. rewrite od_get_set_ne by done.
      exact (live_step_stable l (kv s) k x rx (λ m, Hframe x m Hx) Hlx).
  - apply (locals_waiting budget l s _ id b n inputs new_budget r _ (started num_computed)); try done; [lia|by intros r0; apply started_same|].
    by apply (chosen_inputs_ok (enc s) r inputs external).
  - unfold l'. simpl. intros x. destruct (bool_decide (status r = PREEMPTED)) eqn:Ep; [|apply Hres]. intros [?|Hx%list_elem_of_singleton]%elem_of_app; [by apply Hres|].
    subst x. apply bool_decide_eq_true in Ep. by apply Hnp.
  - intros x r0 rx _ Hr0. simpl. destruct (decide (x = id)) as [->|Hx]; [rewrite lookup_alter_eq, Hr|rewrite lookup_alter_ne by done; by apply Hgr].
    intros [= <-]. rewrite S3. specialize (Hgr id r0 r I Hr0 Hr). lia.
Qed.

Lemma sum_encoder_tokens r inputs :
  inputs_ok r inputs →
  ∃ m, (if is_encoder_decoder cfg && has_encoder_inputs r then lift (S := t) (sum_embeds r inputs) else ret 0) = ret m.
Proof. intros Hi. destruct (sum_embeds_ok r inputs Hi) as (m & Hm & _). destruct (_ && _); [exists m; by rewrite Hm|by exists 0]. Qed.

Lemma allocate_waiting_spec budget s0 w (s : t) id c inputs n new_budget external r :
  wait_inv budget s0 w s → peek_request (waiting s) = Ok id → prefix_found s id c → requests s !! id = Some r → status r = WAITING ∨ status r = PREEMPTED →
  chosen_inputs (enc s) r inputs external → 0 ≤ new_budget → 0 < n ≤ token_budget w.1.1 → c.2 + n ≤ num_tokens r →
  zlen (running s) < max_num_running_reqs cfg →
  runs (allocate_waiting cfg id c (inputs, n, new_budget, external) w) s
    (λ p s', wait_inv budget s0 p.2 s' ∧ (p.1 = false → queue_len (waiting s') < queue_len (waiting s))).
Proof.
  destruct w as [[l loras] skipped], c as [[[[blocks local] ext] load_kv_async] num_computed].
  intros Hw Hpeek (-> & -> & Hl0 & He0 & _ & r' & Hr' & Hhits & Hlt) Hr Hst Hch Hnb Hn Hle Hlen. cbn [fst snd] in *.
  rewrite Hr in Hr'. injection Hr' as <-. pose proof Hw as (Hb & Hl & Hpre & Hres & Hgr). destruct (peek_head s id Hpeek) as (q & _ & Hperm & _).
  destruct (base_waiting _ _ _ _ id Hb) as (r' & Hr' & Hid & _ & Hok & Hc & Hk0 & _); [apply elem_of_app; left; rewrite Hperm; by left|].
  rewrite Hr in Hr'. injection Hr' as <-. unfold allocate_waiting. apply (runs_get_request id r); [done|].
  destruct (sum_encoder_tokens r inputs) as [m ->]; [by apply (chosen_inputs_ok (enc s) r inputs external)|]. runs_step. rewrite Hc. cbn [Z.eqb].
  pose proof (kv_allocate_law (max_model_len := max_model_len cfg) (kv s) r n local blocks 0 ext false m) as Hlaw. cbv zeta in Hlaw. rewrite Hc, Hid in Hlaw.
  destruct (r_tokens _ _ _ Hok) as [_ Ht].
  apply runs_bind, runs_on_kv. eapply runs_mono; [apply Hlaw; [by apply b_kv in Hb|done|by right|lia..]|]. clear Hlaw. intros [b|] k (Hk & Hframe & Ho).
  - apply runs_get_st. eapply runs_mono; [apply (allocated_waiting budget s0 l loras skipped s k id r (local + ext) n inputs new_budget external); try done; try lia;
      [intros x m' Hx; apply Hframe; by left|replace (local + ext + n) with (0 + local + ext + n) by lia; by apply Ho]|]. by intros [stop w'] s'.
  - assert (base (queue_elements skipped) (live_step l) True (set_kv k s)) as Hb1
      by (apply base_kv; try done; [intros k1 k2; apply live_step_stable|intros x m'; apply Hframe; by right]).
    apply (runs_seq _ _ _ (λ _ s1, ∃ e, s1 = set_enc e (set_kv k s) ∧ enc_inv e)).
    { destruct (has_encoder_inputs r); [|apply runs_ret; exists (enc s); split; [by destruct s|by apply b_enc in Hb]].
      apply runs_on_enc. eapply runs_mono; [apply (enc_free_law (enc s)); [by apply b_enc in Hb|apply Hok]|]. intros [] e [He _]. by exists e. }
    intros [] s1 (e & -> & He). runs_step. split; [|done]. split; [by apply base_enc|]. split; [|done].
    apply (locals_frame budget l s); [done|done|by apply same_inputs_eq].
Qed.

(** ** One turn, and the loop *)

Lemma wait_inv_same budget s0 (w : wstep (B := B) (Q := Q)) (s s' : t) :
  wait_inv budget s0 w s → same_queues s s' → base (queue_elements w.2) (live_step w.1.1) True s' → wait_inv budget s0 w s'.
Proof.
  destruct w as [[l loras] skipped]. intros (Hb & Hl & Hp & Hres & Hgr) HQ Hb'. pose proof HQ as (Q1 & Q2 & Q3 & Q4 & _). split; [done|].
  split; [by apply (locals_frame budget l s)|]. split; [done|]. split; [by rewrite Q3|by apply (same_queues_grown _ s0 s)].
Qed.

Lemma waiting_tokens_spec r num_computed (l : step (B := B)) (s : t) :
  enc_inv (enc s) → request_ok r → num_computed < num_tokens r → 0 < token_budget l → 0 ≤ encoder_budget l →
  runs (waiting_num_new_tokens cfg has_cache_item r num_computed l) s (λ o s', ∃ e, s' = set_enc e s ∧ enc_inv e
    ∧ ∀ inputs n nb external, o = Some (inputs, n, nb, external) →
        0 < n ≤ token_budget l ∧ num_computed + n ≤ num_tokens r ∧ 0 ≤ nb ∧ chosen_inputs e r inputs external).
Proof.
  intros He Hok Hlt Hb Heb. unfold waiting_num_new_tokens. destruct (negb _ && _).
  { runs_step. exists (enc s). split; [by destruct s|]. by split. }
  destruct (capped_bounds (cfg := cfg) (num_tokens r - num_computed)) as [Hc1 Hc2]; [lia|].
  apply runs_passert; [apply Z.ltb_lt; lia|]. eapply runs_seq; [apply schedule_encoder_spec; try done; lia|].
  intros [[[inputs n] nb] external] s1 (e & -> & He' & Hn & Hnb & Hch & Hall). cbn [fst snd] in *.
  destruct (has_encoder_inputs r && (n =? 0)) eqn:E0; runs_step; exists e; (split; [done|]; split; [done|]); [done|]. intros ? ? ? ? [= <- <- <- <-].
  split; [|split; [lia|done]]. destruct (has_encoder_inputs r); [simpl in E0; apply Z.eqb_neq in E0; lia|rewrite Hall by done; lia].
Qed.

(** The head of the queue is ready and its computed prefix is known. *)
Lemma waiting_head_spec budget s0 (w : wstep (B := B) (Q := Q)) (s : t) id c r :
  good_config cfg → wait_inv budget s0 w s → peek_request (waiting s) = Ok id → prefix_found s id c → requests s !! id = Some r →
  status r = WAITING ∨ status r = PREEMPTED → 0 < token_budget w.1.1 → zlen (running s) < max_num_running_reqs cfg →
  runs (let '(computed_blocks, local, ext, load_kv_async, num_computed) := c in
        let* r := get_request id in
        let* p := (if load_kv_async : bool then passert (0 <? ext) ;;; ret (Some ([], 0, encoder_budget w.1.1, []))
                   else waiting_num_new_tokens cfg has_cache_item r num_computed w.1.1) in
        match p with
        | None => ret (true, w)
        | Some (inputs, num_new_tokens, new_budget, external) =>
            let* num_new_tokens' :=
              (if need_mamba_block_aligned_split cfg then lift (mamba_block_aligned_split cfg r num_new_tokens local ext) else ret num_new_tokens) in
            if need_mamba_block_aligned_split cfg && (num_new_tokens' =? 0) then ret (true, w)
            else allocate_waiting cfg id c (inputs, num_new_tokens', new_budget, external) w
        end) s
    (λ p s', wait_inv budget s0 p.2 s' ∧ (p.1 = false → queue_len (waiting s') < queue_len (waiting s))).
Proof.
  intros Hg Hw Hpeek Hpf Hr Hst Hbud Hlen. destruct c as [[[[blocks local] ext] load_kv_async] num_computed].
  pose proof Hpf as (Ha & Hnc & Hl0 & He0 & Hm & r' & Hr' & Hhits & Hlt). rewrite Hr in Hr'. injection Hr' as <-. rewrite Ha.
  destruct w as [[l loras] skipped]. pose proof Hw as (Hb & Hl & Hp & Hres & Hgr). cbn [fst snd] in *. destruct (peek_head s id Hpeek) as (q & _ & Hperm & _).
  destruct (base_waiting _ _ _ _ id Hb) as (r' & Hr' & _ & _ & Hok & _); [apply elem_of_app; left; rewrite Hperm; by left|].
  rewrite Hr in Hr'. injection Hr' as <-. apply (runs_get_request id r); [done|].
  eapply runs_seq; [apply waiting_tokens_spec; try done; [by apply b_enc in Hb|by apply (l_enc _ _ _ Hl)]|]. intros o s1 (e & -> & He & Ho).
  assert (wait_inv budget s0 (l, loras, skipped) (set_enc e s)) as Hw1.
  { eapply wait_inv_same; [exact Hw| |by apply base_enc]. by apply same_queues_eq. }
  destruct o as [[[[inputs n] nb] external]|]; [|by runs_step]. destruct (Ho _ _ _ _ eq_refl) as (Hn & Hle & Hnb & Hch).
  assert (∃ n', (if need_mamba_block_aligned_split cfg then lift (S := t) (mamba_block_aligned_split cfg r n local ext) else ret n) = ret n'
    ∧ (need_mamba_block_aligned_split cfg && (n' =? 0) = false → 0 < n' ≤ n)) as (n' & -> & Hn').
  { destruct (need_mamba_block_aligned_split cfg) eqn:Em; [|exists n; split; [done|lia]]. rewrite (Hm eq_refl).
    destruct (mamba_split_ok (cfg := cfg) r n local) as (n' & Hn' & Hb'); [by apply g_mamba in Hg|lia|]. exists n'. rewrite Hn'. split; [done|].
    simpl. intros Hz. apply Z.eqb_neq in Hz. lia. }
  runs_step. destruct (_ && (n' =? 0)) eqn:E0; [by runs_step|]. specialize (Hn' eq_refl).
  eapply runs_mono; [apply (allocate_waiting_spec budget s0 (l, loras, skipped) (set_enc e s) id _ inputs n' nb external r); try done; simpl; try lia|done].
  do 5 (split; [done|]). by exists r.
Qed.

Lemma waiting_turn_spec budget s0 (w : wstep (B := B) (Q := Q)) (s : t) :
  good_config cfg → wait_inv budget s0 w s → 0 < queue_len (waiting s) → 0 < token_budget w.1.1 → zlen (running s) < max_num_running_reqs cfg →
  runs (waiting_turn cfg grammar_ready has_cache_item w) s
    (λ p s', wait_inv budget s0 p.2 s' ∧ (p.1 = false → queue_len (waiting s') < queue_len (waiting s))).
Proof.
  intros Hg Hw Hql Hbud Hlen. pose proof (pop_elements (key_of s) (waiting s)) as Hpop.
  destruct (peek_request (waiting s)) as [id|] eqn:Hpeek.
  2:{ destruct Hpop as (_ & _ & Hnil). rewrite queue_len_elements, Hnil in Hql. by change (0 < 0) in Hql. }
  destruct (peek_head s id Hpeek) as (q & _ & Hperm & _). assert (id ∈ queue_elements (waiting s)) as Hin by (rewrite Hperm; by left).
  destruct w as [[l loras] skipped]. pose proof Hw as (Hb & Hl & Hp & Hres & Hgr). unfold waiting_turn. runs_step. apply (runs_lift _ id); [done|].
  eapply runs_seq; [by apply (not_ready_spec _ _ _ s id loras Hb)|]. intros skip s1 (Hb1 & Hq1 & r & Hr & Hst).
  pose proof (wait_inv_same _ _ _ _ _ Hw Hq1 Hb1) as Hw1. pose proof Hq1 as (R1 & W1 & _). rewrite <- W1 in Hpeek, Hin. rewrite <- W1.
  destruct skip; [eapply runs_mono; [by apply (skip_head_spec budget s0 (l, loras, skipped) s1 id)|]; intros [? ?] ? [? ?]; done|].
  eapply runs_seq; [apply (computed_prefix_spec _ _ _ s1 id (live_step_stable l) Hb1 Hin)|]. intros o s2 (Hb2 & Hq2 & Hpf & Hst2).
  pose proof (wait_inv_same _ _ _ _ _ Hw1 Hq2 Hb2) as Hw2. pose proof Hq2 as (R2 & W2 & _). rewrite <- W2 in Hpeek. rewrite <- W2.
  destruct o as [c|]; [|eapply runs_mono; [by apply (skip_head_spec budget s0 (l, loras, skipped) s2 id)|]; intros [? ?] ? [? ?]; done].
  destruct (Hst2 r Hr) as (r2 & Hr2 & Hs2). specialize (Hst eq_refl). rewrite <- Hs2 in Hst.
  pose proof (waiting_head_spec budget s0 (l, loras, skipped) s2 id c r2 Hg Hw2 Hpeek (Hpf c eq_refl) Hr2 Hst Hbud) as H.
  rewrite R2, R1 in H. destruct c as [[[[blocks local] ext] a] nc]. exact (H Hlen).
Qed.

(** The loop ends within its fuel, the length of the queue. *)
Lemma waiting_loop_spec budget s0 fuel w (s : t) :
  good_config cfg → wait_inv budget s0 w s → queue_len (waiting s) ≤ Z.of_nat fuel →
  runs (waiting_loop cfg grammar_ready has_cache_item fuel w) s (λ w' s', wait_inv budget s0 w' s').
Proof.
  intros Hg. revert w s. induction fuel as [|fuel IH]; intros w s Hw Hf; simpl; runs_step.
  - destruct (Z.ltb_spec 0 (queue_len (waiting s))); [lia|]. simpl. by runs_step.
  - destruct (_ && _) eqn:Ec; [|by runs_step]. apply andb_true_iff in Ec as [[E1 E2]%andb_true_iff E3]. apply Z.ltb_lt in E1, E2.
    apply negb_true_iff, Z.eqb_neq in E3. assert (zlen (running s) < max_num_running_reqs cfg) as Hlen.
    { destruct w as [[l loras] skipped]. destruct Hw as (Hb & _). pose proof (b_len _ _ _ _ _ _ Hb). lia. }
    eapply runs_seq; [by apply (waiting_turn_spec budget s0 w s)|]. intros [stop w1] s1 [Hw1 Hd]. cbn [fst snd] in *.
    destruct stop; [by runs_step|]. apply IH; [done|]. specialize (Hd eq_refl). lia.
Qed.
End wait.
End SchedulerWait.
