(* ===== verification/SchedulerFrame.v ===== *)
(** What [schedule] leaves alone, whatever it meets: no request appears, disappears or changes
    its text; the finished requests are those of before until they are reported. *)
From Stdlib Require Import QArith.
From stdpp Require Import gmap strings.
From S2P Require Export Runs Scheduler.
From stdpp Require Import options.
Open Scope Z_scope.

Module SchedulerFrame.
Import SchedRequest Scheduler.

(** Statements that always keep a preorder on the states, also when they raise. *)
Section always.
Context {S : Type} (R : relation S) `{!PreOrder R}.

Definition always {A} (m : py S A) : Prop := ∀ s, R s (m s).2.

Lemma always_ret {A} (a : A) : always (ret a).
Proof using PreOrder0. by intros s. Qed.

Lemma always_lift {A} (r : result A) : always (lift r).
Proof using PreOrder0. by intros s. Qed.

Lemma always_get_st : always get_st.
Proof using PreOrder0. by intros s. Qed.

Lemma always_bind {A B} (m : py S A) (k : A → py S B) : always m → (∀ a, always (k a)) → always (bind m k).
Proof using PreOrder0.
  intros Hm Hk s. unfold bind. specialize (Hm s). destruct (m s) as [[a|e] s1]; [|done]. simpl in Hm. etrans; [exact Hm|apply Hk].
Qed.

Lemma always_for_each {A} (l : list A) (f : A → py S unit) : (∀ x, always (f x)) → always (for_each l f).
Proof using PreOrder0. intros Hf. induction l as [|x l IH]; simpl; [apply always_ret|]. apply always_bind; [apply Hf|by intros _]. Qed.

Lemma always_map_each {A B} (l : list A) (f : A → py S B) : (∀ x, always (f x)) → always (map_each l f).
Proof using PreOrder0.
  intros Hf. induction l as [|x l IH]; simpl; [apply always_ret|]. apply always_bind; [apply Hf|intros y]. apply always_bind; [done|intros ys; apply always_ret].
Qed.

Lemma always_runs {A} (m : py S A) s (P : A → S → Prop) : always m → runs m s P → runs m s (λ a s', P a s' ∧ R s s').
Proof. intros Hm (a & s' & Hrun & HP). exists a, s'. specialize (Hm s). rewrite Hrun in Hm. by split. Qed.
End always.

Section frame.
Context {K B E C Q : Type} `{!KVCacheOps K B, !EncoderCacheOps E, !KVConnectorOps C B, !RequestQueueOps string Q}.
Context (cfg : config) (grammar_ready : string → bool) (has_cache_item : option (string → bool)).

Abbreviation t := (Scheduler.t K E C Q).

(** The parts of a request that [schedule] does not touch. *)
Definition same_text (r r' : Request) : Prop :=
  ident r' = ident r ∧ all_token_ids r' = all_token_ids r ∧ output_token_ids r' = output_token_ids r ∧ num_prompt_tokens r' = num_prompt_tokens r
  ∧ sampling_params r' = sampling_params r ∧ features (cont r') = features (cont r) ∧ reason r' = reason r ∧ streaming_queue r' = streaming_queue r.

#[global] Instance same_text_preorder : PreOrder same_text.
Proof. split; [by intros r|]. intros r1 r2 r3 (?&?&?&?&?&?&?&?) (?&?&?&?&?&?&?&?). repeat split; congruence. Qed.

(** The requests are the same ones, and so are the finished ones. *)
Definition same_requests (s s' : t) : Prop :=
  (∀ id, option_Forall2 same_text (requests s !! id) (requests s' !! id)) ∧ finished_req_ids s' = finished_req_ids s ∧ pause_state s' = pause_state s.

#[global] Instance same_requests_preorder : PreOrder same_requests.
Proof.
  split.
  - intros s. split; [|done]. intros id. reflexivity.
  - intros s1 s2 s3 (A1 & A2 & A3) (B1 & B2 & B3). split; [|split; congruence]. intros id. etrans; [apply A1|apply B1].
Qed.

Abbreviation keeps := (always same_requests).

Lemma keeps_modify (f : t → t) : (∀ s, requests (f s) = requests s ∧ finished_req_ids (f s) = finished_req_ids s ∧ pause_state (f s) = pause_state s) → keeps (modify f).
Proof. intros Hf s. destruct (Hf s) as (H1 & H2 & H3). split; simpl; [|done]. intros id. rewrite H1. reflexivity. Qed.

Lemma keeps_update_request id f : (∀ r, same_text r (f r)) → keeps (update_request id f).
Proof.
  intros Hf s. split; [|done]. simpl. intros x. destruct (decide (x = id)) as [->|Hx]; [rewrite lookup_alter_eq|rewrite lookup_alter_ne by done; reflexivity].
  destruct (requests s !! id); constructor. apply Hf.
Qed.

Lemma keeps_on_kv {A} (m : py K A) : keeps (on_kv m).
Proof. intros s. unfold on_kv. destruct (m (kv s)). split; [|done]. intros id. reflexivity. Qed.

Lemma keeps_on_enc {A} (m : py E A) : keeps (on_enc m).
Proof. intros s. unfold on_enc. destruct (m (enc s)). split; [|done]. intros id. reflexivity. Qed.

Lemma keeps_on_connector {A} (none : A) (m : py C A) : keeps (on_connector none m).
Proof. intros s. unfold on_connector. destruct (connector s) as [c|]; [|reflexivity]. destruct (m c). split; [|done]. intros id. reflexivity. Qed.

End frame.

(** The statements of [schedule], one by one. *)
Ltac keep :=
  repeat first
    [ match goal with |- PreOrder _ => apply _ end
    | apply always_bind; [apply _| |intros ?]
    | apply always_ret | apply always_lift | apply always_get_st | apply keeps_on_kv | apply keeps_on_enc | apply keeps_on_connector
    | apply keeps_modify; by intros
    | apply keeps_update_request; intros ?; repeat case_match; done
    | apply always_for_each; [apply _|intros ?] | apply always_map_each; [apply _|intros ?]
    | solve [eauto with keep nocore]
    | case_match | progress intros ].

Create HintDb keep.

Section steps.
Context {K B E C Q : Type} `{!KVCacheOps K B, !EncoderCacheOps E, !KVConnectorOps C B, !RequestQueueOps string Q}.
Context (cfg : config) (grammar_ready : string → bool) (has_cache_item : option (string → bool)).

Abbreviation t := (Scheduler.t K E C Q).
Abbreviation keeps := (always (same_requests (K := K) (E := E) (C := C) (Q := Q))).

Lemma keeps_preempt id : keeps (preempt_request id).
Proof. unfold preempt_request, get_request, passert, change_waiting. keep. Qed.
#[local] Hint Resolve keeps_preempt : keep.

Lemma keeps_take_lowest (l : step (B := B)) : keeps (take_lowest cfg l).
Proof. unfold take_lowest, get_request, raise. keep. Qed.
#[local] Hint Resolve keeps_take_lowest : keep.

Lemma keeps_allocate_or_preempt fuel id n l : keeps (allocate_or_preempt cfg fuel id n l).
Proof. revert l. induction fuel as [|fuel IH]; intros l; simpl; unfold get_request, raise; keep. Qed.
#[local] Hint Resolve keeps_allocate_or_preempt : keep.

Lemma keeps_schedule_encoder r c n b : keeps (schedule_encoder_inputs cfg has_cache_item r c n b).
Proof. unfold schedule_encoder_inputs. keep. Qed.
#[local] Hint Resolve keeps_schedule_encoder : keep.

Lemma keeps_running_turn l : keeps (running_turn cfg has_cache_item l).
Proof. unfold running_turn, take_encoder_inputs, get_request. keep. Qed.
#[local] Hint Resolve keeps_running_turn : keep.

Lemma keeps_running_loop fuel l : keeps (running_loop cfg has_cache_item fuel l).
Proof. revert l. induction fuel as [|fuel IH]; intros l; simpl; unfold raise; keep. Qed.
#[local] Hint Resolve keeps_running_loop : keep.

Lemma keeps_update_remote id : keeps (update_waiting_for_remote_kv cfg id).
Proof. unfold update_waiting_for_remote_kv, get_request, passert, raise. keep. Qed.
#[local] Hint Resolve keeps_update_remote : keep.

Lemma keeps_not_ready id loras : keeps (not_ready cfg grammar_ready id loras).
Proof. unfold not_ready, get_request, passert. keep. Qed.
#[local] Hint Resolve keeps_not_ready : keep.

Lemma keeps_computed_prefix id : keeps (computed_prefix id).
Proof. unfold computed_prefix, get_request. keep. Qed.
#[local] Hint Resolve keeps_computed_prefix : keep.

Lemma keeps_start_running id n m p w : keeps (start_running cfg id n m p w).
Proof. unfold start_running, take_encoder_inputs, get_request, raise. keep. Qed.
#[local] Hint Resolve keeps_start_running : keep.

Lemma keeps_allocate_waiting id c p w : keeps (allocate_waiting cfg id c p w).
Proof. unfold allocate_waiting, get_request. keep. Qed.
#[local] Hint Resolve keeps_allocate_waiting : keep.

Lemma keeps_skip_head (w : wstep (B := B) (Q := Q)) : keeps (skip_head w).
Proof. unfold skip_head. keep. Qed.
#[local] Hint Resolve keeps_skip_head : keep.

Lemma keeps_waiting_tokens r n (l : step (B := B)) : keeps (waiting_num_new_tokens cfg has_cache_item r n l).
Proof. unfold waiting_num_new_tokens, passert. keep. Qed.
#[local] Hint Resolve keeps_waiting_tokens : keep.

Lemma keeps_waiting_turn w : keeps (waiting_turn cfg grammar_ready has_cache_item w).
Proof. unfold waiting_turn, get_request, passert. keep. Qed.
#[local] Hint Resolve keeps_waiting_turn : keep.

Lemma keeps_waiting_loop fuel w : keeps (waiting_loop cfg grammar_ready has_cache_item fuel w).
Proof. revert w. induction fuel as [|fuel IH]; intros w; simpl; unfold raise; keep. Qed.
#[local] Hint Resolve keeps_waiting_loop : keep.

Lemma keeps_schedule_waiting empty l : keeps (schedule_waiting cfg grammar_ready has_cache_item empty l).
Proof. unfold schedule_waiting, change_waiting. keep. Qed.
#[local] Hint Resolve keeps_schedule_waiting : keep.

Lemma keeps_make_output l : keeps (make_output cfg l).
Proof. unfold make_output, new_data, cached_data, get_request, passert. keep. Qed.
#[local] Hint Resolve keeps_make_output : keep.

Lemma keeps_advance x : keeps (advance cfg x).
Proof. unfold advance, get_request. keep. Qed.
#[local] Hint Resolve keeps_advance : keep.

(** The requests and their texts. *)
Definition same_texts (s s' : t) : Prop := ∀ id, option_Forall2 same_text (requests s !! id) (requests s' !! id).

#[global] Instance same_texts_preorder : PreOrder same_texts.
Proof. split; [intros s id; reflexivity|]. intros s1 s2 s3 A B' id. etrans; [apply A|apply B']. Qed.

Lemma keeps_texts {A} (m : py t A) : keeps m → always same_texts m.
Proof. intros Hm s. exact (proj1 (Hm s)). Qed.

Lemma keeps_schedule empty : always same_texts (schedule cfg grammar_ready has_cache_item empty).
Proof.
  unfold schedule, check_constraints, passert, update_after_schedule.
  repeat first [apply always_bind; [apply _| |intros ?] | apply keeps_texts; solve [keep] | case_match
    | apply always_ret; apply _ | intros s id; reflexivity
    | apply always_for_each; [apply _|intros ?] | unfold add_placeholders, get_request; apply keeps_texts; solve [keep]].
Qed.
End steps.
End SchedulerFrame.
