(* ===== verification/SchedulerStep.v ===== *)
(** [schedule] as a whole: from a state in order it raises nothing, keeps its promises about
    tokens, slots and requests, and ends in order. *)
From Stdlib Require Import QArith.
From stdpp Require Import gmap strings.
From S2P Require Export SchedulerWait SchedulerFrame.
From stdpp Require Import options.
Open Scope Z_scope.

Module SchedulerStep.
Import SchedRequest Scheduler SchedulerInv SchedulerRun SchedulerTurn SchedulerWait SchedulerFrame.

Section step.
Context {K B E C Q : Type} `{!KVCacheOps K B, !EncoderCacheOps E, !KVConnectorOps C B, !RequestQueueOps string Q}.
Context {cfg : config} (grammar_ready : string → bool) {has_cache_item : option (string → bool)}.
Context `{!KVCacheLaws K B (max_model_len cfg), !EncoderLaws E (is_encoder_decoder cfg) (disable_chunked_mm_input cfg) has_cache_item,
          !KVConnectorLaws C B, !RequestQueueLaws string Q}.

Abbreviation t := (Scheduler.t K E C Q).
Abbreviation base := (base cfg has_cache_item (K := K) (B := B) (E := E) (C := C) (Q := Q)).
Abbreviation request_ok := (request_ok cfg has_cache_item).
Abbreviation live_step := (live_step (cfg := cfg) (K := K) (B := B)).
Abbreviation locals_ok := (locals_ok (K := K) (B := B) (E := E) (C := C) (Q := Q)).
Abbreviation between := (between cfg (K := K) (B := B)).

(** ** The second loop in its place *)

(** What holds when both loops have ended. *)
Definition scheduled_ok budget (s0 : t) (l : step (B := B)) (s : t) : Prop :=
  base [] (live_step l) (preempted l = []) s ∧ locals_ok budget l s
  ∧ (∀ id, id ∈ resumed_reqs l → id ∉ prev_step_scheduled_req_ids s) ∧ grown (λ id, id ∈ running s) s0 s.

Lemma schedule_waiting_spec budget s0 empty l (s : t) :
  good_config cfg → turn_inv (cfg := cfg) (has_cache_item := has_cache_item) [] budget s0 l s → queue_elements empty = [] →
  runs (schedule_waiting cfg grammar_ready has_cache_item empty l) s (λ l' s', scheduled_ok budget s0 l' s').
Proof.
  intros Hg (Hb & Hl & Hp & Hgr) Hem. unfold schedule_waiting. runs_step.
  apply (runs_lift _ ∅); [unfold running_loras; by rewrite (g_loras _ Hg)|]. pose proof Hp as (_ & _ & Hres & _).
  destruct (bool_decide (preempted l = []) && _) eqn:Ec; [|runs_step; split; [done|]; split; [done|]; split; [rewrite Hres; by intros ? ?%elem_of_nil|intros id r0 r Hid; apply Hgr; by left]].
  apply andb_true_iff in Ec as [Ep%bool_decide_eq_true _].
  eapply runs_seq; [apply (waiting_loop_spec (cfg := cfg) grammar_ready budget s0 _ (l, ∅, empty) s Hg)|].
  { split; [rewrite Hem; by eapply base_fresh|]. split; [done|]. split; [done|]. split; [rewrite Hres; by intros ? ?%elem_of_nil|]. intros id r0 r _. apply Hgr. by right. }
  { rewrite queue_len_elements. pose proof (zlen_nonneg (queue_elements (waiting s))). lia. }
  intros [[l1 loras] skipped] s1 (Hb1 & Hl1 & Hp1 & Hres1 & Hgr1). rewrite queue_len_elements.
  destruct (Z.ltb_spec 0 (zlen (queue_elements skipped))) as [Hsk|Hsk].
  - unfold change_waiting. do 2 runs_step. split; [|split; [apply (locals_frame budget _ s1); [done|done|by apply same_inputs_eq]|split; [done|intros id r0 r _; by apply Hgr1]]].
    apply (base_fresh _ _ True); [|done]. apply (base_queue (queue_elements skipped)); [done|]. by rewrite prepend_all_elements, app_nil_r, Permutation_app_comm.
  - do 2 runs_step. split; [|split; [done|split; [done|intros id r0 r _; by apply Hgr1]]]. apply (base_fresh _ _ True); [|done].
    destruct (queue_elements skipped) as [|x xs]; [done|]. exfalso. rewrite zlen_cons in Hsk. pose proof (zlen_nonneg xs). lia.
Qed.

(** ** The assertions *)

Lemma check_constraints_spec budget s0 l (s : t) :
  scheduled_ok budget s0 l s → budget ≤ max_num_scheduled_tokens cfg → runs (check_constraints cfg l) s (λ _ s', s' = s).
Proof.
  intros (Hb & Hl & _) Hbud. unfold check_constraints. runs_step. destruct (l_budget _ _ _ Hl) as [H1 H2].
  apply runs_passert; [apply Z.leb_le; lia|]. apply runs_passert; [by apply Z.leb_le|].
  apply runs_passert; [apply Z.leb_le; by apply b_len in Hb|]. apply runs_passert_end; [|done]. apply Z.leb_le.
  assert (length (od_keys (scheduled_tokens l)) <= length (running s))%nat as Hlen.
  { apply submseteq_length, NoDup_submseteq; [apply Hl|apply (l_sub _ _ _ Hl)]. }
  rewrite (Permutation_length (l_keys _ _ _ Hl)), !length_app in Hlen. unfold zlen. lia.
Qed.

(** ** The output *)

Lemma new_data_spec budget s0 l (s : t) id :
  scheduled_ok budget s0 l s → id ∈ od_keys (scheduled_tokens l) → runs (new_data l id) s (λ y s', s' = s ∧ y.1.1 = id).
Proof.
  intros (Hb & Hl & _) Hid. destruct (base_running _ _ _ _ id Hb) as (r & Hr & _); [by apply (l_sub _ _ _ Hl)|].
  unfold new_data. apply (runs_get_request id r); [done|]. runs_step.
  destruct (proj2 (od_get_is_Some id (req_to_new_blocks l))) as [b Hbl]; [by rewrite (l_blocks _ _ _ Hl)|].
  apply (runs_lift _ b); [by rewrite Hbl|]. by runs_step.
Qed.

Lemma cached_data_spec budget s0 l (s : t) resumed id :
  scheduled_ok budget s0 l s → id ∈ od_keys (scheduled_tokens l) → (resumed = true → id ∈ resumed_reqs l) →
  runs (cached_data cfg resumed l id) s (λ _ s', s' = s ∧ True).
Proof.
  intros (Hb & Hl & Hres & _) Hid Hr'. destruct (base_running _ _ _ _ id Hb) as (r & Hr & _); [by apply (l_sub _ _ _ Hl)|].
  unfold cached_data. apply (runs_get_request id r); [done|]. runs_step.
  destruct (proj2 (od_get_is_Some id (scheduled_tokens l)) Hid) as [n Hn]. apply (runs_lift _ n); [by rewrite Hn|].
  apply runs_passert.
  { apply negb_true_iff, andb_false_iff. destruct resumed; [right|by left]. apply bool_decide_eq_false. by apply Hres, Hr'. }
  destruct (proj2 (od_get_is_Some id (req_to_new_blocks l))) as [b Hbl]; [by rewrite (l_blocks _ _ _ Hl)|].
  apply (runs_lift _ b); [by rewrite Hbl|]. by runs_step.
Qed.

Lemma base_prev sk live fresh (s : t) X :
  base sk live fresh s → (∀ id, id ∈ X → id ∈ running s) → base sk live True (set_prev_step X s).
Proof.
  intros [H1 H2 H3 H4 H5 H6 H7 H8] HX. split; try done. intros id r Hr. destruct (H3 id r Hr) as [Hid Hp]. split; [done|].
  destruct Hp as [? ? ? ?|Hi ? ? ? ? ?|n ? ? ?]; [by apply PRunning| |by apply (PFinished _ _ _ _ _ _ _ _ n)].
  apply PWaiting; try done. simpl. intros _ _ Hx%HX. apply NoDup_app in H1 as (_ & Hd & _). by apply (Hd id).
Qed.

(** The output tells what the local variables hold; the scheduled requests become those of
    the step before. *)
Lemma make_output_spec budget s0 l (s : t) :
  scheduled_ok budget s0 l s →
  runs (make_output cfg l) s (λ o s', base [] (live_step l) True s' ∧ running s' = running s ∧ requests s' = requests s ∧ waiting s' = waiting s
    ∧ num_scheduled_tokens o = scheduled_tokens l ∧ total_num_scheduled_tokens o = sum_tokens (scheduled_tokens l)
    ∧ scheduled_spec_decode_tokens o = spec_decode l ∧ output_finished_req_ids o = finished_req_ids s
    ∧ (λ x : string * list (list Z) * Z, x.1.1) <$> scheduled_new_reqs o = new_reqs l ∧ cached_req_ids o = running_reqs l ++ resumed_reqs l).
Proof.
  intros Hs. pose proof Hs as (Hb & Hl & Hres & Hgr). unfold make_output. runs_step.
  assert (∀ id, id ∈ running_reqs l ++ resumed_reqs l ++ new_reqs l → id ∈ od_keys (scheduled_tokens l)) as Hkeys by (intros id; by rewrite (l_keys _ _ _ Hl)).
  apply (runs_seq _ _ _ (λ _ s1, ∃ k, s1 = set_kv k s ∧ kv_inv k ∧ ∀ id n, kv_ready (kv s) id n → kv_ready k id n)).
  { destruct (running s) as [|id ids]; [apply runs_ret; exists (kv s); split; [by destruct s|]; split; [by apply b_kv in Hb|done]|].
    apply runs_on_kv. eapply runs_mono; [by apply (kv_common_prefix_law (max_model_len := max_model_len cfg)); apply b_kv in Hb|]. intros _ k [? ?]. by exists k. }
  intros common s1 (k & -> & Hk & Hkr). assert (base [] (live_step l) (preempted l = []) (set_kv k s)) as Hb1.
  { apply base_kv; try done. intros k1 k2. apply live_step_stable. }
  assert (scheduled_ok budget s0 l (set_kv k s)) as Hs1. { split; [done|]. split; [|by split]. apply (locals_frame budget l s); [done|done|by apply same_inputs_eq]. }
  eapply runs_seq; [apply (runs_map_each (λ x y, y.1.1 = x)); intros id Hid; apply (new_data_spec budget s0); [done|apply Hkeys; rewrite !elem_of_app; auto]|].
  intros news s2 [-> Hnews]. eapply runs_seq; [apply (runs_map_each (λ _ _, True)); intros id Hid; apply (cached_data_spec budget s0); [done|apply Hkeys; rewrite !elem_of_app; auto|done]|].
  intros run s2 [-> _]. eapply runs_seq; [apply (runs_map_each (λ _ _, True)); intros id Hid; apply (cached_data_spec budget s0); [done|apply Hkeys; rewrite !elem_of_app; auto|done]|].
  intros res s2 [-> _]. do 2 runs_step. apply runs_bind, runs_on_enc. eapply runs_mono; [by apply enc_freed_law; apply b_enc in Hb|].
  intros freed e He. runs_step. split; [|do 7 (split; [done|])].
  - apply base_enc; [|done]. apply (base_prev _ _ (preempted l = [])); [done|]. intros id Hid%elem_of_list_to_set. simpl. by apply (l_sub _ _ _ Hl).
  - simpl. split; [|done]. clear -Hnews. induction Hnews as [|x y xs ys Hxy _ IH]; [done|]. rewrite fmap_cons, Hxy. by f_equal.
Qed.

(** ** After the schedule *)

(** A running request between [schedule] and [update_from_output]: if it was scheduled, its
    computed tokens count what the model is about to compute, drafts included, and there
    are slots for them. *)
Definition pending (scheduled : list (string * Z)) (spec : list (string * list Z)) (k : K) (id : string) (r : Request) : Prop :=
  match od_get id scheduled with
  | None => between k id r
  | Some _ =>
      let drafts := zlen (default [] (od_get id spec)) in
      0 < num_computed_tokens r < max_model_len cfg ∧ kv_ready k id (num_computed_tokens r)
      ∧ num_computed_tokens r ≤ num_tokens r + drafts ∧ (0 < drafts → num_computed_tokens r = num_tokens r + drafts)
  end.

Lemma between_stable : stable (K := K) between.
Proof. intros k k' id r Hk [? ?]. split; [done|]. by apply Hk. Qed.

Lemma pending_stable scheduled spec : stable (K := K) (pending scheduled spec).
Proof.
  intros k k' id r Hk. unfold pending. destruct (od_get id scheduled); [|by apply between_stable]. intros (? & ? & ?). auto.
Qed.

Definition advanced (n : Z) (r : Request) : Request :=
  let r := set_num_computed_tokens (num_computed_tokens r + n) r in
  set_is_prefill_chunk (num_computed_tokens r <? num_tokens r + num_output_placeholders r) r.

(** The requests before [rest] are advanced. *)
Definition half (l : step (B := B)) (rest : list (string * Z)) (k : K) (id : string) (r : Request) : Prop :=
  if decide (id ∈ od_keys rest) then live_step l k id r else pending (scheduled_tokens l) (spec_decode l) k id r.

Lemma live_pending l k id n r :
  od_get id (scheduled_tokens l) = Some n → request_ok r → live_step l k id r → pending (scheduled_tokens l) (spec_decode l) k id (advanced n r).
Proof.
  intros Hn Hok [Hlt Hl]. rewrite Hn in Hl. destruct Hl as (H0 & Hk & Hm & Hle & Hd). unfold pending. rewrite Hn. pose proof (r_computed _ _ _ Hok) as Hc.
  assert (num_computed_tokens (advanced n r) = num_computed_tokens r + n) as -> by done. assert (num_tokens (advanced n r) = num_tokens r) as -> by done.
  split; [lia|]. by repeat split.
Qed.

Lemma advance_spec l id n rest (s : t) :
  od_get id (scheduled_tokens l) = Some n → (id ∉ od_keys rest) → id ∈ running s → base [] (half l ((id, n) :: rest)) True s →
  runs (advance cfg (id, n)) s (λ _ s', base [] (half l rest) True s' ∧ running s' = running s ∧ dom (requests s') = dom (requests s)
    ∧ ∀ x r r', requests s !! x = Some r → requests s' !! x = Some r' →
        num_computed_tokens r' = num_computed_tokens r + if decide (x = id) then n else 0).
Proof.
  intros Hn Hno Hin Hb. destruct (base_running _ _ _ _ id Hb Hin) as (r & Hr & Hid & _ & Hok & _). unfold advance.
  apply (runs_get_request id r); [done|]. unfold update_request. do 2 runs_step. cbn [set_requests requests]. rewrite alter_alter_eq.
  set (s1 := set_requests _ _). assert (s1 = set_requests (alter (advanced n) id (requests s)) s) as -> by done.
  assert (base [] (half l rest) True (set_requests (alter (advanced n) id (requests s)) s)) as Hb1.
  { apply (base_alter [] (half l ((id, n) :: rest))); try done.
    - intros r0 _ [R1 R2 R3 R4 R5 R6 R7 R8] Hl. unfold half in *. rewrite decide_True in Hl by (left). rewrite decide_False by done.
      destruct Hl as [Hlt Hl]. split; [done|]. split; [|by apply live_pending]. rewrite Hn in Hl. split; try done.
      unfold advanced, set_is_prefill_chunk, set_num_computed_tokens, num_computed_tokens in *. simpl. lia.
    - intros x r0 Hx. unfold half. simpl. destruct (decide (x ∈ od_keys rest)).
      + by rewrite decide_True by (by right).
      + rewrite decide_False; [done|]. by intros [?|?]%elem_of_cons. }
  assert (∀ x r r', requests s !! x = Some r → alter (advanced n) id (requests s) !! x = Some r' →
    num_computed_tokens r' = num_computed_tokens r + if decide (x = id) then n else 0) as Hcomp.
  { intros x rx rx' Hrx. destruct (decide (x = id)) as [->|Hx]; [rewrite lookup_alter_eq, Hrx; by intros [= <-]|].
    rewrite lookup_alter_ne, Hrx by done. intros [= <-]. lia. }
  apply (runs_get_request id (advanced n r)); [simpl; by rewrite lookup_alter_eq, Hr|]. destruct (has_encoder_inputs _).
  - apply runs_on_enc. eapply runs_mono; [apply enc_free_inputs_law; [by apply b_enc in Hb|apply Hok]|]. intros [] e He.
    split; [by apply base_enc|]. split; [done|]. split; [simpl; by rewrite dom_alter_L|done].
  - runs_step. split; [done|]. split; [done|]. split; [simpl; by rewrite dom_alter_L|done].
Qed.

Lemma base_finished sk live fresh (s : t) X : base sk live fresh s → base sk live fresh (set_finished_req_ids X s).
Proof.
  intros [H1 H2 H3 H4 H5 H6 H7 H8]. split; try done. intros id r Hr. destruct (H3 id r Hr) as [Hid Hp]. split; [done|].
  destruct Hp as [? ? ? ?|? ? ? ? ? ?|n ? ? ?]; [by apply PRunning|by apply PWaiting|by apply (PFinished _ _ _ _ _ _ _ _ n)].
Qed.

Lemma update_after_schedule_spec l (s : t) o :
  good_config cfg → base [] (live_step l) True s → num_scheduled_tokens o = scheduled_tokens l → NoDup (od_keys (scheduled_tokens l)) →
  (∀ id, id ∈ od_keys (scheduled_tokens l) → id ∈ running s) →
  runs (update_after_schedule cfg o) s (λ _ s', base [] (pending (scheduled_tokens l) (spec_decode l)) True s' ∧ running s' = running s
    ∧ finished_req_ids s' = ∅ ∧ (∀ x r r', requests s !! x = Some r → requests s' !! x = Some r' →
        num_computed_tokens r' = num_computed_tokens r + default 0 (od_get x (scheduled_tokens l)))).
Proof.
  intros Hg Hb Ho Hnd Hsub. unfold update_after_schedule. rewrite Ho, (g_sync _ Hg).
  eapply runs_seq; [apply (runs_for_each (λ rest s', base [] (half l rest) True s' ∧ running s' = running s ∧ dom (requests s') = dom (requests s)
    ∧ (∀ x r r', requests s !! x = Some r → requests s' !! x = Some r' →
        num_computed_tokens r' = num_computed_tokens r + if decide (x ∈ od_keys rest) then 0 else default 0 (od_get x (scheduled_tokens l)))
    ∧ ∃ done, scheduled_tokens l = done ++ rest))|].
  - intros [id n] rest s0 (Hb0 & Hrun & Hdom & Hcomp & pre & Hpre). assert (od_get id (scheduled_tokens l) = Some n) as Hn.
    { apply od_elem_get; [done|]. rewrite Hpre. apply elem_of_app. right. by left. }
    assert (id ∉ od_keys rest) as Hno.
    { rewrite Hpre in Hnd. unfold od_keys in Hnd. rewrite fmap_app in Hnd. apply NoDup_app in Hnd as (_ & _ & Hnd). by apply NoDup_cons in Hnd as [? _]. }
    eapply runs_mono; [apply (advance_spec l id n rest s0 Hn Hno); [rewrite Hrun; apply Hsub, od_get_is_Some; by rewrite Hn|done]|].
    intros [] s1 (Hb1 & Hrun1 & Hdom1 & Hcomp1). split; [done|]. split; [congruence|]. split; [congruence|]. split.
    + intros x r r' Hr Hr'. assert (is_Some (requests s0 !! x)) as [rm Hrm].
      { apply elem_of_dom. rewrite <- Hdom1. apply elem_of_dom. by eexists. }
      rewrite (Hcomp1 x rm r' Hrm Hr'), (Hcomp x r rm Hr Hrm). simpl. destruct (decide (x = id)) as [->|Hx].
      * rewrite decide_True by left. rewrite decide_False, Hn by done. simpl. lia.
      * destruct (decide (x ∈ od_keys rest)); [rewrite decide_True by (by right); lia|]. rewrite decide_False; [lia|]. by intros [?|?]%elem_of_cons.
    + exists (pre ++ [(id, n)]). by rewrite <- app_assoc.
  - split; [|split; [done|split; [done|split; [|by exists []]]]].
    2:{ intros x r r' Hr Hr'. rewrite Hr in Hr'. injection Hr' as <-. case_decide as Hx; [lia|]. apply od_get_None in Hx. rewrite Hx. simpl. lia. }
    eapply base_live; [exact Hb|]. intros id r Hin Hr Hl. unfold half, pending. case_decide as Hk; [done|].
    destruct Hl as [Hlt Hl]. apply od_get_None in Hk. rewrite Hk in *. by split.
  - intros [] s1 (Hb1 & Hrun & _ & Hcomp & _). do 2 runs_step.
    split; [|split; [done|split; [done|intros x r r' Hr Hr'; rewrite (Hcomp x r r' Hr Hr'); by rewrite decide_False by (by intros ?%elem_of_nil)]]].
    apply base_finished. eapply base_live; [exact Hb1|].
    intros id r _ _. unfold half. rewrite decide_False; [done|]. by intros ?%elem_of_nil.
Qed.

(** ** The whole step *)

Lemma first_turn (s : t) k :
  inv cfg has_cache_item s → good_config cfg → kv_inv k → (∀ id n, kv_ready (kv s) id n → kv_ready k id n) →
  turn_inv (cfg := cfg) (has_cache_item := has_cache_item) []
    (if decide (pause_state s = PAUSED_ALL) then 0 else max_num_scheduled_tokens cfg) s (first_step cfg s) (set_kv k s).
Proof.
  intros Hi Hg Hk Hkr. unfold first_step. split; [|split; [|split]].
  - apply base_kv; [intros k1 k2; apply live_step_stable| |done|done]. apply (base_fresh _ _ True); [|done]. by eapply base_live; [exact Hi|].
  - pose proof (g_tokens _ Hg). pose proof (g_encoder _ Hg). split; simpl; try done; [unfold sum_tokens; simpl; case_decide; lia|by constructor|by intros ? ?%elem_of_nil|..].
    + split; [by constructor|]. by intros ? ?%elem_of_nil.
    + by split; [constructor|].
  - split; [done|]. split; [by intros ? ?%elem_of_nil|done].
  - intros id r0 r _ Hr0 Hr. simpl in Hr. rewrite Hr0 in Hr. by injection Hr as <-.
Qed.

(** A step of the scheduler, from a state in order, with a cache, an encoder cache, a
    connector and a queue that keep their contracts: [schedule] ends and raises nothing (no
    assertion, no missing key), and the state that it leaves is again in order: every
    unfinished request is in exactly one place, running, waiting or preempted; a running
    request that was scheduled has slots for all its computed tokens and is within the
    model's length; at most [max_num_running_reqs] run.  The output schedules at least one
    token for each request it names, each of them running, and no more than the budget in
    all, none while the scheduler is paused; no request appears, disappears or changes its
    text; the requests that finished before are reported once. *)
Lemma schedule_runs empty (s : t) :
  good_config cfg → inv cfg has_cache_item s → queue_elements empty = [] →
  runs (schedule cfg grammar_ready has_cache_item empty) s (λ o s',
    (base [] (pending (num_scheduled_tokens o) (scheduled_spec_decode_tokens o)) True s'
    ∧ NoDup (od_keys (num_scheduled_tokens o))
    ∧ (∀ id n, od_get id (num_scheduled_tokens o) = Some n → 0 < n ∧ id ∈ running s')
    ∧ total_num_scheduled_tokens o = sum_tokens (num_scheduled_tokens o)
    ∧ total_num_scheduled_tokens o ≤ (if decide (pause_state s = PAUSED_ALL) then 0 else max_num_scheduled_tokens cfg)
    ∧ od_keys (num_scheduled_tokens o) ≡ₚ cached_req_ids o ++ ((λ x : string * list (list Z) * Z, x.1.1) <$> scheduled_new_reqs o)
    ∧ output_finished_req_ids o = finished_req_ids s ∧ finished_req_ids s' = ∅
    ∧ ∀ id n r r', od_get id (num_scheduled_tokens o) = Some n → requests s !! id = Some r → requests s' !! id = Some r' →
        num_computed_tokens r + n ≤ num_computed_tokens r')
    ∧ same_texts s s').
Proof.
  intros Hg Hi Hem. apply always_runs; [apply keeps_schedule|].
  unfold schedule. runs_step. apply runs_bind, runs_on_kv.
  eapply runs_mono; [by apply (kv_new_step_law (max_model_len := max_model_len cfg)); apply b_kv in Hi|]. intros _ k [Hk Hkr].
  eapply runs_seq; [apply (always_runs same_requests); [apply keeps_running_loop|apply (running_loop_spec [] _ _ _ _ _ Hg (first_turn s k Hi Hg Hk Hkr))];
    unfold distance, zlen; simpl; lia|].
  intros l1 s1 [H1 F1]. eapply runs_seq; [apply (always_runs same_requests); [apply keeps_schedule_waiting|by apply schedule_waiting_spec]|].
  intros l2 s2 [H2 F2]. eapply runs_seq; [apply (check_constraints_spec _ _ _ _ H2); pose proof (g_tokens _ Hg); case_decide; lia|].
  intros [] s3 ->. eapply runs_seq; [by eapply make_output_spec|]. intros o s3 (Hb3 & Hrun & Hreq & Hwait & Ho1 & Ho2 & Ho3 & Ho4 & Ho5 & Ho6).
  destruct H2 as (Hb2 & Hl2 & _ & Hgr). apply (runs_seq _ _ _ (λ _ s4, base [] (live_step l2) True s4 ∧ running s4 = running s2 ∧ requests s4 = requests s2)).
  { apply runs_on_connector; [intros _; by rewrite <- Hrun, <- Hreq|]. intros c Hc. destruct (b_conn _ _ _ _ _ _ Hb3 c Hc) as [Hci Hm].
    eapply runs_mono; [by apply conn_meta_law|]. intros [] c' Hc'. split; [by apply base_connector|done]. }
  intros [] s4 (Hb4 & Hrun4 & Hreq4). eapply runs_seq; [apply (update_after_schedule_spec l2 s4 o Hg Hb4 Ho1 (l_nodup _ _ _ Hl2))|].
  { intros id Hid. rewrite Hrun4. by apply (l_sub _ _ _ Hl2). }
  intros [] s5 (Hb5 & Hrun5 & Hfin & Hcomp). runs_step. rewrite Ho1, Ho2, Ho3, Ho4, Ho5, Ho6. destruct (l_budget _ _ _ Hl2) as [B1 B2].
  split; [done|]. split; [apply Hl2|]. split.
  { intros id n Hn. assert (id ∈ running s2) as Hin by (apply (l_sub _ _ _ Hl2), od_get_is_Some; by rewrite Hn).
    destruct (base_running _ _ _ _ id Hb2 Hin) as (r & _ & _ & _ & _ & _ & Hlv). rewrite Hn in Hlv. split; [by destruct Hlv|by rewrite Hrun5, Hrun4]. }
  split; [done|]. split; [lia|]. split; [by rewrite (l_keys _ _ _ Hl2), app_assoc|].
  split; [destruct F1 as (_ & F1 & _), F2 as (_ & F2 & _); by rewrite F2, F1|]. split; [done|].
  intros id n r r' Hn Hr Hr'. assert (id ∈ running s2) as Hin by (apply (l_sub _ _ _ Hl2), od_get_is_Some; by rewrite Hn).
  destruct (base_running _ _ _ _ id Hb2 Hin) as (r2 & Hr2 & _). rewrite (Hcomp id r2 r'), Hn by (by rewrite ?Hreq4).
  specialize (Hgr id r r2 Hin Hr Hr2). simpl. lia.
Qed.
End step.
End SchedulerStep.
