(* ===== verification/SchedulerLeave.v ===== *)
(** Requests that end: appending output until it stops, and freeing a finished request. *)
From Stdlib Require Import QArith.
From stdpp Require Import gmap strings.
From S2P Require Export SchedulerStep.
From stdpp Require Import options.
Open Scope Z_scope.

Module SchedulerLeave.
Import SchedRequest Scheduler SchedulerInv SchedulerRun SchedulerTurn.

Section leave.
Context {K B E C Q : Type} `{!KVCacheOps K B, !EncoderCacheOps E, !KVConnectorOps C B, !RequestQueueOps string Q}.
Context {cfg : config} {has_cache_item : option (string → bool)}.
Context `{!KVCacheLaws K B (max_model_len cfg), !EncoderLaws E (is_encoder_decoder cfg) (disable_chunked_mm_input cfg) has_cache_item,
          !KVConnectorLaws C B, !RequestQueueLaws string Q}.

Abbreviation t := (Scheduler.t K E C Q).
Abbreviation base := (base cfg has_cache_item (K := K) (B := B) (E := E) (C := C) (Q := Q)).
Abbreviation request_ok := (request_ok cfg has_cache_item).

(** ** Output of a request *)

Lemma check_repetition_ok token_ids p : ∃ b, check_sequence_repetition token_ids p = Ok b.
Proof.
  unfold check_sequence_repetition. set (lo := if min_pattern_size p <=? 0 then 1 else min_pattern_size p).
  assert (1 ≤ lo) by (unfold lo; destruct (Z.leb_spec (min_pattern_size p) 0); lia).
  destruct (_ || _) eqn:Hoff; [by exists false|]. apply orb_false_iff in Hoff as [[_ Hc%Z.ltb_ge]%orb_false_iff _].
  destruct (pattern_loop_spec token_ids (min_count p) lo (max_pattern_size p + 1 - lo)) as (b & -> & _); [lia|lia|by exists b].
Qed.

(** What output does not change. *)
Definition same_input (r r' : Request) : Prop :=
  ident r' = ident r ∧ prog r' = prog r ∧ features (cont r') = features (cont r) ∧ sampling (cont r') = sampling (cont r) ∧ prompt_len (cont r') = prompt_len (cont r).

Lemma same_input_trans r1 r2 r3 : same_input r1 r2 → same_input r2 r3 → same_input r1 r3.
Proof. intros (?&?&?&?&?) (?&?&?&?&?). repeat split; congruence. Qed.

(** A request that generates text, not necessarily shorter than the model's length. *)
Definition generates (r : Request) : Prop :=
  num_tokens r = num_prompt_tokens r + num_output_tokens r ∧ pooling_params (ident r) = false
  ∧ ∃ sp, sampling_params r = Some sp ∧ num_prompt_tokens r + min_tokens sp ≤ max_model_len cfg.

Lemma zlen_snoc {A} (l : list A) x : zlen (l ++ [x]) = zlen l + 1.
Proof. unfold zlen. rewrite length_app. simpl. lia. Qed.

Lemma append_generates tok r :
  generates r →
  let r' := append_output_token_ids tok r in generates r' ∧ num_tokens r' = num_tokens r + 1 ∧ num_output_tokens r' = num_output_tokens r + 1.
Proof.
  intros (Ht & Hp & Hsp). cbv zeta. assert (num_tokens (append_output_token_ids tok r) = num_tokens r + 1) as Ht' by (unfold num_tokens; apply zlen_snoc).
  assert (num_output_tokens (append_output_token_ids tok r) = num_output_tokens r + 1) as Ho' by (unfold num_output_tokens; apply zlen_snoc).
  split; [|done]. split; [|done]. rewrite Ht', Ho'. change (num_prompt_tokens (append_output_token_ids tok r)) with (num_prompt_tokens r). lia.
Qed.

(** A request that goes on is shorter than the model's length. *)
Lemma check_stop_spec r : generates r → 1 ≤ num_output_tokens r →
  runs (check_stop (max_model_len cfg)) r (λ b r', same_input r r' ∧ all_ids (cont r') = all_ids (cont r) ∧ output_ids (cont r') = output_ids (cont r)
    ∧ if b : bool then is_finished r' = true else r' = r ∧ num_tokens r < max_model_len cfg).
Proof.
  intros (Ht & Hp & sp & Hsp & Hmin) Ho. unfold check_stop. runs_step. apply runs_passert; [by rewrite Hp|].
  apply (runs_lift _ sp); [by rewrite Hsp|]. destruct (Z.ltb_spec (num_output_tokens r) (min_tokens sp)); [runs_step; do 3 (split; [done|]); split; [done|lia]|].
  destruct (last (output_token_ids r)) as [tok|] eqn:Hl.
  2:{ apply last_None in Hl. unfold num_output_tokens in Ho. rewrite Hl in Ho. by change (1 ≤ 0) in Ho. }
  apply (runs_lift _ tok).
  { apply last_Some in Hl as [l Hl]. rewrite Hl. change (-1) with (Z.opp 1). rewrite py_index_back by (unfold zlen; rewrite length_app; simpl; lia).
    rewrite length_app, lookup_app_r by (simpl; lia). simpl. by replace (_ + _ - _ - _)%nat with 0%nat by lia. }
  case_bool_decide; [by do 2 runs_step|]. case_bool_decide; [by do 3 runs_step|].
  destruct (num_tokens r >=? max_model_len cfg) eqn:Em; simpl; [by do 2 runs_step|]. rewrite Z.geb_leb in Em. apply Z.leb_gt in Em.
  destruct (_ >=? max_tokens r); [by do 2 runs_step|]. destruct (repetition_detection sp) as [rd|]; [|by runs_step].
  destruct (check_repetition_ok (output_token_ids r) rd) as [b Hb]. apply (runs_lift _ b); [done|]. destruct b; [by do 3 runs_step|by runs_step].
Qed.

Lemma append_checked_spec tokens r :
  generates r →
  runs (append_and_check (max_model_len cfg) tokens) r (λ p r', same_input r r'
    ∧ num_tokens r' = num_tokens r + zlen p.1 ∧ num_output_tokens r' = num_output_tokens r + zlen p.1
    ∧ if p.2 : bool then is_finished r' = true
      else p.1 = tokens ∧ status r' = status r ∧ (tokens = [] ∨ num_tokens r' < max_model_len cfg)).
Proof.
  revert r. induction tokens as [|tok tokens IH]; intros r Hr; simpl.
  - runs_step. cbn [fst snd]. change (zlen (@nil Z)) with 0. split; [done|]. split; [lia|]. split; [lia|]. split; [done|]. split; [done|by left].
  - runs_step. destruct (append_generates tok r Hr) as (Hr1 & N1 & N2). set (r1 := append_output_token_ids tok r) in *.
    assert (0 ≤ num_output_tokens r) by apply zlen_nonneg.
    eapply runs_seq; [apply check_stop_spec; [done|lia]|]. intros b r2 (Hs & Ha & Hout & Hb).
    assert (num_tokens r2 = num_tokens r1) as N3 by (unfold num_tokens, all_token_ids; by rewrite Ha).
    assert (num_output_tokens r2 = num_output_tokens r1) as N4 by (unfold num_output_tokens, output_token_ids; by rewrite Hout).
    destruct b; [runs_step; cbn [fst snd]; change (zlen [tok]) with 1; rewrite N3, N4; by repeat split; try apply Hs|]. destruct Hb as [-> Hlt].
    eapply runs_seq; [by apply IH|].
    intros [kept stopped] r3 (Hs3 & M1 & M2 & Hst). runs_step. simpl in M1, M2, Hst |- *. rewrite zlen_cons, M1, M2. split; [by apply (same_input_trans r r1)|].
    split; [lia|]. split; [lia|]. destruct stopped; [done|]. destruct Hst as (-> & Hst & Hlen). split; [done|]. split; [done|]. right.
    destruct Hlen as [->|]; [|lia]. change (zlen []) with 0. lia.
Qed.

(** ** Freeing *)

Definition connector_ok (s : t) : Prop := ∀ c, connector s = Some c → conn_inv c ∧ need_mamba_block_aligned_split cfg = false.

(** What freeing a request leaves: the other requests keep their blocks; the request is
    deleted, or a connector still sends its blocks. *)
Record freed (id : string) (s s' : t) : Prop := Freed {
  f_running : running s' = running s;
  f_waiting : waiting s' = waiting s;
  f_prev : prev_step_scheduled_req_ids s' = prev_step_scheduled_req_ids s;
  f_kv : kv_inv (kv s');
  f_others : ∀ x m, x ≠ id → kv_ready (kv s) x m → kv_ready (kv s') x m;
  f_enc : enc_inv (enc s');
  f_conn : connector_ok s';
  f_request : (requests s' = requests s ∧ ∃ n, kv_ready (kv s') id n) ∨ (requests s' = delete id (requests s) ∧ kv_ready (kv s') id 0)
}.

Lemma scheduler_free_blocks (s : t) id r n :
  requests s !! id = Some r → request_id r = id → is_finished r = true → kv_inv (kv s) → kv_ready (kv s) id n → enc_inv (enc s) → connector_ok s →
  runs (free_blocks id) s (λ _ s', freed id s s' ∧ requests s' = delete id (requests s)).
Proof.
  intros Hr Hid Hf Hk Hn He Hc. unfold free_blocks. apply (runs_get_request id r); [done|]. apply runs_passert; [done|].
  apply runs_bind, runs_on_kv. eapply runs_mono; [apply (kv_free_law (kv s) r n); [done|by rewrite Hid]|]. rewrite Hid.
  intros [] k (Hk' & H0 & Hframe). runs_step. split; [|done]. split; try done. by right.
Qed.

Lemma connector_finished_spec (s : t) r :
  kv_inv (kv s) → connector_ok s →
  runs (connector_finished r) s (λ _ s', ∃ k c, s' = set_connector c (set_kv k s) ∧ kv_inv k ∧ (∀ x m, kv_ready (kv s) x m → kv_ready k x m) ∧ connector_ok s').
Proof.
  intros Hk Hc. unfold connector_finished. runs_step. destruct (connector s) as [c|] eqn:Hs.
  - destruct (Hc c Hs) as [Hci Hm]. apply runs_bind, runs_on_kv. eapply runs_mono; [by apply (kv_remove_skipped_law (max_model_len := max_model_len cfg))|].
    intros _ k [Hk' Hkr]. runs_step. apply runs_on_connector; [simpl; by rewrite Hs|]. intros c0. simpl. rewrite Hs. intros [= <-].
    eapply runs_mono; [by apply conn_finished_law|]. intros b c' Hc'. exists k, (Some c'). split; [done|]. split; [done|]. split; [done|]. by intros ? [= <-].
  - runs_step. exists (kv s), None. split; [by destruct s; simpl in *; subst|]. split; [done|]. by split.
Qed.

Lemma free_request_spec (s : t) id r n delay :
  requests s !! id = Some r → request_id r = id → is_finished r = true → enc_valid (mm_of r) →
  kv_inv (kv s) → kv_ready (kv s) id n → enc_inv (enc s) → connector_ok s →
  runs (free_request id delay) s (λ _ s', freed id s s').
Proof.
  intros Hr Hid Hf Hv Hk Hn He Hc. unfold free_request. apply (runs_get_request id r); [done|]. apply runs_passert; [done|].
  eapply runs_seq; [by apply connector_finished_spec|]. intros d s1 (k & c & -> & Hk1 & Hkr & Hc1). apply runs_bind, runs_on_enc.
  eapply runs_mono; [by apply enc_free_law|]. intros [] e [He' _]. runs_step. destruct (delay || d).
  - runs_step. split; try done; [by intros; apply Hkr|]. left. split; [done|]. exists n. by apply Hkr.
  - eapply runs_mono; [apply (scheduler_free_blocks _ id r n); try done; by apply Hkr|]. intros [] s' [[F1 F2 F3 F4 F5 F6 F7 F8] _].
    split; try done. intros x m Hx Hxm. by apply F5, Hkr.
Qed.

(** A request leaves the running or the waiting ones. *)
Lemma base_leave sk sk' live live' fresh (s s' : t) id :
  let W := queue_elements (waiting s) ++ sk in
  let W' := queue_elements (waiting s') ++ sk' in
  base sk live fresh s → id ∈ running s ++ W →
  (∀ x, x ∈ running s' ↔ x ∈ running s ∧ x ≠ id) → NoDup (running s') → (∀ x, x ∈ W' ↔ x ∈ W ∧ x ≠ id) → NoDup W' →
  zlen (running s') ≤ zlen (running s) → prev_step_scheduled_req_ids s' = prev_step_scheduled_req_ids s →
  (∀ x, x ≠ id → requests s' !! x = requests s !! x) →
  (∀ x m, x ≠ id → kv_ready (kv s) x m → kv_ready (kv s') x m) →
  (∀ x r, x ≠ id → live (kv s) x r → live' (kv s') x r) →
  kv_inv (kv s') → enc_inv (enc s') → connector_ok s' →
  match requests s' !! id with None => kv_ready (kv s') id 0 | Some r => request_id r = id ∧ is_finished r = true ∧ ∃ n, kv_ready (kv s') id n end →
  base sk' live' fresh s'.
Proof.
  intros W W' [H1 H2 H3 H4 H5 H6 H7 H8] Hin Hrun Hnd1 Hwait Hnd2 Hlen Hprev Hreq Hframe Hlive Hk He Hc Hid.
  fold W in H1, H2. pose proof H1 as (N1 & N2 & N3)%NoDup_app.
  assert (∀ x, x ∈ running s' ++ W' → x ∈ running s ++ W ∧ x ≠ id) as Hsub.
  { intros x. rewrite !elem_of_app, Hrun, Hwait. tauto. }
  split; fold W'; try done; [| | | |lia].
  - apply NoDup_app. split; [done|]. split; [|done]. intros x [Hx _]%Hrun [Hx' _]%Hwait. by apply (N2 x).
  - intros x [Hx Hne]%Hsub. rewrite Hreq by done. by apply H2.
  - intros x r. destruct (decide (x = id)) as [->|Hx].
    + intros Hr. rewrite Hr in Hid. destruct Hid as (Hid & Hf & n & Hn). split; [done|]. apply (PFinished _ _ _ _ _ _ _ _ n); [|done|done].
      by intros [_ ?]%Hsub.
    + rewrite Hreq by done. intros Hr. destruct (H3 x r Hr) as [Hxr Hp]. split; [done|]. destruct Hp as [Hi ? ? ?|Hi ? ? ? ? ?|n Hi ? ?].
      * apply PRunning; auto. by apply Hrun.
      * apply PWaiting; auto; [by apply Hwait|by rewrite Hprev].
      * apply (PFinished _ _ _ _ _ _ _ _ n); auto. by intros [? _]%Hsub.
  - intros x. destruct (decide (x = id)) as [->|Hx]; [intros Hr; by rewrite Hr in Hid|]. rewrite Hreq by done. intros Hr. apply Hframe; auto.
Qed.

(** The same requests run and wait, in another order. *)
Lemma base_places sk sk' live fresh (s s' : t) :
  base sk live fresh s → running s' ≡ₚ running s → queue_elements (waiting s') ++ sk' ≡ₚ queue_elements (waiting s) ++ sk →
  requests s' = requests s → kv s' = kv s → enc s' = enc s → connector s' = connector s →
  prev_step_scheduled_req_ids s' = prev_step_scheduled_req_ids s → base sk' live fresh s'.
Proof.
  intros [H1 H2 H3 H4 H5 H6 H7 H8] Hr Hw E1 E2 E3 E4 E5. split; rewrite ?E1, ?E2, ?E3, ?E4; try done; [by rewrite Hr, Hw|intros x; rewrite Hr, Hw; apply H2| |].
  - intros id r Hq. destruct (H3 id r Hq) as [Hid Hp]. split; [done|]. destruct Hp as [? ? ? ?|? ? ? ? ? ?|n ? ? ?].
    + apply PRunning; rewrite ?E2; try done. by rewrite Hr.
    + apply PWaiting; rewrite ?E2, ?E5; try done. by rewrite Hw.
    + apply (PFinished _ _ _ _ _ _ _ _ n); rewrite ?E2; try done. by rewrite Hr, Hw.
  - unfold zlen in *. by rewrite (Permutation_length Hr).
Qed.
End leave.
End SchedulerLeave.
