(* ===== verification/SchedulerResult.v ===== *)
(** [update_from_output]: with what the model ran, every scheduled request gets its tokens, or
    ends; the scheduler's state is in order for the next step. *)
From Stdlib Require Import QArith.
From stdpp Require Import gmap strings.
From S2P Require Export SchedulerLeave.
From stdpp Require Import options.
Open Scope Z_scope.

Module SchedulerResult.
Import SchedRequest Scheduler SchedulerInv SchedulerRun SchedulerTurn SchedulerStep SchedulerLeave.

(** What the runner sampled for a request. *)
Definition sampled_for (out : ModelRunnerOutput) (id : string) (generated : list Z) : Prop :=
  ∃ index, od_get id (req_id_to_index out) = Some index
  ∧ match sampled_token_ids out with [] => generated = [] | l => py_index l index = Ok generated end.

(** Nothing for a prompt that is not computed yet; else a token, and the drafts it accepted. *)
Definition sampled_ok (drafts : Z) (r : Request) (generated : list Z) : Prop :=
  if num_computed_tokens r <? num_tokens r then generated = [] else 1 ≤ zlen generated ≤ drafts + 1.

(** What the sampled tokens make of a request that was scheduled: it has ended, or goes on with
    all of them, all tokens but the last computed. *)
Definition moved (r : Request) (generated : list Z) (o : option Request) : Prop :=
  match o with
  | None => True
  | Some r' => is_finished r' = true ∨ if decide (generated = []) then num_tokens r' = num_tokens r ∧ num_computed_tokens r' = num_computed_tokens r
               else num_tokens r' = num_tokens r + zlen generated ∧ num_computed_tokens r' = num_tokens r' - 1
  end.

Section result.
Context {K B E C Q : Type} `{!KVCacheOps K B, !EncoderCacheOps E, !KVConnectorOps C B, !RequestQueueOps string Q}.
Context {cfg : config} {has_cache_item : option (string → bool)}.
Context `{!KVCacheLaws K B (max_model_len cfg), !EncoderLaws E (is_encoder_decoder cfg) (disable_chunked_mm_input cfg) has_cache_item,
          !KVConnectorLaws C B, !RequestQueueLaws string Q}.

Abbreviation t := (Scheduler.t K E C Q).
Abbreviation base := (base cfg has_cache_item (K := K) (B := B) (E := E) (C := C) (Q := Q)).
Abbreviation request_ok := (request_ok cfg has_cache_item).
Abbreviation between := (between cfg (K := K) (B := B)).
Abbreviation pending := (pending (cfg := cfg) (K := K) (B := B)).
Abbreviation connector_ok := (connector_ok (cfg := cfg) (K := K) (E := E) (C := C) (Q := Q)).
Abbreviation freed := (freed (cfg := cfg) (has_cache_item := has_cache_item) (K := K) (E := E) (C := C) (Q := Q)).

(** The runner ran the scheduled requests that are still there. *)
Record model_ran (o : SchedulerOutput) (out : ModelRunnerOutput) (s : t) : Prop := ModelRan {
  ran_sampled : ∀ id r, id ∈ od_keys (num_scheduled_tokens o) → requests s !! id = Some r → is_finished r = false →
    ∃ generated, sampled_for out id generated ∧ sampled_ok (zlen (default [] (od_get id (scheduled_spec_decode_tokens o)))) r generated;
  ran_pooler : pooler_output out = [];
  ran_recving : kv_finished_recving out = [];
  ran_sending : NoDup (kv_finished_sending out)
    ∧ ∀ id, id ∈ kv_finished_sending out → ∃ r, requests s !! id = Some r ∧ is_finished r = true
}.

(** ** One request *)

(** The state without the requests that stopped in this step. *)
Definition remaining (stopped : list string) (s : t) : t := set_running (filter (λ x, x ∉ stopped) (running s)) s.

(** A running request whose output is not processed yet is as [schedule] left it. *)
Definition awaiting scheduled spec (rest : list (string * Z)) (k : K) (id : string) (r : Request) : Prop :=
  if decide (id ∈ od_keys rest) then pending scheduled spec k id r else between k id r.

Lemma update_with_output id r tokens (s : t) :
  good_config cfg → requests s !! id = Some r → generates (cfg := cfg) r →
  runs (update_request_with_output cfg id tokens) s (λ p s', ∃ r', s' = set_requests (<[id := r']> (requests s)) s ∧ same_input r r'
    ∧ num_tokens r' = num_tokens r + zlen p.1 ∧ num_output_tokens r' = num_output_tokens r + zlen p.1
    ∧ if p.2 : bool then is_finished r' = true else p.1 = tokens ∧ status r' = status r ∧ (tokens = [] ∨ num_tokens r' < max_model_len cfg)).
Proof.
  intros Hg Hr Hgen. unfold update_request_with_output. apply (runs_get_request id r); [done|]. rewrite (g_sync _ Hg).
  destruct (append_checked_spec (cfg := cfg) tokens r Hgen) as (p & r' & Hrun & HP). exists p, (set_requests (<[id := r']> (requests s)) s).
  split; [unfold run_on_request; by rewrite Hr, Hrun|]. by exists r'.
Qed.

(** The computed tokens, once the rejected drafts do not count. *)
Definition accepted (drafts : Z) (generated : list Z) (r : Request) : Request :=
  if negb (drafts =? 0) && negb (zlen generated =? 0) then reject_drafts (drafts - (zlen generated - 1)) r else r.

Lemma accepted_spec k id n scheduled spec generated r :
  od_get id scheduled = Some n → request_ok r → pending scheduled spec k id r → generated ≠ [] →
  let drafts := zlen (default [] (od_get id spec)) in
  sampled_ok drafts r generated →
  let r' := accepted drafts generated r in
  num_computed_tokens r' = num_tokens r + zlen generated - 1 ∧ kv_ready k id (num_computed_tokens r') ∧ num_tokens r' = num_tokens r
  ∧ request_ok r' ∧ status r' = status r ∧ ident r' = ident r.
Proof.
  intros Hn Hok. unfold pending, SchedulerStep.pending. rewrite Hn. cbv zeta. set (d := zlen (default [] (od_get id spec))).
  intros (Hc & Hk & Hle & Hd) Hne Hs. assert (0 ≤ d) by apply zlen_nonneg. assert (1 ≤ zlen generated) as Hg1.
  { destruct generated as [|g gs]; [done|]. rewrite zlen_cons. pose proof (zlen_nonneg gs). lia. }
  unfold sampled_ok in Hs. destruct (Z.ltb_spec (num_computed_tokens r) (num_tokens r)) as [Hlt|Hge]; [done|].
  unfold accepted. rewrite (proj2 (Z.eqb_neq (zlen generated) 0)), andb_true_r by lia. destruct (Z.eqb_spec d 0) as [Hd0|Hd0]; simpl.
  - split; [lia|]. split; [done|]. split; [done|]. by split.
  - pose proof (r_placeholders _ _ _ Hok) as Hp. pose proof (r_tokens _ _ _ Hok) as Ht. unfold reject_drafts. rewrite (proj2 (Z.ltb_lt 0 (num_computed_tokens r))) by lia.
    change (num_output_placeholders (set_num_computed_tokens _ r)) with (num_output_placeholders r). rewrite Hp. simpl.
    assert (num_computed_tokens r - (d - (zlen generated - 1)) = num_tokens r + zlen generated - 1) as Hc' by lia.
    split; [exact Hc'|]. split; [|split; [done|split; [|done]]].
    + unfold set_num_computed_tokens, num_computed_tokens. simpl. eapply kv_ready_le; [|exact Hk].
      unfold num_computed_tokens in *. lia.
    + destruct Hok as [R1 R2 R3 R4 R5 R6 R7 R8]. split; try done. unfold set_num_computed_tokens, num_computed_tokens in *. simpl. lia.
Qed.

Lemma accept_step id r drafts generated (s : t) :
  requests s !! id = Some r →
  runs (if negb (drafts =? 0) && negb (zlen generated =? 0) then update_request id (reject_drafts (drafts - (zlen generated - 1))) else ret tt) s
    (λ _ s', s' = set_requests (<[id := accepted drafts generated r]> (requests s)) s).
Proof.
  intros Hr. unfold accepted. destruct (_ && _).
  - unfold update_request. runs_step. f_equal. apply map_eq. intros x.
    destruct (decide (x = id)) as [->|Hx]; [by rewrite lookup_alter_eq, lookup_insert_eq, Hr|by rewrite lookup_alter_ne, lookup_insert_ne].
  - runs_step. rewrite insert_id by done. by destruct s.
Qed.

(** A request that stopped is finished: its blocks are freed, or a connector sends them. *)
Lemma stopped_step id r n (s : t) :
  requests s !! id = Some r → request_id r = id → is_finished r = true → resumable r = false → enc_valid (mm_of r) →
  kv_inv (kv s) → kv_ready (kv s) id n → enc_inv (enc s) → connector_ok s →
  runs (let* finished := handle_stopped_request id in (if finished : bool then free_request id false else ret tt)) s (λ _ s', freed id s s').
Proof.
  intros Hr Hid Hf Hres Hv Hk Hn He Hc. apply (runs_seq _ _ _ (λ b s', b = true ∧ s' = s)).
  - unfold handle_stopped_request. apply (runs_get_request id r); [done|]. rewrite Hres. simpl. by runs_step.
  - intros b s' [-> ->]. by apply (free_request_spec s id r n false).
Qed.

(** The request with its output. *)
Lemma output_ok r r1 r2 (generated : list Z) :
  request_ok r → request_ok r1 → ident r1 = ident r → num_tokens r1 = num_tokens r → same_input r1 r2 → 
  num_tokens r2 = num_tokens r1 + zlen generated → num_output_tokens r2 = num_output_tokens r1 + zlen generated →
  num_tokens r2 < max_model_len cfg → request_ok r2.
Proof.
  intros Hok [R1 R2 R3 R4 R5 R6 R7 R8 R9] Hi1 Hn1 (S1 & S2 & S3 & S4 & S5) Hn Ho Hlt. pose proof (zlen_nonneg generated).
  assert (mm_of r2 = mm_of r1) as Hmm by (unfold mm_of, request_id; by rewrite S1, S3). split.
  - lia.
  - rewrite Hn, Ho. unfold num_prompt_tokens in *. rewrite S5. lia.
  - unfold num_computed_tokens in *. by rewrite S2.
  - unfold sampling_params, num_prompt_tokens in *. by rewrite S4, S5.
  - by rewrite S1.
  - unfold resumable in *. by rewrite S1.
  - unfold num_output_placeholders in *. by rewrite S2.
  - by rewrite Hmm.
  - unfold num_cached_tokens in *. rewrite S2. lia.
Qed.

Lemma request_generates r : request_ok r → generates (cfg := cfg) r.
Proof. intros [R1 R2 R3 R4 R5 R6 R7 R8]. by split. Qed.

(** *** The places *)

Lemma remaining_in stopped (s : t) x : x ∈ running (remaining stopped s) ↔ (x ∉ stopped) ∧ x ∈ running s.
Proof. unfold remaining. simpl. by rewrite list_elem_of_filter. Qed.

Lemma remaining_stop scheduled spec rest id n stopped (s s' : t) :
  base [] (awaiting scheduled spec ((id, n) :: rest)) True (remaining stopped s) → id ∈ running (remaining stopped s) →
  running s' = running s → waiting s' = waiting s → prev_step_scheduled_req_ids s' = prev_step_scheduled_req_ids s →
  (∀ x, x ≠ id → requests s' !! x = requests s !! x) → (∀ x m, x ≠ id → kv_ready (kv s) x m → kv_ready (kv s') x m) →
  kv_inv (kv s') → enc_inv (enc s') → connector_ok s' →
  match requests s' !! id with None => kv_ready (kv s') id 0 | Some r => request_id r = id ∧ is_finished r = true ∧ ∃ n, kv_ready (kv s') id n end →
  base [] (awaiting scheduled spec rest) True (remaining (stopped ++ [id]) s').
Proof.
  intros Hb Hin Hrun Hwait Hprev Hreq Hframe Hk He Hc Hid.
  assert (∀ x, x ∈ running (remaining (stopped ++ [id]) s') ↔ x ∈ running (remaining stopped s) ∧ x ≠ id) as Hiff.
  { intros x. rewrite !remaining_in, Hrun, elem_of_app, list_elem_of_singleton. tauto. }
  pose proof (b_nodup _ _ _ _ _ _ Hb) as (Hnd1 & Hnd & Hnd2)%NoDup_app. simpl in Hnd2. rewrite app_nil_r in Hnd2.
  assert (NoDup (running (remaining (stopped ++ [id]) s'))) as Hnd'.
  { unfold remaining. simpl. rewrite Hrun. assert (filter (λ x, x ∉ stopped ++ [id]) (running s) = filter (λ x, x ≠ id) (filter (λ x, x ∉ stopped) (running s))) as ->.
    { rewrite list_filter_filter. apply list_filter_iff. intros x. rewrite elem_of_app, list_elem_of_singleton. tauto. }
    apply NoDup_filter. exact Hnd1. }
  apply (base_leave [] [] (awaiting scheduled spec ((id, n) :: rest)) _ True (remaining stopped s) _ id); simpl; rewrite ?app_nil_r, ?Hwait; try done.
  - apply elem_of_app. by left.
  - intros x. split; [|by intros [? _]]. intros Hx. split; [done|]. intros ->. apply (Hnd id Hin). by rewrite app_nil_r.
  - unfold zlen. apply inj_le, submseteq_length, NoDup_submseteq; [done|]. intros x Hx%Hiff. apply Hx.
  - intros x r Hx. unfold awaiting. simpl. intros Hl. assert (∀ m, kv_ready (kv s) x m → kv_ready (kv s') x m) as Hkx by (intros m; by apply Hframe).
    destruct (decide (x ∈ od_keys rest)) as [Hr|Hr].
    + rewrite decide_True in Hl by (by right). by apply (pending_stable scheduled spec (kv s)).
    + rewrite decide_False in Hl by (by intros [?|?]%elem_of_cons). by apply (between_stable (kv s)).
Qed.

(** ** The loop over the scheduled requests *)

Lemma sampled_for_inj out id g1 g2 : sampled_for out id g1 → sampled_for out id g2 → g1 = g2.
Proof.
  intros (i1 & Hi1 & H1) (i2 & Hi2 & H2). rewrite Hi1 in Hi2. injection Hi2 as <-. destruct (sampled_token_ids out); [congruence|].
  rewrite H1 in H2. by injection H2.
Qed.

(** The request has ended, or is gone. *)
Definition ended (s : t) (id : string) : Prop := ∀ r, requests s !! id = Some r → is_finished r = true.

Record loop_inv (o : SchedulerOutput) (out : ModelRunnerOutput) (s0 : t) (acc : results) (rest : list (string * Z)) (s : t) : Prop := LoopInv {
  li_base : base [] (awaiting (num_scheduled_tokens o) (scheduled_spec_decode_tokens o) rest) True (remaining (stopped_running acc) s);
  li_preempted : stopped_preempted acc = [];
  li_running : running s = running s0;
  li_rest : ∀ x, x ∈ od_keys rest → requests s !! x = requests s0 !! x ∧ x ∉ stopped_running acc;
  li_moved : ∀ x r generated, x ∈ od_keys (num_scheduled_tokens o) → (x ∉ od_keys rest) → requests s0 !! x = Some r → is_finished r = false →
    sampled_for out x generated → moved r generated (requests s !! x);
  li_same : ∀ x, ended s0 x ∨ x ∉ od_keys (num_scheduled_tokens o) → requests s !! x = requests s0 !! x
}.

(** A request that is gone or has ended is passed over. *)
Lemma loop_skip o out (s0 : t) acc id n rest s :
  loop_inv o out s0 acc ((id, n) :: rest) s → (id ∉ od_keys rest) → (id ∉ running s0) →
  (∀ r, requests s0 !! id = Some r → is_finished r = true) → loop_inv o out s0 acc rest s.
Proof.
  intros [L1 L2 L3 L4 L5 L6] Hno Hnr Hf. split; try done.
  - eapply base_live; [exact L1|]. intros x r Hx _. rewrite remaining_in, L3 in Hx. destruct Hx as [_ Hx]. unfold awaiting. simpl.
    destruct (decide (x ∈ od_keys rest)); [by rewrite decide_True by (by right)|]. rewrite decide_False; [done|]. intros [->|?]%elem_of_cons; done.
  - intros x Hx. apply L4. by right.
  - intros x r g Hx Hxr Hr Hfr. destruct (decide (x = id)) as [->|Hne]; [by rewrite (Hf r Hr) in Hfr|]. apply L5; try done. by intros [?|?]%elem_of_cons.
Qed.

(** The request of the turn goes on. *)
Lemma loop_continue o out (s0 : t) acc acc' id n rest s r r2 generated :
  loop_inv o out s0 acc ((id, n) :: rest) s → (id ∉ od_keys rest) → id ∈ od_keys (num_scheduled_tokens o) →
  requests s !! id = Some r → is_finished r = false → id ∈ running s0 →
  request_id r2 = id → status r2 = RUNNING → request_ok r2 → between (kv s) id r2 →
  (∀ g, sampled_for out id g → g = generated) → moved r generated (Some r2) →
  stopped_running acc' = stopped_running acc → stopped_preempted acc' = stopped_preempted acc →
  loop_inv o out s0 acc' rest (set_requests (<[id := r2]> (requests s)) s).
Proof.
  intros [L1 L2 L3 L4 L5 L6] Hno Hkey Hr Hunf Hin Hid Hst Hok Hbt Hg Hm Ha1 Ha2. destruct (L4 id) as [Hr0 Hns]; [by left|].
  assert (<[id := r2]> (requests s) = alter (λ _, r2) id (requests s)) as Heq.
  { apply map_eq. intros x. destruct (decide (x = id)) as [->|Hx]; [by rewrite lookup_alter_eq, lookup_insert_eq, Hr|by rewrite lookup_alter_ne, lookup_insert_ne]. }
  split; rewrite ?Ha1, ?Ha2; try done.
  - rewrite Heq. change (remaining (stopped_running acc) (set_requests (alter (λ _, r2) id (requests s)) s))
      with (set_requests (alter (λ _, r2) id (requests (remaining (stopped_running acc) s))) (remaining (stopped_running acc) s)).
    apply (base_alter [] (awaiting (num_scheduled_tokens o) (scheduled_spec_decode_tokens o) ((id, n) :: rest))); [done|by rewrite remaining_in, L3| |].
    + intros r' Hr' _ _. destruct (b_placed _ _ _ _ _ _ L1 id r' Hr') as [Hid' Hp]. split; [|split; [done|]].
      * split; [by rewrite Hid, Hid'|]. destruct (base_running _ _ _ _ id L1) as (r'' & Hr'' & _ & Hs'' & _); [by rewrite remaining_in, L3|].
        simpl in Hr', Hr''. rewrite Hr' in Hr''. injection Hr'' as <-. by rewrite Hst, Hs''.
      * unfold awaiting. by rewrite decide_False.
    + intros x r' Hx. unfold awaiting. simpl. destruct (decide (x ∈ od_keys rest)); [by rewrite decide_True by (by right)|]. rewrite decide_False; [done|].
      by intros [?|?]%elem_of_cons.
  - intros x Hx. assert (x ≠ id) by (by intros ->). simpl. rewrite lookup_insert_ne by done. apply L4. by right.
  - intros x rx g Hx Hxr Hrx Hf Hgx. simpl. destruct (decide (x = id)) as [->|Hne].
    + rewrite lookup_insert_eq, (Hg g Hgx). rewrite <- Hr0, Hr in Hrx. by injection Hrx as <-.
    + rewrite lookup_insert_ne by done. apply L5; try done. by intros [?|?]%elem_of_cons.
  - intros x Hx. simpl. rewrite lookup_insert_ne; [by apply L6|]. intros ->. destruct Hx as [Hx|Hx]; [|done]. rewrite (Hx r) in Hunf; [done|by rewrite <- Hr0].
Qed.

(** The request of the turn has stopped. *)
Lemma loop_stop o out (s0 : t) acc acc' id n rest s s2 r r2 :
  loop_inv o out s0 acc ((id, n) :: rest) s → (id ∉ od_keys rest) → id ∈ od_keys (num_scheduled_tokens o) →
  requests s !! id = Some r → is_finished r = false → id ∈ running s0 →
  request_id r2 = id → is_finished r2 = true → freed id (set_requests (<[id := r2]> (requests s)) s) s2 →
  stopped_running acc' = stopped_running acc ++ [id] → stopped_preempted acc' = stopped_preempted acc → loop_inv o out s0 acc' rest s2.
Proof.
  intros [L1 L2 L3 L4 L5 L6] Hno Hkey Hr Hunf Hin Hid Hf [F1 F2 F3 F4 F5 F6 F7 F8] Ha1 Ha2. simpl in *. destruct (L4 id) as [Hr0 Hns]; [by left|].
  assert (∀ x, x ≠ id → requests s2 !! x = requests s !! x) as Hothers.
  { intros x Hx. destruct F8 as [[-> _]|[-> _]]; [by rewrite lookup_insert_ne|]. by rewrite lookup_delete_ne, lookup_insert_ne. }
  assert (requests s2 !! id = Some r2 ∧ (∃ m, kv_ready (kv s2) id m) ∨ requests s2 !! id = None ∧ kv_ready (kv s2) id 0) as Hself.
  { destruct F8 as [[-> ?]|[-> ?]]; [left; by rewrite lookup_insert_eq|right; by rewrite lookup_delete_eq]. }
  split; rewrite ?Ha1, ?Ha2; try done.
  - apply (remaining_stop _ _ rest id n _ s s2); try done; [by rewrite remaining_in, L3|]. by destruct Hself as [[-> ?]|[-> ?]].
  - by rewrite F1.
  - intros x Hx. assert (x ≠ id) by (by intros ->). rewrite Hothers by done. destruct (L4 x) as [? ?]; [by right|]. split; [done|].
    by intros [?|?%list_elem_of_singleton]%elem_of_app.
  - intros x rx g Hx Hxr Hrx Hfx Hgx. destruct (decide (x = id)) as [->|Hne]; [destruct Hself as [[-> _]|[-> _]]; [by left|done]|].
    rewrite Hothers by done. apply L5; try done. by intros [?|?]%elem_of_cons.
  - intros x Hx. rewrite Hothers; [by apply L6|]. intros ->. destruct Hx as [Hx|Hx]; [|done]. rewrite (Hx r) in Hunf; [done|by rewrite <- Hr0].
Qed.

(** What the output is made of does not matter here: the state and the stopped ids do. *)
Lemma finish_output (s : t) (acc : results) (P : results → t → Prop) client e (b : bool) :
  (∀ x, P (Results x (stopped_running acc) (stopped_preempted acc)) s) →
  runs (if b then ret (Results (add_output client e (outputs acc)) (stopped_running acc) (stopped_preempted acc)) else ret acc) s P.
Proof. intros HP. destruct b; runs_step; [done|]. specialize (HP (outputs acc)). by destruct acc. Qed.

Lemma loop_inv_outputs o out s0 acc rest s x :
  loop_inv o out s0 acc rest s → loop_inv o out s0 (Results x (stopped_running acc) (stopped_preempted acc)) rest s.
Proof. by intros [L1 L2 L3 L4 L5 L6]. Qed.

(** The output of a request [r] whose drafts are counted in [r1]. *)
Lemma output_step id r r1 generated (s : t) :
  good_config cfg → requests s !! id = Some r → request_ok r1 →
  runs (match generated with
        | _ :: _ => update_request_with_output cfg id generated
        | [] => if pooling_params (ident r1) && false then update_request id (set_status FINISHED_STOPPED) ;;; ret ([], true) else ret ([], false)
        end) (set_requests (<[id := r1]> (requests s)) s)
    (λ p s', ∃ r2, s' = set_requests (<[id := r2]> (requests s)) s ∧ same_input r1 r2
      ∧ num_tokens r2 = num_tokens r1 + zlen p.1 ∧ num_output_tokens r2 = num_output_tokens r1 + zlen p.1
      ∧ if p.2 : bool then is_finished r2 = true else p.1 = generated ∧ status r2 = status r1 ∧ num_tokens r2 < max_model_len cfg).
Proof.
  intros Hg Hr Hok. destruct generated as [|g gs].
  - rewrite andb_false_r. runs_step. exists r1. split; [done|]. split; [done|]. cbn [fst snd]. change (zlen (@nil Z)) with 0.
    split; [lia|]. split; [lia|]. split; [done|]. split; [done|]. apply Hok.
  - eapply runs_mono; [apply (update_with_output id r1 (g :: gs)); [done|simpl; by rewrite lookup_insert_eq|by apply request_generates]|].
    intros [ids stopped] s' (r2 & -> & Hs & Ht & Ho & Hst). exists r2. simpl. rewrite insert_insert_eq. split; [done|]. split; [done|]. split; [done|].
    split; [done|]. destruct stopped; [done|]. by destruct Hst as (? & ? & [?|?]).
Qed.

(** The request once its drafts are counted. *)
Lemma counted_spec k id n scheduled spec generated r :
  od_get id scheduled = Some n → request_ok r → status r = RUNNING → pending scheduled spec k id r →
  let drafts := zlen (default [] (od_get id spec)) in
  sampled_ok drafts r generated →
  let r1 := accepted drafts generated r in
  request_ok r1 ∧ ident r1 = ident r ∧ status r1 = RUNNING ∧ num_tokens r1 = num_tokens r ∧ keeps_slots cfg k id r1
  ∧ num_computed_tokens r1 = if decide (generated = []) then num_computed_tokens r else num_tokens r + zlen generated - 1.
Proof.
  intros Hn Hok Hst Hp drafts Hs. cbv zeta. case_decide as Hg.
  - subst generated. unfold accepted. change (zlen (@nil Z)) with 0. rewrite andb_false_r. unfold SchedulerStep.pending in Hp. rewrite Hn in Hp.
    destruct Hp as (? & ? & ?). unfold keeps_slots. rewrite Z.max_r by lia. done.
  - destruct (accepted_spec k id n _ _ generated r Hn Hok Hp Hg Hs) as (A1 & A2 & A3 & A4 & A5 & A6). fold drafts in A1, A2, A3, A4, A5, A6.
    rewrite A5. destruct (r_tokens _ _ _ Hok) as [? _]. destruct generated as [|g gs]; [done|]. rewrite zlen_cons in A1 |- *. pose proof (zlen_nonneg gs).
    unfold keeps_slots. rewrite Z.max_r by lia. done.
Qed.

(** A request that goes on has a token to compute, and slots for the computed ones. *)
Lemma goes_on k id drafts generated r r1 r2 :
  num_computed_tokens r1 = (if decide (generated = []) then num_computed_tokens r else num_tokens r + zlen generated - 1) →
  keeps_slots cfg k id r1 → num_tokens r1 = num_tokens r → sampled_ok drafts r generated →
  prog r2 = prog r1 → num_tokens r2 = num_tokens r1 + zlen generated → between k id r2 ∧ moved r generated (Some r2).
Proof.
  intros Hc Hk Ht1 Hs Hp Ht. assert (num_computed_tokens r2 = num_computed_tokens r1) as Hc2 by (unfold num_computed_tokens; by rewrite Hp).
  unfold SchedulerInv.between, keeps_slots, moved. rewrite Hc2, Ht, Ht1. unfold sampled_ok in Hs. case_decide as Hg.
  - subst generated. change (zlen (@nil Z)) with 0 in *. destruct (Z.ltb_spec (num_computed_tokens r) (num_tokens r)); [|lia].
    split; [split; [lia|done]|right; lia].
  - split; [split; [lia|done]|right; lia].
Qed.

Lemma update_running o out (s0 : t) acc id n rest s r generated :
  good_config cfg → loop_inv o out s0 acc ((id, n) :: rest) s → (id ∉ od_keys rest) → requests s !! id = Some r → id ∈ running s0 → 0 < n →
  od_get id (num_scheduled_tokens o) = Some n → sampled_for out id generated → pooler_output out = [] →
  sampled_ok (zlen (default [] (od_get id (scheduled_spec_decode_tokens o)))) r generated →
  runs (update_one cfg (scheduled_spec_decode_tokens o) out acc (id, n)) s (λ acc' s', loop_inv o out s0 acc' rest s').
Proof.
  intros Hg Hinv Hno Hr Hin Hn0 Hn Hs Hpool Hok. pose proof Hinv as [L1 L2 L3 L4 L5 L6]. destruct (L4 id) as [_ Hns]; [by left|].
  destruct (base_running _ _ _ _ id L1) as (r' & Hr' & Hid & Hst & Hrok & Hp); [by rewrite remaining_in, L3|]. simpl in Hr'. rewrite Hr in Hr'.
  injection Hr' as <-. unfold awaiting in Hp. rewrite decide_True in Hp by left. simpl in Hp.
  set (drafts := zlen _) in Hok. set (r1 := accepted drafts generated r).
  assert (id ∈ od_keys (num_scheduled_tokens o)) as Hkey by (apply od_get_is_Some; by rewrite Hn).
  destruct (counted_spec (kv s) id n _ _ generated r Hn Hrok Hst Hp Hok) as (Q1 & Q2 & Q3 & Q4 & Q5 & Q6). fold drafts r1 in Q1, Q2, Q3, Q4, Q5, Q6.
  unfold update_one. apply runs_passert; [by apply Z.ltb_lt|]. runs_step. rewrite Hr. unfold is_finished at 1. rewrite Hst. cbn [status_is_finished status_value].
  change (5 >? 6) with false. cbv iota. destruct Hs as (index & Hix & Hgen). apply (runs_lift _ index); [by rewrite Hix|].
  assert (match sampled_token_ids out with [] => ret (S := t) [] | l => lift (py_index l index) end = ret generated) as ->.
  { destruct (sampled_token_ids out); [by rewrite Hgen|by rewrite Hgen]. }
  runs_step. eapply runs_seq; [by apply (accept_step id r)|]. intros [] s1 ->. fold drafts r1. rewrite Hpool. runs_step.
  apply (runs_get_request id r1); [simpl; by rewrite lookup_insert_eq|]. eapply runs_seq; [by apply (output_step id r r1 generated s)|].
  intros [ids stopped] s2 (r2 & -> & Hsame & Ht & Ho & Hst2). cbn [fst snd] in *.
  apply (runs_get_request id r2); [simpl; by rewrite lookup_insert_eq|]. pose proof Hsame as (I1 & I2 & I3 & I4 & I5).
  assert (request_id r2 = id) as Hid2 by (unfold request_id in *; by rewrite I1, Q2). destruct stopped.
  - apply runs_bind, runs_assoc. eapply runs_seq; [apply (stopped_step id r2 (Z.max 1 (num_computed_tokens r1))); simpl; try done; try exact Q5|].
    + by rewrite lookup_insert_eq.
    + unfold resumable. rewrite I1. apply (r_resumable _ _ _ Q1).
    + assert (mm_of r2 = mm_of r1) as -> by (unfold mm_of, request_id; by rewrite I1, I3). apply (r_features _ _ _ Q1).
    + by apply b_kv in L1.
    + by apply b_enc in L1.
    + intros c Hc. by apply (b_conn _ _ _ _ _ _ L1 c).
    + intros [] s3 Hf. runs_step. rewrite Q3, decide_True by done. apply finish_output. intros x. apply loop_inv_outputs.
      by apply (loop_stop o out s0 acc _ id n rest s s3 r r2); try done; unfold is_finished; rewrite Hst.
  - destruct Hst2 as (-> & Hs2 & Hlt2). runs_step. apply finish_output. intros x.
    destruct (goes_on (kv s) id drafts generated r r1 r2 Q6 Q5 Q4 Hok I2 Ht) as [Hbt Hmv].
    apply (loop_continue o out s0 acc _ id n rest s r r2 generated); try done; [by unfold is_finished; rewrite Hst|congruence|by apply (output_ok r r1 r2 generated)|].
    intros g Hgs. apply (sampled_for_inj out id); [done|]. by exists index.
Qed.

(** The requests that the output is about: they run, unless they were finished since. *)
Definition output_current (o : SchedulerOutput) (s : t) : Prop :=
  NoDup (od_keys (num_scheduled_tokens o)) ∧ ∀ id n, od_get id (num_scheduled_tokens o) = Some n →
    0 < n ∧ ∀ r, requests s !! id = Some r → is_finished r = false → id ∈ running s.

Lemma update_one_spec o out (s0 : t) acc id n rest s :
  good_config cfg → output_current o s0 → model_ran o out s0 → base [] (pending (num_scheduled_tokens o) (scheduled_spec_decode_tokens o)) True s0 →
  loop_inv o out s0 acc ((id, n) :: rest) s → (id ∉ od_keys rest) → od_get id (num_scheduled_tokens o) = Some n →
  runs (update_one cfg (scheduled_spec_decode_tokens o) out acc (id, n)) s (λ acc' s', loop_inv o out s0 acc' rest s').
Proof.
  intros Hg [_ Hcur] Hran Hb Hinv Hno Hn. destruct (Hcur id n Hn) as [Hn0 Hrun]. destruct (li_rest _ _ _ _ _ _ Hinv id) as [Hr0 _]; [by left|].
  assert (∀ r, requests s0 !! id = Some r → is_finished r = true → id ∉ running s0) as Hfin.
  { intros r Hr Hf Hin. destruct (base_running _ _ _ _ id Hb Hin) as (r' & Hr' & _ & Hst & _). rewrite Hr in Hr'. injection Hr' as <-.
    unfold is_finished in Hf. by rewrite Hst in Hf. }
  destruct (requests s !! id) as [r|] eqn:Hr; symmetry in Hr0.
  - destruct (is_finished r) eqn:Hf.
    + unfold update_one. apply runs_passert; [by apply Z.ltb_lt|]. runs_step. rewrite Hr, Hf. runs_step.
      apply (loop_skip o out s0 acc id n rest s); try done; [by apply (Hfin r)|]. intros r' Hr'. rewrite Hr0 in Hr'. by injection Hr' as <-.
    + destruct (ran_sampled _ _ _ Hran id r) as (generated & Hs & Hok); [apply od_get_is_Some; by rewrite Hn|done|done|].
      apply (update_running o out s0 acc id n rest s r generated); try done; [by apply (Hrun r)|apply (ran_pooler _ _ _ Hran)].
  - unfold update_one. apply runs_passert; [by apply Z.ltb_lt|]. runs_step. rewrite Hr. runs_step.
    apply (loop_skip o out s0 acc id n rest s); try done; [|by rewrite Hr0]. intros Hin.
    destruct (base_running _ _ _ _ id Hb Hin) as (r' & Hr' & _). by rewrite Hr0 in Hr'.
Qed.

Lemma update_loop_spec o out (s0 : t) acc pre rest s :
  good_config cfg → output_current o s0 → model_ran o out s0 → base [] (pending (num_scheduled_tokens o) (scheduled_spec_decode_tokens o)) True s0 →
  num_scheduled_tokens o = pre ++ rest → loop_inv o out s0 acc rest s →
  runs (update_loop cfg (scheduled_spec_decode_tokens o) out acc rest) s (λ acc' s', loop_inv o out s0 acc' [] s').
Proof.
  intros Hg Hcur Hran Hb. revert acc pre s. induction rest as [|[id n] rest IH]; intros acc pre s Hpre Hinv; [by apply runs_ret|]. simpl.
  pose proof Hcur as [Hnd _]. assert (od_get id (num_scheduled_tokens o) = Some n) as Hn.
  { apply od_elem_get; [done|]. rewrite Hpre. apply elem_of_app. right. by left. }
  assert (id ∉ od_keys rest) as Hno.
  { rewrite Hpre in Hnd. unfold od_keys in Hnd. rewrite fmap_app in Hnd. apply NoDup_app in Hnd as (_ & _ & Hnd). by apply NoDup_cons in Hnd as [? _]. }
  eapply runs_seq; [by apply (update_one_spec o out s0 acc id n rest s)|]. intros acc1 s1 Hinv1. apply (IH acc1 (pre ++ [(id, n)]) s1); [|done].
  by rewrite <- app_assoc.
Qed.

(** *** The stopped requests leave, and the connector reports *)

Lemma remove_all_filter (l stopped : list string) : NoDup l → remove_all l stopped = filter (λ x, x ∉ stopped) l.
Proof.
  intros Hnd. destruct stopped as [|x [|y ys]]; simpl; [| |done].
  - induction l as [|y l IH]; [done|]. apply NoDup_cons in Hnd as [_ Hnd]. rewrite filter_cons_True by (by intros ?%elem_of_nil). by rewrite <- IH.
  - assert (∀ l : list string, (x ∉ l) → filter (λ y, y ∉ [x]) l = l) as Hout.
    { clear. intros l. induction l as [|y l IH]; [done|]. intros Hx. apply not_elem_of_cons in Hx as [Hne Hx].
      rewrite filter_cons_True by (by intros ->%list_elem_of_singleton). by rewrite IH. }
    induction l as [|y l IH]; [done|]. apply NoDup_cons in Hnd as [Hy Hnd]. simpl. case_decide as Hyx.
    + subst y. rewrite filter_cons_False by (intros Hn; apply Hn; by left). by rewrite Hout.
    + rewrite filter_cons_True by (by intros ->%list_elem_of_singleton). rewrite <- IH by done. by destruct (remove_first x l).
Qed.

Lemma remaining_base o out (s0 s : t) acc :
  loop_inv o out s0 acc [] s → NoDup (running s0) → base [] between True (set_running (remove_all (running s) (stopped_running acc)) s).
Proof.
  intros [L1 L2 L3 L4 L5 L6] Hnd. rewrite remove_all_filter by (by rewrite L3). eapply base_live; [exact L1|]. intros id r _ _. unfold awaiting.
  rewrite decide_False; [done|]. by intros ?%elem_of_nil.
Qed.

(** The blocks of a finished request are freed. *)
Lemma base_delete sk live fresh (s s' : t) id r :
  stable live → base sk live fresh s → requests s !! id = Some r → is_finished r = true → freed id s s' → requests s' = delete id (requests s) →
  base sk live fresh s'.
Proof.
  intros Hst [H1 H2 H3 H4 H5 H6 H7 H8] Hr Hf [F1 F2 F3 F4 F5 F6 F7 F8] Hreq.
  destruct (H3 id r Hr) as [_ Hp]. assert (id ∉ running s ++ queue_elements (waiting s) ++ sk) as Hout.
  { destruct Hp as [? Hs ? ?|? Hw ? ? ? ?|]; [unfold is_finished in Hf; by rewrite Hs in Hf| |done]. apply waits_not_finished in Hw. by rewrite Hw in Hf. }
  split; rewrite ?F1, ?F2, ?Hreq; try done.
  - intros x Hx. rewrite lookup_delete_ne; [by apply H2|]. by intros <-.
  - intros x rx. rewrite lookup_delete_Some. intros [Hne Hrx]. destruct (H3 x rx Hrx) as [Hid Hpl]. split; [done|].
    destruct Hpl as [Hi ? ? Hl|Hi ? ? ? ? ?|n Hi ? ?].
    + apply PRunning; rewrite ?F1; try done. apply (Hst (kv s)); [|done]. intros n. by apply F5.
    + apply PWaiting; rewrite ?F2, ?F3; auto.
    + apply (PFinished _ _ _ _ _ _ _ _ n); rewrite ?F1, ?F2; auto.
  - intros x. destruct (decide (x = id)) as [->|Hne]; intros Hx.
    + destruct F8 as [[He _]|[_ ?]]; [|done]. rewrite He in Hreq. assert (requests s !! id = delete id (requests s) !! id) as Hc by (by rewrite <- Hreq).
      rewrite lookup_delete_eq, Hr in Hc. done.
    + rewrite lookup_delete_ne in Hx by done. apply F5; auto.
Qed.

Lemma sending_spec sending (s : t) :
  base [] between True s → NoDup sending → (∀ id, id ∈ sending → ∃ r, requests s !! id = Some r ∧ is_finished r = true) →
  runs (for_each sending finished_sending) s (λ _ s', base [] between True s' ∧ (∀ x, x ∉ sending → requests s' !! x = requests s !! x)
    ∧ ∀ x, requests s' !! x = requests s !! x ∨ requests s' !! x = None).
Proof.
  intros Hb Hnd Hf. eapply runs_mono; [apply (runs_for_each (λ rest s', base [] between True s' ∧ NoDup rest
    ∧ (∀ id, id ∈ rest → id ∈ sending ∧ ∃ r, requests s' !! id = Some r ∧ is_finished r = true)
    ∧ (∀ x, x ∉ sending → requests s' !! x = requests s !! x) ∧ ∀ x, requests s' !! x = requests s !! x ∨ requests s' !! x = None))|].
  - intros id rest s1 (Hb1 & Hnd1 & Hf1 & Hsame & Hgone). apply NoDup_cons in Hnd1 as [Hno Hnd1]. destruct (Hf1 id) as (Hin & r & Hr & Hfin); [by left|].
    destruct (b_placed _ _ _ _ _ _ Hb1 id r Hr) as [Hid Hp]. assert (∃ n, kv_ready (kv s1) id n) as [n Hn].
    { destruct Hp as [? ? ? [? ?]|? ? ? ? ? ?|n ? ? ?]; by eexists. }
    unfold finished_sending. runs_step. apply runs_passert; [by rewrite Hr|].
    eapply runs_mono; [apply (scheduler_free_blocks s1 id r n); try done; [by apply b_kv in Hb1|by apply b_enc in Hb1|intros c Hc; by apply (b_conn _ _ _ _ _ _ Hb1 c)]|].
    intros [] s2 [Hfr Hdel]. split; [by apply (base_delete [] between True s1 s2 id r between_stable)|]. split; [done|]. split; [|split].
    + intros x Hx. assert (x ≠ id) by (by intros ->). rewrite Hdel, lookup_delete_ne by done. apply Hf1. by right.
    + intros x Hx. rewrite Hdel, lookup_delete_ne; [by apply Hsame|]. by intros ->.
    + intros x. rewrite Hdel. destruct (decide (x = id)) as [->|Hx]; [right; by rewrite lookup_delete_eq|rewrite lookup_delete_ne by done; apply Hgone].
  - split; [done|]. split; [done|]. split; [intros id Hid; by split; [|apply Hf]|]. split; [done|by left].
  - intros [] s' (H1 & _ & _ & H2). done.
Qed.

(** The loop over the outputs, and the requests that stopped taken out. *)
Lemma loop_runs o out (s : t) :
  good_config cfg → base [] (pending (num_scheduled_tokens o) (scheduled_spec_decode_tokens o)) True s → output_current o s → model_ran o out s →
  runs (update_loop cfg (scheduled_spec_decode_tokens o) out (Results [] [] []) (num_scheduled_tokens o)) s (λ acc s1,
    stopped_preempted acc = [] ∧ base [] between True (set_running (remove_all (running s1) (stopped_running acc)) s1)
    ∧ (∀ id r generated, id ∈ od_keys (num_scheduled_tokens o) → requests s !! id = Some r → is_finished r = false →
        sampled_for out id generated → moved r generated (requests s1 !! id))
    ∧ ∀ id, ended s id ∨ id ∉ od_keys (num_scheduled_tokens o) → requests s1 !! id = requests s !! id).
Proof.
  intros Hg Hb Hcur Hran. pose proof (b_nodup _ _ _ _ _ _ Hb) as Hnd. apply NoDup_app in Hnd as (Hnd & _ & _).
  eapply runs_mono; [apply (update_loop_spec o out s (Results [] [] []) [] (num_scheduled_tokens o) s Hg Hcur Hran Hb eq_refl)|].
  { split; simpl; try done; [|by intros x _; split; [|by intros ?%elem_of_nil]].
    assert (remaining [] s = s) as ->.
    { unfold remaining. rewrite <- (remove_all_filter _ []) by done. by destruct s. }
    eapply base_live; [exact Hb|]. intros id r _ _. unfold awaiting, SchedulerStep.pending. case_decide as Hk; [done|]. apply od_get_None in Hk. by rewrite Hk. }
  intros acc s1 Hinv. split; [by apply (li_preempted _ _ _ _ _ _ Hinv)|]. split; [by apply (remaining_base o out s)|].
  split; [|by apply (li_same _ _ _ _ _ _ Hinv)]. intros id r g Hid Hr Hf Hs. apply (li_moved _ _ _ _ _ _ Hinv id r g); try done. by intros ?%elem_of_nil.
Qed.

(** What the connector reports. *)
Lemma xfer_runs sending (s : t) :
  base [] between True s → NoDup sending → (∀ id, id ∈ sending → ∃ r, requests s !! id = Some r ∧ is_finished r = true) →
  runs (update_from_kv_xfer_finished [] sending) s (λ _ s', base [] between True s' ∧ (∀ x, x ∉ sending → requests s' !! x = requests s !! x)
    ∧ ∀ x, requests s' !! x = requests s !! x ∨ requests s' !! x = None).
Proof.
  intros Hb Hnd Hf. unfold update_from_kv_xfer_finished. apply runs_bind.
  apply (runs_mono _ _ (λ _ s1, base [] between True s1 ∧ requests s1 = requests s)).
  { apply runs_on_connector; [done|]. intros c Hc. destruct (b_conn _ _ _ _ _ _ Hb c Hc) as [Hci Hm].
    eapply runs_mono; [by apply conn_output_law|]. intros [] c' Hc'. split; [by apply base_connector|done]. }
  intros [] s1 [Hb1 Hreq]. simpl. runs_step. rewrite <- Hreq. apply sending_spec; [done|done|]. by rewrite Hreq.
Qed.

(** What the model ran comes back to a scheduler in order, whose scheduled requests still
    run unless they were finished meanwhile, with a token for every request whose known
    tokens are all computed and at most one more than its drafts: [update_from_output]
    raises nothing, and the state is in order for the next step.  A request with output
    ends, or has all of it, with all its tokens but the last computed, drafts that were
    rejected no longer counted; one without output keeps its tokens. *)
Lemma update_runs o out (s : t) :
  good_config cfg → base [] (pending (num_scheduled_tokens o) (scheduled_spec_decode_tokens o)) True s → output_current o s → model_ran o out s →
  runs (update_from_output cfg o out) s (λ _ s', inv cfg has_cache_item s'
    ∧ (∀ id r generated, id ∈ od_keys (num_scheduled_tokens o) → requests s !! id = Some r → is_finished r = false →
        sampled_for out id generated → moved r generated (requests s' !! id))
    ∧ ∀ id, ended s id → ended s' id).
Proof.
  intros Hg Hb Hcur Hran. unfold update_from_output. eapply runs_seq; [by apply loop_runs|]. intros acc s1 (Hpre & Hb1 & Hm & He). runs_step. rewrite Hpre. runs_step.
  destruct (ran_sending _ _ _ Hran) as [Hsn Hsf]. rewrite (ran_recving _ _ _ Hran).
  eapply runs_seq; [apply xfer_runs; [done|done|]|].
  { intros id Hid. destruct (Hsf id Hid) as (r & Hr & Hf). exists r. split; [|done]. simpl. rewrite He; [done|]. left. intros r' Hr'. rewrite Hr in Hr'. by injection Hr' as <-. }
  intros [] s4 (Hb4 & Hsame & Hgone). simpl in *. runs_step. split; [done|]. split.
  - intros id r g Hid Hr Hf Hs. rewrite Hsame; [by apply (Hm id r g)|].
    intros Hin. destruct (Hsf id Hin) as (r' & Hr' & Hf'). rewrite Hr in Hr'. injection Hr' as <-. by rewrite Hf in Hf'.
  - intros id Hend r Hr. destruct (Hgone id) as [Hx|Hx]; [|by rewrite Hx in Hr]. rewrite Hx, (He id (or_introl Hend)) in Hr. by apply Hend.
Qed.
End result.
End SchedulerResult.
