(* ===== verification/SchedulerCalls.v ===== *)
(** The other calls of the scheduler (requests that come and that are aborted, draft tokens,
    a reset of the cache) keep its state in order. *)
From Stdlib Require Import QArith.
From stdpp Require Import gmap strings.
From S2P Require Export SchedulerResult.
From stdpp Require Import options.
Open Scope Z_scope.

Module SchedulerCalls.
Import SchedRequest Scheduler SchedulerInv SchedulerRun SchedulerTurn SchedulerStep SchedulerWait SchedulerLeave SchedulerResult.

Section calls.
Context {K B E C Q : Type} `{!KVCacheOps K B, !EncoderCacheOps E, !KVConnectorOps C B, !RequestQueueOps string Q}.
Context {cfg : config} {has_cache_item : option (string → bool)}.
Context `{!KVCacheLaws K B (max_model_len cfg), !EncoderLaws E (is_encoder_decoder cfg) (disable_chunked_mm_input cfg) has_cache_item,
          !KVConnectorLaws C B, !RequestQueueLaws string Q}.

Abbreviation t := (Scheduler.t K E C Q).
Abbreviation base := (base cfg has_cache_item (K := K) (B := B) (E := E) (C := C) (Q := Q)).
Abbreviation request_ok := (request_ok cfg has_cache_item).
Abbreviation connector_ok := (connector_ok (cfg := cfg) (K := K) (E := E) (C := C) (Q := Q)).

(** ** Requests that are finished from outside *)

Definition to_finish_as (s : t) (id : string) (runs : bool) : Prop :=
  ∃ r, requests s !! id = Some r ∧ is_finished r = false ∧ bool_decide (status r = RUNNING) = runs.

Lemma to_finish_elem (s : t) ids id :
  (id ∈ (to_finish s ids).1 ↔ id ∈ ids ∧ to_finish_as s id true) ∧ (id ∈ (to_finish s ids).2 ↔ id ∈ ids ∧ to_finish_as s id false).
Proof.
  induction ids as [|x ids IH]; simpl; [split; split; [by intros ?%elem_of_nil|by intros [?%elem_of_nil _]|by intros ?%elem_of_nil|by intros [?%elem_of_nil _]]|].
  destruct (to_finish s ids) as [run wait]. destruct IH as [IH1 IH2]. simpl in IH1, IH2.
  assert (∀ b (l : list string), (id ∈ l ↔ id ∈ ids ∧ to_finish_as s id b) → ¬ to_finish_as s x b → id ∈ l ↔ id ∈ x :: ids ∧ to_finish_as s id b) as Hskip.
  { intros b l -> Hx. rewrite elem_of_cons. split; [tauto|]. by intros [[->|?] ?]. }
  assert (∀ b (l : list string), (id ∈ l ↔ id ∈ ids ∧ to_finish_as s id b) → to_finish_as s x b → id ∈ x :: l ↔ id ∈ x :: ids ∧ to_finish_as s id b) as Hadd.
  { intros b l Hl Hx. rewrite !elem_of_cons, Hl. split; [intros [->|?]; tauto|tauto]. }
  destruct (requests s !! x) as [r|] eqn:Hr; [|split; apply Hskip; try done; intros (r & Hr' & _); congruence].
  destruct (is_finished r) eqn:Hf; [split; apply Hskip; try done; intros (r' & Hr' & ? & _); congruence|].
  assert (∀ b, to_finish_as s x b ↔ bool_decide (status r = RUNNING) = b) as Has.
  { intros b. split; [|intros Hb; by exists r]. intros (r' & Hr' & _ & Hb). rewrite Hr in Hr'. by injection Hr' as <-. }
  case_decide as Hst; simpl.
  - split; [apply Hadd|apply Hskip]; try done; rewrite Has; [by apply bool_decide_eq_true|by rewrite bool_decide_eq_true_2].
  - split; [apply Hskip|apply Hadd]; try done; rewrite Has; [by rewrite bool_decide_eq_false_2|by apply bool_decide_eq_false].
Qed.

Lemma to_finish_spec (s : t) ids :
  let '(run, wait) := to_finish s ids in
  (∀ id, id ∈ run ↔ id ∈ ids ∧ ∃ r, requests s !! id = Some r ∧ is_finished r = false ∧ status r = RUNNING)
  ∧ (∀ id, id ∈ wait ↔ id ∈ ids ∧ ∃ r, requests s !! id = Some r ∧ is_finished r = false ∧ status r ≠ RUNNING).
Proof.
  pose proof (to_finish_elem s ids) as H. destruct (to_finish s ids) as [run wait]. unfold to_finish_as in H.
  split; intros id; destruct (H id) as [H1 H2]; simpl in H1, H2; [rewrite H1|rewrite H2]; f_equiv; apply exist_proper; intros r; f_equiv; f_equiv.
  - apply bool_decide_eq_true.
  - apply bool_decide_eq_false.
Qed.

(** Where the requests that are about to be finished are: taken out of their places, but not
    finished yet. *)
Definition limbo (run wait rest : list string) live (s : t) : Prop :=
  base (filter (λ x, x ∈ wait) rest) live True (set_running (running s ++ filter (λ x, x ∈ run) rest) s).

(** One of them leaves its place. *)
Lemma limbo_step (P L : list string) id rest :
  (id ∉ rest) → (id ∉ L) → NoDup (L ++ filter (λ x, x ∈ P) (id :: rest)) →
  (∀ x, x ∈ L ++ filter (λ x, x ∈ P) rest ↔ x ∈ L ++ filter (λ x, x ∈ P) (id :: rest) ∧ x ≠ id)
  ∧ NoDup (L ++ filter (λ x, x ∈ P) rest) ∧ zlen (L ++ filter (λ x, x ∈ P) rest) ≤ zlen (L ++ filter (λ x, x ∈ P) (id :: rest)).
Proof.
  intros Hno HL Hnd. assert (id ∉ L ++ filter (λ x, x ∈ P) rest) as Hout.
  { intros [?|[_ ?]%list_elem_of_filter]%elem_of_app; done. }
  destruct (decide (id ∈ P)) as [HP|HP]; [rewrite filter_cons_True in * by done|rewrite filter_cons_False in * by done].
  - rewrite <- Permutation_middle in Hnd. apply NoDup_cons in Hnd as [_ Hnd]. split; [|split; [done|]].
    + intros x. rewrite <- Permutation_middle, elem_of_cons. split; [|by intros [[->|?] ?]]. intros Hx. split; [by right|]. by intros ->.
    + unfold zlen. rewrite !length_app. simpl. lia.
  - split; [|split; [done|lia]]. intros x. split; [|by intros [? _]]. intros Hx. split; [done|]. by intros ->.
Qed.

(** It was already taken out of its queue. *)
Lemma limbo_out (run wait L M : list string) id rest :
  NoDup ((L ++ filter (λ x, x ∈ run) (id :: rest)) ++ M ++ filter (λ x, x ∈ wait) (id :: rest)) → id ∈ run ++ wait → (id ∉ L) ∧ (id ∉ M).
Proof.
  intros (N1 & N2 & N3)%NoDup_app Hin. apply NoDup_app in N1 as (_ & N1 & _). apply NoDup_app in N3 as (_ & N3 & _).
  assert (id ∈ filter (λ x, x ∈ run) (id :: rest) ∨ id ∈ filter (λ x, x ∈ wait) (id :: rest)) as [Hf|Hf].
  { apply elem_of_app in Hin as [?|?]; [left|right]; apply list_elem_of_filter; (split; [done|by left]). }
  - split; intros Hx; [by apply (N1 id)|apply (N2 id); apply elem_of_app; auto].
  - split; intros Hx; [apply (N2 id); apply elem_of_app; auto|by apply (N3 id)].
Qed.

(** What a running request holds says for how many tokens it has slots, and other requests'
    calls do not change it. *)
Definition holds_slots (live : K → string → Request → Prop) : Prop := stable live ∧ ∀ k id r, live k id r → ∃ n, kv_ready k id n.

Lemma finish_one_spec run wait id rest live finished_status (s : t) r :
  holds_slots live → status_is_finished finished_status = true → limbo run wait (id :: rest) live s → (id ∉ rest) → id ∈ run ++ wait →
  requests s !! id = Some r → is_finished r = false →
  runs (finish_one finished_status id) s (λ _ s', limbo run wait rest live s' ∧ (∀ x, x ≠ id → requests s' !! x = requests s !! x)
    ∧ ∀ r', requests s' !! id = Some r' → is_finished r' = true).
Proof.
  intros [Hst Hheld] Hfs Hb Hno Hin Hr Hunf. pose proof Hb as Hb0. unfold limbo in Hb0. set (v := set_running _ s) in Hb0.
  destruct (b_placed _ _ _ _ _ _ Hb0 id r Hr) as [Hid Hp].
  assert (request_ok r ∧ (∃ n, kv_ready (kv s) id n) ∧ status r ≠ WAITING_FOR_REMOTE_KVS
    ∧ id ∈ running v ++ queue_elements (waiting v) ++ filter (λ x, x ∈ wait) (id :: rest)) as (Hok & [n Hn] & Hnr & Hplace).
  { destruct Hp as [Hi Hs ? Hl|Hi [Hw|[Hw|Hw]] ? ? ? ?|m ? Hf ?]; [| | | |by rewrite Hf in Hunf]; (split; [done|]); rewrite ?Hs, ?Hw.
    - split; [by apply (Hheld _ _ r)|]. split; [done|]. apply elem_of_app. by left.
    - split; [by exists 0|]. split; [done|]. apply elem_of_app. by right.
    - split; [by exists 0|]. split; [done|]. apply elem_of_app. by right.
    - split; [by exists 0|]. split; [done|]. apply elem_of_app. by right. }
  unfold finish_one. apply (runs_get_request id r); [done|]. runs_step. rewrite bool_decide_eq_false_2, decide_False by done. runs_step.
  unfold update_request. runs_step.
  eapply runs_mono; [apply (free_request_spec (cfg := cfg) (has_cache_item := has_cache_item) _ id (set_status finished_status r) n); try done; simpl|].
  - by rewrite lookup_alter_eq, Hr.
  - apply (r_features _ _ _ Hok).
  - by apply b_kv in Hb0.
  - by apply b_enc in Hb0.
  - intros c Hc. by apply (b_conn _ _ _ _ _ _ Hb0 c).
  - intros [] s' [F1 F2 F3 F4 F5 F6 F7 F8]. simpl in *.
    assert (∀ x, x ≠ id → requests s' !! x = requests s !! x) as Hothers.
    { intros x Hx. destruct F8 as [[-> _]|[-> _]]; [by rewrite lookup_alter_ne|]. by rewrite lookup_delete_ne, lookup_alter_ne. }
    assert (match requests s' !! id with None => kv_ready (kv s') id 0 | Some r => request_id r = id ∧ is_finished r = true ∧ ∃ n, kv_ready (kv s') id n end) as Hself.
    { destruct F8 as [[-> ?]|[-> ?]]; [by rewrite lookup_alter_eq, Hr|by rewrite lookup_delete_eq]. }
    split; [|split; [done|]].
    + pose proof (b_nodup _ _ _ _ _ _ Hb0) as Hnd. destruct (limbo_out run wait _ _ id rest Hnd Hin) as [Ho1 Ho2].
      apply NoDup_app in Hnd as (Hnd1 & _ & Hnd2). destruct (limbo_step run _ id rest Hno Ho1 Hnd1) as (A1 & A2 & A3).
      destruct (limbo_step wait _ id rest Hno Ho2 Hnd2) as (B1 & B2 & _).
      apply (base_leave (filter (λ x, x ∈ wait) (id :: rest)) _ live live True v _ id); simpl; rewrite ?F1, ?F2; try done.
      intros x r0 Hx. apply Hst. intros m. by apply F5.
    + intros r' Hr'. rewrite Hr' in Hself. by destruct Hself as (_ & ? & _).
Qed.

(** The loop over the requests to finish. *)
Lemma finish_loop run wait live finished_status ids (s : t) :
  holds_slots live → status_is_finished finished_status = true → NoDup ids → limbo run wait ids live s →
  (∀ id, id ∈ ids → id ∈ run ++ wait ∧ ∃ r, requests s !! id = Some r ∧ is_finished r = false) →
  runs (for_each ids (finish_one finished_status)) s (λ _ s', base [] live True s'
    ∧ (∀ x, x ∉ ids → requests s' !! x = requests s !! x) ∧ ∀ x r, x ∈ ids → requests s' !! x = Some r → is_finished r = true).
Proof.
  intros Hl Hfs Hnd Hlimbo Hids.
  eapply runs_mono; [apply (runs_for_each (λ rest s', NoDup rest ∧ limbo run wait rest live s' ∧ (∀ x, x ∈ rest → x ∈ ids)
    ∧ (∀ x, x ∈ rest → requests s' !! x = requests s !! x)
    ∧ (∀ x, x ∉ ids → requests s' !! x = requests s !! x) ∧ ∀ x r, x ∈ ids → (x ∉ rest) → requests s' !! x = Some r → is_finished r = true))|..].
  - intros id rest s1 (Hnd1 & Hlim & Hsub & Hsame & Hout & Hdone). apply NoDup_cons in Hnd1 as [Hno Hnd1].
    destruct (Hids id) as (Hin & r & Hr & Hf); [apply Hsub; by left|].
    eapply runs_mono; [apply (finish_one_spec run wait id rest live finished_status s1 r); try done; by rewrite Hsame by left|].
    intros [] s2 (Hlim2 & Hothers & Hfin). split; [done|]. split; [done|]. split; [intros x Hx; apply Hsub; by right|]. split; [|split].
    + intros x Hx. rewrite Hothers by (by intros ->). apply Hsame. by right.
    + intros x Hx. rewrite Hothers; [by apply Hout|]. intros ->. apply Hx, Hsub. by left.
    + intros x rx Hx Hxr Hrx. destruct (decide (x = id)) as [->|Hne]; [by apply Hfin|]. rewrite Hothers in Hrx by done. apply (Hdone x rx); try done.
      by intros [?|?]%elem_of_cons.
  - do 4 (split; [done|]). split; [done|]. intros x r Hx Hn. done.
  - intros [] s' (_ & Hlim & _ & _ & Hout & Hdone). split; [|split; [done|]].
    + unfold limbo in Hlim. simpl in Hlim. rewrite app_nil_r in Hlim. by destruct s'.
    + intros x r Hx Hrx. apply (Hdone x r Hx); [by intros ?%elem_of_nil|done].
Qed.

(** Taking the requests out of their places. *)
Lemma limbo_start run wait live (s : t) valid :
  base [] live True s → NoDup valid → (∀ x, x ∈ valid ↔ x ∈ run ++ wait) →
  (∀ x, x ∈ run → x ∈ running s) → (∀ x, x ∈ wait → x ∈ queue_elements (waiting s)) →
  ∀ s', running s' = remove_all (running s) run → queue_elements (waiting s') ≡ₚ filter (λ x, x ∉ wait) (queue_elements (waiting s)) →
  requests s' = requests s → kv s' = kv s → enc s' = enc s → connector s' = connector s →
  prev_step_scheduled_req_ids s' = prev_step_scheduled_req_ids s → limbo run wait valid live s'.
Proof.
  intros Hb Hnd Hv Hrun Hwait s' R W E1 E2 E3 E4 E5. pose proof (b_nodup _ _ _ _ _ _ Hb) as (N1 & _ & N2)%NoDup_app. rewrite app_nil_r in N2.
  assert (∀ P L : list string, NoDup L → (∀ x, x ∈ P → x ∈ L) → (∀ x, x ∈ P → x ∈ valid) → filter (λ x, x ∉ P) L ++ filter (λ x, x ∈ P) valid ≡ₚ L) as Hsplit.
  { intros P L HL HPL HPV. apply NoDup_Permutation; [|done|].
    - apply NoDup_app. split; [by apply NoDup_filter|]. split; [|by apply NoDup_filter]. intros x [Hx _]%list_elem_of_filter [Hx' _]%list_elem_of_filter. done.
    - intros x. rewrite elem_of_app, !list_elem_of_filter. destruct (decide (x ∈ P)) as [HP|HP]; [specialize (HPL x HP); specialize (HPV x HP)|]; tauto. }
  unfold limbo. eapply (base_places [] _ live True s); [done|..]; simpl; try done.
  - rewrite R, remove_all_filter by done. apply Hsplit; [done|done|]. intros x Hx. apply Hv, elem_of_app. by left.
  - rewrite W, app_nil_r. apply Hsplit; [done|done|]. intros x Hx. apply Hv, elem_of_app. by right.
Qed.

(** Requests of the invariant that are not finished run or wait. *)
Lemma unfinished_place live (s : t) id r :
  base [] live True s → requests s !! id = Some r → is_finished r = false →
  (status r = RUNNING ∧ id ∈ running s) ∨ (status r ≠ RUNNING ∧ status r ≠ WAITING_FOR_STREAMING_REQ ∧ id ∈ queue_elements (waiting s)).
Proof.
  intros Hb Hr Hf. destruct (b_placed _ _ _ _ _ _ Hb id r Hr) as [_ [|Hi Hw ? ? ? ?|? ? Hf' ?]]; [by left| |by rewrite Hf in Hf'].
  right. rewrite app_nil_r in Hi. by destruct Hw as [->|[->| ->]].
Qed.

Lemma filter_none {A} (P : A → Prop) `{∀ x, Decision (P x)} l : (∀ x, x ∈ l → ¬ P x) → filter P l = [].
Proof.
  intros Hl. destruct (filter P l) as [|x xs] eqn:He; [done|]. exfalso. assert (x ∈ filter P l) as Hx by (rewrite He; by left).
  apply list_elem_of_filter in Hx as [? ?]. by apply (Hl x).
Qed.

(** Between two steps, and while a step is on its way. *)
Lemma finish_runs live (s : t) ids finished_status :
  base [] live True s → holds_slots live → NoDup ids → status_is_finished finished_status = true →
  runs (finish_requests ids finished_status) s (λ _ s', base [] live True s'
    ∧ (∀ x, x ∉ ids → requests s' !! x = requests s !! x) ∧ ∀ x r, x ∈ ids → requests s' !! x = Some r → is_finished r = true).
Proof.
  intros Hb Hl Hnd Hfs. unfold finish_requests. apply runs_passert; [done|]. runs_step.
  pose proof (to_finish_spec s ids) as Hspec. destruct (to_finish s ids) as [run wait]. destruct Hspec as [Hrun Hwait].
  set (valid := filter (λ id, id ∈ run ++ wait) ids).
  assert (∀ id, id ∈ valid ↔ id ∈ ids ∧ ∃ r, requests s !! id = Some r ∧ is_finished r = false) as Hvalid.
  { intros id. unfold valid. rewrite list_elem_of_filter, elem_of_app, Hrun, Hwait.
    split; [intros [[(? & r & ? & ? & _)|(? & r & ? & ? & _)] _]; eauto|]. intros (Hin & r & Hr & Hf).
    split; [|done]. destruct (decide (status r = RUNNING)); [left|right]; eauto. }
  eapply runs_seq; [apply (runs_map_each (λ _ _, True)); intros id (Hin & r & Hr & _)%Hvalid; apply (runs_get_request id r); [done|]; by runs_step|].
  intros clients s1 [-> _].
  assert (∀ id, id ∈ wait → id ∈ queue_elements (waiting s) ∧ status <$> (requests s !! id) ≠ Some WAITING_FOR_STREAMING_REQ) as Hw.
  { intros id (_ & r & Hr & Hf & Hs)%Hwait. rewrite Hr. destruct (unfinished_place live s id r Hb Hr Hf) as [[? _]|(_ & ? & ?)]; [done|].
    split; [done|]. by intros [= ?]. }
  assert (∀ id, id ∈ run → id ∈ running s) as Hr.
  { intros id (_ & r & Hr & Hf & Hs)%Hrun. by destruct (unfinished_place live s id r Hb Hr Hf) as [[_ ?]|(? & _)]. }
  assert (∀ x, x ∈ valid ↔ x ∈ run ++ wait) as Hv.
  { intros x. unfold valid. rewrite list_elem_of_filter. split; [by intros [? _]|]. intros Hx. split; [done|].
    apply elem_of_app in Hx as [[? _]%Hrun|[? _]%Hwait]; done. }
  set (P := λ (_ : unit) (s1 : t), limbo run wait valid live s1 ∧ requests s1 = requests s).
  rewrite (filter_none _ wait) by (intros id Hid; by apply Hw). do 2 runs_step. apply (runs_seq _ _ _ P).
  - unfold P. destruct wait as [|w wait']; [apply runs_ret|unfold change_waiting; runs_step]; (split; [|done]);
      apply (limbo_start _ _ live s); try done; try (by apply NoDup_filter); try (intros x Hx; by apply Hw); simpl.
    + rewrite <- (remove_all_filter _ []); [done|]. pose proof (b_nodup _ _ _ _ _ _ Hb) as (_ & _ & N2)%NoDup_app. by rewrite app_nil_r in N2.
    + by rewrite remove_all_elements.
  - intros [] s1 [Hlim Hreq].
    eapply runs_seq; [apply (finish_loop run wait live finished_status valid s1 Hl Hfs); [by apply NoDup_filter|done|]|].
    + intros id Hid. split; [by apply Hv|]. rewrite Hreq. by apply Hvalid.
    + intros [] s2 (Hb2 & Hout & Hdone). runs_step. split; [done|]. split.
      * intros x Hx. rewrite Hout, Hreq; [done|]. by intros [? _]%Hvalid.
      * intros x r Hx Hrx. destruct (decide (x ∈ valid)) as [Hxv|Hxv]; [by apply (Hdone x r)|]. rewrite Hout, Hreq in Hrx by done.
        destruct (is_finished r) eqn:Hf; [done|]. destruct Hxv. apply Hvalid. split; [done|]. by exists r.
Qed.

(** ** Requests that come *)

(** A request as it arrives: nothing is computed. *)
Definition new_request (r : Request) : Prop := request_ok r ∧ (status r = WAITING ∨ status r = WAITING_FOR_FSM) ∧ num_computed_tokens r = 0.

Lemma add_runs live (s : t) r :
  base [] live True s → new_request r → requests s !! request_id r = None →
  runs (add_request_ r) s (λ _ s', base [] live True s' ∧ requests s' = <[request_id r := r]> (requests s)).
Proof.
  intros Hb (Hok & Hst & Hc) Hnone. unfold add_request_. runs_step. rewrite Hnone, (r_resumable _ _ _ Hok). runs_step. unfold change_waiting. runs_step.
  split; [|done]. set (id := request_id r) in *. destruct Hb as [H1 H2 H3 H4 H5 H6 H7 H8]. rewrite app_nil_r in *.
  assert (id ∉ running s ++ queue_elements (waiting s)) as Hno by (intros Hin; destruct (H2 id Hin) as [r' Hr']; congruence).
  split; simpl; try done; rewrite ?app_nil_r, ?add_elements.
  - rewrite <- Permutation_middle. by constructor.
  - intros x. rewrite add_elements, <- Permutation_middle, elem_of_cons. intros [->|Hx]; [rewrite lookup_insert_eq; by eexists|]. apply lookup_insert_is_Some. right.
    split; [by intros <-|by apply H2].
  - intros x rx. destruct (decide (x = id)) as [->|Hx].
    + rewrite lookup_insert_eq. intros [= <-]. split; [done|]. apply PWaiting; simpl; try done; [rewrite app_nil_r, add_elements; by left| |by apply H4|].
      * destruct Hst as [->| ->]; [by left|by right; left].
      * intros _ Hp. by destruct Hst as [?|?]; congruence.
    + rewrite lookup_insert_ne by done. intros Hrx. destruct (H3 x rx Hrx) as [Hidx Hp]. split; [done|]. destruct Hp as [Hi ? ? ?|Hi ? ? ? ? ?|n Hi ? ?].
      * by apply PRunning.
      * apply PWaiting; try done. simpl. rewrite app_nil_r in *. rewrite add_elements. by right.
      * apply (PFinished _ _ _ _ _ _ _ _ n); try done. simpl. rewrite app_nil_r in *. rewrite add_elements, <- Permutation_middle, elem_of_cons. by intros [?|?].
  - intros x Hx. apply H4. destruct (decide (x = id)) as [->|Hne]; [done|]. by rewrite lookup_insert_ne in Hx.
Qed.

(** ** Draft tokens *)

Lemma set_spec_keeps l : keeps_waiting (cfg := cfg) (has_cache_item := has_cache_item) (set_spec_token_ids l).
Proof. intros r. do 4 (split; [done|]). split; [done|]. split; [done|]. intros [R1 R2 R3 R4 R5 R6 R7 R8]. by split. Qed.

Lemma drafts_runs validate drafts live (s : t) :
  base [] live True s → (∀ k id r l, live k id r → live k id (set_spec_token_ids l r)) →
  runs (update_draft_token_ids validate drafts) s (λ _ s', base [] live True s').
Proof.
  intros Hb Hl. unfold update_draft_token_ids. eapply runs_mono; [apply (runs_for_each (λ _ s', base [] live True s'))|]; [|done|by intros].
  intros [id spec] rest s1 Hb1. runs_step. destruct (requests s1 !! id) as [r|] eqn:Hr; [|by runs_step]. destruct (is_finished r) eqn:Hf; [by runs_step|].
  unfold update_request. runs_step. destruct (unfinished_place live s1 id r Hb1 Hr Hf) as [[_ Hin]|(_ & _ & Hin)].
  - apply (base_alter [] live); [done|done| |done]. intros r0 _ [R1 R2 R3 R4 R5 R6 R7 R8] Hlv. split; [done|]. split; [by split|by apply Hl].
  - apply base_alter_waiting; [done|apply elem_of_app; by left|apply set_spec_keeps].
Qed.

(** ** A reset of the cache *)

(** The discarded output of a preempted request. *)
Lemma discard_keeps : keeps_waiting (cfg := cfg) (has_cache_item := has_cache_item) (λ r, set_discard_latest true (set_num_output_placeholders 0 r)).
Proof. intros r. do 4 (split; [done|]). split; [done|]. split; [done|]. intros [R1 R2 R3 R4 R5 R6 R7 R8]. by split. Qed.

Lemma force_preempt_runs live fresh (s : t) id rest :
  holds_slots live → base [] live fresh s → running s = rest ++ [id] →
  runs (force_preempt id) s (λ _ s', base [] live False s' ∧ running s' = rest).
Proof.
  intros [Hst Hheld] Hb Hrun. unfold force_preempt. runs_step. rewrite Hrun, removelast_last.
  eapply runs_seq; [apply (preempt_spec [] live live fresh s id rest Hb); [by rewrite Hrun, Permutation_app_comm|intros k r; apply Hheld|]|].
  { intros k k' x r Hkk _. by apply Hst. }
  intros [] s1 (Hb1 & Hrun1 & Hq1 & _). unfold update_request. runs_step. split; [|done].
  apply (base_alter_waiting _ _ _ s1 id); [done|rewrite app_nil_r, Hq1; by left|apply discard_keeps].
Qed.

(** With [reset_running_requests] every running request goes back to the queue; the only
    exception is the one for a cache that is still in use. *)
Lemma reset_runs reset_running reset_connector (s : t) :
  inv cfg has_cache_item s →
  ∃ o s', reset_prefix_cache reset_running reset_connector s = (o, s') ∧ inv cfg has_cache_item s'
  ∧ (if o is Raise e then e = RuntimeError ∧ reset_running = true else True) ∧ (reset_running = true → running s' = []).
Proof.
  intros Hb. assert (holds_slots (SchedulerInv.between cfg (K := K) (B := B))) as Hl.
  { split; [apply between_stable|]. intros k id r [_ Hk]. by eexists. }
  assert (runs (if reset_running then for_each (reverse (running s)) force_preempt ;;; modify (set_prev_step ∅) else ret tt) s
    (λ _ s1, inv cfg has_cache_item s1 ∧ (reset_running = true → running s1 = []))) as (u & s1 & Hrun1 & Hb1 & Hr1).
  { destruct reset_running; [|by apply runs_ret].
    eapply runs_seq; [apply (runs_for_each (λ rest s', ∃ fresh, base [] (SchedulerInv.between cfg (K := K) (B := B)) fresh s' ∧ running s' = reverse rest))|].
    - intros id rest s0 (fresh & Hb0 & Hrun0). rewrite reverse_cons in Hrun0. eapply runs_mono; [by apply (force_preempt_runs (SchedulerInv.between cfg (K := K) (B := B)) fresh s0 id (reverse rest))|].
      intros [] s2 [? ?]. by exists False.
    - exists True. by rewrite reverse_involutive.
    - intros [] s2 (fresh & Hb2 & Hrun2). runs_step. split; [|done]. apply (base_prev _ _ fresh); [done|]. by intros ? ?%elem_of_empty. }
  assert (runs (on_kv kv_reset_prefix_cache) s1 (λ _ s2, inv cfg has_cache_item s2 ∧ running s2 = running s1)) as (b & s2 & Hrun2 & Hb2 & Hr2).
  { apply runs_on_kv. eapply runs_mono; [by apply (kv_reset_law (max_model_len := max_model_len cfg)); apply b_kv in Hb1|]. intros b k [Hk Hkr]. split; [|done].
    apply base_kv; try done. apply between_stable. }
  assert (runs reset_connector_cache s2 (λ _ s3, inv cfg has_cache_item s3 ∧ running s3 = running s2)) as (c & s3 & Hrun3 & Hb3 & Hr3).
  { unfold reset_connector_cache. runs_step. destruct (connector s2) as [cn|] eqn:Hcn; [|by runs_step]. apply runs_on_connector; [done|]. intros c' Hc'.
    destruct (b_conn _ _ _ _ _ _ Hb2 c' Hc') as [Hci Hm]. eapply runs_mono; [by apply conn_reset_law|]. intros x c'' Hc''. split; [by apply base_connector|done]. }
  unfold reset_prefix_cache, get_st. unfold bind at 1. rewrite (bind_run _ _ _ _ _ Hrun1), (bind_run _ _ _ _ _ Hrun2).
  destruct (reset_running && negb b) eqn:Er.
  - exists (Raise RuntimeError), s2. split; [done|]. split; [done|]. apply andb_true_iff in Er as [-> _]. split; [done|]. intros _. rewrite Hr2. by apply Hr1.
  - destruct reset_connector; [rewrite (bind_run _ _ _ _ _ Hrun3); exists (Ok (c && b)), s3|exists (Ok b), s2]; (split; [done|]; split; [done|]; split; [done|]);
      intros Hrr; rewrite ?Hr3, Hr2; by apply Hr1.
Qed.
End calls.
End SchedulerCalls.
