(* ===== verification/FailedLoads.v ===== *)
(** Blocks whose load failed ([_update_requests_with_invalid_blocks] and
    [_handle_invalid_blocks] of [scheduler.py]): which requests compute which of their tokens
    again, and [update_from_output] with the failures that the workers report. *)
From Stdlib Require Import QArith.
From stdpp Require Import gmap strings.
From S2P Require Export SchedulerCalls.
From stdpp Require Import options.
Open Scope Z_scope.

Module FailedLoads.
Import SchedRequest Scheduler SchedulerInv SchedulerRun SchedulerTurn SchedulerStep SchedulerLeave SchedulerResult SchedulerCalls.

(** ** The blocks of one request *)

(** What the scan accumulates over the requests. *)
Record found := Found {
  affected_req_ids : gset string;
  total_affected_tokens : Z;
  blocks_to_evict : gset Z;
  marked_invalid_block_ids : gset Z
}.

Definition nothing_found : found := Found ∅ 0 ∅ ∅.

(** The local variables of the loop over the blocks of a request. *)
Record mark := Mark { is_affected : bool; marked_invalid_block : bool; marked_request : Request; marked_so_far : found }.

Section scan.
Context (block_size : Z) (invalid_block_ids : gset Z) (evict_blocks : bool).

(** The computed tokens stop at the first failed block, whose index is [idx]. *)
Definition truncate (req_num_computed_tokens idx : Z) (r : Request) : Request :=
  let computed := idx * block_size in
  set_num_external_computed_tokens (external (prog r) - (req_num_computed_tokens - computed)) (set_num_computed_tokens computed r).

Definition scan_block (req_num_computed_tokens : Z) (req_block_ids : list Z) (m : mark) (x : Z * Z) : mark :=
  let '(idx, block_id) := x in
  let f := marked_so_far m in
  if decide (block_id ∉ invalid_block_ids) then m
  else if decide (block_id ∈ marked_invalid_block_ids f) then Mark true (marked_invalid_block m) (marked_request m) f
  else
    let marked := {[block_id]} ∪ marked_invalid_block_ids f in
    if marked_invalid_block m
    then Mark true true (marked_request m) (Found (affected_req_ids f) (total_affected_tokens f) (blocks_to_evict f) marked)
    else
      Mark true true (truncate req_num_computed_tokens idx (marked_request m))
        (Found (affected_req_ids f) (total_affected_tokens f + (req_num_computed_tokens - idx * block_size))
           (if evict_blocks then list_to_set (py_slice req_block_ids idx (zlen req_block_ids)) ∪ blocks_to_evict f else blocks_to_evict f) marked).

(** [zip(range(req_num_computed_blocks), req_block_ids)]. *)
Definition scanned_blocks (req_num_computed_blocks : Z) (req_block_ids : list Z) : list (Z * Z) :=
  zip (seqZ 0 req_num_computed_blocks) req_block_ids.

(** The request after the scan of its blocks; all its failed blocks may be shared with
    requests before it. *)
Definition scan_request (req_num_computed_tokens req_num_computed_blocks : Z) (req_block_ids : list Z) (r : Request) (f : found) : Request * found :=
  let m := foldl (scan_block req_num_computed_tokens req_block_ids) (Mark false false r f) (scanned_blocks req_num_computed_blocks req_block_ids) in
  let r' := marked_request m in
  let f' := marked_so_far m in
  if is_affected m then
    let affected := {[request_id r]} ∪ affected_req_ids f' in
    if marked_invalid_block m then (r', Found affected (total_affected_tokens f') (blocks_to_evict f') (marked_invalid_block_ids f'))
    else (set_num_computed_tokens (num_cached_tokens r') r',
          Found affected (total_affected_tokens f' + (num_computed_tokens r' - num_cached_tokens r')) (blocks_to_evict f') (marked_invalid_block_ids f'))
  else (r', f').

(** *** What the scan finds *)

(** The failed blocks among the scanned ones, and those of them that no request before has. *)
Definition failing (blocks : list (Z * Z)) : list (Z * Z) := filter (λ x, x.2 ∈ invalid_block_ids) blocks.
Definition unmarked (marked : gset Z) (blocks : list (Z * Z)) : list (Z * Z) := filter (λ x, x.2 ∉ marked) (failing blocks).

(** The request after the scan: as it was, without its failed tokens, or with the tokens it
    started with when requests before it compute all its failed blocks. *)
Definition rescheduled (n : Z) (marked : gset Z) (blocks : list (Z * Z)) (r : Request) : Request :=
  match failing blocks, unmarked marked blocks with
  | [], _ => r
  | _, [] => set_num_computed_tokens (num_cached_tokens r) r
  | _, (idx, _) :: _ => truncate n idx r
  end.

Lemma scan_blocks_spec n ids blocks m :
  let m' := foldl (scan_block n ids) m blocks in
  is_affected m' = is_affected m || negb (bool_decide (failing blocks = []))
  ∧ marked_invalid_block_ids (marked_so_far m') = list_to_set (failing blocks).*2 ∪ marked_invalid_block_ids (marked_so_far m)
  ∧ affected_req_ids (marked_so_far m') = affected_req_ids (marked_so_far m)
  ∧ (marked_invalid_block m', marked_request m') =
      if marked_invalid_block m then (true, marked_request m)
      else match unmarked (marked_invalid_block_ids (marked_so_far m)) blocks with
           | [] => (false, marked_request m)
           | (idx, _) :: _ => (true, truncate n idx (marked_request m))
           end.
Proof.
  revert m. induction blocks as [|[idx b] blocks IH]; intros [af mk r f]; simpl.
  { rewrite orb_false_r, (left_id_L ∅ (∪)). by destruct mk. }
  unfold unmarked, failing in *. rewrite filter_cons. simpl. destruct (decide (b ∈ invalid_block_ids)) as [Hb|Hb].
  - rewrite (decide_False (P := b ∉ invalid_block_ids)) by tauto. rewrite filter_cons. simpl.
    destruct (decide (b ∈ marked_invalid_block_ids f)) as [Hm|Hm].
    + rewrite (decide_False (P := b ∉ _)) by tauto. destruct (IH (Mark true mk r f)) as (-> & -> & -> & ->). simpl. rewrite orb_true_r.
      split; [done|]. split; [set_solver|]. done.
    + rewrite (decide_True (P := b ∉ _)) by done. destruct mk.
      * match goal with |- context [foldl _ ?x blocks] => destruct (IH x) as (-> & -> & -> & ->) end. simpl. split; [by destruct af|]. split; [set_solver|done].
      * match goal with |- context [foldl _ ?x blocks] => destruct (IH x) as (-> & -> & -> & ->) end. simpl. split; [by destruct af|]. split; [set_solver|done].
  - rewrite (decide_True (P := b ∉ invalid_block_ids)) by done. apply IH.
Qed.

(** Only blocks of the request are evicted. *)
Lemma scan_blocks_evict n ids blocks m b :
  b ∈ blocks_to_evict (marked_so_far (foldl (scan_block n ids) m blocks)) → b ∈ blocks_to_evict (marked_so_far m) ∨ b ∈ ids.
Proof.
  revert m. induction blocks as [|[idx x] blocks IH]; intros m Hb; [by left|]. simpl in Hb. apply IH in Hb as [Hb|?]; [|by right].
  destruct (decide (x ∉ invalid_block_ids)); [by left|]. destruct (decide (x ∈ marked_invalid_block_ids (marked_so_far m))); [by left|].
  destruct (marked_invalid_block m); [by left|]. simpl in Hb. destruct evict_blocks; [|by left].
  apply elem_of_union in Hb as [Hb%elem_of_list_to_set|?]; [right|by left]. unfold py_slice in Hb. by apply subseteq_take, subseteq_drop in Hb.
Qed.

Lemma scan_request_spec n num_blocks ids r f :
  let blocks := scanned_blocks num_blocks ids in
  let '(r', f') := scan_request n num_blocks ids r f in
  r' = rescheduled n (marked_invalid_block_ids f) blocks r
  ∧ marked_invalid_block_ids f' = list_to_set (failing blocks).*2 ∪ marked_invalid_block_ids f
  ∧ affected_req_ids f' = (if decide (failing blocks = []) then ∅ else {[request_id r]}) ∪ affected_req_ids f
  ∧ ∀ b, b ∈ blocks_to_evict f' → b ∈ blocks_to_evict f ∨ b ∈ ids.
Proof.
  unfold scan_request, rescheduled. set (blocks := scanned_blocks num_blocks ids).
  pose proof (λ b, scan_blocks_evict n ids blocks (Mark false false r f) b) as Hev.
  destruct (scan_blocks_spec n ids blocks (Mark false false r f)) as (Ha & Hm & Hf & Hr). simpl in *.
  set (m := foldl _ _ _) in *. rewrite Ha. destruct (failing blocks) as [|x xs] eqn:Efail.
  - rewrite bool_decide_eq_true_2 by done. simpl. unfold unmarked in Hr. rewrite Efail in Hr. simpl in Hr. injection Hr as _ ->.
    split; [done|]. split; [done|]. split; [|done]. by rewrite Hf, (left_id_L ∅ (∪)).
  - rewrite bool_decide_eq_false_2 by done. simpl. destruct (unmarked _ blocks) as [|[idx b] l]; injection Hr as -> ->; simpl; rewrite ?Hm, ?Hf; do 3 (split; [done|]); done.
Qed.
End scan.

(** The blocks are scanned in the order of their indices. *)
Lemma filtered_order (P : Z * Z → Prop) `{∀ x, Decision (P x)} a n l j b rest :
  filter P (zip (seqZ a n) l) = (j, b) :: rest → ∀ i b', (i, b') ∈ filter P (zip (seqZ a n) l) → a ≤ j ≤ i.
Proof.
  revert a n j b rest. induction l as [|x l IH]; intros a n j b rest; [by destruct (seqZ a n)|].
  destruct (decide (0 < n)) as [Hn|Hn]; [|by rewrite seqZ_nil by lia]. rewrite seqZ_cons by lia. simpl. rewrite filter_cons. case_decide.
  - intros [= <- <- <-] i b' [[= -> ->]|Hin]%elem_of_cons; [lia|]. destruct (filter P (zip (seqZ (Z.succ a) (Z.pred n)) l)) as [|[j' x'] rest'] eqn:He;
      [by apply elem_of_nil in Hin|]. pose proof (IH _ _ _ _ _ He i b') as Hi. rewrite He in Hi. specialize (Hi Hin). lia.
  - intros He i b' Hin. pose proof (IH _ _ _ _ _ He i b' Hin). lia.
Qed.

(** ** The handlers *)

Section handlers.
Context {K B E C Q : Type} `{!KVCacheOps K B, !KVEvictOps K, !EncoderCacheOps E, !KVConnectorOps C B, !RequestQueueOps string Q}.
Context (cfg : config) (recompute_kv_load_failures : bool).

Abbreviation t := (Scheduler.t K E C Q).

(** Asynchronous loads cover all blocks, unless an earlier failure was handled already; the
    others cover the tokens that the request started with. *)
Definition req_num_computed_tokens (s : t) (r : Request) (req_block_ids : list Z) : Z :=
  if decide (status r = WAITING_FOR_REMOTE_KVS) then
    if decide (request_id r ∈ failed_recving_kv_req_ids s) then num_computed_tokens r else zlen req_block_ids * scheduler_block_size cfg
  else num_cached_tokens r.

Fixpoint update_requests_with_invalid_blocks (request_ids : list string) (invalid_block_ids : gset Z) (evict_blocks : bool) (f : found)
    : py t found :=
  match request_ids with
  | [] => ret f
  | id :: request_ids =>
      let* r := get_request id in
      let* s := get_st in
      match kv_block_ids (kv s) (kv_get_blocks id (kv s)) with
      | [req_block_ids] =>
          let n := req_num_computed_tokens s r req_block_ids in
          let* num_blocks := lift (py_div (n + scheduler_block_size cfg - 1) (scheduler_block_size cfg)) in
          let '(r', f') := scan_request (scheduler_block_size cfg) invalid_block_ids evict_blocks n num_blocks req_block_ids r f in
          update_request id (λ _, r') ;;;
          update_requests_with_invalid_blocks request_ids invalid_block_ids evict_blocks f'
      | _ => raise ValueError
      end
  end.

(** [_handle_invalid_blocks]: the requests that [update_from_output] passes over. *)
Definition handle_invalid_blocks (invalid_block_ids : gset Z) : py t (gset string) :=
  let* s := get_st in
  let async_load_reqs := filter (λ id, status <$> requests s !! id = Some WAITING_FOR_REMOTE_KVS) (queue_iter (key_of s) (waiting s)) in
  let* async := update_requests_with_invalid_blocks async_load_reqs invalid_block_ids false nothing_found in
  let* s := get_st in
  let* sync := update_requests_with_invalid_blocks (running s) invalid_block_ids true nothing_found in
  if decide (affected_req_ids async = ∅ ∧ affected_req_ids sync = ∅) then ret ∅
  else
    (if decide (blocks_to_evict sync ≠ ∅ ∧ recompute_kv_load_failures = false)
     then on_kv (kv_evict_blocks (elements (blocks_to_evict sync))) else ret tt) ;;;
    if recompute_kv_load_failures then
      modify (λ s, set_recving (finished_recving_kv_req_ids s) (failed_recving_kv_req_ids s ∪ affected_req_ids async) s) ;;;
      ret (affected_req_ids sync)
    else ret (affected_req_ids async ∪ affected_req_ids sync).

(** The loop of [update_from_output], which passes over the requests with failed loads. *)
Fixpoint update_others (failed : gset string) (spec : list (string * list Z)) (out : ModelRunnerOutput) (acc : results) (l : list (string * Z))
    : py t results :=
  match l with
  | [] => ret acc
  | x :: l =>
      passert (0 <? x.2) ;;;
      let* acc := (if decide (x.1 ∈ failed) then ret acc else update_one cfg spec out acc x) in
      update_others failed spec out acc l
  end.

(** The output for a request that ends because its load failed; a request that had ended
    before keeps its status. *)
Definition error_output (r : Request) : EngineCoreOutput :=
  EngineOutput (request_id r) [] (Some (if is_finished r then status r else FINISHED_ERROR)) None false (num_cached_tokens r).

(** The requests end with an error, in the order of the set. *)
Definition fail_requests (failed : gset string) (acc : results) : py t (list (Z * list EngineCoreOutput)) :=
  if decide (failed ≠ ∅ ∧ recompute_kv_load_failures = false) then
    let* rs := map_each (elements failed) get_request in
    let* _ := finish_requests (elements failed) FINISHED_ERROR in
    ret (foldl (λ d r, add_output (client_index r) (error_output r) d) (outputs acc) rs)
  else ret (outputs acc).

(** [update_from_output], all of it but for statistics, log probabilities, the grammar's
    progress and the events for other processes. *)
Definition update_from_output_ (o : SchedulerOutput) (out : ModelRunnerOutput) (invalid_block_ids : gset Z)
    : py t (list (Z * list EngineCoreOutput)) :=
  let* failed := (if decide (invalid_block_ids = ∅) then ret ∅ else handle_invalid_blocks invalid_block_ids) in
  let* acc := update_others failed (scheduled_spec_decode_tokens o) out (Results [] [] []) (num_scheduled_tokens o) in
  modify (λ s, set_running (remove_all (running s) (stopped_running acc)) s) ;;;
  (match stopped_preempted acc with [] => ret tt | l => change_waiting (λ key, remove_requests key l) end) ;;;
  let* outs := fail_requests failed acc in
  update_from_kv_xfer_finished (kv_finished_recving out) (kv_finished_sending out) ;;;
  ret outs.

(** ** What the scan of all requests finds *)

Context (invalid_block_ids : gset Z).

(** The blocks of the request [id] that the scan looks at, in the state before it. *)
Definition scanned (s : t) (id : string) : list (Z * Z) :=
  match requests s !! id, kv_block_ids (kv s) (kv_get_blocks id (kv s)) with
  | Some r, [ids] => scanned_blocks ((req_num_computed_tokens s r ids + scheduler_block_size cfg - 1) `div` scheduler_block_size cfg) ids
  | _, _ => []
  end.

Definition failed_of (s : t) (id : string) : list (Z * Z) := failing invalid_block_ids (scanned s id).

Definition failed_before (s : t) (ids : list string) : gset Z := list_to_set (ids ≫= λ id, (failed_of s id).*2).

(** The request is known, and of one group of layers. *)
Definition scannable (s : t) (id : string) : Prop :=
  ∃ r ids, requests s !! id = Some r ∧ request_id r = id ∧ kv_block_ids (kv s) (kv_get_blocks id (kv s)) = [ids].

(** The request as the scan leaves it, when it comes behind [earlier] ones. *)
Definition scanned_request (s : t) (marked : gset Z) (id : string) (r : Request) : Request :=
  match kv_block_ids (kv s) (kv_get_blocks id (kv s)) with
  | [ids] => rescheduled (scheduler_block_size cfg) invalid_block_ids (req_num_computed_tokens s r ids) marked (scanned s id) r
  | _ => r
  end.

Lemma scanned_frame (s : t) reqs id : reqs !! id = requests s !! id → scanned (set_requests reqs s) id = scanned s id.
Proof. unfold scanned. simpl. by intros ->. Qed.

Lemma failed_before_frame (s : t) reqs ids :
  (∀ id, id ∈ ids → reqs !! id = requests s !! id) → failed_before (set_requests reqs s) ids = failed_before s ids.
Proof.
  intros Hsame. unfold failed_before. f_equal. induction ids as [|id ids IH]; [done|]. simpl. unfold failed_of at 1 3.
  rewrite scanned_frame by (apply Hsame; by left). f_equal. apply IH. intros x Hx. apply Hsame. by right.
Qed.

Lemma failed_before_cons (s : t) id ids : failed_before s (id :: ids) = list_to_set (failed_of s id).*2 ∪ failed_before s ids.
Proof. unfold failed_before. simpl. by rewrite list_to_set_app_L. Qed.

Lemma alter_const (s : t) id r r' : requests s !! id = Some r → alter (λ _, r') id (requests s) = <[id := r']> (requests s).
Proof.
  intros Hr. apply map_eq. intros x. destruct (decide (x = id)) as [->|Hx]; [by rewrite lookup_alter_eq, lookup_insert_eq, Hr|by rewrite lookup_alter_ne, lookup_insert_ne].
Qed.

Lemma update_scan evict ids f (s : t) :
  0 < scheduler_block_size cfg → NoDup ids → (∀ id, id ∈ ids → scannable s id) →
  runs (update_requests_with_invalid_blocks ids invalid_block_ids evict f) s (λ f' s',
    (∃ reqs, s' = set_requests reqs s) ∧ (∀ id, id ∉ ids → requests s' !! id = requests s !! id)
    ∧ (∀ b, b ∈ blocks_to_evict f' → b ∈ blocks_to_evict f ∨ ∃ id l, kv_block_ids (kv s) (kv_get_blocks id (kv s)) = [l] ∧ b ∈ l)
    ∧ (∀ id, id ∈ affected_req_ids f' ↔ id ∈ affected_req_ids f ∨ id ∈ ids ∧ failed_of s id ≠ [])
    ∧ ∀ pre id post r, ids = pre ++ id :: post → requests s !! id = Some r →
        requests s' !! id = Some (scanned_request s (marked_invalid_block_ids f ∪ failed_before s pre) id r)).
Proof.
  intros Hbs. revert f s. induction ids as [|id ids IH]; intros f s Hnd Hids; simpl.
  { runs_step. split; [exists (requests s); by destruct s|]. split; [done|]. split; [by left|]. split; [|by intros [|? ?] ? ? ? ?]. intros id. split; [by left|].
    by intros [?|[?%elem_of_nil _]]. }
  apply NoDup_cons in Hnd as [Hno Hnd]. destruct (Hids id) as (r & bids & Hr & Hid & Hb); [by left|].
  apply (runs_get_request id r); [done|]. runs_step. rewrite Hb. set (n := req_num_computed_tokens s r bids).
  apply (runs_lift _ ((n + scheduler_block_size cfg - 1) `div` scheduler_block_size cfg)).
  { unfold py_div. by rewrite (proj2 (Z.eqb_neq (scheduler_block_size cfg) 0)) by lia. }
  pose proof (scan_request_spec (scheduler_block_size cfg) invalid_block_ids evict n ((n + scheduler_block_size cfg - 1) `div` scheduler_block_size cfg) bids r f) as Hscan.
  cbv zeta in Hscan. assert (scanned s id = scanned_blocks ((n + scheduler_block_size cfg - 1) `div` scheduler_block_size cfg) bids) as Hsc
    by (unfold scanned; by rewrite Hr, Hb). rewrite <- Hsc in Hscan. fold (failed_of s id) in Hscan.
  destruct (scan_request _ _ _ _ _ _ _ _) as [r' f']. destruct Hscan as (Er & Em & Ea & Ev).
  unfold update_request. runs_step. rewrite (alter_const s id r r' Hr). set (s1 := set_requests _ s).
  assert (∀ x, x ∈ ids → requests s1 !! x = requests s !! x) as Hsame by (intros x Hx; unfold s1; simpl; rewrite lookup_insert_ne; [done|by intros ->]).
  eapply runs_mono; [apply (IH f' s1 Hnd)|].
  { intros x Hx. destruct (Hids x) as (rx & bx & ? & ?); [by right|]. exists rx, bx. by rewrite Hsame. }
  assert (∀ x, x ∈ ids → failed_of s1 x = failed_of s x) as Hfo by (intros x Hx; unfold failed_of, s1; by rewrite scanned_frame by (by apply Hsame)).
  intros f2 s2 ([reqs ->] & Hout & Hev & Haff & Hreq). split; [by exists reqs|]. split; [|split; [|split]].
  - intros x Hx. apply not_elem_of_cons in Hx as [Hne Hx]. rewrite Hout by done. unfold s1. simpl. by rewrite lookup_insert_ne.
  - intros b Hin. destruct (Hev b Hin) as [Hf|Hf]; [|by right]. destruct (Ev b Hf) as [?|?]; [by left|right]. by exists id, bids.
  - intros x. rewrite Haff, Ea, elem_of_union, elem_of_cons. rewrite Hid. destruct (decide (x = id)) as [->|Hne].
    + case_decide as Hf; [split; [intros [[?%elem_of_empty|?]|[? _]]; [done|by left|done]|intros [?|[_ ?]]; [left; by right|done]]|]. split; [tauto|]. intros _. left. left. by apply elem_of_singleton.
    + assert (x ∉ (if decide (failed_of s id = []) then ∅ else {[id]} : gset string)) as Hx by (case_decide; [by apply not_elem_of_empty|by apply not_elem_of_singleton]).
      split; [intros [[?|?]|[Hi Hf]]; [done|by left|right; rewrite Hfo in Hf by done; by split; [right|]]|].
      intros [?|[[?|Hi] Hf]]; [by left; right|done|right; split; [done|by rewrite Hfo]].
  - intros [|y pre] x post rx; intros [= <- Hpre] Hrx.
    + rewrite Hout by done. unfold s1. simpl. rewrite lookup_insert_eq. f_equal. unfold scanned_request. rewrite Hb.
      rewrite Hr in Hrx. injection Hrx as <-. unfold failed_before. simpl. by rewrite (right_id_L ∅ (∪)).
    + assert (∀ z, z ∈ pre ++ [x] → z ∈ ids) as Hpi by (intros z [Hz|Hz%list_elem_of_singleton]%elem_of_app; rewrite Hpre, elem_of_app, elem_of_cons; auto).
      assert (x ∈ ids) as Hxi by (apply Hpi, elem_of_app; right; by left).
      rewrite (Hreq pre x post rx Hpre) by (by rewrite Hsame). f_equal. unfold scanned_request. rewrite Em.
      assert (failed_before s1 pre = failed_before s pre) as -> by (apply failed_before_frame; intros z Hz; apply Hsame, Hpi, elem_of_app; by left).
      assert (scanned s1 x = scanned s x) as -> by (by apply scanned_frame, Hsame).
      change (kv s1) with (kv s). change (req_num_computed_tokens s1) with (req_num_computed_tokens s). rewrite failed_before_cons.
      destruct (kv_block_ids _ _) as [|bx [|]]; [done| |done]. f_equal. by rewrite (comm_L (∪) _ (marked_invalid_block_ids f)), <- (assoc_L (∪)).
Qed.

(** The first request that holds a failed block. *)
Lemma first_holder (s : t) ids b :
  b ∈ failed_before s ids → ∃ pre id post idx, ids = pre ++ id :: post ∧ (idx, b) ∈ failed_of s id ∧ b ∉ failed_before s pre.
Proof.
  induction ids as [|id ids IH]; [by intros ?%elem_of_list_to_set%elem_of_nil|].
  destruct (decide (b ∈ (failed_of s id).*2)) as [Hb|Hb].
  - intros _. apply list_elem_of_fmap in Hb as ([idx b'] & -> & Hb). exists [], id, ids, idx. split; [done|]. split; [done|].
    by intros ?%elem_of_list_to_set%elem_of_nil.
  - rewrite failed_before_cons, elem_of_union, elem_of_list_to_set. intros [?|Hin]; [done|].
    destruct (IH Hin) as (pre & id' & post & idx & -> & Hid & Hpre). exists (id :: pre), id', post, idx. split; [done|]. split; [done|].
    rewrite failed_before_cons, elem_of_union, elem_of_list_to_set. tauto.
Qed.

(** It computes the block again. *)
Lemma scanned_request_computes (s : t) marked id r idx b :
  0 < scheduler_block_size cfg → requests s !! id = Some r → (idx, b) ∈ failed_of s id → b ∉ marked →
  num_computed_tokens (scanned_request s marked id r) ≤ idx * scheduler_block_size cfg.
Proof.
  intros Hbs Hr Hin Hb. unfold scanned_request, failed_of, scanned in *. rewrite Hr in *.
  destruct (kv_block_ids _ _) as [|ids [|]]; [by apply elem_of_nil in Hin| |by apply elem_of_nil in Hin].
  set (blocks := scanned_blocks _ ids) in *. assert ((idx, b) ∈ unmarked invalid_block_ids marked blocks) as Hu by (by apply list_elem_of_filter).
  unfold rescheduled. destruct (failing invalid_block_ids blocks); [by apply elem_of_nil in Hin|].
  destruct (unmarked invalid_block_ids marked blocks) as [|[j b'] rest] eqn:He; [by apply elem_of_nil in Hu|].
  rewrite <- He in Hu. unfold unmarked, failing in He, Hu. rewrite list_filter_filter in He, Hu.
  pose proof (filtered_order _ _ _ _ _ _ _ He idx b Hu) as [_ Hj]. change (j * scheduler_block_size cfg ≤ idx * scheduler_block_size cfg). nia.
Qed.

(** *** The failed blocks a request depends on *)

(** The token at a position of the request came with a load or from the prefix cache: of a
    request that the scheduler runs, the tokens counted as cached when it was first
    scheduled; of one that still waits for its load, all that its blocks hold, or what it
    still counts as computed after an earlier failure. *)
Definition given (s : t) (id : string) (r : Request) (token : Z) : Prop :=
  (status r ≠ WAITING_FOR_REMOTE_KVS → token < num_cached_tokens r)
  ∧ (status r = WAITING_FOR_REMOTE_KVS → id ∈ failed_recving_kv_req_ids s → token < num_computed_tokens r).

(** Block number [idx] of the request is the failed block [b], and holds such a token. *)
Definition at_risk (s : t) (id : string) (idx b : Z) : Prop :=
  ∃ r ids, requests s !! id = Some r ∧ kv_block_ids (kv s) (kv_get_blocks id (kv s)) = [ids]
    ∧ 0 ≤ idx ∧ ids !! Z.to_nat idx = Some b ∧ b ∈ invalid_block_ids ∧ given s id r (idx * scheduler_block_size cfg).

(** What becomes of a request: it is left alone; it counts what it started with, when others
    compute all its failed blocks; or it goes back to the first of its [own] failed blocks,
    and what it loses was external. *)
Record after_scan (s : t) (id : string) (own : Z → Prop) (r r' : Request) : Prop := AfterScan {
  as_unaffected : (∀ idx b, ¬ at_risk s id idx b) → r' = r;
  as_shared : (∃ idx b, at_risk s id idx b) → (∀ idx, ¬ own idx) → r' = set_num_computed_tokens (num_cached_tokens r) r;
  as_first idx : own idx → (∀ i, own i → idx ≤ i) →
    ∃ left, r' = set_num_external_computed_tokens left (set_num_computed_tokens (idx * scheduler_block_size cfg) r)
      ∧ (status r ≠ WAITING_FOR_REMOTE_KVS → left = external (prog r) - (num_cached_tokens r - idx * scheduler_block_size cfg))
}.

Lemma elem_of_scanned_blocks n ids idx b : (idx, b) ∈ scanned_blocks n ids ↔ 0 ≤ idx < n ∧ ids !! Z.to_nat idx = Some b.
Proof.
  unfold scanned_blocks. rewrite list_elem_of_lookup. split.
  - intros (i & Hi). apply lookup_zip_Some in Hi as [(-> & Hn)%lookup_seqZ Hb]. split; [lia|]. by replace (Z.to_nat (0 + Z.of_nat i)) with i by lia.
  - intros [Hi Hb]. exists (Z.to_nat idx). apply lookup_zip_Some. split; [|done]. apply lookup_seqZ. lia.
Qed.

(** The scan's range holds just these blocks. *)
Lemma failed_at_risk (s : t) id idx b :
  0 < scheduler_block_size cfg → scannable s id → (idx, b) ∈ failed_of s id ↔ at_risk s id idx b.
Proof.
  intros Hbs (r & ids & Hr & Hid & Hb). unfold failed_of, failing, scanned. rewrite Hr, Hb, list_elem_of_filter, elem_of_scanned_blocks.
  set (n := req_num_computed_tokens s r ids). set (bs := scheduler_block_size cfg) in *.
  assert (0 ≤ idx → ids !! Z.to_nat idx = Some b → (idx < (n + bs - 1) `div` bs ↔ given s id r (idx * bs))) as Hrange.
  { intros H0 Hl. assert (idx < (n + bs - 1) `div` bs ↔ idx * bs < n) as ->.
    { pose proof (Z.div_mod (n + bs - 1) bs ltac:(lia)). pose proof (Z.mod_pos_bound (n + bs - 1) bs Hbs). nia. }
    apply lookup_lt_Some in Hl. unfold given, n, req_num_computed_tokens. rewrite Hid. unfold zlen. fold bs. repeat case_decide; naive_solver nia. }
  unfold at_risk. fold bs. split.
  - intros (Hi & [H0 Hn] & Hl). exists r, ids. do 5 (split; [done|]). by apply Hrange.
  - intros (r' & ids' & Hr' & Hb' & H0 & Hl & Hi & Hg). rewrite Hr in Hr'. rewrite Hb in Hb'. injection Hr' as <-. injection Hb' as <-.
    split; [done|]. split; [|done]. split; [done|]. by apply Hrange.
Qed.

Lemma failed_before_at_risk (s : t) ids b :
  0 < scheduler_block_size cfg → (∀ id, id ∈ ids → scannable s id) → b ∈ failed_before s ids ↔ ∃ id idx, id ∈ ids ∧ at_risk s id idx b.
Proof.
  intros Hbs Hids. unfold failed_before. rewrite elem_of_list_to_set, list_elem_of_bind. setoid_rewrite list_elem_of_fmap. split.
  - intros (id & ([idx b'] & -> & Hf) & Hid). exists id, idx. split; [done|]. apply failed_at_risk; auto.
  - intros (id & idx & Hid & Hf). exists id. split; [|done]. exists (idx, b). split; [done|]. apply failed_at_risk; auto.
Qed.

Lemma scanned_request_after (s : t) marked id r :
  0 < scheduler_block_size cfg → scannable s id → requests s !! id = Some r →
  after_scan s id (λ idx, ∃ b, at_risk s id idx b ∧ b ∉ marked) r (scanned_request s marked id r).
Proof.
  intros Hbs Hsc Hr. pose proof (λ i b, failed_at_risk s id i b Hbs Hsc) as Hf. destruct Hsc as (r0 & ids & Hr0 & _ & Hb).
  rewrite Hr in Hr0. injection Hr0 as <-. unfold scanned_request, rescheduled. rewrite Hb. fold (failed_of s id).
  set (n := req_num_computed_tokens s r ids). split.
  - intros Hno. destruct (failed_of s id) as [|[i b] l]; [done|]. destruct (Hno i b). apply Hf. by left.
  - intros (i & b & Hi%Hf) Hno. destruct (failed_of s id) as [|x l] eqn:He; [by apply elem_of_nil in Hi|].
    destruct (unmarked _ marked (scanned s id)) as [|[j c] rest] eqn:Hu; [done|]. destruct (Hno j).
    assert ((j, c) ∈ unmarked invalid_block_ids marked (scanned s id)) as [Hc Hj]%list_elem_of_filter by (rewrite Hu; by left).
    exists c. split; [|done]. apply Hf. rewrite <- He. done.
  - intros i (b & Hi & Hbm) Hmin. apply Hf in Hi.
    assert ((i, b) ∈ unmarked invalid_block_ids marked (scanned s id)) as Hui by (by apply list_elem_of_filter).
    destruct (failed_of s id) as [|x l] eqn:He; [by apply elem_of_nil in Hi|].
    destruct (unmarked _ marked (scanned s id)) as [|[j c] rest] eqn:Hu; [by apply elem_of_nil in Hui|].
    assert (j = i) as ->.
    { assert ((j, c) ∈ unmarked invalid_block_ids marked (scanned s id)) as [Hc Hj]%list_elem_of_filter by (rewrite Hu; by left).
      assert (i ≤ j) by (apply Hmin; exists c; split; [apply Hf; rewrite <- He; done|done]).
      unfold unmarked, failing, scanned in Hu. rewrite Hr, Hb, list_filter_filter in Hu. rewrite <- Hu in Hui.
      pose proof (filtered_order _ _ _ _ _ _ _ Hu i b Hui). lia. }
    eexists. split; [done|]. intros Hst. unfold n, req_num_computed_tokens. by rewrite decide_False.
Qed.

Lemma after_scan_own (s : t) id own own' r r' : after_scan s id own r r' → (∀ idx, own idx ↔ own' idx) → after_scan s id own' r r'.
Proof.
  intros [H1 H2 H3] Heq. split; [done|intros Ha Hno; apply H2; [done|]; intros i; rewrite Heq; apply Hno|].
  intros idx Ho Hmin. apply H3; [by apply Heq|]. intros i Hi. by apply Hmin, Heq.
Qed.

End handlers.
End FailedLoads.
