(* ===== verification/SchedulerFailure.v ===== *)
(** A step with failed loads keeps the scheduler in order: requests whose blocks failed compute
    them again, or end with an error. *)
From Stdlib Require Import QArith.
From stdpp Require Import gmap strings.
From S2P Require Export FailedLoads.
From stdpp Require Import options.
Open Scope Z_scope.

Module SchedulerFailure.
Import SchedRequest Scheduler SchedulerInv SchedulerRun SchedulerTurn SchedulerWait SchedulerStep SchedulerLeave SchedulerResult SchedulerCalls FailedLoads.

Section failure.
Context {K B E C Q : Type} `{!KVCacheOps K B, !KVEvictOps K, !EncoderCacheOps E, !KVConnectorOps C B, !RequestQueueOps string Q}.
Context {cfg : config} {has_cache_item : option (string → bool)}.
Context `{!KVCacheLaws K B (max_model_len cfg), !EncoderLaws E (is_encoder_decoder cfg) (disable_chunked_mm_input cfg) has_cache_item,
          !KVConnectorLaws C B, !RequestQueueLaws string Q, Hgroup : !KVOneGroup K B (max_model_len cfg)}.

Abbreviation t := (Scheduler.t K E C Q).
Abbreviation base := (base cfg has_cache_item (K := K) (B := B) (E := E) (C := C) (Q := Q)).
Abbreviation request_ok := (request_ok cfg has_cache_item).
Abbreviation between := (between cfg (K := K) (B := B)).
Abbreviation pending := (pending (cfg := cfg) (K := K) (B := B)).
Abbreviation failed_of := (failed_of (K := K) (B := B) (E := E) (C := C) (Q := Q) cfg).
Abbreviation bs := (scheduler_block_size cfg).

Context (invalid : gset Z).

(** The running requests that hold failed blocks. *)
Definition failed_ids (s : t) : gset string := list_to_set (filter (λ id, failed_of invalid s id ≠ []) (running s)).

(** The report is on requests that have computed the tokens they first started with; one that
    was preempted and resumed with fewer may not have. *)
Definition report_ok (s : t) : Prop :=
  ∀ id r, id ∈ failed_ids s → requests s !! id = Some r → num_cached_tokens r ≤ num_computed_tokens r.

(** The output without these requests. *)
Definition pass_over (failed : gset string) (o : SchedulerOutput) : SchedulerOutput :=
  Output (scheduled_new_reqs o) (cached_req_ids o) (resumed_req_ids o) (new_token_ids o) (all_token_ids_of o) (new_block_ids o)
    (cached_num_computed_tokens o) (cached_num_output_tokens o) (filter (λ x, x.1 ∉ failed) (num_scheduled_tokens o))
    (total_num_scheduled_tokens o) (scheduled_spec_decode_tokens o) (scheduled_encoder_inputs o) (num_common_prefix_blocks o)
    (preempted_req_ids o) (output_finished_req_ids o) (free_encoder_mm_hashes o).

(** ** The requests after the scan *)

Lemma base_requests live live' (s : t) reqs :
  base [] live True s → (∀ id, id ∉ running s → reqs !! id = requests s !! id) →
  (∀ id r, id ∈ running s → requests s !! id = Some r → request_id r = id → status r = RUNNING → request_ok r → live (kv s) id r →
     ∃ r', reqs !! id = Some r' ∧ request_id r' = id ∧ status r' = RUNNING ∧ request_ok r' ∧ live' (kv s) id r') →
  base [] live' True (set_requests reqs s).
Proof.
  intros Hb Hout Hin. assert (∀ id, id ∈ running s → ∃ r', reqs !! id = Some r' ∧ request_id r' = id ∧ status r' = RUNNING ∧ request_ok r' ∧ live' (kv s) id r') as Hrun.
  { intros id Hid. destruct (base_running _ _ _ _ id Hb Hid) as (r & Hr & ? & ? & ? & ?). by apply (Hin id r). }
  destruct Hb as [H1 H2 H3 H4 H5 H6 H7 H8]. split; simpl; try done.
  - intros id Hid. destruct (decide (id ∈ running s)) as [Hi|Hi]; [destruct (Hrun id Hi) as (r' & -> & _); by eexists|]. rewrite Hout by done. by apply H2.
  - intros id r. destruct (decide (id ∈ running s)) as [Hi|Hi].
    + destruct (Hrun id Hi) as (r' & -> & ? & ? & ? & ?). intros [= <-]. split; [done|]. by apply PRunning.
    + rewrite Hout by done. intros Hr. destruct (H3 id r Hr) as [Hid Hp]. split; [done|]. destruct Hp as [? ? ? ?|? ? ? ? ? ?|n ? ? ?];
        [done|by apply PWaiting|by apply (PFinished _ _ _ _ _ _ _ _ n)].
  - intros id. destruct (decide (id ∈ running s)) as [Hi|Hi]; [destruct (Hrun id Hi) as (r' & -> & _); done|]. rewrite Hout by done. apply H4.
Qed.

Lemma pass_over_get (failed : gset string) (l : list (string * Z)) id :
  od_get id (filter (λ x, x.1 ∉ failed) l) = if decide (id ∈ failed) then None else od_get id l.
Proof.
  induction l as [|[x n] l IH]; simpl; [by case_decide|]. rewrite filter_cons. simpl.
  destruct (decide (x ∉ failed)) as [Hx|Hx%dec_stable]; simpl; destruct (decide (id = x)) as [->|Hne]; rewrite ?IH; try done.
  - by rewrite decide_False.
  - by rewrite !decide_True.
Qed.

Lemma pending_keeps k id scheduled spec r : pending scheduled spec k id r → keeps_slots cfg k id r.
Proof.
  unfold SchedulerStep.pending, keeps_slots. destruct (od_get id scheduled); [|by intros [_ ?]]. intros (Hc & Hk & _). by rewrite Z.max_r by lia.
Qed.

(** A request that goes back to fewer tokens. *)
Lemma back_ok k id r c x :
  request_ok r → status r = RUNNING → keeps_slots cfg k id r → 0 ≤ c ≤ num_cached_tokens r → 1 ≤ num_cached_tokens r ≤ num_computed_tokens r →
  let r' := set_num_external_computed_tokens x (set_num_computed_tokens c r) in
  request_id r' = request_id r ∧ status r' = RUNNING ∧ request_ok r' ∧ between k id r'.
Proof.
  intros [R1 R2 R3 R4 R5 R6 R7 R8 R9] Hst Hk Hc Hle r'. split; [done|]. split; [done|]. assert (num_computed_tokens r' = c) as Hc' by done.
  split; [split; try done; lia|]. split; [rewrite Hc'; change (num_tokens r') with (num_tokens r); lia|].
  unfold keeps_slots in *. rewrite Hc'. eapply kv_ready_le; [|exact Hk]. lia.
Qed.

(** Scanned blocks lie within the tokens that were given. *)
Lemma scanned_bound n blocks i b : 0 < bs → (i, b) ∈ scanned_blocks ((n + bs - 1) `div` bs) blocks → 0 ≤ i ∧ i * bs < n.
Proof.
  intros Hbs Hin. apply elem_of_zip_l, elem_of_seqZ in Hin. pose proof (Z.div_mod (n + bs - 1) bs ltac:(lia)). pose proof (Z.mod_pos_bound (n + bs - 1) bs Hbs). nia.
Qed.

Lemma rescheduled_ok k id scheduled spec marked ids r :
  0 < bs → request_ok r → status r = RUNNING → pending scheduled spec k id r →
  let n := num_cached_tokens r in
  let blocks := scanned_blocks ((n + bs - 1) `div` bs) ids in
  n ≤ num_computed_tokens r → failing invalid blocks ≠ [] →
  let r' := rescheduled bs invalid n marked blocks r in
  request_id r' = request_id r ∧ status r' = RUNNING ∧ request_ok r' ∧ between k id r'.
Proof.
  intros Hbs Hok Hst Hp n blocks Hle Hne. pose proof (pending_keeps k id scheduled spec r Hp) as Hk.
  assert (∀ i b, (i, b) ∈ failing invalid blocks → 0 ≤ i * bs < n) as Hb.
  { intros i b [_ Hin]%list_elem_of_filter. apply scanned_bound in Hin; [nia|done]. }
  unfold rescheduled. destruct (failing invalid blocks) as [|[i b] l] eqn:Ef; [done|]. destruct (Hb i b ltac:(by left)) as [_ Hi].
  assert (1 ≤ n) by (destruct (Hb i b ltac:(by left)); lia). destruct (unmarked invalid marked blocks) as [|[j x] l'] eqn:Eu.
  - apply (back_ok k id r n (external (prog r)) Hok Hst Hk); unfold n in *; lia.
  - assert ((j, x) ∈ failing invalid blocks) as Hj by (assert ((j, x) ∈ unmarked invalid marked blocks) as Hu by (rewrite Eu; by left); by apply list_elem_of_filter in Hu as [_ ?]).
    rewrite Ef in Hj. specialize (Hb j x Hj). by apply back_ok; try done; unfold n in *; lia.
Qed.

(** The scan of the running requests. *)
Lemma base_scannable live (s : t) id : base [] live True s → id ∈ running s → scannable s id.
Proof using Hgroup.
  intros Hb Hin. destruct (base_running _ _ _ _ id Hb Hin) as (r & Hr & Hid & _). destruct (kv_one_group (max_model_len := max_model_len cfg) (kv s) id) as [ids Hids];
    [by apply b_kv in Hb|]. by exists r, ids.
Qed.

Lemma failed_ids_elem (s : t) id : id ∈ failed_ids s ↔ failed_of invalid s id ≠ [] ∧ id ∈ running s.
Proof. unfold failed_ids. by rewrite elem_of_list_to_set, list_elem_of_filter. Qed.

(** A running request after the scan, in the step without the failed ones. *)
Lemma scanned_request_ok (s : t) o marked id r :
  0 < bs → base [] (pending (num_scheduled_tokens o) (scheduled_spec_decode_tokens o)) True s → report_ok s → id ∈ running s → requests s !! id = Some r →
  let r' := scanned_request cfg invalid s marked id r in
  (id ∉ failed_ids s → r' = r)
  ∧ request_id r' = id ∧ status r' = RUNNING ∧ request_ok r'
  ∧ pending (num_scheduled_tokens (pass_over (failed_ids s) o)) (scheduled_spec_decode_tokens o) (kv s) id r'.
Proof using Hgroup.
  intros Hbs Hb Hrep Hin Hr. destruct (base_running _ _ _ _ id Hb Hin) as (rr & Hrr & Hid & Hst & Hok & Hp). rewrite Hr in Hrr. injection Hrr as <-.
  destruct (kv_one_group (max_model_len := max_model_len cfg) (kv s) id) as [ids Hids]; [by apply b_kv in Hb|].
  assert (req_num_computed_tokens cfg s r ids = num_cached_tokens r) as Hn by (unfold req_num_computed_tokens; by rewrite Hst).
  assert (scanned cfg s id = scanned_blocks ((num_cached_tokens r + bs - 1) `div` bs) ids) as Hsc by (unfold scanned; by rewrite Hr, Hids, Hn).
  unfold scanned_request. rewrite Hids, Hn, Hsc. cbv zeta. set (blocks := scanned_blocks _ ids) in *.
  assert (failed_of invalid s id = failing invalid blocks) as Hf by (unfold FailedLoads.failed_of; by rewrite Hsc).
  unfold SchedulerStep.pending. simpl. rewrite pass_over_get. destruct (decide (failing invalid blocks = [])) as [He|He].
  - assert (id ∉ failed_ids s) as Hno by (rewrite failed_ids_elem, Hf; tauto). unfold rescheduled. rewrite He, decide_False by done. done.
  - assert (id ∈ failed_ids s) as Hyes by (by rewrite failed_ids_elem, Hf). rewrite decide_True by done.
    destruct (rescheduled_ok (kv s) id _ _ marked ids r Hbs Hok Hst Hp) as (Hi & ? & ? & ?); [by apply (Hrep id)|done|].
    split; [done|]. split; [by rewrite <- Hid, <- Hi|done].
Qed.

Lemma scan_running (s : t) o evict :
  0 < bs → base [] (pending (num_scheduled_tokens o) (scheduled_spec_decode_tokens o)) True s → report_ok s →
  runs (update_requests_with_invalid_blocks cfg (running s) invalid evict nothing_found) s (λ f s',
    base [] (pending (num_scheduled_tokens (pass_over (failed_ids s) o)) (scheduled_spec_decode_tokens o)) True s'
    ∧ affected_req_ids f = failed_ids s ∧ (∃ reqs, s' = set_requests reqs s) ∧ (∀ id, id ∉ failed_ids s → requests s' !! id = requests s !! id)
    ∧ (∀ id r, id ∈ failed_ids s → requests s !! id = Some r → ∃ marked, requests s' !! id = Some (scanned_request cfg invalid s marked id r))
    ∧ ∀ b, b ∈ blocks_to_evict f → ∃ id l, kv_block_ids (kv s) (kv_get_blocks id (kv s)) = [l] ∧ b ∈ l).
Proof using Hgroup.
  intros Hbs Hb Hrep. pose proof (b_nodup _ _ _ _ _ _ Hb) as Hnd. apply NoDup_app in Hnd as (Hnd & _ & _).
  eapply runs_mono; [apply update_scan; [done|done|]; intros id Hid; by apply (base_scannable _ s id Hb)|].
  intros f s' ([reqs ->] & Hout & Hev & Haff & Hreq). simpl in *.
  assert (∀ id r, id ∈ running s → requests s !! id = Some r → ∃ marked, reqs !! id = Some (scanned_request cfg invalid s marked id r)) as Hscan.
  { intros id r Hid Hr. apply list_elem_of_split in Hid as (pre & post & Hpre). eexists. by apply (Hreq pre id post). }
  split; [|split; [|split; [by exists reqs|split; [|split]]]].
  - apply (base_requests (pending (num_scheduled_tokens o) (scheduled_spec_decode_tokens o))); [done|done|]. intros id r Hid Hr _ _ _ _.
    destruct (Hscan id r Hid Hr) as [marked Hm]. eexists. split; [exact Hm|]. by apply (scanned_request_ok s o marked id r).
  - apply set_eq. intros id. rewrite Haff, failed_ids_elem. split; [intros [?%elem_of_empty|[? ?]]; [done|by split]|]. intros [? ?]. by right.
  - intros id Hid. destruct (decide (id ∈ running s)) as [Hin|]; [|by apply Hout]. destruct (base_running _ _ _ _ id Hb Hin) as (r & Hr & _).
    destruct (Hscan id r Hin Hr) as [marked Hm]. rewrite Hm, Hr. f_equal. by apply (scanned_request_ok s o marked id r).
  - intros id r Hid Hr. apply failed_ids_elem in Hid as [_ Hid]. by apply Hscan.
  - intros b Hin. by destruct (Hev b Hin) as [?%elem_of_empty|?].
Qed.

(** They are the running requests at risk. *)
Lemma failed_ids_at_risk (s : t) live id :
  0 < bs → base [] live True s → id ∈ failed_ids s ↔ id ∈ running s ∧ ∃ idx b, at_risk cfg invalid s id idx b.
Proof using Hgroup.
  intros Hbs Hb. rewrite failed_ids_elem. split.
  - intros [Hf Hid]. split; [done|]. pose proof (base_scannable _ s id Hb Hid) as Hsc.
    destruct (failed_of invalid s id) as [|[idx b] l] eqn:He; [done|]. exists idx, b. apply failed_at_risk; [done|done|]. rewrite He. by left.
  - intros [Hid (idx & b & Hr)]. split; [|done]. intros He. apply failed_at_risk in Hr; [|done|by apply (base_scannable _ s id Hb)].
    rewrite He in Hr. by apply elem_of_nil in Hr.
Qed.

Lemma no_async_loads (s : t) live :
  base [] live True s → filter (λ id, status <$> requests s !! id = Some WAITING_FOR_REMOTE_KVS) (queue_iter (key_of s) (waiting s)) = [].
Proof.
  intros Hb. apply filter_none. intros id Hid. rewrite queue_iter_elements in Hid.
  destruct (base_waiting _ _ _ _ id Hb) as (r & -> & _ & Hw & _); [by rewrite app_nil_r|]. simpl. intros [= Hst]. rewrite Hst in Hw. by destruct Hw as [|[|]].
Qed.

Lemma base_recving sk live fresh (s : t) x y : base sk live fresh s → base sk live fresh (set_recving x y s).
Proof.
  intros Hb. by apply (base_places sk sk live fresh s).
Qed.

(** [_handle_invalid_blocks]: the running requests that hold failed blocks, and only they, go
    back, and they are passed over. *)
Lemma handle_runs recompute (s : t) o :
  0 < bs → base [] (pending (num_scheduled_tokens o) (scheduled_spec_decode_tokens o)) True s → report_ok s →
  recompute = true ∨ KVEvictLaws K B (max_model_len cfg) →
  runs (handle_invalid_blocks cfg recompute invalid) s (λ failed s', failed = failed_ids s
    ∧ base [] (pending (num_scheduled_tokens (pass_over failed o)) (scheduled_spec_decode_tokens o)) True s'
    ∧ running s' = running s ∧ (∀ id, id ∉ failed → requests s' !! id = requests s !! id)
    ∧ ∀ id r, id ∈ failed → requests s !! id = Some r → ∃ marked, requests s' !! id = Some (scanned_request cfg invalid s marked id r)).
Proof using Hgroup.
  intros Hbs Hb Hrep Hev. unfold handle_invalid_blocks. runs_step. rewrite (no_async_loads s _ Hb). simpl. do 2 runs_step.
  eapply runs_seq; [by apply (scan_running s o true)|]. intros f s1 (Hb1 & Haff & [reqs ->] & Hsame & Hscan & Hblocks). rewrite Haff.
  case_decide as Hnone.
  { runs_step. destruct Hnone as [_ He]. rewrite He in *. done. }
  eapply (runs_seq _ _ _ (λ _ s2, base [] (pending (num_scheduled_tokens (pass_over (failed_ids s) o)) (scheduled_spec_decode_tokens o)) True s2
    ∧ running s2 = running s ∧ requests s2 = reqs)).
  { case_decide as Hd; [|by runs_step]. destruct Hev as [Hev|Hev]; [by destruct Hd as [_ Hd]; rewrite Hd in Hev|].
    apply runs_on_kv. eapply runs_mono; [apply (kv_evict_law (max_model_len := max_model_len cfg))|].
    - by apply b_kv in Hb.
    - intros b Hin%elem_of_elements. by apply Hblocks.
    - intros [] k [Hk Hkr]. split; [|done]. apply base_kv; [apply pending_stable|done|done|done]. }
  intros [] s2 (Hb2 & Hrun & Hreq). destruct recompute; [do 2 runs_step|runs_step].
  - split; [done|]. split; [by apply base_recving|]. simpl. by rewrite Hreq.
  - change (affected_req_ids nothing_found) with (∅ : gset string). by rewrite (left_id_L ∅ (∪)), Hreq.
Qed.

(** The loop that passes over requests is the loop without them. *)
Lemma update_others_filter failed spec out acc (l : list (string * Z)) (s : t) :
  (∀ id n, (id, n) ∈ l → 0 < n) →
  update_others cfg failed spec out acc l s = update_loop cfg spec out acc (filter (λ x, x.1 ∉ failed) l) s.
Proof.
  revert acc s. induction l as [|[id n] l IH]; intros acc s Hpos; [done|]. cbn [update_others].
  assert (0 < n) as Hn by (apply (Hpos id); by left). assert (∀ i m, (i, m) ∈ l → 0 < m) as Hl by (intros i m Hin; apply (Hpos i); by right).
  rewrite (bind_run _ _ s tt s) by (unfold passert, lift, rassert; simpl; by rewrite (proj2 (Z.ltb_lt 0 n) Hn)).
  rewrite filter_cons. cbn [fst]. destruct (decide (id ∉ failed)) as [Hf|Hf%dec_stable].
  - rewrite decide_False by done. cbn [update_loop]. unfold bind at 1 2. destruct (update_one cfg spec out acc (id, n) s) as [[a|e] s']; [by apply IH|done].
  - rewrite decide_True by done. apply IH. done.
Qed.

(** ** The step *)

Lemma pass_over_keys (failed : gset string) (l : list (string * Z)) id :
  id ∈ od_keys (filter (λ x, x.1 ∉ failed) l) ↔ (id ∉ failed) ∧ id ∈ od_keys l.
Proof.
  unfold od_keys. rewrite !list_elem_of_fmap. split.
  - intros (x & -> & [? ?]%list_elem_of_filter). split; [done|by exists x].
  - intros [Hf (x & -> & ?)]. exists x. split; [done|]. by apply list_elem_of_filter.
Qed.

Lemma current_pass_over failed o (s s1 : t) :
  output_current o s → running s1 = running s → (∀ id, id ∉ failed → requests s1 !! id = requests s !! id) → output_current (pass_over failed o) s1.
Proof.
  intros [Hnd Hcur] Hrun Hsame. split.
  - simpl. unfold od_keys in *. eapply sublist_NoDup; [done|apply fmap_sublist, sublist_filter].
  - intros id n. simpl. rewrite pass_over_get. case_decide; [done|]. rewrite Hrun, Hsame by done. apply Hcur.
Qed.

Lemma ran_pass_over live failed o out (s s1 : t) :
  base [] live True s → (∀ id, id ∈ failed → id ∈ running s) → model_ran (pass_over failed o) out s →
  (∀ id, id ∉ failed → requests s1 !! id = requests s !! id) → model_ran (pass_over failed o) out s1.
Proof.
  intros Hb Hf [R1 R2 R3 [R4 R5]] Hsame. split; try done.
  - intros id r Hid. simpl in Hid. pose proof Hid as [Hn _]%pass_over_keys. rewrite Hsame by done. by apply R1.
  - split; [done|]. intros id Hid. destruct (R5 id Hid) as (r & Hr & Hfin). exists r. split; [|done]. rewrite Hsame; [done|].
    intros Hin%Hf. destruct (base_running _ _ _ _ id Hb Hin) as (r' & Hr' & _ & Hst & _). rewrite Hr in Hr'. injection Hr' as <-.
    unfold is_finished in Hfin. by rewrite Hst in Hfin.
Qed.

Lemma handled_runs recompute (s : t) o :
  0 < bs → base [] (pending (num_scheduled_tokens o) (scheduled_spec_decode_tokens o)) True s → report_ok s →
  recompute = true ∨ KVEvictLaws K B (max_model_len cfg) →
  runs (if decide (invalid = ∅) then ret ∅ else handle_invalid_blocks cfg recompute invalid) s (λ failed s', failed = failed_ids s
    ∧ base [] (pending (num_scheduled_tokens (pass_over failed o)) (scheduled_spec_decode_tokens o)) True s'
    ∧ running s' = running s ∧ (∀ id, id ∉ failed → requests s' !! id = requests s !! id)
    ∧ ∀ id r, id ∈ failed → requests s !! id = Some r → ∃ marked, requests s' !! id = Some (scanned_request cfg invalid s marked id r)).
Proof using Hgroup.
  intros Hbs Hb Hrep Hev. case_decide as Hi; [|by apply handle_runs]. runs_step.
  assert (failed_ids s = ∅) as ->.
  { apply set_eq. intros id. rewrite failed_ids_elem. split; [|by intros ?%elem_of_empty]. intros [Hne _]. destruct Hne.
    unfold FailedLoads.failed_of, failing. apply filter_none. intros x _. rewrite Hi. apply not_elem_of_empty. }
  split; [done|]. split; [|split; [done|split; [done|by intros ? ? ?%elem_of_empty]]].
  eapply base_live; [exact Hb|]. intros id r _ _. unfold SchedulerStep.pending. simpl. by rewrite pass_over_get, decide_False by apply not_elem_of_empty.
Qed.

(** The requests with failed loads end where they cannot be computed again. *)
Lemma fail_runs recompute failed acc (s : t) :
  base [] between True s → (∀ id, id ∈ failed → is_Some (requests s !! id)) →
  runs (fail_requests recompute failed acc) s (λ _ s', base [] between True s' ∧ (∀ id, id ∉ failed → requests s' !! id = requests s !! id)
    ∧ if recompute : bool then requests s' = requests s else ∀ id, id ∈ failed → ended s' id).
Proof.
  intros Hb Hf. unfold fail_requests. case_decide as Hd.
  - destruct Hd as [Hne ->]. eapply runs_seq; [apply (runs_map_each (λ _ _, True))|].
    { intros id Hid%elem_of_elements. destruct (Hf id Hid) as [r Hr]. exists r, s. split; [|done]. unfold get_request, bind, get_st, lift. by rewrite Hr. }
    intros rs s1 [-> _]. eapply runs_seq; [apply (finish_runs _ s (elements failed) FINISHED_ERROR Hb); [|apply NoDup_elements|done]|].
    { split; [apply between_stable|]. intros k id r [_ Hk]. by eexists. }
    intros clients s2 (Hb2 & Hout & Hend). runs_step. split; [done|]. split; [intros id Hid; apply Hout; by rewrite elem_of_elements|].
    intros id Hid r. apply Hend. by apply elem_of_elements.
  - runs_step. split; [done|]. split; [done|]. destruct recompute; [done|]. intros id Hid.
    exfalso. apply Hd. split; [|done]. intros ->. by apply elem_of_empty in Hid.
Qed.

(** [update_from_output] with failed loads: the state is in order for the next step; the
    requests with failed blocks run on from the tokens before them, or end with an error. *)
Lemma update_failed_runs recompute o out (s : t) :
  good_config cfg → 0 < bs → base [] (pending (num_scheduled_tokens o) (scheduled_spec_decode_tokens o)) True s → output_current o s →
  report_ok s → model_ran (pass_over (failed_ids s) o) out s → recompute = true ∨ KVEvictLaws K B (max_model_len cfg) →
  runs (update_from_output_ cfg recompute o out invalid) s (λ _ s', inv cfg has_cache_item s'
    ∧ (∀ id, ended s id → ended s' id)
    ∧ (∀ id r generated, (id ∉ failed_ids s) → id ∈ od_keys (num_scheduled_tokens o) → requests s !! id = Some r → is_finished r = false →
        sampled_for out id generated → moved r generated (requests s' !! id))
    ∧ ∀ id r, id ∈ failed_ids s → requests s !! id = Some r →
        if recompute then ∃ marked, requests s' !! id = Some (scanned_request cfg invalid s marked id r) else ended s' id).
Proof using Hgroup.
  intros Hg Hbs Hb Hcur Hrep Hran Hev. unfold update_from_output_.
  assert (∀ id, id ∈ failed_ids s → id ∈ running s) as Hfr by (by intros id [_ ?]%failed_ids_elem).
  eapply runs_seq; [by apply (handled_runs recompute s o)|]. intros ? s1 (-> & Hb1 & Hrun1 & Hsame1 & Hscan1).
  set (failed := failed_ids s) in *. set (o1 := pass_over failed o) in *.
  pose proof (current_pass_over failed o s s1 Hcur Hrun1 Hsame1) as Hcur1. pose proof (ran_pass_over _ failed o out s s1 Hb Hfr Hran Hsame1) as Hran1.
  fold o1 in Hcur1, Hran1. eapply (runs_seq _ _ _ (λ acc s2, _)).
  { destruct (loop_runs o1 out s1 Hg Hb1 Hcur1 Hran1) as (acc & s2 & Hrun & HP). exists acc, s2. split; [|exact HP].
    rewrite update_others_filter; [exact Hrun|]. intros id n Hin. destruct Hcur as [Hnd Hpos]. by destruct (Hpos id n) as [? _]; [by apply od_elem_get|]. }
  intros acc s2 (Hpre & Hb2 & Hm & He). runs_step. rewrite Hpre. runs_step.
  assert (∀ id r, id ∈ failed → requests s !! id = Some r → ∃ marked, requests s2 !! id = Some (scanned_request cfg invalid s marked id r)) as Hscan2.
  { intros id r Hid Hr. rewrite He; [by apply Hscan1|]. right. simpl. by intros [? _]%pass_over_keys. }
  eapply runs_seq; [apply (fail_runs recompute failed acc _ Hb2)|].
  { intros id Hid. destruct (base_running _ _ _ _ id Hb (Hfr id Hid)) as (r & Hr & _). destruct (Hscan2 id r Hid Hr) as [marked Hs]. by eexists. }
  intros outs s3 (Hb3 & Hout3 & Hfail3). destruct (ran_sending _ _ _ Hran) as [Hsn Hsf]. rewrite (ran_recving _ _ _ Hran).
  assert (∀ id, ended s id → (id ∉ failed) ∧ requests s3 !! id = requests s !! id) as Hend.
  { intros id Hid. assert (id ∉ failed) as Hnf; [|split; [done|]].
    - intros Hin%Hfr. destruct (base_running _ _ _ _ id Hb Hin) as (r & Hr & _ & Hst & _). specialize (Hid r Hr). unfold is_finished in Hid. by rewrite Hst in Hid.
    - rewrite Hout3 by done. simpl. rewrite He; [by apply Hsame1|]. left. intros r. rewrite Hsame1 by done. apply Hid. }
  eapply runs_seq; [apply (xfer_runs _ s3 Hb3 Hsn)|].
  { intros id Hid. destruct (Hsf id Hid) as (r & Hr & Hf). exists r. split; [|done]. rewrite (proj2 (Hend id ltac:(intros r' Hr'; rewrite Hr in Hr'; by injection Hr' as <-))). done. }
  intros [] s4 (Hb4 & Hsame4 & Hgone4). runs_step. split; [done|].
  assert (∀ id, ended s3 id → ended s4 id) as Hgo.
  { intros id Hid r Hr. destruct (Hgone4 id) as [Hx|Hx]; rewrite Hx in Hr; [by apply Hid|done]. }
  assert (∀ id r, requests s !! id = Some r → is_finished r = false → requests s4 !! id = requests s3 !! id) as Hkeep.
  { intros id r Hr Hf. apply Hsame4. intros Hin. destruct (Hsf id Hin) as (r' & Hr' & Hf'). congruence. }
  split; [intros id Hid; apply Hgo; intros r Hr; rewrite (proj2 (Hend id Hid)) in Hr; by apply Hid|]. split.
  - intros id r g Hid Hkey Hr Hf Hs. rewrite (Hkeep id r Hr Hf), Hout3 by done. apply (Hm id r g); [by apply pass_over_keys|by rewrite Hsame1|done|done].
  - intros id r Hid Hr. destruct recompute; [|by apply Hgo, Hfail3]. destruct (base_running _ _ _ _ id Hb (Hfr id Hid)) as (r' & Hr' & _ & Hst & _).
    rewrite (Hkeep id r' Hr'), Hfail3 by (unfold is_finished; by rewrite Hst). by apply Hscan2.
Qed.

(** A request that was preempted and starts again keeps the number of tokens that it first
    started with.  When it had found none, the scan looks at none of its blocks: whatever
    fails of the tokens that it starts with this time, it counts them all as computed. *)
Theorem resumed_failure_missed id r num_computed n l loras skipped (s : t) :
  requests s !! id = Some r → status r = PREEMPTED → num_cached_tokens r = 0 → request_ok r → enc_inv (enc s) → 0 < bs →
  chosen_inputs (has_cache_item := has_cache_item) (cfg := cfg) (enc s) r [] [] →
  runs (start_running cfg id num_computed n ([], 0, []) (l, loras, skipped)) s (λ _ s',
    (∃ r', requests s' !! id = Some r' ∧ status r' = RUNNING ∧ num_computed_tokens r' = num_computed) ∧ failed_of invalid s' id = []).
Proof.
  intros Hr Hst Hc Hok He Hbs Hch. eapply runs_mono; [apply (start_running_spec id r num_computed n [] 0 [] l loras skipped s Hr); [by right|done..]|].
  intros w s' (e & b & loras' & _ & _ & ->). simpl. rewrite lookup_alter_eq, Hr. simpl.
  assert (started num_computed r = set_num_computed_tokens num_computed (set_status RUNNING r)) as Hs.
  { unfold started. change (num_cached_tokens (set_num_computed_tokens num_computed (set_status RUNNING r))) with (num_cached_tokens r). by rewrite Hc. }
  split; [eexists; by rewrite Hs|]. unfold FailedLoads.failed_of, scanned, failing. simpl. rewrite lookup_alter_eq, Hr. simpl. rewrite Hs.
  destruct (kv_block_ids _ _) as [|ids [|]]; [done| |done].
  assert (∀ x, req_num_computed_tokens cfg x (set_num_computed_tokens num_computed (set_status RUNNING r)) ids = 0) as -> by (intros x; exact Hc).
  rewrite Z.add_0_l, Z.div_small by lia. done.
Qed.
End failure.
End SchedulerFailure.
