(* ===== verification/SchedulerTrace.v ===== *)
(** The scheduler as its engine calls it: requests come and are aborted, steps are scheduled
    and their output comes back.  In every state that is reached no call raises, every
    request is in its place, and requests that are scheduled come to an end. *)
From Stdlib Require Import QArith.
From stdpp Require Import gmap strings.
From S2P Require Export SchedulerFailure.
From stdpp Require Import options.
Open Scope Z_scope.

Module SchedulerTrace.
Import SchedRequest Scheduler SchedulerInv SchedulerRun SchedulerTurn SchedulerFrame SchedulerStep SchedulerLeave SchedulerResult SchedulerCalls FailedLoads SchedulerFailure.

Section trace.
Context {K B E C Q : Type} `{!KVCacheOps K B, !KVEvictOps K, !EncoderCacheOps E, !KVConnectorOps C B, !RequestQueueOps string Q}.
Context (cfg : config) (recompute_kv_load_failures : bool) (grammar_ready : string → bool) (has_cache_item : option (string → bool)).
Context `{!KVCacheLaws K B (max_model_len cfg), !EncoderLaws E (is_encoder_decoder cfg) (disable_chunked_mm_input cfg) has_cache_item,
          !KVConnectorLaws C B, !RequestQueueLaws string Q}.

Abbreviation t := (Scheduler.t K E C Q).
Abbreviation inv := (inv cfg has_cache_item (K := K) (B := B) (E := E) (C := C) (Q := Q)).
Abbreviation model_ran := (model_ran (K := K) (E := E) (C := C) (Q := Q)).

(** A step of the engine: [schedule], aborts while the model runs, and what it ran. *)
Inductive step_by (s : t) (o : SchedulerOutput) (out : ModelRunnerOutput) (s1 s2 s' : t) : Prop :=
  | StepBy empty aborted finished_status clients res :
      queue_elements empty = [] → schedule cfg grammar_ready has_cache_item empty s = (Ok o, s1) →
      NoDup aborted → status_is_finished finished_status = true → finish_requests aborted finished_status s1 = (Ok clients, s2) →
      model_ran o out s2 → update_from_output cfg o out s2 = (Ok res, s') → step_by s o out s1 s2 s'.

(** The calls between two steps. *)
Inductive quiet (s : t) : t → Prop :=
  | QAdd r s' : new_request (cfg := cfg) (has_cache_item := has_cache_item) r → requests s !! request_id r = None → add_request_ r s = (Ok tt, s') → quiet s s'
  | QFinish ids finished_status clients s' :
      NoDup ids → status_is_finished finished_status = true → finish_requests ids finished_status s = (Ok clients, s') → quiet s s'
  | QDrafts validate drafts s' : update_draft_token_ids validate drafts s = (Ok tt, s') → quiet s s'
  | QPause p : quiet s (set_pause_state p s).

(** A step in which workers report blocks whose load failed, and what the model ran of the
    other requests. *)
Inductive failed_step (s : t) : t → Prop :=
  | FailedStep empty o s1 aborted finished_status clients s2 invalid_block_ids out res s' :
      queue_elements empty = [] → schedule cfg grammar_ready has_cache_item empty s = (Ok o, s1) →
      NoDup aborted → status_is_finished finished_status = true → finish_requests aborted finished_status s1 = (Ok clients, s2) →
      report_ok (cfg := cfg) (B := B) invalid_block_ids s2 → model_ran (pass_over (failed_ids (cfg := cfg) (B := B) invalid_block_ids s2) o) out s2 →
      update_from_output_ cfg recompute_kv_load_failures o out invalid_block_ids s2 = (Ok res, s') → failed_step s s'.

(** What the engine does.  Loads fail only with one group of layers, where the cache can evict
    blocks unless the failed tokens are computed again. *)
Inductive engine (s : t) : t → Prop :=
  | EQuiet s' : quiet s s' → engine s s'
  | EFailed s' :
      KVOneGroup K B (max_model_len cfg) → recompute_kv_load_failures = true ∨ KVEvictLaws K B (max_model_len cfg) → failed_step s s' → engine s s'
  | EStep o out s1 s2 s' : step_by s o out s1 s2 s' → engine s s'
  | EReset reset_running reset_connector o s' : reset_prefix_cache reset_running reset_connector s = (o, s') → engine s s'.

(** A request that is there and not finished. *)
Definition alive (id : string) (s : t) : Prop := ∃ r, requests s !! id = Some r ∧ is_finished r = false.

(** How far a request is: its tokens, and those of them that are computed. *)
Definition weight (r : Request) : Z := num_tokens r + num_computed_tokens r.

(** A call takes at most [lost] from it. *)
Definition takes (id : string) (lost : Z) (s s' : t) : Prop :=
  ∀ r r', requests s !! id = Some r → requests s' !! id = Some r' → weight r ≤ weight r' + lost.

(** A request is scheduled in [n] steps and is alive after each of them.  In between come any
    calls of the engine, which leave it alive: steps that do not schedule it, or preempt it,
    resets, failed loads; [lost] is what they take from it in all. *)
Inductive served (id : string) : nat → Z → t → t → Prop :=
  | ServedNone s : served id 0 0 s s
  | ServedStep n lost s o out s1 s2 s' s'' :
      step_by s o out s1 s2 s' → id ∈ od_keys (num_scheduled_tokens o) → alive id s' → served id n lost s' s'' →
      served id (Datatypes.S n) lost s s''
  | ServedQuiet n lost s s' s'' : quiet s s' → alive id s' → served id n lost s' s'' → served id n lost s s''
  | ServedOther n lost more s s' s'' :
      engine s s' → alive id s' → takes id more s s' → served id n lost s' s'' → served id n (lost + more) s s''.

(** ** Every call keeps the state in order *)

Lemma between_holds : holds_slots (cfg := cfg) (SchedulerInv.between cfg (K := K) (B := B)).
Proof. split; [apply between_stable|]. intros k id r [_ Hk]. by eexists. Qed.

Lemma pending_holds scheduled spec : holds_slots (cfg := cfg) (SchedulerStep.pending (cfg := cfg) (K := K) (B := B) scheduled spec).
Proof.
  split.
  - apply pending_stable.
  - intros k id r. unfold SchedulerStep.pending. destruct (od_get id scheduled); [intros (_ & ? & _); by eexists|intros [_ ?]; by eexists].
Qed.

Lemma inv_pause p (s : t) : inv s → inv (set_pause_state p s).
Proof.
  intros [H1 H2 H3 H4 H5 H6 H7 H8]. split; try done. intros id r Hr. destruct (H3 id r Hr) as [Hid Hp]. split; [done|].
  destruct Hp as [? ? ? ?|? ? ? ? ? ?|n ? ? ?]; [by apply PRunning|by apply PWaiting|by apply (PFinished _ _ _ _ _ _ _ _ n)].
Qed.

(** Aborts while the model runs: the scheduled requests that are left still run. *)
Lemma current_after_finish o (s1 s2 : t) (ids : list string) live :
  base cfg has_cache_item [] live True s1 → base cfg has_cache_item [] live True s2 →
  (∀ x, x ∉ ids → requests s2 !! x = requests s1 !! x) → (∀ x r, x ∈ ids → requests s2 !! x = Some r → is_finished r = true) →
  NoDup (od_keys (num_scheduled_tokens o)) → (∀ id n, od_get id (num_scheduled_tokens o) = Some n → 0 < n ∧ id ∈ running s1) → output_current o s2.
Proof.
  intros Hb1 Hb2 Hsame Hfin Hnd Hrun. split; [done|]. intros id n Hn. destruct (Hrun id n Hn) as [Hn0 Hin]. split; [done|]. intros r Hr Hf.
  destruct (decide (id ∈ ids)) as [Hid|Hid]; [by rewrite (Hfin id r Hid Hr) in Hf|]. destruct (base_running _ _ _ _ id Hb1 Hin) as (r' & Hr' & _ & Hst & _).
  rewrite Hsame, Hr' in Hr by done. injection Hr as ->. destruct (unfinished_place _ s2 id r Hb2) as [[_ ?]|(? & _)]; [by rewrite Hsame|done|done|done].
Qed.

(** A step from a state in order. *)
Lemma step_runs s o out s1 s2 s' :
  good_config cfg → inv s → step_by s o out s1 s2 s' →
  inv s' ∧ same_texts s s1 ∧ (∀ id n r r1, od_get id (num_scheduled_tokens o) = Some n → requests s !! id = Some r → requests s1 !! id = Some r1 →
     0 < n ∧ num_computed_tokens r + n ≤ num_computed_tokens r1)
  ∧ (∀ id, requests s2 !! id = requests s1 !! id ∨ ended s2 id)
  ∧ (∀ id r, id ∈ od_keys (num_scheduled_tokens o) → requests s2 !! id = Some r → is_finished r = false →
       ∃ generated, moved r generated (requests s' !! id))
  ∧ ∀ id, ended s2 id → ended s' id.
Proof.
  intros Hg Hi [empty aborted st clients res Hem Hs Hnd Hfs Hf Hran Hu].
  destruct (runs_run _ _ _ _ _ (schedule_runs grammar_ready empty s Hg Hi Hem) Hs) as [(Hb1 & Hnd1 & Hsch & _ & _ & _ & _ & _ & Hgrow) Htext].
  destruct (runs_run _ _ _ _ _ (finish_runs _ s1 aborted st Hb1 (pending_holds _ _) Hnd Hfs) Hf) as (Hb2 & Hsame & Hfin).
  pose proof (current_after_finish o s1 s2 aborted _ Hb1 Hb2 Hsame Hfin Hnd1 Hsch) as Hcur.
  destruct (runs_run _ _ _ _ _ (update_runs o out s2 Hg Hb2 Hcur Hran) Hu) as (Hi' & Hm & He).
  split; [done|]. split; [done|]. split; [intros id n r r1 Hn Hr Hr1; split; [by apply (Hsch id n)|by apply (Hgrow id n)]|]. split; [|split; [|done]].
  - intros id. destruct (decide (id ∈ aborted)) as [Hid|Hid]; [right; intros r; by apply Hfin|left; by apply Hsame].
  - intros id r Hid Hr Hfr. destruct (ran_sampled _ _ _ Hran id r Hid Hr Hfr) as (g & Hg' & _). exists g. by apply Hm.
Qed.

Lemma quiet_inv s s' : inv s → quiet s s' → inv s'.
Proof.
  intros Hi Hq. destruct Hq as [r s' Hr Hn Ha|ids st cl s' Hnd Hfs Hf|v d s' Hd|p].
  - by apply (runs_run _ _ _ _ _ (add_runs _ s r Hi Hr Hn) Ha).
  - by apply (runs_run _ _ _ _ _ (finish_runs _ s ids st Hi between_holds Hnd Hfs) Hf).
  - by apply (runs_run _ _ _ _ _ (drafts_runs v d _ s Hi (λ k id r l H, H)) Hd).
  - by apply inv_pause.
Qed.

Lemma failed_step_inv s s' :
  good_config cfg → inv s → KVOneGroup K B (max_model_len cfg) → recompute_kv_load_failures = true ∨ KVEvictLaws K B (max_model_len cfg) →
  failed_step s s' → inv s'.
Proof.
  intros Hg Hi Hone Hev [empty o s1 aborted st clients s2 invalid out res s'' Hem Hs Hnd Hfs Hf Hrep Hran Hu].
  destruct (runs_run _ _ _ _ _ (schedule_runs grammar_ready empty s Hg Hi Hem) Hs) as [(Hb1 & Hnd1 & Hsch & _) _].
  destruct (runs_run _ _ _ _ _ (finish_runs _ s1 aborted st Hb1 (pending_holds _ _) Hnd Hfs) Hf) as (Hb2 & Hsame & Hfin).
  pose proof (current_after_finish o s1 s2 aborted _ Hb1 Hb2 Hsame Hfin Hnd1 Hsch) as Hcur.
  by apply (runs_run _ _ _ _ _ (update_failed_runs invalid recompute_kv_load_failures o out s2 Hg (g_block _ Hg) Hb2 Hcur Hrep Hran Hev) Hu).
Qed.

Lemma engine_inv s s' : good_config cfg → inv s → engine s s' → inv s'.
Proof.
  intros Hg Hi Hstep. destruct Hstep as [s' Hq|s' H1 H2 Hs|o out s1 s2 s' Hs|b1 b2 o s' Hr].
  - by apply (quiet_inv s).
  - by apply (failed_step_inv s).
  - by apply (step_runs s o out s1 s2 s' Hg Hi).
  - destruct (reset_runs b1 b2 s Hi) as (o' & s'' & Hr' & Hi' & _). rewrite Hr in Hr'. by injection Hr' as _ <-.
Qed.

Lemma new_scheduler_inv (q : Q) (k : K) (e : E) (c : option C) :
  good_config cfg → queue_elements q = [] → kv_inv k → (∀ id, kv_ready k id 0) → enc_inv e →
  (∀ x, c = Some x → conn_inv x ∧ need_mamba_block_aligned_split cfg = false) → inv (create q k e c).
Proof.
  intros Hg Hq Hk Hr He Hc. split; simpl; rewrite ?Hq; try done; [apply NoDup_nil_2|by intros id ?%elem_of_nil|].
  apply (g_running _ Hg).
Qed.

(** The states that the engine reaches from a new scheduler are in order. *)
Lemma reachable_inv q k e c s :
  good_config cfg → queue_elements q = [] → kv_inv k → (∀ id, kv_ready k id 0) → enc_inv e →
  (∀ x, c = Some x → conn_inv x ∧ need_mamba_block_aligned_split cfg = false) → rtc engine (create q k e c) s → inv s.
Proof.
  intros Hg Hq Hk Hr He Hc. apply (rtc_ind_r (λ s, inv s)); [by apply new_scheduler_inv|]. intros y z _ Hyz Hy. by apply (engine_inv y).
Qed.

(** ** How far a request is *)

Lemma alive_bound (s : t) id r : inv s → requests s !! id = Some r → is_finished r = false → num_computed_tokens r < num_tokens r < max_model_len cfg ∧ 0 ≤ num_computed_tokens r.
Proof.
  intros Hi Hr Hf. destruct (b_placed _ _ _ _ _ _ Hi id r Hr) as [_ [_ _ Hok [Hc _]|_ _ Hok Hc _ _|n _ Hf' _]]; [| |by rewrite Hf in Hf'];
    pose proof (r_tokens _ _ _ Hok); pose proof (r_computed _ _ _ Hok); lia.
Qed.

Definition same_progress (s s' : t) : Prop :=
  ∀ id, (λ r, (status r, num_computed_tokens r, num_tokens r)) <$> requests s' !! id = (λ r, (status r, num_computed_tokens r, num_tokens r)) <$> requests s !! id.

#[local] Instance same_progress_preorder : PreOrder same_progress.
Proof. split; [by intros s id|]. intros s1 s2 s3 H1 H2 id. by rewrite H2, H1. Qed.

Lemma drafts_progress validate drafts : always same_progress (update_draft_token_ids (K := K) (E := E) (C := C) (Q := Q) validate drafts).
Proof.
  apply always_for_each; [apply _|]. intros [id spec]. apply always_bind; [apply _|apply always_get_st; apply _|]. intros s.
  destruct (requests s !! id); [|apply always_ret; apply _]. destruct (is_finished _); [apply always_ret; apply _|]. intros s1 x. simpl.
  destruct (decide (x = id)) as [->|Hx]; [rewrite lookup_alter_eq|by rewrite lookup_alter_ne]. by destruct (requests s1 !! id).
Qed.

Lemma quiet_weight (s s' : t) id r r' :
  inv s → quiet s s' → requests s !! id = Some r → requests s' !! id = Some r' → is_finished r' = false → weight r' = weight r ∧ is_finished r = false.
Proof.
  intros Hi Hq Hr Hr' Hf'. destruct Hq as [rn s' Hrn Hn Ha|ids st cl s' Hnd Hfs Hf|v d s' Hd|p].
  - destruct (runs_run _ _ _ _ _ (add_runs _ s rn Hi Hrn Hn) Ha) as [_ Hreq]. rewrite Hreq, lookup_insert_ne, Hr in Hr' by congruence. by injection Hr' as <-.
  - destruct (runs_run _ _ _ _ _ (finish_runs _ s ids st Hi between_holds Hnd Hfs) Hf) as (_ & Hsame & Hfin).
    destruct (decide (id ∈ ids)) as [Hid|Hid]; [by rewrite (Hfin id r' Hid Hr') in Hf'|]. rewrite Hsame, Hr in Hr' by done. by injection Hr' as <-.
  - pose proof (drafts_progress v d s) as Hp. rewrite Hd in Hp. specialize (Hp id). simpl in Hp. rewrite Hr, Hr' in Hp. injection Hp as H1 H2 H3.
    unfold weight, is_finished in *. by rewrite H2, H3, <- H1.
  - simpl in Hr'. rewrite Hr in Hr'. by injection Hr' as <-.
Qed.

(** A step that schedules the request brings it further. *)
Lemma step_weight s o out s1 s2 s' id r r' :
  good_config cfg → inv s → step_by s o out s1 s2 s' → id ∈ od_keys (num_scheduled_tokens o) →
  requests s !! id = Some r → is_finished r = false → requests s' !! id = Some r' → is_finished r' = false → weight r + 1 ≤ weight r'.
Proof.
  intros Hg Hi Hs Hid Hr Hf Hr' Hf'. destruct (alive_bound s id r Hi Hr Hf) as [Hb _].
  destruct (step_runs s o out s1 s2 s' Hg Hi Hs) as (_ & Htext & Hgrow & Habort & Hmoved & Hended).
  specialize (Htext id). rewrite Hr in Htext. inversion Htext as [? r1 (_ & Htok & _) E1 E2|]; subst. symmetry in E2.
  assert (num_tokens r1 = num_tokens r) as Ht1 by (unfold num_tokens; by rewrite Htok).
  apply od_get_is_Some in Hid as Hn. destruct Hn as [n Hn]. destruct (Hgrow id n r r1 Hn Hr E2) as [Hn0 Hc].
  assert (¬ ended s2 id) as Hne by (intros He; by rewrite (Hended id He r' Hr') in Hf'). destruct (Habort id) as [E3|?]; [|done]. rewrite E2 in E3.
  destruct (is_finished r1) eqn:Hf1; [destruct Hne; intros r0 Hr0; rewrite E3 in Hr0; by injection Hr0 as <-|].
  destruct (Hmoved id r1 Hid E3 Hf1) as (g & Hm). rewrite Hr' in Hm. destruct Hm as [Hm|Hm]; [by rewrite Hm in Hf'|]. unfold weight.
  case_decide; [lia|]. destruct g as [|x g]; [done|]. rewrite zlen_cons in Hm. pose proof (zlen_nonneg g). lia.
Qed.

Lemma served_weight id n lost s s' r r' :
  good_config cfg → served id n lost s s' → inv s → requests s !! id = Some r → is_finished r = false →
  requests s' !! id = Some r' → is_finished r' = false → inv s' ∧ weight r + Z.of_nat n ≤ weight r' + lost.
Proof.
  intros Hg Hs. revert r. induction Hs as [s|n lost s o out s1 s2 s' s'' Hstep Hid (r1 & Hr1 & Hf1) Hs IH|n lost s s' s'' Hq (r1 & Hr1 & Hf1) Hs IH
    |n lost more s s' s'' He (r1 & Hr1 & Hf1) Ht Hs IH]; intros r Hi Hr Hf Hr' Hf'.
  - rewrite Hr in Hr'. injection Hr' as <-. split; [done|lia].
  - destruct (step_runs s o out s1 s2 s' Hg Hi Hstep) as (Hi1 & _). destruct (IH r1 Hi1 Hr1 Hf1 Hr' Hf') as [Hi2 Hw]. split; [done|].
    pose proof (step_weight s o out s1 s2 s' id r r1 Hg Hi Hstep Hid Hr Hf Hr1 Hf1). lia.
  - destruct (IH r1 (quiet_inv s s' Hi Hq) Hr1 Hf1 Hr' Hf') as [Hi2 Hw]. split; [done|].
    destruct (quiet_weight s s' id r r1 Hi Hq Hr Hr1 Hf1). lia.
  - destruct (IH r1 (engine_inv s s' Hg Hi He) Hr1 Hf1 Hr' Hf') as [Hi2 Hw]. split; [done|].
    pose proof (Ht r r1 Hr Hr1). lia.
Qed.

(** ** Correctness *)

(** C3. For the synchronous scheduler without a limit of LoRAs ([good_config]: the assertion
    on their number can fail), requests that sample text after one prompt and are not
    resumable ([new_request]), and a connector, if any, that loads what it promises within
    the step, leaves a token to compute and raises nothing ([KVConnectorLaws]: no
    asynchronous loads; no Mamba alignment beside it), over caches and queues that keep
    their contracts. In every state that the engine reaches from a new
    scheduler, by adding and aborting requests, drafts, pauses, resets, steps and steps with
    failed loads, in any order ([engine]): every unfinished request is in one
    place, among the running ones with status [RUNNING] or in the queue with a waiting
    status; at most [max_num_running_reqs] run; a running request has slots for its computed
    tokens, which are fewer than its tokens; and the next call raises nothing: a step can be
    scheduled, such a request added, any requests aborted. *)
Theorem reachable_in_order q k e c s :
  good_config cfg → queue_elements q = [] → kv_inv k → (∀ id, kv_ready k id 0) → enc_inv e →
  (∀ x, c = Some x → conn_inv x ∧ need_mamba_block_aligned_split cfg = false) → rtc engine (create q k e c) s →
  NoDup (running s ++ queue_elements (waiting s))
  ∧ (∀ id r, requests s !! id = Some r → is_finished r = false →
       (status r = RUNNING ∧ id ∈ running s) ∨ (status r ≠ RUNNING ∧ status r ≠ WAITING_FOR_STREAMING_REQ ∧ id ∈ queue_elements (waiting s)))
  ∧ zlen (running s) ≤ max_num_running_reqs cfg
  ∧ (∀ id, id ∈ running s → ∃ r, requests s !! id = Some r ∧ num_computed_tokens r < num_tokens r ∧ keeps_slots cfg (kv s) id r)
  ∧ (∀ empty, queue_elements empty = [] → ∃ o s', schedule cfg grammar_ready has_cache_item empty s = (Ok o, s'))
  ∧ (∀ r, new_request (cfg := cfg) (has_cache_item := has_cache_item) r → requests s !! request_id r = None → ∃ s', add_request_ r s = (Ok tt, s'))
  ∧ (∀ ids st, NoDup ids → status_is_finished st = true → ∃ x s', finish_requests ids st s = (Ok x, s')).
Proof.
  intros Hg Hq Hk Hr He Hc Hreach. pose proof (reachable_inv q k e c s Hg Hq Hk Hr He Hc Hreach) as Hi.
  pose proof (b_nodup _ _ _ _ _ _ Hi) as Hnd. rewrite app_nil_r in Hnd. split; [done|]. split; [intros id r Hr0; by apply (unfinished_place _ s id r Hi)|].
  split; [by apply b_len in Hi|]. split; [|split; [|split]].
  - intros id Hid. destruct (base_running _ _ _ _ id Hi Hid) as (r & Hr0 & _ & _ & _ & Hb). by exists r.
  - intros empty Hem. destruct (schedule_runs grammar_ready empty s Hg Hi Hem) as (o & s' & Hrun & _). by exists o, s'.
  - intros r Hn Hnone. destruct (add_runs _ s r Hi Hn Hnone) as ([] & s' & Hrun & _). by exists s'.
  - intros ids st Hids Hst. destruct (finish_runs _ s ids st Hi between_holds Hids Hst) as (x & s' & Hrun & _). by exists x, s'.
Qed.

(** C4. One step of the engine, under the scope of [reachable_in_order] (synchronous
    scheduler, no limit of LoRAs, requests that sample text after one prompt, a connector
    that loads within the step and raises nothing), from a state in order ([inv]):
    [schedule] raises nothing; what it schedules is at least one token for each request it names, all of them running, no
    more than the budget in all and none while the scheduler is paused, and every one of
    these requests has grown by its tokens; requests may then be aborted, and whatever the
    model sampled for the others ([model_ran]), [update_from_output] raises nothing and leaves the state
    in order: a request with output ends, or has all of it and all its tokens but the last
    computed, rejected drafts no longer counted; one without output keeps its tokens. *)
Theorem step_keeps_promises empty aborted finished_status (s : t) :
  good_config cfg → inv s → queue_elements empty = [] → NoDup aborted → status_is_finished finished_status = true →
  runs (schedule cfg grammar_ready has_cache_item empty) s (λ o s1,
    (∀ id n, od_get id (num_scheduled_tokens o) = Some n → 0 < n ∧ id ∈ running s1)
    ∧ total_num_scheduled_tokens o = sum_tokens (num_scheduled_tokens o)
    ∧ total_num_scheduled_tokens o ≤ (if decide (pause_state s = PAUSED_ALL) then 0 else max_num_scheduled_tokens cfg)
    ∧ (∀ id n r r1, od_get id (num_scheduled_tokens o) = Some n → requests s !! id = Some r → requests s1 !! id = Some r1 →
         num_computed_tokens r + n ≤ num_computed_tokens r1)
    ∧ runs (finish_requests aborted finished_status) s1 (λ _ s2,
        ∀ out, model_ran o out s2 → runs (update_from_output cfg o out) s2 (λ _ s', inv s'
          ∧ ∀ id r generated, id ∈ od_keys (num_scheduled_tokens o) → requests s2 !! id = Some r → is_finished r = false →
              sampled_for out id generated → moved r generated (requests s' !! id)))).
Proof.
  intros Hg Hi Hem Hnd Hfs. eapply runs_mono; [by apply schedule_runs|]. intros o s1 [(Hb1 & Hnd1 & Hsch & Ht1 & Ht2 & _ & _ & _ & Hgrow) _].
  do 4 (split; [done|]). eapply runs_mono; [by apply (finish_runs _ s1 aborted finished_status Hb1 (pending_holds _ _))|].
  intros _ s2 (Hb2 & Hsame & Hfin) out Hran.
  eapply runs_mono; [apply (update_runs o out s2 Hg Hb2 (current_after_finish o s1 s2 aborted _ Hb1 Hb2 Hsame Hfin Hnd1 Hsch) Hran)|].
  intros _ s' (Hi' & Hm & _). by split.
Qed.

(** C6. One step of the engine in which workers report blocks whose load failed, under the
    scope of [reachable_in_order] (synchronous scheduler, no limit of LoRAs, requests that
    sample text after one prompt, a connector that loads within the step), with one group of
    layers ([KVOneGroup]) and a cache that can evict blocks ([KVEvictLaws]) unless failed
    loads are computed again, from a state in order: whatever the model sampled for the
    other requests, [update_from_output] raises nothing and leaves the state in order; a
    running request that holds a failed block among the tokens it was first started with
    ([at_risk]) goes back as the scan leaves it and runs on, or ends when failed loads are
    not to be computed again; the others get their output. The report must be about requests
    that have computed the tokens they first started with ([report_ok]): what becomes of
    others is [resumed_failure_missed]. *)
Theorem failed_step_keeps_promises empty aborted finished_status invalid_block_ids (s : t) :
  good_config cfg → inv s → queue_elements empty = [] → NoDup aborted → status_is_finished finished_status = true →
  KVOneGroup K B (max_model_len cfg) → recompute_kv_load_failures = true ∨ KVEvictLaws K B (max_model_len cfg) →
  runs (schedule cfg grammar_ready has_cache_item empty) s (λ o s1, runs (finish_requests aborted finished_status) s1 (λ _ s2,
    let failed := failed_ids (cfg := cfg) (B := B) invalid_block_ids s2 in
    (∀ id, id ∈ failed ↔ id ∈ running s2 ∧ ∃ idx b, at_risk cfg invalid_block_ids s2 id idx b)
    ∧ ∀ out, report_ok (cfg := cfg) (B := B) invalid_block_ids s2 → model_ran (pass_over failed o) out s2 →
    runs (update_from_output_ cfg recompute_kv_load_failures o out invalid_block_ids) s2 (λ _ s', inv s'
      ∧ (∀ id r generated, (id ∉ failed) → id ∈ od_keys (num_scheduled_tokens o) → requests s2 !! id = Some r → is_finished r = false →
           sampled_for out id generated → moved r generated (requests s' !! id))
      ∧ ∀ id r, id ∈ failed → requests s2 !! id = Some r →
          if recompute_kv_load_failures
          then ∃ marked, requests s' !! id = Some (scanned_request cfg invalid_block_ids s2 marked id r)
          else ended s' id))).
Proof.
  intros Hg Hi Hem Hnd Hfs Hone Hev. eapply runs_mono; [by apply schedule_runs|]. intros o s1 [(Hb1 & Hnd1 & Hsch & _) _].
  eapply runs_mono; [by apply (finish_runs _ s1 aborted finished_status Hb1 (pending_holds _ _))|].
  intros _ s2 (Hb2 & Hsame & Hfin) failed. split; [intros id; by apply (failed_ids_at_risk invalid_block_ids s2 _ id (g_block _ Hg) Hb2)|]. intros out Hrep Hran.
  pose proof (current_after_finish o s1 s2 aborted _ Hb1 Hb2 Hsame Hfin Hnd1 Hsch) as Hcur.
  eapply runs_mono; [apply (update_failed_runs invalid_block_ids recompute_kv_load_failures o out s2 Hg (g_block _ Hg) Hb2 Hcur Hrep Hran Hev)|].
  intros _ s' (Hi' & _ & Hm & Hf). by split.
Qed.

(** C5. Requests that are scheduled come to an end, under the scope of [reachable_in_order]
    (synchronous scheduler, no limit of LoRAs, requests that sample text after one prompt, a
    connector that loads within the step), from a state in order: while a request is alive,
    fewer steps can schedule it than twice the model's length and the progress (tokens and
    computed tokens) that the calls in between take from it. New requests, aborts of others,
    drafts and pauses take nothing; preemptions, resets and failed loads put its computed
    tokens back and count by what they take. *)
Theorem scheduled_request_ends id n lost s s' :
  good_config cfg → inv s → alive id s → served id n lost s s' → alive id s' → Z.of_nat n < 2 * max_model_len cfg + lost.
Proof.
  intros Hg Hi (r & Hr & Hf) Hs (r' & Hr' & Hf'). destruct (served_weight id n lost s s' r r' Hg Hs Hi Hr Hf Hr' Hf') as [Hi' Hw].
  destruct (alive_bound s id r Hi Hr Hf). destruct (alive_bound s' id r' Hi' Hr' Hf'). unfold weight in Hw. lia.
Qed.
End trace.
End SchedulerTrace.
