(* ===== verification/Serving.v ===== *)
(** The scheduler on the KV cache manager: what holds of GPU blocks and requests in every
    state of a serving engine, from the contracts that connect the two. *)
From Stdlib Require Import QArith.
From stdpp Require Import gmap gmultiset strings.
From S2P Require Export KVContract EncoderContract SchedulerTrace.
From stdpp Require Import options.
Open Scope Z_scope.

Module Serving.
Import SchedRequest Scheduler SchedulerInv SchedulerRun SchedulerTrace TableHashes KVContract.

Section serving.
Context (use_int : bool) (spec : KVSpec.KVCacheSpec) (eagle : bool) (cfg : config) (recompute_kv_load_failures : bool).
Context `{!HashedRequests, !HashedRequestsLaws (KVSpec.block_size spec) (max_model_len cfg)}.
Context (Hwf : KVSpec.wf_spec spec) (Hatt : ManagerBudget.attention_type spec)
  (Hsearch : CacheHit.searchable spec eagle (KVSpec.block_size spec)).
Context {E C Q : Type} `{!EncoderCacheOps E, !KVConnectorOps C CacheBlocks.t, !RequestQueueOps string Q}.
Context (grammar_ready : string → bool) (has_cache_item : option (string → bool)).
Context `{!EncoderLaws E (is_encoder_decoder cfg) (disable_chunked_mm_input cfg) has_cache_item,
          !KVConnectorLaws C CacheBlocks.t, !RequestQueueLaws string Q}.

#[local] Instance ops : KVCacheOps KVCacheManager.t CacheBlocks.t := manager_ops use_int.
#[local] Instance evict_ops : KVEvictOps KVCacheManager.t := manager_evict_ops use_int.
#[local] Instance laws : KVCacheLaws KVCacheManager.t CacheBlocks.t (max_model_len cfg) :=
  manager_laws use_int spec eagle (max_model_len cfg) Hwf Hatt Hsearch.

Abbreviation t := (Scheduler.t KVCacheManager.t E C Q).
Abbreviation bs := (KVSpec.block_size spec).
Abbreviation engine := (engine cfg recompute_kv_load_failures grammar_ready has_cache_item (K := KVCacheManager.t) (B := CacheBlocks.t) (E := E) (C := C) (Q := Q)).

(** The manager of the one group. *)
Definition group (s : t) (m : Manager.t) : Prop := KVCacheManager.tables (kv s) = [m].
Definition blocks_of (s : t) : BlockPool.t := KVCacheManager.pool (kv s).

(** Without users, every block but the null one is free. *)
Lemma all_free p : Held.held p ∅ → BlockPool.get_num_free_blocks p = BlockPool.num_gpu_blocks p - 1.
Proof.
  intros Hh. pose proof Hh as [[free Hi] _ _]. rewrite (Held.held_num_free p ∅ free Hh Hi).
  assert (free ≡ₚ seqZ 1 (BlockPool.num_gpu_blocks p - 1)) as Hp.
  { apply NoDup_Permutation; [|apply NoDup_seqZ|].
    - pose proof (FreeQueue.rep_nodup _ _ (BlockPool.inv_rep _ _ _ Hi)) as Hnd. unfold FreeQueue.path in Hnd.
      by apply NoDup_cons in Hnd as [_ (Hnd & _ & _)%NoDup_app].
    - intros b. rewrite (Held.held_free p ∅ free b Hh Hi), (BlockPool.inv_mem _ _ _ _ Hi), elem_of_seqZ.
      split; [intros (? & ? & _); lia|]. intros Hb. split; [lia|]. split; [lia|]. apply gmultiset_not_elem_of_empty. }
  destruct (BlockPool.inv_blocks _ _ _ Hi) as [_ Hn]. unfold zlen. rewrite Hp, length_seqZ. lia.
Qed.

Lemma uses_none m : (∀ id, Manager.table id m = []) → Manager.uses m = ∅.
Proof.
  intros Ht. destruct (gmultiset_choose_or_empty (Manager.uses m)) as [[b Hb]|]; [|done]. apply Manager.elem_of_uses in Hb as [r Hb].
  rewrite Ht in Hb. by apply elem_of_nil in Hb.
Qed.

(** C1. The scheduler on the real KV cache manager, for one group of attention layers with
    prefix caching on and no events, the synchronous scheduler without a limit of LoRAs
    ([good_config]), requests that sample text after one prompt ([engine] adds no others) and
    whose block hashes differ from each other ([HashedRequestsLaws]), any queue, and a
    connector, if any, that loads what it promises within the step, leaves a token to compute
    and raises nothing ([KVConnectorLaws]: no asynchronous loads, whose requests hold blocks
    while they wait). In every state that the engine reaches, failed loads included: the next step can be scheduled; a running request holds
    blocks for all its computed tokens; a request that waits, or that the scheduler no longer knows, holds none; the
    references of a block are the tables that hold it, a single one for a block that the
    request has not cached yet; and when no request is left, every block but the null one is
    free: no block leaks. *)
Theorem serving_blocks nb hbs stats q k e c (s : t) :
  KVCacheManager.create nb [spec] (max_model_len cfg) hbs true eagle stats false 1 1 = Ok k →
  good_config cfg → queue_elements q = [] → enc_inv e →
  (∀ x, c = Some x → conn_inv x ∧ need_mamba_block_aligned_split cfg = false) → rtc engine (create q k e c) s →
  ∃ m, group s m
  ∧ (∀ id, id ∈ running s → ∃ r, requests s !! id = Some r ∧ num_computed_tokens r ≤ zlen (Manager.table id m) * bs)
  ∧ (∀ id, id ∈ queue_elements (waiting s) ∨ requests s !! id = None → Manager.table id m = [])
  ∧ (∀ b, b ∈ BlockPool.blocks (blocks_of s) → b ≠ 0 →
       FreeQueue.ref_cnt (BlockPool.block_of (blocks_of s) b) = Z.of_nat (multiplicity b (Manager.uses m)))
  ∧ (∀ id i b, Manager.table id m !! i = Some b → num_cached id m ≤ Z.of_nat i → b ≠ 0 →
       FreeQueue.block_hash (BlockPool.block_of (blocks_of s) b) = None ∧ (multiplicity b (Manager.uses m) ≤ 1)%nat)
  ∧ (requests s = ∅ →
       BlockPool.get_num_free_blocks (blocks_of s) = BlockPool.num_gpu_blocks (blocks_of s) - 1)
  ∧ ∀ empty, queue_elements empty = [] → ∃ o s', schedule cfg grammar_ready has_cache_item empty s = (Ok o, s').
Proof using All.
  intros Hk Hg Hq He Hc Hr. destruct (create_state spec eagle (max_model_len cfg) Hwf nb hbs stats k Hk) as (Hinv & Hready & _).
  pose proof (reachable_inv cfg recompute_kv_load_failures grammar_ready has_cache_item q k e c s Hg Hq Hinv Hready He Hc Hr) as Hi.
  destruct (b_kv _ _ _ _ _ _ Hi) as (p & m & Hs). destruct (state_tables spec eagle (max_model_len cfg) (kv s) p m Hs) as [Ht Hp].
  assert (∀ id n, kv_ready (kv s) id n → has_slots spec m id n) as Hslots.
  { intros id n (m' & Hm & H1). rewrite Ht in Hm. by injection Hm as <-. }
  pose proof (Manager.good_held _ _ _ _ (st_good _ _ _ _ _ _ Hs)) as Hh. simpl in Hh. rewrite (right_id_L ∅ (⊎)) in Hh.
  exists m. unfold group, blocks_of. rewrite Hp. split; [done|]. split; [|split; [|split; [apply Hh|split; [apply (st_tidy _ _ _ _ _ _ Hs)|split]]]].
  - intros id Hid. destruct (base_running _ _ _ _ id Hi Hid) as (r & Hr0 & _ & _ & Hok & _ & Hrd). exists r. split; [done|].
    apply Hslots in Hrd. unfold has_slots in Hrd. rewrite (proj2 (Z.eqb_neq _ 0)) in Hrd by lia. lia.
  - intros id [Hid|Hid].
    + destruct (base_waiting _ _ _ _ id Hi ltac:(apply elem_of_app; by left)) as (r & _ & _ & _ & _ & _ & Hrd & _). by apply Hslots in Hrd as [? _].
    + apply (b_unknown _ _ _ _ _ _ Hi), Hslots in Hid as [? _]. done.
  - intros Hnone. apply all_free. rewrite uses_none in Hh; [done|]. intros id. destruct (Hslots id 0) as [? _]; [|done].
    apply (b_unknown _ _ _ _ _ _ Hi). by rewrite Hnone.
  - intros empty Hem. destruct (SchedulerStep.schedule_runs grammar_ready empty s Hg Hi Hem) as (o & s' & Hrun & _). by exists o, s'.
Qed.
End serving.
End Serving.
