(* ===== verification/SchedulerDemo.v ===== *)
(** The scheduler at a concrete configuration: an allocator that counts slots, the encoder
    cache, a connector that finds two tokens, and two requests through their steps. *)
From Stdlib Require Import QArith.
From stdpp Require Import gmap strings.
From S2P Require Export EncoderContract EncoderDemo SchedulerTrace.
From stdpp Require Import options.
Open Scope Z_scope.

(** ** An allocator *)

Module SlotCache.
Import SchedRequest.

Record t := Slots { free_slots : Z; held : gmap string Z }.

Definition slots_of (k : t) (id : string) : Z := default 0 (held k !! id).

Definition allocate (r : Request) (n : Z) (k : t) : option unit * t :=
  let more := num_computed_tokens r + n - slots_of k (request_id r) in
  if more <=? free_slots k then (Some tt, Slots (free_slots k - more) (<[request_id r := num_computed_tokens r + n]> (held k))) else (None, k).

Definition release (r : Request) (k : t) : t := Slots (free_slots k + slots_of k (request_id r)) (delete (request_id r) (held k)).

#[global] Instance slot_ops : KVCacheOps t unit := {
  kv_new_step_starts := ret tt;
  kv_empty_blocks := tt;
  kv_get_computed_blocks r := ret (tt, 0);
  kv_allocate_slots r n local b lookahead ext delay encoder_tokens := λ k, let '(o, k') := allocate r (local + ext + n) k in (Ok o, k');
  kv_free r := modify (release r);
  kv_cache_blocks r n := ret tt;
  kv_get_blocks id k := tt;
  kv_block_ids k b := [];
  kv_block_ids_or_none k b := None;
  kv_remove_skipped_blocks id n := ret tt;
  kv_get_num_common_prefix_blocks id := ret [0];
  kv_reset_prefix_cache := ret true
}.

#[global] Instance slot_evict_ops : KVEvictOps t := { kv_evict_blocks ids := ret tt }.

Definition ready (k : t) (id : string) (n : Z) : Prop := if n =? 0 then held k !! id = None else n ≤ slots_of k id.

Lemma ready_pos k id n : 0 < n → ready k id n ↔ n ≤ slots_of k id.
Proof. intros Hn. unfold ready. by rewrite (proj2 (Z.eqb_neq n 0)) by lia. Qed.

Lemma ready_other k k' id n : held k' !! id = held k !! id → ready k id n → ready k' id n.
Proof. unfold ready, slots_of. by intros ->. Qed.

#[global, refine] Instance slot_laws max_len : KVCacheLaws t unit max_len :=
  {| kv_inv k := True; kv_ready := ready; kv_hits k r b n := n = 0 |}.
Proof.
  - intros k id m n Hm. rewrite !ready_pos by lia. lia.
  - done.
  - done.
  - intros k _. by apply runs_ret.
  - intros k r _ Hr Hlen. apply runs_ret. simpl. split; [done|]. split; [done|]. split; [done|]. lia.
  - intros k r n local b lookahead ext delay enc_tokens c _ -> Hr Hn Hc _ _ He Hpos Hlen. unfold runs. cbn [kv_allocate_slots slot_ops]. unfold allocate.
    fold c. replace (c + (0 + ext + n)) with (c + 0 + ext + n) by lia. cbv zeta.
    destruct (Z.leb (c + 0 + ext + n - slots_of k (request_id r)) (free_slots k)); [|by eexists _, _].
    eexists _, _. split; [reflexivity|]. split; [done|]. split.
    + intros id m [Hid|?]; [|done]. apply ready_other. simpl. by rewrite lookup_insert_ne by done.
    + intros _. rewrite ready_pos by lia. unfold slots_of. simpl. rewrite lookup_insert_eq. simpl. lia.
  - intros k r n _ Hr. apply runs_modify_end. split; [done|]. split; [apply lookup_delete_eq|].
    intros id m Hid. apply ready_other. by apply lookup_delete_ne.
  - intros k id _. by apply runs_ret.
  - intros k id n _. by apply runs_ret.
  - intros k _. by apply runs_ret.
Defined.
End SlotCache.

(** ** A connector *)

(** It finds up to two tokens behind the local ones, and counts its calls. *)
Module TwoTokens.
#[global] Instance two_ops {B} : KVConnectorOps Z B := {
  get_num_new_matched_tokens r local := λ c, (Ok (Some (Z.min 2 (SchedRequest.num_tokens r - 1 - local)), false), c + 1);
  update_state_after_alloc r b ext := modify (Z.add 1);
  build_connector_meta o := modify (Z.add 1);
  request_finished r ids := ret false;
  update_connector_output recving sending := ret tt;
  connector_reset_cache := ret true
}.

#[global, refine] Instance two_laws {B} : KVConnectorLaws Z B := {| conn_inv c := 0 ≤ c |}.
Proof.
  - intros c r local Hc Hl. eexists _, _. split; [reflexivity|]. simpl. split; [lia|]. split; [done|]. intros ext [= <-]. lia.
  - intros c r b ext Hc. apply runs_modify_end. lia.
  - intros c o Hc. apply runs_modify_end. lia.
  - intros c r ids Hc. by apply runs_ret.
  - intros c recving sending Hc. by apply runs_ret.
  - intros c Hc. by apply runs_ret.
Defined.
End TwoTokens.

(** ** Two requests *)

Module SchedulerDemo.
Import SchedRequest Scheduler SchedulerInv SchedulerResult SchedulerCalls SchedulerTrace.

Definition cfg : config := Config FCFS false 2 8 12 0 true false 2 2 0 0 false false 8 None false false 1.

Definition Q : Type := FCFSRequestQueue.t string.
Definition empty : Q := FCFSRequestQueue.create.
Definition grammar_ready (id : string) : bool := false.

#[global] Instance cache_laws : EncoderLaws EncoderCacheManager.t false false None :=
  EncoderContract.encoder_cache_laws EncoderDemo.embeds EncoderDemo.embeds_nonneg false None.

Abbreviation state := (t SlotCache.t EncoderCacheManager.t Z Q).

(** Six prompt tokens with an image, and four without. *)
Definition request (id : string) (prompt : list Z) (features : list mm_feature) : Request :=
  MkRequest (Identity id 0 0 5 false None false false)
    (Content 0 (Some (Sampling 0 (Some 2) [] None)) prompt (zlen prompt) prompt [] [] features)
    (Progress 0 (-1) 0 0 0 false false) WAITING None None.
Definition one : Request := request "one" [11; 12; 13; 14; 15; 16] [EncoderDemo.image].
Definition two : Request := request "two" [21; 22; 23; 24] [].

(** Ten slots: both prompts fit, and nothing more. *)
Definition start : state := create empty (SlotCache.Slots 10 ∅) (EncoderCacheManager.create 8) (Some 0).
Definition queued : state := (add_request_ (B := unit) two (add_request_ (B := unit) one start).2).2.

(** A step in which the model samples the tokens for the two requests. *)
Definition ran (tokens : list (list Z)) : ModelRunnerOutput := RunnerOutput [("one", 0); ("two", 1)]%string tokens [] [] [].
Definition scheduled (s : state) : result SchedulerOutput * state := schedule cfg grammar_ready None empty s.
Definition output_of (s : state) : SchedulerOutput :=
  match (scheduled s).1 with Ok o => o | Raise _ => Output [] [] ∅ [] [] [] [] [] [] 0 [] [] [] ∅ ∅ [] end.
Definition updated (tokens : list (list Z)) (s : state) : result (list (Z * list EngineCoreOutput)) * state :=
  update_from_output cfg (output_of s) (ran tokens) (scheduled s).2.
Definition results_of (tokens : list (list Z)) (s : state) : list (Z * list EngineCoreOutput) :=
  match (updated tokens s).1 with Ok r => r | Raise _ => [] end.
Definition prefilled : state := (updated [[31]; [41]] queued).2.
Definition decoded : state := (updated [[32]] prefilled).2.

(** Both prompts are computed in the first step but for the tokens that the connector found;
    the second step has no slot for the next token of the first request and preempts the
    second one. *)
Example two_steps :
  num_scheduled_tokens (output_of queued) = [("one", 4); ("two", 2)]%string
  ∧ num_scheduled_tokens (output_of prefilled) = [("one", 1)]%string
  ∧ preempted_req_ids (output_of prefilled) = {["two"%string]}
  ∧ running decoded = ["one"%string] ∧ FCFSRequestQueue.items (waiting decoded) = ["two"%string].
Proof. by vm_compute. Qed.

(** *** The hypotheses of the theorems *)

Lemma good : good_config cfg.
Proof. by split. Qed.

Lemma image_valid : EncoderContract.valid_features EncoderDemo.embeds (mm_of one).
Proof.
  split; [by apply EncoderDemo.sized_checked|]. split; [repeat constructor; by intros l|].
  intros [|i] [|j] f g Hij Hf Hg; simplify_eq/=; lia.
Qed.

Lemma no_features_valid : EncoderContract.valid_features EncoderDemo.embeds (mm_of two).
Proof. split; [by apply EncoderDemo.sized_checked|]. split; [constructor|]. by intros i j f g _ [= ]. Qed.

Lemma request_new id prompt features :
  let r := request id prompt features in
  EncoderContract.valid_features EncoderDemo.embeds (mm_of r) → 1 ≤ zlen prompt < 12 → new_request (cfg := cfg) (has_cache_item := None) r.
Proof.
  intros r Hf Hlen. split; [|split; [by left|done]]. split; try done.
  - change (zlen prompt = zlen prompt + 0). lia.
  - exists (Sampling 0 (Some 2) [] None). split; [done|]. change (zlen prompt + 0 ≤ 12). lia.
  - change (-1 < zlen prompt). lia.
Qed.

Lemma start_inv : inv cfg None start.
Proof.
  apply new_scheduler_inv; [apply good|done|done|done| |].
  - apply EncoderAccounts.inv_create; done.
  - by intros c [= <-].
Qed.

Lemma queued_one : quiet cfg None start (add_request_ (B := unit) one start).2.
Proof. apply (QAdd _ _ _ one); [apply (request_new "one"); [apply image_valid|done]|done|]. by vm_compute. Qed.

Lemma queued_two : quiet cfg None (add_request_ (B := unit) one start).2 queued.
Proof. apply (QAdd _ _ _ two); [apply (request_new "two"); [apply no_features_valid|done]|by vm_compute|]. by vm_compute. Qed.

(** What the model ran, checked for the requests that were scheduled. *)
Definition sampled_check {K E C Q} (out : ModelRunnerOutput) (o : SchedulerOutput) (s : t K E C Q) (id : string) : bool :=
  match requests s !! id, od_get id (req_id_to_index out) with
  | Some r, Some index =>
      match sampled_token_ids out, py_index (sampled_token_ids out) index with
      | _ :: _, Ok generated =>
          negb (num_computed_tokens r <? num_tokens r) && (1 <=? zlen generated)
          && (zlen generated <=? zlen (default [] (od_get id (scheduled_spec_decode_tokens o))) + 1)
      | _, _ => false
      end
  | _, _ => false
  end.

Lemma sampled_checked {K E C Q} o out (s : t K E C Q) :
  forallb (sampled_check out o s) (od_keys (num_scheduled_tokens o)) = true →
  pooler_output out = [] → kv_finished_recving out = [] → kv_finished_sending out = [] → model_ran o out s.
Proof.
  intros H Hp Hr Hs. split; [|done|done|rewrite Hs; split; [constructor|by intros id ?%elem_of_nil]].
  intros id r Hid Hreq _. rewrite forallb_forall in H. specialize (H id (proj1 (list_elem_of_In _ _) Hid)). unfold sampled_check in H.
  rewrite Hreq in H. destruct (od_get id (req_id_to_index out)) as [index|] eqn:Hi; [|done].
  destruct (sampled_token_ids out) as [|l ls] eqn:Hl; [done|]. destruct (py_index (l :: ls) index) as [g|] eqn:Hg; [|done].
  apply andb_true_iff in H as [[Hn%negb_true_iff H1%Z.leb_le]%andb_true_iff H2%Z.leb_le].
  exists g. split; [|unfold sampled_ok; rewrite Hn; lia]. exists index. split; [done|]. by rewrite Hl.
Qed.

Lemma first_step_by : step_by cfg grammar_ready None queued (output_of queued) (ran [[31]; [41]]) (scheduled queued).2 (scheduled queued).2 prefilled.
Proof.
  apply (StepBy _ _ _ _ _ _ _ _ _ empty [] FINISHED_ABORTED [] (results_of [[31]; [41]] queued)); try (by vm_compute); [constructor|].
  apply sampled_checked; by vm_compute.
Qed.

Lemma second_step_by : step_by cfg grammar_ready None prefilled (output_of prefilled) (ran [[32]]) (scheduled prefilled).2 (scheduled prefilled).2 decoded.
Proof.
  apply (StepBy _ _ _ _ _ _ _ _ _ empty [] FINISHED_ABORTED [] (results_of [[32]] prefilled)); try (by vm_compute); [constructor|].
  apply sampled_checked; by vm_compute.
Qed.

Lemma queued_inv : inv cfg None queued.
Proof. apply (quiet_inv cfg None _ _ (quiet_inv cfg None _ _ start_inv queued_one) queued_two). Qed.

Definition alive_check (id : string) (s : state) : bool :=
  match requests s !! id with Some r => negb (is_finished r) | None => false end.

Lemma alive_checked id (s : state) : alive_check id s = true → alive id s.
Proof. unfold alive_check. destruct (requests s !! id) as [r|] eqn:Hr; [|done]. intros H%negb_true_iff. by exists r. Qed.

(** The state after both steps is reached from the new scheduler. *)
Example reachable_in_order_witness :
  (NoDup (running decoded ++ queue_elements (waiting decoded))
  ∧ (∀ id r, requests decoded !! id = Some r → is_finished r = false →
       (status r = RUNNING ∧ id ∈ running decoded)
       ∨ (status r ≠ RUNNING ∧ status r ≠ WAITING_FOR_STREAMING_REQ ∧ id ∈ queue_elements (waiting decoded)))
  ∧ zlen (running decoded) ≤ max_num_running_reqs cfg
  ∧ (∀ id, id ∈ running decoded → ∃ r, requests decoded !! id = Some r ∧ num_computed_tokens r < num_tokens r
       ∧ SlotCache.ready (kv decoded) id (Z.max 1 (num_computed_tokens r)))
  ∧ (∀ empty, queue_elements empty = [] → ∃ o s', schedule cfg grammar_ready None empty decoded = (Ok o, s'))
  ∧ (∀ r, new_request (cfg := cfg) (has_cache_item := None) r → requests decoded !! request_id r = None →
       ∃ s', add_request_ (B := unit) r decoded = (Ok tt, s'))
  ∧ (∀ ids st, NoDup ids → status_is_finished st = true → ∃ x s', finish_requests (B := unit) ids st decoded = (Ok x, s')))
  ∧ running decoded = ["one"%string].
Proof.
  split; [|by vm_compute].
  refine (reachable_in_order (B := unit) cfg true grammar_ready None empty (SlotCache.Slots 10 ∅) (EncoderCacheManager.create 8) (Some 0) decoded
            good eq_refl I (λ id, eq_refl) _ _ _).
  - apply EncoderAccounts.inv_create; done.
  - by intros c [= <-].
  - eapply rtc_l; [apply EQuiet, queued_one|]. eapply rtc_l; [apply EQuiet, queued_two|].
    eapply rtc_l; [eapply EStep, first_step_by|]. eapply rtc_l; [eapply EStep, second_step_by|]. apply rtc_refl.
Defined.

(** The first step, in which the second request is aborted while the model runs. *)
Example step_keeps_promises_witness :
  runs (schedule cfg grammar_ready None empty) queued (λ o s1,
    (∀ id n, od_get id (num_scheduled_tokens o) = Some n → 0 < n ∧ id ∈ running s1)
    ∧ total_num_scheduled_tokens o = sum_tokens (num_scheduled_tokens o)
    ∧ total_num_scheduled_tokens o ≤ (if decide (pause_state queued = PAUSED_ALL) then 0 else max_num_scheduled_tokens cfg)
    ∧ (∀ id n r r1, od_get id (num_scheduled_tokens o) = Some n → requests queued !! id = Some r → requests s1 !! id = Some r1 →
         num_computed_tokens r + n ≤ num_computed_tokens r1)
    ∧ runs (finish_requests (B := unit) ["two"%string] FINISHED_ABORTED) s1 (λ _ s2,
        ∀ out, model_ran o out s2 → runs (update_from_output cfg o out) s2 (λ _ s', inv cfg None s'
          ∧ ∀ id r generated, id ∈ od_keys (num_scheduled_tokens o) → requests s2 !! id = Some r → is_finished r = false →
              sampled_for out id generated → moved r generated (requests s' !! id)))).
Proof.
  apply (step_keeps_promises cfg grammar_ready None empty ["two"%string] FINISHED_ABORTED queued good queued_inv); try done.
  repeat constructor. by intros ?%elem_of_nil.
Defined.

(** The first request is scheduled twice, and loses its computed tokens by a reset. *)
Definition put_back : state := (reset_prefix_cache (B := unit) true false decoded).2.

Example scheduled_request_ends_witness : Z.of_nat 2 < 2 * max_model_len cfg + 7.
Proof.
  apply (scheduled_request_ends cfg false grammar_ready None "one" 2 7 queued put_back good queued_inv).
  - by apply alive_checked.
  - eapply ServedStep; [apply first_step_by|by vm_compute; left|by apply alive_checked; vm_compute|].
    eapply ServedStep; [apply second_step_by|by vm_compute; left|by apply alive_checked; vm_compute|].
    apply (ServedOther _ _ _ _ _ 0 0 7 decoded put_back); [|by apply alive_checked; vm_compute| |apply ServedNone].
    + apply (EReset _ _ _ _ _ true false (reset_prefix_cache (B := unit) true false decoded).1). by apply surjective_pairing.
    + intros r r' Hr Hr'. vm_compute in Hr, Hr'. injection Hr as <-. injection Hr' as <-. vm_compute. done.
  - apply alive_checked. by vm_compute.
Defined.
End SchedulerDemo.
