(* ===== verification/Offload.v ===== *)
(** [vllm/v1/kv_offload]: the status of an offloaded block ([backend.py]), the contract of
    a backend and the CPU's backend ([backends/cpu.py]), and the contract of an offloading
    manager ([abstract.py]) with what a client may conclude from it.  The managers that
    fulfil the contract are in [OffloadLru.v] and [OffloadArc.v]. *)
From S2P Require Export Prelude OrderedDict.
From stdpp Require Import options.

(** ** The status of a block *)

(** A signed integer field of [w] bits of a [ctypes.Structure]: an assignment keeps the low
    bits. *)
Definition c_int (w z : Z) : Z := (z + 2 ^ (w - 1)) `mod` 2 ^ w - 2 ^ (w - 1).

(** [BlockStatus], with the fields [P] that a backend adds. *)
Record BlockStatus (P : Type) := BS { ref_cnt : Z; payload : P }.
Arguments BS {P} ref_cnt payload.
Arguments ref_cnt {P} b.
Arguments payload {P} b.

(** [BlockStatus.__init__]: not ready. *)
Definition new_status {P} (p : P) : BlockStatus P := BS (c_int 32 (-1)) p.

Definition is_ready {P} (b : BlockStatus P) : bool := 0 <=? ref_cnt b.

(** [block.ref_cnt += d], in 32 bits. *)
Definition add_ref {P} (d : Z) (b : BlockStatus P) : BlockStatus P :=
  BS (c_int 32 (ref_cnt b + d)) (payload b).

(** [block.ref_cnt = 0] *)
Definition set_ready {P} (b : BlockStatus P) : BlockStatus P := BS 0 (payload b).

Lemma c_int_id w z : 0 < w → - 2 ^ (w - 1) ≤ z < 2 ^ (w - 1) → c_int w z = z.
Proof.
  intros Hw Hz. unfold c_int. assert (2 ^ w = 2 * 2 ^ (w - 1)) as E.
  { replace w with (Z.succ (w - 1)) at 1 by lia. rewrite Z.pow_succ_r by lia. done. }
  rewrite Z.mod_small by lia. lia.
Qed.

(** The thirty-third bit is lost. *)
Example c_int_wraps : c_int 32 (2 ^ 31 - 1 + 1) = - 2 ^ 31 ∧ c_int 32 (-1) = -1.
Proof. done. Qed.

(** ** Loops that update the status of each block *)
Section update.
Context {hash P M A : Type} `{EqDecision hash}.
Variables (find : M → hash → option (BlockStatus P)) (I : M → Prop).

(** A loop whose turn gives [h] the status [f b], where [b] is its status before. *)
Lemma map_each_update (pre : BlockStatus P → Prop) (f : BlockStatus P → option (BlockStatus P))
    (g : hash → BlockStatus P → A) (step : hash → py M A) hs m :
  (∀ m h b, I m → find m h = Some b → pre b →
    ∃ m', step h m = (Ok (g h b), m') ∧ I m' ∧
          ∀ h', find m' h' = if decide (h' = h) then f b else find m h') →
  I m → NoDup hs → (∀ h, h ∈ hs → ∃ b, find m h = Some b ∧ pre b) →
  ∃ ys m', map_each hs step m = (Ok ys, m') ∧ I m' ∧
    Forall2 (λ h y, ∃ b, find m h = Some b ∧ y = g h b) hs ys ∧
    ∀ h, find m' h = if decide (h ∈ hs) then find m h ≫= f else find m h.
Proof.
  intros Hstep. revert m. induction hs as [|h hs IH]; intros m Hm Hnd Hpre.
  { exists [], m. split_and!; [done|done|constructor|]. intros h. by rewrite decide_False by apply not_elem_of_nil. }
  apply NoDup_cons in Hnd as [Hh Hnd].
  destruct (Hpre h (list_elem_of_here _ _)) as (b & Hb & Hp).
  destruct (Hstep m h b Hm Hb Hp) as (m1 & E1 & I1 & F1).
  assert (∀ h', h' ∈ hs → find m1 h' = find m h') as Hsame.
  { intros h' Hh'. rewrite F1, decide_False; [done|]. by intros ->. }
  destruct (IH m1 I1 Hnd) as (ys & m2 & E2 & I2 & F2 & G2).
  { intros h' Hh'. rewrite Hsame by done. apply Hpre. by right. }
  exists (g h b :: ys), m2. cbn [map_each]. unfold bind, ret. rewrite E1, E2.
  split; [done|]. split; [done|]. split.
  - constructor; [by eauto|]. eapply Forall2_impl_in; [exact F2|].
    intros h' y Hh' (b' & Hb' & ->). rewrite Hsame in Hb' by done. eauto.
  - intros h'. rewrite G2, F1. destruct (decide (h' = h)) as [->|Hne].
    + rewrite decide_False, decide_True by (done || by left). by rewrite Hb.
    + destruct (decide (h' ∈ hs)); [rewrite decide_True by by right|rewrite decide_False]; [done|done|].
      by intros [?|?]%elem_of_cons.
Qed.

(** A loop whose turns keep [I] and change the status of their own block only, whether they
    return or raise; [ok] is what a turn asks of the status it finds. *)
Lemma map_each_frame (ok : option (BlockStatus P) → Prop) (step : hash → py M A) hs m :
  (∀ h m, I m → ok (find m h) →
     I (step h m).2 ∧ ∀ h', h' ≠ h → find (step h m).2 h' = find m h') →
  I m → (∀ o, ok o) ∨ (NoDup hs ∧ ∀ h, h ∈ hs → ok (find m h)) →
  I (map_each hs step m).2 ∧ ∀ h', h' ∉ hs → find (map_each hs step m).2 h' = find m h'.
Proof.
  intros Hstep. revert m. induction hs as [|h hs IH]; intros m Hm Hok; [done|].
  cbn [map_each]. unfold bind, ret. destruct (Hstep h m Hm) as [I1 F1].
  { destruct Hok as [Hok|[_ Hok]]; [done|]. apply Hok. by left. }
  destruct (step h m) as [[y|e] m1]; simpl in *.
  - destruct (IH m1 I1) as [I2 F2].
    { destruct Hok as [Hok|[[Hh Hnd]%NoDup_cons Hok]]; [by left|right]. split; [done|].
      intros h' Hh'. rewrite F1 by (by intros ->). apply Hok. by right. }
    assert (∀ h', h' ∉ h :: hs → find (map_each hs step m1).2 h' = find m h') as F.
    { intros h' [Hne Hh']%not_elem_of_cons. by rewrite F2, F1. }
    by destruct (map_each hs step m1) as [[ys|e] m2].
  - split; [done|]. intros h' [Hne _]%not_elem_of_cons. by apply F1.
Qed.
End update.

(** A loop for its effects is a loop whose results are dropped. *)
Lemma for_each_map_each {S A} (l : list A) (f : A → py S unit) s :
  for_each l f s = bind (map_each l f) (λ _, ret tt) s.
Proof.
  revert s. induction l as [|x l IH]; intros s; [done|]. simpl. unfold bind, ret in *.
  destruct (f x s) as [[y|e] s']; [|done]. rewrite IH.
  by destruct (map_each l f s') as [[ys|e] s''].
Qed.

Lemma for_each_state {S A} (l : list A) (f : A → py S unit) s :
  (for_each l f s).2 = (map_each l f s).2.
Proof. rewrite for_each_map_each. unfold bind. by destruct (map_each l f s) as [[ys|e] s']. Qed.

(** ** The contract of a backend *)

(** The methods of [Backend]; [B] is the backend's state.  Specifications are made of the
    backend's own fields of the blocks. *)
Class Backend (hash P spec B : Type) := {
  get_num_free_blocks : B → Z;
  allocate_blocks : list hash → py B (list (BlockStatus P));
  free : BlockStatus P → py B unit;
  get_load_store_spec : list hash → list P → B → result spec;
  be_block_size : B → Z;
  be_medium : B → string
}.
Arguments get_num_free_blocks {hash P spec B} {_} b.
Arguments allocate_blocks {hash P spec B} {_} hs.
Arguments free {hash P spec B} {_} s.
Arguments get_load_store_spec {hash P spec B} {_} hs ps b.
Arguments be_block_size {hash P spec B} {_} b.
Arguments be_medium {hash P spec B} {_} b.

(** What a backend promises to its manager: [owns b ps] says that [ps] are the places that
    were handed out and not freed since; each is given to one block at a time. *)
Class BackendLaws (hash P spec B : Type) `{Backend hash P spec B} := {
  owns : B → list P → Prop;
  capacity : B → Z;
  spec_of : list P → spec;
  owns_perm b ps qs : owns b ps → ps ≡ₚ qs → owns b qs;
  owns_nodup b ps : owns b ps → NoDup ps;
  num_free_law b ps : owns b ps →
    get_num_free_blocks b + zlen ps = capacity b ∧ 0 ≤ get_num_free_blocks b;
  capacity_bound b ps : owns b ps → 0 ≤ capacity b ≤ 2 ^ 63;
  allocate_law b ps hs : owns b ps → zlen hs ≤ get_num_free_blocks b →
    ∃ qs b', allocate_blocks hs b = (Ok (BS (-1) <$> qs), b') ∧ length qs = length hs ∧
             owns b' (ps ++ qs) ∧
             (capacity b', be_block_size b', be_medium b') = (capacity b, be_block_size b, be_medium b);
  free_law b r p ps : owns b (p :: ps) →
    ∃ b', free (BS r p) b = (Ok tt, b') ∧ owns b' ps ∧
          (capacity b', be_block_size b', be_medium b') = (capacity b, be_block_size b, be_medium b);
  spec_law b hs ps : get_load_store_spec hs ps b = Ok (spec_of ps)
}.

(** ** The CPU's backend *)
Module CPUBackend.
Section cpu.
Context {hash : Type}.

Record t := CPU {
  block_size : Z;
  num_blocks : Z;
  num_allocated_blocks : Z;
  allocated_blocks_free_list : list Z
}.

Definition create (bs n : Z) : t := CPU bs n 0 [].

(** [CPUBlockStatus(block_id)]: the id in a field of 64 bits. *)
Definition CPUBlockStatus (block_id : Z) : BlockStatus Z := new_status (c_int 64 block_id).

Definition num_free (b : t) : Z :=
  zlen (allocated_blocks_free_list b) + num_blocks b - num_allocated_blocks b.

(** One turn of the loop over fresh blocks. *)
Definition fresh_block : py t (BlockStatus Z) := λ b,
  (Ok (CPUBlockStatus (num_allocated_blocks b)),
   CPU (block_size b) (num_blocks b) (num_allocated_blocks b + 1) (allocated_blocks_free_list b)).

(** One turn of the loop over reused blocks: [allocated_blocks_free_list.pop()]. *)
Definition reused_block : py t (BlockStatus Z) := λ b,
  match last (allocated_blocks_free_list b) with
  | None => (Raise IndexError, b)
  | Some block_id =>
      (Ok (CPUBlockStatus block_id),
       CPU (block_size b) (num_blocks b) (num_allocated_blocks b)
           (take (length (allocated_blocks_free_list b) - 1) (allocated_blocks_free_list b)))
  end.

Definition allocate (block_hashes : list hash) : py t (list (BlockStatus Z)) :=
  let* b := get_st in
  let num_fresh_blocks := Z.min (zlen block_hashes) (num_blocks b - num_allocated_blocks b) in
  let num_reused_blocks := zlen block_hashes - num_fresh_blocks in
  passert (num_reused_blocks <=? zlen (allocated_blocks_free_list b));;;
  let* fresh := map_each (seqZ 0 num_fresh_blocks) (λ _, fresh_block) in
  let* reused := map_each (seqZ 0 num_reused_blocks) (λ _, reused_block) in
  ret (fresh ++ reused).

Definition free_block (s : BlockStatus Z) : py t unit :=
  modify (λ b, CPU (block_size b) (num_blocks b) (num_allocated_blocks b)
                   (allocated_blocks_free_list b ++ [payload s])).

(** [CPULoadStoreSpec([block.block_id for block in blocks])]: an array of 64-bit ids. *)
Definition load_store_spec (_ : list hash) (ids : list Z) (_ : t) : result (list Z) := Ok ids.

#[global] Instance backend : Backend hash Z (list Z) t := {|
  get_num_free_blocks := num_free;
  allocate_blocks := allocate;
  free := free_block;
  get_load_store_spec := load_store_spec;
  be_block_size := block_size;
  be_medium _ := "CPU"%string
|}.

(** The ids given out so far are those of the blocks in use and those in the free list. *)
Definition owned (b : t) (ps : list Z) : Prop :=
  0 ≤ num_allocated_blocks b ≤ num_blocks b ∧ num_blocks b ≤ 2 ^ 63 ∧
  allocated_blocks_free_list b ++ ps ≡ₚ seqZ 0 (num_allocated_blocks b).

Lemma owned_create bs n : 0 ≤ n ≤ 2 ^ 63 → owned (create bs n) [].
Proof. intros. split; [done || simpl; lia|]. split; [simpl; lia|]. done. Qed.

Lemma owned_length b ps :
  owned b ps → zlen (allocated_blocks_free_list b) + zlen ps = num_allocated_blocks b.
Proof.
  intros (Hn & _ & Hp). apply Permutation_length in Hp.
  rewrite length_app, length_seqZ in Hp. unfold zlen. lia.
Qed.

Lemma owned_id b ps x : owned b ps → x ∈ allocated_blocks_free_list b ++ ps → c_int 64 x = x.
Proof.
  intros (Hn & Hb & Hp) Hx. rewrite Hp in Hx. apply elem_of_seqZ in Hx.
  apply c_int_id; [done|]. change (2 ^ (64 - 1)) with (2 ^ 63). lia.
Qed.

Lemma fresh_blocks n b ps :
  owned b ps → Z.of_nat n ≤ num_blocks b - num_allocated_blocks b →
  ∃ qs b', map_each (seqZ 0 (Z.of_nat n)) (λ _, fresh_block) b = (Ok (BS (-1) <$> qs), b') ∧
    length qs = n ∧ owned b' (ps ++ qs) ∧ (num_blocks b', block_size b') = (num_blocks b, block_size b) ∧
    allocated_blocks_free_list b' = allocated_blocks_free_list b.
Proof.
  assert (∀ n m b ps, owned b ps → Z.of_nat n ≤ num_blocks b - num_allocated_blocks b →
    ∃ qs b', map_each (seqZ m (Z.of_nat n)) (λ _, fresh_block) b = (Ok (BS (-1) <$> qs), b') ∧
    length qs = n ∧ owned b' (ps ++ qs) ∧ (num_blocks b', block_size b') = (num_blocks b, block_size b) ∧
    allocated_blocks_free_list b' = allocated_blocks_free_list b) as Hgen; [|by apply Hgen].
  clear. induction n as [|n IH]; intros m b ps Hb Hn.
  { exists [], b. by rewrite app_nil_r. }
  rewrite seqZ_cons by lia. cbn [map_each].
  set (b1 := (fresh_block b).2).
  assert (fresh_block b = (Ok (BS (-1) (num_allocated_blocks b)), b1)) as E1.
  { unfold fresh_block, b1, CPUBlockStatus, new_status. simpl. do 3 f_equal.
    destruct Hb as (H1 & H2 & _). apply c_int_id; [done|]. change (2 ^ (64 - 1)) with (2 ^ 63). lia. }
  assert (owned b1 (ps ++ [num_allocated_blocks b])) as Hb1.
  { destruct Hb as (H1 & H2 & H3). split_and!; [simpl; lia..|]. simpl.
    rewrite app_assoc, H3, seqZ_app by lia. simpl. done. }
  replace (Z.pred (Z.of_nat (S n))) with (Z.of_nat n) by lia.
  destruct (IH (Z.succ m) b1 _ Hb1) as (qs & b' & E2 & Hl & Ho & Hnb & Hfl); [simpl; lia|].
  exists (num_allocated_blocks b :: qs), b'. unfold bind, ret. rewrite E1, E2.
  split; [done|]. split; [simpl; lia|]. rewrite <- app_assoc in Ho. done.
Qed.

Lemma reused_blocks n b ps :
  owned b ps → Z.of_nat n ≤ zlen (allocated_blocks_free_list b) →
  ∃ qs b', map_each (seqZ 0 (Z.of_nat n)) (λ _, reused_block) b = (Ok (BS (-1) <$> qs), b') ∧
    length qs = n ∧ owned b' (ps ++ qs) ∧ (num_blocks b', block_size b') = (num_blocks b, block_size b).
Proof.
  assert (∀ n m b ps, owned b ps → Z.of_nat n ≤ zlen (allocated_blocks_free_list b) →
    ∃ qs b', map_each (seqZ m (Z.of_nat n)) (λ _, reused_block) b = (Ok (BS (-1) <$> qs), b') ∧
    length qs = n ∧ owned b' (ps ++ qs) ∧ (num_blocks b', block_size b') = (num_blocks b, block_size b)) as Hgen; [|by apply Hgen].
  clear. induction n as [|n IH]; intros m b ps Hb Hn.
  { exists [], b. by rewrite app_nil_r. }
  rewrite seqZ_cons by lia. cbn [map_each].
  destruct (exists_last (l := allocated_blocks_free_list b)) as (fl & x & Efl).
  { intros E. rewrite E in Hn. unfold zlen in Hn. simpl in Hn. lia. }
  set (b1 := CPU (block_size b) (num_blocks b) (num_allocated_blocks b) fl).
  assert (reused_block b = (Ok (BS (-1) x), b1)) as E1.
  { unfold reused_block. rewrite Efl, last_snoc. unfold CPUBlockStatus, new_status.
    rewrite (owned_id b ps x Hb) by (rewrite Efl, !elem_of_app; left; right; by left).
    unfold b1. rewrite length_app. simpl. rewrite Nat.add_sub, take_app_length. done. }
  assert (owned b1 (ps ++ [x])) as Hb1.
  { destruct Hb as (H1 & H2 & H3). split_and!; [simpl; lia..|]. simpl.
    rewrite <- H3, Efl. solve_Permutation. }
  replace (Z.pred (Z.of_nat (S n))) with (Z.of_nat n) by lia.
  destruct (IH (Z.succ m) b1 _ Hb1) as (qs & b' & E2 & Hl & Ho & Hnb).
  { simpl. rewrite Efl, zlen_app in Hn. unfold zlen in *. simpl in Hn. lia. }
  exists (x :: qs), b'. unfold bind, ret. rewrite E1, E2.
  split; [done|]. split; [simpl; lia|]. rewrite <- app_assoc in Ho. done.
Qed.

Lemma allocate_owned b ps hs :
  owned b ps → zlen hs ≤ num_free b →
  ∃ qs b', allocate hs b = (Ok (BS (-1) <$> qs), b') ∧ length qs = length hs ∧
           owned b' (ps ++ qs) ∧ (num_blocks b', block_size b') = (num_blocks b, block_size b).
Proof.
  intros Hb Hn. unfold num_free in Hn. pose proof (zlen_nonneg hs). pose proof (zlen_nonneg (allocated_blocks_free_list b)). pose proof Hb as (H1 & _ & _).
  unfold allocate. set (nf := Z.min (zlen hs) (num_blocks b - num_allocated_blocks b)).
  destruct (fresh_blocks (Z.to_nat nf) b ps Hb) as (q1 & b1 & E1 & L1 & O1 & N1 & F1); [lia|].
  destruct (reused_blocks (Z.to_nat (zlen hs - nf)) b1 (ps ++ q1) O1)
    as (q2 & b2 & E2 & L2 & O2 & N2); [rewrite F1; lia|].
  simplify_eq. rewrite Z2Nat.id in E1, E2 by lia. exists (q1 ++ q2), b2. split.
  - unfold bind, get_st, passert, lift, rassert. fold nf.
    rewrite (proj2 (Z.leb_le _ _)) by lia. rewrite E1, E2. unfold ret. by rewrite fmap_app.
  - rewrite <- app_assoc in O2. split; [rewrite length_app; unfold zlen in *; lia|].
    split; [done|congruence].
Qed.

#[global] Program Instance backend_laws : BackendLaws hash Z (list Z) t := {|
  owns := owned;
  capacity := num_blocks;
  spec_of ids := ids
|}.
Next Obligation. intros b ps qs (? & ? & Hp) Hq. split_and!; [lia..|]. by rewrite <- Hq. Qed.
Next Obligation.
  intros b ps (? & ? & Hp). assert (NoDup (allocated_blocks_free_list b ++ ps)) as Hnd%NoDup_app.
  { rewrite Hp. apply NoDup_seqZ. }
  tauto.
Qed.
Next Obligation.
  intros b ps Hb. pose proof (owned_length b ps Hb). destruct Hb as (? & ? & _).
  unfold get_num_free_blocks, backend, num_free.
  pose proof (zlen_nonneg (allocated_blocks_free_list b)). pose proof (zlen_nonneg ps). lia.
Qed.
Next Obligation. intros b ps (? & ? & _). lia. Qed.
Next Obligation.
  intros b ps hs Hb Hn. destruct (allocate_owned b ps hs Hb Hn) as (qs & b' & E & Hl & Ho & [= E1 E2]).
  exists qs, b'. split; [done|]. split; [done|]. split; [done|]. cbn. congruence.
Qed.
Next Obligation.
  intros b r p ps (? & ? & Hp). eexists. split; [done|]. split; [|done].
  split_and!; [simpl; lia..|]. simpl. rewrite <- Hp. solve_Permutation.
Qed.
Next Obligation. done. Qed.
End cpu.
End CPUBackend.

(** ** The contract of an offloading manager *)

(** [OffloadingEvent] *)
Record OffloadingEvent (hash : Type) := Event {
  block_hashes : list hash; block_size : Z; medium : string; removed : bool }.
Arguments Event {hash} _ _ _ _.

(** [PrepareStoreOutput] *)
Record PrepareStoreOutput (hash spec : Type) := StoreOutput {
  block_hashes_to_store : list hash; store_spec : spec; block_hashes_evicted : list hash }.
Arguments StoreOutput {hash spec} _ _ _.
Arguments block_hashes_to_store {hash spec} _.
Arguments store_spec {hash spec} _.
Arguments block_hashes_evicted {hash spec} _.

(** The loop of [lookup], shared by the managers: the blocks from the first one that are
    found and ready. *)
Fixpoint hit_count {hash P} (find : hash → option (BlockStatus P)) (block_hashes : list hash) : Z :=
  match block_hashes with
  | [] => 0
  | h :: rest =>
      match find h with
      | None => 0
      | Some b => if negb (is_ready b) then 0 else 1 + hit_count find rest
      end
  end.

(** The methods of [OffloadingManager]; [M] is the manager's state. *)
Class OffloadingManager (hash spec M : Type) := {
  lookup_blocks : list hash → M → option Z;
  prepare_load : list hash → py M spec;
  touch : list hash → py M unit;
  complete_load : list hash → py M unit;
  prepare_store : list hash → py M (option (PrepareStoreOutput hash spec));
  complete_store : list hash → bool → py M unit;
  take_events : py M (list (OffloadingEvent hash))
}.
Arguments lookup_blocks {hash spec M} {_} hs m.
Arguments prepare_load {hash spec M} {_} hs.
Arguments touch {hash spec M} {_} hs.
Arguments complete_load {hash spec M} {_} hs.
Arguments prepare_store {hash spec M} {_} hs.
Arguments complete_store {hash spec M} {_} hs success.
Arguments take_events {hash spec M} {_}.

(** A call of a manager that may change its state. *)
Inductive call (hash : Type) :=
  | PrepareLoad (hs : list hash) | Touch (hs : list hash) | CompleteLoad (hs : list hash)
  | PrepareStore (hs : list hash) | CompleteStore (hs : list hash) (success : bool)
  | TakeEvents.
Arguments PrepareLoad {hash} hs.
Arguments Touch {hash} hs.
Arguments CompleteLoad {hash} hs.
Arguments PrepareStore {hash} hs.
Arguments CompleteStore {hash} hs success.
Arguments TakeEvents {hash}.

(** The state behind a call, whether it returns or raises. *)
Definition after {hash spec M} `{OffloadingManager hash spec M} (c : call hash) (m : M) : M :=
  match c with
  | PrepareLoad hs => (prepare_load hs m).2
  | Touch hs => (touch hs m).2
  | CompleteLoad hs => (complete_load hs m).2
  | PrepareStore hs => (prepare_store hs m).2
  | CompleteStore hs success => (complete_store hs success m).2
  | TakeEvents => (take_events m).2
  end.

(** The blocks whose transfers a call begins or ends. *)
Definition concerned {hash} (c : call hash) : list hash :=
  match c with
  | PrepareLoad hs | CompleteLoad hs | CompleteStore hs _ => hs
  | Touch _ | PrepareStore _ | TakeEvents => []
  end.

(** What a client must keep to: a block is stored once per call, and only a store that is
    under way can fail. *)
Definition allowed {hash P} (find : hash → option (BlockStatus P)) (c : call hash) : Prop :=
  match c with
  | PrepareStore hs => NoDup hs
  | CompleteStore hs false => NoDup hs ∧ ∀ h b, h ∈ hs → find h = Some b → is_ready b = false
  | _ => True
  end.

(** What a manager promises.  [om_find] is the status of a block, [om_stored] the blocks
    that have a place, [om_room] how many more fit. *)
Class OffloadingManagerLaws (hash P spec M : Type) `{EqDecision hash}
    `{OffloadingManager hash spec M} := {
  om_inv : M → Prop;
  om_find : M → hash → option (BlockStatus P);
  om_stored : M → list hash;
  om_room : M → Z;
  om_capacity : M → Z;
  om_spec_of : list P → spec;
  (** Every stored block has a place of its own, and the places are limited. *)
  om_stored_find m h : om_inv m → h ∈ om_stored m ↔ is_Some (om_find m h);
  om_stored_nodup m : om_inv m → NoDup (om_stored m);
  om_places m h1 h2 b1 b2 : om_inv m → om_find m h1 = Some b1 → om_find m h2 = Some b2 →
    payload b1 = payload b2 → h1 = h2;
  om_room_law m : om_inv m → 0 ≤ om_room m ∧ om_room m + zlen (om_stored m) = om_capacity m;
  (** Every call keeps that, and leaves alone the blocks in transfer that it does not concern. *)
  om_inv_law m c : om_inv m → allowed (om_find m) c →
    om_inv (after c m) ∧ om_capacity (after c m) = om_capacity m;
  om_frame_law m c h b : om_inv m → allowed (om_find m) c → h ∉ concerned c →
    om_find m h = Some b → ref_cnt b ≠ 0 → om_find (after c m) h = Some b;
  (** The calls. *)
  lookup_law m hs : om_inv m → lookup_blocks hs m = Some (hit_count (om_find m) hs);
  touch_law m hs : om_inv m →
    (touch hs m).1 = Ok tt ∧ ∀ h, om_find (after (Touch hs) m) h = om_find m h;
  prepare_load_law m hs : om_inv m → NoDup hs →
    (∀ h, h ∈ hs → ∃ b, om_find m h = Some b ∧ is_ready b = true) →
    (∃ ps, (prepare_load hs m).1 = Ok (om_spec_of ps) ∧
           Forall2 (λ h p, payload <$> om_find m h = Some p) hs ps) ∧
    ∀ h, om_find (after (PrepareLoad hs) m) h =
         if decide (h ∈ hs) then add_ref 1 <$> om_find m h else om_find m h;
  complete_load_law m hs : om_inv m → NoDup hs →
    (∀ h, h ∈ hs → ∃ b, om_find m h = Some b ∧ 0 < ref_cnt b) →
    (complete_load hs m).1 = Ok tt ∧
    ∀ h, om_find (after (CompleteLoad hs) m) h =
         if decide (h ∈ hs) then add_ref (-1) <$> om_find m h else om_find m h;
  prepare_store_law m hs : om_inv m → NoDup hs →
    (* refused: nothing new is stored *)
    ((prepare_store hs m).1 = Ok None ∧
     ∀ h b, om_find (after (PrepareStore hs) m) h = Some b → om_find m h = Some b) ∨
    (* accepted: the new blocks get places, the evicted ones were idle *)
    ∃ out ps,
      (prepare_store hs m).1 = Ok (Some out) ∧
      block_hashes_to_store out = filter (λ h, om_find m h = None) hs ∧
      store_spec out = om_spec_of ps ∧
      Forall2 (λ h p, om_find (after (PrepareStore hs) m) h = Some (BS (-1) p))
              (block_hashes_to_store out) ps ∧
      (∀ h, h ∈ block_hashes_evicted out → ∃ b, om_find m h = Some b ∧ ref_cnt b = 0) ∧
      ∀ h, h ∉ block_hashes_to_store out →
        om_find (after (PrepareStore hs) m) h =
        if decide (h ∈ block_hashes_evicted out) then None else om_find m h;
  complete_store_law m hs : om_inv m → NoDup hs → (∀ h, h ∈ hs → is_Some (om_find m h)) →
    (complete_store hs true m).1 = Ok tt ∧
    ∀ h, om_find (after (CompleteStore hs true) m) h =
         if decide (h ∈ hs) then (λ b, if is_ready b then b else set_ready b) <$> om_find m h
         else om_find m h;
  failed_store_law m hs : om_inv m → NoDup hs →
    (∀ h, h ∈ hs → ∃ b, om_find m h = Some b ∧ is_ready b = false) →
    (complete_store hs false m).1 = Ok tt ∧
    ∀ h, om_find (after (CompleteStore hs false) m) h =
         if decide (h ∈ hs) then None else om_find m h
}.

(** ** What a client of the contract may conclude *)
Section client.
Context {hash P spec M : Type} `{OffloadingManagerLaws hash P spec M}.
Implicit Types (m : M) (hs : list hash) (c : call hash).

(** A session of calls, and that each of them is allowed when it is made. *)
Definition session (cs : list (call hash)) (m : M) : M := foldl (λ m c, after c m) m cs.

Fixpoint allowed_session (cs : list (call hash)) m : Prop :=
  match cs with
  | [] => True
  | c :: cs' => allowed (om_find m) c ∧ allowed_session cs' (after c m)
  end.

(** The same, as a test. *)
Definition allowedb (find : hash → option (BlockStatus P)) c : bool :=
  match c with
  | PrepareStore hs => bool_decide (NoDup hs)
  | CompleteStore hs false =>
      bool_decide (NoDup hs) &&
      forallb (λ h, match find h with Some b => negb (is_ready b) | None => true end) hs
  | _ => true
  end.

Fixpoint allowed_sessionb (cs : list (call hash)) m : bool :=
  match cs with
  | [] => true
  | c :: cs' => allowedb (om_find m) c && allowed_sessionb cs' (after c m)
  end.

Lemma allowedb_sound find c : allowedb find c = true → allowed find c.
Proof.
  destruct c as [| | |hs|hs [|]|]; simpl; try done.
  - apply bool_decide_eq_true.
  - intros [Hnd%bool_decide_eq_true Hr]%andb_true_iff. split; [done|]. intros h b Hh Hb.
    rewrite forallb_forall in Hr. specialize (Hr h ltac:(by apply list_elem_of_In)). rewrite Hb in Hr.
    by apply negb_true_iff.
Qed.

Lemma allowed_sessionb_sound cs m : allowed_sessionb cs m = true → allowed_session cs m.
Proof.
  revert m. induction cs as [|c cs IH]; intros m; [done|]. simpl.
  intros [Hc Hcs]%andb_true_iff. split; [by apply allowedb_sound|by apply IH].
Qed.

(** No call of the session begins or ends a transfer of [hs]. *)
Definition others hs (cs : list (call hash)) : Prop :=
  Forall (λ c, ∀ h, h ∈ hs → h ∉ concerned c) cs.

Lemma session_inv cs m :
  om_inv m → allowed_session cs m → om_inv (session cs m) ∧ om_capacity (session cs m) = om_capacity m.
Proof.
  revert m. induction cs as [|c cs IH]; intros m Hm; [done|]. intros [Hc Hcs].
  destruct (om_inv_law m c Hm Hc) as [Hi <-]. by apply IH.
Qed.

(** A block in transfer outlives the calls of others. *)
Lemma session_protected cs m hs h b :
  om_inv m → allowed_session cs m → others hs cs → h ∈ hs →
  om_find m h = Some b → ref_cnt b ≠ 0 → om_find (session cs m) h = Some b.
Proof.
  revert m. induction cs as [|c cs IH]; intros m Hm; [done|].
  intros [Hc Hcs] [Ho Hos]%Forall_cons Hh Hf Hr. simpl.
  apply IH; [by apply om_inv_law|done|done|done| |done]. apply om_frame_law; [done|done|by apply Ho|done|done].
Qed.

(** All of [hs] have the reference count [r] and the places [ps]. *)
Definition all_at (r : Z) hs (ps : list P) m : Prop :=
  Forall2 (λ h p, om_find m h = Some (BS r p)) hs ps.

Lemma all_at_elem r hs ps m h : all_at r hs ps m → h ∈ hs → ∃ p, om_find m h = Some (BS r p).
Proof.
  intros Ha [i Hi]%list_elem_of_lookup. destruct (Forall2_lookup_l _ _ _ _ _ Ha Hi) as (p & _ & Hp). eauto.
Qed.

Lemma all_at_impl r r' hs ps m m' :
  all_at r hs ps m →
  (∀ h p, h ∈ hs → om_find m h = Some (BS r p) → om_find m' h = Some (BS r' p)) →
  all_at r' hs ps m'.
Proof.
  unfold all_at. intros Ha Hi. induction Ha as [|h p hs ps Hp Ha IH]; [constructor|].
  constructor; [apply Hi; [by left|done]|]. apply IH. intros h' p' Hh. apply Hi. by right.
Qed.

Lemma hit_count_all (f : hash → option (BlockStatus P)) hs :
  (∀ h, h ∈ hs → ∃ b, f h = Some b ∧ is_ready b = true) → hit_count f hs = zlen hs.
Proof.
  induction hs as [|h hs IH]; intros Hf; [done|]. simpl.
  destruct (Hf h (list_elem_of_here _ _)) as (b & -> & ->). simpl.
  rewrite IH, zlen_cons; [lia|]. intros h' Hh. apply Hf. by right.
Qed.

Lemma all_at_lookup r hs ps m :
  om_inv m → 0 ≤ r → all_at r hs ps m → lookup_blocks hs m = Some (zlen hs).
Proof.
  intros Hm Hr Ha. rewrite lookup_law, hit_count_all; [done| |done].
  intros h Hh. destruct (all_at_elem _ _ _ _ _ Ha Hh) as [p Hp]. eexists. split; [done|].
  unfold is_ready. simpl. by apply Z.leb_le.
Qed.

Lemma all_at_places r hs ps qs m :
  all_at r hs ps m → Forall2 (λ h p, payload <$> om_find m h = Some p) hs qs → qs = ps.
Proof.
  intros Ha. revert qs. induction Ha as [|h p hs ps Hp Ha IH]; intros qs Hq; inversion Hq; subst; [done|].
  f_equal; [|by apply IH]. rewrite Hp in *. simpl in *. congruence.
Qed.

(** A store is finished: its blocks are found. *)
Lemma complete_all_at hs ps m :
  om_inv m → NoDup hs → all_at (-1) hs ps m →
  (complete_store hs true m).1 = Ok tt ∧ om_inv (after (CompleteStore hs true) m) ∧
  all_at 0 hs ps (after (CompleteStore hs true) m).
Proof.
  intros Hm Hnd Ha. destruct (complete_store_law m hs Hm Hnd) as [H1 H2].
  { intros h Hh. destruct (all_at_elem _ _ _ _ _ Ha Hh) as [p Hp]. eauto. }
  split; [done|]. split; [by apply om_inv_law|]. eapply all_at_impl; [done|].
  intros h p Hh Hp. rewrite H2, decide_True, Hp by done. done.
Qed.

(** A load of ready blocks reads their places and pins them. *)
Lemma load_all_at hs ps m :
  om_inv m → NoDup hs → all_at 0 hs ps m →
  (prepare_load hs m).1 = Ok (om_spec_of ps) ∧ om_inv (after (PrepareLoad hs) m) ∧
  all_at 1 hs ps (after (PrepareLoad hs) m).
Proof.
  intros Hm Hnd Ha. destruct (prepare_load_law m hs Hm Hnd) as [(qs & H1 & Hq) H2].
  { intros h Hh. destruct (all_at_elem _ _ _ _ _ Ha Hh) as [p Hp]. eauto. }
  apply (all_at_places _ _ _ _ _ Ha) in Hq as ->.
  split; [done|]. split; [by apply om_inv_law|]. eapply all_at_impl; [done|].
  intros h p Hh Hp. rewrite H2, decide_True, Hp by done. done.
Qed.

Lemma release_all_at hs ps m :
  om_inv m → NoDup hs → all_at 1 hs ps m →
  (complete_load hs m).1 = Ok tt ∧ all_at 0 hs ps (after (CompleteLoad hs) m).
Proof.
  intros Hm Hnd Ha. destruct (complete_load_law m hs Hm Hnd) as [H1 H2].
  { intros h Hh. destruct (all_at_elem _ _ _ _ _ Ha Hh) as [p Hp]. by exists (BS 1 p). }
  split; [done|]. eapply all_at_impl; [done|].
  intros h p Hh Hp. rewrite H2, decide_True, Hp by done. done.
Qed.

Lemma session_all_at r cs hs ps m :
  om_inv m → allowed_session cs m → others hs cs → r ≠ 0 →
  all_at r hs ps m → all_at r hs ps (session cs m).
Proof.
  intros Hm Hc Ho Hr Ha. eapply all_at_impl; [done|]. intros h p Hh Hp. by eapply session_protected.
Qed.

(** A store's transfer: what [prepare_store] returned is on its way, whatever others do, until
    [complete_store]; then it is found, a load reads the places the store wrote, and they
    stay readable, whatever others do, until [complete_load]. *)
Lemma store_load_session m hs out cs1 cs2 :
  om_inv m → NoDup hs → (prepare_store hs m).1 = Ok (Some out) →
  let new := block_hashes_to_store out in
  let m1 := session cs1 (after (PrepareStore hs) m) in
  let m2 := after (CompleteStore new true) m1 in
  let m3 := session cs2 (after (PrepareLoad new) m2) in
  allowed_session cs1 (after (PrepareStore hs) m) → others new cs1 →
  allowed_session cs2 (after (PrepareLoad new) m2) → others new cs2 →
  new = filter (λ h, om_find m h = None) hs ∧
  (complete_store new true m1).1 = Ok tt ∧ lookup_blocks new m2 = Some (zlen new) ∧
  (prepare_load new m2).1 = Ok (store_spec out) ∧ lookup_blocks new m3 = Some (zlen new) ∧
  (complete_load new m3).1 = Ok tt.
Proof.
  intros Hm Hnd Hout new m1 m2 m3 A1 O1 A2 O2.
  assert (om_inv (after (PrepareStore hs) m)) as Hi by by apply om_inv_law.
  destruct (prepare_store_law m hs Hm Hnd) as [[H1 _]|(out' & ps & H1 & Hnew & Hsp & Hps & _)];
    rewrite Hout in H1; simplify_eq.
  assert (NoDup new) as Hnn by (unfold new; rewrite Hnew; by apply NoDup_filter).
  destruct (session_inv cs1 _ Hi A1) as [Hi1 _].
  destruct (complete_all_at new ps m1 Hi1 Hnn) as (R2 & Hi2 & At2); [by apply session_all_at|].
  destruct (load_all_at new ps m2 Hi2 Hnn At2) as (R3 & Hi3 & At3).
  destruct (session_inv cs2 _ Hi3 A2) as [Hi4 _].
  assert (all_at 1 new ps m3) as At4 by by apply session_all_at.
  destruct (release_all_at new ps m3 Hi4 Hnn At4) as [R5 _].
  split_and!; [done|done|by eapply (all_at_lookup 0)|congruence|by eapply (all_at_lookup 1)|done].
Qed.
End client.
