(* ===== verification/OffloadLru.v ===== *)
(** [vllm/v1/kv_offload/lru_manager.py]: the manager of offloaded blocks that evicts the
    least recently used block without readers.  It fulfils the contract of [Offload.v] over
    any backend that fulfils the backend's. *)
From S2P Require Export Offload.
From stdpp Require Import options.

(** ** Dictionaries of blocks, which both managers keep *)
Section dictionary.
Context {hash P : Type} `{EqDecision hash}.
Implicit Types (d : list (hash * BlockStatus P)) (h : hash) (b : BlockStatus P).

(** The places that the blocks of a dictionary take. *)
Definition places d : list P := payload <$> d.*2.

(** The keys of the blocks without transfers, oldest first. *)
Definition idle d : list hash := (filter (λ hb, ref_cnt hb.2 = 0) d).*1.

Lemma places_set h b b' d :
  od_get h d = Some b → payload b' = payload b → places (od_set h b' d) = places d.
Proof. apply od_set_view. Qed.

Lemma places_del h b d : od_get h d = Some b → places d ≡ₚ payload b :: places (od_del h d).
Proof. intros Hb. unfold places. by rewrite (od_get_perm h b d Hb) at 1. Qed.

Lemma places_move h d d' : od_move_to_end h d = Ok d' → places d' ≡ₚ places d.
Proof. intros Hd. unfold places. by rewrite (od_move_to_end_perm h d d' Hd). Qed.

Lemma places_app d d' : places (d ++ d') = places d ++ places d'.
Proof. unfold places. by rewrite !fmap_app. Qed.

Lemma places_length d : length (places d) = length d.
Proof. unfold places. by rewrite !length_fmap. Qed.

(** Two blocks at one place are one block. *)
Lemma places_inj d h1 h2 b1 b2 :
  NoDup (places d) → od_get h1 d = Some b1 → od_get h2 d = Some b2 → payload b1 = payload b2 → h1 = h2.
Proof.
  intros Hnd H1 H2 Hp. destruct (decide (h1 = h2)) as [|Hne]; [done|]. exfalso.
  rewrite (places_del _ _ _ H1) in Hnd. apply NoDup_cons in Hnd as [Hnin _]. apply Hnin.
  assert (od_get h2 (od_del h1 d) = Some b2) as H3 by by rewrite od_get_del_ne.
  unfold places. rewrite (od_get_perm _ _ _ H3), Hp. by left.
Qed.

Lemma idle_elem d h : od_wf d → h ∈ idle d ↔ ∃ b, od_get h d = Some b ∧ ref_cnt b = 0.
Proof.
  intros Hd. unfold idle. split.
  - intros ([h' b] & -> & [Hr Hin]%list_elem_of_filter)%list_elem_of_fmap_1.
    exists b. split; [by apply od_elem_get|done].
  - intros (b & Hb & Hr). apply (list_elem_of_fmap_2' fst _ (h, b)); [|done].
    apply list_elem_of_filter. split; [done|by apply od_get_elem].
Qed.

Lemma idle_nodup d : od_wf d → NoDup (idle d).
Proof. intros Hd. apply (od_wf_filter (λ hb, ref_cnt hb.2 = 0)), Hd. Qed.
End dictionary.

Module LRU.
Section lru.
Context {hash P spec B : Type} `{EqDecision hash} `{BackendLaws hash P spec B}.
Implicit Types (h : hash) (hs : list hash).

(** [LRUOffloadingManager]: the backend, the blocks from the least recently used on, and the
    events if they are enabled. *)
Record t := Manager {
  backend : B;
  blocks : list (hash * BlockStatus P);
  events : option (list (OffloadingEvent hash))
}.
Implicit Types (m : t).

Definition create (b : B) (enable_events : bool) : t :=
  Manager b [] (if enable_events then Some [] else None).

Definition set_blocks d : py t unit := modify (λ m, Manager (backend m) d (events m)).

(** A call of the backend. *)
Definition on_backend {A} (f : py B A) : py t A := λ m,
  let '(r, b) := f (backend m) in (r, Manager b (blocks m) (events m)).

(** [self.blocks[block_hash]] *)
Definition get_block h : py t (BlockStatus P) := λ m,
  (of_option KeyError (od_get h (blocks m)), m).

(** [self.blocks[block_hash] = block], or a change of the block under that key. *)
Definition set_block h (b : BlockStatus P) : py t unit :=
  modify (λ m, Manager (backend m) (od_set h b (blocks m)) (events m)).

(** [self.events.append(OffloadingEvent(...))], if there is something to tell. *)
Definition pushed_events hs (removed : bool) m : option (list (OffloadingEvent hash)) :=
  match hs, events m with
  | _ :: _, Some l => Some (l ++ [Event hs (be_block_size (backend m)) (be_medium (backend m)) removed])
  | _, e => e
  end.

Definition push_event hs (removed : bool) : py t unit :=
  modify (λ m, Manager (backend m) (blocks m) (pushed_events hs removed m)).

Definition lookup hs m : option Z := Some (hit_count (λ h, od_get h (blocks m)) hs).

(** One turn of [prepare_load]. *)
Definition load_block h : py t (BlockStatus P) :=
  let* b := get_block h in
  passert (is_ready b);;;
  set_block h (add_ref 1 b);;;
  ret b.

Definition prepare_load_lru hs : py t spec :=
  let* bs := map_each hs load_block in
  let* m := get_st in
  lift (get_load_store_spec hs (payload <$> bs) (backend m)).

Definition touch_block h : py t unit :=
  let* m := get_st in
  if od_mem h (blocks m)
  then let* d := lift (od_move_to_end h (blocks m)) in set_blocks d
  else ret tt.

Definition touch_lru hs : py t unit := for_each (rev hs) touch_block.

Definition release_block h : py t unit :=
  let* b := get_block h in
  passert (0 <? ref_cnt b);;;
  set_block h (add_ref (-1) b).

Definition complete_load_lru hs : py t unit := for_each hs release_block.

(** The search for [n > 0] blocks to evict; [None] when there are not enough. *)
Fixpoint to_evict (n : Z) (d : list (hash * BlockStatus P)) : option (list hash) :=
  match d with
  | [] => None
  | (h, b) :: d' =>
      if ref_cnt b =? 0
      then if n - 1 =? 0 then Some [h] else cons h <$> to_evict (n - 1) d'
      else to_evict n d'
  end.

(** [self.backend.free(self.blocks.pop(block_hash))] *)
Definition evict_block h : py t unit :=
  let* b := get_block h in
  let* m := get_st in
  set_blocks (od_del h (blocks m));;;
  on_backend (free b).

Definition prepare_store_lru hs : py t (option (PrepareStoreOutput hash spec)) :=
  let* m := get_st in
  let new := filter (λ h, od_mem h (blocks m) = false) hs in
  let num_blocks_to_evict := zlen new - get_num_free_blocks (backend m) in
  match (if 0 <? num_blocks_to_evict then to_evict num_blocks_to_evict (blocks m) else Some []) with
  | None => ret None
  | Some evicted =>
      for_each evicted evict_block;;;
      push_event evicted true;;;
      let* bs := on_backend (allocate_blocks new) in
      passert (length bs =? length new)%nat;;;
      for_each (zip new bs) (λ hb, set_block hb.1 hb.2);;;
      let* m' := get_st in
      let* sp := lift (get_load_store_spec new (payload <$> bs) (backend m')) in
      ret (Some (StoreOutput new sp evicted))
  end.

(** One turn of [complete_store]: the block, if it was not ready. *)
Definition stored_block h : py t (list hash) :=
  let* b := get_block h in
  if negb (is_ready b) then set_block h (set_ready b);;; ret [h] else ret [].

Definition failed_block h : py t unit :=
  let* b := get_block h in
  if negb (is_ready b)
  then on_backend (free b);;;
       let* m := get_st in set_blocks (od_del h (blocks m))
  else ret tt.

Definition complete_store_lru hs (success : bool) : py t unit :=
  if success
  then let* stored := map_each hs stored_block in push_event (concat stored) false
  else for_each hs failed_block;;; push_event [] false.

(** [take_events], read to its end. *)
Definition take_events_lru : py t (list (OffloadingEvent hash)) := λ m,
  match events m with
  | None => (Ok [], m)
  | Some l => (Ok l, Manager (backend m) (blocks m) (Some []))
  end.

#[global] Instance manager : OffloadingManager hash spec t := {|
  lookup_blocks := lookup;
  prepare_load := prepare_load_lru;
  touch := touch_lru;
  complete_load := complete_load_lru;
  prepare_store := prepare_store_lru;
  complete_store := complete_store_lru;
  take_events := take_events_lru
|}.

(** *** The invariant: the blocks' places are those that the backend handed out *)
Definition inv m : Prop := od_wf (blocks m) ∧ owns (backend m) (places (blocks m)).

Definition find m h : option (BlockStatus P) := od_get h (blocks m).

Definition inv_at (c : Z) m : Prop := inv m ∧ capacity (backend m) = c.

Lemma lru_set_block_step c m h b b' :
  inv_at c m → find m h = Some b → payload b' = payload b →
  inv_at c (set_block h b' m).2 ∧
  ∀ h', find (set_block h b' m).2 h' = if decide (h' = h) then Some b' else find m h'.
Proof.
  intros [[Hw Ho] Hc] Hf Hp. unfold find in *. split.
  - split; [|done]. split; simpl; [auto with kv|]. by rewrite (places_set h b).
  - intros h'. simpl. case_decide as Hh; [subst; apply od_get_set|by apply od_get_set_ne].
Qed.

(** A block that is freed leaves the dictionary and gives back its place. *)
Lemma lru_remove_step c m h b :
  inv_at c m → find m h = Some b →
  ∃ b', free b (backend m) = (Ok tt, b') ∧
    inv_at c (Manager b' (od_del h (blocks m)) (events m)) ∧
    (be_block_size b', be_medium b') = (be_block_size (backend m), be_medium (backend m)) ∧
    ∀ h', od_get h' (od_del h (blocks m)) = if decide (h' = h) then None else find m h'.
Proof.
  intros [[Hw Ho] Hc] Hf. unfold find in *.
  destruct b as [r p]. destruct (free_law (backend m) r p (places (od_del h (blocks m)))) as (b' & E & Ho' & Hc').
  { eapply owns_perm; [done|]. by apply (places_del h (BS r p)). }
  exists b'. split; [done|]. split; [|split; [congruence|]].
  - split; [|simpl; congruence]. split; simpl; [auto with kv|done].
  - intros h'. case_decide as Hh; [subst; by apply od_get_del|by apply od_get_del_ne].
Qed.

Lemma evict_block_step c m h b :
  inv_at c m → find m h = Some b →
  ∃ b', evict_block h m = (Ok tt, Manager b' (od_del h (blocks m)) (events m)) ∧
    inv_at c (Manager b' (od_del h (blocks m)) (events m)) ∧
    (be_block_size b', be_medium b') = (be_block_size (backend m), be_medium (backend m)) ∧
    ∀ h', od_get h' (od_del h (blocks m)) = if decide (h' = h) then None else find m h'.
Proof.
  intros Hi Hf. destruct (lru_remove_step c m h b Hi Hf) as (b' & E & H1). exists b'. split; [|done].
  unfold evict_block, get_block, set_blocks, on_backend. py_unfold. unfold find in Hf. rewrite Hf. simpl.
  by rewrite E.
Qed.

Lemma lru_failed_block_step c m h b :
  inv_at c m → find m h = Some b → is_ready b = false →
  ∃ m', failed_block h m = (Ok tt, m') ∧ inv_at c m' ∧
        ∀ h', find m' h' = if decide (h' = h) then None else find m h'.
Proof.
  intros Hi Hf Hr. destruct (lru_remove_step c m h b Hi Hf) as (b' & E & H1 & _ & H2).
  eexists. split; [|split; [exact H1|exact H2]].
  unfold failed_block, get_block, set_blocks, on_backend. py_unfold. unfold find in Hf. rewrite Hf. simpl.
  rewrite Hr. simpl. by rewrite E.
Qed.

(** *** Each turn of a loop keeps the invariant and the other blocks *)

(** What a turn for [h] may do. *)
Definition turn (c : Z) {A} (step : hash → py t A) : Prop := ∀ h m,
  inv_at c m → True → inv_at c (step h m).2 ∧ ∀ h', h' ≠ h → find (step h m).2 h' = find m h'.

Lemma lru_turn_set c h m b b' :
  inv_at c m → find m h = Some b → payload b' = payload b →
  inv_at c (set_block h b' m).2 ∧ ∀ h', h' ≠ h → find (set_block h b' m).2 h' = find m h'.
Proof.
  intros Hi Hf Hp. destruct (lru_set_block_step c m h b b' Hi Hf Hp) as [H1 H2].
  split; [done|]. intros h' Hh. by rewrite H2, decide_False.
Qed.

Lemma lru_load_block_turn c : turn c load_block.
Proof.
  intros h m Hi _. unfold load_block, get_block. py_unfold.
  destruct (od_get h (blocks m)) as [b|] eqn:Hf; simpl; [|done].
  destruct (is_ready b); [|done]. by apply (lru_turn_set c h m b).
Qed.

Lemma lru_release_block_turn c : turn c release_block.
Proof.
  intros h m Hi _. unfold release_block, get_block. py_unfold.
  destruct (od_get h (blocks m)) as [b|] eqn:Hf; simpl; [|done].
  destruct (0 <? ref_cnt b); [|done]. by apply (lru_turn_set c h m b).
Qed.

Lemma lru_stored_block_turn c : turn c stored_block.
Proof.
  intros h m Hi _. unfold stored_block, get_block. py_unfold.
  destruct (od_get h (blocks m)) as [b|] eqn:Hf; simpl; [|done].
  destruct (negb (is_ready b)); [|done]. by apply (lru_turn_set c h m b).
Qed.

Lemma lru_failed_block_turn c : turn c failed_block.
Proof.
  intros h m Hi _. destruct (find m h) as [b|] eqn:Hf; unfold find in Hf.
  - destruct (is_ready b) eqn:Hr.
    + unfold failed_block, get_block. py_unfold. rewrite Hf. simpl. by rewrite Hr.
    + destruct (lru_failed_block_step c m h b Hi Hf Hr) as (m' & -> & H1 & H2).
      split; [done|]. intros h' Hh. by rewrite H2, decide_False.
  - unfold failed_block, get_block. py_unfold. by rewrite Hf.
Qed.

(** The event depends on the backend's constants only. *)
Lemma pushed_events_same hs r m b d :
  (be_block_size b, be_medium b) = (be_block_size (backend m), be_medium (backend m)) →
  pushed_events hs r (Manager b d (events m)) = pushed_events hs r m.
Proof. intros [= E1 E2]. unfold pushed_events. destruct hs; simpl; [done|]. by rewrite E1, E2. Qed.

(** *** Touching *)

Lemma lru_touch_block_step c m h :
  inv_at c m → ∃ m', touch_block h m = (Ok tt, m') ∧ inv_at c m' ∧ ∀ h', find m' h' = find m h'.
Proof.
  intros [[Hw Ho] Hc]. unfold touch_block. py_unfold. destruct (od_mem h (blocks m)) eqn:Hm; [|by exists m].
  apply od_mem_true in Hm as [b Hb].
  destruct (od_move_to_end h (blocks m)) as [d|e] eqn:Hd; [|by unfold od_move_to_end in Hd; rewrite Hb in Hd].
  eexists. split; [done|]. split.
  - split; [|done]. split; simpl; [by eapply od_wf_move_to_end|].
    eapply owns_perm; [done|]. symmetry. by eapply places_move.
  - intros h'. by eapply od_get_move_to_end.
Qed.

Lemma lru_touch_blocks c m hs :
  inv_at c m →
  ∃ m', for_each hs touch_block m = (Ok tt, m') ∧ inv_at c m' ∧ ∀ h', find m' h' = find m h'.
Proof.
  revert m. induction hs as [|h hs IH]; intros m Hi; [by exists m|].
  destruct (lru_touch_block_step c m h Hi) as (m1 & E1 & I1 & F1).
  destruct (IH m1 I1) as (m2 & E2 & I2 & F2). exists m2. cbn [for_each]. unfold bind. rewrite E1.
  split; [done|]. split; [done|]. intros h'. by rewrite F2.
Qed.

(** *** The search for victims *)

Lemma to_evict_idle n d :
  0 < n → to_evict n d = if n <=? zlen (idle d) then Some (take (Z.to_nat n) (idle d)) else None.
Proof.
  revert n. induction d as [|[h b] d IH]; intros n Hn; cbn [to_evict].
  { change (zlen (idle [])) with 0. by rewrite (proj2 (Z.leb_gt n 0)). }
  unfold idle in *. rewrite filter_cons. simpl. destruct (decide (ref_cnt b = 0)) as [Hr|Hr].
  - rewrite (proj2 (Z.eqb_eq _ _) Hr), fmap_cons, zlen_cons. destruct (Z.eqb_spec (n - 1) 0) as [H1|H1].
    + pose proof (zlen_nonneg (filter (λ hb : hash * BlockStatus P, ref_cnt hb.2 = 0) d).*1).
      rewrite (proj2 (Z.leb_le _ _)) by lia. by replace n with 1 by lia.
    + rewrite IH by lia. set (l := (filter _ d).*1).
      replace (n <=? zlen l + 1) with (n - 1 <=? zlen l)
        by (destruct (Z.leb_spec (n - 1) (zlen l)), (Z.leb_spec n (zlen l + 1)); lia).
      destruct (n - 1 <=? zlen l); [|done].
      replace (Z.to_nat n) with (S (Z.to_nat (n - 1))) by lia. done.
  - rewrite (proj2 (Z.eqb_neq _ _) Hr). by apply IH.
Qed.

(** *** Evicting, and giving the new blocks their keys *)

Lemma evict_blocks_exact c m ks :
  inv_at c m → NoDup ks → (∀ k, k ∈ ks → is_Some (find m k)) →
  ∃ b', for_each ks evict_block m
        = (Ok tt, Manager b' (filter (λ hb, hb.1 ∉ ks) (blocks m)) (events m)) ∧
    inv_at c (Manager b' (filter (λ hb, hb.1 ∉ ks) (blocks m)) (events m)) ∧
    (be_block_size b', be_medium b') = (be_block_size (backend m), be_medium (backend m)).
Proof.
  revert m. induction ks as [|k ks IH]; intros m Hi Hnd Hks.
  { exists (backend m). rewrite filter_id by (intros hb _; apply not_elem_of_nil). by destruct m. }
  apply NoDup_cons in Hnd as [Hk Hnd]. destruct (Hks k (list_elem_of_here _ _)) as [b Hb].
  destruct (evict_block_step c m k b Hi Hb) as (b1 & E1 & I1 & C1 & F1).
  destruct (IH _ I1 Hnd) as (b2 & E2 & I2 & C2).
  { intros k' Hk'. unfold find. simpl. rewrite F1, decide_False by (by intros ->). apply Hks. by right. }
  exists b2. cbn [for_each]. unfold bind. rewrite E1, E2. simpl in *.
  assert (filter (λ hb, hb.1 ∉ ks) (od_del k (blocks m)) = filter (λ hb, hb.1 ∉ k :: ks) (blocks m)) as <-.
  { rewrite od_del_filter by apply Hi. rewrite list_filter_filter.
    apply list_filter_iff. intros hb. rewrite not_elem_of_cons. tauto. }
  split; [done|]. split; [done|congruence].
Qed.

Lemma set_blocks_zip kvs m :
  for_each kvs (λ hb, set_block hb.1 hb.2) m
  = (Ok tt, Manager (backend m) (foldl (λ d hb, od_set hb.1 hb.2 d) (blocks m) kvs) (events m)).
Proof. revert m. induction kvs as [|kv kvs IH]; intros m; [by destruct m|]. cbn [for_each]. unfold bind. simpl. by rewrite IH. Qed.

(** The blocks that [prepare_store] has to find a place for, and how many must go for them. *)
Definition new_blocks hs m : list hash := filter (λ h, od_mem h (blocks m) = false) hs.
Definition num_to_evict hs m : Z := zlen (new_blocks hs m) - get_num_free_blocks (backend m).

Lemma prepare_store_refused hs m :
  zlen (idle (blocks m)) < num_to_evict hs m → prepare_store_lru hs m = (Ok None, m).
Proof.
  intros Hn. pose proof (zlen_nonneg (idle (blocks m))). unfold prepare_store_lru. py_unfold.
  fold (new_blocks hs m). fold (num_to_evict hs m).
  rewrite (proj2 (Z.ltb_lt _ _)), to_evict_idle by lia. by rewrite (proj2 (Z.leb_gt _ _)) by lia.
Qed.

Lemma new_blocks_fresh hs m h : h ∈ new_blocks hs m → od_get h (blocks m) = None.
Proof. unfold new_blocks. by intros [Hh%od_mem_false _]%list_elem_of_filter. Qed.

(** The dictionary behind an accepted store is well-formed: the new keys are new. *)
Lemma stored_wf hs (ks : list hash) ps m :
  od_wf (blocks m) → NoDup hs → length ps = length (new_blocks hs m) →
  od_wf (filter (λ hb, hb.1 ∉ ks) (blocks m) ++ zip (new_blocks hs m) (BS (-1) <$> ps)).
Proof.
  intros Hw Hnd Hl. unfold od_wf, od_keys. rewrite fmap_app, fst_zip by (rewrite length_fmap; lia).
  apply NoDup_app. split; [by apply od_wf_filter|]. split; [|by apply NoDup_filter].
  intros h Hin Hnew%new_blocks_fresh. apply od_get_None in Hnew. apply Hnew.
  apply list_elem_of_fmap_1 in Hin as (hb & -> & [_ Hin]%list_elem_of_filter). by apply list_elem_of_fmap_2.
Qed.

(** The blocks that an accepted store evicts: the oldest idle ones, as many as needed. *)
Definition victims hs m : list hash := take (Z.to_nat (num_to_evict hs m)) (idle (blocks m)).

(** The blocks behind an accepted store that gave [ps] to the new ones. *)
Definition blocks_after hs ps m : list (hash * BlockStatus P) :=
  filter (λ hb, hb.1 ∉ victims hs m) (blocks m) ++ zip (new_blocks hs m) (BS (-1) <$> ps).

Lemma victims_found hs m h : od_wf (blocks m) → h ∈ victims hs m → ∃ b, find m h = Some b ∧ ref_cnt b = 0.
Proof. intros Hw Hh%elem_of_take. destruct Hh as (i & Hi%list_elem_of_lookup_2 & _). by apply idle_elem. Qed.

Lemma victims_nodup hs m : od_wf (blocks m) → NoDup (victims hs m).
Proof. intros Hw. eapply sublist_NoDup; [by apply (idle_nodup (blocks m))|]. apply sublist_take. Qed.

Lemma victims_search hs m :
  num_to_evict hs m ≤ zlen (idle (blocks m)) →
  (if 0 <? num_to_evict hs m then to_evict (num_to_evict hs m) (blocks m) else Some []) = Some (victims hs m).
Proof.
  intros Hn. unfold victims. destruct (Z.ltb_spec 0 (num_to_evict hs m)) as [H1|H1].
  - by rewrite to_evict_idle, (proj2 (Z.leb_le _ _)) by lia.
  - by replace (Z.to_nat (num_to_evict hs m)) with 0%nat by lia.
Qed.

Lemma victims_count hs m :
  od_wf (blocks m) →
  length (blocks m)
  = (length (filter (λ hb, hb.1 ∉ victims hs m) (blocks m)) + length (victims hs m))%nat.
Proof.
  intros Hw. set (Q := λ hb : hash * BlockStatus P, hb.1 ∉ victims hs m).
  rewrite <- (filter_app_complement Q (blocks m)) at 1. rewrite length_app. f_equal.
  rewrite <- (length_fmap fst (filter (λ hb, ¬ Q hb) _)).
  apply Permutation_length, NoDup_Permutation; [|by apply victims_nodup|].
  - apply (od_wf_filter (λ hb, ¬ Q hb)), Hw.
  - intros h. split.
    + intros (hb & -> & [Hv _]%list_elem_of_filter)%list_elem_of_fmap_1.
      unfold Q in Hv. destruct (decide (hb.1 ∈ victims hs m)); tauto.
    + intros Hv. destruct (victims_found hs m h Hw Hv) as (b & Hb%od_get_elem & _).
      apply (list_elem_of_fmap_2' fst _ (h, b)); [|done].
      apply list_elem_of_filter. split; [unfold Q; simpl; tauto|done].
Qed.

(** Behind the evictions there is room for the new blocks. *)
Lemma evicted_room c hs m b' :
  inv_at c m → num_to_evict hs m ≤ zlen (idle (blocks m)) →
  inv_at c (Manager b' (filter (λ hb, hb.1 ∉ victims hs m) (blocks m)) (events m)) →
  zlen (new_blocks hs m) ≤ get_num_free_blocks b'.
Proof.
  intros [[Hw Ho] Hc] Hn [[_ Ho'] Hc']. simpl in *.
  destruct (num_free_law _ _ Ho) as [H1 _], (num_free_law _ _ Ho') as [H2 H3].
  unfold zlen in H1, H2. rewrite places_length in H1, H2.
  pose proof (victims_count hs m Hw) as Hl.
  assert (length (victims hs m) = Z.to_nat (num_to_evict hs m) `min` length (idle (blocks m)))%nat as Hv
    by (unfold victims; by rewrite length_take).
  unfold num_to_evict, zlen in *. lia.
Qed.

Lemma prepare_store_accepted c hs m :
  inv_at c m → NoDup hs → num_to_evict hs m ≤ zlen (idle (blocks m)) →
  ∃ b' ps,
    prepare_store_lru hs m
    = (Ok (Some (StoreOutput (new_blocks hs m) (spec_of ps) (victims hs m))),
       Manager b' (blocks_after hs ps m) (pushed_events (victims hs m) true m)) ∧
    length ps = length (new_blocks hs m) ∧
    inv_at c (Manager b' (blocks_after hs ps m) (pushed_events (victims hs m) true m)).
Proof.
  intros Hi Hnd Hn. pose proof Hi as [[Hw _] _].
  destruct (evict_blocks_exact c m (victims hs m) Hi) as (b1 & E1 & I1 & C1).
  { by apply victims_nodup. }
  { intros k Hk. destruct (victims_found hs m k Hw Hk) as (b & Hb & _). eauto. }
  set (ev := filter (λ hb, hb.1 ∉ victims hs m) (blocks m)) in *.
  pose proof (evicted_room c hs m b1 Hi Hn I1) as Hroom. destruct I1 as [[Hw1 Ho1] Hc1]. simpl in *.
  destruct (allocate_law b1 (places ev) (new_blocks hs m) Ho1 Hroom) as (ps & b2 & E2 & Hl & Ho2 & C2).
  exists b2, ps. pose proof (stored_wf hs (victims hs m) ps m Hw Hnd Hl) as Hw2.
  split; [|split; [done|]].
  - unfold prepare_store_lru. py_unfold. fold (new_blocks hs m) (num_to_evict hs m).
    rewrite victims_search, E1 by done.
    unfold on_backend. simpl. rewrite E2. simpl.
    rewrite length_fmap, Hl, Nat.eqb_refl. rewrite set_blocks_zip. simpl.
    rewrite od_set_all_fresh by done. rewrite spec_law.
    assert (payload <$> (BS (-1) <$> ps) = ps) as ->.
    { rewrite <- list_fmap_compose. apply list_fmap_id. }
    do 2 f_equal. by apply pushed_events_same.
  - split; [|simpl; congruence]. split; [done|]. simpl. eapply owns_perm; [done|]. unfold blocks_after. fold ev.
    rewrite places_app. f_equiv. unfold places. rewrite snd_zip by (rewrite length_fmap; lia).
    by rewrite <- list_fmap_compose, list_fmap_id.
Qed.

(** What a store does to a block's status. *)
Lemma find_after hs ps m h :
  od_wf (blocks m) → NoDup hs → length ps = length (new_blocks hs m) →
  h ∉ new_blocks hs m →
  od_get h (blocks_after hs ps m) = if decide (h ∈ victims hs m) then None else find m h.
Proof.
  intros Hw Hnd Hl Hn. unfold blocks_after. rewrite od_get_app.
  pose proof (od_get_filter (λ k : hash, k ∉ victims hs m) h (blocks m)) as Hf. cbv beta in Hf. rewrite Hf.
  assert (od_get h (zip (new_blocks hs m) (BS (-1) <$> ps)) = None) as ->.
  { apply od_get_None. unfold od_keys. by rewrite fst_zip by (rewrite length_fmap; lia). }
  unfold find. repeat case_decide; try tauto. by destruct (od_get h (blocks m)).
Qed.

Lemma find_new hs ps m :
  od_wf (blocks m) → NoDup hs → length ps = length (new_blocks hs m) →
  Forall2 (λ h p, od_get h (blocks_after hs ps m) = Some (BS (-1) p)) (new_blocks hs m) ps.
Proof.
  intros Hw Hnd Hl. apply Forall2_same_length_lookup_2; [done|]. intros i h p Hh Hp.
  apply od_elem_get; [by apply stored_wf|]. unfold blocks_after. apply elem_of_app. right.
  apply list_elem_of_lookup. exists i. apply lookup_zip_Some. split; [done|].
  by rewrite list_lookup_fmap, Hp.
Qed.

(** *** The other calls *)

Lemma lru_prepare_load_spec c m hs :
  inv_at c m → NoDup hs → (∀ h, h ∈ hs → ∃ b, find m h = Some b ∧ is_ready b = true) →
  ∃ ps m', prepare_load_lru hs m = (Ok (spec_of ps), m') ∧
    Forall2 (λ h p, payload <$> find m h = Some p) hs ps ∧
    ∀ h, find m' h = if decide (h ∈ hs) then add_ref 1 <$> find m h else find m h.
Proof.
  intros Hi Hnd Hr.
  destruct (map_each_update find (inv_at c) (λ b, is_ready b = true) (λ b, Some (add_ref 1 b))
    (λ _ b, b) load_block hs m) as (bs & m' & E & I & F & G); [|done..|].
  - clear. intros m h b Hi Hf Hr. destruct (lru_set_block_step c m h b (add_ref 1 b) Hi Hf) as [H1 H2]; [done|].
    eexists. split; [|split; [exact H1|exact H2]].
    unfold load_block, get_block. py_unfold. unfold find in Hf. rewrite Hf. simpl. rewrite Hr. simpl. done.
  - exists (payload <$> bs), m'. unfold prepare_load_lru, bind, get_st, lift. rewrite E, spec_law.
    split; [done|]. split; [|done]. apply Forall2_fmap_r. eapply Forall2_impl; [exact F|].
    intros h b (b' & -> & ->). done.
Qed.

Lemma lru_complete_load_spec c m hs :
  inv_at c m → NoDup hs → (∀ h, h ∈ hs → ∃ b, find m h = Some b ∧ 0 < ref_cnt b) →
  ∃ m', complete_load_lru hs m = (Ok tt, m') ∧
    ∀ h, find m' h = if decide (h ∈ hs) then add_ref (-1) <$> find m h else find m h.
Proof.
  intros Hi Hnd Hr.
  destruct (map_each_update find (inv_at c) (λ b, 0 < ref_cnt b) (λ b, Some (add_ref (-1) b))
    (λ _ _, tt) release_block hs m) as (bs & m' & E & I & F & G); [|done..|].
  - clear. intros m h b Hi Hf Hr. destruct (lru_set_block_step c m h b (add_ref (-1) b) Hi Hf) as [H1 H2]; [done|].
    eexists. split; [|split; [exact H1|exact H2]].
    unfold release_block, get_block. py_unfold. unfold find in Hf. rewrite Hf. simpl.
    by rewrite (proj2 (Z.ltb_lt _ _) Hr).
  - exists m'. unfold complete_load_lru. rewrite for_each_map_each. unfold bind. by rewrite E.
Qed.

Lemma lru_complete_store_spec c m hs :
  inv_at c m → NoDup hs → (∀ h, h ∈ hs → is_Some (find m h)) →
  ∃ m', complete_store_lru hs true m = (Ok tt, m') ∧
    ∀ h, find m' h = if decide (h ∈ hs)
                     then (λ b, if is_ready b then b else set_ready b) <$> find m h else find m h.
Proof.
  intros Hi Hnd Hr.
  destruct (map_each_update find (inv_at c) (λ _, True) (λ b, Some (if is_ready b then b else set_ready b))
    (λ h b, if is_ready b then [] else [h]) stored_block hs m) as (l & m' & E & I & F & G); [|done|done|..].
  - clear. intros m h b Hi Hf _. destruct (is_ready b) eqn:Hr.
    + exists m. split; [|split; [done|]].
      * unfold stored_block, get_block. py_unfold. unfold find in Hf. rewrite Hf. simpl. by rewrite Hr.
      * intros h'. by case_decide; subst.
    + destruct (lru_set_block_step c m h b (set_ready b) Hi Hf) as [H1 H2]; [done|].
      eexists. split; [|split; [exact H1|exact H2]].
      unfold stored_block, get_block. py_unfold. unfold find in Hf. rewrite Hf. simpl. by rewrite Hr.
  - intros h Hh. destruct (Hr h Hh) as [b Hb]. eauto.
  - unfold complete_store_lru, bind. rewrite E. eexists. by split.
Qed.

Lemma lru_failed_store_spec c m hs :
  inv_at c m → NoDup hs → (∀ h, h ∈ hs → ∃ b, find m h = Some b ∧ is_ready b = false) →
  ∃ m', complete_store_lru hs false m = (Ok tt, m') ∧
    ∀ h, find m' h = if decide (h ∈ hs) then None else find m h.
Proof.
  intros Hi Hnd Hr.
  destruct (map_each_update find (inv_at c) (λ b, is_ready b = false) (λ _, None)
    (λ _ _, tt) failed_block hs m) as (l & m' & E & I & F & G); [|done..|].
  - clear. intros m h b Hi Hf Hr. by apply lru_failed_block_step with b.
  - unfold complete_store_lru. eexists. split.
    + unfold bind. rewrite for_each_map_each. unfold bind. rewrite E. done.
    + intros h. unfold find in *. simpl. rewrite G. case_decide; [|done]. by destruct (od_get h (blocks m)).
Qed.

(** *** Whatever the outcome of a call, it keeps the invariant and the blocks of others *)

Lemma lru_call_frame c m (x : call hash) :
  inv_at c m → allowed (find m) x →
  inv_at c (after x m) ∧
  ∀ h b, h ∉ concerned x → find m h = Some b → ref_cnt b ≠ 0 → find (after x m) h = Some b.
Proof.
  intros Hi Ha. destruct x as [hs|hs|hs|hs|hs success|]; simpl.
  - destruct (map_each_frame find (inv_at c) (λ _, True) load_block hs m) as [H1 H2];
      [apply lru_load_block_turn|done|by left|].
    unfold prepare_load_lru, bind, get_st, lift. destruct (map_each hs load_block m) as [[bs|e] m'];
      (split; [done|]); simpl in *; intros; by rewrite H2.
  - destruct (lru_touch_blocks c m (rev hs) Hi) as (m' & E & H1 & H2). unfold touch_lru. rewrite E.
    split; [done|]. intros. by rewrite H2.
  - destruct (map_each_frame find (inv_at c) (λ _, True) release_block hs m) as [H1 H2];
      [apply lru_release_block_turn|done|by left|].
    unfold complete_load_lru. rewrite for_each_state. split; [done|]. intros. by rewrite H2.
  - destruct (Z.le_gt_cases (num_to_evict hs m) (zlen (idle (blocks m)))) as [Hn|Hn].
    + destruct (prepare_store_accepted c hs m Hi Ha Hn) as (b' & ps & -> & Hl & Hi'). split; [done|].
      intros h b _ Hf Hr. unfold find at 1. simpl. rewrite find_after; [|apply Hi|done|done|].
      * rewrite decide_False; [done|]. intros (b2 & Hb2 & Hr2)%victims_found; [|apply Hi]. congruence.
      * intros Hh%new_blocks_fresh. unfold find in Hf. congruence.
    + by rewrite prepare_store_refused by lia.
  - destruct success.
    + destruct (map_each_frame find (inv_at c) (λ _, True) stored_block hs m) as [H1 H2];
        [apply lru_stored_block_turn|done|by left|].
      unfold complete_store_lru, bind. destruct (map_each hs stored_block m) as [[l|e] m'];
        (split; [done|]); simpl in *; intros h b Hh Hf _; rewrite <- Hf; by apply H2.
    + destruct (map_each_frame find (inv_at c) (λ _, True) failed_block hs m) as [H1 H2];
        [apply lru_failed_block_turn|done|by left|].
      rewrite <- for_each_state in H1, H2.
      unfold complete_store_lru, bind. destruct (for_each hs failed_block m) as [[l|e] m'];
        (split; [done|]); simpl in *; intros h b Hh Hf _; rewrite <- Hf; by apply H2.
  - unfold take_events_lru. by destruct (events m).
Qed.

Lemma lru_prepare_store_contract m hs :
  inv m → NoDup hs →
  let m' := (prepare_store_lru hs m).2 in
  ((prepare_store_lru hs m).1 = Ok None ∧ ∀ h b, find m' h = Some b → find m h = Some b) ∨
  ∃ out ps,
    (prepare_store_lru hs m).1 = Ok (Some out) ∧
    block_hashes_to_store out = filter (λ h, find m h = None) hs ∧
    store_spec out = spec_of ps ∧
    Forall2 (λ h p, find m' h = Some (BS (-1) p)) (block_hashes_to_store out) ps ∧
    (∀ h, h ∈ block_hashes_evicted out → ∃ b, find m h = Some b ∧ ref_cnt b = 0) ∧
    ∀ h, h ∉ block_hashes_to_store out →
      find m' h = if decide (h ∈ block_hashes_evicted out) then None else find m h.
Proof.
  intros Hi Hnd. destruct (Z.le_gt_cases (num_to_evict hs m) (zlen (idle (blocks m)))) as [Hn|Hn].
  - destruct (prepare_store_accepted (capacity (backend m)) hs m) as (b' & ps & -> & Hl & _); [by split|done..|].
    right. do 2 eexists. simpl. split; [done|]. split; [|split; [done|]].
    { unfold new_blocks. apply list_filter_iff. intros h. apply od_mem_false. }
    split; [by apply find_new; [apply Hi|..]|]. split.
    + intros h. apply victims_found, Hi.
    + intros h Hh. by apply find_after; [apply Hi|..].
  - left. by rewrite prepare_store_refused by lia.
Qed.

#[local] Arguments complete_store_lru : simpl never.

#[global] Program Instance manager_laws : OffloadingManagerLaws hash P spec t := {|
  om_inv := inv;
  om_find := find;
  om_stored m := od_keys (blocks m);
  om_room m := get_num_free_blocks (backend m);
  om_capacity m := capacity (backend m);
  om_spec_of := spec_of
|}.
Next Obligation. intros m h _. symmetry. apply od_get_is_Some. Qed.
Next Obligation. by intros m [Hw _]. Qed.
Next Obligation. intros m h1 h2 b1 b2 [_ Ho] H1 H2. by apply (places_inj (blocks m)); [eapply owns_nodup|..]. Qed.
Next Obligation.
  intros m [_ Ho]. destruct (num_free_law _ _ Ho) as [H1 H2]. split; [done|].
  unfold zlen in *. rewrite places_length in H1. unfold od_keys. by rewrite length_fmap.
Qed.
Next Obligation. intros m c Hi Ha. by destruct (lru_call_frame (capacity (backend m)) m c) as [[? ?] _]. Qed.
Next Obligation.
  intros m c h b Hi Ha. destruct (lru_call_frame (capacity (backend m)) m c) as [_ Hf]; [done..|]. apply Hf.
Qed.
Next Obligation. done. Qed.
Next Obligation.
  intros m hs Hi. simpl. unfold touch_lru. by destruct (lru_touch_blocks (capacity (backend m)) m (rev hs)) as (m' & -> & _ & ?).
Qed.
Next Obligation.
  intros m hs Hi Hnd Hr. simpl.
  destruct (lru_prepare_load_spec (capacity (backend m)) m hs) as (ps & m' & -> & ? & ?); [done..|]. eauto.
Qed.
Next Obligation.
  intros m hs Hi Hnd Hr. simpl. by destruct (lru_complete_load_spec (capacity (backend m)) m hs) as (m' & -> & ?).
Qed.
Next Obligation. apply lru_prepare_store_contract. Qed.
Next Obligation.
  intros m hs Hi Hnd Hr. simpl. by destruct (lru_complete_store_spec (capacity (backend m)) m hs) as (m' & -> & ?).
Qed.
Next Obligation.
  intros m hs Hi Hnd Hr. simpl. by destruct (lru_failed_store_spec (capacity (backend m)) m hs) as (m' & -> & ?).
Qed.

Lemma lru_create_inv b e : owns b [] → inv (create b e).
Proof. intros Ho. split; [apply od_wf_nil|done]. Qed.

(** C35. [prepare_store] of the LRU manager: it refuses, changing nothing, exactly when the
    blocks without transfers and the free places are fewer than the new blocks; otherwise it
    evicts the least recently used blocks without transfers, no more than needed, keeps the
    order of the rest, appends the new blocks as the most recently used, not yet ready, at
    places the backend hands out, and reports all that. *)
Theorem lru_prepare_store m hs (Hi : inv m) (Hnd : NoDup hs) :
  let new := filter (λ h, od_mem h (blocks m) = false) hs in
  let need := zlen new - get_num_free_blocks (backend m) in
  let evicted := take (Z.to_nat need) (idle (blocks m)) in
  if need <=? zlen (idle (blocks m))
  then ∃ b' ps, length ps = length new ∧ owns b' (places (blocks_after hs ps m)) ∧
    prepare_store hs m
    = (Ok (Some (StoreOutput new (spec_of ps) evicted)),
       Manager b' (filter (λ hb, hb.1 ∉ evicted) (blocks m) ++ zip new (new_status <$> ps))
         (pushed_events evicted true m))
  else prepare_store hs m = (Ok None, m).
Proof.
  cbv zeta. fold (new_blocks hs m) (num_to_evict hs m) (victims hs m).
  destruct (Z.leb_spec (num_to_evict hs m) (zlen (idle (blocks m)))) as [Hn|Hn].
  - destruct (prepare_store_accepted (capacity (backend m)) hs m) as (b' & ps & E & Hl & [[_ Ho] _]); [by split|done..|].
    by exists b', ps.
  - by apply prepare_store_refused.
Qed.
End lru.
Arguments t : clear implicits.
End LRU.

(** ** The manager over the CPU's backend: the runs of the repository's test *)
Module LruDemo.

Abbreviation cpu_lru := (LRU.t Z Z CPUBackend.t).

Definition start (num_blocks : Z) : cpu_lru := LRU.create (CPUBackend.create 256 num_blocks) true.

(** What [prepare_store] answers: the hashes to store, their places, the evicted hashes. *)
Definition answer (r : result (option (PrepareStoreOutput Z (list Z)))) : option (list Z * list Z * list Z) :=
  match r with
  | Ok (Some out) => Some (block_hashes_to_store out, store_spec out, block_hashes_evicted out)
  | _ => None
  end.

(** [test_cpu_manager], up to the eviction of [2, 3, 4]. *)
Definition s1 : cpu_lru := session [PrepareStore [1; 2]; CompleteStore [1; 2] true] (start 4).
Definition s2 : cpu_lru := session [TakeEvents; PrepareStore [2; 3; 4; 5]] s1.
Definition s3 : cpu_lru := session [PrepareStore [1; 6]; CompleteStore [2; 3; 4; 5] true; PrepareLoad [2; 3]] s2.
Definition s4 : cpu_lru := session [CompleteLoad [2; 3]] s3.
Definition s5 : cpu_lru := session [PrepareStore [6; 7; 8]; CompleteStore [6; 7; 8] true; Touch [5; 6; 7]] s4.

Example test_cpu_manager :
  answer (prepare_store [1; 2] (start 4)).1 = Some ([1; 2], [0; 1], []) ∧
  lookup_blocks [1; 2; 3] s1 = Some 2 ∧
  (take_events s1).1 = Ok [Event [1; 2] 256 "CPU" false] ∧
  answer (prepare_store [2; 3; 4; 5] s1).1 = Some ([3; 4; 5], [2; 3; 0], [1]) ∧
  prepare_store [1; 6] s2 = (Ok None, s2) ∧
  (prepare_load [2; 3] s3).1 = Ok [1; 2] ∧
  prepare_store [6; 7; 8] s3 = (Ok None, s3) ∧
  answer (prepare_store [6; 7; 8] s4).1 = Some ([6; 7; 8], [3; 2; 1], [2; 3; 4]) ∧
  answer (prepare_store [9] s5).1 = Some ([9], [1], [8]) ∧
  lookup_blocks [7] (session [PrepareStore [9]; CompleteStore [7; 9] false] s5) = Some 1 ∧
  lookup_blocks [9] (session [PrepareStore [9]; CompleteStore [7; 9] false] s5) = Some 0.
Proof. vm_compute. done. Qed.

Lemma lru_start_inv n : 0 ≤ n ≤ 2 ^ 63 → LRU.inv (start n).
Proof. intros Hn. apply LRU.lru_create_inv. by apply CPUBackend.owned_create. Qed.

Lemma s4_inv : LRU.inv s4.
Proof.
  refine (proj1 (session_inv [PrepareStore [1; 2]; CompleteStore [1; 2] true; TakeEvents; PrepareStore [2; 3; 4; 5];
    PrepareStore [1; 6]; CompleteStore [2; 3; 4; 5] true; PrepareLoad [2; 3]; CompleteLoad [2; 3]] (start 4) _ _)).
  - by apply lru_start_inv.
  - apply allowed_sessionb_sound. vm_compute. done.
Qed.

Lemma lru_prepare_store_witness :
  ∃ b' ps, length ps = 3%nat ∧
    prepare_store [6; 7; 8] s4
    = (Ok (Some (StoreOutput [6; 7; 8] ps [2; 3; 4])),
       LRU.Manager b' ([(5, BS 0 0)] ++ zip [6; 7; 8] (new_status <$> ps))
         (LRU.pushed_events [2; 3; 4] true s4)).
Proof.
  assert (NoDup [6; 7; 8]) as Hnd by (apply (bool_decide_unpack _); vm_compute; done).
  pose proof (LRU.lru_prepare_store s4 [6; 7; 8] s4_inv Hnd) as H. cbv zeta in H.
  assert (filter (λ h, od_mem h (LRU.blocks s4) = false) [6; 7; 8] = [6; 7; 8]) as E1 by (vm_compute; done).
  assert (get_num_free_blocks (hash := Z) (LRU.backend s4) = 0) as E2 by (vm_compute; done).
  assert (idle (LRU.blocks s4) = [2; 3; 4; 5]) as E3 by (vm_compute; done).
  assert (filter (λ hb, hb.1 ∉ [2; 3; 4]) (LRU.blocks s4) = [(5, BS 0 0)]) as E4 by (vm_compute; done).
  rewrite E1, E2, E3 in H. change (take (Z.to_nat (zlen [6; 7; 8] - 0)) [2; 3; 4; 5]) with [2; 3; 4] in H.
  change (zlen [6; 7; 8] - 0 <=? zlen [2; 3; 4; 5]) with true in H. rewrite E4 in H.
  destruct H as (b' & ps & Hl & _ & H). exists b', ps. split; [exact Hl|exact H].
Defined.

(** The blocks that a call is to store are not protected from their own store: storing
    [1; 2; 3] while [1] is stored evicts [1], and a look-up of the sequence finds nothing. *)
Example own_prefix_evicted :
  let m := session [PrepareStore [1]; CompleteStore [1] true] (start 2) in
  answer (prepare_store [1; 2; 3] m).1 = Some ([2; 3], [1; 0], [1]) ∧
  lookup_blocks [1; 2; 3]
    (session [PrepareStore [1; 2; 3]; CompleteStore [2; 3] true] m) = Some 0.
Proof. vm_compute. done. Qed.

(** A hash given twice takes two places and owns one: the other is lost for good. *)
Example double_store_leaks :
  let m := session [PrepareStore [1; 1]; CompleteStore [1] true] (start 2) in
  LRU.blocks m = [(1, BS 0 1)] ∧ CPUBackend.num_free (LRU.backend m) = 0 ∧
  prepare_store [2; 3] m = (Ok None, m).
Proof. vm_compute. done. Qed.
End LruDemo.
