(* ===== verification/OffloadArc.v ===== *)
(** [vllm/v1/kv_offload/arc_manager.py]: the manager of offloaded blocks with the adaptive
    replacement policy.  It fulfils the contract of [Offload.v]; its target size is a number
    of [PyNum.v], as Python computes it. *)
From S2P Require Export Offload OffloadLru PyNum.
From stdpp Require Import options.

Module ARC.
Section arc.
Context {hash P spec B : Type} `{EqDecision hash} `{BackendLaws hash P spec B}.
Implicit Types (h : hash) (hs : list hash).

Abbreviation cache := (list (hash * BlockStatus P)).
Abbreviation ghosts := (list (hash * unit)).

(** [ARCOffloadingManager] *)
Record t := Manager {
  backend : B;
  target_t1_size : PyNum.t;
  t1 : cache;
  t2 : cache;
  b1 : ghosts;
  b2 : ghosts;
  events : option (list (OffloadingEvent hash));
  cache_capacity : Z
}.
Implicit Types (m : t).

(** [__init__]: the target is the float 0. *)
Definition create (b : B) (enable_events : bool) : t :=
  Manager b (PyNum.Float (SpecFloat.S754_zero false)) [] [] [] []
    (if enable_events then Some [] else None) (get_num_free_blocks b).

Definition set_caches (d1 d2 : cache) m : t :=
  Manager (backend m) (target_t1_size m) d1 d2 (b1 m) (b2 m) (events m) (cache_capacity m).
Definition set_ghosts (g1 g2 : ghosts) m : t :=
  Manager (backend m) (target_t1_size m) (t1 m) (t2 m) g1 g2 (events m) (cache_capacity m).
Definition set_target (x : PyNum.t) m : t :=
  Manager (backend m) x (t1 m) (t2 m) (b1 m) (b2 m) (events m) (cache_capacity m).
Definition set_backend (b : B) m : t :=
  Manager b (target_t1_size m) (t1 m) (t2 m) (b1 m) (b2 m) (events m) (cache_capacity m).
Definition set_events e m : t :=
  Manager (backend m) (target_t1_size m) (t1 m) (t2 m) (b1 m) (b2 m) e (cache_capacity m).

(** A call of the backend. *)
Definition on_backend {A} (f : py B A) : py t A := λ m,
  let '(r, b) := f (backend m) in (r, set_backend b m).

(** [self.t1.get(block_hash) or self.t2.get(block_hash)] *)
Definition find m h : option (BlockStatus P) :=
  match od_get h (t1 m) with Some b => Some b | None => od_get h (t2 m) end.

(** A change of the block that [find] returned, in the list that holds it. *)
Definition set_block h (b : BlockStatus P) : py t unit := modify (λ m,
  if od_mem h (t1 m) then set_caches (od_set h b (t1 m)) (t2 m) m
  else set_caches (t1 m) (od_set h b (t2 m)) m).

Definition push_event hs (removed : bool) : py t unit := modify (λ m,
  match hs, events m with
  | _ :: _, Some l =>
      set_events (Some (l ++ [Event hs (be_block_size (backend m)) (be_medium (backend m)) removed])) m
  | _, _ => m
  end).

Definition lookup hs m : option Z := Some (hit_count (find m) hs).

(** One turn of [prepare_load]; both assertions are [AssertionError]s. *)
Definition load_block h : py t (BlockStatus P) :=
  let* m := get_st in
  let* b := lift (of_option AssertionError (find m h)) in
  passert (is_ready b);;;
  set_block h (add_ref 1 b);;;
  ret b.

Definition prepare_load_arc hs : py t spec :=
  let* bs := map_each hs load_block in
  let* m := get_st in
  lift (get_load_store_spec hs (payload <$> bs) (backend m)).

(** [max(1, len(a) / len(b))] *)
Definition delta (a b : ghosts) : result PyNum.t :=
  let! q := PyFloat.true_div (zlen a) (zlen b) in
  Ok (PyNum.py_max (PyNum.Int 1) (PyNum.Float q)).

(** One turn of [touch]. *)
Definition touch_block h : py t unit :=
  let* m := get_st in
  match od_get h (t1 m) with
  | Some b =>
      let d1 := od_del h (t1 m) in
      put_st (if negb (is_ready b) then set_caches (od_set h b d1) (t2 m) m
              else set_caches d1 (od_set h b (t2 m)) m)
  | None =>
      if od_mem h (t2 m) then
        let* d2 := lift (od_move_to_end h (t2 m)) in put_st (set_caches (t1 m) d2 m)
      else if od_mem h (b1 m) then
        let* d := lift (delta (b2 m) (b1 m)) in
        let* s := lift (PyNum.add (target_t1_size m) d) in
        modify (set_target (PyNum.py_min s (PyNum.Int (cache_capacity m))));;;
        let* g := lift (od_move_to_end h (b1 m)) in
        modify (set_ghosts g (b2 m))
      else if od_mem h (b2 m) then
        let* d := lift (delta (b1 m) (b2 m)) in
        let* s := lift (PyNum.sub (target_t1_size m) d) in
        modify (set_target (PyNum.py_max s (PyNum.Int 0)));;;
        let* g := lift (od_move_to_end h (b2 m)) in
        modify (set_ghosts (b1 m) g)
      else ret tt
  end.

Definition touch_arc hs : py t unit := for_each (rev hs) touch_block.

Definition release_block h : py t unit :=
  let* m := get_st in
  let* b := lift (of_option AssertionError (find m h)) in
  passert (0 <? ref_cnt b);;;
  set_block h (add_ref (-1) b).

Definition complete_load_arc hs : py t unit := for_each hs release_block.

(** The least recently used block of a list that has no transfers. *)
Fixpoint first_idle (d : cache) : option (hash * BlockStatus P) :=
  match d with
  | [] => None
  | (h, b) :: d' => if ref_cnt b =? 0 then Some (h, b) else first_idle d'
  end.

(** One turn of the [while] loop; [None] is its early return. *)
Definition evict_one : py t (option hash) :=
  let* m := get_st in
  let* target := lift (PyNum.trunc (target_t1_size m)) in
  match (if target <=? zlen (t1 m) then first_idle (t1 m) else None) with
  | Some (h, b) =>
      put_st (set_ghosts (od_set h tt (b1 m)) (b2 m) (set_caches (od_del h (t1 m)) (t2 m) m));;;
      on_backend (free b);;;
      ret (Some h)
  | None =>
      match first_idle (t2 m) with
      | Some (h, b) =>
          put_st (set_ghosts (b1 m) (od_set h tt (b2 m)) (set_caches (t1 m) (od_del h (t2 m)) m));;;
          on_backend (free b);;;
          ret (Some h)
      | None => ret None
      end
  end.

(** The [while] loop: [n] is the number of blocks to evict, which every turn decreases. *)
Fixpoint evict_loop (n : nat) (to_evict : list hash) : py t (option (list hash)) :=
  match n with
  | O => ret (Some to_evict)
  | S n' =>
      let* r := evict_one in
      match r with
      | None => ret None
      | Some h => evict_loop n' (to_evict ++ [h])
      end
  end.

(** [b.popitem(last=False)], and the loop that cuts a ghost list to the capacity. *)
Definition popitem_first : py ghosts unit := λ g,
  match g with [] => (Raise KeyError, g) | _ :: g' => (Ok tt, g') end.

Definition trim (capacity : Z) : py ghosts unit := λ g,
  for_each (seqZ 0 (zlen g - capacity)) (λ _, popitem_first) g.

Definition trim_ghosts : py t unit :=
  (λ m, let '(r, g) := trim (cache_capacity m) (b1 m) in (r, set_ghosts g (b2 m) m));;;
  (λ m, let '(r, g) := trim (cache_capacity m) (b2 m) in (r, set_ghosts (b1 m) g m)).

(** A new block enters [t1], and leaves the ghost lists. *)
Definition insert_block (hb : hash * BlockStatus P) : py t unit := modify (λ m,
  set_ghosts (od_del hb.1 (b1 m)) (od_del hb.1 (b2 m))
    (set_caches (od_set hb.1 hb.2 (t1 m)) (t2 m) m)).

(** The part of [prepare_store] behind the evictions: places, keys and the answer. *)
Definition store_new (new evicted : list hash) : py t (option (PrepareStoreOutput hash spec)) :=
  let* bs := on_backend (allocate_blocks new) in
  passert (length bs =? length new)%nat;;;
  for_each (zip new bs) insert_block;;;
  let* m := get_st in
  let* sp := lift (get_load_store_spec new (payload <$> bs) (backend m)) in
  ret (Some (StoreOutput new sp evicted)).

(** [prepare_store] behind the filter. *)
Definition make_room (new : list hash) : py t (option (PrepareStoreOutput hash spec)) :=
  let* m := get_st in
  match new with
  | [] =>
      let* sp := lift (get_load_store_spec [] [] (backend m)) in
      ret (Some (StoreOutput [] sp []))
  | _ :: _ =>
      let num_blocks_to_evict := zlen new - get_num_free_blocks (backend m) in
      let* r := evict_loop (Z.to_nat num_blocks_to_evict) [] in
      match r with
      | None => ret None
      | Some evicted =>
          trim_ghosts;;;
          push_event evicted true;;;
          store_new new evicted
      end
  end.

Definition prepare_store_arc hs : py t (option (PrepareStoreOutput hash spec)) :=
  let* m := get_st in
  make_room (filter (λ h, od_mem h (t1 m) || od_mem h (t2 m) = false) hs).

(** One turn of a successful [complete_store]: the block, if it was found and not ready. *)
Definition stored_block h : py t (list hash) :=
  let* m := get_st in
  match find m h with
  | Some b => if negb (is_ready b) then set_block h (set_ready b);;; ret [h] else ret []
  | None => ret []
  end.

(** One turn of a failed one: [pop] from either list, whatever the block's status. *)
Definition failed_block h : py t unit :=
  let* m := get_st in
  match find m h with
  | None => ret tt
  | Some b =>
      put_st (if od_mem h (t1 m) then set_caches (od_del h (t1 m)) (t2 m) m
              else set_caches (t1 m) (od_del h (t2 m)) m);;;
      if negb (is_ready b) then on_backend (free b) else ret tt
  end.

Definition complete_store_arc hs (success : bool) : py t unit :=
  if success
  then let* stored := map_each hs stored_block in push_event (concat stored) false
  else for_each hs failed_block;;; push_event [] false.

Definition take_events_arc : py t (list (OffloadingEvent hash)) := λ m,
  match events m with
  | None => (Ok [], m)
  | Some l => (Ok l, set_events (Some []) m)
  end.

#[global] Instance manager : OffloadingManager hash spec t := {|
  lookup_blocks := lookup;
  prepare_load := prepare_load_arc;
  touch := touch_arc;
  complete_load := complete_load_arc;
  prepare_store := prepare_store_arc;
  complete_store := complete_store_arc;
  take_events := take_events_arc
|}.

(** *** The invariant *)

Definition all_keys m : list hash :=
  od_keys (t1 m) ++ od_keys (t2 m) ++ od_keys (b1 m) ++ od_keys (b2 m).

(** The number of blocks in the cache. *)
Definition size m : Z := zlen (t1 m) + zlen (t2 m).

(** A key is in one of the four lists at most; the cached blocks own their places; the target
    is a number that every later step can compute with; the ghost lists are bounded, and
    behind a store that is accepted each is at most the capacity. *)
Record inv m : Prop := {
  inv_keys : NoDup (all_keys m);
  inv_owns : owns (backend m) (places (t1 m ++ t2 m));
  inv_cap : cache_capacity m = capacity (backend m);
  inv_target : PyNum.nonneg 63 (target_t1_size m);
  inv_b1 : zlen (b1 m) + size m ≤ 2 * cache_capacity m;
  inv_b2 : zlen (b2 m) + size m ≤ 2 * cache_capacity m
}.

Definition inv_at (c : Z) m : Prop := inv m ∧ capacity (backend m) = c.

Lemma inv_wf m : inv m → od_wf (t1 m) ∧ od_wf (t2 m) ∧ od_wf (b1 m) ∧ od_wf (b2 m).
Proof. intros [Hk _ _ _ _ _]. unfold all_keys in Hk. rewrite !NoDup_app in Hk. unfold od_wf. tauto. Qed.

Lemma inv_size m : inv m → get_num_free_blocks (backend m) + size m = cache_capacity m ∧
  0 ≤ get_num_free_blocks (backend m) ∧ 0 ≤ cache_capacity m ≤ 2 ^ 63.
Proof.
  intros [_ Ho Hc _ _ _]. destruct (num_free_law _ _ Ho) as [H1 H2]. pose proof (capacity_bound _ _ Ho).
  unfold size, zlen in *. rewrite places_length, length_app in H1. lia.
Qed.

(** A key of one list is in no list behind it. *)
Lemma keys_t1 m h : inv m → h ∈ od_keys (t1 m) →
  od_get h (t2 m) = None ∧ od_get h (b1 m) = None ∧ od_get h (b2 m) = None.
Proof.
  intros [Hk _ _ _ _ _] Hh. apply NoDup_app in Hk as (_ & Hd & _). specialize (Hd h Hh).
  rewrite !not_elem_of_app in Hd. by rewrite !od_get_None.
Qed.

Lemma keys_t2 m h : inv m → h ∈ od_keys (t2 m) → od_get h (b1 m) = None ∧ od_get h (b2 m) = None.
Proof.
  intros [Hk _ _ _ _ _] Hh. apply NoDup_app in Hk as (_ & _ & (_ & Hd & _)%NoDup_app). specialize (Hd h Hh).
  rewrite !not_elem_of_app in Hd. by rewrite !od_get_None.
Qed.

Lemma find_app m h : find m h = od_get h (t1 m ++ t2 m).
Proof. by rewrite od_get_app. Qed.

Lemma caches_wf m : inv m → od_wf (t1 m ++ t2 m).
Proof.
  intros [Hk _ _ _ _ _]. unfold od_wf, od_keys. rewrite fmap_app.
  unfold all_keys in Hk. rewrite app_assoc in Hk. by apply NoDup_app in Hk as [Hk _].
Qed.

(** Two states whose lists hold the same entries, each in either of the caches, and the same
    ghosts: what [touch] and the changes of a status do. *)
Lemma inv_perm c m m' :
  inv_at c m → all_keys m' ≡ₚ all_keys m → places (t1 m' ++ t2 m') ≡ₚ places (t1 m ++ t2 m) →
  length (b1 m') = length (b1 m) → length (b2 m') = length (b2 m) →
  backend m' = backend m → cache_capacity m' = cache_capacity m →
  PyNum.nonneg 63 (target_t1_size m') → inv_at c m'.
Proof.
  intros [[Hk Ho Hc Ht H1 H2] Hcap] Pk Pp L1 L2 Eb Ec Ht'.
  assert (size m' = size m) as Hs.
  { apply Permutation_length in Pp. rewrite !places_length, !length_app in Pp. unfold size, zlen. lia. }
  split; [|by rewrite Eb]. split; rewrite ?Eb, ?Ec, ?Hs; unfold zlen in *; rewrite ?L1, ?L2; try done.
  - by rewrite Pk.
  - by eapply owns_perm.
Qed.

(** *** A change of one block's status *)

Lemma od_keys_set_present {V} h (v v' : V) (d : list (hash * V)) :
  od_get h d = Some v → od_keys (od_set h v' d) = od_keys d.
Proof. intros Hd. rewrite od_keys_set. unfold od_mem. by rewrite Hd. Qed.

Lemma arc_set_block_step c m h b b' :
  inv_at c m → find m h = Some b → payload b' = payload b →
  inv_at c (set_block h b' m).2 ∧
  ∀ h', find (set_block h b' m).2 h' = if decide (h' = h) then Some b' else find m h'.
Proof.
  intros Hi Hf Hp. unfold set_block, modify, find, od_mem in *. simpl.
  destruct (od_get h (t1 m)) as [b0|] eqn:E1; simplify_eq.
  - split.
    + eapply inv_perm; [exact Hi|..]; try done; [..|apply Hi]; unfold all_keys; simpl.
      * by rewrite (od_keys_set_present h b).
      * by rewrite !places_app, (places_set h b).
    + intros h'. simpl. case_decide as Hh; [subst; by rewrite od_get_set|by rewrite od_get_set_ne].
  - split.
    + eapply inv_perm; [exact Hi|..]; try done; [..|apply Hi]; unfold all_keys; simpl.
      * by rewrite (od_keys_set_present h b).
      * by rewrite !places_app, (places_set h b).
    + intros h'. simpl. case_decide as Hh; [subst; by rewrite E1, od_get_set|by rewrite od_get_set_ne].
Qed.

(** *** A block leaves the caches, and gives back its place *)

Lemma arc_remove_step c m h b d1 d2 g1 g2 :
  inv_at c m → t1 m ++ t2 m ≡ₚ (h, b) :: d1 ++ d2 →
  (od_keys g1 ++ od_keys g2 ≡ₚ od_keys (b1 m) ++ od_keys (b2 m) ∨
   od_keys g1 ++ od_keys g2 ≡ₚ h :: od_keys (b1 m) ++ od_keys (b2 m)) →
  zlen g1 ≤ zlen (b1 m) + 1 → zlen g2 ≤ zlen (b2 m) + 1 →
  ∃ b', free b (backend m) = (Ok tt, b') ∧
    let m' := set_backend b' (set_ghosts g1 g2 (set_caches d1 d2 m)) in
    inv_at c m' ∧ size m' = size m - 1 ∧
    ∀ h', find m' h' = if decide (h' = h) then None else find m h'.
Proof.
  intros [Hi Hcap] Pd Pg L1 L2. pose proof (caches_wf m Hi) as Hw. pose proof (inv_keys m Hi) as Hk.
  destruct b as [r p]. destruct (free_law (backend m) r p (places (d1 ++ d2))) as (b' & E & Ho & Hc).
  { eapply owns_perm; [apply Hi|]. unfold places. rewrite Pd. done. }
  exists b'. split; [done|]. cbv zeta.
  assert (zlen (t1 m) + zlen (t2 m) = zlen d1 + zlen d2 + 1) as Hs.
  { apply Permutation_length in Pd. simpl in Pd. rewrite !length_app in Pd. unfold zlen. lia. }
  assert (NoDup (od_keys d1 ++ od_keys d2 ++ od_keys g1 ++ od_keys g2)) as Hk'.
  { unfold all_keys in Hk. rewrite app_assoc in Hk. unfold od_keys in Hk at 1 2. rewrite <- fmap_app, Pd in Hk.
    rewrite fmap_cons, fmap_app in Hk. apply NoDup_cons in Hk as [Hh Hk].
    rewrite app_assoc. destruct Pg as [Pg|Pg]; rewrite Pg; [exact Hk|].
    rewrite <- Permutation_middle. apply NoDup_cons. by split. }
  pose proof (inv_b1 m Hi). pose proof (inv_b2 m Hi). unfold size in *.
  split; [|split; [simpl; lia|]].
  - split; [|simpl; congruence]. split; unfold size; simpl; try done; try lia; [|apply Hi].
    rewrite (inv_cap m Hi). congruence.
  - intros h'. rewrite !find_app. simpl.
    apply od_wf_perm in Pd as Hwd; [|done]. apply od_wf_cons in Hwd as [Hn _].
    rewrite <- (od_get_proper h' _ _ Hw Pd). simpl. case_decide as Hh; [by subst|done].
Qed.

Lemma caches_del1 m h b : od_get h (t1 m) = Some b → t1 m ++ t2 m ≡ₚ (h, b) :: od_del h (t1 m) ++ t2 m.
Proof. intros Hb. by rewrite (od_get_perm h b (t1 m) Hb) at 1. Qed.

Lemma caches_del2 m h b : od_get h (t2 m) = Some b → t1 m ++ t2 m ≡ₚ (h, b) :: t1 m ++ od_del h (t2 m).
Proof. intros Hb. rewrite (od_get_perm h b (t2 m) Hb) at 1. by rewrite Permutation_middle. Qed.

Lemma arc_failed_block_step c m h b :
  inv_at c m → find m h = Some b → is_ready b = false →
  ∃ m', failed_block h m = (Ok tt, m') ∧ inv_at c m' ∧
        ∀ h', find m' h' = if decide (h' = h) then None else find m h'.
Proof.
  intros Hi Hf Hr. unfold failed_block. py_unfold. rewrite Hf, Hr. unfold on_backend, od_mem. simpl.
  unfold find in Hf. destruct (od_get h (t1 m)) as [b0|] eqn:E1; simplify_eq; simpl.
  - destruct (arc_remove_step c m h b (od_del h (t1 m)) (t2 m) (b1 m) (b2 m) Hi) as (b' & -> & H1 & _ & H2);
      [by apply caches_del1|by left|lia..|]. by eexists.
  - destruct (arc_remove_step c m h b (t1 m) (od_del h (t2 m)) (b1 m) (b2 m) Hi) as (b' & -> & H1 & _ & H2);
      [by apply caches_del2|by left|lia..|]. by eexists.
Qed.

(** *** Eviction *)

Lemma first_idle_spec (d : cache) h b :
  od_wf d → first_idle d = Some (h, b) → od_get h d = Some b ∧ ref_cnt b = 0.
Proof.
  induction d as [|[h' b'] d IH]; [done|]. rewrite od_wf_cons. intros [Hn Hw]. simpl.
  destruct (Z.eqb_spec (ref_cnt b') 0).
  - intros [= -> ->]. by rewrite decide_True.
  - intros Hd. destruct (IH Hw Hd) as [H1 H2]. case_decide; [congruence|done].
Qed.

Lemma ghost_keys h g : od_get h g = None → od_keys (od_set h tt g) ≡ₚ h :: od_keys g.
Proof.
  intros Hg. rewrite od_set_fresh by done. unfold od_keys. rewrite fmap_app. simpl.
  by rewrite <- Permutation_cons_append.
Qed.

Lemma ghost_length h g : zlen (od_set h tt g) ≤ zlen g + 1.
Proof.
  unfold zlen. rewrite <- (length_fmap fst), <- (length_fmap fst g). fold (od_keys (od_set h tt g)) (od_keys g).
  rewrite od_keys_set. destruct (od_mem h g); [lia|]. rewrite length_app. simpl. lia.
Qed.

(** What one turn of the [while] loop does. *)
Lemma evict_one_spec c m :
  inv_at c m →
  evict_one m = (Ok None, m) ∨
  ∃ h b m', evict_one m = (Ok (Some h), m') ∧ inv_at c m' ∧ size m' = size m - 1 ∧
    find m h = Some b ∧ ref_cnt b = 0 ∧
    ∀ h', find m' h' = if decide (h' = h) then None else find m h'.
Proof.
  intros Hi. pose proof Hi as [Hi' _]. destruct (inv_wf m Hi') as (W1 & W2 & _).
  destruct (PyNum.trunc_nonneg 63 _ (inv_target m Hi')) as [k Hk].
  unfold evict_one. py_unfold. rewrite Hk. unfold on_backend.
  destruct (if k <=? zlen (t1 m) then first_idle (t1 m) else None) as [[h b]|] eqn:E1.
  - destruct (k <=? zlen (t1 m)); [|done]. apply first_idle_spec in E1 as [Hb Hr]; [|done]. right.
    destruct (keys_t1 m h Hi') as (N2 & Nb1 & Nb2); [apply od_get_is_Some; eauto|].
    destruct (arc_remove_step c m h b (od_del h (t1 m)) (t2 m) (od_set h tt (b1 m)) (b2 m) Hi) as (b' & E & H1 & H2 & H3).
    { by apply caches_del1. }
    { right. by rewrite ghost_keys. }
    { apply ghost_length. } { lia. }
    exists h, b. eexists. simpl. rewrite E. split; [done|]. unfold find at 1. by rewrite Hb.
  - clear E1. destruct (first_idle (t2 m)) as [[h b]|] eqn:E2; [|by left].
    apply first_idle_spec in E2 as [Hb Hr]; [|done]. right.
    destruct (keys_t2 m h Hi') as (Nb1 & Nb2); [apply od_get_is_Some; eauto|].
    assert (od_get h (t1 m) = None) as N1.
    { destruct (od_get h (t1 m)) eqn:E1; [|done]. destruct (keys_t1 m h Hi') as [N2 _];
        [apply od_get_is_Some; eauto|congruence]. }
    destruct (arc_remove_step c m h b (t1 m) (od_del h (t2 m)) (b1 m) (od_set h tt (b2 m)) Hi) as (b' & E & H1 & H2 & H3).
    { by apply caches_del2. }
    { right. rewrite ghost_keys by done. by rewrite Permutation_middle. }
    { lia. } { apply ghost_length. }
    exists h, b. eexists. simpl. rewrite E. split; [done|]. unfold find at 1. by rewrite N1, Hb.
Qed.

(** The victims [vs] of some turns left the caches of [m], and nothing else changed there. *)
Definition evicted_from (vs : list hash) m m' : Prop :=
  NoDup vs ∧ (∀ h, h ∈ vs → ∃ b, find m h = Some b ∧ ref_cnt b = 0) ∧
  (∀ h, find m' h = if decide (h ∈ vs) then None else find m h) ∧ size m' + zlen vs = size m.

Lemma evicted_from_cons h b vs m m1 m2 :
  find m h = Some b → ref_cnt b = 0 → size m1 = size m - 1 →
  (∀ h', find m1 h' = if decide (h' = h) then None else find m h') →
  evicted_from vs m1 m2 → evicted_from (h :: vs) m m2.
Proof.
  intros Hf Hr Hs H1 (Hnd & Hv & H2 & Hs2). split_and!.
  - apply NoDup_cons. split; [|done]. intros Hh. destruct (Hv h Hh) as (b' & Hb' & _).
    by rewrite H1, decide_True in Hb'.
  - intros h' [->|Hh']%elem_of_cons; [by exists b|]. destruct (Hv h' Hh') as (b' & Hb' & Hr').
    rewrite H1 in Hb'. case_decide; [done|by exists b'].
  - intros h'. rewrite H2, H1. destruct (decide (h' ∈ vs)) as [Hin|Hin].
    + by rewrite decide_True by by right.
    + destruct (decide (h' = h)) as [->|Hne]; [by rewrite decide_True by by left|].
      rewrite decide_False; [done|]. by intros [?|?]%elem_of_cons.
  - rewrite zlen_cons. lia.
Qed.

Lemma arc_evict_loop_spec c n acc m :
  inv_at c m →
  ∃ r vs m', evict_loop n acc m = (Ok r, m') ∧ inv_at c m' ∧ evicted_from vs m m' ∧
    ∀ l, r = Some l → l = acc ++ vs ∧ length vs = n.
Proof.
  revert acc m. induction n as [|n IH]; intros acc m Hi.
  { exists (Some acc), [], m. split; [done|]. split; [done|]. split.
    - split_and!; [constructor|by intros h ?%elem_of_nil| |unfold zlen; simpl; lia].
      intros h. by rewrite decide_False by apply not_elem_of_nil.
    - intros l [= <-]. by rewrite app_nil_r. }
  cbn [evict_loop]. unfold bind, ret.
  destruct (evict_one_spec c m Hi) as [->|(h & b & m1 & -> & H1 & H2 & Hf & Hr & H3)].
  - exists None, [], m. split; [done|]. split; [done|]. split; [|done].
    split_and!; [constructor|by intros h ?%elem_of_nil| |unfold zlen; simpl; lia].
    intros h. by rewrite decide_False by apply not_elem_of_nil.
  - destruct (IH (acc ++ [h]) m1 H1) as (r & vs & m2 & E & Hi2 & Hv & Hl).
    exists r, (h :: vs), m2. split; [done|]. split; [done|]. split; [by eapply evicted_from_cons|].
    intros l Hl'. destruct (Hl l Hl') as [-> Hn]. rewrite <- app_assoc. split; [done|simpl; lia].
Qed.

(** *** The ghost lists are cut *)

Lemma trim_spec cap g :
  0 ≤ cap → trim cap g = (Ok tt, drop (Z.to_nat (zlen g - cap)) g).
Proof.
  intros Hcap. unfold trim. set (n := Z.to_nat (zlen g - cap)).
  replace (seqZ 0 (zlen g - cap)) with (seqZ 0 (Z.of_nat n)).
  2: { destruct (Z.le_gt_cases 0 (zlen g - cap)); [unfold n; by rewrite Z2Nat.id by lia|].
       unfold n. rewrite !seqZ_nil by lia. done. }
  assert (n ≤ length g)%nat as Hn by (unfold n, zlen; lia). clearbody n. revert Hn. generalize 0.
  revert g. induction n as [|n IH]; intros g k Hn; [done|].
  rewrite seqZ_cons by lia. cbn [for_each]. unfold bind, popitem_first.
  destruct g as [|x g]; [simpl in Hn; lia|]. replace (Z.pred (Z.of_nat (S n))) with (Z.of_nat n) by lia.
  rewrite IH by (simpl in Hn; lia). done.
Qed.

Lemma drop_sublist {A} n (l : list A) : drop n l `sublist_of` l.
Proof. rewrite <- (take_drop n l) at 2. apply sublist_inserts_l. done. Qed.

Lemma trim_ghosts_spec c m :
  inv_at c m →
  ∃ g1 g2, trim_ghosts m = (Ok tt, set_ghosts g1 g2 m) ∧ inv_at c (set_ghosts g1 g2 m) ∧
    zlen g1 ≤ c ∧ zlen g2 ≤ c.
Proof.
  intros [Hi Hc]. destruct (inv_size m Hi) as (_ & _ & Hcap).
  set (g1 := drop (Z.to_nat (zlen (b1 m) - cache_capacity m)) (b1 m)).
  set (g2 := drop (Z.to_nat (zlen (b2 m) - cache_capacity m)) (b2 m)). exists g1, g2.
  assert (zlen g1 ≤ cache_capacity m ∧ zlen g2 ≤ cache_capacity m) as [L1 L2].
  { unfold g1, g2, zlen. rewrite !length_drop. lia. }
  assert (zlen g1 ≤ zlen (b1 m) ∧ zlen g2 ≤ zlen (b2 m)) as [M1 M2].
  { unfold g1, g2, zlen. rewrite !length_drop. lia. }
  split; [unfold trim_ghosts, bind; by rewrite trim_spec, trim_spec by (simpl; lia)|].
  rewrite <- Hc, <- (inv_cap m Hi). split; [|done]. split; [|simpl; symmetry; apply Hi].
  destruct Hi as [Hk Ho Hcc Ht H1 H2]. split; unfold size in *; simpl in *; try done; try lia.
  eapply sublist_NoDup; [exact Hk|]. unfold all_keys. simpl.
  repeat apply sublist_app; try done; unfold od_keys; apply fmap_sublist, drop_sublist.
Qed.

(** *** The new blocks enter [t1] *)

Lemma od_del_sublist {V} h (d : list (hash * V)) : od_del h d `sublist_of` d.
Proof.
  induction d as [|[k v] d IH]; [done|]. simpl. case_decide; [by apply sublist_cons|by apply sublist_skip].
Qed.

Lemma insert_blocks_spec kvs m :
  NoDup (all_keys m) → NoDup kvs.*1 → (∀ h, h ∈ kvs.*1 → find m h = None) →
  ∃ g1 g2, for_each kvs insert_block m = (Ok tt, set_ghosts g1 g2 (set_caches (t1 m ++ kvs) (t2 m) m)) ∧
    NoDup (od_keys (t1 m ++ kvs) ++ od_keys (t2 m) ++ od_keys g1 ++ od_keys g2) ∧
    zlen g1 ≤ zlen (b1 m) ∧ zlen g2 ≤ zlen (b2 m).
Proof.
  revert m. induction kvs as [|[h b] kvs IH]; intros m Hk Hnd Hf.
  { exists (b1 m), (b2 m). rewrite app_nil_r. by destruct m. }
  rewrite fmap_cons in Hnd. apply NoDup_cons in Hnd as [Hh Hnd].
  assert (find m h = None) as Hn by (apply Hf; by left). unfold find in Hn.
  destruct (od_get h (t1 m)) eqn:N1; [done|].
  set (m1 := (insert_block (h, b) m).2).
  assert (t1 m1 = t1 m ++ [(h, b)]) as Et by (unfold m1; simpl; by apply od_set_fresh).
  destruct (IH m1) as (g1 & g2 & E & Hk1 & L1 & L2).
  - unfold all_keys. rewrite Et. unfold m1. simpl. unfold od_keys at 1. rewrite fmap_app. simpl.
    rewrite <- app_assoc. change ([h] ++ ?l) with (h :: l). rewrite <- Permutation_middle.
    apply NoDup_cons. unfold all_keys in Hk. split.
    + rewrite !not_elem_of_app. split_and!; [by apply od_get_None..| |]; apply od_get_None, od_get_del;
        rewrite !NoDup_app in Hk; unfold od_wf; tauto.
    + eapply sublist_NoDup; [exact Hk|].
      repeat apply sublist_app; try done; unfold od_keys; apply fmap_sublist, od_del_sublist.
  - done.
  - intros h' Hh'. unfold find. rewrite Et, od_get_app. unfold m1. simpl.
    assert (h' ≠ h) by (by intros ->). specialize (Hf h' ltac:(by right)). unfold find in Hf.
    destruct (od_get h' (t1 m)); [done|]. by rewrite decide_False.
  - exists g1, g2. rewrite Et, <- app_assoc in E, Hk1. cbn [for_each]. unfold bind.
    change (insert_block (h, b) m) with (Ok tt, m1). cbv beta iota. rewrite E. split; [done|]. split; [done|].
    assert (∀ g : ghosts, zlen (od_del h g) ≤ zlen g) as Hl.
    { intros g. unfold zlen. pose proof (sublist_length _ _ (od_del_sublist h g)). lia. }
    unfold m1 in L1, L2. simpl in L1, L2. pose proof (Hl (b1 m)). pose proof (Hl (b2 m)). lia.
Qed.

(** The caches behind the insertion: the old blocks, and the new ones, not ready. *)
Lemma find_inserted m (new : list hash) ps g1 g2 :
  let m' := set_ghosts g1 g2 (set_caches (t1 m ++ zip new (BS (-1) <$> ps)) (t2 m) m) in
  NoDup new → length ps = length new → (∀ h, h ∈ new → find m h = None) →
  Forall2 (λ h p, find m' h = Some (BS (-1) p)) new ps ∧ ∀ h, h ∉ new → find m' h = find m h.
Proof.
  cbv zeta. intros Hnd Hl Hn. set (kvs := zip new (BS (-1) <$> ps)).
  assert (od_keys kvs = new) as Hk by (unfold od_keys, kvs; apply fst_zip; rewrite length_fmap; lia).
  assert (od_wf kvs) as Hw by (unfold od_wf; by rewrite Hk).
  split.
  - apply Forall2_same_length_lookup_2; [done|]. intros i h p Hh Hp. unfold find. simpl. rewrite od_get_app.
    specialize (Hn h (list_elem_of_lookup_2 _ _ _ Hh)). unfold find in Hn. destruct (od_get h (t1 m)); [done|].
    rewrite (od_elem_get h (BS (-1) p) kvs Hw); [done|]. apply list_elem_of_lookup. exists i.
    apply lookup_zip_Some. split; [done|]. by rewrite list_lookup_fmap, Hp.
  - intros h Hh. unfold find. simpl. rewrite od_get_app. destruct (od_get h (t1 m)); [done|].
    by rewrite (proj2 (od_get_None h kvs)) by by rewrite Hk.
Qed.

Lemma store_new_spec c m new evicted :
  inv_at c m → NoDup new → (∀ h, h ∈ new → find m h = None) →
  zlen new ≤ get_num_free_blocks (backend m) → zlen (b1 m) ≤ c → zlen (b2 m) ≤ c →
  ∃ ps m', store_new new evicted m = (Ok (Some (StoreOutput new (spec_of ps) evicted)), m') ∧
    inv_at c m' ∧ Forall2 (λ h p, find m' h = Some (BS (-1) p)) new ps ∧
    (∀ h, h ∉ new → find m' h = find m h) ∧ zip new (new_status <$> ps) `suffix_of` t1 m' ∧
    zlen (b1 m') ≤ c ∧ zlen (b2 m') ≤ c.
Proof.
  intros [Hi Hc] Hnd Hn Hroom L1 L2.
  destruct (allocate_law _ _ new (inv_owns m Hi) Hroom) as (ps & b' & E & Hl & Ho & Hb).
  set (kvs := zip new (BS (-1) <$> ps)).
  assert (kvs.*1 = new) as Hkv by (unfold kvs; apply fst_zip; rewrite length_fmap; lia).
  assert (places kvs = ps) as Hpk.
  { unfold places, kvs. rewrite snd_zip by (rewrite length_fmap; lia). by rewrite <- list_fmap_compose, list_fmap_id. }
  destruct (insert_blocks_spec kvs (set_backend b' m)) as (g1 & g2 & E2 & Hk & M1 & M2);
    [apply Hi|by rewrite Hkv|by rewrite Hkv|].
  destruct (find_inserted (set_backend b' m) new ps g1 g2 Hnd Hl Hn) as [F1 F2].
  exists ps. eexists. split; [|split; [|split; [exact F1|split; [exact F2|split; [by exists (t1 m)|simpl in *; lia]]]]].
  - unfold store_new. py_unfold. unfold on_backend. rewrite E. simpl.
    rewrite length_fmap, Hl, Nat.eqb_refl. simpl. fold kvs. rewrite E2, spec_law. simpl.
    by rewrite <- list_fmap_compose, list_fmap_id.
  - assert (owns b' (places ((t1 m ++ kvs) ++ t2 m))) as Ho'.
    { eapply owns_perm; [exact Ho|]. rewrite !places_app, Hpk, <- !app_assoc. apply Permutation_app_head, Permutation_app_comm. }
    injection Hb as Hb _ _. split; [|simpl; lia].
    destruct (num_free_law _ _ Ho') as [S1 S2]. unfold zlen in S1. rewrite places_length, !length_app in S1.
    simpl in *. pose proof (inv_cap m Hi).
    split; unfold size; simpl; fold kvs; rewrite ?zlen_app; [done|done|congruence|apply Hi|unfold zlen in *; lia..].
Qed.

Lemma new_blocks_eq m hs :
  filter (λ h, od_mem h (t1 m) || od_mem h (t2 m) = false) hs = filter (λ h, find m h = None) hs.
Proof.
  apply list_filter_iff. intros h. unfold find, od_mem.
  destruct (od_get h (t1 m)), (od_get h (t2 m)); done.
Qed.

Lemma push_event_inv c hs r m :
  inv_at c m → ∃ e, push_event hs r m = (Ok tt, set_events e m) ∧ inv_at c (set_events e m).
Proof.
  intros [[] Hc]. unfold push_event, modify.
  destruct hs, (events m) eqn:E; eexists; (split; [|by split; [split|]]); try done; destruct m; simpl in *; by subst.
Qed.

(** [prepare_store], in either outcome; the evictions of a refused call stay. *)
Lemma prepare_store_spec c hs m :
  inv_at c m → NoDup hs →
  let new := filter (λ h, find m h = None) hs in
  (∃ vs m', prepare_store_arc hs m = (Ok None, m') ∧ inv_at c m' ∧ evicted_from vs m m') ∨
  ∃ ps vs m', prepare_store_arc hs m = (Ok (Some (StoreOutput new (spec_of ps) vs)), m') ∧ inv_at c m' ∧
    Forall2 (λ h p, find m' h = Some (BS (-1) p)) new ps ∧
    (∀ h, h ∈ vs → ∃ b, find m h = Some b ∧ ref_cnt b = 0) ∧
    (∀ h, h ∉ new → find m' h = if decide (h ∈ vs) then None else find m h) ∧
    zlen vs = Z.max 0 (zlen new - get_num_free_blocks (backend m)) ∧
    zip new (new_status <$> ps) `suffix_of` t1 m' ∧
    (new ≠ [] → zlen (b1 m') ≤ c ∧ zlen (b2 m') ≤ c).
Proof.
  intros Hi Hnd new. assert (NoDup new) as Hnn by (by apply NoDup_filter).
  assert (∀ h, h ∈ new → find m h = None) as Hn by (intros h; by intros [? _]%list_elem_of_filter).
  assert (prepare_store_arc hs m = make_room new m) as ->.
  { unfold prepare_store_arc, bind, get_st. by rewrite new_blocks_eq. }
  clearbody new.
  destruct (inv_size m ltac:(apply Hi)) as (S1 & S2 & _).
  destruct new as [|h0 new'].
  { right. exists [], [], m. unfold make_room. py_unfold. rewrite spec_law. split; [done|]. split; [done|].
    split; [constructor|]. split; [by intros h ?%elem_of_nil|]. split; [|unfold zlen; simpl; split; [lia|split; [apply suffix_nil|done]]].
    by intros h _. }
  destruct (arc_evict_loop_spec c (Z.to_nat (zlen (h0 :: new') - get_num_free_blocks (backend m))) [] m Hi)
    as (r & vs & m1 & E1 & I1 & V & Hr).
  assert (make_room (h0 :: new') m = match r with None => ret None | Some l =>
    trim_ghosts;;; push_event l true;;; store_new (h0 :: new') l end m1) as ->.
  { unfold make_room, bind at 1 2, get_st at 1. by rewrite E1. }
  set (new := h0 :: new') in *. destruct r as [l|]; [right|left; by exists vs, m1].
  destruct (Hr l eq_refl) as [-> Hlen]. simpl app. destruct V as (Vnd & Vi & Vf & Vs).
  destruct (trim_ghosts_spec c m1 I1) as (g1 & g2 & E2 & I2 & L1 & L2).
  destruct (push_event_inv c vs true _ I2) as (e & E3 & I3).
  destruct (store_new_spec c _ new vs I3 Hnn) as (ps & m' & E4 & I4 & F1 & F2 & Hsuf & M1 & M2).
  - intros h Hh. change (find m1 h = None). rewrite Vf. case_decide; [done|by apply Hn].
  - simpl. destruct (inv_size m1 ltac:(apply I1)) as (S3 & _ & _).
    destruct Hi as [Hi <-], I1 as [I1 Hc1]. rewrite (inv_cap m1 I1) in S3. rewrite (inv_cap m Hi) in S1.
    unfold zlen in *. lia.
  - done.
  - done.
  - exists ps, vs, m'. unfold bind at 1 2. rewrite E2, E3. split; [exact E4|]. split; [done|]. split; [done|].
    split; [done|]. split; [|split; [unfold zlen in *; lia|done]].
    intros h Hh. rewrite F2 by done. apply Vf.
Qed.

(** *** Touching *)

Lemma move_caches c m d1 d2 :
  inv_at c m → d1 ++ d2 ≡ₚ t1 m ++ t2 m →
  inv_at c (set_caches d1 d2 m) ∧ ∀ h', find (set_caches d1 d2 m) h' = find m h'.
Proof.
  intros Hi Pd. split.
  - eapply inv_perm; [exact Hi|..]; try done; [..|apply Hi]; simpl; [|by unfold places; rewrite Pd].
    unfold all_keys. simpl. rewrite !app_assoc. unfold od_keys at 1 2 5 6. by rewrite <- !fmap_app, Pd.
  - intros h'. rewrite !find_app. simpl. apply od_get_proper; [apply caches_wf, Hi|by symmetry].
Qed.

Lemma move_ghosts c m x g1 g2 :
  inv_at c m → PyNum.nonneg 63 x → g1 ≡ₚ b1 m → g2 ≡ₚ b2 m →
  inv_at c (set_ghosts g1 g2 (set_target x m)).
Proof.
  intros Hi Hx P1 P2. eapply inv_perm; [exact Hi|..]; try done; simpl; [|by rewrite P1|by rewrite P2].
  unfold all_keys, od_keys. simpl. by rewrite P1, P2.
Qed.

(** [max(1, len(a) / len(b))] of ghost lists does not raise. *)
Lemma delta_nonneg (a b : ghosts) : 0 < zlen b → zlen a ≤ 2 ^ 65 →
  ∃ d, delta a b = Ok d ∧ PyNum.nonneg 65 d.
Proof.
  intros Hb Ha. unfold delta. pose proof (zlen_nonneg a).
  destruct (PyFloat.true_div_fits (zlen a) (zlen b)) as (q & -> & Hq); [lia..|].
  eexists. split; [done|]. unfold PyNum.py_max. destruct (PyNum.lt _ _); simpl; [done|lia].
Qed.

Lemma od_mem_zlen {V} h (d : list (hash * V)) : od_mem h d = true → 0 < zlen d.
Proof. destruct d; [done|]. rewrite zlen_cons. pose proof (zlen_nonneg d). lia. Qed.

Lemma od_mem_move {V} h (d : list (hash * V)) :
  od_mem h d = true → ∃ d', od_move_to_end h d = Ok d' ∧ d' ≡ₚ d.
Proof.
  intros [v Hv]%od_mem_true. unfold od_move_to_end. rewrite Hv. eexists. split; [done|].
  apply (od_move_to_end_perm h). unfold od_move_to_end. by rewrite Hv.
Qed.

Lemma ghost_bound m : inv m → zlen (b1 m) ≤ 2 ^ 65 ∧ zlen (b2 m) ≤ 2 ^ 65.
Proof.
  intros Hi. destruct (inv_size m Hi) as (_ & _ & H1). pose proof (inv_b1 m Hi). pose proof (inv_b2 m Hi).
  unfold size in *. pose proof (zlen_nonneg (t1 m)). pose proof (zlen_nonneg (t2 m)). lia.
Qed.

Lemma touch_cached c m h b :
  inv_at c m → od_get h (t1 m) = Some b →
  ∃ m', touch_block h m = (Ok tt, m') ∧ inv_at c m' ∧ ∀ h', find m' h' = find m h'.
Proof.
  intros Hi Hb. destruct (inv_wf m ltac:(apply Hi)) as (W1 & W2 & _).
  destruct (keys_t1 m h) as (N2 & _); [apply Hi|apply od_get_is_Some; eauto|].
  unfold touch_block. py_unfold. rewrite Hb. unfold put_st. eexists. split; [done|].
  destruct (negb (is_ready b)); apply move_caches; try done.
  - rewrite od_set_fresh by by apply od_get_del. rewrite (caches_del1 m h b Hb). solve_Permutation.
  - rewrite od_set_fresh by done. rewrite (caches_del1 m h b Hb). solve_Permutation.
Qed.

Lemma arc_touch_block_step c m h :
  inv_at c m → ∃ m', touch_block h m = (Ok tt, m') ∧ inv_at c m' ∧ ∀ h', find m' h' = find m h'.
Proof.
  intros Hi. destruct (od_get h (t1 m)) as [b|] eqn:E1; [by eapply touch_cached|].
  destruct (ghost_bound m ltac:(apply Hi)) as [B1 B2].
  destruct (inv_size m ltac:(apply Hi)) as (_ & _ & Hcap). pose proof (inv_target m ltac:(apply Hi)) as Ht.
  unfold touch_block. py_unfold. rewrite E1. destruct (od_mem h (t2 m)) eqn:E2.
  { destruct (od_mem_move h (t2 m) E2) as (d & -> & Pd). eexists. split; [done|].
    apply move_caches; [done|]. by rewrite Pd. }
  destruct (od_mem h (b1 m)) eqn:E3.
  { destruct (delta_nonneg (b2 m) (b1 m)) as (d & -> & Hd); [by eapply od_mem_zlen|done|].
    destruct (PyNum.add_min_nonneg 65 (target_t1_size m) d (cache_capacity m)) as (s & -> & Hs);
      [by eapply PyNum.nonneg_mono|done|lia..|].
    simpl. destruct (od_mem_move h (b1 m) E3) as (g & -> & Pg). eexists. split; [done|]. split; [|done].
    by apply (move_ghosts c m _ g (b2 m)). }
  destruct (od_mem h (b2 m)) eqn:E4; [|by exists m].
  destruct (delta_nonneg (b1 m) (b2 m)) as (d & -> & Hd); [by eapply od_mem_zlen|done|].
  destruct (PyNum.sub_max_nonneg 63 65 (target_t1_size m) d) as (s & -> & Hs); [done|done|lia..|].
  simpl. destruct (od_mem_move h (b2 m) E4) as (g & -> & Pg). eexists. split; [done|]. split; [|done].
  by apply (move_ghosts c m _ (b1 m) g).
Qed.

Lemma arc_touch_blocks c m hs :
  inv_at c m →
  ∃ m', for_each hs touch_block m = (Ok tt, m') ∧ inv_at c m' ∧ ∀ h', find m' h' = find m h'.
Proof.
  revert m. induction hs as [|h hs IH]; intros m Hi; [by exists m|].
  destruct (arc_touch_block_step c m h Hi) as (m1 & E1 & I1 & F1).
  destruct (IH m1 I1) as (m2 & E2 & I2 & F2). exists m2. cbn [for_each]. unfold bind. rewrite E1.
  split; [done|]. split; [done|]. intros h'. by rewrite F2.
Qed.

(** *** The loops over blocks *)

Definition turn (ok : option (BlockStatus P) → Prop) (c : Z) {A} (step : hash → py t A) : Prop :=
  ∀ h m, inv_at c m → ok (find m h) →
    inv_at c (step h m).2 ∧ ∀ h', h' ≠ h → find (step h m).2 h' = find m h'.

Lemma arc_turn_set c h m b b' :
  inv_at c m → find m h = Some b → payload b' = payload b →
  inv_at c (set_block h b' m).2 ∧ ∀ h', h' ≠ h → find (set_block h b' m).2 h' = find m h'.
Proof.
  intros Hi Hf Hp. destruct (arc_set_block_step c m h b b' Hi Hf Hp) as [H1 H2].
  split; [done|]. intros h' Hh. by rewrite H2, decide_False.
Qed.

#[local] Arguments find : simpl never.

Lemma arc_load_block_turn c : turn (λ _, True) c load_block.
Proof.
  intros h m Hi _. unfold load_block. py_unfold. destruct (find m h) as [b|] eqn:Hf; simpl; [|done].
  destruct (is_ready b); [|done]. destruct (arc_turn_set c h m b (add_ref 1 b) Hi Hf) as [H1 H2]; [done|].
  exact (conj H1 H2).
Qed.

Lemma arc_release_block_turn c : turn (λ _, True) c release_block.
Proof.
  intros h m Hi _. unfold release_block. py_unfold. destruct (find m h) as [b|] eqn:Hf; simpl; [|done].
  destruct (0 <? ref_cnt b); [|done]. by apply (arc_turn_set c h m b).
Qed.

Lemma arc_stored_block_turn c : turn (λ _, True) c stored_block.
Proof.
  intros h m Hi _. unfold stored_block. py_unfold. destruct (find m h) as [b|] eqn:Hf; simpl; [|done].
  destruct (negb (is_ready b)); [|done]. destruct (arc_turn_set c h m b (set_ready b) Hi Hf) as [H1 H2]; [done|].
  exact (conj H1 H2).
Qed.

(** A failed store takes out a block that is not ready, or none. *)
Lemma arc_failed_block_turn c : turn (λ o, ∀ b, o = Some b → is_ready b = false) c failed_block.
Proof.
  intros h m Hi Hok. destruct (find m h) as [b|] eqn:Hf.
  - destruct (arc_failed_block_step c m h b Hi Hf (Hok b eq_refl)) as (m' & -> & H1 & H2).
    split; [done|]. intros h' Hh. by rewrite H2, decide_False.
  - unfold failed_block. py_unfold. by rewrite Hf.
Qed.

Lemma arc_prepare_load_spec c m hs :
  inv_at c m → NoDup hs → (∀ h, h ∈ hs → ∃ b, find m h = Some b ∧ is_ready b = true) →
  ∃ ps m', prepare_load_arc hs m = (Ok (spec_of ps), m') ∧
    Forall2 (λ h p, payload <$> find m h = Some p) hs ps ∧
    ∀ h, find m' h = if decide (h ∈ hs) then add_ref 1 <$> find m h else find m h.
Proof.
  intros Hi Hnd Hr.
  destruct (map_each_update find (inv_at c) (λ b, is_ready b = true) (λ b, Some (add_ref 1 b))
    (λ _ b, b) load_block hs m) as (bs & m' & E & I & F & G); [|done..|].
  - clear. intros m h b Hi Hf Hr. destruct (arc_set_block_step c m h b (add_ref 1 b) Hi Hf) as [H1 H2]; [done|].
    eexists. split; [|split; [exact H1|exact H2]].
    unfold load_block. py_unfold. rewrite Hf. simpl. by rewrite Hr.
  - exists (payload <$> bs), m'. unfold prepare_load_arc, bind, get_st, lift. rewrite E, spec_law.
    split; [done|]. split; [|done]. apply Forall2_fmap_r. eapply Forall2_impl; [exact F|].
    intros h b (b' & -> & ->). done.
Qed.

Lemma arc_complete_load_spec c m hs :
  inv_at c m → NoDup hs → (∀ h, h ∈ hs → ∃ b, find m h = Some b ∧ 0 < ref_cnt b) →
  ∃ m', complete_load_arc hs m = (Ok tt, m') ∧
    ∀ h, find m' h = if decide (h ∈ hs) then add_ref (-1) <$> find m h else find m h.
Proof.
  intros Hi Hnd Hr.
  destruct (map_each_update find (inv_at c) (λ b, 0 < ref_cnt b) (λ b, Some (add_ref (-1) b))
    (λ _ _, tt) release_block hs m) as (bs & m' & E & I & F & G); [|done..|].
  - clear. intros m h b Hi Hf Hr. destruct (arc_set_block_step c m h b (add_ref (-1) b) Hi Hf) as [H1 H2]; [done|].
    eexists. split; [|split; [exact H1|exact H2]].
    unfold release_block. py_unfold. rewrite Hf. simpl. by rewrite (proj2 (Z.ltb_lt _ _) Hr).
  - exists m'. unfold complete_load_arc. rewrite for_each_map_each. unfold bind. by rewrite E.
Qed.

Lemma arc_complete_store_spec c m hs :
  inv_at c m → NoDup hs → (∀ h, h ∈ hs → is_Some (find m h)) →
  ∃ m', complete_store_arc hs true m = (Ok tt, m') ∧
    ∀ h, find m' h = if decide (h ∈ hs)
                     then (λ b, if is_ready b then b else set_ready b) <$> find m h else find m h.
Proof.
  intros Hi Hnd Hr.
  destruct (map_each_update find (inv_at c) (λ _, True) (λ b, Some (if is_ready b then b else set_ready b))
    (λ h b, if is_ready b then [] else [h]) stored_block hs m) as (l & m' & E & I & F & G); [|done|done|..].
  - clear. intros m h b Hi Hf _. destruct (is_ready b) eqn:Hr.
    + exists m. split; [|split; [done|]].
      * unfold stored_block. py_unfold. rewrite Hf. simpl. by rewrite Hr.
      * intros h'. by case_decide; subst.
    + destruct (arc_set_block_step c m h b (set_ready b) Hi Hf) as [H1 H2]; [done|].
      eexists. split; [|split; [exact H1|exact H2]].
      unfold stored_block. py_unfold. rewrite Hf. simpl. by rewrite Hr.
  - intros h Hh. destruct (Hr h Hh) as [b Hb]. eauto.
  - destruct (push_event_inv c (concat l) false m' I) as (e & Ee & _).
    unfold complete_store_arc, bind. exists (set_events e m'). rewrite E, Ee. split; [done|].
    intros h. change (find (set_events e m') h) with (find m' h). rewrite G. case_decide; [|done]. by destruct (find m h).
Qed.

Lemma arc_failed_store_spec c m hs :
  inv_at c m → NoDup hs → (∀ h, h ∈ hs → ∃ b, find m h = Some b ∧ is_ready b = false) →
  ∃ m', complete_store_arc hs false m = (Ok tt, m') ∧
    ∀ h, find m' h = if decide (h ∈ hs) then None else find m h.
Proof.
  intros Hi Hnd Hr.
  destruct (map_each_update find (inv_at c) (λ b, is_ready b = false) (λ _, None)
    (λ _ _, tt) failed_block hs m) as (l & m' & E & I & F & G); [|done..|].
  - clear. intros m h b Hi Hf Hr. by apply arc_failed_block_step with b.
  - destruct (push_event_inv c [] false m' I) as (e & Ee & _). exists (set_events e m'). split.
    + unfold complete_store_arc, bind. rewrite for_each_map_each. unfold bind. rewrite E. exact Ee.
    + intros h. change (find m' h = if decide (h ∈ hs) then None else find m h).
      rewrite G. case_decide; [|done]. by destruct (find m h).
Qed.

(** *** Whatever the outcome of a call, it keeps the invariant and the blocks of others *)

Lemma arc_call_frame c m (x : call hash) :
  inv_at c m → allowed (find m) x →
  inv_at c (after x m) ∧
  ∀ h b, h ∉ concerned x → find m h = Some b → ref_cnt b ≠ 0 → find (after x m) h = Some b.
Proof.
  intros Hi Ha. destruct x as [hs|hs|hs|hs|hs success|]; simpl.
  - destruct (map_each_frame find (inv_at c) (λ _, True) load_block hs m) as [H1 H2];
      [apply arc_load_block_turn|done|by left|].
    unfold prepare_load_arc, bind, get_st, lift. destruct (map_each hs load_block m) as [[bs|e] m'];
      (split; [done|]); simpl in *; intros; by rewrite H2.
  - destruct (arc_touch_blocks c m (rev hs) Hi) as (m' & E & H1 & H2). unfold touch_arc. rewrite E.
    split; [done|]. intros. by rewrite H2.
  - destruct (map_each_frame find (inv_at c) (λ _, True) release_block hs m) as [H1 H2];
      [apply arc_release_block_turn|done|by left|].
    unfold complete_load_arc. rewrite for_each_state. split; [done|]. intros. by rewrite H2.
  - destruct (prepare_store_spec c hs m Hi Ha)
      as [(vs & m' & -> & I & _ & Hv & Hf & _)|(ps & vs & m' & -> & I & _ & Hv & Hf & _)];
      (split; [exact I|]); intros h b _ Hb Hr; simpl; rewrite Hf.
    + rewrite decide_False; [done|]. intros (b2 & Hb2 & Hr2)%Hv. congruence.
    + rewrite decide_False; [done|]. intros (b2 & Hb2 & Hr2)%Hv. congruence.
    + intros [Hn _]%list_elem_of_filter. congruence.
  - destruct success.
    + destruct (map_each_frame find (inv_at c) (λ _, True) stored_block hs m) as [H1 H2];
        [apply arc_stored_block_turn|done|by left|].
      unfold complete_store_arc, bind. destruct (map_each hs stored_block m) as [[l|e] m']; simpl in H1, H2.
      * destruct (push_event_inv c (concat l) false m' H1) as (e & -> & I). split; [exact I|].
        intros h b Hh Hf _. rewrite <- Hf. exact (H2 h Hh).
      * split; [done|]. intros h b Hh Hf _. rewrite <- Hf. exact (H2 h Hh).
    + destruct Ha as [Hnd Ha].
      destruct (map_each_frame find (inv_at c) (λ o, ∀ b, o = Some b → is_ready b = false) failed_block hs m)
        as [H1 H2]; [apply arc_failed_block_turn|done|right; split; [done|]; intros h Hh b; by apply Ha|].
      rewrite <- for_each_state in H1, H2.
      unfold complete_store_arc, bind. destruct (for_each hs failed_block m) as [[[]|e] m']; simpl in H1, H2.
      * destruct (push_event_inv c [] false m' H1) as (e & -> & I). split; [exact I|].
        intros h b Hh Hf _. rewrite <- Hf. exact (H2 h Hh).
      * split; [done|]. intros h b Hh Hf _. rewrite <- Hf. exact (H2 h Hh).
  - unfold take_events_arc. destruct (events m) eqn:E; [|done].
    split; [|done]. destruct Hi as [[] Hc]. by split; [split|].
Qed.

Lemma arc_prepare_store_contract m hs :
  inv m → NoDup hs →
  let m' := (prepare_store_arc hs m).2 in
  ((prepare_store_arc hs m).1 = Ok None ∧ ∀ h b, find m' h = Some b → find m h = Some b) ∨
  ∃ out ps,
    (prepare_store_arc hs m).1 = Ok (Some out) ∧
    block_hashes_to_store out = filter (λ h, find m h = None) hs ∧
    store_spec out = spec_of ps ∧
    Forall2 (λ h p, find m' h = Some (BS (-1) p)) (block_hashes_to_store out) ps ∧
    (∀ h, h ∈ block_hashes_evicted out → ∃ b, find m h = Some b ∧ ref_cnt b = 0) ∧
    ∀ h, h ∉ block_hashes_to_store out →
      find m' h = if decide (h ∈ block_hashes_evicted out) then None else find m h.
Proof.
  intros Hi Hnd. destruct (prepare_store_spec (capacity (backend m)) hs m (conj Hi eq_refl) Hnd)
    as [(vs & m' & -> & _ & _ & _ & Hf & _)|(ps & vs & m' & -> & _ & F & Hv & Hf & _)].
  - left. split; [done|]. intros h b. simpl. rewrite Hf. by case_decide.
  - right. by eexists _, ps.
Qed.

#[local] Arguments complete_store_arc : simpl never.

#[global] Program Instance manager_laws : OffloadingManagerLaws hash P spec t := {|
  om_inv := inv;
  om_find := find;
  om_stored m := od_keys (t1 m ++ t2 m);
  om_room m := get_num_free_blocks (backend m);
  om_capacity m := capacity (backend m);
  om_spec_of := spec_of
|}.
Next Obligation. intros m h _. rewrite find_app. symmetry. apply od_get_is_Some. Qed.
Next Obligation. intros m Hi. by apply caches_wf. Qed.
Next Obligation.
  intros m h1 h2 b1 b2 Hi. rewrite !find_app. intros H1 H2.
  apply (places_inj (t1 m ++ t2 m)); [eapply owns_nodup; apply Hi|done..].
Qed.
Next Obligation.
  intros m Hi. destruct (inv_size m Hi) as (H1 & H2 & _). rewrite (inv_cap m Hi) in H1. split; [done|].
  unfold size, zlen, od_keys in *. rewrite length_fmap, length_app. lia.
Qed.
Next Obligation. intros m c Hi Ha. by destruct (arc_call_frame (capacity (backend m)) m c) as [[? ?] _]. Qed.
Next Obligation.
  intros m c h b Hi Ha. destruct (arc_call_frame (capacity (backend m)) m c) as [_ Hf]; [done..|]. apply Hf.
Qed.
Next Obligation. done. Qed.
Next Obligation.
  intros m hs Hi. simpl. unfold touch_arc.
  by destruct (arc_touch_blocks (capacity (backend m)) m (rev hs)) as (m' & -> & _ & ?).
Qed.
Next Obligation.
  intros m hs Hi Hnd Hr. simpl.
  destruct (arc_prepare_load_spec (capacity (backend m)) m hs) as (ps & m' & -> & ? & ?); [done..|]. eauto.
Qed.
Next Obligation.
  intros m hs Hi Hnd Hr. simpl. by destruct (arc_complete_load_spec (capacity (backend m)) m hs) as (m' & -> & ?).
Qed.
Next Obligation. apply arc_prepare_store_contract. Qed.
Next Obligation.
  intros m hs Hi Hnd Hr. simpl. by destruct (arc_complete_store_spec (capacity (backend m)) m hs) as (m' & -> & ?).
Qed.
Next Obligation.
  intros m hs Hi Hnd Hr. simpl. by destruct (arc_failed_store_spec (capacity (backend m)) m hs) as (m' & -> & ?).
Qed.

(** C36. [prepare_store] of the ARC manager never raises, and keeps a block in one of the four
    lists T1, T2, B1 and B2 at most.  When it accepts, it evicts as many blocks as places are
    missing, all of them without transfers, puts the new blocks, not yet ready, behind the
    others in T1, at places of their own, and cuts the ghost lists to the capacity; when it
    refuses, it stores nothing, but the blocks it had evicted are gone. *)
Theorem arc_prepare_store m hs (Hi : inv m) (Hnd : NoDup hs) :
  let new := filter (λ h, find m h = None) hs in
  let '(r, m') := prepare_store hs m in
  NoDup (all_keys m') ∧ size m' ≤ capacity (backend m) ∧
  match r with
  | Raise _ => False
  | Ok None => ∃ vs, evicted_from vs m m'
  | Ok (Some out) =>
      ∃ ps vs, out = StoreOutput new (spec_of ps) vs ∧ NoDup ps ∧ length ps = length new ∧
        zlen vs = Z.max 0 (zlen new - get_num_free_blocks (backend m)) ∧
        (∀ h, h ∈ vs → ∃ b, find m h = Some b ∧ ref_cnt b = 0) ∧
        zip new (new_status <$> ps) `suffix_of` t1 m' ∧
        (∀ h, h ∉ new → find m' h = if decide (h ∈ vs) then None else find m h) ∧
        (new ≠ [] → zlen (b1 m') ≤ capacity (backend m) ∧ zlen (b2 m') ≤ capacity (backend m))
  end.
Proof.
  cbv zeta. change (prepare_store hs m) with (prepare_store_arc hs m).
  destruct (prepare_store_spec (capacity (backend m)) hs m (conj Hi eq_refl) Hnd)
    as [(vs & m' & -> & [I Hc] & V)|(ps & vs & m' & -> & [I Hc] & F & Hv & Hf & Hn & Hs & Hb)].
  - destruct (inv_size m' I) as (S1 & S2 & _). rewrite (inv_cap m' I) in S1.
    split; [apply I|]. split; [lia|by exists vs].
  - destruct (inv_size m' I) as (S1 & S2 & _). rewrite (inv_cap m' I) in S1.
    split; [apply I|]. split; [lia|]. exists ps, vs. pose proof (Forall2_length _ _ _ F) as Hl.
    split; [done|]. split; [|done]. destruct Hs as [d Hd].
    pose proof (owns_nodup _ _ (inv_owns m' I)) as Hp. rewrite Hd, !places_app in Hp.
    apply NoDup_app in Hp as [(_ & _ & Hp)%NoDup_app _]. unfold places in Hp.
    rewrite snd_zip in Hp by (rewrite length_fmap; lia). by rewrite <- list_fmap_compose, list_fmap_id in Hp.
Qed.

Lemma arc_create_inv b e : owns b [] → inv (create b e).
Proof.
  intros Ho. destruct (num_free_law b [] Ho) as [H1 H2]. change (zlen []) with 0 in H1.
  split; simpl; [constructor|done|lia|done|unfold size, zlen; simpl; lia..].
Qed.
End arc.
Arguments t : clear implicits.
End ARC.

(** ** The manager over the CPU's backend *)
Module ArcDemo.

Abbreviation cpu_arc := (ARC.t Z Z CPUBackend.t).

Definition start (num_blocks : Z) : cpu_arc := ARC.create (CPUBackend.create 256 num_blocks) true.

Definition answer := LruDemo.answer.

(** [test_arc_manager_adaptive_target]: a hit in B1 raises the target. *)
Definition a1 : cpu_arc :=
  session [PrepareStore [1; 2]; CompleteStore [1; 2] true; PrepareStore [3]; CompleteStore [3] true] (start 2).
Definition a2 : cpu_arc :=
  session [PrepareStore [1; 2]; CompleteStore [1; 2] true; PrepareStore [3]; CompleteStore [3] true;
           Touch [1]] (start 2).

Example test_arc_manager_adaptive_target :
  od_keys (ARC.b1 a1) = [1] ∧ PyNum.trunc (ARC.target_t1_size a1) = Ok 0 ∧
  PyNum.trunc (ARC.target_t1_size a2) = Ok 1 ∧
  od_keys (ARC.t2 (session [Touch [3]] a2)) = [3].
Proof. vm_compute. done. Qed.

(** The ratio of the ghost lists is a float: with one block in B1 and three in B2, a hit in B1
    adds 3.0, and the target, cut to the capacity, becomes the integer 2. *)
Example target_types :
  ARC.target_t1_size a1 = PyNum.Float (SpecFloat.S754_zero false) ∧
  ARC.target_t1_size (session [Touch [1]; Touch [1]; Touch [1]] a1) = PyNum.Int 2.
Proof. vm_compute. done. Qed.

(** A store that is refused has already evicted block 1, and tells no event. *)
Example refused_store_evicts :
  let m := session [PrepareStore [1; 2]; CompleteStore [1; 2] true; PrepareLoad [2]; TakeEvents] (start 2) in
  lookup_blocks [1] m = Some 1 ∧ (prepare_store [3; 4] m).1 = Ok None ∧
  lookup_blocks [1] (after (PrepareStore [3; 4]) m) = Some 0 ∧
  ARC.events (after (PrepareStore [3; 4]) m) = Some [].
Proof. vm_compute. done. Qed.

(** With the target above the size of T1, only T2 is searched: a store is refused although
    block 3 of T1 could go. *)
Example idle_t1_refused :
  let m := session [Touch [1]; Touch [1]; Touch [2]; PrepareLoad [2]] a1 in
  od_keys (ARC.t1 m) = [3] ∧ idle (ARC.t1 m) = [3] ∧ od_keys (ARC.t2 m) = [2] ∧ idle (ARC.t2 m) = [] ∧
  (prepare_store [4] m).1 = Ok None.
Proof. vm_compute. done. Qed.

(** A failed store takes out a block that was stored before, and loses its place: the LRU
    manager keeps such a block. *)
Example failed_store_leaks :
  let m := session [PrepareStore [1]; CompleteStore [1] true; CompleteStore [1] false] (start 1) in
  lookup_blocks [1] m = Some 0 ∧ ARC.size m = 0 ∧ CPUBackend.num_free (ARC.backend m) = 0 ∧
  (prepare_store [2] m).1 = Ok None.
Proof. vm_compute. done. Qed.

Lemma arc_start_inv n : 0 ≤ n ≤ 2 ^ 63 → ARC.inv (start n).
Proof. intros Hn. apply ARC.arc_create_inv. by apply CPUBackend.owned_create. Qed.

Lemma a2_inv : ARC.inv a2.
Proof.
  refine (proj1 (session_inv _ (start 2) _ _)).
  - by apply arc_start_inv.
  - apply allowed_sessionb_sound. vm_compute. done.
Qed.

Lemma arc_prepare_store_witness :
  ∃ r m', prepare_store [4; 3] a2 = (r, m') ∧ NoDup (ARC.all_keys m') ∧ ARC.size m' ≤ 2 ∧
    match r with Ok _ => True | Raise _ => False end.
Proof.
  assert (NoDup [4; 3]) as Hnd by (apply (bool_decide_unpack _); vm_compute; done).
  pose proof (ARC.arc_prepare_store a2 [4; 3] a2_inv Hnd) as H. cbv zeta in H.
  destruct (prepare_store [4; 3] a2) as [r m']. destruct H as (H1 & H2 & H3).
  exists r, m'. split; [reflexivity|]. split; [exact H1|]. split; [exact H2|]. destruct r; [exact I|exact H3].
Defined.
End ArcDemo.
