(* ===== verification/OffloadSpec.v ===== *)
(** [vllm/v1/kv_offload/spec.py] and [cpu.py]: how many blocks fit into the CPU's memory and
    which manager keeps them, and what holds of either manager in every session of calls. *)
From S2P Require Export OffloadLru OffloadArc.
From stdpp Require Import options.

(** ** Either manager, behind the interface *)
Section either.
Context {hash : Type} `{EqDecision hash}.

(** The two classes that [get_manager] may instantiate, over the CPU's backend. *)
Inductive manager :=
  | Lru (m : LRU.t hash Z CPUBackend.t)
  | Arc (m : ARC.t hash Z CPUBackend.t).

(** A method call goes to the object's class. *)
Definition dispatch {A} (f : py (LRU.t hash Z CPUBackend.t) A) (g : py (ARC.t hash Z CPUBackend.t) A) :
    py manager A := λ m,
  match m with
  | Lru m => let '(r, m') := f m in (r, Lru m')
  | Arc m => let '(r, m') := g m in (r, Arc m')
  end.

#[global] Instance either_manager : OffloadingManager hash (list Z) manager := {|
  lookup_blocks hs m := match m with Lru m => lookup_blocks hs m | Arc m => lookup_blocks hs m end;
  prepare_load hs := dispatch (prepare_load hs) (prepare_load hs);
  touch hs := dispatch (touch hs) (touch hs);
  complete_load hs := dispatch (complete_load hs) (complete_load hs);
  prepare_store hs := dispatch (prepare_store hs) (prepare_store hs);
  complete_store hs success := dispatch (complete_store hs success) (complete_store hs success);
  take_events := dispatch take_events take_events
|}.

#[local] Arguments dispatch : simpl never.

Lemma dispatch_lru {A} (f : py (LRU.t hash Z CPUBackend.t) A) g m :
  dispatch f g (Lru m) = ((f m).1, Lru (f m).2).
Proof. unfold dispatch. by destruct (f m). Qed.

Lemma dispatch_arc {A} (g : py (ARC.t hash Z CPUBackend.t) A) f m :
  dispatch f g (Arc m) = ((g m).1, Arc (g m).2).
Proof. unfold dispatch. by destruct (g m). Qed.

Lemma after_lru c m : after c (Lru m) = Lru (after c m).
Proof. destruct c; simpl; by rewrite dispatch_lru. Qed.

Lemma after_arc c m : after c (Arc m) = Arc (after c m).
Proof. destruct c; simpl; by rewrite dispatch_arc. Qed.

Definition either_inv (m : manager) : Prop := match m with Lru m => LRU.inv m | Arc m => ARC.inv m end.
Definition either_find (m : manager) : hash → option (BlockStatus Z) :=
  match m with Lru m => LRU.find m | Arc m => ARC.find m end.
Definition either_backend (m : manager) : CPUBackend.t :=
  match m with Lru m => LRU.backend m | Arc m => ARC.backend m end.
Definition either_stored (m : manager) : list hash :=
  match m with Lru m => od_keys (LRU.blocks m) | Arc m => od_keys (ARC.t1 m ++ ARC.t2 m) end.

#[global] Program Instance either_laws : OffloadingManagerLaws hash Z (list Z) manager := {|
  om_inv := either_inv;
  om_find := either_find;
  om_stored := either_stored;
  om_room m := CPUBackend.num_free (either_backend m);
  om_capacity m := CPUBackend.num_blocks (either_backend m);
  om_spec_of ps := ps
|}.
Next Obligation. intros [m|m] h Hi; exact (om_stored_find m h Hi). Qed.
Next Obligation. intros [m|m] Hi; exact (om_stored_nodup m Hi). Qed.
Next Obligation. intros [m|m] h1 h2 b1 b2 Hi; exact (om_places m h1 h2 b1 b2 Hi). Qed.
Next Obligation. intros [m|m] Hi; exact (om_room_law m Hi). Qed.
Next Obligation. intros [m|m] c Hi Ha; rewrite ?after_lru, ?after_arc; exact (om_inv_law m c Hi Ha). Qed.
Next Obligation. intros [m|m] c h b Hi Ha; rewrite ?after_lru, ?after_arc; exact (om_frame_law m c h b Hi Ha). Qed.
Next Obligation. intros [m|m] hs Hi; exact (lookup_law m hs Hi). Qed.
Next Obligation.
  intros [m|m] hs Hi; rewrite ?after_lru, ?after_arc; simpl; rewrite ?dispatch_lru, ?dispatch_arc;
    exact (touch_law m hs Hi).
Qed.
Next Obligation.
  intros [m|m] hs Hi Hnd Hr; rewrite ?after_lru, ?after_arc; simpl; rewrite ?dispatch_lru, ?dispatch_arc;
    exact (prepare_load_law m hs Hi Hnd Hr).
Qed.
Next Obligation.
  intros [m|m] hs Hi Hnd Hr; rewrite ?after_lru, ?after_arc; simpl; rewrite ?dispatch_lru, ?dispatch_arc;
    exact (complete_load_law m hs Hi Hnd Hr).
Qed.
Next Obligation.
  intros [m|m] hs Hi Hnd; rewrite ?after_lru, ?after_arc; simpl; rewrite ?dispatch_lru, ?dispatch_arc;
    exact (prepare_store_law m hs Hi Hnd).
Qed.
Next Obligation.
  intros [m|m] hs Hi Hnd Hr; rewrite ?after_lru, ?after_arc; simpl; rewrite ?dispatch_lru, ?dispatch_arc;
    exact (complete_store_law m hs Hi Hnd Hr).
Qed.
Next Obligation.
  intros [m|m] hs Hi Hnd Hr; rewrite ?after_lru, ?after_arc; simpl; rewrite ?dispatch_lru, ?dispatch_arc;
    exact (failed_store_law m hs Hi Hnd Hr).
Qed.
End either.
Arguments manager : clear implicits.

(** ** The specification of offloading to the CPU *)
Module CPUOffloadingSpec.
Section spec.
Context {hash : Type} `{EqDecision hash}.
Abbreviation manager := (manager hash).

(** What the constructor reads of vLLM's configuration and of the cache's: the page size of
    every group, the number of cache tensors, and the extra options of the connector. *)
Record config := Config {
  cfg_gpu_block_size : Z;
  cfg_block_size : option Z;
  cfg_cpu_bytes_to_use : option Z;
  cfg_eviction_policy : option string;
  cfg_page_sizes : list Z;
  cfg_num_kv_cache_tensors : Z;
  cfg_world_size : Z;
  cfg_enable_kv_cache_events : bool
}.

Record t := Spec {
  gpu_block_size : Z;
  offloaded_block_size : Z;
  num_blocks : Z;
  eviction_policy : string;
  enable_events : bool;
  cached_manager : option manager
}.
Implicit Types (cfg : config) (s : t).

(** [OffloadingSpec.__init__] *)
Definition block_sizes cfg : result (Z * Z) :=
  let gpu := cfg_gpu_block_size cfg in
  let offloaded := default gpu (cfg_block_size cfg) in
  let! r := py_mod offloaded gpu in
  let! _ := rassert (r =? 0) in
  Ok (gpu, offloaded).

(** The bytes of one offloaded block, on all workers. *)
Definition kv_bytes_per_offloaded_block cfg (gpu offloaded page_size_bytes : Z) : Z :=
  page_size_bytes * cfg_num_kv_cache_tensors cfg * cfg_world_size cfg * (offloaded `div` gpu).

(** [CPUOffloadingSpec.__init__] *)
Definition create cfg : result t :=
  let! sizes := block_sizes cfg in
  let '(gpu, offloaded) := sizes in
  let cpu_bytes_to_use := default 0 (cfg_cpu_bytes_to_use cfg) in
  if cpu_bytes_to_use =? 0 then Raise Exception
  else
    match remove_dups (cfg_page_sizes cfg) with
    | [page_size_bytes] =>
        let bytes := kv_bytes_per_offloaded_block cfg gpu offloaded page_size_bytes in
        Ok (Spec gpu offloaded (if 0 <? bytes then cpu_bytes_to_use `div` bytes else 0)
              (default "lru"%string (cfg_eviction_policy cfg)) (cfg_enable_kv_cache_events cfg) None)
    | _ => Raise AssertionError
    end.

(** The branches of [get_manager]. *)
Definition new_manager s : result manager :=
  let backend := CPUBackend.create (offloaded_block_size s) (num_blocks s) in
  if String.eqb (eviction_policy s) "lru" then Ok (Lru (LRU.create backend (enable_events s)))
  else if String.eqb (eviction_policy s) "arc" then Ok (Arc (ARC.create backend (enable_events s)))
  else Raise ValueError.

Definition get_manager : py t manager :=
  let* s := get_st in
  match cached_manager s with
  | Some m => ret m
  | None =>
      let* m := lift (new_manager s) in
      put_st (Spec (gpu_block_size s) (offloaded_block_size s) (num_blocks s) (eviction_policy s)
                (enable_events s) (Some m));;;
      ret m
  end.

(** The manager of a configuration. *)
Definition manager_of cfg : result manager :=
  let! s := create cfg in (get_manager s).1.

Lemma new_manager_inv s m :
  new_manager s = Ok m → 0 ≤ num_blocks s ≤ 2 ^ 63 →
  either_inv m ∧ CPUBackend.num_blocks (either_backend m) = num_blocks s ∧ either_stored m = [].
Proof.
  unfold new_manager. intros Hm Hn.
  pose proof (CPUBackend.owned_create (offloaded_block_size s) (num_blocks s) Hn) as Ho.
  destruct (String.eqb (eviction_policy s) "lru"); [|destruct (String.eqb (eviction_policy s) "arc"); [|done]];
    injection Hm as <-; split; try done; [by apply LRU.lru_create_inv|by apply ARC.arc_create_inv].
Qed.

(** The bytes of an offloaded block of the configuration, whose groups have one page size. *)
Definition block_bytes cfg : Z :=
  kv_bytes_per_offloaded_block cfg (cfg_gpu_block_size cfg)
    (default (cfg_gpu_block_size cfg) (cfg_block_size cfg)) (hd 0 (cfg_page_sizes cfg)).

Definition cpu_bytes cfg : Z := default 0 (cfg_cpu_bytes_to_use cfg).

Lemma remove_dups_singleton (l : list Z) p : remove_dups l = [p] → hd 0 l = p.
Proof.
  intros Hl. destruct l as [|x l]; [done|]. simpl.
  assert (x ∈ remove_dups (x :: l)) as Hx by (apply elem_of_remove_dups; by left).
  rewrite Hl in Hx. by apply list_elem_of_singleton in Hx.
Qed.

(** The blocks fit into the memory that the configuration grants. *)
Lemma create_fits cfg s :
  create cfg = Ok s → 0 ≤ cpu_bytes cfg →
  0 ≤ num_blocks s ≤ cpu_bytes cfg ∧ ∀ i, 0 ≤ i < num_blocks s → (i + 1) * block_bytes cfg ≤ cpu_bytes cfg.
Proof.
  unfold create, block_sizes, block_bytes, cpu_bytes. intros Hs Hc.
  destruct (py_mod _ _) as [r|e]; [|done]. simpl in Hs. destruct (r =? 0); [|done]. simpl in Hs.
  set (c := default 0 (cfg_cpu_bytes_to_use cfg)) in *. destruct (c =? 0); [done|].
  destruct (remove_dups (cfg_page_sizes cfg)) as [|p [|? ?]] eqn:Hp; [done| |done].
  apply remove_dups_singleton in Hp. rewrite Hp. injection Hs as <-. simpl.
  set (bytes := kv_bytes_per_offloaded_block _ _ _ _). destruct (Z.ltb_spec 0 bytes) as [Hb|Hb]; [|split; [lia|intros i Hi; lia]].
  assert (bytes * (c `div` bytes) ≤ c) by (apply Z.mul_div_le; lia).
  assert (0 ≤ c `div` bytes) by (apply Z.div_pos; lia). split; [nia|]. intros i Hi. nia.
Qed.

Lemma manager_of_inv cfg m :
  manager_of cfg = Ok m → 0 ≤ cpu_bytes cfg ≤ 2 ^ 63 →
  either_inv m ∧ either_stored m = [] ∧ 0 ≤ om_capacity m ∧
  ∀ i, 0 ≤ i < om_capacity m → (i + 1) * block_bytes cfg ≤ cpu_bytes cfg.
Proof.
  unfold manager_of. intros Hm Hc. apply rbind_ok in Hm as (s & Hs & Hm).
  destruct (create_fits cfg s Hs ltac:(lia)) as [Hn Hf].
  assert (new_manager s = Ok m) as Hm'.
  { revert Hm. unfold get_manager. py_unfold. assert (cached_manager s = None) as ->.
    { revert Hs. unfold create, block_sizes, py_mod, rassert, rbind. intros Hs.
      repeat case_match; simplify_eq/=; done. }
    by destruct (new_manager s). }
  destruct (new_manager_inv s m Hm' ltac:(lia)) as (H1 & H2 & H3).
  split; [done|]. split; [done|]. change (om_capacity m) with (CPUBackend.num_blocks (either_backend m)).
  rewrite H2. split; [lia|done].
Qed.

(** A stored block's place is one of the backend's. *)
Lemma place_in_range (m : manager) h b :
  either_inv m → either_find m h = Some b → 0 ≤ payload b < om_capacity m.
Proof.
  assert (∀ (bk : CPUBackend.t) d, CPUBackend.owned bk (places d) → od_get h d = Some b →
    0 ≤ payload b < CPUBackend.num_blocks bk) as Hgen.
  { intros bk d (Hn & _ & Hp) Hb. assert (payload b ∈ places d) as Hin.
    { rewrite (places_del h b d Hb). by left. }
    assert (payload b ∈ seqZ 0 (CPUBackend.num_allocated_blocks bk)) as Hs%elem_of_seqZ; [|lia].
    rewrite <- Hp. apply elem_of_app. by right. }
  destruct m as [m|m]; intros Hi Hf; simpl.
  - apply (Hgen (LRU.backend m) (LRU.blocks m)); [apply Hi|done].
  - apply (Hgen (ARC.backend m) (ARC.t1 m ++ ARC.t2 m)); [apply Hi|]. by rewrite <- ARC.find_app.
Qed.

(** C29. Whatever a client does with the manager of a configuration, as long as it stores a
    block once per call and fails only stores under way, the stored blocks have places of their
    own, the places lie within the memory the configuration grants, and the places in use and
    the free ones are as many as were made: none is lost. *)
Theorem offload_memory_bound cfg cs m0 :
  manager_of cfg = Ok m0 → 0 ≤ cpu_bytes cfg ≤ 2 ^ 63 → allowed_session cs m0 →
  let m := session cs m0 in
  NoDup (either_stored m) ∧
  (∀ h, h ∈ either_stored m ↔ is_Some (either_find m h)) ∧
  (∀ h b, either_find m h = Some b → 0 ≤ payload b ∧ (payload b + 1) * block_bytes cfg ≤ cpu_bytes cfg) ∧
  (∀ h1 h2 b1 b2, either_find m h1 = Some b1 → either_find m h2 = Some b2 → payload b1 = payload b2 → h1 = h2) ∧
  CPUBackend.num_free (either_backend m) + zlen (either_stored m) = CPUBackend.num_free (either_backend m0).
Proof.
  intros Hm Hc Ha m. destruct (manager_of_inv cfg m0 Hm Hc) as (Hi0 & Hs0 & Hc0 & Hf).
  pose proof (session_inv cs m0) as Hsi. destruct (Hsi Hi0 Ha) as [Hi Hcap]. fold m in Hi, Hcap.
  split; [exact (om_stored_nodup m Hi)|]. split; [intros h; exact (om_stored_find m h Hi)|].
  split; [|split; [intros h1 h2 b1 b2; exact (om_places m h1 h2 b1 b2 Hi)|]].
  - intros h b Hb. pose proof (place_in_range m h b Hi Hb) as Hp. split; [lia|]. apply Hf. lia.
  - pose proof (om_room_law m Hi) as [_ R1]. pose proof (om_room_law m0 Hi0) as [_ R0].
    simpl in R1, R0, Hcap. rewrite Hs0 in R0. unfold zlen in *. simpl in *. lia.
Qed.

(** C28. A store and a load, among the calls of other clients: the blocks that [prepare_store]
    answers are the new ones of the list; once [complete_store] is called they are found; a
    load at once reads them from the very places the store wrote them to; and until
    [complete_load] they stay readable.  No call of the sequence raises. *)
Theorem offload_store_load cfg cs0 hs out cs1 cs2 m0 :
  manager_of cfg = Ok m0 → 0 ≤ cpu_bytes cfg ≤ 2 ^ 63 → allowed_session cs0 m0 →
  let m := session cs0 m0 in
  NoDup hs → (prepare_store hs m).1 = Ok (Some out) →
  let new := block_hashes_to_store out in
  let m1 := session cs1 (after (PrepareStore hs) m) in
  let m2 := after (CompleteStore new true) m1 in
  let m3 := session cs2 (after (PrepareLoad new) m2) in
  allowed_session cs1 (after (PrepareStore hs) m) → others new cs1 →
  allowed_session cs2 (after (PrepareLoad new) m2) → others new cs2 →
  new = filter (λ h, h ∉ either_stored m) hs ∧
  (complete_store new true m1).1 = Ok tt ∧ lookup_blocks new m2 = Some (zlen new) ∧
  (prepare_load new m2).1 = Ok (store_spec out) ∧ lookup_blocks new m3 = Some (zlen new) ∧
  (complete_load new m3).1 = Ok tt.
Proof.
  intros Hm Hc Ha m Hnd Hout new m1 m2 m3 A1 O1 A2 O2.
  destruct (manager_of_inv cfg m0 Hm Hc) as (Hi0 & _).
  pose proof (session_inv cs0 m0) as Hsi. destruct (Hsi Hi0 Ha) as [Hi _]. fold m in Hi.
  destruct (store_load_session m hs out cs1 cs2 Hi Hnd Hout A1 O1 A2 O2) as (H1 & H2).
  split; [|exact H2]. unfold new. rewrite H1. apply list_filter_iff. intros h.
  change (either_stored m) with (om_stored m). rewrite (om_stored_find m h Hi).
  by rewrite eq_None_not_Some.
Qed.
End spec.
End CPUOffloadingSpec.

(** ** Both policies, on four blocks of four bytes *)
Module SpecDemo.
Import CPUOffloadingSpec.

Definition cfg (policy : string) : config := Config 16 (Some 32) (Some 19) (Some policy) [2; 2] 1 1 true.

Definition m_lru : manager Z := Lru (LRU.create (CPUBackend.create 32 4) true).
Definition m_arc : manager Z := Arc (ARC.create (CPUBackend.create 32 4) true).

Example managers :
  manager_of (cfg "lru") = Ok m_lru ∧ manager_of (cfg "arc") = Ok m_arc ∧
  manager_of (hash := Z) (cfg "fifo") = Raise ValueError ∧ block_bytes (cfg "lru") = 4 ∧
  manager_of (hash := Z) (Config 16 (Some 24) (Some 19) None [2] 1 1 true) = Raise AssertionError ∧
  manager_of (hash := Z) (Config 16 None None None [2] 1 1 true) = Raise Exception.
Proof. vm_compute. done. Qed.

(** Six stores on four places, a load under way, a failed store. *)
Definition calls : list (call Z) :=
  [PrepareStore [1; 2]; CompleteStore [1; 2] true; PrepareLoad [2]; PrepareStore [3; 4; 5];
   CompleteStore [3] true; CompleteStore [4; 5] false; Touch [3; 1]; PrepareStore [6]].

Lemma calls_allowed : allowed_session calls m_lru ∧ allowed_session calls m_arc.
Proof. split; apply allowed_sessionb_sound; vm_compute; done. Qed.

Lemma offload_memory_bound_witness :
  either_stored (session calls m_lru) = [2; 3; 6] ∧
  either_stored (session calls m_arc) = [2; 6; 3] ∧
  (∀ m0 policy, (m0 = m_lru ∧ policy = "lru"%string) ∨ (m0 = m_arc ∧ policy = "arc"%string) →
    ∀ h b, either_find (session calls m0) h = Some b → (payload b + 1) * 4 ≤ 19).
Proof.
  split; [vm_compute; reflexivity|]. split; [vm_compute; reflexivity|].
  intros m0 policy [[-> ->]|[-> ->]] h b Hb.
  - destruct (offload_memory_bound (cfg "lru") calls m_lru (proj1 managers)) as (_ & _ & H & _);
      [split; discriminate|exact (proj1 calls_allowed)|]. exact (proj2 (H h b Hb)).
  - destruct (offload_memory_bound (cfg "arc") calls m_arc (proj1 (proj2 managers))) as (_ & _ & H & _);
      [split; discriminate|exact (proj2 calls_allowed)|]. exact (proj2 (H h b Hb)).
Defined.
(** What others do while blocks 7 and 8 are stored, and while they are loaded. *)
Definition others1 : list (call Z) := [PrepareStore [9]; Touch [7]; CompleteStore [9] true].
Definition others2 : list (call Z) := [PrepareStore [10; 11]; Touch [9; 8]; CompleteStore [10; 11] true].

Lemma offload_store_load_witness :
  let m := session calls m_lru in
  let m1 := session others1 (after (PrepareStore [7; 8]) m) in
  let m2 := after (CompleteStore [7; 8] true) m1 in
  let m3 := session others2 (after (PrepareLoad [7; 8]) m2) in
  (prepare_store [7; 8] m).1 = Ok (Some (StoreOutput [7; 8] [2; 3] [3])) ∧
  (prepare_load [7; 8] m2).1 = Ok [2; 3] ∧ lookup_blocks [7; 8] m3 = Some 2.
Proof.
  cbv zeta.
  assert ((prepare_store [7; 8] (session calls m_lru)).1 = Ok (Some (StoreOutput [7; 8] [2; 3] [3]))) as Hout
    by (vm_compute; reflexivity).
  assert (others [7; 8] others1 ∧ others [7; 8] others2) as [O1 O2].
  { split; repeat constructor; intros h Hh; simpl; apply (bool_decide_unpack _); revert h Hh; apply Forall_forall;
      repeat constructor. }
  assert (NoDup [7; 8]) as Hnd by (apply (bool_decide_unpack _); vm_compute; reflexivity).
  assert (0 ≤ cpu_bytes (cfg "lru") ≤ 2 ^ 63) as Hc by (split; discriminate).
  pose proof (offload_store_load (cfg "lru") calls [7; 8] _ others1 others2 m_lru
    (proj1 managers) Hc (proj1 calls_allowed) Hnd Hout) as H.
  cbv zeta in H. cbn [block_hashes_to_store store_spec] in H.
  specialize (H ltac:(apply allowed_sessionb_sound; vm_compute; reflexivity) O1
                ltac:(apply allowed_sessionb_sound; vm_compute; reflexivity) O2).
  destruct H as (_ & _ & _ & H1 & H2 & _).
  split; [exact Hout|]. split; [exact H1|exact H2].
Defined.
End SpecDemo.
