(* ===== verification/ServingDemo.v ===== *)
(** The scheduler on the KV cache manager at a concrete configuration: two requests through
    their steps, and a third that finds the blocks of the first one cached. *)
From Stdlib Require Import QArith.
From stdpp Require Import gmap gmultiset strings.
From S2P Require Export Serving SchedulerDemo KVCacheDemo.
From stdpp Require Import options.
Open Scope Z_scope.

(** ** Block hashes *)

(** The hashes of a request of text only, by a hash function that keeps its input. *)
Module TextHashes.
Import BlockHash.

Definition append_hash (x : list Z * list Z * option (list extra_key)) : list Z := x.1.1 ++ x.1.2.

Definition text (r : SchedRequest.Request) : request := Req [] None None None [] (SchedRequest.all_token_ids r) [].

Definition hashed (bs : Z) (r : SchedRequest.Request) : request :=
  set_block_hashes (names append_hash [] (text r) bs (SchedRequest.num_tokens r `div` bs)) (text r).

(** Every hash is longer than the one before. *)
Lemma names_grow bs r n i h h' :
  0 < bs → n * bs ≤ num_tokens r → names append_hash [] r bs n !! i = Some h → names append_hash [] r bs n !! Datatypes.S i = Some h' →
  (length h < length h')%nat.
Proof.
  intros Hbs Hn Hi Hj. pose proof Hj as (tk & k & Hitem & ->)%block_chain_lookup. unfold names in Hi. rewrite Hi. simpl in Hitem.
  rewrite list_lookup_fmap in Hitem. apply fmap_Some in Hitem as (z & Hz & He). apply lookup_seqZ in Hz as [-> Hlt].
  unfold item in He. injection He as -> _. unfold hash_block_tokens, append_hash. simpl.
  assert (0 < length (py_slice (all_token_ids r) ((0 + Z.of_nat (Datatypes.S i)) * bs) ((0 + Z.of_nat (Datatypes.S i)) * bs + bs)))%nat as Hlen.
  { rewrite py_slice_nonneg by lia. rewrite length_take, length_drop. unfold num_tokens, zlen in Hn. nia. }
  destruct h as [|x h]; rewrite length_app; simpl; lia.
Qed.

Lemma names_longer bs r n i j h h' :
  0 < bs → n * bs ≤ num_tokens r → (i < j)%nat → names append_hash [] r bs n !! i = Some h → names append_hash [] r bs n !! j = Some h' →
  (length h < length h')%nat.
Proof.
  intros Hbs Hn Hij Hi. revert h'. induction Hij as [|j Hij IH]; intros h' Hj; [by apply (names_grow bs r n i)|].
  destruct (lookup_lt_is_Some_2 (names append_hash [] r bs n) j) as [h0 H0]; [apply lookup_lt_Some in Hj; lia|].
  specialize (IH h0 H0). pose proof (names_grow bs r n j h0 h' Hbs Hn H0 Hj). lia.
Qed.

#[global] Instance text_requests (bs : Z) : HashedRequests := { hashed_request := hashed bs; skips_prefix_cache r := false }.

Lemma text_requests_laws bs max_len : 0 < bs → HashedRequestsLaws bs max_len (H := text_requests bs).
Proof.
  intros Hbs. split.
  - done.
  - intros r. simpl. apply names_length, Z.div_pos; [apply zlen_nonneg|done].
  - intros r _. simpl. apply NoDup_alt. intros i j h Hi Hj.
    assert (SchedRequest.num_tokens r `div` bs * bs ≤ num_tokens (text r)) as Hn.
    { change (num_tokens (text r)) with (SchedRequest.num_tokens r). rewrite Z.mul_comm. by apply Z.mul_div_le. }
    destruct (Nat.lt_total i j) as [Hij|[Hij|Hij]]; [|done|].
    + pose proof (names_longer bs (text r) _ i j h h Hbs Hn Hij Hi Hj). lia.
    + pose proof (names_longer bs (text r) _ j i h h Hbs Hn Hij Hj Hi). lia.
Qed.
End TextHashes.

(** ** Requests on blocks *)

Module ServingDemo.
Import SchedRequest Scheduler SchedulerInv SchedulerResult SchedulerCalls SchedulerTrace KVContract Serving SchedulerDemo.

#[global] Instance hashes : HashedRequests := TextHashes.text_requests 2.
#[global] Instance hashes_laws : HashedRequestsLaws (KVSpec.block_size KVCacheDemo.spec_full) (max_model_len cfg) :=
  TextHashes.text_requests_laws 2 12 ltac:(done).
#[global] Instance ops : KVCacheOps KVCacheManager.t CacheBlocks.t := manager_ops false.
#[global] Instance evict_ops : KVEvictOps KVCacheManager.t := manager_evict_ops false.

Abbreviation state := (t KVCacheManager.t EncoderCacheManager.t Z Q).

(** Five blocks of two slots. *)
Definition created : result KVCacheManager.t := KVCacheManager.create 6 [KVCacheDemo.spec_full] 12 2 true false true false 1 1.
Definition manager : KVCacheManager.t := match created with Ok k => k | Raise _ => KVCacheDemo.started 3 [] end.
Definition start : state := create empty manager (EncoderCacheManager.create 8) None.
Definition short : Request := request "two" [21; 22] [].
Definition queued : state := (add_request_ (B := CacheBlocks.t) short (add_request_ (B := CacheBlocks.t) one start).2).2.

Definition scheduled (s : state) : result SchedulerOutput * state := schedule cfg grammar_ready None empty s.
Definition output_of (s : state) : SchedulerOutput :=
  match (scheduled s).1 with Ok o => o | Raise _ => Output [] [] ∅ [] [] [] [] [] [] 0 [] [] [] ∅ ∅ [] end.
Definition updated (tokens : list (list Z)) (s : state) : result (list (Z * list EngineCoreOutput)) * state :=
  update_from_output cfg (output_of s) (ran tokens) (scheduled s).2.
Definition results_of (tokens : list (list Z)) (s : state) : list (Z * list EngineCoreOutput) :=
  match (updated tokens s).1 with Ok r => r | Raise _ => [] end.
Definition held_by (s : state) (id : string) : option (list (list Z)) := KVCacheManager.get_block_ids id (kv s).

(** Both prompts are computed; the second request is preempted; the first one stops; the
    second one starts again, on its cached block; it stops. *)
Definition prefilled : state := (updated [[31]; [41]] queued).2.
Definition decoded : state := (updated [[32]] prefilled).2.
Definition stopped : state := (updated [[2]] decoded).2.
Definition resumed : state := (updated [[0]; [42]] stopped).2.
Definition ended : state := (updated [[0]; [2]] resumed).2.

Example blocks_come_back :
  (num_scheduled_tokens (output_of queued) = [("one", 6); ("two", 2)]%string
   ∧ held_by prefilled "one" = Some [[1; 2; 3]] ∧ held_by prefilled "two" = Some [[4]])
  ∧ (preempted_req_ids (output_of prefilled) = {["two"%string]} ∧ held_by decoded "one" = Some [[1; 2; 3; 5]] ∧ held_by decoded "two" = Some [[]])
  ∧ (num_scheduled_tokens (output_of stopped) = [("two", 1)]%string ∧ held_by resumed "two" = Some [[4; 5]])
  ∧ requests ended = ∅ ∧ BlockPool.get_num_free_blocks (blocks_of ended) = 5.
Proof. vm_compute. split_and!; reflexivity. Qed.

(** *** The hypotheses of the theorem *)

Lemma full_wf : KVSpec.wf_spec KVCacheDemo.spec_full.
Proof. done. Qed.

#[global] Instance cache_laws : KVCacheLaws KVCacheManager.t CacheBlocks.t (max_model_len cfg) :=
  manager_laws false KVCacheDemo.spec_full false 12 full_wf I I.

Abbreviation engine := (engine cfg true grammar_ready None (K := KVCacheManager.t) (B := CacheBlocks.t) (E := EncoderCacheManager.t) (C := Z) (Q := Q)).

(** A step whose parts are checked by evaluation. *)
Lemma stepped tokens s :
  scheduled s = (Ok (output_of s), (scheduled s).2) → finish_requests [] FINISHED_ABORTED (scheduled s).2 = (Ok [], (scheduled s).2) →
  updated tokens s = (Ok (results_of tokens s), (updated tokens s).2) →
  forallb (sampled_check (ran tokens) (output_of s) (scheduled s).2) (od_keys (num_scheduled_tokens (output_of s))) = true →
  engine s (updated tokens s).2.
Proof.
  intros Hs Hf Hu Hc. assert (step_by cfg grammar_ready None s (output_of s) (ran tokens) (scheduled s).2 (scheduled s).2 (updated tokens s).2) as Hst; [|by eapply EStep].
  apply (StepBy _ _ _ _ _ _ _ _ _ empty [] FINISHED_ABORTED [] (results_of tokens s)); [done|exact Hs|apply NoDup_nil_2|done|exact Hf|by apply sampled_checked|exact Hu].
Qed.

Lemma added r s s' :
  new_request (cfg := cfg) (has_cache_item := None) r → requests s !! request_id r = None →
  add_request_ (B := CacheBlocks.t) r s = (Ok tt, s') → engine s s'.
Proof. intros Hr Hn Ha. apply EQuiet. by apply (QAdd _ _ _ r). Qed.

Lemma ended_reached : rtc engine start ended.
Proof.
  eapply rtc_l; [apply (added one start (add_request_ (B := CacheBlocks.t) one start).2); [apply (request_new "one"); [apply image_valid|done]|done|by vm_compute]|].
  eapply rtc_l; [apply (added short _ queued); [apply (request_new "two"); [|done]|by vm_compute|by vm_compute]|].
  { split; [by apply EncoderDemo.sized_checked|]. split; [constructor|]. by intros i j f g _ [= ]. }
  apply (rtc_l _ _ prefilled); [apply (stepped [[31]; [41]] queued); by vm_compute|].
  apply (rtc_l _ _ decoded); [apply (stepped [[32]] prefilled); by vm_compute|].
  apply (rtc_l _ _ stopped); [apply (stepped [[2]] decoded); by vm_compute|].
  apply (rtc_l _ _ resumed); [apply (stepped [[0]; [42]] stopped); by vm_compute|].
  apply (rtc_l _ _ ended); [apply (stepped [[0]; [2]] resumed); by vm_compute|]. apply rtc_refl.
Qed.

(** When both requests have ended, all blocks are free. *)
Example serving_blocks_witness :
  requests ended = ∅ ∧ BlockPool.get_num_free_blocks (blocks_of ended) = BlockPool.num_gpu_blocks (blocks_of ended) - 1
  ∧ ∀ q, queue_elements q = [] → ∃ o s', schedule cfg grammar_ready None q ended = (Ok o, s').
Proof.
  assert (requests ended = ∅) as Hnone by (by vm_compute). split; [exact Hnone|].
  destruct (serving_blocks (E := EncoderCacheManager.t) (C := Z) (Q := Q) false KVCacheDemo.spec_full false cfg true full_wf I I grammar_ready None 6 2 true empty manager
              (EncoderCacheManager.create 8) None ended) as (m & _ & _ & _ & _ & _ & Hfree & Hnext).
  - by vm_compute.
  - exact good.
  - done.
  - apply EncoderAccounts.inv_create; done.
  - done.
  - exact ended_reached.
  - split; [exact (Hfree Hnone)|exact Hnext].
Defined.
End ServingDemo.
