(* ===== verification/FailureDemo.v ===== *)
(** Failed loads at a concrete configuration: two requests share a block that a connector was
    to load. *)
From Stdlib Require Import QArith.
From stdpp Require Import gmap gmultiset strings.
From S2P Require Export ServingDemo.
From stdpp Require Import options.
Open Scope Z_scope.

Module FailureDemo.
Import SchedRequest Scheduler SchedulerInv SchedulerResult SchedulerCalls FailedLoads SchedulerFailure SchedulerTrace KVContract SchedulerDemo ServingDemo.

(** The connector finds two tokens of the first prompt; the second one finds their block in
    the prefix cache, and the connector finds its third token. *)
Definition first : Request := request "one" [21; 22; 23] [].
Definition second : Request := request "two" [21; 22; 24; 25] [].
Definition third : Request := request "three" [21; 22; 26] [].

Definition start : state := create empty manager (EncoderCacheManager.create 8) (Some 0).
Definition queued : state := (add_request_ (B := CacheBlocks.t) second (add_request_ (B := CacheBlocks.t) first start).2).2.
Definition step : state := (scheduled queued).2.

(** Block 1, of the first two tokens, was not loaded. *)
Definition reported (recompute : bool) : result (list (Z * list EngineCoreOutput)) * state :=
  update_from_output_ cfg recompute (output_of queued) (ran []) {[1]} step.
Definition recomputing : state := (reported true).2.
Definition failed : state := (reported false).2.

Definition computed_in (s : state) (id : string) : option Z := num_computed_tokens <$> requests s !! id.

(** The first request computes its block again, and the second one counts on it; or both
    end, and their blocks are free. *)
Example failed_block :
  (held_by step "one" = Some [[1; 2]] ∧ held_by step "two" = Some [[1; 3]] ∧ computed_in step "one" = Some 3 ∧ computed_in step "two" = Some 4)
  ∧ (computed_in recomputing "one" = Some 0 ∧ computed_in recomputing "two" = Some 3
     ∧ num_scheduled_tokens (output_of recomputing) = [("one", 3); ("two", 1)]%string)
  ∧ requests failed = ∅ ∧ BlockPool.get_num_free_blocks (Serving.blocks_of failed) = 5.
Proof. vm_compute. split_and!; reflexivity. Qed.

Lemma step_scannable id : id ∈ ["one"; "two"]%string → scannable (B := CacheBlocks.t) step id.
Proof.
  intros Hid. assert (id = "one"%string ∨ id = "two"%string) as [-> | ->] by (apply elem_of_cons in Hid as [->|Hid%list_elem_of_singleton]; [by left|by right]).
  all: eexists _, _; split; [by vm_compute|]; split; [done|by vm_compute].
Qed.


(** *** A step with failed loads *)

Lemma added_text id prompt (s : state) :
  requests s !! id = None → 0 < zlen prompt < 12 → inv cfg None s →
  inv cfg None (add_request_ (B := CacheBlocks.t) (request id prompt []) s).2.
Proof.
  intros Hno Hlen Hi. assert (new_request (cfg := cfg) (has_cache_item := None) (request id prompt [])) as Hnew.
  { apply request_new; [|lia]. split; [by apply EncoderDemo.sized_checked|]. split; [constructor|]. by intros i j f g _ [= ]. }
  destruct (add_runs _ s _ Hi Hnew Hno) as ([] & s' & Hrun & Hi' & _). by rewrite Hrun.
Qed.

Lemma loading_inv : inv cfg None queued.
Proof.
  destruct (create_state KVCacheDemo.spec_full false 12 full_wf 6 2 true manager ltac:(by vm_compute)) as (Hm & Hready & _).
  unfold queued, first, second. apply added_text; [by vm_compute|done|]. apply added_text; [by vm_compute|done|].
  apply new_scheduler_inv; [exact good|done|exact Hm|exact Hready|apply EncoderAccounts.inv_create; done|].
  intros x [= <-]. done.
Qed.

Lemma step_scheduled : scheduled queued = (Ok (output_of queued), step) ∧ finish_requests (B := CacheBlocks.t) [] FINISHED_ABORTED step = (Ok [], step).
Proof. by vm_compute. Qed.

Lemma step_report : report_ok (cfg := cfg) (B := CacheBlocks.t) {[1]} step.
Proof.
  intros id r [_ Hid]%failed_ids_elem Hr. assert (running step = ["one"; "two"]%string) as Hrun by (by vm_compute). rewrite Hrun in Hid.
  apply elem_of_cons in Hid as [->|Hid%list_elem_of_singleton]; [|rewrite Hid in Hr]; vm_compute in Hr; injection Hr as <-; vm_compute; done.
Qed.

Example failed_step_keeps_promises_witness : inv cfg None recomputing.
Proof.
  pose proof (failed_step_keeps_promises (K := KVCacheManager.t) (B := CacheBlocks.t) (E := EncoderCacheManager.t) (C := Z) (Q := Q)
              cfg true grammar_ready None empty [] FINISHED_ABORTED {[1]} queued good loading_inv eq_refl (NoDup_nil_2) eq_refl
              (manager_one_group _ _ _ _ _ _ _) ltac:(by left)) as H1.
  pose proof (runs_run _ _ _ _ _ H1 (proj1 step_scheduled)) as H2. pose proof (runs_run _ _ _ _ _ H2 (proj2 step_scheduled)) as [_ Hstep].
  destruct (Hstep (ran [])) as (res & s' & Hu & Hi & _); [exact step_report|by apply sampled_checked; vm_compute|].
  unfold recomputing, reported. rewrite Hu. exact Hi.
Defined.

(** *** A block that was never loaded *)

(** Both requests are aborted before they compute the block again. *)
Definition aborted : state := (finish_requests (B := CacheBlocks.t) ["one"; "two"]%string FINISHED_ABORTED recomputing).2.

(** The block keeps its hash: the next request with the same prompt counts its tokens as
    computed, though no worker has written them.  Without recomputation the block is evicted,
    and the next request finds nothing. *)
Example failed_block_is_found :
  requests aborted = ∅
  ∧ (kv_get_computed_blocks third (kv aborted)).1 = Ok (CacheBlocks.Blocks [[1]], 2)
  ∧ (kv_get_computed_blocks third (kv failed)).1 = Ok (CacheBlocks.EmptyBlocks, 0).
Proof. vm_compute. split_and!; reflexivity. Qed.
End FailureDemo.
