(* ===== verification/OffloadTransfer.v ===== *)
(** [vllm/v1/kv_offload/worker/cpu_gpu.py]: which blocks of the GPU's and of the CPU's memory
    a transfer copies into which, and the transfers of one direction in their order; and the
    registry of [worker.py] that sends a transfer to its direction.

    The copies themselves are those of the kernel [swap_blocks].  Streams and events are not
    modelled, but what they are used for: a transfer runs behind the one submitted before it,
    at any time, and is over when its end event has fired. *)
From stdpp Require Import gmap strings.
From S2P Require Export Runs OrderedDict.
From stdpp Require Import options.
Open Scope Z_scope.

(** ** Media and transfers ([mediums.py], [TransferSpec], [TransferResult]) *)

Inductive LoadStoreSpec := GPULoadStoreSpec (block_ids : list Z) | CPULoadStoreSpec (block_ids : list Z).

Definition medium (s : LoadStoreSpec) : string := match s with GPULoadStoreSpec _ => "GPU" | CPULoadStoreSpec _ => "CPU" end.
Definition block_ids (s : LoadStoreSpec) : list Z := match s with GPULoadStoreSpec l | CPULoadStoreSpec l => l end.

Definition TransferSpec : Type := LoadStoreSpec * LoadStoreSpec.
Definition transfer_type (s : TransferSpec) : string * string := (medium s.1, medium s.2).

(** The time that a transfer took is left out. *)
Record TransferResult := Result { result_job_id : Z; success : bool; transfer_size : Z; result_type : string * string }.

(** ** [expand_block_ids] *)

(** [output[i:j] = values] on a one-dimensional array. *)
Definition np_assign (output : list Z) (i j : Z) (values : list Z) : result (list Z) :=
  let n := Z.of_nat (length output) in
  let lo := clip n i in
  let hi := Z.max lo (clip n j) in
  let put l := Ok (take (Z.to_nat lo) output ++ l ++ drop (Z.to_nat hi) output) in
  if zlen values =? hi - lo then put values
  else match values with [v] => put (replicate (Z.to_nat (hi - lo)) v) | _ => Raise ValueError end.

(** The loop: the first block without its first [skip_count] parts. *)
Fixpoint expand_loop (block_size_factor skip_count : Z) (blocks : list Z) (output_idx : Z) (output : list Z) : result (list Z) :=
  match blocks with
  | [] => Ok output
  | block_id :: blocks =>
      let indices := seqZ skip_count (block_size_factor - skip_count) in
      let output_end_idx := output_idx + zlen indices in
      let! output := np_assign output output_idx output_end_idx (Z.add (block_id * block_size_factor) <$> indices) in
      expand_loop block_size_factor 0 blocks output_end_idx output
  end.

Definition expand_block_ids (blocks : list Z) (block_size_factor : Z) (output : list Z) (skip_count : Z) : result (list Z) :=
  let! _ := rassert (skip_count <? block_size_factor) in
  expand_loop block_size_factor skip_count blocks 0 output.

(** The parts of the blocks, in order. *)
Definition parts (factor : Z) (blocks : list Z) : list Z := blocks ≫= λ b, Z.add (b * factor) <$> seqZ 0 factor.

Example expand_example : expand_block_ids [0; 1; 3] 4 (replicate 12 7) 0 = Ok [0; 1; 2; 3; 4; 5; 6; 7; 12; 13; 14; 15].
Proof. reflexivity. Qed.

Lemma parts_cons f b l : parts f (b :: l) = (Z.add (b * f) <$> seqZ 0 f) ++ parts f l.
Proof. done. Qed.

Lemma parts_zlen f l : 0 ≤ f → zlen (parts f l) = zlen l * f.
Proof.
  intros Hf. induction l as [|b l IH]; [done|]. rewrite parts_cons, zlen_app, IH, zlen_cons, zlen_fmap. unfold zlen at 1. rewrite length_seqZ. lia.
Qed.

Lemma elem_of_parts f l i : 0 < f → i ∈ parts f l ↔ i `div` f ∈ l.
Proof.
  intros Hf. unfold parts. rewrite list_elem_of_bind. split.
  - intros (b & Hi & Hb). apply list_elem_of_fmap in Hi as (k & -> & Hk%elem_of_seqZ). rewrite Z.div_add_l, (Z.div_small k f) by lia. by rewrite Z.add_0_r.
  - intros Hi. exists (i `div` f). split; [|done]. apply list_elem_of_fmap. exists (i `mod` f). split; [pose proof (Z.div_mod i f); lia|].
    apply elem_of_seqZ. pose proof (Z.mod_pos_bound i f Hf). lia.
Qed.

Lemma NoDup_parts f l : 0 < f → NoDup l → NoDup (parts f l).
Proof.
  intros Hf. induction 1 as [|b l Hb Hnd IH]; [constructor|]. rewrite parts_cons. apply NoDup_app. split; [|split; [|done]].
  - apply NoDup_fmap_2; [intros x y ?; lia|apply NoDup_seqZ].
  - intros i (k & -> & Hk%elem_of_seqZ)%list_elem_of_fmap Hi. apply elem_of_parts in Hi; [|done].
    rewrite Z.div_add_l, (Z.div_small k f), Z.add_0_r in Hi by lia. done.
Qed.

(** Part [k] of the block at index [i]. *)
Lemma lookup_parts f l (i : nat) k b : 0 < f → 0 ≤ k < f → l !! i = Some b → parts f l !! Z.to_nat (Z.of_nat i * f + k) = Some (b * f + k).
Proof.
  intros Hf Hk. revert i. induction l as [|x l IH]; intros i Hi; [done|]. rewrite parts_cons. destruct i as [|i].
  - simpl in Hi. injection Hi as <-. rewrite lookup_app_l by (rewrite length_fmap, length_seqZ; lia). rewrite list_lookup_fmap.
    replace (Z.to_nat _) with (Z.to_nat k) by lia. rewrite (proj2 (lookup_seqZ 0 f (Z.to_nat k) k)) by lia. done.
  - simpl in Hi. rewrite lookup_app_r by (rewrite length_fmap, length_seqZ; nia). rewrite length_fmap, length_seqZ.
    replace (Z.to_nat _ - _)%nat with (Z.to_nat (Z.of_nat i * f + k)) by nia. by apply IH.
Qed.

Lemma np_assign_exact pre old post vs :
  length old = length vs → np_assign (pre ++ old ++ post) (zlen pre) (zlen pre + zlen vs) vs = Ok (pre ++ vs ++ post).
Proof.
  intros Hl. unfold np_assign, clip. pose proof (zlen_nonneg pre). pose proof (zlen_nonneg vs).
  assert (Z.of_nat (length (pre ++ old ++ post)) = zlen pre + zlen vs + zlen post) as -> by (unfold zlen; rewrite !length_app; lia).
  pose proof (zlen_nonneg post). rewrite !(proj2 (Z.ltb_ge _ 0)) by lia. rewrite !Z.min_l, Z.max_r by lia.
  rewrite (proj2 (Z.eqb_eq (zlen vs) _)) by lia. f_equal. f_equal; [|f_equal].
  - unfold zlen. by rewrite Nat2Z.id, take_app_length.
  - replace (Z.to_nat (zlen pre + zlen vs)) with (length pre + length old)%nat by (unfold zlen in *; lia).
    by rewrite <- drop_drop, drop_app_length, drop_app_length.
Qed.

Lemma expand_loop_spec f skip l pre rest :
  0 ≤ skip ≤ f → l ≠ [] ∨ skip = 0 → zlen rest = zlen (parts f l) - skip →
  expand_loop f skip l (zlen pre) (pre ++ rest) = Ok (pre ++ drop (Z.to_nat skip) (parts f l)).
Proof.
  revert skip pre rest. induction l as [|b l IH]; intros skip pre rest Hs Hne Hr.
  { destruct Hne as [?| ->]; [done|]. apply zlen_nil_inv in Hr as ->. done. }
  simpl. rewrite parts_cons in *. set (vs := Z.add (b * f) <$> seqZ skip (f - skip)).
  assert (zlen vs = f - skip) as Hv by (unfold vs; rewrite zlen_fmap; unfold zlen; rewrite length_seqZ; lia).
  assert (drop (Z.to_nat skip) ((Z.add (b * f) <$> seqZ 0 f) ++ parts f l) = vs ++ parts f l) as ->.
  { rewrite drop_app_le by (rewrite length_fmap, length_seqZ; lia). f_equal. unfold vs. rewrite <- fmap_drop. f_equal.
    replace f with (skip + (f - skip)) at 1 by lia. rewrite seqZ_app by lia. rewrite drop_app_length' by (rewrite length_seqZ; lia). f_equal. }
  rewrite zlen_app, zlen_fmap in Hr. replace (zlen (seqZ 0 f)) with f in Hr by (unfold zlen; rewrite length_seqZ; lia).
  pose proof (zlen_nonneg (parts f l)). rewrite <- (take_drop (Z.to_nat (f - skip)) rest).
  assert (length (take (Z.to_nat (f - skip)) rest) = length vs) as Hlen by (rewrite length_take; unfold zlen in *; lia).
  replace (zlen (seqZ skip (f - skip))) with (zlen vs) by (unfold vs; by rewrite zlen_fmap).
  rewrite np_assign_exact by done. simpl. rewrite app_assoc. replace (zlen pre + zlen vs) with (zlen (pre ++ vs)) by apply zlen_app.
  rewrite (IH 0 (pre ++ vs)); [by rewrite drop_0, <- app_assoc|lia|by right|].
  unfold zlen in *. rewrite length_drop. lia.
Qed.

(** The output is exactly filled with the parts of the blocks, the skipped ones left out. *)
Lemma expand_spec l f output skip :
  0 ≤ skip < f → zlen output = zlen l * f - skip → expand_block_ids l f output skip = Ok (drop (Z.to_nat skip) (parts f l)).
Proof.
  intros Hs Ho. unfold expand_block_ids. rewrite (proj2 (Z.ltb_lt _ _)) by lia. simpl.
  apply (expand_loop_spec f skip l [] output); [lia| |by rewrite parts_zlen by lia].
  destruct l; [right|by left]. pose proof (zlen_nonneg output). change (zlen []) with 0 in Ho. lia.
Qed.

(** ** Memory *)

(** The contents of the parts of both memories, over all tensors. *)
Record Memory (D : Type) := Mem { gpu : Z → D; cpu : Z → D }.
Arguments Mem {D} gpu cpu.
Arguments gpu {D} _ _.
Arguments cpu {D} _ _.

Section copies.
Context {D : Type}.

Definition write (dst : Z → D) (i : Z) (v : D) : Z → D := λ j, if decide (j = i) then v else dst j.

(** [swap_blocks] of [csrc/cache_kernels.cu], between two different memories. *)
Definition swap_blocks (src dst : Z → D) (src_to_dst : list (Z * Z)) : Z → D :=
  foldl (λ dst x, write dst x.2 (src x.1)) dst src_to_dst.

Definition copy (gpu_to_cpu : bool) (src_to_dst : list (Z * Z)) (m : Memory D) : Memory D :=
  if gpu_to_cpu then Mem (gpu m) (swap_blocks (gpu m) (cpu m) src_to_dst)
  else Mem (swap_blocks (cpu m) (gpu m) src_to_dst) (cpu m).
End copies.

(** *** What a copy writes *)
Section swap.
Context {D : Type}.

Lemma swap_blocks_other (src dst : Z → D) l j : j ∉ l.*2 → swap_blocks src dst l j = dst j.
Proof.
  revert dst. induction l as [|[a b] l IH]; intros dst Hj; [done|]. simpl in Hj. apply not_elem_of_cons in Hj as [Hb Hj].
  change (swap_blocks src (write dst b (src a)) l j = dst j). rewrite IH by done. unfold write. by rewrite decide_False.
Qed.

Lemma swap_blocks_at (src dst : Z → D) l i j : NoDup l.*2 → (i, j) ∈ l → swap_blocks src dst l j = src i.
Proof.
  revert dst. induction l as [|[a b] l IH]; intros dst Hnd Hin; [by apply elem_of_nil in Hin|].
  simpl in Hnd. apply NoDup_cons in Hnd as [Hb Hnd]. simpl. apply elem_of_cons in Hin as [[= -> ->]|Hin].
  - change (swap_blocks src (write dst b (src a)) l b = src a). rewrite swap_blocks_other by done. unfold write. by rewrite decide_True.
  - by apply (IH (write dst b (src a))).
Qed.
End swap.

(** ** One direction ([SingleDirectionOffloadingHandler]) *)
Module Handler.

Record Transfer := MkTransfer { job_id : Z; num_bytes : Z; src_to_dst : list (Z * Z) }.

(** The transfers that were submitted and not reported; the end events of the first [fired]
    have fired. *)
Record t := Hd {
  src_block_size_factor : Z;
  dst_block_size_factor : Z;
  total_block_size_in_bytes : Z;
  gpu_to_cpu : bool;
  transfer_events : gset Z;
  transfers : list Transfer;
  fired : nat
}.

Definition set_transfers (events : gset Z) (l : list Transfer) (n : nat) (h : t) : t :=
  Hd (src_block_size_factor h) (dst_block_size_factor h) (total_block_size_in_bytes h) (gpu_to_cpu h) events l n.

(** [__init__] with the bytes of a kernel block in each source tensor. *)
Definition create (src_strides : list Z) (num_dst_tensors : Z) (is_cuda : bool) (src_factor dst_factor : Z) : result t :=
  let! _ := rassert (zlen src_strides =? num_dst_tensors) in
  let min_factor := Z.min src_factor dst_factor in
  let! s := py_div src_factor min_factor in
  let! d := py_div dst_factor min_factor in
  let! _ := rassert (0 <? zlen src_strides) in
  Ok (Hd s d (foldr Z.add 0 ((λ b, b * min_factor) <$> src_strides)) is_cuda ∅ [] 0).

(** The source and destination parts of a transfer; [np_empty] is the content of a new array. *)
Definition mapping (np_empty : Z → list Z) (spec : TransferSpec) (h : t) : result (list (Z * Z)) :=
  let src := block_ids spec.1 in
  let dst := block_ids spec.2 in
  let src_count := zlen src * src_block_size_factor h in
  let dst_count := zlen dst * dst_block_size_factor h in
  let! skip := py_mod (- zlen dst) (src_block_size_factor h) in
  let! _ := rassert (dst_count =? src_count - skip) in
  let! l := expand_block_ids src (src_block_size_factor h) (np_empty dst_count) skip in
  let! r := expand_block_ids dst (dst_block_size_factor h) (np_empty dst_count) 0 in
  Ok (zip l r).

Definition transfer_async (np_empty : Z → list Z) (id : Z) (spec : TransferSpec) : py t bool :=
  let* h := get_st in
  let* l := lift (mapping np_empty spec h) in
  modify (set_transfers ({[id]} ∪ transfer_events h)
            (transfers h ++ [MkTransfer id (zlen (block_ids spec.2) * dst_block_size_factor h * total_block_size_in_bytes h) l]) (fired h)) ;;;
  ret true.

Definition handler_type (h : t) : string * string := if gpu_to_cpu h then ("GPU", "CPU")%string else ("CPU", "GPU")%string.

(** [get_finished], with as much fuel as there are transfers. *)
Fixpoint finished_loop (n : nat) : py t (list TransferResult) :=
  match n with
  | O => ret []
  | Datatypes.S n =>
      let* h := get_st in
      match transfers h, fired h with
      | x :: rest, Datatypes.S k =>
          let r := Result (job_id x) true (num_bytes x) (handler_type h) in
          modify (set_transfers (transfer_events h) rest k) ;;;
          (if decide (job_id x ∈ transfer_events h) then modify (set_transfers (transfer_events h ∖ {[job_id x]}) rest k) else raise KeyError) ;;;
          let* rs := finished_loop n in
          ret (r :: rs)
      | _, _ => ret []
      end
  end.

Definition get_finished : py t (list TransferResult) := λ h, finished_loop (length (transfers h)) h.

(** The device runs the next transfer, if there is one. *)
Definition run_next {D} (x : t * Memory D) : t * Memory D :=
  let '(h, m) := x in
  match transfers h !! fired h with
  | None => (h, m)
  | Some x => (set_transfers (transfer_events h) (transfers h) (Datatypes.S (fired h)) h, copy (gpu_to_cpu h) (src_to_dst x) m)
  end.

Fixpoint run_times {D} (n : nat) (x : t * Memory D) : t * Memory D :=
  match n with O => x | Datatypes.S n => run_times n (run_next x) end.

(** [event.synchronize()]: the device runs the transfers up to the last one under this id,
    whose event the dictionary holds. *)
Fixpoint last_index (id : Z) (l : list Transfer) : nat :=
  match l with
  | [] => 0
  | x :: l => match last_index id l with O => if decide (job_id x = id) then 1 else 0 | n => Datatypes.S n end
  end.

Definition wait_one {D} (id : Z) (x : t * Memory D) : t * Memory D :=
  if decide (id ∈ transfer_events x.1) then run_times (last_index id (transfers x.1) - fired x.1) x else x.

Definition wait {D} (job_ids : list Z) (x : t * Memory D) : t * Memory D := foldl (λ x id, wait_one id x) x job_ids.
End Handler.

(** ** Both directions ([CpuGpuOffloadingHandlers]) *)

(** A KV block consists of kernel blocks, whose size is found from the tensors' shapes; the
    CPU's tensors have as many as their blocks need. *)
Definition create_handlers (gpu_block_size cpu_block_size kernel_block_size : Z) (gpu_strides cpu_strides : list Z) : result (Handler.t * Handler.t) :=
  let! _ := rassert (0 <? zlen gpu_strides) in
  let! r := py_mod cpu_block_size gpu_block_size in
  let! _ := rassert (r =? 0) in
  let! r := py_mod gpu_block_size kernel_block_size in
  let! _ := rassert (r =? 0) in
  let! cpu_factor := py_div cpu_block_size kernel_block_size in
  let! gpu_factor := py_div gpu_block_size kernel_block_size in
  let! store := Handler.create gpu_strides (zlen cpu_strides) true gpu_factor cpu_factor in
  let! load := Handler.create cpu_strides (zlen gpu_strides) false cpu_factor gpu_factor in
  Ok (store, load).

(** ** The registry of directions ([OffloadingWorker]) *)
Module OffloadingWorker.
Section worker.
Context {D : Type} (np_empty : Z → list Z).

(** The handlers, in the order of their registration, and the memory they work on. *)
Record t := Wk { handlers : list ((string * string) * Handler.t); memory : Memory D }.

Definition create (m : Memory D) : t := Wk [] m.

Definition register_handler (src_medium dst_medium : string) (h : Handler.t) : py t unit :=
  let* w := get_st in
  passert (negb (od_mem (src_medium, dst_medium) (handlers w))) ;;;
  modify (λ w, Wk (handlers w ++ [((src_medium, dst_medium), h)]) (memory w)).

(** An exception of the handler counts as a failure. *)
Definition transfer_async (id : Z) (spec : TransferSpec) : py t bool :=
  let* w := get_st in
  match od_get (transfer_type spec) (handlers w) with
  | None => raise AssertionError
  | Some h =>
      let '(r, h') := Handler.transfer_async np_empty id spec h in
      modify (λ w, Wk (od_set (transfer_type spec) h' (handlers w)) (memory w)) ;;;
      ret (match r with Ok b => b | Raise _ => false end)
  end.

Fixpoint finished_of (keys : list (string * string)) : py t (list TransferResult) :=
  match keys with
  | [] => ret []
  | k :: keys =>
      let* w := get_st in
      let* h := lift (of_option KeyError (od_get k (handlers w))) in
      let '(r, h') := Handler.get_finished h in
      modify (λ w, Wk (od_set k h' (handlers w)) (memory w)) ;;;
      let* rs := lift r in
      let* more := finished_of keys in
      ret (rs ++ more)
  end.

Definition get_finished : py t (list TransferResult) := λ w, finished_of (od_keys (handlers w)) w.

(** The device runs the next transfer of a direction. *)
Definition on_device (k : string * string) (f : Handler.t * Memory D → Handler.t * Memory D) (w : t) : t :=
  match od_get k (handlers w) with
  | None => w
  | Some h => let '(h', m') := f (h, memory w) in Wk (od_set k h' (handlers w)) m'
  end.

Definition run_next (k : string * string) : t → t := on_device k Handler.run_next.

Definition wait (job_ids : list Z) : py t unit :=
  modify (λ w, foldl (λ w k, on_device k (Handler.wait job_ids) w) w (od_keys (handlers w))).
End worker.
Arguments t D : clear implicits.
End OffloadingWorker.

(** ** What the transfers of both directions copy *)
Section both.
Context (np_empty : Z → list Z) (np_empty_length : ∀ n, 0 ≤ n → zlen (np_empty n) = n).
Context (f : Z) (f_pos : 0 < f).

(** The handlers of blocks that consist of [f] blocks of the GPU. *)
Definition stores (h : Handler.t) : Prop := Handler.src_block_size_factor h = 1 ∧ Handler.dst_block_size_factor h = f ∧ Handler.gpu_to_cpu h = true.
Definition loads (h : Handler.t) : Prop := Handler.src_block_size_factor h = f ∧ Handler.dst_block_size_factor h = 1 ∧ Handler.gpu_to_cpu h = false.

Lemma parts_1 l : parts 1 l = l.
Proof. induction l as [|b l IH]; [done|]. rewrite parts_cons, IH. simpl. f_equal. lia. Qed.

(** [f] is how many blocks of the GPU one of the CPU holds, whatever the kernel's blocks. *)
Lemma create_handlers_factors gpu_bs kernel_bs gs cs store load :
  0 < kernel_bs → 0 < gpu_bs → create_handlers gpu_bs (f * gpu_bs) kernel_bs gs cs = Ok (store, load) → stores store ∧ loads load.
Proof using f_pos.
  intros Hk Hg Hc. unfold create_handlers in Hc. apply rbind_ok in Hc as ([] & _ & Hc). apply rbind_ok in Hc as (r0 & _ & Hc). apply rbind_ok in Hc as ([] & _ & Hc).
  apply rbind_ok in Hc as (r & Hr & Hc). apply rbind_ok in Hc as ([] & H0 & Hc). unfold py_mod in Hr. rewrite (proj2 (Z.eqb_neq kernel_bs 0)) in Hr by lia.
  injection Hr as Hm. assert (r = 0) as Hr0 by (unfold rassert in H0; destruct (Z.eqb_spec r 0) as [|Hn]; [done|discriminate]).
  clear H0. rewrite Hr0 in Hm. apply rbind_ok in Hc as (cf & Hcf & Hc). apply rbind_ok in Hc as (gf & Hgf & Hc). unfold py_div in Hcf, Hgf.
  rewrite (proj2 (Z.eqb_neq kernel_bs 0)) in Hcf, Hgf by lia. injection Hcf as <-. injection Hgf as <-.
  pose proof (Z.div_mod gpu_bs kernel_bs ltac:(lia)) as Hdm. set (g := gpu_bs `div` kernel_bs) in *. assert (0 < g) by nia.
  assert ((f * gpu_bs) `div` kernel_bs = f * g) as Hd by (replace (f * gpu_bs) with (f * g * kernel_bs) by nia; apply Z.div_mul; lia).
  rewrite Hd in Hc. assert (∀ l n c a b h, Handler.create l n c a b = Ok h → 0 < Z.min a b →
    Handler.src_block_size_factor h = a `div` Z.min a b ∧ Handler.dst_block_size_factor h = b `div` Z.min a b ∧ Handler.gpu_to_cpu h = c) as Hcreate.
  { intros l n c a b h Hh Hmin. unfold Handler.create in Hh. apply rbind_ok in Hh as ([] & _ & Hh). unfold py_div in Hh.
    rewrite !(proj2 (Z.eqb_neq (Z.min a b) 0)) in Hh by lia. simpl in Hh. apply rbind_ok in Hh as ([] & _ & Hh). by injection Hh as <-. }
  apply rbind_ok in Hc as (s & Hs & Hc). apply rbind_ok in Hc as (l & Hl & Hc). injection Hc as <- <-.
  apply Hcreate in Hs as (Hs1 & Hs2 & Hs3); [|nia]. apply Hcreate in Hl as (Hl1 & Hl2 & Hl3); [|nia].
  rewrite Z.min_l in Hs1, Hs2 by nia. rewrite Z.min_r in Hl1, Hl2 by nia. rewrite Z.div_same in Hs1, Hl2 by lia. rewrite Z.div_mul in Hs2, Hl1 by lia. done.
Qed.

(** A store of blocks into places: all parts of the places are written, in order. *)
Lemma store_mapping h src ps :
  stores h → zlen src = zlen ps * f → Handler.mapping np_empty (GPULoadStoreSpec src, CPULoadStoreSpec ps) h = Ok (zip src (parts f ps)).
Proof using All.
  intros (H1 & H2 & _) Hl. unfold Handler.mapping. simpl. rewrite H1, H2. unfold py_mod. simpl.
  rewrite Z.mod_1_r, Z.mul_1_r, Z.sub_0_r, (proj2 (Z.eqb_eq _ _)) by lia. simpl.
  pose proof (zlen_nonneg ps). rewrite (expand_spec src 1 _ 0) by (rewrite ?np_empty_length by nia; lia). simpl.
  rewrite (expand_spec ps f _ 0) by (rewrite ?np_empty_length by nia; lia). simpl. by rewrite !drop_0, parts_1.
Qed.

(** A load into blocks: from the last parts of the places, as many as the blocks. *)
Lemma load_mapping h ps dst skip :
  loads h → 0 ≤ skip < f → zlen dst = zlen ps * f - skip →
  Handler.mapping np_empty (CPULoadStoreSpec ps, GPULoadStoreSpec dst) h = Ok (zip (drop (Z.to_nat skip) (parts f ps)) dst).
Proof using All.
  intros (H1 & H2 & _) Hs Hl. unfold Handler.mapping. simpl. rewrite H1, H2. unfold py_mod. rewrite (proj2 (Z.eqb_neq f 0)) by lia. simpl.
  assert ((- zlen dst) `mod` f = skip) as ->. { rewrite Hl. replace (- (zlen ps * f - skip)) with (skip + (- zlen ps) * f) by lia. rewrite Z.mod_add by lia. by apply Z.mod_small. }
  rewrite (proj2 (Z.eqb_eq _ _)) by lia. simpl. pose proof (zlen_nonneg dst). rewrite (expand_spec ps f _ skip) by (rewrite ?np_empty_length by lia; lia). simpl.
  rewrite (expand_spec dst 1 _ 0) by (rewrite ?np_empty_length by lia; lia). simpl. by rewrite drop_0, parts_1.
Qed.

(** *** The round trip *)
Section contents.
Context {D : Type}.

Lemma zip_lookup (A B : Type) (l : list A) (k : list B) i a b : l !! i = Some a → k !! i = Some b → (a, b) ∈ zip l k.
Proof. intros Ha Hb. apply list_elem_of_lookup. exists i. apply lookup_zip_with_Some. by exists a, b. Qed.

(** What a store writes, part by part. *)
Lemma store_copy src ps (m : Memory D) :
  NoDup ps → zlen src = zlen ps * f →
  let m' := copy true (zip src (parts f ps)) m in
  gpu m' = gpu m ∧ (∀ i, i ∉ parts f ps → cpu m' i = cpu m i)
  ∧ ∀ (n : nat) i b, parts f ps !! n = Some i → src !! n = Some b → cpu m' i = gpu m b.
Proof using f_pos.
  intros Hnd Hl m'. assert ((zip src (parts f ps)).*2 = parts f ps) as Hs.
  { apply snd_zip. assert (zlen (parts f ps) = zlen ps * f) as Hp by (apply parts_zlen; lia). unfold zlen in *. lia. }
  split; [done|]. split.
  - intros i Hi. simpl. apply swap_blocks_other. by rewrite Hs.
  - intros n i b Hi Hb. simpl. apply swap_blocks_at; [rewrite Hs; by apply NoDup_parts|by apply (zip_lookup _ _ _ _ n)].
Qed.

(** What a load writes, block by block. *)
Lemma load_copy ps dst skip (m : Memory D) :
  NoDup dst → 0 ≤ skip < f → zlen dst = zlen ps * f - skip →
  let m' := copy false (zip (drop (Z.to_nat skip) (parts f ps)) dst) m in
  cpu m' = cpu m ∧ (∀ d, d ∉ dst → gpu m' d = gpu m d)
  ∧ ∀ (n : nat) i d, parts f ps !! (Z.to_nat skip + n)%nat = Some i → dst !! n = Some d → gpu m' d = cpu m i.
Proof using f_pos.
  intros Hnd Hs Hl m'. set (l := zip _ dst) in m'. assert (l.*2 = dst) as Hd.
  { apply snd_zip. assert (zlen (parts f ps) = zlen ps * f) as Hp by (apply parts_zlen; lia). unfold zlen in *. rewrite length_drop. lia. }
  split; [done|]. split.
  - intros d Hin. simpl. apply swap_blocks_other. by rewrite Hd.
  - intros n i d Hi Hn. simpl. apply swap_blocks_at; [by rewrite Hd|]. apply (zip_lookup _ _ _ _ n); [by rewrite lookup_drop|done].
Qed.

(** Blocks that are stored and loaded again are those that were stored: with the handlers of
    the CPU's and the GPU's tensors, whatever the kernel's block size, a transfer of blocks of
    the GPU into places of the CPU's memory is accepted and touches nothing but these places; as
    long as these keep their content, a transfer from them into other blocks of the GPU is
    accepted, even when it leaves out the first blocks of the first place, gives each of these
    blocks the content that the corresponding block had, and touches nothing else. *)
Theorem stored_blocks_load_back gpu_bs kernel_bs gs cs store load src ps skip dst (m : Memory D) :
  0 < kernel_bs → 0 < gpu_bs → create_handlers gpu_bs (f * gpu_bs) kernel_bs gs cs = Ok (store, load) →
  NoDup ps → zlen src = zlen ps * f → 0 ≤ skip < f → NoDup dst → zlen dst = zlen src - skip →
  ∃ s l, Handler.mapping np_empty (GPULoadStoreSpec src, CPULoadStoreSpec ps) store = Ok s
  ∧ Handler.mapping np_empty (CPULoadStoreSpec ps, GPULoadStoreSpec dst) load = Ok l
  ∧ let stored := copy (Handler.gpu_to_cpu store) s m in
    gpu stored = gpu m ∧ (∀ i, i `div` f ∉ ps → cpu stored i = cpu m i)
  ∧ ∀ m', (∀ i, i `div` f ∈ ps → cpu m' i = cpu stored i) →
      let loaded := copy (Handler.gpu_to_cpu load) l m' in
      cpu loaded = cpu m' ∧ (∀ d, d ∉ dst → gpu loaded d = gpu m' d)
      ∧ ∀ (n : nat) d, dst !! n = Some d → ∃ b, src !! (Z.to_nat skip + n)%nat = Some b ∧ gpu loaded d = gpu m b.
Proof using All.
  intros Hk Hg Hc Hps Hsrc Hs Hdst Hl. destruct (create_handlers_factors _ _ _ _ _ _ Hk Hg Hc) as [Hst Hld].
  pose proof Hst as (_ & _ & ->). pose proof Hld as (_ & _ & ->). eexists _, _. split; [by apply store_mapping|]. split; [apply (load_mapping _ _ _ skip); [done|done|lia]|].
  destruct (store_copy src ps m Hps Hsrc) as (H1 & H2 & H3). split; [done|]. split; [intros i Hi; apply H2; by rewrite elem_of_parts|].
  intros m' Hm'. destruct (load_copy ps dst skip m' Hdst Hs ltac:(lia)) as (H4 & H5 & H6). split; [done|]. split; [done|].
  intros n d Hn. assert (Z.of_nat n < zlen dst) as Hlt by (apply lookup_lt_Some in Hn; unfold zlen; lia).
  assert (zlen (parts f ps) = zlen ps * f) as Hpl by (apply parts_zlen; lia).
  destruct (lookup_lt_is_Some_2 src (Z.to_nat skip + n)) as [b Hb]; [unfold zlen in *; lia|].
  destruct (lookup_lt_is_Some_2 (parts f ps) (Z.to_nat skip + n)) as [i Hi]; [unfold zlen in *; lia|].
  exists b. split; [done|]. rewrite (H6 n i d Hi Hn), Hm', (H3 _ i b Hi Hb); [done|]. apply (elem_of_parts f ps i f_pos). by apply list_elem_of_lookup_2 in Hi.
Qed.
End contents.
End both.

(** ** An example *)
Module TransferDemo.

(** A new array holds what the memory held. *)
Definition np_empty (n : Z) : list Z := replicate (Z.to_nat n) 7.

Lemma np_empty_length n : 0 ≤ n → zlen (np_empty n) = n.
Proof. intros Hn. unfold np_empty, zlen. rewrite length_replicate. lia. Qed.

(** Blocks of the CPU of three blocks of the GPU, each of two kernel blocks of two tensors. *)
Definition both : Handler.t * Handler.t :=
  match create_handlers 32 96 16 [64; 64] [64; 64] with Ok x => x | Raise _ => (Handler.Hd 0 0 0 true ∅ [] 0, Handler.Hd 0 0 0 true ∅ [] 0) end.

Definition before : Memory Z := Mem (λ b, 100 + b) (λ _, 0).

(** Two blocks are stored and come back without their first part. *)
Lemma stored_blocks_load_back_witness :
  ∃ s l, Handler.mapping np_empty (GPULoadStoreSpec [4; 2; 9; 5; 1; 8], CPULoadStoreSpec [3; 0]) both.1 = Ok s
  ∧ Handler.mapping np_empty (CPULoadStoreSpec [3; 0], GPULoadStoreSpec [10; 11; 12; 13; 14]) both.2 = Ok l
  ∧ gpu (copy false l (copy true s before)) 10 = 102 ∧ gpu (copy false l (copy true s before)) 14 = 108.
Proof.
  destruct (stored_blocks_load_back np_empty np_empty_length 3 ltac:(lia) 32 16 [64; 64] [64; 64] both.1 both.2 [4; 2; 9; 5; 1; 8] [3; 0] 1 [10; 11; 12; 13; 14] before)
    as (s & l & Hs & Hl & H); [lia|lia|reflexivity|by apply (bool_decide_unpack _)|reflexivity|lia|by apply (bool_decide_unpack _)|reflexivity|].
  exists s, l. split; [done|]. split; [done|]. destruct H as (_ & _ & H). destruct (H _ (λ i _, eq_refl)) as (_ & _ & Hg).
  split.
  - destruct (Hg 0%nat 10 eq_refl) as (b & [= <-] & Hb). exact Hb.
  - destruct (Hg 4%nat 14 eq_refl) as (b & [= <-] & Hb). exact Hb.
Defined.
End TransferDemo.
