(* ===== verification/OffloadWorker.v ===== *)
(** The workers' side of the offloading connector ([OffloadingConnectorWorker] of
    [offloading_connector.py]): it turns the transfers of a step into jobs, defers the stores
    to the next step, and reports the requests whose transfers are over. *)
From stdpp Require Import gmap strings.
From S2P Require Export OffloadTransfer.
From stdpp Require Import options.
Open Scope Z_scope.

(** [OffloadingConnectorMetadata] *)
Record OffloadingConnectorMetadata := Metadata { reqs_to_load : list (string * TransferSpec); reqs_to_store : list (string * TransferSpec) }.

Module ConnectorWorker.
Section worker.
Context {D : Type} (np_empty : Z → list Z).

(** Of a job: its request, and whether it is a store. *)
Record t := W {
  worker : OffloadingWorker.t D;
  job_counter : Z;
  jobs : gmap Z (string * bool);
  load_job : gmap string Z;
  store_jobs : gmap string (gset Z);
  unsubmitted_store_jobs : list (Z * TransferSpec);
  finished_reqs_waiting_for_store : gset string
}.

Definition create (w : OffloadingWorker.t D) : t := W w 0 ∅ ∅ ∅ [] ∅.

Definition set_worker (x : OffloadingWorker.t D) (w : t) : t :=
  W x (job_counter w) (jobs w) (load_job w) (store_jobs w) (unsubmitted_store_jobs w) (finished_reqs_waiting_for_store w).
Definition set_jobs (x : gmap Z (string * bool)) (w : t) : t :=
  W (worker w) (job_counter w) x (load_job w) (store_jobs w) (unsubmitted_store_jobs w) (finished_reqs_waiting_for_store w).
Definition set_load_job (x : gmap string Z) (w : t) : t :=
  W (worker w) (job_counter w) (jobs w) x (store_jobs w) (unsubmitted_store_jobs w) (finished_reqs_waiting_for_store w).
Definition set_store_jobs (x : gmap string (gset Z)) (w : t) : t :=
  W (worker w) (job_counter w) (jobs w) (load_job w) x (unsubmitted_store_jobs w) (finished_reqs_waiting_for_store w).
Definition set_unsubmitted (x : list (Z * TransferSpec)) (w : t) : t :=
  W (worker w) (job_counter w) (jobs w) (load_job w) (store_jobs w) x (finished_reqs_waiting_for_store w).
Definition set_waiting (x : gset string) (w : t) : t :=
  W (worker w) (job_counter w) (jobs w) (load_job w) (store_jobs w) (unsubmitted_store_jobs w) x.

Definition on_worker {A} (f : py (OffloadingWorker.t D) A) : py t A := λ w,
  let '(a, x) := f (worker w) in (a, set_worker x w).

Definition generate_job_id : py t Z :=
  let* w := get_st in
  modify (λ w, W (worker w) (job_counter w + 1) (jobs w) (load_job w) (store_jobs w) (unsubmitted_store_jobs w) (finished_reqs_waiting_for_store w)) ;;;
  ret (job_counter w).

Definition submit (x : Z * TransferSpec) : py t unit :=
  let* success := on_worker (OffloadingWorker.transfer_async np_empty x.1 x.2) in
  passert success.

(** The loop with which both methods begin. *)
Definition submit_stores : py t unit :=
  let* w := get_st in
  for_each (unsubmitted_store_jobs w) submit ;;;
  modify (set_unsubmitted []).

Definition handle_preemptions (preempted_req_ids : list string) : py t unit :=
  submit_stores ;;;
  for_each preempted_req_ids (λ req_id,
    let* w := get_st in
    match store_jobs w !! req_id with
    | None => ret tt
    | Some job_ids => if decide (job_ids = ∅) then ret tt else on_worker (OffloadingWorker.wait (elements job_ids))
    end).

Definition start_load (x : string * TransferSpec) : py t unit :=
  let* job_id := generate_job_id in
  modify (λ w, set_jobs (<[job_id := (x.1, false)]> (jobs w)) w) ;;;
  let* w := get_st in
  passert (bool_decide (load_job w !! x.1 = None)) ;;;
  modify (λ w, set_load_job (<[x.1 := job_id]> (load_job w)) w) ;;;
  submit (job_id, x.2).

Definition start_kv_transfers (metadata : OffloadingConnectorMetadata) : py t unit :=
  submit_stores ;;;
  for_each (reqs_to_load metadata) start_load.

Definition prepare_store (x : string * TransferSpec) : py t unit :=
  let* job_id := generate_job_id in
  modify (λ w, set_jobs (<[job_id := (x.1, true)]> (jobs w)) w) ;;;
  modify (λ w, set_store_jobs (<[x.1 := {[job_id]} ∪ default ∅ (store_jobs w !! x.1)]> (store_jobs w)) w) ;;;
  modify (λ w, set_unsubmitted (unsubmitted_store_jobs w ++ [(job_id, x.2)]) w).

Definition prepare_store_kv (metadata : OffloadingConnectorMetadata) : py t unit := for_each (reqs_to_store metadata) prepare_store.

(** The turn of [get_finished] for a transfer that is over; the pair holds the requests that
    finished sending and receiving. *)
Definition finish_store (job_id : Z) (req_id : string) (acc : gset string * gset string) : py t (gset string * gset string) :=
  let* w := get_st in
  let req_jobs := default ∅ (store_jobs w !! req_id) in
  modify (set_store_jobs (<[req_id := req_jobs]> (store_jobs w))) ;;;
  (if decide (job_id ∈ req_jobs) then ret tt else raise KeyError) ;;;
  modify (set_store_jobs (<[req_id := req_jobs ∖ {[job_id]}]> (store_jobs w))) ;;;
  if decide (req_jobs ∖ {[job_id]} ≠ ∅) then ret acc
  else if decide (req_id ∈ finished_reqs_waiting_for_store w) then
    modify (λ w, set_waiting (finished_reqs_waiting_for_store w ∖ {[req_id]}) w) ;;;
    modify (λ w, set_store_jobs (delete req_id (store_jobs w)) w) ;;;
    ret ({[req_id]} ∪ acc.1, acc.2)
  else ret acc.

Definition finish_load (job_id : Z) (req_id : string) (acc : gset string * gset string) : py t (gset string * gset string) :=
  let* w := get_st in
  let* req_job := lift (of_option KeyError (load_job w !! req_id)) in
  passert (job_id =? req_job) ;;;
  modify (set_load_job (delete req_id (load_job w))) ;;;
  ret (acc.1, {[req_id]} ∪ acc.2).

Definition finish_transfer (acc : gset string * gset string) (r : TransferResult) : py t (gset string * gset string) :=
  passert (success r) ;;;
  let* w := get_st in
  let* (req_id, store) := lift (of_option KeyError (jobs w !! result_job_id r)) in
  modify (set_jobs (delete (result_job_id r) (jobs w))) ;;;
  if store : bool then finish_store (result_job_id r) req_id acc else finish_load (result_job_id r) req_id acc.

Fixpoint finish_transfers (acc : gset string * gset string) (rs : list TransferResult) : py t (gset string * gset string) :=
  match rs with
  | [] => ret acc
  | r :: rs => let* acc := finish_transfer acc r in finish_transfers acc rs
  end.

(** A request that ended: it waits for its stores, if there are any. *)
Fixpoint finish_requests (acc : gset string * gset string) (finished_req_ids : list string) : py t (gset string * gset string) :=
  match finished_req_ids with
  | [] => ret acc
  | req_id :: finished_req_ids =>
      let* w := get_st in
      let* acc :=
        match store_jobs w !! req_id with
        | None => ret acc
        | Some pending =>
            if decide (pending ≠ ∅) then
              modify (λ w, set_waiting ({[req_id]} ∪ finished_reqs_waiting_for_store w) w) ;;; ret acc
            else
              modify (λ w, set_store_jobs (delete req_id (store_jobs w)) w) ;;; ret ({[req_id]} ∪ acc.1, acc.2)
        end in
      finish_requests acc finished_req_ids
  end.

Definition get_finished (finished_req_ids : list string) : py t (gset string * gset string) :=
  let* rs := on_worker OffloadingWorker.get_finished in
  let* acc := finish_transfers (∅, ∅) rs in
  finish_requests acc finished_req_ids.
End worker.
Arguments t D : clear implicits.
End ConnectorWorker.

(** A statement whose outcome is known. *)
Lemma runs_ok {S A B} (m : py S A) (k : A → py S B) s a s' (Q : B → S → Prop) : m s = (Ok a, s') → runs (k a) s' Q → runs (bind m k) s Q.
Proof. intros Hm (b & s'' & Hk & HQ). exists b, s''. by rewrite (bind_run _ _ _ _ _ Hm). Qed.

(** ** The jobs of a worker *)
Module WorkerJobs.
Import Handler ConnectorWorker.

Section jobs.
Context {D : Type} (f : Z).

Abbreviation worker_t := (ConnectorWorker.t D).
Implicit Types w : worker_t.

Abbreviation GC := ("GPU"%string, "CPU"%string).
Abbreviation CG := ("CPU"%string, "GPU"%string).

Definition handlers_of (hs hl : Handler.t) : list ((string * string) * Handler.t) := [(GC, hs); (CG, hl)].

(** A store of a whole number of blocks. *)
Definition store_spec_ok (spec : TransferSpec) : Prop := ∃ src ps, spec = (GPULoadStoreSpec src, CPULoadStoreSpec ps) ∧ zlen src = zlen ps * f.

Definition ids (h : Handler.t) : list Z := job_id <$> transfers h.

(** The queue of a direction. *)
Record queue_ok (h : Handler.t) : Prop := {
  q_events : transfer_events h = list_to_set (ids h);
  q_fired : (fired h ≤ length (transfers h))%nat
}.

(** The worker with its two directions: the jobs are the transfers that were not reported,
    and the tables per request list them. *)
Record rep w (hs hl : Handler.t) : Prop := {
  rep_handlers : OffloadingWorker.handlers (worker w) = handlers_of hs hl;
  rep_stores : stores f hs;
  rep_loads : loads f hl;
  rep_store_queue : queue_ok hs;
  rep_load_queue : queue_ok hl;
  rep_specs : ∀ x, x ∈ unsubmitted_store_jobs w → store_spec_ok x.2;
  rep_nodup : NoDup ((unsubmitted_store_jobs w).*1 ++ ids hs ++ ids hl);
  rep_store_owner : ∀ j, j ∈ (unsubmitted_store_jobs w).*1 ++ ids hs ↔ ∃ r, jobs w !! j = Some (r, true);
  rep_load_owner : ∀ j, j ∈ ids hl ↔ ∃ r, jobs w !! j = Some (r, false);
  rep_counter : ∀ j, is_Some (jobs w !! j) → j < job_counter w;
  rep_load_job : ∀ r j, load_job w !! r = Some j ↔ jobs w !! j = Some (r, false);
  rep_store_jobs : ∀ r j, j ∈ default ∅ (store_jobs w !! r) ↔ jobs w !! j = Some (r, true);
  rep_waiting : ∀ r, r ∈ finished_reqs_waiting_for_store w → default ∅ (store_jobs w !! r) ≠ ∅
}.

(** What a job still has to copy. *)
Definition pending (h : Handler.t) : list (Z * list (Z * Z)) := (λ x, (job_id x, src_to_dst x)) <$> drop (fired h) (transfers h).

Definition deferred (x : Z * TransferSpec) : Z * list (Z * Z) := (x.1, zip (block_ids x.2.1) (parts f (block_ids x.2.2))).

(** All stores that are not over, in the order in which they will be run. *)
Definition pending_stores w (hs : Handler.t) : list (Z * list (Z * Z)) := pending hs ++ (deferred <$> unsubmitted_store_jobs w).

(** The transfers that are over, and not reported. *)
Definition over (h : Handler.t) : list (Z * list (Z * Z)) := (λ x, (job_id x, src_to_dst x)) <$> take (fired h) (transfers h).

(** *** Submission *)

Definition add_transfer (j bytes : Z) (l : list (Z * Z)) (h : Handler.t) : Handler.t :=
  set_transfers ({[j]} ∪ transfer_events h) (transfers h ++ [MkTransfer j bytes l]) (fired h) h.

Lemma add_ids j bytes l h : ids (add_transfer j bytes l h) = ids h ++ [j].
Proof. unfold ids. simpl. by rewrite fmap_app. Qed.

Lemma add_pending j bytes l h : queue_ok h → pending (add_transfer j bytes l h) = pending h ++ [(j, l)].
Proof. intros [_ Hf]. unfold pending. simpl. by rewrite drop_app_le, fmap_app by done. Qed.

Lemma add_over j bytes l h : queue_ok h → over (add_transfer j bytes l h) = over h.
Proof. intros [_ Hf]. unfold over. simpl. by rewrite take_app_le by done. Qed.

Lemma add_queue j bytes l h : queue_ok h → queue_ok (add_transfer j bytes l h).
Proof.
  intros [He Hf]. split; [|simpl; rewrite length_app; simpl; lia].
  rewrite add_ids. simpl. rewrite He, list_to_set_app_L. simpl. set_solver.
Qed.

Context (np_empty : Z → list Z) (np_empty_length : ∀ n, 0 ≤ n → zlen (np_empty n) = n) (f_pos : 0 < f).

Lemma submit_store w hs hl j src ps :
  OffloadingWorker.handlers (worker w) = handlers_of hs hl → stores f hs → zlen src = zlen ps * f →
  ∃ bytes, submit np_empty (j, (GPULoadStoreSpec src, CPULoadStoreSpec ps)) w =
    (Ok tt, set_worker (OffloadingWorker.Wk (handlers_of (add_transfer j bytes (zip src (parts f ps)) hs) hl) (OffloadingWorker.memory (worker w))) w).
Proof using All.
  intros Hh Hst Hl. eexists. unfold submit, bind, on_worker, OffloadingWorker.transfer_async. unfold bind at 1, get_st. rewrite Hh. simpl.
  unfold Handler.transfer_async, bind, get_st, lift. rewrite (store_mapping np_empty np_empty_length f f_pos hs src ps Hst Hl).
  unfold passert, lift, modify, ret. simpl. rewrite Hh. done.
Qed.

Lemma submit_load w hs hl j ps dst skip :
  OffloadingWorker.handlers (worker w) = handlers_of hs hl → loads f hl → 0 ≤ skip < f → zlen dst = zlen ps * f - skip →
  ∃ bytes, submit np_empty (j, (CPULoadStoreSpec ps, GPULoadStoreSpec dst)) w =
    (Ok tt, set_worker (OffloadingWorker.Wk (handlers_of hs (add_transfer j bytes (zip (drop (Z.to_nat skip) (parts f ps)) dst) hl)) (OffloadingWorker.memory (worker w))) w).
Proof using All.
  intros Hh Hld Hs Hl. eexists. unfold submit, bind, on_worker, OffloadingWorker.transfer_async. unfold bind at 1, get_st. rewrite Hh. simpl.
  unfold Handler.transfer_async, bind, get_st, lift. rewrite (load_mapping np_empty np_empty_length f f_pos hl ps dst skip Hld Hs Hl).
  unfold passert, lift, modify, ret. simpl. rewrite Hh. done.
Qed.
Lemma submit_all l w hs hl :
  OffloadingWorker.handlers (worker w) = handlers_of hs hl → stores f hs → queue_ok hs → (∀ x, x ∈ l → store_spec_ok x.2) →
  ∃ hs', for_each l (submit np_empty) w = (Ok tt, set_worker (OffloadingWorker.Wk (handlers_of hs' hl) (OffloadingWorker.memory (worker w))) w)
  ∧ stores f hs' ∧ queue_ok hs' ∧ ids hs' = ids hs ++ l.*1 ∧ pending hs' = pending hs ++ (deferred <$> l) ∧ over hs' = over hs.
Proof using All.
  revert w hs. induction l as [|[j spec] l IH]; intros w hs Hh Hst Hq Hl.
  { exists hs. rewrite <- Hh. destruct w as [[] ? ? ? ? ? ?]. simpl. by rewrite !app_nil_r. }
  destruct (Hl (j, spec)) as (src & ps & Hspec & Hlen); [by left|]. simpl in Hspec. subst spec. simpl.
  destruct (submit_store w hs hl j src ps Hh Hst Hlen) as [bytes Hs]. rewrite (bind_run _ _ _ _ _ Hs).
  set (hs1 := add_transfer j bytes _ hs) in *.
  destruct (IH (set_worker (OffloadingWorker.Wk (handlers_of hs1 hl) (OffloadingWorker.memory (worker w))) w) hs1) as (hs' & Hrun & H1 & H2 & H3 & H4 & H5);
    [done|done|by apply add_queue|intros x Hx; apply Hl; by right|].
  exists hs'. split; [exact Hrun|]. split; [done|]. split; [done|]. unfold hs1 in H3, H4, H5. rewrite add_ids in H3. rewrite add_pending in H4 by done. rewrite add_over in H5 by done.
  rewrite H3, H4, H5, <- !app_assoc. done.
Qed.

(** What two states of a worker share when the transfers of one went on. *)
Definition same_tables w w' : Prop :=
  job_counter w' = job_counter w ∧ jobs w' = jobs w ∧ load_job w' = load_job w ∧ store_jobs w' = store_jobs w
  ∧ finished_reqs_waiting_for_store w' = finished_reqs_waiting_for_store w.

Lemma rep_tables w w' hs hl hs' hl' :
  rep w hs hl → same_tables w w' → OffloadingWorker.handlers (worker w') = handlers_of hs' hl' → stores f hs' → loads f hl' → queue_ok hs' → queue_ok hl' →
  (∀ x, x ∈ unsubmitted_store_jobs w' → store_spec_ok x.2) → (unsubmitted_store_jobs w').*1 ++ ids hs' ≡ₚ (unsubmitted_store_jobs w).*1 ++ ids hs → ids hl' = ids hl → rep w' hs' hl'.
Proof.
  intros [] (E1 & E2 & E3 & E4 & E5) Hh Hst Hld Hqs Hql Hsp Hp Hl. split; rewrite ?E1, ?E2, ?E3, ?E4, ?E5, ?Hl; try done.
  - rewrite app_assoc, Hp, <- app_assoc. done.
  - intros j. by rewrite Hp.
Qed.

(** The deferred stores go to the queue in their order. *)
Lemma submit_stores_runs w hs hl :
  rep w hs hl → runs (submit_stores np_empty) w (λ _ w', ∃ hs', rep w' hs' hl ∧ same_tables w w' ∧ unsubmitted_store_jobs w' = []
    ∧ OffloadingWorker.memory (worker w') = OffloadingWorker.memory (worker w) ∧ pending_stores w' hs' = pending_stores w hs ∧ over hs' = over hs).
Proof using All.
  intros Hr. destruct (submit_all (unsubmitted_store_jobs w) w hs hl) as (hs' & Hrun & H1 & H2 & H3 & H4 & H5); [apply Hr..|].
  unfold submit_stores. runs_step. eexists tt, _. split; [rewrite (bind_run _ _ _ _ _ Hrun); done|].
  exists hs'. split; [|split; [done|split; [done|split; [done|split; [|done]]]]].
  - apply (rep_tables w _ hs hl); try done; try apply Hr; simpl; [by intros x ?%elem_of_nil|]. by rewrite H3, (comm (++)).
  - unfold pending_stores. simpl. by rewrite app_nil_r.
Qed.

(** *** The device *)

(** The transfers go on, in either direction. *)
Definition device_step w w' : Prop := ∃ k, w' = set_worker (OffloadingWorker.run_next k (worker w)) w.

#[local] Arguments Handler.run_next : simpl never.

Lemma next_over {E} (h : Handler.t) (m : Memory E) h' m' :
  Handler.run_next (h, m) = (h', m') → queue_ok h →
  queue_ok h' ∧ ids h' = ids h ∧ (∀ g, stores g h → stores g h') ∧ (∀ g, loads g h → loads g h')
  ∧ ((h' = h ∧ m' = m ∧ pending h = []) ∨ ∃ x, pending h = x :: pending h' ∧ over h' = over h ++ [x] ∧ m' = copy (gpu_to_cpu h) x.2 m).
Proof.
  intros Hn [He Hf]. unfold Handler.run_next in Hn. destruct (transfers h !! fired h) as [x|] eqn:Hx.
  - injection Hn as <- <-. pose proof (lookup_lt_Some _ _ _ Hx) as Hlt. split; [split; simpl; [done|lia]|].
    split; [done|]. split; [by intros g [? ?]|]. split; [by intros g [? ?]|]. right. exists (job_id x, src_to_dst x). unfold pending, over. simpl.
    rewrite (drop_S _ _ _ Hx). split; [done|]. split; [|done]. by rewrite (take_S_r _ _ _ Hx), fmap_app.
  - injection Hn as <- <-. split; [done|]. do 3 (split; [done|]). left. split; [done|]. split; [done|]. unfold pending. by rewrite drop_ge by (by apply lookup_ge_None).
Qed.

(** A step of the device: nothing happens, or the first store that is pending is run, or the first load. *)
Lemma device_cases w w' hs hl :
  rep w hs hl → device_step w w' →
  ∃ hs' hl', rep w' hs' hl' ∧ same_tables w w' ∧ unsubmitted_store_jobs w' = unsubmitted_store_jobs w
  ∧ ((hs' = hs ∧ hl' = hl ∧ worker w' = worker w)
     ∨ (∃ x, hl' = hl ∧ pending_stores w hs = x :: pending_stores w' hs' ∧ over hs' = over hs ++ [x]
          ∧ OffloadingWorker.memory (worker w') = copy true x.2 (OffloadingWorker.memory (worker w)))
     ∨ ∃ x, hs' = hs ∧ pending hl = x :: pending hl' ∧ over hl' = over hl ++ [x]
          ∧ OffloadingWorker.memory (worker w') = copy false x.2 (OffloadingWorker.memory (worker w))).
Proof.
  intros Hr [k ->]. unfold OffloadingWorker.run_next, OffloadingWorker.on_device. rewrite (rep_handlers _ _ _ Hr). unfold handlers_of. simpl.
  destruct (decide (k = GC)) as [->|Hk].
  - destruct (Handler.run_next (hs, OffloadingWorker.memory (worker w))) as [h' m'] eqn:Hn.
    destruct (next_over hs _ _ _ Hn (rep_store_queue _ _ _ Hr)) as (Hq & Hi & Hst & _ & Hcase). exists h', hl. split; [|split; [done|split; [done|]]].
    + eapply rep_tables; try done; try apply Hr; [apply Hst, Hr|]. simpl. by rewrite Hi.
    + destruct Hcase as [(-> & -> & _)|(x & Hp & Ho & ->)]; [left|right; left].
      * split; [done|]. split; [done|]. simpl. pose proof (rep_handlers _ _ _ Hr) as Hh. destruct (worker w). simpl in *. by rewrite Hh.
      * exists x. split; [done|]. split; [unfold pending_stores; by rewrite Hp|]. split; [done|]. destruct (rep_stores _ _ _ Hr) as (_ & _ & E). simpl. by rewrite E.
  - destruct (decide (k = CG)) as [->|Hk']; simpl.
    + destruct (Handler.run_next (hl, OffloadingWorker.memory (worker w))) as [h' m'] eqn:Hn.
      destruct (next_over hl _ _ _ Hn (rep_load_queue _ _ _ Hr)) as (Hq & Hi & _ & Hld & Hcase). exists hs, h'. split; [|split; [done|split; [done|]]].
      * eapply rep_tables; try done; try apply Hr. apply Hld, Hr.
      * destruct Hcase as [(-> & -> & _)|(x & Hp & Ho & ->)]; [left|right; right].
        -- split; [done|]. split; [done|]. simpl. pose proof (rep_handlers _ _ _ Hr) as Hh. destruct (worker w). simpl in *. by rewrite Hh.
        -- exists x. split; [done|]. split; [done|]. split; [done|]. destruct (rep_loads _ _ _ Hr) as (_ & _ & E). simpl. by rewrite E.
    + exists hs, hl. split; [by destruct w|]. split; [done|]. split; [done|]. left. done.
Qed.
(** *** Waiting *)

Lemma last_index_bound id (l : list Transfer) i x : l !! i = Some x → job_id x = id → (i < last_index id l)%nat.
Proof.
  revert i. induction l as [|y l IH]; intros i Hi Hid; [done|]. destruct i as [|i]; simpl.
  - injection Hi as ->. destruct (last_index id l); [|lia]. rewrite decide_True by done. lia.
  - specialize (IH i Hi Hid). destruct (last_index id l); lia.
Qed.

Lemma run_times_queue {E} n (h : Handler.t) (m : Memory E) :
  (fired h ≤ length (transfers h))%nat →
  let h' := (Handler.run_times n (h, m)).1 in
  transfers h' = transfers h ∧ transfer_events h' = transfer_events h ∧ fired h' = Nat.min (fired h + n) (length (transfers h)).
Proof.
  revert h m. induction n as [|n IH]; intros h m Hf; simpl; [split; [done|split; [done|lia]]|].
  unfold Handler.run_next. destruct (transfers h !! fired h) as [x|] eqn:Hx.
  - pose proof (lookup_lt_Some _ _ _ Hx). set (h1 := set_transfers _ _ _ h). destruct (IH h1 (copy (gpu_to_cpu h) (src_to_dst x) m)) as (-> & -> & ->); [simpl; lia|].
    split; [done|]. split; [done|]. unfold h1. cbn [fired transfers set_transfers]. f_equal. lia.
  - apply lookup_ge_None in Hx. destruct (IH h m Hf) as (-> & -> & ->). split; [done|]. split; [done|]. lia.
Qed.

Lemma run_times_types {E} n (h : Handler.t) (m : Memory E) :
  (∀ g, stores g h → stores g (Handler.run_times n (h, m)).1) ∧ (∀ g, loads g h → loads g (Handler.run_times n (h, m)).1).
Proof.
  revert h m. induction n as [|n IH]; intros h m; [done|]. simpl. unfold Handler.run_next. destruct (transfers h !! fired h) as [x|]; [|apply IH].
  destruct (IH (set_transfers (transfer_events h) (transfers h) (Datatypes.S (fired h)) h) (copy (gpu_to_cpu h) (src_to_dst x) m)) as [H1 H2].
  split; intros g [? ?]; [by apply H1|by apply H2].
Qed.

(** What waiting does to a direction: transfers are run, and those waited for are over. *)
Lemma wait_runs {E} l (h : Handler.t) (m : Memory E) :
  (fired h ≤ length (transfers h))%nat →
  (∃ n, Handler.wait l (h, m) = Handler.run_times n (h, m))
  ∧ let h' := (Handler.wait l (h, m)).1 in
    transfers h' = transfers h ∧ transfer_events h' = transfer_events h ∧ (fired h ≤ fired h' ≤ length (transfers h))%nat
    ∧ ∀ j, j ∈ l → j ∈ transfer_events h → (last_index j (transfers h) ≤ fired h')%nat ∨ (fired h' = length (transfers h)).
Proof.
  revert h m. induction l as [|j l IH]; intros h m Hf.
  { split; [by exists 0%nat|]. simpl. split; [done|]. split; [done|]. split; [lia|]. by intros j ?%elem_of_nil. }
  assert (∃ n, wait_one j (h, m) = Handler.run_times n (h, m) ∧ (j ∈ transfer_events h → n = (last_index j (transfers h) - fired h)%nat)) as (n & Hn & Hnj).
  { unfold wait_one. simpl. case_decide as Hj; [by exists (last_index j (transfers h) - fired h)%nat|by exists 0%nat]. }
  pose proof (run_times_queue n h m Hf) as (Ht & Hev & Hfd). rewrite <- Hn in Ht, Hev, Hfd. simpl. destruct (wait_one j (h, m)) as [h1 m1] eqn:E1. simpl in *.
  destruct (IH h1 m1) as [(n2 & Hn2) (Ht2 & He2 & Hf2 & Hl2)]; [rewrite Ht; lia|]. unfold Handler.wait in *. split.
  - exists (n + n2)%nat. rewrite Hn2, Hn. clear. revert h m. induction n as [|n IHn]; intros h m; [done|]. simpl. destruct (Handler.run_next (h, m)). apply IHn.
  - rewrite Ht2, He2, Ht, Hev. rewrite Ht in Hf2. split; [done|]. split; [done|]. split; [lia|].
    intros j' [->|Hj']%elem_of_cons Hin; [specialize (Hnj Hin); lia|]. rewrite <- Ht at 1 2. apply Hl2; [done|by rewrite Hev].
Qed.

Lemma waited_not_pending {E} l (h : Handler.t) (m : Memory E) j x :
  queue_ok h → j ∈ l → (j, x) ∈ pending (Handler.wait l (h, m)).1 → False.
Proof.
  intros [He Hf] Hj Hin. destruct (wait_runs l h m Hf) as [_ (Ht & _ & Hr & Hl)]. unfold pending in Hin. rewrite Ht in Hin.
  apply list_elem_of_fmap in Hin as (y & [= -> ->] & Hy). apply list_elem_of_lookup in Hy as [i Hi]. rewrite lookup_drop in Hi.
  pose proof (last_index_bound _ _ _ _ Hi eq_refl). pose proof (lookup_lt_Some _ _ _ Hi).
  destruct (Hl (job_id y) Hj) as [?|?]; [|lia|lia]. rewrite He, elem_of_list_to_set. apply list_elem_of_fmap. exists y. split; [done|]. by apply list_elem_of_lookup_2 in Hi.
Qed.

Lemma device_times (store : bool) n w hs hl h' m' :
  OffloadingWorker.handlers (worker w) = handlers_of hs hl →
  Handler.run_times n (if store then hs else hl, OffloadingWorker.memory (worker w)) = (h', m') →
  rtc device_step w (set_worker (OffloadingWorker.Wk (if store then handlers_of h' hl else handlers_of hs h') m') w).
Proof.
  revert w hs hl. induction n as [|n IH]; intros w hs hl Hh Hn; simpl in Hn.
  { injection Hn as <- <-. destruct w as [[] ? ? ? ? ? ?]. simpl in *. destruct store; rewrite <- Hh; apply rtc_refl. }
  destruct (Handler.run_next (if store then hs else hl, OffloadingWorker.memory (worker w))) as [h1 m1] eqn:E1.
  set (w1 := set_worker (OffloadingWorker.Wk (if store then handlers_of h1 hl else handlers_of hs h1) m1) w).
  apply (rtc_l _ _ w1).
  - exists (if store then GC else CG). unfold OffloadingWorker.run_next, OffloadingWorker.on_device. rewrite Hh. unfold w1, handlers_of.
    destruct store; cbn [od_get od_set]; [rewrite decide_True by done|rewrite decide_False by done; rewrite decide_True by done]; rewrite E1; [by rewrite decide_True|].
    by rewrite decide_False, decide_True by done.
  - destruct store; [by apply (IH w1 h1 hl)|by apply (IH w1 hs h1)].
Qed.

Lemma worker_wait l w hs hl :
  rep w hs hl → runs (on_worker (OffloadingWorker.wait l)) w (λ _ w', rtc device_step w w' ∧ ∃ hs' hl', rep w' hs' hl'
    ∧ same_tables w w' ∧ unsubmitted_store_jobs w' = unsubmitted_store_jobs w ∧ ∀ j x, j ∈ l → (j, x) ∉ pending hs').
Proof.
  intros Hr. pose proof (rep_store_queue _ _ _ Hr) as Hqs. pose proof (rep_load_queue _ _ _ Hr) as Hql.
  destruct (wait_runs l hs (OffloadingWorker.memory (worker w)) (q_fired _ Hqs)) as [(n1 & Hn1) (Ht1 & He1 & Hf1 & _)].
  destruct (Handler.wait l (hs, OffloadingWorker.memory (worker w))) as [hs' m1] eqn:E1. simpl in Ht1, He1, Hf1.
  destruct (wait_runs l hl m1 (q_fired _ Hql)) as [(n2 & Hn2) (Ht2 & He2 & Hf2 & _)].
  destruct (Handler.wait l (hl, m1)) as [hl' m2] eqn:E2. simpl in Ht2, He2, Hf2.
  set (w1 := set_worker (OffloadingWorker.Wk (handlers_of hs' hl) m1) w). set (w2 := set_worker (OffloadingWorker.Wk (handlers_of hs' hl') m2) w1).
  exists tt, w2. split.
  { unfold on_worker, OffloadingWorker.wait, modify. rewrite (rep_handlers _ _ _ Hr). unfold handlers_of. cbn [od_keys fmap list_fmap foldl fst].
    unfold OffloadingWorker.on_device at 2. rewrite (rep_handlers _ _ _ Hr). unfold handlers_of. cbn [od_get]. rewrite decide_True by done. rewrite E1.
    cbn [od_set]. rewrite decide_True by done. unfold OffloadingWorker.on_device. cbn [OffloadingWorker.handlers od_get OffloadingWorker.memory].
    rewrite decide_False, decide_True by done. rewrite E2. cbn [od_set]. by rewrite decide_False, decide_True by done. }
  split.
  - etrans; [apply (device_times true n1 w hs hl hs' m1); [apply Hr|done]|]. by apply (device_times false n2 w1 hs' hl hl' m2).
  - assert (∀ h h' : Handler.t, transfers h' = transfers h → ids h' = ids h) as Hids by (intros h h' E; unfold ids; by rewrite E).
    assert (stores f hs' ∧ loads f hl') as [Hst Hld].
    { destruct (run_times_types n1 hs (OffloadingWorker.memory (worker w))) as [H1 _]. destruct (run_times_types n2 hl m1) as [_ H2].
      rewrite <- Hn1 in H1. rewrite <- Hn2 in H2. split; [apply H1, Hr|apply H2, Hr]. }
    exists hs', hl'. split; [|split; [done|split; [done|]]].
    + apply (rep_tables w _ hs hl); try done; try apply Hr.
      * split; [rewrite (Hids _ _ Ht1), He1; apply Hqs|rewrite Ht1; lia].
      * split; [rewrite (Hids _ _ Ht2), He2; apply Hql|rewrite Ht2; lia].
      * simpl. by rewrite (Hids _ _ Ht1).
      * by apply Hids.
    + intros j x Hj Hin. apply (waited_not_pending l hs (OffloadingWorker.memory (worker w)) j x Hqs Hj). by rewrite E1.
Qed.

(** What the device runs only takes from what is pending. *)
Lemma device_run w w' hs hl :
  rep w hs hl → rtc device_step w w' →
  ∃ hs' hl', rep w' hs' hl' ∧ same_tables w w' ∧ unsubmitted_store_jobs w' = unsubmitted_store_jobs w
  ∧ ∀ x, x ∈ pending_stores w' hs' → x ∈ pending_stores w hs.
Proof.
  intros Hr Hd. revert hs hl Hr. induction Hd as [w|w w1 w2 Hs Hd IH]; intros hs hl Hr.
  { exists hs, hl. done. }
  destruct (device_cases w w1 hs hl Hr Hs) as (hs1 & hl1 & Hr1 & (T1 & T2 & T3 & T4 & T5) & Hu & Hcase).
  destruct (IH hs1 hl1 Hr1) as (hs2 & hl2 & Hr2 & (U1 & U2 & U3 & U4 & U5) & Hu2 & Hp). exists hs2, hl2. split; [done|].
  split; [unfold same_tables; by rewrite U1, U2, U3, U4, U5|]. split; [by rewrite Hu2|]. intros x Hx%Hp.
  destruct Hcase as [(-> & _)|[(y & _ & Hy & _)|(y & -> & _)]]; [|rewrite Hy; by right|]; unfold pending_stores in *; by rewrite Hu in Hx.
Qed.

(** All deferred stores are submitted, and those of the preempted requests are over. *)
Lemma handle_preemptions_runs l w hs hl :
  rep w hs hl → runs (handle_preemptions np_empty l) w (λ _ w', ∃ w1 hs1, rep w1 hs1 hl ∧ same_tables w w1 ∧ unsubmitted_store_jobs w1 = []
    ∧ OffloadingWorker.memory (worker w1) = OffloadingWorker.memory (worker w) ∧ pending_stores w1 hs1 = pending_stores w hs ∧ over hs1 = over hs
    ∧ rtc device_step w1 w' ∧ ∃ hs' hl', rep w' hs' hl' ∧ same_tables w w' ∧ unsubmitted_store_jobs w' = []
    ∧ ∀ r j x, r ∈ l → (j, x) ∈ pending_stores w' hs' → jobs w' !! j ≠ Some (r, true)).
Proof using All.
  intros Hr. unfold handle_preemptions. eapply runs_seq; [by apply submit_stores_runs|]. intros [] w1 (hs1 & Hr1 & Ht1 & Hu1 & Hm1 & Hp1 & Ho1).
  eapply runs_mono; [apply (runs_for_each (λ rest w', rtc device_step w1 w' ∧ ∃ hs' hl', rep w' hs' hl' ∧ same_tables w w' ∧ unsubmitted_store_jobs w' = []
    ∧ ∀ r j x, r ∈ l → r ∉ rest → (j, x) ∈ pending_stores w' hs' → jobs w' !! j ≠ Some (r, true)) l)|].
  - intros r rest w2 (Hd & hs2 & hl2 & Hr2 & Ht2 & Hu2 & Hdone). runs_step.
    assert (∀ r', r' ∈ l → r' ∉ rest → r' = r ∨ r' ∉ r :: rest) as Hsplit.
    { intros r' _ Hno. destruct (decide (r' = r)) as [|Hne]; [by left|right]. by apply not_elem_of_cons. }
    assert (default ∅ (store_jobs w2 !! r) = ∅ → rtc device_step w1 w2 ∧ ∃ hs' hl', rep w2 hs' hl' ∧ same_tables w w2 ∧ unsubmitted_store_jobs w2 = []
      ∧ ∀ r' j x, r' ∈ l → r' ∉ rest → (j, x) ∈ pending_stores w2 hs' → jobs w2 !! j ≠ Some (r', true)) as Hnone.
    { intros He. split; [done|]. exists hs2, hl2. do 3 (split; [done|]). intros r' j x Hl Hno Hin.
      destruct (Hsplit r' Hl Hno) as [->|Hn]; [|by eapply Hdone]. intros Hj%(rep_store_jobs _ _ _ Hr2). rewrite He in Hj. by apply elem_of_empty in Hj. }
    destruct (store_jobs w2 !! r) as [S|] eqn:HS; [case_decide as HSe|]; [subst S; runs_step; by apply Hnone| |runs_step; by apply Hnone].
    eapply runs_mono; [by apply (worker_wait (elements S) w2 hs2 hl2)|]. intros [] w3 (Hd3 & hs3 & hl3 & Hr3 & Ht3 & Hu3 & Hw).
    split; [by etrans|]. exists hs3, hl3. split; [done|]. split; [|split; [by rewrite Hu3|]].
    { destruct Ht2 as (T1 & T2 & T3 & T4 & T5). destruct Ht3 as (U1 & U2 & U3 & U4 & U5). unfold same_tables. by rewrite U1, U2, U3, U4, U5. }
    pose proof Ht3 as (_ & Hjobs & _). intros r' j x Hl Hno Hin. destruct (Hsplit r' Hl Hno) as [->|Hn].
    + rewrite Hjobs. intros Hj%(rep_store_jobs _ _ _ Hr2). rewrite HS in Hj. simpl in Hj. apply (Hw j x); [by apply elem_of_elements|].
      unfold pending_stores in Hin. by rewrite Hu3, Hu2, app_nil_r in Hin.
    + rewrite Hjobs. apply (Hdone r' j x Hl Hn). destruct (device_run w2 w3 hs2 hl2 Hr2 Hd3) as (hs4 & hl4 & Hr4 & _ & _ & Hsub). apply Hsub.
      pose proof (rep_handlers _ _ _ Hr3) as E3. rewrite (rep_handlers _ _ _ Hr4) in E3. by injection E3 as -> ->.
  - split; [apply rtc_refl|]. exists hs1, hl. do 3 (split; [done|]). intros r j x Hl Hno. done.
  - intros [] w' (Hd & hs' & hl' & Hr' & Ht' & Hu' & Hw). exists w1, hs1. do 7 (split; [done|]). exists hs', hl'. do 3 (split; [done|]).
    intros r j x Hl Hin. apply (Hw r j x Hl); [apply not_elem_of_nil|done].
Qed.

(** *** New jobs *)

Lemma start_load_runs r ps dst skip w hs hl :
  rep w hs hl → load_job w !! r = None → 0 ≤ skip < f → zlen dst = zlen ps * f - skip →
  runs (start_load np_empty (r, (CPULoadStoreSpec ps, GPULoadStoreSpec dst))) w (λ _ w', ∃ hl', rep w' hs hl'
    ∧ jobs w' = <[job_counter w := (r, false)]> (jobs w) ∧ load_job w' = <[r := job_counter w]> (load_job w) ∧ store_jobs w' = store_jobs w
    ∧ finished_reqs_waiting_for_store w' = finished_reqs_waiting_for_store w ∧ unsubmitted_store_jobs w' = unsubmitted_store_jobs w
    ∧ OffloadingWorker.memory (worker w') = OffloadingWorker.memory (worker w)
    ∧ pending hl' = pending hl ++ [(job_counter w, zip (drop (Z.to_nat skip) (parts f ps)) dst)] ∧ over hl' = over hl).
Proof using All.
  intros Hr Hno Hs Hl. unfold start_load. eapply runs_ok; [done|]. do 2 runs_step. apply runs_passert; [simpl; by apply bool_decide_eq_true_2|].
  runs_step. set (j := job_counter w). set (w1 := set_load_job _ _).
  destruct (submit_load w1 hs hl j ps dst skip) as [bytes Hsub]; [apply Hr|apply Hr|done|done|].
  eexists tt, _. split; [exact Hsub|]. assert (jobs w !! j = None) as Hfresh.
  { destruct (jobs w !! j) eqn:E; [|done]. pose proof (rep_counter _ _ _ Hr j ltac:(by eexists)) as Hlt. unfold j in Hlt. lia. }
  eexists. split; [|split; [done|]; split; [done|]; split; [done|]; split; [done|]; split; [done|]; split; [done|];
    split; [apply add_pending, Hr|apply add_over, Hr]].
  pose proof Hr as []. split; try done.
  - by apply add_queue.
  - simpl. rewrite add_ids, !app_assoc. apply NoDup_app. split; [by rewrite <- app_assoc|]. split; [|apply NoDup_singleton].
    intros x Hx ->%list_elem_of_singleton. rewrite <- app_assoc in Hx. rewrite app_assoc in Hx.
    apply elem_of_app in Hx as [Hx|Hx]; [apply rep_store_owner0 in Hx as [? Hx]|apply rep_load_owner0 in Hx as [? Hx]]; by rewrite Hfresh in Hx.
  - intros x. simpl. rewrite rep_store_owner0. split; intros [r' Hx]; exists r'; [rewrite lookup_insert_ne; [done|by intros <-; rewrite Hfresh in Hx]|].
    destruct (decide (x = j)) as [->|]; [by rewrite lookup_insert_eq in Hx|by rewrite lookup_insert_ne in Hx].
  - intros x. rewrite add_ids, elem_of_app, list_elem_of_singleton, rep_load_owner0. simpl. destruct (decide (x = j)) as [->|Hne].
    + rewrite lookup_insert_eq. split; [intros _; by eexists|by right].
    + rewrite lookup_insert_ne by done. tauto.
  - intros x. simpl. destruct (decide (x = j)) as [->|Hne]; [intros _; unfold j; lia|]. rewrite lookup_insert_ne by done. intros Hx%rep_counter0. lia.
  - intros r' x. simpl. destruct (decide (x = j)) as [->|Hne].
    + rewrite lookup_insert_eq. destruct (decide (r' = r)) as [->|Hn]; [by rewrite lookup_insert_eq|]. rewrite lookup_insert_ne by done.
      rewrite rep_load_job0, Hfresh. split; [done|congruence].
    + rewrite (lookup_insert_ne (jobs w)) by done. destruct (decide (r' = r)) as [->|Hn].
      * rewrite lookup_insert_eq. split; [congruence|]. intros Hx%rep_load_job0. by rewrite Hno in Hx.
      * rewrite lookup_insert_ne by done. apply rep_load_job0.
  - intros r' x. simpl. rewrite rep_store_jobs0. destruct (decide (x = j)) as [->|Hne]; [rewrite lookup_insert_eq, Hfresh; by split|by rewrite lookup_insert_ne].
Qed.

Lemma prepare_store_runs r spec w hs hl :
  rep w hs hl → store_spec_ok spec →
  runs (prepare_store (r, spec)) w (λ _ w', rep w' hs hl
    ∧ jobs w' = <[job_counter w := (r, true)]> (jobs w) ∧ load_job w' = load_job w
    ∧ finished_reqs_waiting_for_store w' = finished_reqs_waiting_for_store w ∧ worker w' = worker w
    ∧ pending_stores w' hs = pending_stores w hs ++ [deferred (job_counter w, spec)]
    ∧ ∀ r', is_Some (store_jobs w' !! r') ↔ r' = r ∨ is_Some (store_jobs w !! r')).
Proof.
  intros Hr Hspec. unfold prepare_store. eapply runs_ok; [done|]. do 2 runs_step. runs_step. set (j := job_counter w).
  assert (jobs w !! j = None) as Hfresh.
  { destruct (jobs w !! j) eqn:E; [|done]. pose proof (rep_counter _ _ _ Hr j ltac:(by eexists)) as Hlt. unfold j in Hlt. lia. }
  split; [|do 4 (split; [done|]); split; [unfold pending_stores; simpl; by rewrite fmap_app, app_assoc|]].
  - pose proof Hr as []. split; try done.
    + simpl. intros x [?| ->%list_elem_of_singleton]%elem_of_app; [by apply rep_specs0|done].
    + simpl. rewrite fmap_app, <- app_assoc. apply NoDup_app in rep_nodup0 as (H1 & H2 & H3). apply NoDup_app. split; [done|].
      assert (j ∉ (unsubmitted_store_jobs w).*1 ++ ids hs ++ ids hl) as Hno.
      { rewrite app_assoc, elem_of_app, rep_store_owner0, rep_load_owner0, Hfresh. by intros [[? ?]|[? ?]]. }
      rewrite elem_of_app in Hno. split; [|simpl; apply NoDup_cons; split; [|done]; tauto].
      intros x Hx [->|Hx']%elem_of_cons; [tauto|by apply (H2 x)].
    + intros x. simpl. rewrite fmap_app, !elem_of_app. simpl. rewrite list_elem_of_singleton. destruct (decide (x = j)) as [->|Hne].
      * rewrite lookup_insert_eq. split; [intros _; by eexists|by left; right].
      * rewrite lookup_insert_ne by done. rewrite <- rep_store_owner0, elem_of_app. tauto.
    + intros x. simpl. rewrite rep_load_owner0. destruct (decide (x = j)) as [->|Hne]; [|by rewrite lookup_insert_ne].
      rewrite lookup_insert_eq, Hfresh. by split; intros [? ?].
    + intros x. simpl. destruct (decide (x = j)) as [->|Hne]; [intros _; unfold j; lia|]. rewrite lookup_insert_ne by done. intros Hx%rep_counter0. lia.
    + intros r' x. simpl. rewrite rep_load_job0. destruct (decide (x = j)) as [->|Hne]; [rewrite lookup_insert_eq, Hfresh; by split|by rewrite lookup_insert_ne].
    + intros r' x. simpl. destruct (decide (r' = r)) as [->|Hn].
      * rewrite lookup_insert_eq. simpl. rewrite elem_of_union, elem_of_singleton, rep_store_jobs0. destruct (decide (x = j)) as [->|Hne].
        -- rewrite lookup_insert_eq. split; [done|by left].
        -- rewrite lookup_insert_ne by done. tauto.
      * rewrite (lookup_insert_ne (store_jobs w)) by done. rewrite rep_store_jobs0. destruct (decide (x = j)) as [->|Hne]; [|by rewrite lookup_insert_ne].
        rewrite lookup_insert_eq, Hfresh. split; [done|congruence].
    + intros r' Hw. simpl. destruct (decide (r' = r)) as [->|Hn]; [|rewrite lookup_insert_ne by done; by apply rep_waiting0].
      rewrite lookup_insert_eq. simpl. intros He. assert (j ∈ ({[j]} ∪ default ∅ (store_jobs w !! r) : gset Z)) as Hj by (apply elem_of_union; left; by apply elem_of_singleton).
      rewrite He in Hj. by apply elem_of_empty in Hj.
  - intros r'. simpl. destruct (decide (r' = r)) as [->|Hn]; [rewrite lookup_insert_eq; split; [by left|by eexists]|].
    rewrite lookup_insert_ne by done. tauto.
Qed.

(** *** Reports *)

(** What is left of the jobs of a request when those of [done] are reported. *)
Definition left_of (w : worker_t) (finished : list Z) (r : string) : gset Z := default ∅ (store_jobs w !! r) ∖ list_to_set finished.

(** The state of the loop over the transfers that are over. *)
Record reported (x : OffloadingWorker.t D) (w0 : worker_t) (finished : list Z) (acc : gset string * gset string) (w : worker_t) : Prop := {
  re_worker : worker w = x;
  re_counter : job_counter w = job_counter w0;
  re_unsubmitted : unsubmitted_store_jobs w = unsubmitted_store_jobs w0;
  re_jobs j : jobs w !! j = if decide (j ∈ finished) then None else jobs w0 !! j;
  re_load_job r j : load_job w !! r = Some j ↔ load_job w0 !! r = Some j ∧ j ∉ finished;
  re_store_jobs r : store_jobs w !! r =
    if decide (r ∈ finished_reqs_waiting_for_store w0 ∧ left_of w0 finished r = ∅) then None
    else (λ x, x ∖ list_to_set finished) <$> store_jobs w0 !! r;
  re_waiting r : r ∈ finished_reqs_waiting_for_store w ↔ r ∈ finished_reqs_waiting_for_store w0 ∧ left_of w0 finished r ≠ ∅;
  re_sending r : r ∈ acc.1 ↔ r ∈ finished_reqs_waiting_for_store w0 ∧ left_of w0 finished r = ∅;
  re_recving r : r ∈ acc.2 ↔ ∃ j, load_job w0 !! r = Some j ∧ j ∈ finished
}.

Lemma left_snoc w finished j r : left_of w (finished ++ [j]) r = left_of w finished r ∖ {[j]}.
Proof.
  unfold left_of. rewrite list_to_set_app_L. simpl. rewrite (right_id_L ∅ (∪)). apply set_eq. intros x.
  rewrite !elem_of_difference, elem_of_union. tauto.
Qed.

(** A job of another request changes nothing for [r]. *)
Lemma left_other w hs hl finished j r : rep w hs hl → jobs w !! j ≠ Some (r, true) → left_of w (finished ++ [j]) r = left_of w finished r.
Proof.
  intros Hr Hj. rewrite left_snoc. assert (j ∉ left_of w finished r) as Hno.
  { unfold left_of. rewrite elem_of_difference, (rep_store_jobs _ _ _ Hr). by intros [? _]. }
  apply set_eq. intros x. rewrite elem_of_difference, elem_of_singleton. split; [by intros [? _]|]. intros Hx. split; [done|]. by intros ->.
Qed.

Lemma store_jobs_other w hs hl finished j r :
  rep w hs hl → jobs w !! j ≠ Some (r, true) →
  (λ x : gset Z, x ∖ list_to_set (finished ++ [j])) <$> store_jobs w !! r = (λ x : gset Z, x ∖ list_to_set finished) <$> store_jobs w !! r.
Proof.
  intros Hr Hj. destruct (store_jobs w !! r) as [x|] eqn:Hx; [|done]. simpl. f_equal. pose proof (left_other w hs hl finished j r Hr Hj) as He.
  unfold left_of in He. rewrite Hx in He. exact He.
Qed.

Lemma delete_finished {A} (m m0 : gmap Z A) finished j :
  (∀ x, m !! x = if decide (x ∈ finished) then None else m0 !! x) → ∀ x, delete j m !! x = if decide (x ∈ finished ++ [j]) then None else m0 !! x.
Proof.
  intros Hm x. destruct (decide (x = j)) as [->|Hx].
  - rewrite lookup_delete_eq, decide_True; [done|]. apply elem_of_app. right. by left.
  - rewrite lookup_delete_ne, Hm by done. apply decide_ext. rewrite elem_of_app, list_elem_of_singleton. tauto.
Qed.

Lemma finish_load_runs x0 w0 hs hl finished acc w j r :
  rep w0 hs hl → reported x0 w0 finished acc w → j ∉ finished → jobs w0 !! j = Some (r, false) →
  runs (finish_load j r acc) (set_jobs (delete j (jobs w)) w) (λ acc' w', reported x0 w0 (finished ++ [j]) acc' w').
Proof.
  intros Hr [] Hno Hj. assert (load_job w0 !! r = Some j) as Hl0 by (by apply (rep_load_job _ _ _ Hr)).
  assert (load_job w !! r = Some j) as Hl by (by apply re_load_job0). assert (∀ r', jobs w0 !! j ≠ Some (r', true)) as Hne by (intros r'; by rewrite Hj).
  unfold finish_load. runs_step. apply (runs_lift _ j); [simpl; by rewrite Hl|]. apply runs_passert; [apply Z.eqb_refl|]. do 2 runs_step.
  split; simpl; try done; try (intros r'; by rewrite (left_other w0 hs hl finished j r' Hr (Hne r'))).
  - by apply delete_finished.
  - intros r' x. rewrite not_elem_of_app, list_elem_of_singleton. destruct (decide (r' = r)) as [->|Hn].
    + rewrite lookup_delete_eq. split; [done|]. intros (Hx & _ & Hxj). congruence.
    + rewrite lookup_delete_ne by done. rewrite re_load_job0. split; [|tauto]. intros [Hx Hxf]. split; [done|]. split; [done|]. intros ->.
      apply (rep_load_job _ _ _ Hr) in Hx. congruence.
  - intros r'. rewrite re_store_jobs0, (store_jobs_other w0 hs hl finished j r' Hr (Hne r')). apply decide_ext.
    by rewrite (left_other w0 hs hl finished j r' Hr (Hne r')).
  - intros r'. rewrite elem_of_union, elem_of_singleton, re_recving0. split.
    + intros [->|(x & Hx & Hf)]; [exists j|exists x]; (split; [done|]); rewrite elem_of_app, list_elem_of_singleton; tauto.
    + intros (x & Hx & [Hf|Hf%list_elem_of_singleton]%elem_of_app); [right; by exists x|]. left. subst x.
      apply (rep_load_job _ _ _ Hr) in Hx. congruence.
Qed.

Lemma finish_store_runs x0 w0 hs hl finished acc w j r :
  rep w0 hs hl → reported x0 w0 finished acc w → j ∉ finished → jobs w0 !! j = Some (r, true) →
  runs (finish_store j r acc) (set_jobs (delete j (jobs w)) w) (λ acc' w', reported x0 w0 (finished ++ [j]) acc' w').
Proof.
  intros Hr [] Hno Hj. pose proof (proj2 (rep_store_jobs _ _ _ Hr r j) Hj) as Hin.
  destruct (store_jobs w0 !! r) as [S0|] eqn:HS0; [|by apply elem_of_empty in Hin]. simpl in Hin.
  assert (left_of w0 finished r = S0 ∖ list_to_set finished) as HL by (unfold left_of; by rewrite HS0).
  assert (j ∈ left_of w0 finished r) as HjL by (rewrite HL, elem_of_difference, elem_of_list_to_set; by split).
  assert (store_jobs w !! r = Some (left_of w0 finished r)) as HS.
  { rewrite re_store_jobs0, HS0, decide_False; [by rewrite HL|]. intros [_ He]. rewrite He in HjL. by apply elem_of_empty in HjL. }
  assert (∀ r', r' ≠ r → jobs w0 !! j ≠ Some (r', true)) as Hne by (intros r' Hn; rewrite Hj; congruence).
  assert (∀ x, delete j (jobs w) !! x = if decide (x ∈ finished ++ [j]) then None else jobs w0 !! x) as Hjobs.
  { by apply delete_finished. }
  assert (∀ r' x, load_job w !! r' = Some x ↔ load_job w0 !! r' = Some x ∧ x ∉ finished ++ [j]) as Hload.
  { intros r' x. rewrite re_load_job0, not_elem_of_app, list_elem_of_singleton. split; [|tauto]. intros [Hx ?]. split; [done|]. split; [done|]. intros ->.
    apply (rep_load_job _ _ _ Hr) in Hx. congruence. }
  assert (∀ r', (∃ x, load_job w0 !! r' = Some x ∧ x ∈ finished) ↔ ∃ x, load_job w0 !! r' = Some x ∧ x ∈ finished ++ [j]) as Hrec.
  { intros r'. split; intros (x & Hx & Hf); exists x; (split; [done|]); [apply elem_of_app; by left|]. apply elem_of_app in Hf as [?|Hf%list_elem_of_singleton]; [done|].
    subst x. apply (rep_load_job _ _ _ Hr) in Hx. congruence. }
  unfold finish_store. runs_step. simpl. rewrite HS. simpl. runs_step. rewrite decide_True by done. do 2 runs_step.
  assert (∀ r', r' ≠ r → left_of w0 (finished ++ [j]) r' = left_of w0 finished r') as Hoth by (intros r' Hn; by apply (left_other _ hs hl), Hne).
  rewrite <- left_snoc. set (L := left_of w0 (finished ++ [j]) r).
  assert (L = S0 ∖ list_to_set (finished ++ [j])) as HL' by (unfold L, left_of; by rewrite HS0).
  assert (∀ r' : string, r' ≠ r → store_jobs w !! r' = if decide (r' ∈ finished_reqs_waiting_for_store w0 ∧ left_of w0 (finished ++ [j]) r' = ∅) then None
      else (λ x : gset Z, x ∖ list_to_set (finished ++ [j])) <$> store_jobs w0 !! r') as Hso.
  { intros r' Hn. rewrite re_store_jobs0, Hoth, (store_jobs_other _ _ _ _ _ _ Hr (Hne r' Hn)) by done. done. }
  case_decide as HLe; [|case_decide as Hw].
  - runs_step. split; simpl; try done.
    + intros r'. destruct (decide (r' = r)) as [->|Hn]; [|rewrite !lookup_insert_ne by done; by apply Hso].
      rewrite lookup_insert_eq, HS0, decide_False by tauto. simpl. by rewrite HL'.
    + intros r'. rewrite re_waiting0. destruct (decide (r' = r)) as [->|Hn]; [|by rewrite Hoth]. fold L. split; intros [? _]; (split; [done|]); [done|].
      intros He. rewrite He in HjL. by apply elem_of_empty in HjL.
    + intros r'. rewrite re_sending0. destruct (decide (r' = r)) as [->|Hn]; [|by rewrite Hoth]. fold L. split; intros [? He]; [rewrite He in HjL; by apply elem_of_empty in HjL|done].
    + intros r'. by rewrite re_recving0.
  - do 3 runs_step. assert (r ∈ finished_reqs_waiting_for_store w0) as Hw0 by (by apply re_waiting0 in Hw as [? _]). split; simpl; try done.
    + intros r'. destruct (decide (r' = r)) as [->|Hn]; [rewrite lookup_delete_eq, decide_True by done; done|].
      rewrite lookup_delete_ne by done. rewrite !lookup_insert_ne by done. by apply Hso.
    + intros r'. rewrite elem_of_difference, elem_of_singleton, re_waiting0. destruct (decide (r' = r)) as [->|Hn]; [fold L; tauto|]. rewrite Hoth by done. tauto.
    + intros r'. rewrite elem_of_union, elem_of_singleton, re_sending0. destruct (decide (r' = r)) as [->|Hn]; [fold L; tauto|]. rewrite Hoth by done. tauto.
    + intros r'. by rewrite re_recving0.
  - runs_step. assert (r ∉ finished_reqs_waiting_for_store w0) as Hw0.
    { intros Hin0. apply Hw. simpl. apply re_waiting0. split; [done|]. intros He. rewrite He in HjL. by apply elem_of_empty in HjL. }
    split; simpl; try done.
    + intros r'. destruct (decide (r' = r)) as [->|Hn]; [|rewrite !lookup_insert_ne by done; by apply Hso].
      rewrite lookup_insert_eq, HS0, decide_False by tauto. simpl. by rewrite HL'.
    + intros r'. rewrite re_waiting0. destruct (decide (r' = r)) as [->|Hn]; [tauto|by rewrite Hoth].
    + intros r'. rewrite re_sending0. destruct (decide (r' = r)) as [->|Hn]; [tauto|by rewrite Hoth].
    + intros r'. by rewrite re_recving0.
Qed.

Lemma finish_transfers_runs x0 w0 hs hl rs finished acc w :
  rep w0 hs hl → reported x0 w0 finished acc w → NoDup (finished ++ (result_job_id <$> rs)) → (∀ r, r ∈ rs → success r = true) →
  (∀ j, j ∈ result_job_id <$> rs → is_Some (jobs w0 !! j)) →
  runs (finish_transfers acc rs) w (λ acc' w', reported x0 w0 (finished ++ (result_job_id <$> rs)) acc' w').
Proof.
  intros Hr. revert finished acc w. induction rs as [|[j ok size ty] rs IH]; intros finished acc w Hre Hnd Hok Hj; cbn [finish_transfers].
  { runs_step. by rewrite app_nil_r. }
  rewrite fmap_cons in Hnd, Hj |- *. cbn [result_job_id] in *. assert (finished ++ j :: (result_job_id <$> rs) = (finished ++ [j]) ++ (result_job_id <$> rs)) as Happ by (by rewrite <- app_assoc).
  rewrite Happ. rewrite Happ in Hnd. pose proof (proj1 (NoDup_app _ _) Hnd) as (Hnd1 & _). apply NoDup_app in Hnd1 as (_ & Hnj & _).
  assert (j ∉ finished) as Hno by (intros Hin; apply (Hnj j Hin); by left). destruct (Hj j) as [[r b] Hjob]; [by left|].
  apply (runs_seq _ _ _ (λ acc' w', reported x0 w0 (finished ++ [j]) acc' w')).
  - unfold finish_transfer. apply runs_passert; [apply (Hok (Result j ok size ty)); by left|]. runs_step. simpl.
    apply (runs_lift _ (r, b)); [simpl; by rewrite (re_jobs _ _ _ _ _ Hre), decide_False, Hjob|]. runs_step.
    destruct b; [by apply (finish_store_runs x0 w0 hs hl)|by apply (finish_load_runs x0 w0 hs hl)].
  - intros acc' w' Hre'. apply IH; [done|done|intros y Hy; apply Hok; by right|intros y Hy; apply Hj; by right].
Qed.

Lemma finished_loop_runs (h : Handler.t) n :
  queue_ok h → NoDup (ids h) → n = length (transfers h) →
  ∃ rs h', Handler.finished_loop n h = (Ok rs, h') ∧ result_job_id <$> rs = (over h).*1 ∧ (∀ r, r ∈ rs → success r = true)
  ∧ queue_ok h' ∧ ids h = (over h).*1 ++ ids h' ∧ pending h' = pending h ∧ over h' = [] ∧ (∀ g, stores g h → stores g h') ∧ (∀ g, loads g h → loads g h').
Proof.
  revert h. induction n as [|n IH]; intros h Hq Hnd Hn.
  { exists [], h. assert (transfers h = []) as Ht by (by apply nil_length_inv). unfold over. simpl. rewrite Ht, take_nil. do 8 (split; [done || (by intros r ?%elem_of_nil)|]). done. }
  simpl. unfold bind at 1, get_st. destruct (transfers h) as [|x rest] eqn:Ht; [done|]. simpl in Hn. destruct (fired h) as [|k] eqn:Hf.
  { exists [], h. unfold over. rewrite Hf. do 8 (split; [done || (by intros r ?%elem_of_nil)|]). done. }
  destruct Hq as [He Hfl]. unfold ids in Hnd, He. rewrite Ht in Hnd, He. simpl in Hnd, He. apply NoDup_cons in Hnd as [Hx Hnd].
  set (h1 := set_transfers (transfer_events h ∖ {[job_id x]}) rest k h). destruct (IH h1) as (rs & h' & Hrun & Hids & Hok & Hq' & Hi & Hp & Ho & Hst & Hld); [|done|by injection Hn|].
  { split; [|rewrite Ht, Hf in Hfl; simpl in *; lia]. change (transfer_events h ∖ {[job_id x]} = list_to_set (job_id <$> rest)). rewrite He.
    apply set_eq. intros y. rewrite elem_of_difference, elem_of_union, !elem_of_singleton, !elem_of_list_to_set. split; [tauto|]. intros Hy. split; [by right|]. by intros ->. }
  exists (Result (job_id x) true (num_bytes x) (handler_type h) :: rs), h'.
  assert (over h = (job_id x, src_to_dst x) :: over h1) as Hov by (unfold over; rewrite Ht, Hf; done).
  split; [|split; [|split; [|split; [done|split; [|split; [|split; [done|]]]]]]].
  - rewrite (bind_modify (set_transfers (transfer_events h) rest k)). rewrite decide_True by (rewrite He; apply elem_of_union; left; by apply elem_of_singleton).
    rewrite bind_modify. change (set_transfers (transfer_events h ∖ {[job_id x]}) rest k (set_transfers (transfer_events h) rest k h)) with h1.
    by rewrite (bind_run _ _ _ _ _ Hrun).
  - by rewrite Hov, !fmap_cons, Hids.
  - intros r [->|Hr]%elem_of_cons; [done|by apply Hok].
  - rewrite Hov. unfold ids at 1. rewrite Ht. simpl. f_equal. exact Hi.
  - rewrite Hp. unfold pending. rewrite Ht, Hf. done.
  - split; intros g [? ?]; [by apply Hst|by apply Hld].
Qed.

(** The loop over the requests that ended. *)
Lemma finish_requests_runs l acc w hs hl :
  rep w hs hl →
  runs (finish_requests acc l) w (λ acc' w', rep w' hs hl ∧ worker w' = worker w ∧ jobs w' = jobs w ∧ load_job w' = load_job w
    ∧ unsubmitted_store_jobs w' = unsubmitted_store_jobs w ∧ acc'.2 = acc.2
    ∧ (∀ r, r ∈ acc'.1 ↔ r ∈ acc.1 ∨ r ∈ l ∧ store_jobs w !! r = Some ∅)
    ∧ (∀ r, store_jobs w' !! r = if decide (r ∈ l ∧ store_jobs w !! r = Some ∅) then None else store_jobs w !! r)
    ∧ ∀ r, r ∈ finished_reqs_waiting_for_store w' ↔ r ∈ finished_reqs_waiting_for_store w ∨ r ∈ l ∧ default ∅ (store_jobs w !! r) ≠ ∅).
Proof.
  revert acc w. induction l as [|r l IH]; intros acc w Hr; cbn [finish_requests].
  { runs_step. do 6 (split; [done|]). split; [|split].
    - intros x. split; [by left|]. by intros [?|[?%elem_of_nil _]].
    - intros x. by rewrite decide_False by (by intros [?%elem_of_nil _]).
    - intros x. split; [by left|]. by intros [?|[?%elem_of_nil _]]. }
  runs_step. destruct (store_jobs w !! r) as [S|] eqn:HS; [case_decide as HSe|].
  - set (w1 := set_waiting ({[r]} ∪ finished_reqs_waiting_for_store w) w). apply (runs_ok _ _ _ acc w1); [done|].
    assert (rep w1 hs hl) as Hr1. { destruct Hr. split; try done. unfold w1. simpl. intros x [->%elem_of_singleton|?]%elem_of_union; [simpl; by rewrite HS|by apply rep_waiting0]. }
    eapply runs_mono; [by apply IH|]. intros acc' w' (H1 & H2 & H3 & H4 & H5 & H6 & H7 & H8 & H9). do 6 (split; [done|]).
    assert (∀ x, x ∈ l ∧ store_jobs w !! x = Some ∅ ↔ x ∈ r :: l ∧ store_jobs w !! x = Some ∅) as Hiff.
    { intros x. rewrite elem_of_cons. split; [tauto|]. intros [[->|?] Hx]; [|done]. rewrite HS in Hx. by injection Hx as ->. }
    split; [intros x; rewrite H7; simpl; by rewrite Hiff|]. split; [intros x; rewrite H8; simpl; by apply decide_ext|].
    intros x. rewrite H9. simpl. rewrite elem_of_union, elem_of_singleton, elem_of_cons. split; [|tauto].
    intros [[->|?]|[? ?]]; [right; split; [by left|by rewrite HS]|by left|right; tauto].
  - subst S. set (w1 := set_store_jobs (delete r (store_jobs w)) w). apply (runs_ok _ _ _ ({[r]} ∪ acc.1, acc.2) w1); [done|].
    assert (∀ x, default ∅ (delete r (store_jobs w) !! x) = default ∅ (store_jobs w !! x)) as Hdef.
    { intros x. destruct (decide (x = r)) as [->|Hx]; [by rewrite lookup_delete_eq, HS|by rewrite lookup_delete_ne]. }
    assert (rep w1 hs hl) as Hr1. { destruct Hr. split; try done; unfold w1; simpl; [intros x y; by rewrite Hdef|intros x; rewrite Hdef; apply rep_waiting0]. }
    eapply runs_mono; [by apply IH|]. intros acc' w' (H1 & H2 & H3 & H4 & H5 & H6 & H7 & H8 & H9). do 6 (split; [done|]). simpl in H7, H8, H9. split; [|split].
    + intros x. rewrite H7, elem_of_union, elem_of_singleton, elem_of_cons. destruct (decide (x = r)) as [->|Hx]; [rewrite lookup_delete_eq; tauto|].
      rewrite lookup_delete_ne by done. tauto.
    + intros x. rewrite H8. destruct (decide (x = r)) as [->|Hx].
      * rewrite lookup_delete_eq. rewrite (decide_False (P := r ∈ l ∧ _)) by (by intros [_ ?]). rewrite decide_True; [done|]. split; [by left|done].
      * rewrite lookup_delete_ne by done. apply decide_ext. rewrite elem_of_cons. tauto.
    + intros x. rewrite H9, Hdef, elem_of_cons. split; [tauto|]. intros [?|[[->|?] Hx]]; [by left| |by right]. by rewrite HS in Hx.
  - apply (runs_ok _ _ _ acc w); [done|]. eapply runs_mono; [by apply IH|]. intros acc' w' (H1 & H2 & H3 & H4 & H5 & H6 & H7 & H8 & H9). do 6 (split; [done|]).
    assert (∀ x, x ∈ l ∧ store_jobs w !! x = Some ∅ ↔ x ∈ r :: l ∧ store_jobs w !! x = Some ∅) as Hiff.
    { intros x. rewrite elem_of_cons. split; [tauto|]. intros [[->|?] Hx]; [congruence|done]. }
    split; [intros x; by rewrite H7, Hiff|]. split; [intros x; rewrite H8; by apply decide_ext|].
    intros x. rewrite H9, elem_of_cons. split; [tauto|]. intros [?|[[->|?] Hx]]; [by left| |by right]. by rewrite HS in Hx.
Qed.

(** The transfers that are over leave their queues. *)
Lemma collect_runs w hs hl :
  rep w hs hl →
  ∃ rs hs' hl', OffloadingWorker.get_finished (worker w) = (Ok rs, OffloadingWorker.Wk (handlers_of hs' hl') (OffloadingWorker.memory (worker w)))
  ∧ result_job_id <$> rs = (over hs).*1 ++ (over hl).*1 ∧ (∀ r, r ∈ rs → success r = true)
  ∧ stores f hs' ∧ loads f hl' ∧ queue_ok hs' ∧ queue_ok hl' ∧ ids hs = (over hs).*1 ++ ids hs' ∧ ids hl = (over hl).*1 ++ ids hl'
  ∧ pending hs' = pending hs ∧ pending hl' = pending hl ∧ over hs' = [] ∧ over hl' = [].
Proof.
  intros Hr. pose proof (rep_nodup _ _ _ Hr) as (_ & _ & (Hns & _ & Hnl)%NoDup_app)%NoDup_app.
  destruct (finished_loop_runs hs _ (rep_store_queue _ _ _ Hr) Hns eq_refl) as (rs & hs' & Es & S1 & S2 & S3 & S4 & S5 & S6 & S7 & S8).
  destruct (finished_loop_runs hl _ (rep_load_queue _ _ _ Hr) Hnl eq_refl) as (rl & hl' & El & L1 & L2 & L3 & L4 & L5 & L6 & L7 & L8).
  exists (rs ++ rl), hs', hl'. split.
  - unfold OffloadingWorker.get_finished. rewrite (rep_handlers _ _ _ Hr). unfold handlers_of. cbn [od_keys fmap list_fmap fst OffloadingWorker.finished_of].
    unfold bind at 1, get_st. rewrite (rep_handlers _ _ _ Hr). unfold handlers_of. cbn [od_get]. rewrite decide_True by done. unfold bind at 1, lift at 1, of_option.
    unfold Handler.get_finished at 1. rewrite Es. rewrite bind_modify. rewrite (rep_handlers _ _ _ Hr). unfold handlers_of. cbn [od_set]. rewrite decide_True by done.
    unfold bind at 1, lift at 1. unfold bind at 1, bind at 1, get_st. cbn [OffloadingWorker.handlers od_get]. rewrite decide_False, decide_True by done. unfold bind at 1, lift at 1, of_option.
    unfold Handler.get_finished. rewrite El. rewrite bind_modify. cbn [OffloadingWorker.handlers OffloadingWorker.memory od_set]. rewrite decide_False, decide_True by done.
    unfold bind, lift, ret. by rewrite app_nil_r.
  - rewrite fmap_app, S1, L1. split; [done|]. split; [intros r [?|?]%elem_of_app; [by apply S2|by apply L2]|]. split; [apply S7, Hr|]. split; [apply L8, Hr|]. done.
Qed.

Lemma reported_default x0 w0 finished acc w r : reported x0 w0 finished acc w → default ∅ (store_jobs w !! r) = left_of w0 finished r.
Proof.
  intros Hre. rewrite (re_store_jobs _ _ _ _ _ Hre). case_decide as Hd; [by destruct Hd as [_ ->]|]. unfold left_of.
  destruct (store_jobs w0 !! r) as [S|]; [done|]. simpl. apply set_eq. intros x. rewrite elem_of_difference. split; [by intros ?%elem_of_empty|by intros [?%elem_of_empty _]].
Qed.

Lemma reported_rep w0 hs hl hs' hl' acc w m :
  rep w0 hs hl → stores f hs' → loads f hl' → queue_ok hs' → queue_ok hl' → ids hs = (over hs).*1 ++ ids hs' → ids hl = (over hl).*1 ++ ids hl' →
  reported (OffloadingWorker.Wk (handlers_of hs' hl') m) w0 ((over hs).*1 ++ (over hl).*1) acc w → rep w hs' hl'.
Proof.
  intros Hr Hst Hld Hqs Hql Es El Hre. set (fin := (over hs).*1 ++ (over hl).*1) in *.
  pose proof (rep_nodup _ _ _ Hr) as Hnd. rewrite Es, El in Hnd.
  assert ((unsubmitted_store_jobs w0).*1 ++ ((over hs).*1 ++ ids hs') ++ (over hl).*1 ++ ids hl' ≡ₚ fin ++ (unsubmitted_store_jobs w0).*1 ++ ids hs' ++ ids hl') as Hperm by (unfold fin; solve_Permutation).
  rewrite Hperm in Hnd. apply NoDup_app in Hnd as (_ & Hdisj & Hnd).
  assert (∀ j, j ∈ (unsubmitted_store_jobs w0).*1 ++ ids hs' ∨ j ∈ ids hl' → j ∉ fin) as Hnf.
  { intros j Hj Hf. apply (Hdisj j Hf). rewrite app_assoc, elem_of_app. done. }
  assert (∀ j rb, jobs w !! j = Some rb ↔ jobs w0 !! j = Some rb ∧ j ∉ fin) as Hj.
  { intros j rb. rewrite (re_jobs _ _ _ _ _ Hre). case_decide; [split; [done|tauto]|tauto]. }
  split; rewrite ?(re_worker _ _ _ _ _ Hre), ?(re_unsubmitted _ _ _ _ _ Hre), ?(re_counter _ _ _ _ _ Hre); try done.
  - apply Hr.
  - intros j. split.
    + intros Hin. destruct (proj1 (rep_store_owner _ _ _ Hr j)) as [r Hjob].
      { rewrite Es, !elem_of_app in *. tauto. }
      exists r. apply Hj. split; [done|]. apply Hnf. by left.
    + intros [r [Hjob Hno]%Hj]. assert (j ∈ (unsubmitted_store_jobs w0).*1 ++ ids hs) as Hin by (apply (rep_store_owner _ _ _ Hr); by exists r).
      rewrite Es in Hin. unfold fin in Hno. rewrite !elem_of_app in *. tauto.
  - intros j. split.
    + intros Hin. destruct (proj1 (rep_load_owner _ _ _ Hr j)) as [r Hjob]; [rewrite El; apply elem_of_app; by right|].
      exists r. apply Hj. split; [done|]. apply Hnf. by right.
    + intros [r [Hjob Hno]%Hj]. assert (j ∈ ids hl) as Hin by (apply (rep_load_owner _ _ _ Hr); by exists r).
      rewrite El in Hin. unfold fin in Hno. rewrite elem_of_app in Hin, Hno. tauto.
  - intros j [rb [Hjob _]%Hj]. apply (rep_counter _ _ _ Hr). by eexists.
  - intros r j. by rewrite (re_load_job _ _ _ _ _ Hre), Hj, (rep_load_job _ _ _ Hr).
  - intros r j. rewrite (reported_default _ _ _ _ _ r Hre), Hj. unfold left_of. by rewrite elem_of_difference, elem_of_list_to_set, (rep_store_jobs _ _ _ Hr).
  - intros r Hw. rewrite (reported_default _ _ _ _ _ r Hre). by apply (re_waiting _ _ _ _ _ Hre) in Hw as [_ ?].
Qed.

(** What [get_finished] reports: the loads that are over, and the requests that ended and
    have stored something, as soon as none of their stores is left. *)
Record report_of (w : worker_t) (hs hl : Handler.t) (ended : list string) (acc : gset string * gset string) (w' : worker_t) : Prop := {
  rp_jobs j rb : jobs w' !! j = Some rb ↔ jobs w !! j = Some rb ∧ j ∉ (over hs).*1 ++ (over hl).*1;
  rp_recving r : r ∈ acc.2 ↔ ∃ j, j ∈ (over hl).*1 ∧ jobs w !! j = Some (r, false);
  rp_sending r : r ∈ acc.1 ↔ (r ∈ finished_reqs_waiting_for_store w ∨ r ∈ ended) ∧ is_Some (store_jobs w !! r) ∧ ∀ j, jobs w' !! j ≠ Some (r, true);
  rp_waiting r : r ∈ finished_reqs_waiting_for_store w' ↔
    (r ∈ finished_reqs_waiting_for_store w ∨ r ∈ ended) ∧ ∃ j, jobs w' !! j = Some (r, true);
  rp_store_jobs r : is_Some (store_jobs w' !! r) ↔ is_Some (store_jobs w !! r) ∧ r ∉ acc.1
}.

Lemma get_finished_runs ended w hs hl :
  rep w hs hl → runs (get_finished ended) w (λ acc w', ∃ hs' hl', rep w' hs' hl' ∧ OffloadingWorker.memory (worker w') = OffloadingWorker.memory (worker w)
    ∧ unsubmitted_store_jobs w' = unsubmitted_store_jobs w ∧ pending_stores w' hs' = pending_stores w hs ∧ pending hl' = pending hl
    ∧ over hs' = [] ∧ over hl' = [] ∧ report_of w hs hl ended acc w').
Proof.
  intros Hr. destruct (collect_runs w hs hl Hr) as (rs & hs' & hl' & Hrun & Hids & Hok & Hst & Hld & Hqs & Hql & Es & El & Ps & Pl & Os & Ol).
  set (x0 := OffloadingWorker.Wk (handlers_of hs' hl') (OffloadingWorker.memory (worker w))) in *. set (fin := (over hs).*1 ++ (over hl).*1) in *.
  unfold get_finished. apply (runs_ok _ _ _ rs (set_worker x0 w)); [unfold on_worker; by rewrite Hrun|].
  pose proof (rep_nodup _ _ _ Hr) as Hnd. rewrite Es, El in Hnd.
  assert ((unsubmitted_store_jobs w).*1 ++ ((over hs).*1 ++ ids hs') ++ (over hl).*1 ++ ids hl' ≡ₚ fin ++ (unsubmitted_store_jobs w).*1 ++ ids hs' ++ ids hl') as Hperm by (unfold fin; solve_Permutation).
  rewrite Hperm in Hnd. apply NoDup_app in Hnd as (Hnd & _). apply (runs_seq _ _ _ (λ acc w1, reported x0 w fin acc w1)).
  { rewrite <- Hids. apply (finish_transfers_runs x0 w hs hl rs [] (∅, ∅) (set_worker x0 w)); [done| |by rewrite Hids|done|].
    - assert (∀ r, left_of w [] r = default ∅ (store_jobs w !! r)) as Hl by (intros r; unfold left_of; simpl; by rewrite difference_empty_L).
      split; try done.
      + intros r j. split; [|by intros [? _]]. intros ?. split; [done|apply not_elem_of_nil].
      + intros r. rewrite Hl, decide_False by (intros [Hw He]; by apply (rep_waiting _ _ _ Hr) in Hw).
        simpl. destruct (store_jobs w !! r); simpl; [by rewrite difference_empty_L|done].
      + intros r. rewrite Hl. simpl. split; [intros Hw; split; [done|by apply (rep_waiting _ _ _ Hr)]|by intros [? _]].
      + intros r. rewrite Hl. split; [by intros ?%elem_of_empty|]. intros [Hw He]. by apply (rep_waiting _ _ _ Hr) in Hw.
      + intros r. split; [by intros ?%elem_of_empty|]. by intros (j & _ & ?%elem_of_nil).
    - intros j Hj. rewrite Hids in Hj. apply elem_of_app in Hj as [Hj|Hj].
      + destruct (proj1 (rep_store_owner _ _ _ Hr j)) as [r Hjob]; [rewrite Es, !elem_of_app; tauto|]. by eexists.
      + destruct (proj1 (rep_load_owner _ _ _ Hr j)) as [r Hjob]; [rewrite El, elem_of_app; tauto|]. by eexists. }
  intros acc1 w1 Hre. pose proof (reported_rep w hs hl hs' hl' acc1 w1 _ Hr Hst Hld Hqs Hql Es El Hre) as Hr1.
  eapply runs_mono; [by apply (finish_requests_runs ended acc1 w1 hs' hl')|]. intros acc w' (Hr' & W1 & W2 & W3 & W4 & W5 & W6 & W7 & W8). exists hs', hl'.
  split; [done|]. rewrite W1, W4, (re_worker _ _ _ _ _ Hre), (re_unsubmitted _ _ _ _ _ Hre). split; [done|]. split; [done|].
  split; [unfold pending_stores; by rewrite W4, (re_unsubmitted _ _ _ _ _ Hre), Ps|]. do 3 (split; [done|]).
  assert (∀ r, default ∅ (store_jobs w1 !! r) = ∅ ↔ ∀ j, jobs w' !! j ≠ Some (r, true)) as Hempty.
  { intros r. rewrite W2. split.
    - intros He j Hj%(rep_store_jobs _ _ _ Hr1). rewrite He in Hj. by apply elem_of_empty in Hj.
    - intros Hn. apply set_eq. intros j. split; [|by intros ?%elem_of_empty]. intros Hj%(rep_store_jobs _ _ _ Hr1). by destruct (Hn j). }
  assert (∀ r, default ∅ (store_jobs w1 !! r) ≠ ∅ ↔ ∃ j, jobs w' !! j = Some (r, true)) as Hsome.
  { intros r. rewrite W2. split.
    - intros [j Hj]%set_choose_L. exists j. by apply (rep_store_jobs _ _ _ Hr1).
    - intros [j Hj%(rep_store_jobs _ _ _ Hr1)] He. rewrite He in Hj. by apply elem_of_empty in Hj. }
  assert (∀ r, left_of w fin r = default ∅ (store_jobs w1 !! r)) as Hleft by (intros r; by rewrite (reported_default _ _ _ _ _ r Hre)).
  assert (∀ r, store_jobs w1 !! r = Some ∅ → r ∉ finished_reqs_waiting_for_store w) as Hnw.
  { intros r Hs Hw. rewrite (re_store_jobs _ _ _ _ _ Hre) in Hs. case_decide as Hd; [done|]. apply Hd. split; [done|]. rewrite Hleft, (re_store_jobs _ _ _ _ _ Hre), decide_False, Hs by done. done. }
  assert (∀ r, r ∈ finished_reqs_waiting_for_store w → is_Some (store_jobs w !! r)) as Hws.
  { intros r Hw%(rep_waiting _ _ _ Hr). destruct (store_jobs w !! r); [by eexists|done]. }
  assert (∀ r, is_Some (store_jobs w1 !! r) ↔ is_Some (store_jobs w !! r) ∧ r ∉ acc1.1) as Hkey.
  { intros r. rewrite (re_store_jobs _ _ _ _ _ Hre), (re_sending _ _ _ _ _ Hre). case_decide as Hd; [split; [by intros [? ?]|tauto]|]. rewrite fmap_is_Some. tauto. }
  assert (∀ r, r ∈ acc.1 ↔ (r ∈ finished_reqs_waiting_for_store w ∨ r ∈ ended) ∧ is_Some (store_jobs w !! r) ∧ default ∅ (store_jobs w1 !! r) = ∅) as Hsend.
  { intros r. rewrite W6, (re_sending _ _ _ _ _ Hre), Hleft. split.
    - intros [[Hw He]|[Hin Hs]]; [split; [by left|]; split; [by apply Hws|done]|]. split; [by right|]. rewrite Hs. split; [|done].
      apply (Hkey r). by rewrite Hs.
    - intros ([Hw|Hin] & Hs & He); [by left|]. destruct (decide (r ∈ acc1.1)) as [Ha|Ha]; [left; by rewrite (re_sending _ _ _ _ _ Hre), Hleft in Ha|].
      right. split; [done|]. destruct (proj2 (Hkey r) (conj Hs Ha)) as [S HS]. rewrite HS in He |- *. by rewrite <- He. }
  split.
  - intros j rb. rewrite W2, (re_jobs _ _ _ _ _ Hre). fold fin. case_decide; [split; [done|tauto]|tauto].
  - intros r. rewrite W5, (re_recving _ _ _ _ _ Hre). split.
    + intros (j & Hj%(rep_load_job _ _ _ Hr) & Hf). exists j. split; [|done]. unfold fin in Hf. apply elem_of_app in Hf as [Hf|Hf]; [|done].
      destruct (proj1 (rep_store_owner _ _ _ Hr j)) as [r' Hj']; [rewrite Es, !elem_of_app; tauto|]. congruence.
    + intros (j & Hf & Hj). exists j. split; [by apply (rep_load_job _ _ _ Hr)|]. unfold fin. rewrite elem_of_app. by right.
  - intros r. by rewrite Hsend, Hempty.
  - intros r. rewrite W8, (re_waiting _ _ _ _ _ Hre), Hleft, Hsome. tauto.
  - intros r. rewrite W7, Hsend. assert (default ∅ (store_jobs w1 !! r) = ∅ ↔ store_jobs w1 !! r = Some ∅ ∨ store_jobs w1 !! r = None) as Hde.
    { destruct (store_jobs w1 !! r); simpl; split; [intros ->; by left|intros [[= ->]|?]; done|by right|done]. }
    case_decide as Hd.
    + destruct Hd as [Hin Hs]. split; [by intros [? ?]|]. intros [Hs0 Hno]. destruct Hno. split; [by right|]. split; [done|]. apply Hde. by left.
    + rewrite Hkey, (re_sending _ _ _ _ _ Hre), Hleft. split.
      * intros [Hs0 Hno]. split; [done|]. intros ([Hw|Hin] & _ & He); [tauto|]. apply Hde in He as [He|He]; [tauto|].
        destruct (proj2 (Hkey r)) as [S HS]; [|congruence]. split; [done|]. rewrite (re_sending _ _ _ _ _ Hre), Hleft. tauto.
      * intros [Hs0 Hno]. split; [done|]. intros [Hw He]. apply Hno. split; [by left|]. done.
Qed.

End jobs.
End WorkerJobs.
