(* ===== verification/OffloadConnector.v ===== *)
(** The scheduler's side of the offloading connector ([OffloadingConnectorScheduler] of
    [offloading_connector.py]), over any offloading manager: which offloaded blocks a request
    can load, and which of its blocks are stored. *)
From stdpp Require Import gmap strings.
From S2P Require Export FreeQueue Offload OffloadWorker Scheduler.
From stdpp Require Import options.
Open Scope Z_scope.

(** [islice(l, start, stop, step)] with [0 ≤ start] and [0 < step], which are all that occur. *)
Definition islice {A} (l : list A) (start : Z) (stop : option Z) (step : Z) : list A :=
  let stop := match stop with Some e => Z.min e (zlen l) | None => zlen l end in
  omap (λ k, l !! Z.to_nat (start + k * step)) (seqZ 0 (cdiv (stop - start) step)).

(** The iterator of [yield_req_data]: per request its id, its new blocks, and whether it was
    preempted before. *)
Definition yield_req_data (o : SchedulerOutput) : list (string * option (list (list Z)) * bool) :=
  ((λ x : string * list (list Z) * Z, (x.1.1, Some x.1.2, false)) <$> scheduled_new_reqs o)
  ++ zip_with (λ id blocks, (id, blocks, bool_decide (id ∈ resumed_req_ids o))) (cached_req_ids o) (new_block_ids o).

(** ** The connector *)
Module OffloadingConnector.
Import SchedRequest.

Section connector.
Context {hash M : Type} `{Countable hash} `{!OffloadingManager hash (list Z) M}.

(** The hashes of the full blocks of a request, a field of [Request] that the scheduler does
    not read. *)
Context (block_hashes : Request → list hash).
Context (gpu_block_size offloaded_block_size : Z).

(** [self._requests] holds the request objects, which change while it holds them: here their
    ids, the contents are read where a method gets them. *)
Record t := Sched {
  known : gset string;
  request_block_ids : gmap string (list Z);
  to_load : list (string * TransferSpec);
  next_stored_block_idx : gmap string Z;
  blocks_being_loaded : option (gset hash);
  reqs_being_stored : gmap string (gset hash);
  reqs_being_loaded : gmap string (gset hash);
  manager : M
}.

Definition create (enable_prefix_caching : bool) (m : M) : t :=
  Sched ∅ ∅ [] ∅ (if enable_prefix_caching then Some ∅ else None) ∅ ∅ m.

Definition set_known x (s : t) : t :=
  Sched x (request_block_ids s) (to_load s) (next_stored_block_idx s) (blocks_being_loaded s) (reqs_being_stored s) (reqs_being_loaded s) (manager s).
Definition set_block_ids x (s : t) : t :=
  Sched (known s) x (to_load s) (next_stored_block_idx s) (blocks_being_loaded s) (reqs_being_stored s) (reqs_being_loaded s) (manager s).
Definition set_to_load x (s : t) : t :=
  Sched (known s) (request_block_ids s) x (next_stored_block_idx s) (blocks_being_loaded s) (reqs_being_stored s) (reqs_being_loaded s) (manager s).
Definition set_next x (s : t) : t :=
  Sched (known s) (request_block_ids s) (to_load s) x (blocks_being_loaded s) (reqs_being_stored s) (reqs_being_loaded s) (manager s).
Definition set_blocks_being_loaded x (s : t) : t :=
  Sched (known s) (request_block_ids s) (to_load s) (next_stored_block_idx s) x (reqs_being_stored s) (reqs_being_loaded s) (manager s).
Definition set_stored x (s : t) : t :=
  Sched (known s) (request_block_ids s) (to_load s) (next_stored_block_idx s) (blocks_being_loaded s) x (reqs_being_loaded s) (manager s).
Definition set_loaded x (s : t) : t :=
  Sched (known s) (request_block_ids s) (to_load s) (next_stored_block_idx s) (blocks_being_loaded s) (reqs_being_stored s) x (manager s).
Definition set_manager x (s : t) : t :=
  Sched (known s) (request_block_ids s) (to_load s) (next_stored_block_idx s) (blocks_being_loaded s) (reqs_being_stored s) (reqs_being_loaded s) x.

Definition on_manager {A} (f : py M A) : py t A := λ s, let '(a, m) := f (manager s) in (a, set_manager m s).

Definition block_size_factor : Z := offloaded_block_size `div` gpu_block_size.

(** The hash of an offloaded block is the hash of its last block. *)
Definition get_block_hashes (r : Request) (start_idx : Z) (end_idx : option Z) : list hash :=
  islice (block_hashes r) (block_size_factor * start_idx + block_size_factor - 1)
    (match end_idx with Some e => if e =? 0 then None else Some (block_size_factor * e) | None => None end) block_size_factor.

(** How many tokens can be loaded behind the computed ones, and whether that is asynchronous;
    without a number the scheduler asks again. *)
Definition get_num_new_matched_tokens (r : Request) (num_computed_tokens : Z) : py t (option Z * bool) :=
  let* num_blocks := lift (py_div (num_tokens r) offloaded_block_size) in
  let* n := lift (py_div (zlen (block_hashes r)) block_size_factor) in
  passert (n =? num_blocks) ;;;
  on_manager (touch (get_block_hashes r 0 None)) ;;;
  let full_block_tokens := offloaded_block_size * num_blocks in
  if full_block_tokens - num_computed_tokens <? offloaded_block_size then ret (Some 0, false)
  else
    let* start_block_idx := lift (py_div num_computed_tokens offloaded_block_size) in
    let* s := get_st in
    match lookup_blocks (get_block_hashes r start_block_idx None) (manager s) with
    | None => ret (None, false)
    | Some hits =>
        if hits =? 0 then ret (Some 0, false)
        else
          let num_hit_tokens := offloaded_block_size * (start_block_idx + hits) - num_computed_tokens in
          if num_hit_tokens <? offloaded_block_size then ret (Some 0, false)
          else
            let loading := default ∅ (blocks_being_loaded s) in
            if existsb (λ h, bool_decide (h ∈ loading)) (get_block_hashes r start_block_idx (Some (start_block_idx + hits)))
            then ret (None, false)
            else ret (Some num_hit_tokens, true)
    end.

(** The request has got its blocks, of which the cached ones have a hash. *)
Definition update_state_after_alloc (r : Request) (blocks : list (list FreeQueue.KVCacheBlock)) (num_external_tokens : Z) : py t unit :=
  modify (λ s, set_known ({[request_id r]} ∪ known s) s) ;;;
  modify (λ s, set_block_ids (<[request_id r := []]> (request_block_ids s)) s) ;;;
  if num_external_tokens =? 0 then ret tt
  else
    let* group := lift (py_index blocks 0) in
    let block_ids := FreeQueue.block_id <$> group in
    let num_computed_gpu_blocks := zlen (filter (λ b, is_Some (FreeQueue.block_hash b)) group) in
    let num_computed_tokens := num_computed_gpu_blocks * gpu_block_size in
    let full_block_tokens := num_computed_tokens + num_external_tokens in
    let* rest := lift (py_mod full_block_tokens offloaded_block_size) in
    passert (rest =? 0) ;;;
    let num_pending_gpu_blocks := zlen block_ids - num_computed_gpu_blocks in
    passert (num_external_tokens =? num_pending_gpu_blocks * gpu_block_size) ;;;
    let* start_block_idx := lift (py_div num_computed_tokens offloaded_block_size) in
    let* num_blocks := lift (py_div full_block_tokens offloaded_block_size) in
    let* n := lift (py_div (zlen (block_hashes r)) block_size_factor) in
    passert (num_blocks <=? n) ;;;
    let hashes := get_block_hashes r start_block_idx (Some num_blocks) in
    let* src := on_manager (prepare_load hashes) in
    let dst := py_slice block_ids num_computed_gpu_blocks (zlen block_ids) in
    modify (λ s, set_to_load (od_set (request_id r) (CPULoadStoreSpec src, GPULoadStoreSpec dst) (to_load s)) s) ;;;
    modify (λ s, set_loaded (<[request_id r := list_to_set hashes ∪ default ∅ (reqs_being_loaded s !! request_id r)]> (reqs_being_loaded s)) s) ;;;
    modify (λ s, set_next (<[request_id r := num_blocks]> (next_stored_block_idx s)) s) ;;;
    modify (λ s, match blocks_being_loaded s with
                 | None => s
                 | Some l => set_blocks_being_loaded (Some (default ∅ (reqs_being_loaded s !! request_id r) ∪ l)) s
                 end).

(** The blocks of the GPU that the offloaded blocks to store consist of. *)
Fixpoint source_blocks (to_store : list hash) (block_ids : list Z) (start_block_idx : Z) (hashes : list hash) : result (list Z) :=
  match hashes with
  | [] => Ok []
  | h :: hashes =>
      if decide (h ∉ to_store) then source_blocks to_store block_ids (start_block_idx + 1) hashes
      else
        let! l := map_result (λ i, py_index block_ids (start_block_idx * block_size_factor + i)) (seqZ 0 block_size_factor) in
        let! rest := source_blocks to_store block_ids (start_block_idx + 1) hashes in
        Ok (l ++ rest)
  end.

(** The turn of [_get_reqs_to_store] for a request of the step. *)
Definition store_request (objects : gmap string Request) (o : SchedulerOutput) (reqs_to_store : list (string * TransferSpec))
    (x : string * option (list (list Z)) * bool) : py t (list (string * TransferSpec)) :=
  let '(req_id, new_block_id_groups, preempted) := x in
  (if preempted : bool then modify (λ s, set_block_ids (<[req_id := []]> (request_block_ids s)) s) else ret tt) ;;;
  (match new_block_id_groups with
   | None | Some [] => ret tt
   | Some (new_block_ids :: _) =>
       let* s := get_st in
       let* ids := lift (of_option KeyError (request_block_ids s !! req_id)) in
       modify (λ s, set_block_ids (<[req_id := ids ++ new_block_ids]> (request_block_ids s)) s)
   end) ;;;
  let* s := get_st in
  let* block_ids := lift (of_option KeyError (request_block_ids s !! req_id)) in
  let* r := lift (of_option KeyError (if decide (req_id ∈ known s) then objects !! req_id else None)) in
  let* new_tokens := lift (of_option KeyError (od_get req_id (num_scheduled_tokens o))) in
  let total_tokens := num_computed_tokens r + new_tokens in
  let* num_blocks := lift (py_div total_tokens offloaded_block_size) in
  let start_block_idx := default 0 (next_stored_block_idx s !! req_id) in
  if num_blocks - start_block_idx <=? 0 then ret reqs_to_store
  else
    let new_block_hashes := get_block_hashes r start_block_idx (Some num_blocks) in
    let* store_output := on_manager (prepare_store new_block_hashes) in
    match store_output with
    | None => ret reqs_to_store
    | Some out =>
        modify (λ s, set_next (<[req_id := num_blocks]> (next_stored_block_idx s)) s) ;;;
        match block_hashes_to_store out with
        | [] => ret reqs_to_store
        | to_store =>
            on_manager (touch (get_block_hashes r 0 (Some num_blocks))) ;;;
            let* src := lift (source_blocks to_store block_ids start_block_idx new_block_hashes) in
            modify (λ s, set_stored (<[req_id := default ∅ (reqs_being_stored s !! req_id) ∪ list_to_set to_store]> (reqs_being_stored s)) s) ;;;
            ret (od_set req_id (GPULoadStoreSpec src, CPULoadStoreSpec (store_spec out)) reqs_to_store)
        end
    end.

Fixpoint store_requests (objects : gmap string Request) (o : SchedulerOutput) (reqs_to_store : list (string * TransferSpec))
    (l : list (string * option (list (list Z)) * bool)) : py t (list (string * TransferSpec)) :=
  match l with
  | [] => ret reqs_to_store
  | x :: l => let* reqs_to_store := store_request objects o reqs_to_store x in store_requests objects o reqs_to_store l
  end.

Definition get_reqs_to_store (objects : gmap string Request) (o : SchedulerOutput) : py t (list (string * TransferSpec)) :=
  store_requests objects o [] (yield_req_data o).

(** The stores of a preempted request count as complete: the workers wait for them before
    they run the step. *)
Definition complete_preempted (req_id : string) : py t unit :=
  let* s := get_st in
  match reqs_being_stored s !! req_id with
  | None => ret tt
  | Some hashes =>
      if decide (hashes = ∅) then ret tt
      else
        on_manager (complete_store (elements hashes) true) ;;;
        modify (λ s, set_stored (<[req_id := ∅]> (reqs_being_stored s)) s)
  end.

Definition build_connector_meta (objects : gmap string Request) (o : SchedulerOutput) : py t OffloadingConnectorMetadata :=
  let* s := get_st in
  let loads := to_load s in
  let* stores := get_reqs_to_store objects o in
  modify (set_to_load []) ;;;
  for_each (elements (preempted_req_ids o)) complete_preempted ;;;
  ret (Metadata loads stores).

Definition finish_sending (req_id : string) : py t unit :=
  let* s := get_st in
  modify (λ s, set_stored (delete req_id (reqs_being_stored s)) s) ;;;
  match reqs_being_stored s !! req_id with
  | None => ret tt
  | Some hashes => if decide (hashes = ∅) then ret tt else on_manager (complete_store (elements hashes) true)
  end.

Definition finish_recving (req_id : string) : py t unit :=
  let* s := get_st in
  modify (λ s, set_loaded (delete req_id (reqs_being_loaded s)) s) ;;;
  match reqs_being_loaded s !! req_id with
  | None => ret tt
  | Some hashes =>
      if decide (hashes = ∅) then ret tt
      else
        modify (λ s, set_blocks_being_loaded ((λ l, l ∖ hashes) <$> blocks_being_loaded s) s) ;;;
        on_manager (complete_load (elements hashes))
  end.

Definition update_connector_output (finished_sending finished_recving : list string) : py t unit :=
  for_each finished_sending finish_sending ;;;
  for_each finished_recving finish_recving.

(** Whether the blocks of the request must be kept for a store. *)
Definition request_finished (req_id : string) : py t bool :=
  modify (λ s, set_known (known s ∖ {[req_id]}) s) ;;;
  modify (λ s, set_block_ids (delete req_id (request_block_ids s)) s) ;;;
  modify (λ s, set_next (delete req_id (next_stored_block_idx s)) s) ;;;
  gets (λ s, bool_decide (is_Some (reqs_being_stored s !! req_id))).
End connector.
Arguments t hash M {_ _}.
End OffloadingConnector.
