(* ===== verification/OffloadProtocol.v ===== *)
(** The offloading connector keeps to the contract of its manager: the invariant that ties the
    blocks in transfer to the requests they are transferred for, and what each method does. *)
From stdpp Require Import gmap strings.
From S2P Require Export OffloadConnector.
From stdpp Require Import options.
Open Scope Z_scope.

(** ** Slices with a step *)
Section islice.
Context {A : Type}.
Implicit Types l : list A.

Lemma omap_lookup_all {B} (g : B → option A) (l : list B) i : (∀ x, x ∈ l → is_Some (g x)) → omap g l !! i = l !! i ≫= g.
Proof.
  revert i. induction l as [|x l IH]; intros i Hl; [done|]. destruct (Hl x) as [y Hy]; [by left|]. simpl. rewrite Hy.
  destruct i as [|i]; [by simpl; rewrite Hy|]. apply IH. intros z Hz. apply Hl. by right.
Qed.

Lemma islice_lookup l start stop step i :
  0 ≤ start → 0 < step →
  islice l start stop step !! i =
    if match stop with Some e => start + Z.of_nat i * step <? e | None => true end then l !! Z.to_nat (start + Z.of_nat i * step) else None.
Proof.
  intros Hs Hst. unfold islice. set (stop' := match stop with Some e => Z.min e (zlen l) | None => zlen l end).
  assert (∀ k, 0 ≤ k < cdiv (stop' - start) step → start + k * step < stop') as Hk.
  { intros k Hk. pose proof (cdiv_spec (stop' - start) step Hst). nia. }
  assert (stop' ≤ zlen l) as Hle by (unfold stop'; destruct stop; lia).
  rewrite omap_lookup_all; [|intros k Hkin%elem_of_seqZ; apply lookup_lt_is_Some_2; specialize (Hk k ltac:(lia)); unfold zlen in *; lia].
  destruct (seqZ 0 (cdiv (stop' - start) step) !! i) as [k|] eqn:Hi; simpl.
  - apply lookup_seqZ in Hi as [-> Hlt]. rewrite Z.add_0_l. specialize (Hk (Z.of_nat i) ltac:(lia)).
    unfold stop' in Hk. destruct stop as [e|]; [|done]. by rewrite (proj2 (Z.ltb_lt _ _)) by lia.
  - apply lookup_ge_None in Hi. rewrite length_seqZ in Hi. assert (stop' ≤ start + Z.of_nat i * step) as Hge.
    { pose proof (cdiv_spec (stop' - start) step Hst). nia. }
    unfold stop', zlen in Hge. destruct stop as [e|]; [destruct (Z.ltb_spec (start + Z.of_nat i * step) e); [|done]|]; symmetry; apply lookup_ge_None; lia.
Qed.

Lemma list_ext_NoDup l (g : nat → nat) k : NoDup k → (∀ i j, g i = g j → i = j) → (∀ i x, l !! i = Some x → k !! g i = Some x) → NoDup l.
Proof.
  intros Hk Hg Hl. apply NoDup_alt. intros i j x Hi%Hl Hj%Hl. apply Hg. by apply (NoDup_lookup k _ _ x).
Qed.
End islice.

(** ** How many requests load a block *)
Section counting.
Context {hash : Type} `{Countable hash}.

Definition loads_in (m : gmap string (gset hash)) (h : hash) : Z := Z.of_nat (size (filter (λ x, h ∈ x.2) m)).

Lemma loads_in_pos m h : 0 < loads_in m h ↔ ∃ r X, m !! r = Some X ∧ h ∈ X.
Proof.
  unfold loads_in. split.
  - intros Hs. destruct (decide (filter (λ x, h ∈ x.2) m = ∅)) as [He|Hne]; [rewrite He, map_size_empty in Hs; lia|].
    apply map_choose in Hne as (r & X & [Hr Hx]%map_lookup_filter_Some). by exists r, X.
  - intros (r & X & Hr & Hx). destruct (decide (size (filter (λ x, h ∈ x.2) m) = 0%nat)) as [He|]; [|lia].
    apply map_size_empty_inv in He. assert (filter (λ x, h ∈ x.2) m !! r = Some X) as Hf by (by apply map_lookup_filter_Some). by rewrite He in Hf.
Qed.

Lemma loads_in_nonneg m h : 0 ≤ loads_in m h.
Proof. unfold loads_in. lia. Qed.

Lemma loads_in_bound m h : loads_in m h ≤ Z.of_nat (size m).
Proof. unfold loads_in. apply inj_le, map_subseteq_size, map_filter_subseteq. Qed.

Lemma loads_in_insert m r X h : default ∅ (m !! r) = (∅ : gset hash) → loads_in (<[r:=X]> m) h = loads_in m h + (if decide (h ∈ X) then 1 else 0).
Proof.
  intros Hr. unfold loads_in. assert (filter (λ x, h ∈ x.2) m !! r = None) as Hno.
  { apply map_lookup_filter_None. destruct (m !! r) as [Y|]; [right|by left]. simpl in Hr. subst Y. intros Y [= <-]. apply not_elem_of_empty. }
  case_decide as Hx.
  - rewrite map_filter_insert_True by done. rewrite map_size_insert_None by done. lia.
  - rewrite map_filter_insert_False by done. rewrite map_filter_delete, delete_id by done. lia.
Qed.

Lemma loads_in_delete m r h : loads_in (delete r m) h = loads_in m h - (if decide (h ∈ default ∅ (m !! r)) then 1 else 0).
Proof.
  unfold loads_in. rewrite map_filter_delete. case_decide as Hx.
  - destruct (m !! r) as [X|] eqn:Hr; [|by apply elem_of_empty in Hx].
    assert (filter (λ x, h ∈ x.2) m !! r = Some X) as Hf by (by apply map_lookup_filter_Some).
    rewrite map_size_delete, Hf. simpl. pose proof (proj2 (loads_in_pos m h)) as Hp. specialize (Hp ltac:(by exists r, X)). unfold loads_in in Hp. lia.
  - rewrite delete_id; [lia|]. apply map_lookup_filter_None. destruct (m !! r) as [X|]; [right|by left]. by intros Y [= <-].
Qed.
End counting.

(** ** The invariant *)
Module ConnectorProtocol.
Import SchedRequest OffloadingConnector.

Section protocol.
Context {hash M : Type} `{Countable hash} `{!OffloadingManager hash (list Z) M, OL : !OffloadingManagerLaws hash Z (list Z) M}.
Context (places_spec : ∀ ps, om_spec_of ps = ps).
Context (block_hashes : Request → list hash) (gpu_block_size factor : Z) (gpu_pos : 0 < gpu_block_size) (factor_pos : 0 < factor).

Abbreviation t := (OffloadingConnector.t hash M).
Abbreviation off := (factor * gpu_block_size).
Abbreviation get_block_hashes := (get_block_hashes block_hashes gpu_block_size off).
Implicit Types (s : t) (r : Request).

(** *** The hashes of a request *)

(** They are those of its full blocks, and differ from each other. *)
Record hashed r : Prop := {
  hashed_blocks : zlen (block_hashes r) = num_tokens r `div` gpu_block_size;
  hashed_distinct : NoDup (block_hashes r)
}.

(** The hash of the offloaded block [k]. *)
Definition chunk r (k : Z) : option hash := block_hashes r !! Z.to_nat (factor * k + factor - 1).

Lemma factor_eq : block_size_factor gpu_block_size off = factor.
Proof using gpu_pos. unfold block_size_factor. apply Z.div_mul. lia. Qed.

Lemma hashes_all r start i : 0 ≤ start → get_block_hashes r start None !! i = chunk r (start + Z.of_nat i).
Proof using gpu_pos factor_pos.
  intros Hs. unfold OffloadingConnector.get_block_hashes. rewrite factor_eq, islice_lookup by nia. unfold chunk. f_equal. f_equal. lia.
Qed.

Lemma hashes_upto r start e i :
  0 ≤ start → 0 < e → get_block_hashes r start (Some e) !! i = if start + Z.of_nat i <? e then chunk r (start + Z.of_nat i) else None.
Proof using gpu_pos factor_pos.
  intros Hs He. unfold OffloadingConnector.get_block_hashes. rewrite factor_eq, (proj2 (Z.eqb_neq e 0)), islice_lookup by nia. unfold chunk.
  replace (factor * start + factor - 1 + Z.of_nat i * factor) with (factor * (start + Z.of_nat i) + factor - 1) by lia.
  destruct (Z.ltb_spec (start + Z.of_nat i) e) as [Hlt|Hge].
  - by rewrite (proj2 (Z.ltb_lt _ _)) by nia.
  - by rewrite (proj2 (Z.ltb_ge _ _)) by nia.
Qed.

Lemma chunk_is_Some r k : 0 ≤ k → is_Some (chunk r k) ↔ factor * (k + 1) ≤ zlen (block_hashes r).
Proof using factor_pos. intros Hk. unfold chunk. rewrite lookup_lt_is_Some. unfold zlen. nia. Qed.

Lemma hashes_zlen r start e : 0 ≤ start ≤ e → 0 < e → factor * e ≤ zlen (block_hashes r) → zlen (get_block_hashes r start (Some e)) = e - start.
Proof using gpu_pos factor_pos.
  intros Hs He Hl. set (l := get_block_hashes r start (Some e)). assert (∀ i, is_Some (l !! i) ↔ start + Z.of_nat i < e) as Hi.
  { intros i. unfold l. rewrite hashes_upto by lia. destruct (Z.ltb_spec (start + Z.of_nat i) e); [|split; [by intros [? ?]|lia]].
    rewrite chunk_is_Some by lia. split; [done|]. intros _. nia. }
  unfold zlen. assert (¬ is_Some (l !! length l)) as Hend by (rewrite lookup_ge_None_2 by lia; by intros [? ?]). rewrite Hi in Hend.
  destruct (length l) as [|n] eqn:Hn; [lia|]. assert (is_Some (l !! n)) as Hlast by (apply lookup_lt_is_Some; lia). rewrite Hi in Hlast. lia.
Qed.

Lemma hashes_elem r start e h : 0 ≤ start → 0 < e → h ∈ get_block_hashes r start (Some e) ↔ ∃ k, start ≤ k < e ∧ chunk r k = Some h.
Proof using gpu_pos factor_pos.
  intros Hs He. rewrite list_elem_of_lookup. split.
  - intros [i Hi]. rewrite hashes_upto in Hi by done. destruct (Z.ltb_spec (start + Z.of_nat i) e); [|done]. exists (start + Z.of_nat i). split; [lia|done].
  - intros (k & Hk & Hc). exists (Z.to_nat (k - start)). rewrite hashes_upto by done. replace (start + Z.of_nat (Z.to_nat (k - start))) with k by lia.
    by rewrite (proj2 (Z.ltb_lt _ _)) by lia.
Qed.

Lemma hashes_NoDup r start e : NoDup (block_hashes r) → 0 ≤ start → (∀ x, e = Some x → 0 < x) → NoDup (get_block_hashes r start e).
Proof using gpu_pos factor_pos.
  intros Hnd Hs He. apply (list_ext_NoDup _ (λ i, Z.to_nat (factor * (start + Z.of_nat i) + factor - 1)) (block_hashes r)); [done|intros i j; nia|].
  intros i x. destruct e as [e|]; [|by rewrite hashes_all by done]. rewrite hashes_upto by (done || by apply He). by destruct (_ <? _).
Qed.

(** *** The blocks in transfer *)

Definition storing s id : gset hash := default ∅ (reqs_being_stored s !! id).
Definition loading s id : gset hash := default ∅ (reqs_being_loaded s !! id).
Definition loads s (h : hash) : Z := loads_in (reqs_being_loaded s) h.
Definition find s (h : hash) : option (BlockStatus Z) := om_find (manager s) h.

(** The blocks that a request stores are not ready, and nobody else stores them; a block that
    requests load is pinned once for each of them; no other block is pinned; and with prefix
    caching no block is loaded twice at a time. *)
Record inv s : Prop := {
  i_manager : om_inv (manager s);
  i_storing id h : h ∈ storing s id → ∃ p, find s h = Some (BS (-1) p);
  i_storer id1 id2 h : h ∈ storing s id1 → h ∈ storing s id2 → id1 = id2;
  i_loading id h : h ∈ loading s id → ∃ p, find s h = Some (BS (loads s h) p);
  i_idle h b : find s h = Some b → ref_cnt b = loads s h ∨ ref_cnt b = -1 ∧ ∃ id, h ∈ storing s id;
  i_caching l : blocks_being_loaded s = Some l →
    (∀ h, h ∈ l ↔ ∃ id, h ∈ loading s id) ∧ ∀ id1 id2 h, h ∈ loading s id1 → h ∈ loading s id2 → id1 = id2;
  i_to_load : NoDup (od_keys (to_load s)) ∧ ∀ id, id ∈ od_keys (to_load s) → loading s id ≠ ∅;
  i_known id : id ∈ known s → is_Some (request_block_ids s !! id);
  i_next id k : next_stored_block_idx s !! id = Some k → 0 ≤ k;
  i_bound : Z.of_nat (size (reqs_being_loaded s)) < 2 ^ 31
}.

Lemma loads_pos s h : 0 < loads s h ↔ ∃ id, h ∈ loading s id.
Proof.
  unfold loads. rewrite loads_in_pos. unfold loading. split.
  - intros (id & X & Hid & Hx). exists id. by rewrite Hid.
  - intros [id Hx]. destruct (reqs_being_loaded s !! id) as [X|] eqn:Hid; [by exists id, X|by apply elem_of_empty in Hx].
Qed.

Lemma loads_nonneg s h : 0 ≤ loads s h.
Proof. apply loads_in_nonneg. Qed.

(** Ready blocks are those that are not being stored. *)
Lemma ready_not_storing s h b : inv s → find s h = Some b → is_ready b = true ↔ ∀ id, h ∉ storing s id.
Proof.
  intros Hi Hb. unfold is_ready. rewrite Z.leb_le. split.
  - intros Hr id Hh. destruct (i_storing _ Hi id h Hh) as [p Hp]. rewrite Hb in Hp. injection Hp as ->. simpl in Hr. lia.
  - intros Hno. pose proof (loads_nonneg s h). destruct (i_idle _ Hi h b Hb) as [->|[_ [id Hh]]]; [done|by apply Hno in Hh].
Qed.

(** The manager moved on, with the same status of every block. *)
Lemma inv_manager s m : inv s → om_inv m → (∀ h, om_find m h = find s h) → inv (set_manager m s).
Proof. intros [] Hm Hf. split; unfold find in *; simpl; try done; setoid_rewrite Hf; done. Qed.

Lemma touch_runs s hs (Q : unit → t → Prop) :
  inv s → (∀ m, om_inv m → (∀ h, om_find m h = find s h) → Q tt (set_manager m s)) → runs (on_manager (touch hs)) s Q.
Proof.
  intros Hi HQ. destruct (touch_law (manager s) hs (i_manager _ Hi)) as [H1 H2]. pose proof (om_inv_law (manager s) (Touch hs) (i_manager _ Hi) I) as [H3 _].
  simpl in H2, H3. exists tt, (set_manager (touch hs (manager s)).2 s). split; [|by apply HQ]. unfold on_manager. destruct (touch hs (manager s)). simpl in *. by subst.
Qed.

(** *** What can be loaded *)

Definition ready s (h : hash) : Prop := ∃ b, find s h = Some b ∧ is_ready b = true.

Lemma hit_count_spec (g : hash → option (BlockStatus Z)) hs :
  let n := hit_count g hs in
  0 ≤ n ≤ zlen hs ∧ (∀ (i : nat) h, Z.of_nat i < n → hs !! i = Some h → ∃ b, g h = Some b ∧ is_ready b = true)
  ∧ ∀ h, hs !! Z.to_nat n = Some h → ¬ ∃ b, g h = Some b ∧ is_ready b = true.
Proof.
  induction hs as [|x hs IH]; simpl; [split; [done|split; [lia|done]]|]. rewrite zlen_cons. pose proof (zlen_nonneg hs).
  destruct (g x) as [b|] eqn:Hg; [destruct (is_ready b) eqn:Hb|]; simpl.
  - destruct IH as (Hn & Hin & Hout). set (n := hit_count g hs) in *. split; [lia|]. split.
    + intros [|i] h Hi Hh; [injection Hh as <-; by exists b|]. apply (Hin i h); [lia|done].
    + intros h. replace (Z.to_nat (1 + n)) with (Datatypes.S (Z.to_nat n)) by lia. apply Hout.
  - split; [lia|]. split; [lia|]. intros h [= <-] (b' & Hb' & Hr). congruence.
  - split; [lia|]. split; [lia|]. intros h [= <-] (b' & Hb' & Hr). congruence.
Qed.

Lemma num_blocks_eq r : hashed r → zlen (block_hashes r) `div` factor = num_tokens r `div` off.
Proof using factor_pos gpu_pos. intros [-> _]. rewrite Z.div_div by lia. f_equal. lia. Qed.

(** The answers: the tokens up to an offloaded block, when all blocks up to it are ready and
    none of them is just being loaded, and the next one is not; none, when not even one block
    is gained; and no answer, when a block is being loaded. *)
Definition answers s r (n : Z) (answer : option Z * bool) : Prop :=
  match answer with
  | (Some k, true) => ∃ e, n + k = off * e ∧ off ≤ k ∧ e ≤ num_tokens r `div` off
      ∧ (∀ i, n `div` off ≤ i < e → ∃ h, chunk r i = Some h ∧ ready s h ∧ ∀ id, is_Some (blocks_being_loaded s) → h ∉ loading s id)
      ∧ (e = num_tokens r `div` off ∨ ∃ h, chunk r e = Some h ∧ ¬ ready s h)
  | (Some k, false) => k = 0 ∧ ∀ e, e ≤ num_tokens r `div` off → (∀ i, n `div` off ≤ i < e → ∃ h, chunk r i = Some h ∧ ready s h) → off * e - n < off
  | (None, _) => ∃ i h id, n `div` off ≤ i ∧ chunk r i = Some h ∧ ready s h ∧ h ∈ loading s id
  end.

Lemma chunk_block r k : hashed r → 0 ≤ k → is_Some (chunk r k) ↔ k < num_tokens r `div` off.
Proof using factor_pos gpu_pos.
  intros Hr Hk. rewrite chunk_is_Some by done. rewrite <- num_blocks_eq by done. set (z := zlen (block_hashes r)).
  pose proof (Z.div_mod z factor ltac:(lia)). pose proof (Z.mod_pos_bound z factor factor_pos). nia.
Qed.

Lemma lookup_hits s r start :
  hashed r → 0 ≤ start → inv s → ∃ hits, lookup_blocks (get_block_hashes r start None) (manager s) = Some hits ∧ 0 ≤ hits
  ∧ (hits ≠ 0 → start + hits ≤ num_tokens r `div` off) ∧ (∀ i, start ≤ i < start + hits → ∃ h, chunk r i = Some h ∧ ready s h)
  ∧ (start + hits < num_tokens r `div` off → ∃ h, chunk r (start + hits) = Some h ∧ ¬ ready s h).
Proof using gpu_pos factor_pos.
  intros Hr Hs Hi. rewrite (lookup_law (manager s) _ (i_manager _ Hi)). set (l := get_block_hashes r start None).
  assert (∀ i, l !! i = chunk r (start + Z.of_nat i)) as Hl by (intros i; by apply hashes_all).
  destruct (hit_count_spec (om_find (manager s)) l) as (Hn & Hin & Hout). set (hits := hit_count _ l) in *. exists hits. split; [done|].
  assert (∀ i, start ≤ i < start + hits → ∃ h, chunk r i = Some h ∧ ready s h) as Hready.
  { intros i Hii. destruct (lookup_lt_is_Some_2 l (Z.to_nat (i - start))) as [h Hh]; [unfold zlen in Hn; lia|]. exists h. split.
    - rewrite Hl in Hh. by replace (start + Z.of_nat (Z.to_nat (i - start))) with i in Hh by lia.
    - apply (Hin (Z.to_nat (i - start)) h); [lia|done]. }
  split; [lia|]. split; [|split; [done|]].
  - intros Hne. destruct (Hready (start + hits - 1) ltac:(lia)) as (h & Hh & _).
    assert (start + hits - 1 < num_tokens r `div` off); [|lia]. apply (chunk_block r _ Hr); [lia|by eexists].
  - intros Hlt. destruct (proj2 (chunk_block r (start + hits) Hr ltac:(lia)) Hlt) as [h Hh]. exists h. split; [done|]. apply Hout.
    rewrite Hl. by replace (start + Z.of_nat (Z.to_nat hits)) with (start + hits) by lia.
Qed.

Lemma matched_tokens_runs s r n :
  inv s → hashed r → 0 ≤ n → 0 ≤ num_tokens r →
  runs (get_num_new_matched_tokens block_hashes gpu_block_size off r n) s (λ answer s',
    (∃ m, s' = set_manager m s ∧ om_inv m ∧ ∀ h, om_find m h = find s h) ∧ answers s r n answer).
Proof using gpu_pos factor_pos.
  intros Hi Hr Hn Hnt. unfold get_num_new_matched_tokens. rewrite factor_eq. assert (0 < off) as Hoff by nia. unfold py_div.
  rewrite (proj2 (Z.eqb_neq off 0)), (proj2 (Z.eqb_neq factor 0)) by lia. eapply runs_lift; [done|]. eapply runs_lift; [done|].
  apply runs_passert; [rewrite num_blocks_eq by done; apply Z.eqb_refl|]. set (nb := num_tokens r `div` off).
  eapply runs_seq; [by apply (touch_runs s _ (λ _ s', ∃ m, s' = set_manager m s ∧ om_inv m ∧ ∀ h, om_find m h = find s h)); eauto|].
  intros [] s1 (m & -> & Hm & Hf).
  assert (inv (set_manager m s)) as Hi1 by by apply inv_manager. assert (∀ h, ready (set_manager m s) h ↔ ready s h) as Hrd.
  { intros h. unfold ready, find at 1. simpl. by rewrite Hf. }
  set (start := n `div` off). assert (0 ≤ start) as Hst by (apply Z.div_pos; lia). assert (off * start ≤ n < off * start + off) as Hdm.
  { pose proof (Z.div_mod n off ltac:(lia)). pose proof (Z.mod_pos_bound n off Hoff). unfold start. lia. }
  destruct (Z.ltb_spec (off * nb - n) off) as [Hsmall|Hbig].
  { runs_step. split; [by exists m|]. split; [done|]. fold nb. intros e He _. nia. }
  eapply runs_lift; [done|]. runs_step. fold start.
  destruct (lookup_hits (set_manager m s) r start Hr Hst Hi1) as (hits & -> & Hh0 & Hle & Hready & Hstop). fold nb in Hle, Hstop.
  assert (∀ e, e ≤ nb → (∀ i, start ≤ i < e → ∃ h, chunk r i = Some h ∧ ready s h) → e ≤ start + hits) as Hmax.
  { intros e He Hall. destruct (decide (e ≤ start + hits)) as [|Hgt]; [done|]. exfalso. destruct Hstop as (h & Hh & Hno); [lia|].
    destruct (Hall (start + hits)) as (h' & Hh' & Hr'); [lia|]. rewrite Hh in Hh'. injection Hh' as <-. by apply Hno, Hrd. }
  destruct (Z.eqb_spec hits 0) as [->|Hne].
  { runs_step. split; [by exists m|]. split; [done|]. fold nb start. intros e He Hall. specialize (Hmax e He Hall). nia. }
  specialize (Hle Hne). destruct (Z.ltb_spec (off * (start + hits) - n) off) as [Hsm|Hbg].
  { runs_step. split; [by exists m|]. split; [done|]. fold nb start. intros e He Hall. specialize (Hmax e He Hall). nia. }
  set (l := get_block_hashes r start (Some (start + hits))). change (blocks_being_loaded (set_manager m s)) with (blocks_being_loaded s).
  destruct (existsb _ l) eqn:Hex; runs_step; (split; [by exists m|]).
  - apply existsb_exists in Hex as (h & Hin%list_elem_of_In & Hb%bool_decide_eq_true). apply hashes_elem in Hin as (i & Hii & Hc); [|lia..].
    destruct (blocks_being_loaded s) as [lb|] eqn:Hlb; [|by apply elem_of_empty in Hb]. apply (i_caching _ Hi lb Hlb) in Hb as [id Hid].
    exists i, h, id. fold start. split; [lia|]. split; [done|]. split; [|done]. destruct (Hready i ltac:(lia)) as (h' & Hc' & Hr'). rewrite Hc in Hc'. injection Hc' as <-. by apply Hrd.
  - exists (start + hits). fold nb start. split; [lia|]. split; [done|]. split; [done|]. split.
    + intros i Hii. destruct (Hready i Hii) as (h & Hc & Hr'). exists h. split; [done|]. split; [by apply Hrd|]. intros id [lb Hlb] Hid.
      assert (existsb (λ h, bool_decide (h ∈ default ∅ (blocks_being_loaded s))) l = true) as Ht; [|congruence].
      apply existsb_exists. exists h. split; [apply list_elem_of_In, hashes_elem; [lia..|by exists i]|]. apply bool_decide_eq_true. rewrite Hlb. simpl.
      apply (i_caching _ Hi lb Hlb). by exists id.
    + destruct (decide (start + hits = nb)) as [|Hneq]; [by left|right]. destruct Hstop as (h & Hc & Hno); [lia|]. exists h. split; [done|]. by rewrite <- Hrd.
Qed.

(** *** Starting a load *)

Definition hashed_blocks_of (group : list FreeQueue.KVCacheBlock) : Z := zlen (filter (λ b, is_Some (FreeQueue.block_hash b)) group).

(** The request got blocks for its cached tokens and for those that the connector promised,
    up to the end of the offloaded block before [e], and none of its loads is under way. *)
Record allocated s r (group : list FreeQueue.KVCacheBlock) (ext e : Z) : Prop := {
  al_tokens : hashed_blocks_of group * gpu_block_size + ext = off * e;
  al_pending : ext = (zlen group - hashed_blocks_of group) * gpu_block_size;
  al_some : 0 < ext;
  al_end : e ≤ num_tokens r `div` off;
  al_ready i : hashed_blocks_of group `div` factor ≤ i < e → ∃ h, chunk r i = Some h ∧ ready s h ∧ ∀ id, is_Some (blocks_being_loaded s) → h ∉ loading s id;
  al_idle : loading s (request_id r) = ∅;
  al_bound : Z.of_nat (size (reqs_being_loaded s)) < 2 ^ 31 - 1
}.

(** The request's load: the offloaded blocks [hs], into the blocks [dst], without the first
    [skip] parts. *)
Record load_of s s' r (group : list FreeQueue.KVCacheBlock) (e : Z) (hs : list hash) (ps : list Z) (dst : list Z) (skip : Z) : Prop := {
  lo_hashes : hs = get_block_hashes r (hashed_blocks_of group `div` factor) (Some e);
  lo_places : Forall2 (λ h p, ∃ c, find s' h = Some (BS c p) ∧ 0 < c) hs ps;
  lo_blocks : dst = drop (Z.to_nat (hashed_blocks_of group)) (FreeQueue.block_id <$> group);
  lo_skip : 0 ≤ skip < factor ∧ skip = hashed_blocks_of group `mod` factor;
  lo_length : zlen dst = zlen ps * factor - skip;
  lo_loading : loading s' (request_id r) = list_to_set hs ∧ hs ≠ []
}.

(** The blocks that a load pins. *)
Lemma inv_pin s s' (id : string) (X : gset hash) :
  inv s → loading s id = ∅ → (∀ h, h ∈ X → ready s h) → (∀ h id', h ∈ X → is_Some (blocks_being_loaded s) → h ∉ loading s id') →
  Z.of_nat (size (reqs_being_loaded s)) < 2 ^ 31 - 1 →
  om_inv (manager s') → (∀ h, find s' h = if decide (h ∈ X) then add_ref 1 <$> find s h else find s h) →
  reqs_being_stored s' = reqs_being_stored s → reqs_being_loaded s' = <[id := X]> (reqs_being_loaded s) →
  blocks_being_loaded s' = (λ l, X ∪ l) <$> blocks_being_loaded s →
  (NoDup (od_keys (to_load s')) ∧ ∀ i, i ∈ od_keys (to_load s') → loading s' i ≠ ∅) →
  (∀ i, i ∈ known s' → is_Some (request_block_ids s' !! i)) → (∀ i k, next_stored_block_idx s' !! i = Some k → 0 ≤ k) →
  inv s' ∧ ∀ h, h ∈ X → ∃ p b, find s h = Some b ∧ payload b = p ∧ find s' h = Some (BS (loads s h + 1) p).
Proof.
  intros Hi Hid Hready Hcache Hbound Hm Hf Hst Hld Hbb Htl Hkn Hnx.
  assert (∀ h, loads s' h = loads s h + if decide (h ∈ X) then 1 else 0) as Hloads by (intros h; unfold loads; by rewrite Hld, loads_in_insert).
  assert (∀ id', storing s' id' = storing s id') as Hstor by (intros id'; unfold storing; by rewrite Hst).
  assert (∀ id', loading s' id' = if decide (id' = id) then X else loading s id') as Hlo.
  { intros id'. unfold loading. rewrite Hld. case_decide as Hd; [by rewrite Hd, lookup_insert_eq|by rewrite lookup_insert_ne]. }
  assert (∀ h, h ∈ X → ∃ p b, find s h = Some b ∧ payload b = p ∧ find s' h = Some (BS (loads s h + 1) p)) as Hpin.
  { intros h Hh. destruct (Hready h Hh) as (b & Hb & Hr). exists (payload b), b. split; [done|]. split; [done|]. rewrite Hf, decide_True, Hb by done. simpl. f_equal.
    unfold add_ref. f_equal. pose proof (loads_nonneg s h). assert (ref_cnt b = loads s h) as ->.
    { destruct (i_idle _ Hi h b Hb) as [|[Hneg _]]; [done|]. unfold is_ready in Hr. rewrite Hneg in Hr. done. }
    apply c_int_id; [done|]. pose proof (loads_in_bound (reqs_being_loaded s) h). unfold loads in *. change (32 - 1) with 31. lia. }
  split; [|done]. split.
  - done.
  - intros id' h. rewrite Hstor. intros Hh. destruct (i_storing _ Hi id' h Hh) as [p Hp]. exists p. rewrite Hf, decide_False; [done|].
    intros Hx. destruct (Hready h Hx) as (b & Hb & Hr). rewrite Hp in Hb. by injection Hb as <-.
  - intros id1 id2 h. rewrite !Hstor. apply (i_storer _ Hi).
  - intros id' h Hh. destruct (decide (h ∈ X)) as [Hx|Hx].
    + destruct (Hpin h Hx) as (p & b & _ & _ & Hp). exists p. rewrite Hp, Hloads, decide_True by done. done.
    + rewrite Hlo in Hh. case_decide as Hd; [done|]. destruct (i_loading _ Hi id' h Hh) as [p Hp]. exists p. rewrite Hf, Hloads, !decide_False by done. by rewrite Z.add_0_r.
  - intros h b Hb. destruct (decide (h ∈ X)) as [Hx|Hx].
    + destruct (Hpin h Hx) as (p & b' & _ & _ & Hp). rewrite Hb in Hp. injection Hp as ->. left. rewrite Hloads, decide_True by done. done.
    + rewrite Hf, decide_False in Hb by done. destruct (i_idle _ Hi h b Hb) as [Hr|[Hr [id' Hh]]]; [left|right; split; [done|exists id'; by rewrite Hstor]].
      rewrite Hloads, decide_False by done. lia.
  - intros l Hl. rewrite Hbb in Hl. destruct (blocks_being_loaded s) as [l0|] eqn:Hl0; [|done]. simpl in Hl. injection Hl as <-. destruct (i_caching _ Hi l0 Hl0) as [Hc1 Hc2].
    assert (∀ h id', h ∈ X → h ∉ loading s id') as Hdis by (intros h id' Hh; apply (Hcache h id' Hh); by eexists).
    split.
    + intros h. rewrite elem_of_union, Hc1. split.
      * intros [Hx|[id' Hh]]; [exists id; by rewrite Hlo, decide_True|exists id']. rewrite Hlo. case_decide as Hd; [|done]. rewrite Hd, Hid in Hh. by apply elem_of_empty in Hh.
      * intros [id' Hh]. rewrite Hlo in Hh. case_decide; [by left|right; by exists id'].
    + intros id1 id2 h. rewrite !Hlo. repeat case_decide; subst; try done; [intros Hx Hh|intros Hh Hx|apply Hc2]; by apply Hdis in Hh.
  - done.
  - done.
  - done.
  - rewrite Hld. destruct (reqs_being_loaded s !! id) as [Y|] eqn:HY; [rewrite map_size_insert_Some by (by eexists)|rewrite map_size_insert_None by done]; lia.
Qed.

Lemma loads_in_keys s id : inv s → loading s id = ∅ → id ∉ od_keys (to_load s).
Proof. intros Hi He Hin. by apply (i_to_load _ Hi) in Hin. Qed.

Lemma alloc_runs s r group groups ext e :
  inv s → hashed r → allocated s r group ext e →
  runs (update_state_after_alloc block_hashes gpu_block_size off r (group :: groups) ext) s (λ _ s', ∃ hs ps dst skip, inv s'
    ∧ load_of s s' r group e hs ps dst skip
    ∧ to_load s' = to_load s ++ [(request_id r, (CPULoadStoreSpec ps, GPULoadStoreSpec dst))]
    ∧ (∀ id, id ≠ request_id r → loading s' id = loading s id) ∧ reqs_being_stored s' = reqs_being_stored s
    ∧ (∀ h c p, find s h = Some (BS c p) → find s' h = Some (BS (if decide (h ∈ hs) then c + 1 else c) p))
    ∧ ∀ h, find s h = None → find s' h = None).
Proof using All.
  intros Hi Hr []. set (c := hashed_blocks_of group) in *. assert (0 ≤ c) by apply zlen_nonneg. assert (0 < off) as Hoff by nia.
  assert ((c * gpu_block_size) `div` off = c `div` factor) as Hstart by (apply Z.div_mul_cancel_r; lia).
  set (start := c `div` factor) in *. assert (0 ≤ start) by (apply Z.div_pos; lia).
  pose proof (Z.div_mod c factor ltac:(lia)) as Hdm. pose proof (Z.mod_pos_bound c factor factor_pos) as Hmb. fold start in Hdm.
  assert (zlen group = factor * e) as Hlen by nia. assert (start < e) by nia.
  set (hs := get_block_hashes r start (Some e)). assert (∀ h, h ∈ hs → ready s h ∧ ∀ id, is_Some (blocks_being_loaded s) → h ∉ loading s id) as Hhs.
  { intros h (k & Hk & Hc)%hashes_elem; [|lia..]. destruct (al_ready0 k) as (h' & Hc' & Hrd); [done|]. rewrite Hc in Hc'. by injection Hc' as <-. }
  assert (zlen hs = e - start) as Hhl.
  { apply hashes_zlen; [lia..|]. rewrite <- (num_blocks_eq r Hr) in al_end0. pose proof (Z.mul_div_le (zlen (block_hashes r)) factor ltac:(lia)). nia. }
  assert (NoDup hs) as Hnd by (apply hashes_NoDup; [apply Hr|lia|intros x [= <-]; lia]).
  destruct (prepare_load_law (manager s) hs (i_manager _ Hi) Hnd) as [(ps & Hps & Hpl) Hfind]; [intros h Hh; by apply Hhs|].
  rewrite places_spec in Hps. pose proof (om_inv_law (manager s) (PrepareLoad hs) (i_manager _ Hi) I) as [Hm' _]. simpl in Hm', Hfind.
  assert (zlen ps = e - start) as Hpsl by (apply Forall2_length in Hpl; unfold zlen in *; lia).
  unfold update_state_after_alloc. do 2 runs_step. rewrite (proj2 (Z.eqb_neq ext 0)), factor_eq by lia. apply (runs_lift _ group); [by rewrite py_index_nonneg by lia|].
  fold (hashed_blocks_of group). fold c. apply (runs_lift _ 0). { unfold py_mod. rewrite (proj2 (Z.eqb_neq off 0)) by lia. rewrite al_tokens0. f_equal. rewrite Z.mul_comm. apply Z.mod_mul. lia. }
  apply runs_passert; [done|]. apply runs_passert; [rewrite zlen_fmap; by apply Z.eqb_eq|]. unfold py_div. rewrite !(proj2 (Z.eqb_neq _ 0)) by lia.
  eapply runs_lift; [done|]. eapply runs_lift; [done|]. eapply runs_lift; [done|]. rewrite Hstart, al_tokens0, (Z.mul_comm off), Z.div_mul, num_blocks_eq by (done || lia).
  apply runs_passert; [by apply Z.leb_le|]. fold hs. set (s1 := set_block_ids _ _).
  apply (runs_ok _ _ _ ps (set_manager (prepare_load hs (manager s)).2 s1)). { unfold on_manager. simpl. destruct (prepare_load hs (manager s)). simpl in *. by rewrite Hps. }
  do 3 runs_step. runs_step. set (dst := py_slice _ _ _). set (X := list_to_set hs ∪ _). match goal with |- ∃ _ _ _ _, inv ?x ∧ _ => set (s' := x) end.
  assert (X = list_to_set hs) as HX by (unfold X; simpl; fold (loading s (request_id r)); rewrite al_idle0; apply (right_id_L ∅ (∪))).
  assert (dst = drop (Z.to_nat c) (FreeQueue.block_id <$> group)) as Hdst.
  { unfold dst. rewrite py_slice_nonneg by (rewrite ?zlen_fmap; nia). rewrite zlen_fmap. apply take_ge. rewrite length_drop, length_fmap. unfold zlen. lia. }
  assert (manager s' = (prepare_load hs (manager s)).2 ∧ reqs_being_stored s' = reqs_being_stored s ∧ reqs_being_loaded s' = <[request_id r := X]> (reqs_being_loaded s)
    ∧ blocks_being_loaded s' = (λ l, X ∪ l) <$> blocks_being_loaded s
    ∧ to_load s' = od_set (request_id r) (CPULoadStoreSpec ps, GPULoadStoreSpec dst) (to_load s)) as (E1 & E2 & E3 & E4 & E5).
  { unfold s'. simpl. destruct (blocks_being_loaded s) eqn:Hbb; simpl; rewrite ?Hbb; [|done]. rewrite lookup_insert_eq. done. }
  pose proof (loads_in_keys s (request_id r) Hi al_idle0) as Hkey. rewrite od_set_fresh in E5 by (by apply od_get_None).
  destruct (inv_pin s s' (request_id r) X Hi al_idle0) as [Hi' Hpin]; [..|exists hs, ps, dst, (c `mod` factor)].
  - intros h. rewrite HX, elem_of_list_to_set. apply Hhs.
  - intros h id. rewrite HX, elem_of_list_to_set. intros Hh Hb. by apply Hhs.
  - done.
  - by rewrite E1.
  - intros h. unfold find. rewrite E1, Hfind. apply decide_ext. by rewrite HX, elem_of_list_to_set.
  - done.
  - done.
  - done.
  - rewrite E5. unfold od_keys. rewrite fmap_app. simpl. destruct (i_to_load _ Hi) as [Hk1 Hk2]. split; [apply NoDup_app; split; [done|]; split; [|apply NoDup_singleton]|].
    + intros x Hx ->%list_elem_of_singleton. done.
    + intros x Hx. unfold loading. rewrite E3. destruct (decide (x = request_id r)) as [->|Hne].
      * rewrite lookup_insert_eq. simpl. rewrite HX. intros He. destruct hs as [|h hs']; [unfold zlen in Hhl; simpl in Hhl; lia|].
        assert (h ∈ (list_to_set (h :: hs') : gset hash)) as Hin by (apply elem_of_list_to_set; by left). rewrite He in Hin. by apply elem_of_empty in Hin.
      * rewrite lookup_insert_ne by done. apply Hk2. apply elem_of_app in Hx as [?|?%list_elem_of_singleton]; [done|by subst].
  - intros x. assert (known s' = {[request_id r]} ∪ known s ∧ request_block_ids s' = <[request_id r := []]> (request_block_ids s)) as [-> ->].
    { unfold s'. simpl. by destruct (blocks_being_loaded s). }
    destruct (decide (x = request_id r)) as [->|Hne]; [rewrite lookup_insert_eq; by eexists|]. rewrite lookup_insert_ne by done.
    intros [?%elem_of_singleton|?]%elem_of_union; [done|by apply (i_known _ Hi)].
  - intros x k. assert (next_stored_block_idx s' = <[request_id r := e]> (next_stored_block_idx s)) as -> by (unfold s'; simpl; by destruct (blocks_being_loaded s)).
    destruct (decide (x = request_id r)) as [->|Hne]; [rewrite lookup_insert_eq; intros [= <-]; lia|]. rewrite lookup_insert_ne by done. apply (i_next _ Hi).
  - split; [done|]. split; [|split; [done|split; [|split; [done|]]]].
    + split; [done| |done|split; [lia|done]| |].
      * eapply Forall2_impl_in; [exact Hpl|]. intros h p Hh Hp. simpl in Hp. destruct (Hpin h) as (p' & b & Hb & Hpb & Hp'); [rewrite HX; by apply elem_of_list_to_set|].
        unfold find in Hb. rewrite Hb in Hp. simpl in Hp. injection Hp as <-. rewrite Hpb. exists (loads s h + 1). split; [done|]. pose proof (loads_nonneg s h). lia.
      * rewrite Hdst. unfold zlen in *. rewrite length_drop, length_fmap. nia.
      * unfold loading. rewrite E3, lookup_insert_eq. split; [done|]. intros ->. unfold zlen in Hhl. simpl in Hhl. lia.
    + intros id Hne. unfold loading. by rewrite E3, lookup_insert_ne.
    + split.
      * intros h n p Hp. destruct (decide (h ∈ hs)) as [Hh|Hh].
        -- destruct (Hpin h) as (p' & b & Hb & Hpb & Hp'); [rewrite HX; by apply elem_of_list_to_set|]. rewrite Hp in Hb. injection Hb as <-. simpl in Hpb. subst p'.
           destruct (i_idle _ Hi h _ Hp) as [Hl|[Hneg _]]; simpl in *; [by rewrite Hl|]. destruct (proj1 (Hhs h Hh)) as (b & Hb & Hrd). rewrite Hp in Hb. injection Hb as <-.
           unfold is_ready in Hrd. simpl in Hrd. by rewrite Hneg in Hrd.
        -- unfold find. rewrite E1, Hfind, decide_False by done. done.
      * intros h Hno. unfold find. rewrite E1, Hfind. case_decide as Hh; [|done]. destruct (proj1 (Hhs h Hh)) as (b & Hb & _). by rewrite Hno in Hb.
Qed.

(** *** Storing *)

(** New blocks of a request are being stored; idle blocks may have made room for them. *)
Record stores_more s s' (id : string) (new : list hash) : Prop := {
  sm_inv : inv s';
  sm_old h b : find s' h = Some b → h ∉ new → find s h = Some b;
  sm_keep h b : find s h = Some b → ref_cnt b ≠ 0 → find s' h = Some b;
  sm_new h : h ∈ new → find s h = None ∧ ∃ p, find s' h = Some (BS (-1) p);
  sm_storing id' : storing s' id' = if decide (id' = id) then storing s id ∪ list_to_set new else storing s id';
  sm_loaded : reqs_being_loaded s' = reqs_being_loaded s;
  sm_to_load : to_load s' = to_load s;
  sm_known : known s' = known s;
  sm_ids id' : id' ≠ id → request_block_ids s' !! id' = request_block_ids s !! id' ∧ next_stored_block_idx s' !! id' = next_stored_block_idx s !! id'
}.

(** What [prepare_store] does to the blocks, in either outcome. *)
Lemma prepare_store_cases m hs :
  om_inv m → NoDup hs → ∃ new o m',
    prepare_store hs m = (Ok o, m') ∧ om_inv m'
    ∧ (∀ h b, om_find m' h = Some b → h ∉ new → om_find m h = Some b)
    ∧ (∀ h b, om_find m h = Some b → ref_cnt b ≠ 0 → om_find m' h = Some b)
    ∧ match o with
      | None => new = []
      | Some out => block_hashes_to_store out = new ∧ new = filter (λ h, om_find m h = None) hs
          ∧ Forall2 (λ h p, om_find m' h = Some (BS (-1) p)) new (store_spec out)
      end.
Proof using places_spec.
  intros Hm Hnd. pose proof (om_inv_law m (PrepareStore hs) Hm Hnd) as [Hm' _]. simpl in Hm'.
  assert (∀ h b, om_find m h = Some b → ref_cnt b ≠ 0 → om_find (prepare_store hs m).2 h = Some b) as Hkeep.
  { intros h b Hb Hr. apply (om_frame_law m (PrepareStore hs) h b Hm Hnd); [apply not_elem_of_nil|done|done]. }
  destruct (prepare_store_law m hs Hm Hnd) as [[Hr Hf]|(out & ps & Hr & Hnew & Hsp & Hps & Hev & Hf)]; simpl in Hf.
  - exists [], None, (prepare_store hs m).2. split; [rewrite <- Hr; by destruct (prepare_store hs m)|]. split; [done|].
    split; [by intros h b Hb _; apply Hf|]. done.
  - exists (block_hashes_to_store out), (Some out), (prepare_store hs m).2. split; [rewrite <- Hr; by destruct (prepare_store hs m)|]. split; [done|].
    split; [|split; [done|split; [done|split; [done|]]]].
    + intros h b Hb Hno. rewrite Hf in Hb by done. by case_decide.
    + by rewrite Hsp, places_spec.
Qed.

(** The request's state after [prepare_store], before anything else is recorded. *)
Lemma stores_more_inv s s' id new :
  inv s → om_inv (manager s') → (∀ h b, find s' h = Some b → h ∉ new → find s h = Some b) → (∀ h b, find s h = Some b → ref_cnt b ≠ 0 → find s' h = Some b) →
  (∀ h, h ∈ new → find s h = None ∧ ∃ p, find s' h = Some (BS (-1) p)) →
  (∀ id', storing s' id' = if decide (id' = id) then storing s id ∪ list_to_set new else storing s id') →
  reqs_being_loaded s' = reqs_being_loaded s → blocks_being_loaded s' = blocks_being_loaded s → to_load s' = to_load s → known s' = known s →
  (∀ id', is_Some (request_block_ids s !! id') → is_Some (request_block_ids s' !! id')) → (∀ i k, next_stored_block_idx s' !! i = Some k → 0 ≤ k) →
  (∀ id', id' ≠ id → request_block_ids s' !! id' = request_block_ids s !! id' ∧ next_stored_block_idx s' !! id' = next_stored_block_idx s !! id') →
  stores_more s s' id new.
Proof.
  intros Hi Hm Hold Hkeep Hnew Hst Hld Hbb Htl Hkn Hids Hnx Hoth.
  assert (∀ id', loading s' id' = loading s id') as Hl by (intros id'; unfold loading; by rewrite Hld).
  assert (∀ h, loads s' h = loads s h) as Hls by (intros h; unfold loads; by rewrite Hld).
  assert (∀ id' h, h ∈ storing s' id' → (id' = id ∧ h ∈ new) ∨ h ∈ storing s id') as Hsplit.
  { intros id' h. rewrite Hst. case_decide as Hd; [|by right]. rewrite elem_of_union, elem_of_list_to_set. subst id'. tauto. }
  assert (∀ id' h, h ∈ storing s id' → h ∉ new) as Hfresh.
  { intros id' h Hh Hn. destruct (i_storing _ Hi id' h Hh) as [p Hp]. destruct (Hnew h Hn) as [Hno _]. congruence. }
  split; try done. split; try done.
  - intros id' h [[_ Hn]|Hh]%Hsplit; [by destruct (Hnew h Hn) as [_ ?]|]. destruct (i_storing _ Hi id' h Hh) as [p Hp]. exists p. by apply Hkeep.
  - intros id1 id2 h [[-> H1]|H1]%Hsplit [[-> H2]|H2]%Hsplit; [done|by apply Hfresh in H2|by apply Hfresh in H1|by apply (i_storer _ Hi id1 id2 h)].
  - intros id' h Hh. rewrite Hl in Hh. destruct (i_loading _ Hi id' h Hh) as [p Hp]. exists p. rewrite Hls. apply Hkeep; [done|]. simpl.
    assert (0 < loads s h) by (apply loads_pos; by exists id'). lia.
  - intros h b Hb. rewrite Hls. destruct (decide (h ∈ new)) as [Hn|Hn].
    + right. destruct (Hnew h Hn) as [_ [p Hp]]. rewrite Hb in Hp. injection Hp as ->. split; [done|]. exists id. rewrite Hst, decide_True by done.
      apply elem_of_union. right. by apply elem_of_list_to_set.
    + destruct (i_idle _ Hi h b (Hold h b Hb Hn)) as [?|[? [id' Hh]]]; [by left|right]. split; [done|]. exists id'. rewrite Hst. case_decide; [|done]. subst. apply elem_of_union. by left.
  - intros l Hlb. rewrite Hbb in Hlb. destruct (i_caching _ Hi l Hlb) as [H1 H2]. split; [intros h; setoid_rewrite Hl; apply H1|]. intros id1 id2 h. rewrite !Hl. apply H2.
  - rewrite Htl. split; [apply Hi|]. intros id'. rewrite Hl. apply Hi.
  - intros id'. rewrite Hkn. intros Hk. by apply Hids, (i_known _ Hi).
  - rewrite Hld. apply Hi.
Qed.

(** The blocks of the GPU that the chosen ones of the offloaded blocks [start], ... consist of. *)
Lemma source_blocks_spec (to : list hash) ids start hs :
  0 ≤ start → (start + zlen hs) * factor ≤ zlen ids →
  ∃ src, source_blocks gpu_block_size off to ids start hs = Ok src ∧ zlen src = zlen (filter (λ h, h ∈ to) hs) * factor
  ∧ ∀ (j : nat) h, filter (λ h, h ∈ to) hs !! j = Some h → ∃ i : nat, hs !! i = Some h
      ∧ ∀ q, 0 ≤ q < factor → src !! Z.to_nat (Z.of_nat j * factor + q) = ids !! Z.to_nat ((start + Z.of_nat i) * factor + q).
Proof using gpu_pos factor_pos.
  revert start. induction hs as [|h hs IH]; intros start Hs Hl.
  { exists []. split; [done|]. split; [done|]. intros j h Hj. done. }
  rewrite zlen_cons in Hl. destruct (IH (start + 1)) as (src & Hrun & Hlen & Hsrc); [lia|lia|]. simpl. rewrite factor_eq, filter_cons.
  destruct (decide (h ∈ to)) as [Hto|Hto].
  - rewrite decide_False by tauto. pose proof (zlen_nonneg hs).
    assert (map_result (λ i, py_index ids (start * factor + i)) (seqZ 0 factor) = Ok (take (Z.to_nat factor) (drop (Z.to_nat (start * factor)) ids))) as ->.
    { apply map_result_Ok. apply Forall2_same_length_lookup. split; [rewrite length_seqZ, length_take, length_drop; unfold zlen in *; nia|].
      intros i x y Hx Hy. apply lookup_seqZ in Hx as [-> Hlt]. rewrite py_index_nonneg by nia. rewrite lookup_take_lt, lookup_drop in Hy by lia.
      replace (Z.to_nat (start * factor + (0 + Z.of_nat i))) with (Z.to_nat (start * factor) + i)%nat by nia. by rewrite Hy. }
    simpl. rewrite Hrun. simpl. eexists. split; [done|]. set (l := take _ _). assert (zlen l = factor) as Hll by (unfold l, zlen in *; rewrite length_take, length_drop; nia).
    split; [rewrite zlen_app, zlen_cons, Hll, Hlen; lia|]. intros [|j] x Hx.
    + simpl in Hx. injection Hx as <-. exists 0%nat. split; [done|]. intros q Hq. rewrite lookup_app_l by (unfold zlen in *; lia). unfold l.
      rewrite lookup_take_lt, lookup_drop by lia. f_equal. nia.
    + simpl in Hx. destruct (Hsrc j x Hx) as (i & Hi & Hq). exists (Datatypes.S i). split; [done|]. intros q Hqq.
      rewrite lookup_app_r by (unfold zlen in *; nia). replace (Z.to_nat _ - length l)%nat with (Z.to_nat (Z.of_nat j * factor + q)) by (unfold zlen in *; nia).
      rewrite (Hq q Hqq). f_equal. nia.
  - rewrite decide_True by done. exists src. split; [done|]. split; [done|]. intros j x Hx. destruct (Hsrc j x Hx) as (i & Hi & Hq). exists (Datatypes.S i). split; [done|].
    intros q Hqq. rewrite (Hq q Hqq). f_equal. nia.
Qed.

(** The blocks of a request of the step, with those that it brings. *)
Definition blocks_now s (x : string * option (list (list Z)) * bool) : list Z :=
  (if x.2 then [] else default [] (request_block_ids s !! x.1.1)) ++ match x.1.2 with Some (b :: _) => b | _ => [] end.

(** A request of the step is known and scheduled, and has blocks for all tokens that it will
    have computed, [limit] ones. *)
Record storable (objects : gmap string Request) (o : SchedulerOutput) s (x : string * option (list (list Z)) * bool) r (limit : Z) : Prop := {
  sb_known : x.1.1 ∈ known s;
  sb_object : objects !! x.1.1 = Some r;
  sb_hashes : NoDup (block_hashes r);
  sb_scheduled : od_get x.1.1 (num_scheduled_tokens o) = Some (limit - num_computed_tokens r);
  sb_blocks : limit ≤ zlen (blocks_now s x) * gpu_block_size
}.

(** A store of a request: the offloaded blocks [new] of its tokens, from the blocks [ids]. *)
Record store_of s r (ids : list Z) (limit : Z) (new : list hash) (src ps : list Z) : Prop := {
  so_length : zlen src = zlen ps * factor;
  so_places : Forall2 (λ h p, find s h = Some (BS (-1) p)) new ps;
  so_blocks (j : nat) h : new !! j = Some h → ∃ k, 0 ≤ k ∧ off * (k + 1) ≤ limit ∧ chunk r k = Some h
    ∧ ∀ q, 0 ≤ q < factor → src !! Z.to_nat (Z.of_nat j * factor + q) = ids !! Z.to_nat (k * factor + q)
}.

(** The blocks of the request are taken over. *)
Lemma take_blocks s (x : string * option (list (list Z)) * bool) :
  is_Some (request_block_ids s !! x.1.1) → ∃ m, request_block_ids s !! x.1.1 ≠ None ∧
  ((if x.2 then modify (λ s, set_block_ids (<[x.1.1 := []]> (request_block_ids s)) s) else ret tt) ;;;
   match x.1.2 with
   | None | Some [] => ret tt
   | Some (new_block_ids :: _) =>
       let* s := get_st in
       let* ids := lift (of_option KeyError (request_block_ids s !! x.1.1)) in
       modify (λ s, set_block_ids (<[x.1.1 := ids ++ new_block_ids]> (request_block_ids s)) s)
   end) s = (Ok tt, set_block_ids m s) ∧ m !! x.1.1 = Some (blocks_now s x) ∧ ∀ id, id ≠ x.1.1 → m !! id = request_block_ids s !! id.
Proof.
  destruct x as [[id groups] pre]. simpl. intros [old Hold]. unfold blocks_now. simpl. rewrite Hold. destruct pre, groups as [[|b bs]|]; simpl.
  all: unfold bind, modify, ret, get_st, lift; simpl; rewrite ?Hold, ?lookup_insert_eq, ?app_nil_r; simpl.
  all: first [by (exists (request_block_ids s); split; [done|]; split; [by destruct s|done]) | eexists; split; [done|]; split; [reflexivity|]; simpl].
  all: rewrite ?lookup_insert_eq; (split; [done|]); intros i Hi; by rewrite ?lookup_insert_ne.
Qed.

Lemma store_request_runs objects o acc s x r limit :
  inv s → storable objects o s x r limit →
  runs (store_request block_hashes gpu_block_size off objects o acc x) s (λ acc' s', ∃ new, stores_more s s' x.1.1 new
    ∧ ((new = [] ∧ acc' = acc)
       ∨ ∃ src ps, new ≠ [] ∧ store_of s' r (blocks_now s x) limit new src ps ∧ acc' = od_set x.1.1 (GPULoadStoreSpec src, CPULoadStoreSpec ps) acc)).
Proof using All.
  intros Hi []. set (ids := blocks_now s x) in *. destruct (take_blocks s x) as (m & _ & Hrun & Hm & Hother); [by apply (i_known _ Hi)|]. fold ids in Hm.
  destruct x as [[id groups] pre]. simpl in *. unfold store_request. apply runs_assoc. eapply runs_ok; [exact Hrun|]. assert (0 < off) as Hoff by nia.
  set (s1 := set_block_ids m s). runs_step. eapply runs_lift; [simpl; by rewrite Hm|]. eapply runs_lift; [simpl; by rewrite decide_True, sb_object0|].
  eapply runs_lift; [simpl; by rewrite sb_scheduled0|]. replace (num_computed_tokens r + (limit - num_computed_tokens r)) with limit by lia.
  unfold py_div. rewrite (proj2 (Z.eqb_neq off 0)) by lia. eapply runs_lift; [done|]. simpl. set (e := limit `div` off). set (start := default 0 (next_stored_block_idx s !! id)).
  assert (0 ≤ start) as Hst by (unfold start; destruct (next_stored_block_idx s !! id) eqn:E; simpl; [by apply (i_next _ Hi id)|done]).
  assert (∀ s' new, om_inv (manager s') → (∀ h b, find s' h = Some b → h ∉ new → find s h = Some b) → (∀ h b, find s h = Some b → ref_cnt b ≠ 0 → find s' h = Some b) →
    (∀ h, h ∈ new → find s h = None ∧ ∃ p, find s' h = Some (BS (-1) p)) → (∀ id', storing s' id' = if decide (id' = id) then storing s id ∪ list_to_set new else storing s id') →
    reqs_being_loaded s' = reqs_being_loaded s → blocks_being_loaded s' = blocks_being_loaded s → to_load s' = to_load s → known s' = known s → request_block_ids s' = m →
    (∃ k, 0 ≤ k ∧ (next_stored_block_idx s' = next_stored_block_idx s ∨ next_stored_block_idx s' = <[id := k]> (next_stored_block_idx s))) → stores_more s s' id new) as Hmore.
  { intros s' new H1 H2 H3 H4 H5 H6 H7 H8 H9 E7 (k & Hk & E8). apply stores_more_inv; rewrite ?E7; try done.
    - intros id'. destruct (decide (id' = id)) as [->|Hne]; [intros _; by eexists|by rewrite Hother].
    - intros i k'. destruct E8 as [->| ->]; [apply (i_next _ Hi)|]. destruct (decide (i = id)) as [->|Hne]; [rewrite lookup_insert_eq; by intros [= <-]|].
      rewrite lookup_insert_ne by done. apply (i_next _ Hi).
    - intros id' Hne. split; [by apply Hother|]. destruct E8 as [->| ->]; [done|by rewrite lookup_insert_ne]. }
  assert (∀ id', storing s id' = if decide (id' = id) then storing s id ∪ list_to_set [] else storing s id') as Hnone.
  { intros id'. case_decide as Hd; [|done]. rewrite Hd. simpl. by rewrite (right_id_L ∅ (∪)). }
  destruct (Z.leb_spec (e - start) 0) as [Hle|Hgt].
  { runs_step. exists []. split; [|by left]. apply Hmore; try done; [apply Hi|by intros h ?%elem_of_nil|]. exists 0. split; [done|]. by left. }
  set (hs := get_block_hashes r start (Some e)). assert (NoDup hs) as Hnd by (apply hashes_NoDup; [done..|intros y [= <-]; lia]).
  destruct (prepare_store_cases (manager s) hs (i_manager _ Hi) Hnd) as (new & o' & m' & Hps & Hm' & Hold & Hkeep & Hout).
  eapply (runs_ok _ _ _ o' (set_manager m' s1)); [unfold on_manager; simpl; by rewrite Hps|].
  destruct o' as [out|].
  2:{ subst new. runs_step. exists []. split; [|by left]. apply Hmore; try done; [by intros h ?%elem_of_nil|]. exists 0. split; [done|]. by left. }
  destruct Hout as (Hto & Hnew & Hpl). runs_step. rewrite Hto. destruct new as [|h0 new0] eqn:Enew.
  { runs_step. exists []. split; [|by left]. apply Hmore; try done; [by intros h ?%elem_of_nil|]. exists e. split; [lia|]. by right. }
  rewrite <- Enew in *. assert ({[h0]} ∪ list_to_set new0 = (list_to_set new : gset hash)) as -> by (by rewrite Enew).
  destruct (touch_law m' (get_block_hashes r 0 (Some e)) Hm') as [Ht1 Ht2]. destruct (om_inv_law m' (Touch (get_block_hashes r 0 (Some e))) Hm' I) as [Ht3 _]. simpl in Ht2, Ht3.
  set (m2 := (touch (get_block_hashes r 0 (Some e)) m').2) in *. eapply (runs_ok _ _ _ tt (set_manager m2 (set_next (<[id:=e]> (next_stored_block_idx s)) (set_manager m' s1)))).
  { unfold on_manager, m2. simpl. destruct (touch _ m'). simpl in *. by rewrite Ht1. }
  assert (off * e ≤ limit) as Hel by (apply Z.mul_div_le; lia). assert (factor * e ≤ zlen ids) as Hel2 by nia.
  assert (zlen hs ≤ e - start) as Hhsl.
  { assert (¬ is_Some (hs !! Z.to_nat (e - start))) as Hno by (unfold hs; rewrite hashes_upto by lia; rewrite (proj2 (Z.ltb_ge _ _)) by lia; by intros [? ?]).
    rewrite lookup_lt_is_Some in Hno. unfold zlen. lia. }
  assert (filter (λ h, h ∈ new) hs = new) as Hfil.
  { etrans; [|symmetry; exact Hnew]. apply filter_ext_in. intros h Hh. rewrite Hnew, list_elem_of_filter. tauto. }
  destruct (source_blocks_spec new ids start hs Hst) as (src & Hsrc & Hslen & Hsb); [nia|]. rewrite Hfil in Hslen, Hsb.
  eapply runs_lift; [exact Hsrc|]. runs_step. runs_step. exists new. set (s' := set_stored _ _). assert (∀ h, find s' h = om_find m' h) as Hf' by (intros h; apply Ht2). split.
  - apply Hmore; try done.
    + intros h b. rewrite Hf'. apply Hold.
    + intros h b. rewrite Hf'. apply Hkeep.
    + intros h Hh. split; [rewrite Hnew in Hh; by apply list_elem_of_filter in Hh as [? _]|]. rewrite Hf'. apply list_elem_of_lookup in Hh as [j Hj].
      destruct (Forall2_lookup_l _ _ _ _ _ Hpl Hj) as (p & _ & Hp). by exists p.
    + intros id'. unfold storing, s'. simpl. case_decide as Hd; [by rewrite Hd, lookup_insert_eq|by rewrite lookup_insert_ne].
    + exists e. split; [lia|]. by right.
  - right. exists src, (store_spec out). split; [by rewrite Enew|]. split; [|done]. split.
    + rewrite Hslen. apply Forall2_length in Hpl. unfold zlen. by rewrite Hpl.
    + eapply Forall2_impl; [exact Hpl|]. intros h p Hp. by rewrite Hf'.
    + intros j h Hj. destruct (Hsb j h Hj) as (i & Hi' & Hq). exists (start + Z.of_nat i). unfold hs in Hi'. rewrite hashes_upto in Hi' by lia.
      destruct (Z.ltb_spec (start + Z.of_nat i) e); [|done]. split; [lia|]. split; [nia|]. by split.
Qed.

(** *** The stores of a step *)

(** A store with what it is about. *)
Record store_job := StoreJob { sj_id : string; sj_request : Request; sj_ids : list Z; sj_limit : Z; sj_new : list hash; sj_src : list Z; sj_places : list Z }.

Definition entry (j : store_job) : string * TransferSpec := (sj_id j, (GPULoadStoreSpec (sj_src j), CPULoadStoreSpec (sj_places j))).

Abbreviation step_request := (string * option (list (list Z)) * bool)%type.

(** The stores of some requests of the step. *)
Record stores_all (objects : gmap string Request) (o : SchedulerOutput) s s' (l : list step_request) (jobs : list store_job) : Prop := {
  sa_inv : inv s';
  sa_old h b : find s' h = Some b → find s h = Some b ∨ ∃ j, j ∈ jobs ∧ h ∈ sj_new j;
  sa_keep h b : find s h = Some b → ref_cnt b ≠ 0 → find s' h = Some b;
  sa_jobs j : j ∈ jobs → sj_new j ≠ [] ∧ store_of s' (sj_request j) (sj_ids j) (sj_limit j) (sj_new j) (sj_src j) (sj_places j)
    ∧ storing s' (sj_id j) = storing s (sj_id j) ∪ list_to_set (sj_new j)
    ∧ ∃ x, x ∈ l ∧ x.1.1 = sj_id j ∧ storable objects o s x (sj_request j) (sj_limit j) ∧ sj_ids j = blocks_now s x;
  sa_ids : NoDup (sj_id <$> jobs);
  sa_storing id : id ∉ sj_id <$> jobs → storing s' id = storing s id;
  sa_loaded : reqs_being_loaded s' = reqs_being_loaded s;
  sa_to_load : to_load s' = to_load s;
  sa_known : known s' = known s
}.

Lemma store_of_keep s s' r ids limit new src ps :
  (∀ h b, find s h = Some b → ref_cnt b ≠ 0 → find s' h = Some b) → store_of s r ids limit new src ps → store_of s' r ids limit new src ps.
Proof. intros Hk []. split; [done| |done]. eapply Forall2_impl; [done|]. intros h p Hp. by apply Hk. Qed.

Lemma store_requests_runs objects o l acc s :
  inv s → NoDup (l.*1.*1) → (∀ x, x ∈ l → ∃ r limit, storable objects o s x r limit) → (∀ x, x ∈ l → od_get x.1.1 acc = None) →
  runs (store_requests block_hashes gpu_block_size off objects o acc l) s (λ acc' s', ∃ jobs, stores_all objects o s s' l jobs ∧ acc' = acc ++ (entry <$> jobs)).
Proof using All.
  revert acc s. induction l as [|x l IH]; intros acc s Hi Hnd Hl Hacc; cbn [store_requests].
  { runs_step. exists []. split; [|by rewrite app_nil_r]. split; try done; [by left|by intros j ?%elem_of_nil]. }
  rewrite !fmap_cons in Hnd. apply NoDup_cons in Hnd as [Hx Hnd]. destruct (Hl x) as (r & limit & Hsb); [by left|].
  assert (∀ y, y ∈ l → y.1.1 ≠ x.1.1) as Hne. { intros y Hy He. apply Hx. rewrite <- He. apply list_elem_of_fmap. exists y.1. split; [done|]. apply list_elem_of_fmap. by exists y. }
  eapply runs_seq; [by apply (store_request_runs objects o acc s x r limit)|]. intros acc1 s1 (new & [] & Hcase).
  assert (∀ y r' limit', y ∈ l → storable objects o s y r' limit' ↔ storable objects o s1 y r' limit') as Hsame.
  { intros y r' limit' Hy. destruct (sm_ids0 y.1.1 (Hne y Hy)) as [Hb _]. assert (blocks_now s1 y = blocks_now s y) as He by (unfold blocks_now; by rewrite Hb).
    split; intros []; (split; [|done..|]); rewrite ?sm_known0, ?He in *; done. }
  assert (∀ y, y ∈ l → od_get y.1.1 acc1 = None) as Hacc1.
  { intros y Hy. destruct Hcase as [[_ ->]|(src & ps & _ & _ & ->)]; [apply Hacc; by right|]. rewrite od_get_set_ne by (by apply Hne). apply Hacc. by right. }
  eapply runs_mono; [apply (IH acc1 s1 sm_inv0 Hnd); [|done]|].
  { intros y Hy. destruct (Hl y) as (r' & limit' & Hy'); [by right|]. exists r', limit'. by apply Hsame. }
  intros acc' s' (jobs & [] & ->). assert (∀ j, j ∈ jobs → sj_id j ≠ x.1.1) as Hjx.
  { intros j Hj. destruct (sa_jobs0 j Hj) as (_ & _ & _ & y & Hy & <- & _). by apply Hne. }
  assert (x.1.1 ∉ sj_id <$> jobs) as Hxj by (intros (j & He & Hj)%list_elem_of_fmap; by apply (Hjx j Hj)).
  assert (∀ h b, find s h = Some b → ref_cnt b ≠ 0 → find s' h = Some b) as Hkeep by auto.
  assert (∀ j, j ∈ jobs → storing s' (sj_id j) = storing s (sj_id j) ∪ list_to_set (sj_new j)
    ∧ ∃ y, y ∈ x :: l ∧ y.1.1 = sj_id j ∧ storable objects o s y (sj_request j) (sj_limit j) ∧ sj_ids j = blocks_now s y) as Hrest.
  { intros j Hj. destruct (sa_jobs0 j Hj) as (_ & _ & Hs & y & Hy & Hid & Hyb & Hb). rewrite Hs, sm_storing0, decide_False by (by apply Hjx). split; [done|].
    exists y. split; [by right|]. split; [done|]. split; [by apply Hsame|]. rewrite Hb. unfold blocks_now. by rewrite (proj1 (sm_ids0 y.1.1 (Hne y Hy))). }
  assert (∀ id, id ∉ sj_id <$> jobs → storing s' id = if decide (id = x.1.1) then storing s id ∪ list_to_set new else storing s id) as Hst.
  { intros id Hid. rewrite sa_storing0, sm_storing0 by done. by case_decide as Hd; [rewrite Hd|]. }
  destruct Hcase as [[-> ->]|(src & ps & Hnn & Hso & ->)].
  - exists jobs. split; [|done]. split; try done.
    + intros h b [Hb|?]%sa_old0; [|by right]. left. apply sm_old0; [done|apply not_elem_of_nil].
    + intros j Hj. destruct (sa_jobs0 j Hj) as (H1 & H2 & _). split; [done|]. split; [done|]. by apply Hrest.
    + intros id Hid. rewrite Hst by done. case_decide; [|done]. simpl. apply (right_id_L ∅ (∪)).
    + congruence.
    + congruence.
    + congruence.
  - set (j0 := StoreJob x.1.1 r (blocks_now s x) limit new src ps). exists (j0 :: jobs). split.
    + split; try done.
      * intros h b [Hb|(j & Hj & Hh)]%sa_old0; [|right; exists j; split; [by right|done]]. destruct (decide (h ∈ new)) as [Hn|Hn]; [right; exists j0; split; [by left|done]|left; by apply sm_old0].
      * intros j [->|Hj]%elem_of_cons.
        -- simpl. split; [done|]. split; [by apply (store_of_keep s1)|]. split; [by rewrite Hst, decide_True by done|]. exists x. split; [by left|]. done.
        -- destruct (sa_jobs0 j Hj) as (H1 & H2 & _). split; [done|]. split; [done|]. by apply Hrest.
      * rewrite fmap_cons. by apply NoDup_cons.
      * intros id Hid. rewrite fmap_cons in Hid. apply not_elem_of_cons in Hid as [Hn Hid]. by rewrite Hst, decide_False.
      * congruence.
      * congruence.
      * congruence.
    + rewrite od_set_fresh by (apply Hacc; by left). by rewrite <- app_assoc.
Qed.

(** *** The end of stores and loads *)

(** All stores of a request are complete: its blocks are ready. *)
Record completed s s' (id : string) : Prop := {
  co_inv : inv s';
  co_find h : find s' h = if decide (h ∈ storing s id) then (λ b, BS 0 (payload b)) <$> find s h else find s h;
  co_storing id' : storing s' id' = if decide (id' = id) then ∅ else storing s id';
  co_loaded : reqs_being_loaded s' = reqs_being_loaded s;
  co_to_load : to_load s' = to_load s;
  co_known : known s' = known s
}.

Lemma completed_inv s s' id :
  inv s → om_inv (manager s') → (∀ h, find s' h = if decide (h ∈ storing s id) then (λ b, BS 0 (payload b)) <$> find s h else find s h) →
  (∀ id', storing s' id' = if decide (id' = id) then ∅ else storing s id') → reqs_being_loaded s' = reqs_being_loaded s →
  blocks_being_loaded s' = blocks_being_loaded s → to_load s' = to_load s → known s' = known s → request_block_ids s' = request_block_ids s →
  next_stored_block_idx s' = next_stored_block_idx s → completed s s' id.
Proof.
  intros Hi Hm Hf Hst Hld Hbb Htl Hkn Hids Hnx. split; try done.
  assert (∀ id', loading s' id' = loading s id') as Hl by (intros id'; unfold loading; by rewrite Hld).
  assert (∀ h, loads s' h = loads s h) as Hls by (intros h; unfold loads; by rewrite Hld).
  assert (∀ id' h, h ∈ storing s' id' → id' ≠ id ∧ h ∈ storing s id') as Hsub.
  { intros id' h. rewrite Hst. case_decide; [by intros ?%elem_of_empty|done]. }
  split; rewrite ?Hbb, ?Htl, ?Hkn, ?Hids, ?Hnx, ?Hld; try done; try apply Hi.
  - intros id' h [Hne Hh]%Hsub. destruct (i_storing _ Hi id' h Hh) as [p Hp]. exists p. rewrite Hf, decide_False; [done|].
    intros Hx. apply Hne. by apply (i_storer _ Hi id' id h).
  - intros id1 id2 h [_ H1]%Hsub [_ H2]%Hsub. by apply (i_storer _ Hi id1 id2 h).
  - intros id' h. rewrite Hl. intros Hh. destruct (i_loading _ Hi id' h Hh) as [p Hp]. exists p. rewrite Hls, Hf, decide_False; [done|].
    intros Hx. destruct (i_storing _ Hi id h Hx) as [q Hq]. rewrite Hp in Hq. injection Hq as Hq _. pose proof (loads_nonneg s h). lia.
  - intros h b. rewrite Hf, Hls. case_decide as Hx.
    + destruct (i_storing _ Hi id h Hx) as [p Hp]. rewrite Hp. simpl. intros [= <-]. left. simpl. pose proof (loads_nonneg s h).
      destruct (decide (0 < loads s h)) as [Hpos|]; [|lia]. apply loads_pos in Hpos as [id' Hh]. destruct (i_loading _ Hi id' h Hh) as [q Hq]. rewrite Hp in Hq. injection Hq as Hq _. lia.
    + intros Hb. destruct (i_idle _ Hi h b Hb) as [?|[? [id' Hh]]]; [by left|right]. split; [done|]. exists id'. rewrite Hst, decide_False; [done|]. by intros ->.
  - intros l Hlb. destruct (i_caching _ Hi l Hlb) as [H1 H2]. split; [intros h; setoid_rewrite Hl; apply H1|]. intros id1 id2 h. rewrite !Hl. apply H2.
  - split; [apply Hi|]. intros id'. rewrite Hl. apply Hi.
Qed.

(** [complete_store] of the blocks that a request stores. *)
Lemma complete_store_runs s (s0 : t) id :
  inv s → manager s0 = manager s → ∃ m, on_manager (complete_store (elements (storing s id)) true) s0 = (Ok tt, set_manager m s0) ∧ om_inv m
  ∧ ∀ h, om_find m h = if decide (h ∈ storing s id) then (λ b, BS 0 (payload b)) <$> find s h else find s h.
Proof.
  intros Hi Hm. set (hs := elements (storing s id)). destruct (complete_store_law (manager s) hs (i_manager _ Hi) (NoDup_elements _)) as [H1 H2].
  { intros h Hh%elem_of_elements. destruct (i_storing _ Hi id h Hh) as [p Hp]. by eexists. }
  destruct (om_inv_law (manager s) (CompleteStore hs true) (i_manager _ Hi) I) as [H3 _]. simpl in H2, H3. exists (complete_store hs true (manager s)).2.
  split; [unfold on_manager; rewrite Hm; destruct (complete_store hs true (manager s)); simpl in *; by subst|]. split; [done|]. intros h. rewrite H2.
  destruct (decide (h ∈ storing s id)) as [Hh|Hh]; [rewrite decide_True by (by apply elem_of_elements)|rewrite decide_False by (unfold hs; by rewrite elem_of_elements); done].
  destruct (i_storing _ Hi id h Hh) as [p Hp]. unfold find in *. by rewrite Hp.
Qed.

(** Completing nothing. *)
Lemma completed_nothing s s' id :
  inv s → storing s id = ∅ → manager s' = manager s → (∀ id', storing s' id' = storing s id') → reqs_being_loaded s' = reqs_being_loaded s →
  blocks_being_loaded s' = blocks_being_loaded s → to_load s' = to_load s → known s' = known s → request_block_ids s' = request_block_ids s →
  next_stored_block_idx s' = next_stored_block_idx s → completed s s' id.
Proof.
  intros Hi He Hm Hst. intros. apply completed_inv; try done; [rewrite Hm; apply Hi| |].
  - intros h. rewrite decide_False by (rewrite He; apply not_elem_of_empty). unfold find. by rewrite Hm.
  - intros id'. rewrite Hst. case_decide as Hd; [by rewrite Hd, He|done].
Qed.

Lemma complete_preempted_runs s id : inv s → runs (complete_preempted id) s (λ _ s', completed s s' id).
Proof.
  intros Hi. unfold complete_preempted. runs_step. destruct (reqs_being_stored s !! id) as [X|] eqn:HX; [case_decide as HXe|].
  - runs_step. apply completed_nothing; try done. unfold storing. by rewrite HX, HXe.
  - assert (X = storing s id) as HXs by (unfold storing; by rewrite HX). rewrite HXs. destruct (complete_store_runs s s id Hi eq_refl) as (m & Hrun & Hm & Hf).
    eapply runs_ok; [exact Hrun|]. runs_step. apply completed_inv; try done. intros id'. unfold storing. simpl.
    case_decide as Hd; [by rewrite Hd, lookup_insert_eq|by rewrite lookup_insert_ne].
  - runs_step. apply completed_nothing; try done. unfold storing. by rewrite HX.
Qed.

Lemma finish_sending_runs s id : inv s → runs (finish_sending id) s (λ _ s', completed s s' id).
Proof.
  intros Hi. unfold finish_sending. do 2 runs_step. set (s1 := set_stored _ _).
  assert (∀ id', storing s1 id' = if decide (id' = id) then ∅ else storing s id') as Hst.
  { intros id'. unfold storing, s1. simpl. case_decide as Hd; [by rewrite Hd, lookup_delete_eq|by rewrite lookup_delete_ne]. }
  assert (storing s id = ∅ → completed s s1 id) as Hnone.
  { intros He. apply completed_nothing; try done. intros id'. rewrite Hst. case_decide as Hd; [by rewrite Hd, He|done]. }
  destruct (reqs_being_stored s !! id) as [X|] eqn:HX; [case_decide as HXe|].
  - runs_step. apply Hnone. unfold storing. by rewrite HX, HXe.
  - assert (X = storing s id) as HXs by (unfold storing; by rewrite HX). rewrite HXs. destruct (complete_store_runs s s1 id Hi eq_refl) as (m & Hrun & Hm & Hf).
    eexists tt, _. split; [exact Hrun|]. by apply completed_inv.
  - runs_step. apply Hnone. unfold storing. by rewrite HX.
Qed.

(** A request's load is over: its blocks are pinned once less. *)
Record received s s' (id : string) : Prop := {
  rc_inv : inv s';
  rc_find h : find s' h = (λ b, if decide (h ∈ loading s id) then BS (ref_cnt b - 1) (payload b) else b) <$> find s h;
  rc_loading id' : loading s' id' = if decide (id' = id) then ∅ else loading s id';
  rc_stored : reqs_being_stored s' = reqs_being_stored s;
  rc_to_load : to_load s' = to_load s;
  rc_known : known s' = known s
}.

Lemma received_inv s s' id :
  inv s → id ∉ od_keys (to_load s) → om_inv (manager s') → (∀ h, find s' h = (λ b, if decide (h ∈ loading s id) then BS (ref_cnt b - 1) (payload b) else b) <$> find s h) →
  reqs_being_loaded s' = delete id (reqs_being_loaded s) → blocks_being_loaded s' = (λ l, l ∖ loading s id) <$> blocks_being_loaded s →
  reqs_being_stored s' = reqs_being_stored s → to_load s' = to_load s → known s' = known s → request_block_ids s' = request_block_ids s →
  next_stored_block_idx s' = next_stored_block_idx s → received s s' id.
Proof.
  intros Hi Hkey Hm Hf Hld Hbb Hst Htl Hkn Hids Hnx.
  assert (∀ id', loading s' id' = if decide (id' = id) then ∅ else loading s id') as Hlo.
  { intros id'. unfold loading. rewrite Hld. case_decide as Hd; [by rewrite Hd, lookup_delete_eq|by rewrite lookup_delete_ne]. }
  split; try done. assert (∀ h, loads s' h = loads s h - if decide (h ∈ loading s id) then 1 else 0) as Hls by (intros h; unfold loads; by rewrite Hld, loads_in_delete).
  assert (∀ id', storing s' id' = storing s id') as Hsto by (intros id'; unfold storing; by rewrite Hst).
  assert (∀ id' h, h ∈ storing s id' → h ∉ loading s id) as Hdis.
  { intros id' h Hh Hl. destruct (i_storing _ Hi id' h Hh) as [p Hp]. destruct (i_loading _ Hi id h Hl) as [q Hq]. rewrite Hp in Hq. injection Hq as Hq _. pose proof (loads_nonneg s h). lia. }
  split; rewrite ?Htl, ?Hkn, ?Hids, ?Hnx; try done; try apply Hi.
  - intros id' h. rewrite Hsto. intros Hh. destruct (i_storing _ Hi id' h Hh) as [p Hp]. exists p. rewrite Hf, Hp. simpl. by rewrite decide_False by (by apply (Hdis id')).
  - intros id1 id2 h. rewrite !Hsto. apply (i_storer _ Hi).
  - intros id' h. rewrite Hlo. case_decide as Hd; [by intros ?%elem_of_empty|]. intros Hh. destruct (i_loading _ Hi id' h Hh) as [p Hp]. exists p. rewrite Hf, Hp, Hls. simpl.
    case_decide; [done|by rewrite Z.sub_0_r].
  - intros h b. rewrite Hf, Hls. destruct (find s h) as [b0|] eqn:Hb0; [|done]. simpl. intros [= <-]. destruct (i_idle _ Hi h b0 Hb0) as [Hr|[Hr [id' Hh]]].
    + left. case_decide; simpl; lia.
    + right. rewrite decide_False by (by apply (Hdis id')). split; [done|]. exists id'. by rewrite Hsto.
  - intros l Hlb. rewrite Hbb in Hlb. destruct (blocks_being_loaded s) as [l0|] eqn:Hl0; [|done]. simpl in Hlb. injection Hlb as <-. destruct (i_caching _ Hi l0 Hl0) as [H1 H2]. split.
    + intros h. rewrite elem_of_difference, H1. split.
      * intros [[id' Hh] Hno]. exists id'. rewrite Hlo, decide_False; [done|]. by intros ->.
      * intros [id' Hh]. rewrite Hlo in Hh. case_decide as Hd; [by apply elem_of_empty in Hh|]. split; [by exists id'|]. intros Hx. apply Hd. by apply (H2 id' id h).
    + intros id1 id2 h. rewrite !Hlo. repeat case_decide; try (by intros ?%elem_of_empty); try (by intros _ ?%elem_of_empty). apply H2.
  - split; [apply Hi|]. intros id' Hk. rewrite Hlo. case_decide as Hd; [by subst|]. by apply (i_to_load _ Hi).
  - rewrite Hld. pose proof (i_bound _ Hi). assert (size (delete id (reqs_being_loaded s)) ≤ size (reqs_being_loaded s))%nat; [|lia]. apply map_subseteq_size, delete_subseteq.
Qed.

Lemma finish_recving_runs s id : inv s → id ∉ od_keys (to_load s) → runs (finish_recving id) s (λ _ s', received s s' id).
Proof.
  intros Hi Hkey. unfold finish_recving. do 2 runs_step. set (s1 := set_loaded _ _). assert (loading s id = ∅ → received s s1 id) as Hnone.
  { intros He. apply received_inv; try done; [apply Hi| |].
    - intros h. change (find s1 h) with (find s h). destruct (find s h) as [b|]; [|done]. simpl. rewrite decide_False by (rewrite He; apply not_elem_of_empty). done.
    - rewrite He. change (blocks_being_loaded s1) with (blocks_being_loaded s). destruct (blocks_being_loaded s); simpl; [by rewrite difference_empty_L|done]. }
  destruct (reqs_being_loaded s !! id) as [X|] eqn:HX; [case_decide as HXe|].
  - runs_step. apply Hnone. unfold loading. by rewrite HX, HXe.
  - assert (X = loading s id) as HXs by (unfold loading; by rewrite HX). rewrite HXs. clear HXe. runs_step. set (hs := elements (loading s id)).
    destruct (complete_load_law (manager s) hs (i_manager _ Hi) (NoDup_elements _)) as [H1 H2].
    { intros h Hh%elem_of_elements. destruct (i_loading _ Hi id h Hh) as [p Hp]. eexists. split; [exact Hp|]. simpl. apply loads_pos. by exists id. }
    destruct (om_inv_law (manager s) (CompleteLoad hs) (i_manager _ Hi) I) as [H3 _]. simpl in H2, H3.
    exists tt, (set_manager (complete_load hs (manager s)).2 (set_blocks_being_loaded ((λ l : gset hash, l ∖ loading s id) <$> blocks_being_loaded s) s1)).
    split; [unfold on_manager; simpl; destruct (complete_load hs (manager s)); simpl in *; rewrite H1; reflexivity|]. apply received_inv; try done.
    intros h. unfold find. simpl. rewrite H2. destruct (om_find (manager s) h) as [b|] eqn:Hb; [|by case_decide]. simpl.
    destruct (decide (h ∈ loading s id)) as [Hh|Hh]; [rewrite decide_True by (by apply elem_of_elements)|rewrite decide_False by (unfold hs; by rewrite elem_of_elements); done]. simpl. f_equal.
    destruct (i_loading _ Hi id h Hh) as [p Hp]. unfold find in Hp. rewrite Hb in Hp. injection Hp as ->. unfold add_ref. simpl. f_equal. apply c_int_id; [done|].
    assert (0 < loads s h) by (apply loads_pos; by exists id). pose proof (loads_in_bound (reqs_being_loaded s) h). pose proof (i_bound _ Hi). unfold loads in *. change (32 - 1) with 31. lia.
  - runs_step. apply Hnone. unfold loading. by rewrite HX.
Qed.

(** *** The other methods *)

Lemma create_keeps caching m : om_inv m → (∀ h, om_find m h = None) → inv (OffloadingConnector.create caching m).
Proof.
  intros Hm Hno. split; try done; unfold storing, loading, find; simpl.
  - intros h b. by rewrite Hno.
  - intros l Hl. destruct caching; [|done]. injection Hl as <-. split; [|done]. intros h. split; [by intros ?%elem_of_empty|]. by intros [id ?%elem_of_empty].
  - split; [apply NoDup_nil_2|]. by intros id ?%elem_of_nil.
Qed.

(** The fields that the invariant does not tie to the blocks. *)
Lemma inv_fields s s' :
  inv s → manager s' = manager s → reqs_being_stored s' = reqs_being_stored s → reqs_being_loaded s' = reqs_being_loaded s → blocks_being_loaded s' = blocks_being_loaded s →
  (NoDup (od_keys (to_load s')) ∧ ∀ id, id ∈ od_keys (to_load s') → loading s id ≠ ∅) → (∀ id, id ∈ known s' → is_Some (request_block_ids s' !! id)) →
  (∀ id k, next_stored_block_idx s' !! id = Some k → 0 ≤ k) → inv s'.
Proof.
  intros [] Hm Hst Hld Hbb Htl Hkn Hnx. unfold storing, loading, loads, find in *.
  split; unfold storing, loading, loads, find; rewrite ?Hm, ?Hst, ?Hld, ?Hbb; done.
Qed.

Lemma alloc_nothing_runs s r groups :
  inv s → runs (update_state_after_alloc block_hashes gpu_block_size off r groups 0) s (λ _ s', inv s' ∧ to_load s' = to_load s
    ∧ (∀ h, find s' h = find s h) ∧ reqs_being_stored s' = reqs_being_stored s ∧ reqs_being_loaded s' = reqs_being_loaded s).
Proof.
  intros Hi. unfold update_state_after_alloc. do 2 runs_step. rewrite Z.eqb_refl. runs_step. split; [|done]. apply (inv_fields s); try done; try apply Hi.
  intros id. simpl. rewrite elem_of_union, elem_of_singleton. destruct (decide (id = request_id r)) as [->|Hne]; [rewrite lookup_insert_eq; by eexists|].
  rewrite lookup_insert_ne by done. intros [?|?]; [done|by apply (i_known _ Hi)].
Qed.

Lemma request_finished_runs s id :
  inv s → runs (request_finished id) s (λ b s', (b = true ↔ is_Some (reqs_being_stored s !! id)) ∧ inv s' ∧ to_load s' = to_load s
    ∧ (∀ h, find s' h = find s h) ∧ reqs_being_stored s' = reqs_being_stored s ∧ reqs_being_loaded s' = reqs_being_loaded s).
Proof.
  intros Hi. unfold request_finished. do 3 runs_step. eexists _, _. split; [reflexivity|]. simpl. split; [by rewrite bool_decide_eq_true|]. split; [|done].
  apply (inv_fields s); try done; try apply Hi.
  - intros id'. simpl. rewrite elem_of_difference, elem_of_singleton. intros [Hk Hne]. rewrite lookup_delete_ne by done. by apply (i_known _ Hi).
  - intros id' k. simpl. destruct (decide (id' = id)) as [->|Hne]; [by rewrite lookup_delete_eq|]. rewrite lookup_delete_ne by done. apply (i_next _ Hi).
Qed.

(** The stores of several requests are complete. *)
Fixpoint completes (ids : list string) s s' : Prop :=
  match ids with [] => s' = s | id :: ids => ∃ s1, completed s s1 id ∧ completes ids s1 s' end.

Lemma completes_runs (f : string → py t unit) (Hf : ∀ id s, inv s → runs (f id) s (λ _ s', completed s s' id)) ids s :
  inv s → runs (for_each ids f) s (λ _ s', completes ids s s').
Proof.
  revert s. induction ids as [|id ids IH]; intros s Hi; [by apply runs_ret|]. simpl. eapply runs_seq; [by apply Hf|]. intros [] s1 Hc.
  eapply runs_mono; [apply IH, Hc|]. intros [] s2 Hc2. by exists s1.
Qed.

(** The requests that are loaded are taken back. *)
Fixpoint receives (ids : list string) s s' : Prop :=
  match ids with [] => s' = s | id :: ids => ∃ s1, received s s1 id ∧ receives ids s1 s' end.

Lemma receives_runs ids s : inv s → (∀ id, id ∈ ids → id ∉ od_keys (to_load s)) → runs (for_each ids finish_recving) s (λ _ s', receives ids s s').
Proof.
  revert s. induction ids as [|id ids IH]; intros s Hi Hk; [by apply runs_ret|]. simpl. eapply runs_seq; [apply finish_recving_runs; [done|apply Hk; by left]|]. intros [] s1 Hc.
  eapply runs_mono; [apply IH; [apply Hc|]|].
  - intros id' Hid'. rewrite (rc_to_load _ _ _ Hc). apply Hk. by right.
  - intros [] s2 Hc2. by exists s1.
Qed.

(** The description of a step: the loads that wait, and the stores of its requests; those of
    the preempted requests count as complete. *)
Lemma build_meta_runs objects o s :
  inv s → NoDup ((yield_req_data o).*1.*1) → (∀ x, x ∈ yield_req_data o → ∃ r limit, storable objects o s x r limit) →
  runs (build_connector_meta block_hashes gpu_block_size off objects o) s (λ meta s', ∃ s1 jobs, stores_all objects o s s1 (yield_req_data o) jobs
    ∧ meta = Metadata (to_load s) (entry <$> jobs) ∧ inv (set_to_load [] s1) ∧ completes (elements (preempted_req_ids o)) (set_to_load [] s1) s').
Proof using All.
  intros Hi Hnd Hsb. unfold build_connector_meta, get_reqs_to_store. runs_step. eapply runs_seq; [by apply (store_requests_runs objects o (yield_req_data o) [] s)|].
  intros acc s1 (jobs & Hall & ->). runs_step. pose proof (sa_inv _ _ _ _ _ _ Hall) as Hi0. assert (inv (set_to_load [] s1)) as Hi1.
  { apply (inv_fields s1); try done; try apply Hi0. simpl. split; [apply NoDup_nil_2|]. by intros id ?%elem_of_nil. }
  eapply runs_seq; [apply completes_runs; [intros id x; apply complete_preempted_runs|done]|]. intros [] s2 Hc. runs_step. by exists s1, jobs.
Qed.
End protocol.
End ConnectorProtocol.
