(* ===== verification/OffloadData.v ===== *)
(** The data that the offloading connector moves: the invariant that says what the blocks on
    both devices hold while stores and loads are under way, and that every operation of the
    scheduler's side, of the worker's and of the device keeps it. *)
From stdpp Require Import gmap strings.
From S2P Require Export OffloadProtocol.
From stdpp Require Import options.
Open Scope Z_scope.

Lemma omap_Forall2 {A B} (g : A → option B) l k : Forall2 (λ x y, g x = Some y) l k → omap g l = k.
Proof. induction 1 as [|x y l k Hx _ IH]; [done|]. change (omap g (x :: l)) with (match g x with Some y => y :: omap g l | None => omap g l end). by rewrite Hx, IH. Qed.

Module OffloadData.
Import SchedRequest OffloadingConnector ConnectorProtocol Handler ConnectorWorker WorkerJobs.

Section system.
Context {hash M : Type} `{Countable hash} `{!OffloadingManager hash (list Z) M, OL : !OffloadingManagerLaws hash Z (list Z) M}.
Context {D : Type} (np_empty : Z → list Z) (block_hashes : Request → list hash) (gpu_block_size factor : Z).

Abbreviation sched_t := (OffloadingConnector.t hash M).
Abbreviation worker_t := (ConnectorWorker.t D).
Abbreviation off := (factor * gpu_block_size).
Abbreviation chunk := (chunk block_hashes factor).
Abbreviation find := (find (hash := hash) (M := M)).
Abbreviation inv := (inv (hash := hash) (M := M)).
Abbreviation rep := (rep factor).
Abbreviation pending_stores := (pending_stores factor).
Abbreviation memory w := (OffloadingWorker.memory (worker w)).

(** A part of an offloaded block. *)
Definition part : Type := hash * Z.

(** ** What holds between the calls *)

(** What the blocks of the tokens of a hash hold, a function of the prefix that it names. *)
Context (val : part → D).

(** The parts of offloaded blocks. *)
Definition hash_parts (hs : list hash) : list part := hs ≫= λ h, (λ k, (h, k)) <$> seqZ 0 factor.

(** A load of the offloaded blocks at the places [ps] brings to the blocks [dst] what the
    request waits for. *)
Definition load_ok (s : sched_t) (tg : list (Z * part)) (id : string) (ps dst : list Z) (skip : Z) : Prop :=
  0 ≤ skip < factor ∧ zlen dst = zlen ps * factor - skip
  ∧ ∃ hs, Forall2 (λ h p, h ∈ loading s id ∧ ∃ c, find s h = Some (BS c p)) hs ps
      ∧ tg = zip dst (drop (Z.to_nat skip) (hash_parts hs)).

(** The blocks of the GPU that stores read. *)
Definition sources (pend : list (Z * list (Z * Z))) : list Z := pend ≫= λ x, x.2.*1.

(** Blocks that are ready hold their contents; those that are stored do, or a store of their
    parts is pending, with the right blocks of the GPU, or is still to be handed over, among
    [js].  [J] are the jobs, [pend] the stores that are not over. *)
Record stores_ok (js : list (store_job (hash := hash))) (s : sched_t) (J : gmap Z (string * bool)) (pend : list (Z * list (Z * Z))) (m : Memory D) : Prop := {
  d_ready h c p k : find s h = Some (BS c p) → 0 ≤ c → 0 ≤ k < factor → cpu m (p * factor + k) = val (h, k);
  d_pending j l : (j, l) ∈ pend → ∃ id, J !! j = Some (id, true)
    ∧ ∀ b i, (b, i) ∈ l → ∃ h p k, 0 ≤ k < factor ∧ i = p * factor + k ∧ h ∈ storing s id ∧ find s h = Some (BS (-1) p) ∧ gpu m b = val (h, k);
  d_storing id h p k : h ∈ storing s id → find s h = Some (BS (-1) p) → 0 ≤ k < factor →
    cpu m (p * factor + k) = val (h, k) ∨ (∃ j l, (j, l) ∈ pend ∧ J !! j = Some (id, true) ∧ p * factor + k ∈ l.*2)
    ∨ ∃ x, x ∈ js ∧ sj_id x = id ∧ h ∈ sj_new x
}.

(** A request that loads waits to be started, among [tl], has a job, or is reported and taken
    back soon, among [rv]; its transfer brings what it waits for, and has brought it when it is
    over; it has its blocks for itself, and no store reads them. *)
Record loads_ok (tl : list (string * TransferSpec)) (rv : gset string) (s : sched_t) (tg : string → list (Z * part))
    (J : gmap Z (string * bool)) (L : gmap string Z) (pend fin : list (Z * list (Z * Z))) (g : Z → D) (src : list Z) : Prop := {
  d_loading id : loading s id ≠ ∅ → id ∈ od_keys tl ∨ is_Some (L !! id) ∨ id ∈ rv;
  d_started id : is_Some (L !! id) → loading s id ≠ ∅ ∧ id ∉ od_keys tl;
  d_to_start : NoDup (od_keys tl) ∧ ∀ id spec, (id, spec) ∈ tl → loading s id ≠ ∅
    ∧ ∃ ps dst skip, spec = (CPULoadStoreSpec ps, GPULoadStoreSpec dst) ∧ load_ok s (tg id) id ps dst skip;
  d_pending_load j l id : (j, l) ∈ pend → J !! j = Some (id, false) →
    ∃ ps dst skip, l = zip (drop (Z.to_nat skip) (parts factor ps)) dst ∧ load_ok s (tg id) id ps dst skip;
  d_over_load j l id d x : (j, l) ∈ fin → J !! j = Some (id, false) → (d, x) ∈ tg id → g d = val x;
  d_distinct id : loading s id ≠ ∅ → NoDup (tg id).*1;
  d_disjoint id1 id2 d : loading s id1 ≠ ∅ → loading s id2 ≠ ∅ → d ∈ (tg id1).*1 → d ∈ (tg id2).*1 → id1 = id2;
  d_sources id d : loading s id ≠ ∅ → d ∈ (tg id).*1 → d ∉ src
}.

(** The state of both sides, the worker's with the directions [hs] and [hl]. *)
Record data_ok tl js rv (s : sched_t) (w : worker_t) tg (hs hl : Handler.t) : Prop := {
  d_inv : inv s;
  d_rep : rep w hs hl;
  d_stores : stores_ok js s (jobs w) (pending_stores w hs) (memory w);
  d_loads : loads_ok tl rv s tg (jobs w) (load_job w) (pending hl) (over hl) (gpu (memory w)) (sources (pending_stores w hs))
}.

(** ** The device *)

Lemma parts_inv l n i : 0 < factor → parts factor l !! n = Some i → ∃ (j : nat) k p, n = Z.to_nat (Z.of_nat j * factor + k) ∧ 0 ≤ k < factor ∧ l !! j = Some p ∧ i = p * factor + k.
Proof.
  intros Hf Hn. set (j := Z.to_nat (Z.of_nat n `div` factor)). set (k := Z.of_nat n `mod` factor).
  assert (0 ≤ k < factor) as Hk by (apply Z.mod_pos_bound; lia). assert (Z.of_nat n = Z.of_nat j * factor + k) as Hnj.
  { unfold j, k. rewrite Z2Nat.id by (apply Z.div_pos; lia). pose proof (Z.div_mod (Z.of_nat n) factor). lia. }
  assert (Z.of_nat n < zlen l * factor) as Hlt by (rewrite <- parts_zlen by lia; apply lookup_lt_Some in Hn; unfold zlen; lia).
  destruct (lookup_lt_is_Some_2 l j) as [p Hp]; [unfold zlen in Hlt; nia|]. exists j, k, p.
  assert (n = Z.to_nat (Z.of_nat j * factor + k)) as Hn' by lia. split; [done|]. split; [done|]. split; [done|].
  pose proof (lookup_parts factor l j k p Hf Hk Hp) as Hl. rewrite <- Hn' in Hl. rewrite Hn in Hl. by injection Hl.
Qed.

Lemma hash_parts_lookup hs (j : nat) k h : 0 < factor → 0 ≤ k < factor → hs !! j = Some h → hash_parts hs !! Z.to_nat (Z.of_nat j * factor + k) = Some ((h, k) : part).
Proof.
  intros Hf Hk. revert j. induction hs as [|x hs IH]; intros j Hj; [done|].
  change (hash_parts (x :: hs)) with (((λ k, (x, k)) <$> seqZ 0 factor) ++ hash_parts hs). destruct j as [|j].
  - simpl in Hj. injection Hj as <-. rewrite lookup_app_l by (rewrite length_fmap, length_seqZ; lia). rewrite list_lookup_fmap.
    replace (Z.to_nat _) with (Z.to_nat k) by lia. rewrite (proj2 (lookup_seqZ 0 factor (Z.to_nat k) k)) by lia. done.
  - simpl in Hj. rewrite lookup_app_r by (rewrite length_fmap, length_seqZ; nia). rewrite length_fmap, length_seqZ.
    replace (Z.to_nat _ - _)%nat with (Z.to_nat (Z.of_nat j * factor + k)) by nia. by apply IH.
Qed.

Lemma hash_parts_zlen hs : 0 ≤ factor → zlen (hash_parts hs) = zlen hs * factor.
Proof.
  intros Hf. induction hs as [|h hs IH]; [done|]. change (hash_parts (h :: hs)) with (((λ k, (h, k)) <$> seqZ 0 factor) ++ hash_parts hs).
  rewrite zlen_app, IH, zlen_cons, zlen_fmap. unfold zlen at 1. rewrite length_seqZ. lia.
Qed.

Lemma hash_parts_inv hs n (x : part) : 0 < factor → hash_parts hs !! n = Some x → ∃ (j : nat) k h, n = Z.to_nat (Z.of_nat j * factor + k) ∧ 0 ≤ k < factor ∧ hs !! j = Some h ∧ x = (h, k).
Proof.
  intros Hf Hn. set (j := Z.to_nat (Z.of_nat n `div` factor)). set (k := Z.of_nat n `mod` factor).
  assert (0 ≤ k < factor) as Hk by (apply Z.mod_pos_bound; lia). assert (Z.of_nat n = Z.of_nat j * factor + k) as Hnj.
  { unfold j, k. rewrite Z2Nat.id by (apply Z.div_pos; lia). pose proof (Z.div_mod (Z.of_nat n) factor). lia. }
  assert (Z.of_nat n < zlen hs * factor) as Hlt by (rewrite <- hash_parts_zlen by lia; apply lookup_lt_Some in Hn; unfold zlen; lia).
  destruct (lookup_lt_is_Some_2 hs j) as [h Hh]; [unfold zlen in Hlt; nia|]. exists j, k, h.
  assert (n = Z.to_nat (Z.of_nat j * factor + k)) as Hn' by lia. split; [done|]. split; [done|]. split; [done|].
  pose proof (hash_parts_lookup hs j k h Hf Hk Hh) as Hl. rewrite <- Hn' in Hl. rewrite Hn in Hl. by injection Hl.
Qed.

(** The blocks that a load writes are those of what the request waits for. *)
Lemma load_targets s tg id ps dst skip : 0 < factor → load_ok s tg id ps dst skip → tg.*1 = dst.
Proof.
  intros Hf (Hs & Hl & hs & Hps & ->). apply fst_zip. apply Forall2_length in Hps. pose proof (hash_parts_zlen hs ltac:(lia)).
  rewrite length_drop. unfold zlen in *. lia.
Qed.

Lemma load_writes s tg id ps dst skip : 0 < factor → load_ok s tg id ps dst skip →
  (zip (drop (Z.to_nat skip) (parts factor ps)) dst).*2 = dst
  ∧ ∀ d x, (d, x) ∈ tg → ∃ h k c p, x = (h, k) ∧ 0 ≤ k < factor ∧ h ∈ loading s id ∧ find s h = Some (BS c p)
      ∧ (p * factor + k, d) ∈ zip (drop (Z.to_nat skip) (parts factor ps)) dst.
Proof.
  intros Hf (Hs & Hl & hs & Hps & ->). split.
  { apply snd_zip. pose proof (parts_zlen factor ps ltac:(lia)). rewrite length_drop. unfold zlen in *. lia. }
  intros d x (n & Hn)%list_elem_of_lookup. apply lookup_zip_Some in Hn as [Hd Hx]. rewrite lookup_drop in Hx.
  apply hash_parts_inv in Hx as (j & k & h & Hn & Hk & Hj & ->); [|done]. destruct (Forall2_lookup_l _ _ _ _ _ Hps Hj) as (p & Hp & Hh & c & Hc).
  exists h, k, c, p. split; [done|]. split; [done|]. split; [done|]. split; [done|]. apply (zip_lookup _ _ _ _ n); [|done].
  rewrite lookup_drop, Hn. by apply lookup_parts.
Qed.

(** Parts of places are equal only for the same place and part. *)
Lemma part_inj p1 k1 p2 k2 : 0 ≤ k1 < factor → 0 ≤ k2 < factor → p1 * factor + k1 = p2 * factor + k2 → p1 = p2 ∧ k1 = k2.
Proof. intros H1 H2 He. assert (p1 = p2) by nia. split; [done|]. subst. lia. Qed.

Lemma swap_blocks_in {E} (src dst : Z → E) l j : j ∈ l.*2 → ∃ i, (i, j) ∈ l ∧ swap_blocks src dst l j = src i.
Proof.
  revert dst. induction l as [|[a b] l IH]; intros dst Hj; [by apply elem_of_nil in Hj|].
  change (swap_blocks src dst ((a, b) :: l) j) with (swap_blocks src (write dst b (src a)) l j).
  destruct (decide (j ∈ l.*2)) as [Hin|Hno].
  - destruct (IH (write dst b (src a)) Hin) as (i & Hi & ->). exists i. split; [by right|done].
  - rewrite swap_blocks_other by done. simpl in Hj. apply elem_of_cons in Hj as [->|?]; [|done]. exists a. split; [by left|]. unfold write. by rewrite decide_True.
Qed.

(** The first store that is pending is run. *)
Lemma store_run s J j l pend m js :
  inv s → stores_ok js s J ((j, l) :: pend) m → stores_ok js s J pend (copy true l m).
Proof.
  intros Hi [Hr Hp Hs]. destruct (Hp j l) as (id & Hj & Hl); [by left|].
  assert (∀ i, i ∈ l.*2 → ∃ h p k, 0 ≤ k < factor ∧ i = p * factor + k ∧ find s h = Some (BS (-1) p) ∧ cpu (copy true l m) i = val (h, k)) as Hin.
  { intros i Hi'. destruct (swap_blocks_in (gpu m) (cpu m) l i Hi') as (b & Hb & He). destruct (Hl b i Hb) as (h & p & k & Hk & Hip & _ & Hf & Hg).
    exists h, p, k. do 3 (split; [done|]). simpl. by rewrite He. }
  assert (∀ i, i ∉ l.*2 → cpu (copy true l m) i = cpu m i) as Hout by (intros i Hi'; simpl; by apply swap_blocks_other).
  assert (∀ h c p k, find s h = Some (BS c p) → 0 ≤ k < factor → p * factor + k ∈ l.*2 → c = -1 ∧ cpu (copy true l m) (p * factor + k) = val (h, k)) as Hmine.
  { intros h c p k Hf Hk Hil. destruct (Hin _ Hil) as (h' & p' & k' & Hk' & He & Hf' & Hv). destruct (part_inj p k p' k' Hk Hk' He) as [<- <-].
    assert (h = h') as <- by (by apply (om_places (manager s) h h' _ _ (i_manager _ Hi) Hf Hf')). rewrite Hf in Hf'. by injection Hf' as ->. }
  split.
  - intros h c p k Hf Hc Hk. destruct (decide (p * factor + k ∈ l.*2)) as [Hil|Hil]; [by apply (Hmine h c p k)|]. rewrite Hout by done. by apply (Hr h c).
  - intros j' l' Hin'. destruct (Hp j' l') as (id' & Hj' & Hl'); [by right|]. exists id'. split; [done|]. exact Hl'.
  - intros id' h p k Hh Hf Hk. destruct (decide (p * factor + k ∈ l.*2)) as [Hil|Hil]; [left; by apply (Hmine h (-1) p k)|].
    destruct (Hs id' h p k Hh Hf Hk) as [Hv|[(j' & l' & [[= -> ->]|Hin']%elem_of_cons & Hj' & Hil')|?]]; [left; by rewrite Hout|done| |by right; right].
    right; left. by exists j', l'.
Qed.

(** The first load that is pending is run. *)
Lemma load_run tl rv s tg J L j l pend fin m src id :
  inv s → 0 < factor → (∀ h c p k, find s h = Some (BS c p) → 0 ≤ c → 0 ≤ k < factor → cpu m (p * factor + k) = val (h, k)) →
  (∀ id j, J !! j = Some (id, false) → L !! id = Some j) → J !! j = Some (id, false) →
  loads_ok tl rv s tg J L ((j, l) :: pend) fin (gpu m) src →
  loads_ok tl rv s tg J L pend (fin ++ [(j, l)]) (gpu (copy false l m)) src ∧ ∀ b, b ∈ src → gpu (copy false l m) b = gpu m b.
Proof.
  intros Hi Hf Hr HL Hj []. destruct (d_pending_load0 j l id) as (ps & dst & skip & -> & Hok); [by left|done|].
  pose proof (load_targets s (tg id) id ps dst skip Hf Hok) as Htg. destruct (load_writes s (tg id) id ps dst skip Hf Hok) as [Hw Hin].
  assert (∀ id j, J !! j = Some (id, false) → loading s id ≠ ∅) as Hld by (intros id' j' Hj'; apply d_started0; rewrite (HL _ _ Hj'); by eexists).
  set (l := zip _ dst) in *. assert (∀ b, b ∉ dst → gpu (copy false l m) b = gpu m b) as Hout by (intros b Hb; simpl; apply swap_blocks_other; by rewrite Hw).
  assert (∀ d x, (d, x) ∈ tg id → gpu (copy false l m) d = val x) as Hmine.
  { intros d x Hdx. destruct (Hin d x Hdx) as (h & k & c & p & -> & Hk & Hh & Hc & Hl). simpl.
    rewrite (swap_blocks_at (cpu m) (gpu m) l (p * factor + k) d); [|rewrite Hw, <- Htg; apply d_distinct0; by apply (Hld id j)|done].
    apply (Hr h c); [done| |done]. destruct (i_loading _ Hi id h Hh) as [q Hq]. rewrite Hc in Hq. injection Hq as -> _. apply loads_nonneg. }
  split.
  - split; try done.
    + intros j' l' id' Hin' Hj'. apply (d_pending_load0 j' l' id'); [by right|done].
    + intros j' l' id' d x Hin' Hj' Hdx. assert (d ∈ (tg id').*1) as Hd by (apply list_elem_of_fmap; by exists (d, x)).
      destruct (decide (d ∈ dst)) as [Hdd|Hdd].
      * assert (id = id') as <-; [|by apply Hmine]. rewrite <- Htg in Hdd. by apply (d_disjoint0 id id' d (Hld _ _ Hj) (Hld _ _ Hj')).
      * apply elem_of_app in Hin' as [Hin'|[= -> ->]%list_elem_of_singleton]; [rewrite Hout by done; by apply (d_over_load0 j' l' id')|].
        rewrite Hj in Hj'. injection Hj' as <-. by apply Hmine.
  - intros b Hb. apply Hout. rewrite <- Htg. intros Hd. by apply (d_sources0 id b (Hld _ _ Hj)).
Qed.

(** Stores only look at the blocks that they read. *)
Lemma stores_gpu js s J pend m g :
  (∀ b, b ∈ sources pend → g b = gpu m b) → stores_ok js s J pend m → stores_ok js s J pend (Mem g (cpu m)).
Proof.
  intros Hg []. split; try done. intros j l Hin. destruct (d_pending0 j l Hin) as (id & Hj & Hl). exists id. split; [done|]. intros b i Hb.
  destruct (Hl b i Hb) as (h & p & k & H1 & H2 & H3 & H4 & H5). exists h, p, k. do 4 (split; [done|]). simpl. rewrite Hg; [done|].
  unfold sources. apply list_elem_of_bind. exists (j, l). split; [|done]. apply list_elem_of_fmap. by exists (b, i).
Qed.

Lemma loads_sources tl rv s tg J L pend fin g src src' : (∀ b, b ∈ src' → b ∈ src) → loads_ok tl rv s tg J L pend fin g src → loads_ok tl rv s tg J L pend fin g src'.
Proof. intros Hs []. split; try done. intros id d Hid Hd Hin. by apply (d_sources0 id d Hid Hd), Hs. Qed.

(** *** A step of the device *)

Lemma pending_ids (h : Handler.t) x : x ∈ pending h → x.1 ∈ ids h.
Proof.
  unfold pending, ids. intros (y & -> & Hy)%list_elem_of_fmap. apply list_elem_of_fmap. exists y. split; [done|].
  rewrite <- (take_drop (fired h) (transfers h)). apply elem_of_app. by right.
Qed.

Lemma device_data tl js rv s w w' tg hs hl :
  0 < factor → data_ok tl js rv s w tg hs hl → device_step w w' →
  ∃ hs' hl', data_ok tl js rv s w' tg hs' hl' ∧ same_tables w w' ∧ unsubmitted_store_jobs w' = unsubmitted_store_jobs w.
Proof.
  intros Hf [Hi Hr Hs Hl] Hd. destruct (device_cases factor w w' hs hl Hr Hd) as (hs' & hl' & Hr' & Ht & Hu & Hcase). exists hs', hl'. split; [|done].
  pose proof Ht as (_ & Ej & El & _). destruct Hcase as [(-> & -> & Hw)|[([j l] & -> & Hp & Ho & Hm)|([j l] & -> & Hp & Ho & Hm)]].
  - split; [done|done| |]; rewrite Ej, ?El, Hw; unfold WorkerJobs.pending_stores in *; by rewrite Hu.
  - split; [done|done| |]; rewrite Ej, ?El, Hm.
    + apply (store_run s _ j l); [done|]. by rewrite Hp in Hs.
    + simpl. eapply loads_sources; [|exact Hl]. intros b Hb. rewrite Hp. unfold sources. simpl. apply elem_of_app. by right.
  - assert (pending_stores w' hs = pending_stores w hs) as Eps by (unfold WorkerJobs.pending_stores; by rewrite Hu).
    destruct (proj1 (rep_load_owner _ _ _ _ Hr j)) as [id Hj].
    { pose proof (pending_ids hl (j, l)) as Hid. apply Hid. rewrite Hp. by left. }
    rewrite Hp in Hl. destruct (load_run _ _ _ _ _ _ _ _ _ _ _ _ id Hi Hf (d_ready _ _ _ _ _ Hs) (λ id j Hj, proj2 (rep_load_job _ _ _ _ Hr id j) Hj) Hj Hl) as [Hl' Hg].
    split; [done|done| |]; rewrite Ej, ?El, Hm, Eps; [|by rewrite Ho].
    change (copy false l (memory w)) with (Mem (gpu (copy false l (memory w))) (cpu (memory w))). by apply stores_gpu.
Qed.

Lemma same_tables_trans (w1 w2 w3 : worker_t) : same_tables w1 w2 → same_tables w2 w3 → same_tables w1 w3.
Proof. intros (E1 & E2 & E3 & E4 & E5) (F1 & F2 & F3 & F4 & F5). unfold same_tables. by rewrite F1, F2, F3, F4, F5. Qed.

Lemma rep_unique (w : worker_t) hs hl hs' hl' : rep w hs hl → rep w hs' hl' → hs' = hs ∧ hl' = hl.
Proof. intros Hr Hr'. pose proof (rep_handlers _ _ _ _ Hr) as He. rewrite (rep_handlers _ _ _ _ Hr') in He. by injection He. Qed.

Lemma device_runs tl js rv s w w' tg hs hl :
  0 < factor → data_ok tl js rv s w tg hs hl → rtc device_step w w' → ∃ hs' hl', data_ok tl js rv s w' tg hs' hl' ∧ same_tables w w' ∧ unsubmitted_store_jobs w' = unsubmitted_store_jobs w.
Proof.
  intros Hf Hd Hrtc. revert hs hl Hd. induction Hrtc as [w|w w1 w2 Hs _ IH]; intros hs hl Hd; [by exists hs, hl|].
  destruct (device_data _ _ _ _ _ _ _ _ _ Hf Hd Hs) as (hs1 & hl1 & Hd1 & Ht1 & Hu1). destruct (IH _ _ Hd1) as (hs2 & hl2 & Hd2 & Ht2 & Hu2).
  exists hs2, hl2. split; [done|]. split; [by eapply same_tables_trans|]. by rewrite Hu2.
Qed.

(** *** What the worker does with its jobs *)
Context (np_empty_length : ∀ n, 0 ≤ n → zlen (np_empty n) = n) (factor_pos : 0 < factor).

(** Stores are handed to the device. *)
Lemma submitted tl js rv s w w1 tg hs hs1 hl :
  data_ok tl js rv s w tg hs hl → rep w1 hs1 hl → same_tables w w1 → memory w1 = memory w → pending_stores w1 hs1 = pending_stores w hs → data_ok tl js rv s w1 tg hs1 hl.
Proof. intros [Hi Hr Hs Hl] Hr1 (_ & Ej & El & _) Hm Hp. split; [done|done|by rewrite Ej, Hm, Hp|by rewrite Ej, El, Hm, Hp]. Qed.

Lemma preemptions_data tl js rv s w tg hs hl l :
  data_ok tl js rv s w tg hs hl → runs (handle_preemptions np_empty l) w (λ _ w', ∃ hs' hl', data_ok tl js rv s w' tg hs' hl' ∧ same_tables w w'
    ∧ ∀ r j x, r ∈ l → (j, x) ∈ pending_stores w' hs' → jobs w' !! j ≠ Some (r, true)).
Proof using np_empty_length factor_pos.
  intros Hd. eapply runs_mono; [by apply (handle_preemptions_runs factor np_empty np_empty_length factor_pos l w hs hl), Hd|].
  intros [] w' (w1 & hs1 & Hr1 & Ht1 & _ & Hm1 & Hp1 & _ & Hrtc & hs' & hl' & Hr' & Ht' & _ & Hno).
  assert (data_ok tl js rv s w1 tg hs1 hl) as Hd1 by (by eapply submitted).
  destruct (device_runs _ _ _ _ _ _ _ _ _ factor_pos Hd1 Hrtc) as (hs2 & hl2 & Hd2 & _). exists hs2, hl2. split; [done|]. split; [done|].
  destruct (rep_unique _ _ _ _ _ Hr' (d_rep _ _ _ _ _ _ _ _ Hd2)) as [-> ->]. done.
Qed.

Lemma submit_data tl js rv s w tg hs hl : data_ok tl js rv s w tg hs hl → runs (submit_stores np_empty) w (λ _ w', ∃ hs' hl', data_ok tl js rv s w' tg hs' hl' ∧ same_tables w w').
Proof using np_empty_length factor_pos.
  intros Hd. eapply runs_mono; [by apply (submit_stores_runs factor np_empty np_empty_length factor_pos w hs hl), Hd|].
  intros [] w' (hs1 & Hr1 & Ht1 & _ & Hm1 & Hp1 & _). exists hs1, hl. split; [by eapply submitted|done].
Qed.

(** *** New jobs *)

Lemma stores_new_job js s J pend m j rb : J !! j = None → stores_ok js s J pend m → stores_ok js s (<[j := rb]> J) pend m.
Proof.
  intros Hfresh [H1 H2 H3]. assert (∀ j' rb', J !! j' = Some rb' → <[j := rb]> J !! j' = Some rb') as Hkeep by (intros j' rb' Hj'; rewrite lookup_insert_ne; [done|by intros <-; rewrite Hfresh in Hj']).
  split; [done| |].
  - intros j' l Hin. destruct (H2 j' l Hin) as (id & Hj & Hl). exists id. split; [by apply Hkeep|done].
  - intros id h p k Hh Hf Hk. destruct (H3 id h p k Hh Hf Hk) as [?|[(j' & l & Hin & Hj & Hil)|?]]; [by left| |by right; right].
    right; left. exists j', l. split; [done|]. split; [by apply Hkeep|done].
Qed.

Lemma loads_new_job tl rv s tg J L pend fin g src rb j :
  J !! j = None → (∀ x, x ∈ pend ∨ x ∈ fin → is_Some (J !! x.1)) → loads_ok tl rv s tg J L pend fin g src → loads_ok tl rv s tg (<[j := rb]> J) L pend fin g src.
Proof.
  intros Hfresh Hold []. assert (∀ (x : Z * list (Z * Z)) rb', x ∈ pend ∨ x ∈ fin → <[j := rb]> J !! x.1 = Some rb' → J !! x.1 = Some rb') as Hback.
  { intros x rb' Hx. rewrite lookup_insert_ne; [done|]. intros He. apply Hold in Hx as [? Hx]. rewrite <- He, Hfresh in Hx. done. }
  split; try done.
  - intros j' l id' Hin Hj'. apply (d_pending_load0 j' l id' Hin). apply (Hback (j', l)); [by left|done].
  - intros j' l id' d x Hin Hj'. apply (d_over_load0 j' l id' d x Hin). apply (Hback (j', l)); [by right|done].
Qed.

(** The job of a load. *)
Lemma loads_start tl rv s tg J L pend fin g src id ps dst skip j :
  J !! j = Some (id, false) → (∀ x, x ∈ pend ∨ x ∈ fin → x.1 ≠ j) → load_ok s (tg id) id ps dst skip →
  loads_ok ((id, (CPULoadStoreSpec ps, GPULoadStoreSpec dst)) :: tl) rv s tg J L pend fin g src →
  loads_ok tl rv s tg J (<[id := j]> L) (pend ++ [(j, zip (drop (Z.to_nat skip) (parts factor ps)) dst)]) fin g src.
Proof.
  intros Hj Hold Hok []. destruct d_to_start0 as [Hnd Hts]. change (NoDup (id :: od_keys tl)) in Hnd. apply NoDup_cons in Hnd as [Hid Hnd].
  destruct (Hts id (CPULoadStoreSpec ps, GPULoadStoreSpec dst)) as (Hne & _); [by left|]. split; try done.
  - intros id' Hid'. destruct (decide (id' = id)) as [->|Hn]; [right; left; rewrite lookup_insert_eq; by eexists|]. rewrite lookup_insert_ne by done.
    destruct (d_loading0 id' Hid') as [[->|?]%elem_of_cons|?]; [done|by left|by right].
  - intros id' Hid'. destruct (decide (id' = id)) as [->|Hn]; [by split|]. rewrite lookup_insert_ne in Hid' by done. destruct (d_started0 id' Hid') as [? Hk].
    split; [done|]. intros ?. apply Hk. by right.
  - split; [done|]. intros id' spec' Hin. apply Hts. by right.
  - intros j' l id' [Hin|[= -> ->]%list_elem_of_singleton]%elem_of_app Hj'; [by apply (d_pending_load0 j' l id')|].
    rewrite Hj in Hj'. injection Hj' as <-. by exists ps, dst, skip.
Qed.

Lemma known_jobs (w : worker_t) hs hl x : rep w hs hl → x ∈ pending hl ∨ x ∈ over hl → is_Some (jobs w !! x.1).
Proof.
  intros Hr Hx. assert (x.1 ∈ ids hl) as Hin.
  { destruct Hx as [Hx|Hx]; [by apply pending_ids|]. unfold over, ids in *. apply list_elem_of_fmap in Hx as (y & -> & Hy). apply list_elem_of_fmap. exists y. split; [done|].
    rewrite <- (take_drop (fired hl) (transfers hl)). apply elem_of_app. by left. }
  apply (rep_load_owner _ _ _ _ Hr) in Hin as [r Hj]. by eexists.
Qed.

Lemma fresh_job (w : worker_t) hs hl : rep w hs hl → jobs w !! job_counter w = None.
Proof. intros Hr. destruct (jobs w !! _) eqn:E; [|done]. pose proof (rep_counter _ _ _ _ Hr _ ltac:(by eexists)). lia. Qed.

(** A load is started. *)
Lemma start_data tl js rv s w tg hs hl id spec :
  data_ok ((id, spec) :: tl) js rv s w tg hs hl → runs (start_load np_empty (id, spec)) w (λ _ w', ∃ hl', data_ok tl js rv s w' tg hs hl').
Proof using np_empty_length factor_pos.
  intros [Hi Hr Hs Hl]. destruct (d_to_start _ _ _ _ _ _ _ _ _ _ Hl) as [_ Hts]. destruct (Hts id spec) as (Hne & ps & dst & skip & -> & Hok); [by left|].
  assert (load_job w !! id = None) as Hno.
  { destruct (load_job w !! id) eqn:E; [|done]. destruct (d_started _ _ _ _ _ _ _ _ _ _ Hl id) as [_ Hk]; [by eexists|]. destruct Hk. by left. }
  pose proof Hok as (Hsk & Hlen & _). pose proof (fresh_job _ _ _ Hr) as Hfresh.
  eapply runs_mono; [by apply (start_load_runs factor np_empty np_empty_length factor_pos id ps dst skip w hs hl)|].
  intros [] w' (hl' & Hr' & Ej & El & _ & _ & Hu & Hm & Hp & Ho). exists hl'.
  assert (pending_stores w' hs = pending_stores w hs) as Eps by (unfold WorkerJobs.pending_stores; by rewrite Hu).
  split; [done|done| |]; rewrite Hm, Eps, Ej; [by apply stores_new_job|]. rewrite El, Hp, Ho. apply loads_start; [by rewrite lookup_insert_eq| |done|].
  - intros x Hx He. destruct (known_jobs _ _ _ x Hr Hx) as [? Hj]. by rewrite He, Hfresh in Hj.
  - apply loads_new_job; [done| |done]. intros x. by apply (known_jobs w hs hl).
Qed.

(** A store that is to be handed over, whose blocks hold the contents. *)
Record computed (s : sched_t) (tg : string → list (Z * part)) (g : Z → D) (x : store_job (hash := hash)) : Prop := {
  cp_length : zlen (sj_src x) = zlen (sj_places x) * factor;
  cp_places : Forall2 (λ h p, find s h = Some (BS (-1) p)) (sj_new x) (sj_places x);
  cp_storing h : h ∈ sj_new x → h ∈ storing s (sj_id x);
  cp_contents (j : nat) h k b : sj_new x !! j = Some h → 0 ≤ k < factor → sj_src x !! Z.to_nat (Z.of_nat j * factor + k) = Some b → g b = val (h, k);
  cp_apart id b : loading s id ≠ ∅ → b ∈ (tg id).*1 → b ∉ sj_src x
}.

(** Its transfer. *)
Definition transfers_of (x : store_job (hash := hash)) : list (Z * Z) := zip (sj_src x) (parts factor (sj_places x)).

Lemma transfer_lookup s tg g x : computed s tg g x → (transfers_of x).*1 = sj_src x ∧ (transfers_of x).*2 = parts factor (sj_places x).
Proof using factor_pos.
  intros []. pose proof (parts_zlen factor (sj_places x) ltac:(lia)). unfold transfers_of. split; [apply fst_zip|apply snd_zip]; unfold zlen in *; lia.
Qed.

Lemma transfer_contents s tg g x b i : computed s tg g x → (b, i) ∈ transfers_of x →
  ∃ h p k, 0 ≤ k < factor ∧ i = p * factor + k ∧ h ∈ sj_new x ∧ find s h = Some (BS (-1) p) ∧ g b = val (h, k).
Proof using factor_pos.
  intros [] (n & Hn)%list_elem_of_lookup. apply lookup_zip_Some in Hn as [Hb Hi]. apply parts_inv in Hi as (j & k & p & -> & Hk & Hj & ->); [|done].
  destruct (Forall2_lookup_r _ _ _ _ _ cp_places0 Hj) as (h & Hh & Hf). exists h, p, k. split; [done|]. split; [done|].
  split; [by apply list_elem_of_lookup_2 in Hh|]. split; [done|]. by apply (cp_contents0 j h k b).
Qed.

Lemma transfer_covers s tg g x h p k : computed s tg g x → h ∈ sj_new x → find s h = Some (BS (-1) p) → 0 ≤ k < factor → p * factor + k ∈ (transfers_of x).*2.
Proof using factor_pos.
  intros Hc Hh Hp Hk. rewrite (proj2 (transfer_lookup _ _ _ _ Hc)). apply list_elem_of_lookup in Hh as [j Hj].
  destruct (Forall2_lookup_l _ _ _ _ _ (cp_places _ _ _ _ Hc) Hj) as (q & Hq & Hf). rewrite Hp in Hf. injection Hf as <-.
  eapply list_elem_of_lookup_2, lookup_parts; done.
Qed.

Lemma stores_hand_over js s J pend m tg x j :
  computed s tg (gpu m) x → J !! j = Some (sj_id x, true) → stores_ok (x :: js) s J pend m → stores_ok js s J (pend ++ [(j, transfers_of x)]) m.
Proof using factor_pos.
  intros Hc Hj [H1 H2 H3]. split; [done| |].
  - intros j' l [Hin|[= -> ->]%list_elem_of_singleton]%elem_of_app; [by apply H2|]. exists (sj_id x). split; [done|]. intros b i Hbi.
    destruct (transfer_contents _ _ _ _ _ _ Hc Hbi) as (h & p & k & Hk & Hi & Hh & Hf & Hg).
    exists h, p, k. do 2 (split; [done|]). split; [by apply (cp_storing _ _ _ _ Hc)|done].
  - intros id h p k Hh Hf Hk. destruct (H3 id h p k Hh Hf Hk) as [?|[(j' & l & Hin & Hj' & Hil)|(y & [->|Hy]%elem_of_cons & Hid & Hn)]]; [by left| | |].
    + right; left. exists j', l. split; [apply elem_of_app; by left|done].
    + right; left. exists j, (transfers_of x). split; [apply elem_of_app; right; by left|]. split; [by rewrite <- Hid|]. by apply (transfer_covers s tg (gpu m) x h).
    + right; right. by exists y.
Qed.

(** The stores of a step become jobs. *)
Lemma prepare_data tl x js rv s w tg hs hl :
  data_ok tl (x :: js) rv s w tg hs hl → computed s tg (gpu (memory w)) x →
  runs (prepare_store (entry x)) w (λ _ w', data_ok tl js rv s w' tg hs hl ∧ worker w' = worker w).
Proof using factor_pos.
  intros [Hi Hr Hs Hl] Hc. pose proof (fresh_job _ _ _ Hr) as Hfresh.
  eapply runs_mono; [apply (prepare_store_runs factor (sj_id x) _ w hs hl Hr)|].
  { eexists _, _. split; [done|]. apply Hc. }
  intros [] w' (Hr' & Ej & El & _ & Hw & Hp & _). split; [|done]. split; [done|done| |]; rewrite Hw, Hp, Ej; change (deferred factor _) with (job_counter w, transfers_of x).
  - eapply stores_hand_over; [done|by rewrite lookup_insert_eq|]. by apply stores_new_job.
  - rewrite El. apply loads_new_job; [done|intros y; by apply (known_jobs w hs hl)|]. destruct Hl. split; try done. intros id d Hid Hd. unfold sources. rewrite bind_app, not_elem_of_app.
    split; [by apply (d_sources0 id)|]. simpl. rewrite app_nil_r, (proj1 (transfer_lookup _ _ _ _ Hc)). by apply (cp_apart _ _ _ _ Hc id).
Qed.

(** *** What the scheduler does with its blocks *)

Lemma load_ok_mono (s s' : sched_t) tg id ps dst skip :
  (∀ h, h ∈ loading s id → h ∈ loading s' id) → (∀ h c p, h ∈ loading s id → find s h = Some (BS c p) → ∃ c', find s' h = Some (BS c' p)) →
  load_ok s tg id ps dst skip → load_ok s' tg id ps dst skip.
Proof.
  intros Hl Hf (Hs & Hlen & hs & Hps & Htg). split; [done|]. split; [done|]. exists hs. split; [|done]. eapply Forall2_impl; [exact Hps|].
  intros h p (Hh & c & Hc). split; [by apply Hl|]. by apply (Hf h c).
Qed.

(** Loads do not mind what happens to other blocks. *)
Lemma loads_sched tl rv (s s' : sched_t) tg J L pend fin g src :
  (∀ id, loading s' id = loading s id) → (∀ id h c p, h ∈ loading s id → find s h = Some (BS c p) → ∃ c', find s' h = Some (BS c' p)) →
  loads_ok tl rv s tg J L pend fin g src → loads_ok tl rv s' tg J L pend fin g src.
Proof.
  intros Hl Hf []. assert (∀ id ps dst skip, load_ok s (tg id) id ps dst skip → load_ok s' (tg id) id ps dst skip) as Hok.
  { intros id ps dst skip. apply load_ok_mono; [by rewrite Hl|apply Hf]. }
  split; try (setoid_rewrite Hl; done); try done.
  - split; [apply d_to_start0|]. intros id spec Hin. rewrite Hl. destruct (proj2 d_to_start0 id spec Hin) as (Hne & ps & dst & skip & Hsp & Ho). split; [done|]. exists ps, dst, skip. split; [done|by apply Hok].
  - intros j l id Hin Hj. destruct (d_pending_load0 j l id Hin Hj) as (ps & dst & skip & Hsp & Ho). exists ps, dst, skip. split; [done|by apply Hok].
Qed.

Lemma loading_count s id h c p : inv s → h ∈ loading s id → find s h = Some (BS c p) → 0 < c.
Proof. intros Hi Hh Hf. destruct (i_loading _ Hi id h Hh) as [q Hq]. rewrite Hf in Hq. injection Hq as -> _. apply loads_pos. by exists id. Qed.

Lemma storing_count s id h c p : inv s → h ∈ storing s id → find s h = Some (BS c p) → c = -1.
Proof. intros Hi Hh Hf. destruct (i_storing _ Hi id h Hh) as [q Hq]. rewrite Hf in Hq. by injection Hq. Qed.

(** Nothing happened to the blocks. *)
Lemma same_data tl js rv s s' w tg hs hl :
  inv s' → (∀ h, find s' h = find s h) → reqs_being_stored s' = reqs_being_stored s → reqs_being_loaded s' = reqs_being_loaded s →
  data_ok tl js rv s w tg hs hl → data_ok tl js rv s' w tg hs hl.
Proof.
  intros Hi' Hf Hst Hld [Hi Hr [H1 H2 H3] Hl]. assert (∀ id, storing s' id = storing s id) as Es by (intros id; unfold storing; by rewrite Hst).
  split; [done|done| |].
  - split; try setoid_rewrite Es; try setoid_rewrite Hf; done.
  - eapply loads_sched; [| |done]; [intros id; unfold loading; by rewrite Hld|]. intros id h c p _ Hc. exists c. by rewrite Hf.
Qed.

(** The stores of a step are prepared. *)
Lemma stored_data objects o tl js rv s s' w tg hs hl l :
  stores_all block_hashes gpu_block_size factor objects o s s' l js → data_ok tl [] rv s w tg hs hl → data_ok tl js rv s' w tg hs hl.
Proof.
  intros [] [Hi Hr [H1 H2 H3] Hl]. assert (∀ id, loading s' id = loading s id) as El by (intros id; unfold loading; by rewrite sa_loaded0).
  assert (∀ x h, x ∈ js → h ∈ sj_new x → ∃ p, find s' h = Some (BS (-1) p)) as Hnew.
  { intros x h Hx Hh. destruct (sa_jobs0 x Hx) as (_ & [_ Hps _] & _). apply list_elem_of_lookup in Hh as [j Hj]. destruct (Forall2_lookup_l _ _ _ _ _ Hps Hj) as (p & _ & Hp). by exists p. }
  assert (∀ id h, h ∈ storing s id → h ∈ storing s' id) as Hmore.
  { intros id h Hh. destruct (decide (id ∈ sj_id <$> js)) as [(x & -> & Hx)%list_elem_of_fmap|Hno]; [|by rewrite sa_storing0].
    destruct (sa_jobs0 x Hx) as (_ & _ & -> & _). apply elem_of_union. by left. }
  split; [done|done| |].
  - split.
    + intros h c p k Hf Hc. destruct (sa_old0 h _ Hf) as [Hf'|(x & Hx & Hh)]; [by apply (H1 h c)|]. destruct (Hnew x h Hx Hh) as [q Hq]. rewrite Hf in Hq. injection Hq as -> _. done.
    + intros j l' Hin. destruct (H2 j l' Hin) as (id & Hj & Hb). exists id. split; [done|]. intros b i Hbi. destruct (Hb b i Hbi) as (h & p & k & Hk & Hip & Hh & Hf & Hg).
      exists h, p, k. do 2 (split; [done|]). split; [by apply Hmore|]. split; [|done]. by apply sa_keep0.
    + intros id h p k Hh Hf Hk. assert (h ∈ storing s id ∨ ∃ x, x ∈ js ∧ sj_id x = id ∧ h ∈ sj_new x) as [Hold|Hx]; [| |by right; right].
      * destruct (decide (id ∈ sj_id <$> js)) as [(x & -> & Hx)%list_elem_of_fmap|Hno]; [|left; by rewrite <- sa_storing0].
        destruct (sa_jobs0 x Hx) as (_ & _ & Es & _). rewrite Es in Hh. apply elem_of_union in Hh as [?|Hn%elem_of_list_to_set]; [by left|]. right. by exists x.
      * destruct (i_storing _ Hi id h Hold) as [q Hq]. pose proof (sa_keep0 h _ Hq) as Hq'. rewrite Hf in Hq'. simpl in Hq'. injection (Hq' ltac:(done)) as ->.
        destruct (H3 id h q k Hold Hq Hk) as [?|[?|(x & ?%elem_of_nil & _)]]; [by left|by right; left|done].
  - eapply loads_sched; [done| |done]. intros id h c p Hh Hf. exists c. apply sa_keep0; [done|]. simpl. pose proof (loading_count s id h c p Hi Hh Hf). lia.
Qed.

(** The stores of a request are complete, of which none is pending. *)
Lemma completed_data tl js rv s s' w tg hs hl id :
  completed s s' id → (∀ x, x ∈ js → sj_id x ≠ id) → (∀ j l, (j, l) ∈ pending_stores w hs → jobs w !! j ≠ Some (id, true)) →
  data_ok tl js rv s w tg hs hl → data_ok tl js rv s' w tg hs hl.
Proof.
  intros [] Hjs Hno [Hi Hr [H1 H2 H3] Hl]. split; [done|done| |].
  - split.
    + intros h c p k. rewrite co_find0. case_decide as Hh; [|apply H1]. destruct (i_storing _ Hi id h Hh) as [q Hq]. rewrite Hq. simpl. intros [= <- <-] _ Hk.
      destruct (H3 id h q k Hh Hq Hk) as [?|[(j & l & Hin & Hj & _)|(x & Hx & He & _)]]; [done|by destruct (Hno j l Hin)|by destruct (Hjs x Hx)].
    + intros j l Hin. destruct (H2 j l Hin) as (id' & Hj & Hb). exists id'. split; [done|]. intros b i Hbi. destruct (Hb b i Hbi) as (h & p & k & Hk & Hip & Hh & Hf & Hg).
      assert (id' ≠ id) as Hne by (intros ->; by apply (Hno j l)). exists h, p, k. do 2 (split; [done|]). rewrite co_storing0, decide_False by done. split; [done|]. split; [|done].
      rewrite co_find0, decide_False; [done|]. intros Hx. apply Hne. by apply (i_storer _ Hi id' id h).
    + intros id' h p k. rewrite co_storing0. case_decide as Hne; [by intros ?%elem_of_empty|]. intros Hh. rewrite co_find0, decide_False; [by apply H3|].
      intros Hx. apply Hne. by apply (i_storer _ Hi id' id h).
  - eapply loads_sched; [| |done]; [intros id'; unfold loading; by rewrite co_loaded0|]. intros id' h c p Hh Hf. exists c. rewrite co_find0, decide_False; [done|].
    intros Hx. pose proof (loading_count s id' h c p Hi Hh Hf). pose proof (storing_count s id h c p Hi Hx Hf). lia.
Qed.

(** A load is taken back, whose job is reported. *)
Lemma received_data tl js rv s s' w tg hs hl id :
  received s s' id → load_job w !! id = None → id ∉ od_keys tl → data_ok tl js rv s w tg hs hl → data_ok tl js (rv ∖ {[id]}) s' w tg hs hl.
Proof.
  intros [] Hno Htl [Hi Hr [H1 H2 H3] []]. assert (∀ id', storing s' id' = storing s id') as Es by (intros id'; unfold storing; by rewrite rc_stored0).
  assert (∀ id' h p, h ∈ storing s id' → find s h = Some (BS (-1) p) ↔ find s' h = Some (BS (-1) p)) as Hfs.
  { intros id' h p Hh. destruct (i_storing _ Hi id' h Hh) as [q Hq]. rewrite rc_find0, Hq. simpl. rewrite decide_False; [done|]. intros Hx. pose proof (loading_count s id h _ q Hi Hx Hq). lia. }
  assert (∀ id', loading s' id' ≠ ∅ → id' ≠ id ∧ loading s id' ≠ ∅) as Hld by (intros id'; rewrite rc_loading0; by case_decide).
  assert (∀ id' ps dst skip, id' ≠ id → load_ok s (tg id') id' ps dst skip → load_ok s' (tg id') id' ps dst skip) as Hok.
  { intros id' ps dst skip Hne. apply load_ok_mono; [by rewrite rc_loading0, decide_False|]. intros h c p _ Hf. rewrite rc_find0, Hf. simpl. case_decide; by eexists. }
  split; [done|done| |].
  - split.
    + intros h c p k. rewrite rc_find0. destruct (find s h) as [[c0 p0]|] eqn:Hf; [|done]. simpl. intros He Hc Hk. apply (H1 h c0); [|case_decide; injection He; lia|done]. rewrite Hf. case_decide; injection He; congruence.
    + intros j l Hin. destruct (H2 j l Hin) as (id' & Hj & Hb). exists id'. split; [done|]. intros b i Hbi. destruct (Hb b i Hbi) as (h & p & k & Hk & Hip & Hh & Hf & Hg).
      exists h, p, k. do 2 (split; [done|]). rewrite Es. split; [done|]. split; [by apply (Hfs id')|done].
    + intros id' h p k. rewrite Es. intros Hh Hf. apply H3; [done|]. by apply (Hfs id').
  - split; try done.
    + intros id' [Hne Hid']%Hld. destruct (d_loading0 id' Hid') as [?|[?|?]]; [by left|by right; left|right; right]. rewrite elem_of_difference, elem_of_singleton. done.
    + intros id' Hid'. assert (id' ≠ id) as Hne by (intros ->; rewrite Hno in Hid'; by destruct Hid'). rewrite rc_loading0, decide_False by done. by apply d_started0.
    + split; [apply d_to_start0|]. intros id' spec Hin. assert (id' ≠ id) as Hne by (intros ->; apply Htl, list_elem_of_fmap; by exists (id, spec)).
      rewrite rc_loading0, decide_False by done. destruct (proj2 d_to_start0 id' spec Hin) as (Hn & ps & dst & skip & Hsp & Ho). split; [done|]. exists ps, dst, skip. split; [done|by apply Hok].
    + intros j l id' Hin Hj. destruct (d_pending_load0 j l id' Hin Hj) as (ps & dst & skip & Hsp & Ho). exists ps, dst, skip. split; [done|]. apply Hok; [|done].
      intros ->. apply (rep_load_job _ _ _ _ Hr) in Hj. congruence.
    + intros id' [_ Hid']%Hld. by apply d_distinct0.
    + intros id1 id2 d [_ Hid1]%Hld [_ Hid2]%Hld. by apply d_disjoint0.
    + intros id' d [_ Hid']%Hld. by apply d_sources0.
Qed.

(** A request gets the blocks [dst] for its load. *)
Lemma alloc_data tl js rv (s s' : sched_t) w tg tg' hs hl id ps dst skip :
  data_ok tl js rv s w tg hs hl → inv s' → loading s id = ∅ →
  to_load s' = tl ++ [(id, (CPULoadStoreSpec ps, GPULoadStoreSpec dst))] → loading s' id ≠ ∅ → (∀ id', id' ≠ id → loading s' id' = loading s id') →
  reqs_being_stored s' = reqs_being_stored s → (∀ h c p, find s h = Some (BS c p) → ∃ c', find s' h = Some (BS c' p)) → (∀ h, find s h = None → find s' h = None) →
  load_ok s' (tg' id) id ps dst skip → (∀ id', id' ≠ id → tg' id' = tg id') → NoDup dst →
  (∀ id' d, loading s id' ≠ ∅ → d ∈ (tg id').*1 → d ∉ dst) → (∀ d, d ∈ dst → d ∉ sources (pending_stores w hs)) →
  data_ok (to_load s') js rv s' w tg' hs hl.
Proof using factor_pos.
  intros [Hi Hr [H1 H2 H3] []] Hi' Hno Htl Hne Hld Hst Hf Hnone Hok Htg Hnd Hdis Hsrc.
  pose proof (load_targets s' _ _ _ _ _ factor_pos Hok) as Hdst.
  assert (∀ id, storing s' id = storing s id) as Es by (intros id'; unfold storing; by rewrite Hst).
  assert (∀ id', loading s id' ≠ ∅ → id' ≠ id) as Hother by (intros id' Hid' ->; done).
  assert (∀ id' h p, h ∈ storing s id' → find s h = Some (BS (-1) p) ↔ find s' h = Some (BS (-1) p)) as Hfs.
  { intros id' h p Hh. destruct (i_storing _ Hi id' h Hh) as [q Hq]. destruct (Hf h _ _ Hq) as [c' Hc']. rewrite <- Es in Hh. pose proof (storing_count s' id' h _ _ Hi' Hh Hc') as ->. by rewrite Hq, Hc'. }
  assert (∀ id' ps dst skip, loading s id' ≠ ∅ → load_ok s (tg id') id' ps dst skip → load_ok s' (tg' id') id' ps dst skip) as Hmono.
  { intros id' ps' dst' skip' Hid'%Hother. rewrite Htg by done. apply load_ok_mono; [by rewrite Hld|]. intros h c p _. apply Hf. }
  assert (∀ j id', jobs w !! j = Some (id', false) → loading s id' ≠ ∅) as Hjob by (intros j id' Hj%(rep_load_job _ _ _ _ Hr); apply d_started0; by eexists).
  assert (∀ id', loading s' id' ≠ ∅ → id' = id ∨ loading s id' ≠ ∅ ∧ tg' id' = tg id') as Hcase.
  { intros id' Hid'. destruct (decide (id' = id)) as [|Hn]; [by left|right]. by rewrite <- (Hld id' Hn), Htg. }
  split; [done|done| |].
  - split.
    + intros h c p k Hc Hpos Hk. destruct (find s h) as [[c0 p0]|] eqn:H0; [|by rewrite (Hnone h H0) in Hc]. destruct (Hf h c0 p0 H0) as [c' Hc']. rewrite Hc in Hc'. injection Hc' as <- <-.
      apply (H1 h c0); [done| |done]. destruct (i_idle _ Hi h _ H0) as [Hl|[_ [id' Hh]]]; simpl in *; [rewrite Hl; apply loads_nonneg|].
      rewrite <- Es in Hh. pose proof (storing_count s' id' h c p Hi' Hh Hc). lia.
    + intros j l Hin. destruct (H2 j l Hin) as (id' & Hj & Hb). exists id'. split; [done|]. intros b i Hbi. destruct (Hb b i Hbi) as (h & p & k & Hk & Hip & Hh & Hc & Hg).
      exists h, p, k. do 2 (split; [done|]). rewrite Es. split; [done|]. split; [by apply (Hfs id')|done].
    + intros id' h p k. rewrite Es. intros Hh Hc. apply H3; [done|]. by apply (Hfs id').
  - split.
    + intros id' Hid'. rewrite Htl. unfold od_keys. rewrite fmap_app, elem_of_app. destruct (Hcase id' Hid') as [->|[Ho _]]; [left; right; by left|].
      destruct (d_loading0 id' Ho) as [?|?]; [left; by left|by right].
    + intros id' Hid'. destruct (d_started0 id' Hid') as [Ho Hk]. split; [rewrite Hld by (by apply Hother); done|]. rewrite Htl. unfold od_keys. rewrite fmap_app, not_elem_of_app.
      split; [done|]. simpl. rewrite list_elem_of_singleton. by apply Hother.
    + split; [apply (i_to_load _ Hi')|]. intros id' spec. rewrite Htl. intros [Hin|[= -> ->]%list_elem_of_singleton]%elem_of_app; [|split; [done|]; by exists ps, dst, skip].
      destruct (proj2 d_to_start0 id' spec Hin) as (Hn & ps' & dst' & skip' & Hsp & Ho). split; [rewrite Hld by (by apply Hother); done|]. exists ps', dst', skip'. split; [done|by apply Hmono].
    + intros j l id' Hin Hj. destruct (d_pending_load0 j l id' Hin Hj) as (ps' & dst' & skip' & Hsp & Ho). exists ps', dst', skip'. split; [done|]. apply Hmono; [by apply (Hjob j)|done].
    + intros j l id' d x Hin Hj. rewrite Htg by (by apply Hother, (Hjob j)). by apply (d_over_load0 j l id').
    + intros id' [->|[Ho ->]]%Hcase; [by rewrite Hdst|by apply d_distinct0].
    + intros id1 id2 d [->|[Ho1 ->]]%Hcase [->|[Ho2 ->]]%Hcase; [done| | |by apply d_disjoint0]; rewrite Hdst; intros Ha Hb; [by destruct (Hdis id2 d Ho2)|by destruct (Hdis id1 d Ho1)].
    + intros id' d [->|[Ho ->]]%Hcase; [rewrite Hdst; apply Hsrc|by apply d_sources0].
Qed.

(** The model has run, and left alone the blocks in transfer. *)
Lemma model_data tl js rv s w tg hs hl g :
  data_ok tl js rv s w tg hs hl → (∀ b, b ∈ sources (pending_stores w hs) → g b = gpu (memory w) b) →
  (∀ id d, loading s id ≠ ∅ → d ∈ (tg id).*1 → g d = gpu (memory w) d) →
  data_ok tl js rv s (set_worker (OffloadingWorker.Wk (OffloadingWorker.handlers (worker w)) (Mem g (cpu (memory w)))) w) tg hs hl.
Proof.
  intros [Hi Hr Hs []] Hg Ht. split; [done|by destruct Hr|by apply stores_gpu|]. split; try done.
  intros j l id d x Hin Hj Hdx. assert (loading s id ≠ ∅) as Hne by (apply d_started0; rewrite (proj2 (rep_load_job _ _ _ _ Hr id j) Hj); by eexists).
  simpl. rewrite (Ht id d Hne) by (apply list_elem_of_fmap; by exists (d, x)). by apply (d_over_load0 j l id).
Qed.

(** What the worker reports. *)
Lemma reported_data tl js s w tg hs hl ended :
  data_ok tl js ∅ s w tg hs hl → runs (get_finished ended) w (λ acc w', ∃ hs' hl', data_ok tl js acc.2 s w' tg hs' hl' ∧ memory w' = memory w
    ∧ (∀ id d x, id ∈ acc.2 → (d, x) ∈ tg id → gpu (memory w) d = val x)
    ∧ (∀ id j, id ∈ acc.1 → jobs w' !! j ≠ Some (id, true)) ∧ ∀ id, id ∈ acc.2 → load_job w' !! id = None ∧ loading s id ≠ ∅).
Proof.
  intros [Hi Hr [H1 H2 H3] []]. eapply runs_mono; [by apply (get_finished_runs factor ended w hs hl)|].
  intros acc w' (hs' & hl' & Hr' & Hm & Hu & Hp & Hpl & Hos & Hol & []). exists hs', hl'.
  assert (∀ j rb, jobs w' !! j = Some rb → jobs w !! j = Some rb) as Hback by (intros j rb Hj; by apply rp_jobs0 in Hj as [? _]).
  assert (∀ j l id, (j, l) ∈ pending_stores w hs → jobs w !! j = Some (id, true) → jobs w' !! j = Some (id, true)) as Hstore.
  { intros j l id Hin Hj. destruct (proj1 (rep_store_owner _ _ _ _ Hr' j)) as [r Hj'].
    - rewrite <- Hp in Hin. unfold WorkerJobs.pending_stores in Hin. apply elem_of_app in Hin as [Hin%pending_ids|(y & Hy & Hin)%list_elem_of_fmap]; apply elem_of_app; [by right|left].
      apply list_elem_of_fmap. exists y. split; [by injection Hy|done].
    - pose proof (Hback _ _ Hj'). congruence. }
  assert (∀ id, id ∈ acc.2 → ∃ j l, (j, l) ∈ over hl ∧ jobs w !! j = Some (id, false)) as Hrec.
  { intros id (j & ([j' l] & -> & Hin)%list_elem_of_fmap & Hj)%rp_recving0. by exists j', l. }
  split; [|split; [done|split; [|split]]].
  - split; [done|done| |]; rewrite Hp, Hm, ?Hpl, ?Hol.
    + split; [done| |].
      * intros j l Hin. destruct (H2 j l Hin) as (id & Hj & Hb). exists id. split; [by apply (Hstore j l)|done].
      * intros id h p k Hh Hf Hk. destruct (H3 id h p k Hh Hf Hk) as [?|[(j & l & Hin & Hj & Hil)|?]]; [by left| |by right; right]. right; left. exists j, l. split; [done|]. split; [by apply (Hstore j l)|done].
    + split; try done.
      * intros id Hid. destruct (d_loading0 id Hid) as [?|[[j Hj]|?%elem_of_empty]]; [by left| |done]. right. apply (rep_load_job _ _ _ _ Hr) in Hj.
        destruct (jobs w' !! j) as [rb|] eqn:Hj'; [left; pose proof (Hback _ _ Hj') as E; rewrite Hj in E; injection E as <-; exists j; by apply (rep_load_job _ _ _ _ Hr')|right].
        apply rp_recving0. exists j. split; [|done]. destruct (decide (j ∈ (over hs).*1 ++ (over hl).*1)) as [[Hs|?]%elem_of_app|Hno]; [exfalso|done|].
        -- apply list_elem_of_fmap in Hs as (y & -> & Hy). destruct (proj1 (rep_store_owner _ _ _ _ Hr y.1)) as [r Hjr]; [|congruence]. apply elem_of_app. right.
           unfold over, ids in *. apply list_elem_of_fmap in Hy as (z & -> & Hz). apply list_elem_of_fmap. exists z. split; [done|].
           rewrite <- (take_drop (fired hs) (transfers hs)). apply elem_of_app. by left.
        -- by rewrite (proj2 (rp_jobs0 j (id, false))) in Hj'.
      * intros id [j Hj%(rep_load_job _ _ _ _ Hr')]. apply d_started0. exists j. by apply (rep_load_job _ _ _ _ Hr), Hback.
      * intros j l id Hin Hj. apply (d_pending_load0 j l id Hin). by apply Hback.
      * intros j l id d x Hin. by apply elem_of_nil in Hin.
  - intros id d x (j & l & Hin & Hj)%Hrec Hdx. by apply (d_over_load0 j l id).
  - intros id j Hid. by apply rp_sending0.
  - intros id Hid. pose proof (Hrec id Hid) as (j & l & Hin & Hj). pose proof (proj2 (rep_load_job _ _ _ _ Hr id j) Hj) as HL. split; [|apply d_started0; by eexists].
    destruct (load_job w' !! id) as [j'|] eqn:Hj'; [|done]. apply (rep_load_job _ _ _ _ Hr') in Hj'. pose proof (Hback _ _ Hj') as Hj''. apply (rep_load_job _ _ _ _ Hr) in Hj''. rewrite HL in Hj''. injection Hj'' as <-.
    apply rp_jobs0 in Hj' as [_ Hno]. destruct Hno. apply elem_of_app. right. apply list_elem_of_fmap. by exists (j, l).
Qed.

(** ** What a request waits for *)

(** The blocks of its group behind the cached ones, and what belongs there: block [i] is a part
    of the offloaded block [i // factor]. *)
Definition waits_for (r : Request) (group : list FreeQueue.KVCacheBlock) : list (Z * part) :=
  let c := hashed_blocks_of group in
  omap (λ i, match group !! Z.to_nat i, chunk r (i `div` factor) with Some b, Some h => Some (FreeQueue.block_id b, (h, i `mod` factor)) | _, _ => None end)
    (seqZ c (zlen group - c)).

Lemma hashes_zlen_le hs : 0 ≤ hashed_blocks_of hs ≤ zlen hs.
Proof. unfold hashed_blocks_of, zlen. pose proof (length_filter (λ b, is_Some (FreeQueue.block_hash b)) hs). lia. Qed.

(** It is what its load brings. *)
Lemma waits_for_load (gpu_pos : 0 < gpu_block_size) s s' r group e hs ps dst skip :
  load_of block_hashes gpu_block_size factor s s' r group e hs ps dst skip → 0 < e →
  waits_for r group = zip dst (drop (Z.to_nat skip) (hash_parts hs)).
Proof using factor_pos.
  intros [] He. pose proof (hashes_zlen_le group) as Hc. set (c := hashed_blocks_of group) in *. destruct lo_skip0 as [Hsk Hskip].
  assert (0 ≤ c `div` factor) as Hd by (apply Z.div_pos; lia). pose proof (Z.div_mod c factor ltac:(lia)) as Hdm.
  assert (zlen dst = zlen group - c) as Hlen by (rewrite lo_blocks0; unfold zlen in *; rewrite length_drop, length_fmap; lia).
  assert (zlen hs = zlen ps) as Hps by (apply Forall2_length in lo_places0; unfold zlen; lia). pose proof (hash_parts_zlen hs ltac:(lia)) as Hhl.
  unfold waits_for. fold c. apply omap_Forall2, Forall2_same_length_lookup. split.
  { rewrite length_seqZ, length_zip, length_drop. unfold zlen in *. lia. }
  intros n i [d x] Hi Hx. apply lookup_seqZ in Hi as [-> Hlt]. apply lookup_zip_Some in Hx as [Hdn Hx].
  rewrite lo_blocks0, lookup_drop, list_lookup_fmap in Hdn. replace (Z.to_nat (c + Z.of_nat n)) with (Z.to_nat c + n)%nat by lia.
  destruct (group !! _) as [b|]; [|done]. simpl in Hdn. injection Hdn as <-. rewrite lookup_drop in Hx.
  apply hash_parts_inv in Hx as (j & k & h & Hn & Hk & Hj & ->); [|done]. rewrite lo_hashes0, (hashes_upto block_hashes gpu_block_size factor gpu_pos factor_pos) in Hj by lia.
  destruct (_ <? _); [|done]. assert (c + Z.of_nat n = (c `div` factor + Z.of_nat j) * factor + k) as -> by lia.
  rewrite Z.div_add_l, (Z.div_small k), Z.add_0_r, Hj by lia. rewrite (Z.add_comm _ k), Z.mod_add, Z.mod_small by lia. done.
Qed.

(** ** What the model computes *)

(** The blocks [ids] of a request hold what its first [limit] tokens need. *)
Definition holds (g : Z → D) (r : Request) (ids : list Z) (limit : Z) : Prop :=
  ∀ i h b, 0 ≤ i → off * (i `div` factor + 1) ≤ limit → chunk r (i `div` factor) = Some h → ids !! Z.to_nat i = Some b → g b = val (h, i `mod` factor).

Lemma computed_jobs objects o s s' l js tg g :
  stores_all block_hashes gpu_block_size factor objects o s s' l js →
  (∀ x r limit, x ∈ l → storable block_hashes gpu_block_size objects o s x r limit → holds g r (blocks_now s x) limit) →
  (∀ x id b, x ∈ l → loading s id ≠ ∅ → b ∈ (tg id).*1 → b ∉ blocks_now s x) → ∀ x, x ∈ js → computed s' tg g x.
Proof using factor_pos.
  intros [] Hg Hap x Hx. destruct (sa_jobs0 x Hx) as (_ & [Hlen Hps Hb] & Hst & y & Hy & _ & Hsb & Hids).
  assert (zlen (sj_new x) = zlen (sj_places x)) as Hpl by (apply Forall2_length in Hps; unfold zlen; lia). split; try done.
  - intros h Hh. rewrite Hst. apply elem_of_union. right. by apply elem_of_list_to_set.
  - intros j h k b Hj Hk Hsrc. destruct (Hb j h Hj) as (i & Hi & Hle & Hc & Hq). rewrite Hq, Hids in Hsrc by done.
    assert ((i * factor + k) `div` factor = i) as Ed by (rewrite Z.div_add_l, Z.div_small by lia; lia).
    assert ((i * factor + k) `mod` factor = k) as Em by (rewrite Z.add_comm, Z.mod_add, Z.mod_small by lia; done).
    rewrite <- Em at 1. apply (Hg y _ _ Hy Hsb (i * factor + k) h b); [nia|by rewrite Ed|by rewrite Ed|done].
  - intros id b Hid Hbt (n & Hn)%list_elem_of_lookup. unfold loading in Hid. rewrite sa_loaded0 in Hid. apply (Hap y id b Hy Hid Hbt). rewrite <- Hids.
    set (j := Z.to_nat (Z.of_nat n `div` factor)). set (k := Z.of_nat n `mod` factor). assert (0 ≤ k < factor) as Hk by (apply Z.mod_pos_bound; lia).
    assert (Z.of_nat n = Z.of_nat j * factor + k) as Hnj. { unfold j, k. rewrite Z2Nat.id by (apply Z.div_pos; lia). pose proof (Z.div_mod (Z.of_nat n) factor). lia. }
    assert (Z.of_nat n < zlen (sj_src x)) as Hlt by (apply lookup_lt_Some in Hn; unfold zlen; lia).
    destruct (lookup_lt_is_Some_2 (sj_new x) j) as [h Hh]; [unfold zlen in *; nia|]. destruct (Hb j h Hh) as (i & _ & _ & _ & Hq).
    replace n with (Z.to_nat (Z.of_nat j * factor + k)) in Hn by lia. rewrite Hq in Hn by done. by apply list_elem_of_lookup_2 in Hn.
Qed.

Lemma computed_completed s s' id tg g x : inv s → completed s s' id → sj_id x ≠ id → computed s tg g x → computed s' tg g x.
Proof.
  intros Hi [] Hne []. split; try done.
  - eapply Forall2_impl_in; [exact cp_places0|]. intros h p Hh Hf. rewrite co_find0, decide_False; [done|]. intros Hx. apply Hne. apply (i_storer _ Hi _ _ h); [by apply cp_storing0|done].
  - intros h Hh. rewrite co_storing0, decide_False by done. by apply cp_storing0.
  - intros id' b. unfold loading. rewrite co_loaded0. apply cp_apart0.
Qed.
End system.
End OffloadData.
