(* ===== verification/OffloadSystem.v ===== *)
(** The offloading connector as a whole: the scheduler's side, a worker and its transfers, in
    the order in which the scheduler and the model runner call them.  What the theorem says is
    that offloaded blocks come back: when a load is reported, its blocks of the GPU hold what
    the tokens that they were promised for need. *)
From stdpp Require Import gmap strings.
From S2P Require Export OffloadData.
From stdpp Require Import options.
Open Scope Z_scope.

Module OffloadSystem.
Import SchedRequest OffloadingConnector ConnectorProtocol Handler ConnectorWorker WorkerJobs OffloadData.

Section system.
Context {hash M : Type} `{Countable hash} `{!OffloadingManager hash (list Z) M, OL : !OffloadingManagerLaws hash Z (list Z) M}.
Context {D : Type} (np_empty : Z → list Z) (block_hashes : Request → list hash) (gpu_block_size factor : Z).

Abbreviation sched_t := (OffloadingConnector.t hash M).
Abbreviation worker_t := (ConnectorWorker.t D).
Abbreviation part := (part (hash := hash)).
Abbreviation off := (factor * gpu_block_size).
Abbreviation inv := (inv (hash := hash) (M := M)).
Abbreviation memory w := (OffloadingWorker.memory (worker w)).
Abbreviation storable := (storable block_hashes gpu_block_size).
Abbreviation blocks_now := (blocks_now (hash := hash) (M := M)).

(** Both sides, and for each request the blocks of the GPU that it loads into, with the part
    of an offloaded block that belongs there. *)
Record t := Sys { sched : sched_t; wrk : worker_t; targets : gmap string (list (Z * part)) }.

Definition target (σ : t) (id : string) : list (Z * part) := default [] (targets σ !! id).

Definition on_sched {A} (f : py sched_t A) : py t A := λ σ, let '(a, s) := f (sched σ) in (a, Sys s (wrk σ) (targets σ)).
Definition on_wrk {A} (f : py worker_t A) : py t A := λ σ, let '(a, w) := f (wrk σ) in (a, Sys (sched σ) w (targets σ)).

(** ** The calls *)

(** The scheduler has given blocks to a request; when it loads, they wait for their contents. *)
Definition alloc (r : Request) (group : list FreeQueue.KVCacheBlock) (groups : list (list FreeQueue.KVCacheBlock)) (ext : Z) : py t unit :=
  on_sched (update_state_after_alloc block_hashes gpu_block_size off r (group :: groups) ext) ;;;
  if ext =? 0 then ret tt
  else modify (λ σ, Sys (sched σ) (wrk σ) (<[request_id r := waits_for block_hashes factor r group]> (targets σ))).

(** The device runs transfers of the given directions. *)
Definition run_device (ks : list (string * string)) : py t unit :=
  on_wrk (modify (λ w, foldl (λ w k, set_worker (OffloadingWorker.run_next k (worker w)) w) w ks)).

(** The scheduler describes the step; the model runner hands over the preempted requests and
    starts the transfers ([execute_model], [_get_kv_connector_output]). *)
Definition begin_step (objects : gmap string Request) (o : SchedulerOutput) (ks : list (string * string)) : py t OffloadingConnectorMetadata :=
  let* meta := on_sched (build_connector_meta block_hashes gpu_block_size off objects o) in
  (if decide (preempted_req_ids o ≠ ∅) then on_wrk (handle_preemptions np_empty (elements (preempted_req_ids o))) else ret tt) ;;;
  on_wrk (start_kv_transfers np_empty meta) ;;;
  run_device ks ;;;
  ret meta.

(** The model has run and left [g] in the memory of the GPU; the stores are prepared, and the
    scheduler takes what is finished. *)
Definition end_step (meta : OffloadingConnectorMetadata) (g : Z → D) (ks : list (string * string)) (ended : list string) : py t (gset string * gset string) :=
  on_wrk (modify (λ w, set_worker (OffloadingWorker.Wk (OffloadingWorker.handlers (worker w)) (Mem g (cpu (memory w)))) w)) ;;;
  on_wrk (prepare_store_kv meta) ;;;
  run_device ks ;;;
  let* acc := on_wrk (get_finished ended) in
  on_sched (update_connector_output (elements acc.1) (elements acc.2)) ;;;
  ret acc.

(** ** What the callers keep to *)

(** The stores that are not over. *)
Definition under_way (w : worker_t) : list (Z * list (Z * Z)) :=
  match od_get ("GPU", "CPU")%string (OffloadingWorker.handlers (worker w)) with Some hs => pending_stores factor w hs | None => [] end.

(** The blocks of a load are not those of another load, nor read by a store. *)
Definition alloc_ok (σ : t) (r : Request) (group : list FreeQueue.KVCacheBlock) (ext : Z) : Prop :=
  let dst := drop (Z.to_nat (hashed_blocks_of group)) (FreeQueue.block_id <$> group) in
  ext = 0 ∨ (∃ e, allocated block_hashes gpu_block_size factor (sched σ) r group ext e) ∧ NoDup dst
    ∧ (∀ id d, loading (sched σ) id ≠ ∅ → d ∈ (target σ id).*1 → d ∉ dst) ∧ ∀ d, d ∈ dst → d ∉ sources (under_way (wrk σ)).

(** The requests of a step are known to the connector, have blocks for their tokens, which no
    load writes, and are not among the preempted ones. *)
Record step_ok (σ : t) (objects : gmap string Request) (o : SchedulerOutput) : Prop := {
  so_distinct : NoDup ((yield_req_data o).*1.*1);
  so_storable x : x ∈ yield_req_data o → ∃ r limit, storable objects o (sched σ) x r limit;
  so_preempted x : x ∈ yield_req_data o → x.1.1 ∉ preempted_req_ids o;
  so_apart x id b : x ∈ yield_req_data o → loading (sched σ) id ≠ ∅ → b ∈ (target σ id).*1 → b ∉ blocks_now (sched σ) x
}.

(** What the blocks of the tokens of a hash hold, a function of the prefix that it names. *)
Context (val : part → D).

(** The model, run between [σ1], where the step of [σ] began, and its end, leaves the contents
    of all its tokens in the blocks of each request of the step, and touches no block in transfer. *)
Record model_ran (σ : t) (objects : gmap string Request) (o : SchedulerOutput) (σ1 : t) (g : Z → D) : Prop := {
  mr_computes x r limit : x ∈ yield_req_data o → storable objects o (sched σ) x r limit → holds block_hashes gpu_block_size factor val g r (blocks_now (sched σ) x) limit;
  mr_sources b : b ∈ sources (under_way (wrk σ1)) → g b = gpu (memory (wrk σ1)) b;
  mr_targets id d : loading (sched σ1) id ≠ ∅ → d ∈ (target σ1 id).*1 → g d = gpu (memory (wrk σ1)) d
}.

(** The calls of an engine, whatever the device does in the meantime. *)
Inductive step : t → t → Prop :=
  | StepMatch σ r n a σ' : hashed block_hashes gpu_block_size r → 0 ≤ n → 0 ≤ num_tokens r →
      on_sched (get_num_new_matched_tokens block_hashes gpu_block_size off r n) σ = (a, σ') → step σ σ'
  | StepAlloc σ r group groups ext a σ' : hashed block_hashes gpu_block_size r → alloc_ok σ r group ext → alloc r group groups ext σ = (a, σ') → step σ σ'
  | StepFinished σ id a σ' : on_sched (request_finished id) σ = (a, σ') → step σ σ'
  | StepEngine σ objects o ks meta σ1 g ks' ended acc σ2 :
      step_ok σ objects o → begin_step objects o ks σ = (Ok meta, σ1) → model_ran σ objects o σ1 g → end_step meta g ks' ended σ1 = (Ok acc, σ2) → step σ σ2.

(** A connector that has done nothing, over the manager [m] and the memories [mem]. *)
Definition start (caching : bool) (m : M) (hs hl : Handler.t) (mem : Memory D) : t :=
  Sys (OffloadingConnector.create caching m) (ConnectorWorker.create (OffloadingWorker.Wk (handlers_of hs hl) mem)) ∅.

(** ** The calls keep the invariant *)
Context (places_spec : ∀ ps, om_spec_of ps = ps) (np_empty_length : ∀ n, 0 ≤ n → zlen (np_empty n) = n).
Context (gpu_pos : 0 < gpu_block_size) (factor_pos : 0 < factor).

Abbreviation data_ok := (data_ok factor val).

(** Between two calls. *)
Definition sys_inv (σ : t) : Prop := ∃ hs hl, data_ok (to_load (sched σ)) [] ∅ (sched σ) (wrk σ) (target σ) hs hl.

Lemma runs_on_sched {A} (f : py sched_t A) σ (Q : A → t → Prop) : runs f (sched σ) (λ a s, Q a (Sys s (wrk σ) (targets σ))) → runs (on_sched f) σ Q.
Proof. intros (a & s & Hf & HQ). exists a, (Sys s (wrk σ) (targets σ)). split; [|done]. unfold on_sched. by rewrite Hf. Qed.

Lemma runs_on_wrk {A} (f : py worker_t A) σ (Q : A → t → Prop) : runs f (wrk σ) (λ a w, Q a (Sys (sched σ) w (targets σ))) → runs (on_wrk f) σ Q.
Proof. intros (a & w & Hf & HQ). exists a, (Sys (sched σ) w (targets σ)). split; [|done]. unfold on_wrk. by rewrite Hf. Qed.

Lemma runs_seq_sched {A B} (f : py sched_t A) (k : A → py t B) σ P Q :
  runs f (sched σ) P → (∀ a s, P a s → runs (k a) (Sys s (wrk σ) (targets σ)) Q) → runs (bind (on_sched f) k) σ Q.
Proof. intros (a & s & Hf & HP) Hk. apply (runs_ok _ _ _ a (Sys s (wrk σ) (targets σ))); [unfold on_sched; by rewrite Hf|by apply Hk]. Qed.

Lemma runs_seq_wrk {A B} (f : py worker_t A) (k : A → py t B) σ P Q :
  runs f (wrk σ) P → (∀ a w, P a w → runs (k a) (Sys (sched σ) w (targets σ)) Q) → runs (bind (on_wrk f) k) σ Q.
Proof. intros (a & w & Hf & HP) Hk. apply (runs_ok _ _ _ a (Sys (sched σ) w (targets σ))); [unfold on_wrk; by rewrite Hf|by apply Hk]. Qed.

Lemma under_way_pending (w : worker_t) hs hl : rep factor w hs hl → under_way w = pending_stores factor w hs.
Proof. intros Hr. unfold under_way. by rewrite (rep_handlers _ _ _ _ Hr). Qed.

(** *** The start *)
Lemma start_sys caching m hs hl mem :
  om_inv m → (∀ h, om_find m h = None) → OffloadTransfer.stores factor hs → OffloadTransfer.loads factor hl → transfers hs = [] → transfers hl = [] →
  transfer_events hs = ∅ → transfer_events hl = ∅ → fired hs = 0%nat → fired hl = 0%nat → sys_inv (start caching m hs hl mem).
Proof.
  intros Hm Hno Hs Hl T1 T2 E1 E2 F1 F2. exists hs, hl.
  assert (pending hl = [] ∧ over hl = [] ∧ pending hs = []) as (P1 & O1 & P2) by (unfold pending, over; by rewrite T1, T2, !take_nil, !drop_nil).
  assert (ids hs = [] ∧ ids hl = []) as [I1 I2] by (unfold ids; by rewrite T1, T2). split.
  - by apply create_keeps.
  - split; simpl; rewrite ?I1, ?I2; try done.
    + split; [by rewrite E1, I1|lia].
    + split; [by rewrite E2, I2|lia].
    + by intros x ?%elem_of_nil.
    + constructor.
    + intros j. split; [by intros ?%elem_of_nil|by intros [r ?]].
    + intros j. split; [by intros ?%elem_of_nil|by intros [r ?]].
    + intros j [x Hx]. done.
  - unfold pending_stores. simpl. rewrite P2. split.
    + intros h c p k Hf. unfold find in Hf. simpl in Hf. by rewrite Hno in Hf.
    + by intros j l ?%elem_of_nil.
    + by intros id h p k ?%elem_of_empty.
  - rewrite P1, O1. split; simpl; try done; try (by intros j l id ?%elem_of_nil); try (by intros j l id d x ?%elem_of_nil).
    + by intros id [x Hx].
    + split; [constructor|]. by intros id spec ?%elem_of_nil.
Qed.

(** *** The calls of the scheduler *)
Lemma match_runs σ r n :
  sys_inv σ → hashed block_hashes gpu_block_size r → 0 ≤ n → 0 ≤ num_tokens r →
  runs (on_sched (get_num_new_matched_tokens block_hashes gpu_block_size off r n)) σ (λ a σ', sys_inv σ' ∧ answers block_hashes gpu_block_size factor (sched σ) r n a).
Proof using gpu_pos factor_pos.
  intros (hs & hl & Hd) Hr Hn Hnt. pose proof (d_inv _ _ _ _ _ _ _ _ _ _ Hd) as Hi. apply runs_on_sched.
  eapply runs_mono; [by apply (matched_tokens_runs block_hashes gpu_block_size factor)|]. intros a s' ((m & -> & Hm & Hf) & Ha). split; [|done].
  exists hs, hl. eapply same_data; [by apply inv_manager|done|done|done|done].
Qed.

Lemma finished_call_runs σ id : sys_inv σ → runs (on_sched (request_finished id)) σ (λ _ σ', sys_inv σ').
Proof.
  intros (hs & hl & Hd). apply runs_on_sched. eapply runs_mono; [apply request_finished_runs, Hd|]. intros b s' (_ & Hi' & Htl & Hf & Hst & Hld).
  exists hs, hl. simpl. rewrite Htl. by eapply same_data.
Qed.

Lemma alloc_call_runs σ r group groups ext :
  sys_inv σ → hashed block_hashes gpu_block_size r → alloc_ok σ r group ext → runs (alloc r group groups ext) σ (λ _ σ', sys_inv σ').
Proof using places_spec gpu_pos factor_pos.
  intros (hs & hl & Hd) Hr Hok. pose proof (d_inv _ _ _ _ _ _ _ _ _ _ Hd) as Hi. unfold alloc. destruct (Z.eqb_spec ext 0) as [->|Hne].
  - eapply runs_seq_sched; [apply (alloc_nothing_runs block_hashes gpu_block_size factor _ r (group :: groups)), Hi|].
    intros [] s' (Hi' & Htl & Hf & Hst & Hld). apply runs_ret. exists hs, hl. simpl. rewrite Htl. by eapply same_data.
  - destruct Hok as [?|([e Hal] & Hnd & Hdis & Hsrc)]; [done|].
    eapply runs_seq_sched; [by apply (alloc_runs places_spec block_hashes gpu_block_size factor gpu_pos factor_pos _ r group groups ext e)|].
    intros [] s' (hs' & ps & dst & skip & Hi' & Hlo & Htl & Hld & Hst & Hf & Hnone). apply runs_modify_end. exists hs, hl. simpl.
    assert (0 < e) as He by (pose proof (zlen_nonneg group); pose proof (hashes_zlen_le group); destruct Hal; nia).
    pose proof Hlo as [_ Hpl Hdst [Hsk _] Hlen [Hlo1 Hlo2]]. rewrite <- Hdst in Hnd, Hdis, Hsrc.
    assert (∀ id', id' ≠ request_id r → target (Sys s' (wrk σ) (<[request_id r := waits_for block_hashes factor r group]> (targets σ))) id' = target σ id') as Htg.
    { intros id' Hn. unfold target. simpl. by rewrite lookup_insert_ne. }
    eapply (alloc_data factor val factor_pos _ _ _ _ _ _ _ _ _ _ (request_id r) ps dst skip Hd); try done; [apply Hal| | | |].
    + rewrite Hlo1. intros Hx. destruct hs' as [|h hs']; [done|]. assert (h ∈ (list_to_set (h :: hs') : gset hash)) as Hin by (apply elem_of_list_to_set; by left). rewrite Hx in Hin. by apply elem_of_empty in Hin.
    + intros h c p Hc. rewrite (Hf h c p Hc). by eexists.
    + split; [done|]. split; [done|]. exists hs'. split.
      * eapply Forall2_impl_in; [exact Hpl|]. intros h p Hh (c & Hc & _). split; [rewrite Hlo1; by apply elem_of_list_to_set|by exists c].
      * unfold target. simpl. rewrite lookup_insert_eq. simpl. by eapply (waits_for_load block_hashes gpu_block_size factor factor_pos gpu_pos).
    + intros d Hd'. rewrite <- (under_way_pending _ _ _ (d_rep _ _ _ _ _ _ _ _ _ _ Hd)). by apply Hsrc.
Qed.

(** *** The engine's step *)

Lemma run_device_runs tl js rv s w T tg hs hl ks :
  data_ok tl js rv s w tg hs hl → runs (run_device ks) (Sys s w T) (λ _ σ', ∃ w' hs' hl', σ' = Sys s w' T ∧ data_ok tl js rv s w' tg hs' hl').
Proof using factor_pos.
  intros Hd. unfold run_device. apply runs_on_wrk, runs_modify_end. simpl.
  assert (rtc device_step w (foldl (λ w k, set_worker (OffloadingWorker.run_next k (worker w)) w) w ks)) as Hrtc.
  { clear. revert w. induction ks as [|k ks IH]; intros w; [apply rtc_refl|]. simpl. eapply rtc_l; [by exists k|]. apply IH. }
  destruct (device_runs factor val _ _ _ _ _ _ _ _ _ factor_pos Hd Hrtc) as (hs' & hl' & Hd' & _). by eexists _, hs', hl'.
Qed.

(** The stores of requests without pending ones are complete. *)
Lemma completes_data ids tl js rv s s' w tg hs hl :
  completes ids s s' → (∀ x, x ∈ js → sj_id x ∉ ids) → (∀ id j l, id ∈ ids → (j, l) ∈ pending_stores factor w hs → jobs w !! j ≠ Some (id, true)) →
  data_ok tl js rv s w tg hs hl → data_ok tl js rv s' w tg hs hl ∧ to_load s' = to_load s ∧ ∀ g x, x ∈ js → computed factor val s tg g x → computed factor val s' tg g x.
Proof.
  revert s. induction ids as [|id ids IH]; intros s; [by intros ->|]. simpl. intros (s1 & Hc & Hcs) Hjs Hno Hd.
  destruct (IH s1 Hcs) as (Hd' & Htl & Hcp).
  - intros x Hx Hin. apply (Hjs x Hx). by right.
  - intros id' j l Hin. apply Hno. by right.
  - eapply completed_data; [done| | |done]; [intros x Hx He; apply (Hjs x Hx); rewrite He; by left|]. intros j l. apply Hno. by left.
  - split; [done|]. split; [rewrite Htl; apply Hc|]. intros g x Hx Hx'. apply Hcp; [done|]. eapply computed_completed; [apply Hd|done| |done].
    intros He. apply (Hjs x Hx). rewrite He. by left.
Qed.

Lemma receives_data ids tl js rv s s' w tg hs hl :
  receives ids s s' → (∀ id, id ∈ ids → load_job w !! id = None ∧ id ∉ od_keys tl) →
  data_ok tl js rv s w tg hs hl → data_ok tl js (rv ∖ list_to_set ids) s' w tg hs hl ∧ to_load s' = to_load s.
Proof.
  revert s rv. induction ids as [|id ids IH]; intros s rv; simpl.
  { intros -> _ Hd. by rewrite difference_empty_L. }
  intros (s1 & Hc & Hcs) Hids Hd. destruct (Hids id) as [Hno Htl]; [by left|]. destruct (IH s1 (rv ∖ {[id]}) Hcs) as [Hd' Ht].
  - intros id' Hin. apply Hids. by right.
  - by eapply received_data.
  - split; [|rewrite Ht; apply Hc]. by rewrite difference_difference_l_L in Hd'.
Qed.

Lemma start_loads_data tl js rv s w tg hs hl :
  data_ok tl js rv s w tg hs hl → runs (for_each tl (start_load np_empty)) w (λ _ w', ∃ hl', data_ok [] js rv s w' tg hs hl').
Proof using np_empty_length factor_pos.
  revert w hl. induction tl as [|[id spec] tl IH]; intros w hl Hd; [apply runs_ret; by exists hl|]. cbn [for_each].
  eapply runs_seq; [by eapply (start_data np_empty factor val np_empty_length factor_pos)|]. intros [] w' [hl' Hd']. by apply (IH w' hl').
Qed.

Lemma start_kv_data stores tl js rv s w tg hs hl :
  data_ok tl js rv s w tg hs hl → runs (start_kv_transfers np_empty (Metadata tl stores)) w (λ _ w', ∃ hs' hl', data_ok [] js rv s w' tg hs' hl').
Proof using np_empty_length factor_pos.
  intros Hd. unfold start_kv_transfers. eapply runs_seq; [by eapply (submit_data np_empty factor val np_empty_length factor_pos)|].
  intros [] w' (hs2 & hl2 & Hd3 & _). eapply runs_mono; [by apply (start_loads_data tl js rv s w' tg hs2 hl2)|]. intros [] w2 [hl3 Hd4]. by exists hs2, hl3.
Qed.

Lemma prepare_all_data tl js rv s w tg hs hl :
  data_ok tl js rv s w tg hs hl → (∀ x, x ∈ js → computed factor val s tg (gpu (memory w)) x) →
  runs (for_each (entry <$> js) prepare_store) w (λ _ w', data_ok tl [] rv s w' tg hs hl).
Proof using factor_pos.
  revert w. induction js as [|x js IH]; intros w Hd Hc; [by apply runs_ret|]. rewrite fmap_cons. cbn [for_each].
  eapply runs_seq; [apply (prepare_data factor val factor_pos _ _ _ _ _ _ _ _ _ Hd); apply Hc; by left|]. intros [] w' [Hd' Hw]. apply (IH w' Hd').
  intros y Hy. rewrite Hw. apply Hc. by right.
Qed.

(** In the middle of a step: the stores [js] wait for the model. *)
Definition mid_inv js (σ : t) : Prop := to_load (sched σ) = [] ∧ ∃ hs hl, data_ok [] js ∅ (sched σ) (wrk σ) (target σ) hs hl.

Lemma begin_runs σ objects o ks :
  sys_inv σ → step_ok σ objects o → runs (begin_step objects o ks) σ (λ meta σ1, ∃ js, reqs_to_store meta = entry <$> js ∧ mid_inv js σ1 ∧ targets σ1 = targets σ
    ∧ ∀ g, (∀ x r limit, x ∈ yield_req_data o → storable objects o (sched σ) x r limit → holds block_hashes gpu_block_size factor val g r (blocks_now (sched σ) x) limit) →
        ∀ x, x ∈ js → computed factor val (sched σ1) (target σ) g x).
Proof using places_spec np_empty_length gpu_pos factor_pos.
  intros (hs & hl & Hd) []. pose proof (d_inv _ _ _ _ _ _ _ _ _ _ Hd) as Hi. unfold begin_step.
  eapply runs_seq_sched; [by apply (build_meta_runs places_spec block_hashes gpu_block_size factor gpu_pos factor_pos objects o)|].
  intros meta s2 (s1 & js & Hall & -> & Hi1 & Hcs). set (pre := elements (preempted_req_ids o)) in *.
  assert (data_ok (to_load (sched σ)) js ∅ (set_to_load [] s1) (wrk σ) (target σ) hs hl) as Hd1.
  { eapply (same_data _ _ _ _ _ s1); try done. by eapply stored_data. }
  assert (∀ x, x ∈ js → sj_id x ∉ pre) as Hjs.
  { intros x Hx. destruct (sa_jobs _ _ _ _ _ _ _ _ _ Hall x Hx) as (_ & _ & _ & y & Hy & <- & _). unfold pre. rewrite elem_of_elements. by apply so_preempted0. }
  apply (runs_seq _ _ _ (λ _ σ1, ∃ w hs hl, σ1 = Sys s2 w (targets σ) ∧ data_ok (to_load (sched σ)) js ∅ s2 w (target σ) hs hl ∧ to_load s2 = []
    ∧ ∀ g x, x ∈ js → computed factor val (set_to_load [] s1) (target σ) g x → computed factor val s2 (target σ) g x)).
  { case_decide as Hpre; [|apply runs_ret].
    - apply runs_on_wrk. eapply runs_mono; [by apply (preemptions_data np_empty factor val np_empty_length factor_pos _ _ _ _ _ _ _ _ pre Hd1)|].
      intros [] w (hs' & hl' & Hd' & _ & Hno). exists w, hs', hl'. split; [done|]. apply (completes_data pre _ _ _ (set_to_load [] s1) s2 _ _ _ _ Hcs Hjs); [|done]. intros id j l Hin. by apply Hno.
    - exists (wrk σ), hs, hl. split; [done|]. apply (completes_data pre _ _ _ (set_to_load [] s1) s2 _ _ _ _ Hcs Hjs); [|done]. intros id j l Hin. unfold pre in Hin.
      rewrite Hpre in Hin. by apply elem_of_elements, elem_of_empty in Hin. }
  intros [] σ1 (w & hs1 & hl1 & -> & Hd2 & Htl & Hcp). eapply runs_seq_wrk; [by eapply start_kv_data|].
  intros [] w' (hs2 & hl2 & Hd3). simpl in *. eapply runs_seq; [by apply (run_device_runs [] js ∅ s2 w' (targets σ) (target σ) hs2 hl2 ks)|].
  intros [] σ1 (w2 & hs3 & hl3 & -> & Hd4). apply runs_ret. exists js. split; [done|]. split; [split; [done|]; by exists hs3, hl3|]. split; [done|].
  intros g Hg x Hx. apply Hcp; [done|].
  destruct (computed_jobs block_hashes gpu_block_size factor val factor_pos objects o (sched σ) s1 (yield_req_data o) js (target σ) g Hall Hg so_apart0 x Hx). by split.
Qed.

Lemma end_runs σ meta js g ks ended :
  mid_inv js σ → reqs_to_store meta = entry <$> js → (∀ x, x ∈ js → computed factor val (sched σ) (target σ) g x) →
  (∀ b, b ∈ sources (under_way (wrk σ)) → g b = gpu (memory (wrk σ)) b) → (∀ id d, loading (sched σ) id ≠ ∅ → d ∈ (target σ id).*1 → g d = gpu (memory (wrk σ)) d) →
  runs (end_step meta g ks ended) σ (λ acc σ2, sys_inv σ2 ∧ targets σ2 = targets σ
    ∧ ∀ id d x, id ∈ acc.2 → (d, x) ∈ target σ id → gpu (memory (wrk σ2)) d = val x).
Proof using factor_pos.
  intros (Htl & hs & hl & Hd) Hmeta Hc Hsrc Htg. unfold end_step. rewrite (under_way_pending _ _ _ (d_rep _ _ _ _ _ _ _ _ _ _ Hd)) in Hsrc.
  pose proof (model_data factor val _ _ _ _ _ _ _ _ g Hd Hsrc Htg) as Hd1. set (w1 := set_worker _ _) in Hd1.
  eapply (runs_ok _ _ _ tt (Sys (sched σ) w1 (targets σ))); [done|]. unfold prepare_store_kv. rewrite Hmeta.
  eapply runs_seq_wrk; [by apply (prepare_all_data [] js ∅ (sched σ) w1 (target σ) hs hl)|]. intros [] w2 Hd2. simpl in *.
  eapply runs_seq; [by apply (run_device_runs [] [] ∅ (sched σ) w2 (targets σ) (target σ) hs hl ks)|]. intros [] σ3 (w3 & hs3 & hl3 & -> & Hd3).
  eapply runs_seq_wrk; [by apply (reported_data factor val [] [] (sched σ) w3 (target σ) hs3 hl3 ended)|]. simpl.
  intros acc w4 (hs4 & hl4 & Hd4 & Hm & Hv & Hsend & Hrecv). 
  apply (runs_seq_sched _ _ _ (λ _ s2, data_ok [] [] ∅ s2 w4 (target σ) hs4 hl4 ∧ to_load s2 = [])).
  { unfold update_connector_output. eapply runs_seq; [apply completes_runs; [intros id x; apply finish_sending_runs|apply Hd4]|]. intros [] s1 Hcs.
    destruct (completes_data _ [] [] acc.2 (sched σ) s1 w4 (target σ) hs4 hl4 Hcs) as (Hd5 & Ht5 & _); [by intros x ?%elem_of_nil| |done|].
    { intros id j l Hin _. apply Hsend. by apply elem_of_elements. }
    eapply runs_mono; [apply receives_runs; [apply Hd5|]|].
    { intros id _. rewrite Ht5, Htl. apply not_elem_of_nil. }
    intros [] s2 Hrs. destruct (receives_data _ [] [] acc.2 s1 s2 w4 (target σ) hs4 hl4 Hrs) as [Hd6 Ht6]; [|done|].
    - intros id Hin%elem_of_elements. split; [by apply Hrecv|apply not_elem_of_nil].
    - rewrite list_to_set_elements_L, difference_diag_L in Hd6. by rewrite Ht6, Ht5, Htl. }
  intros [] s2 [Hd6 Ht6]. apply runs_ret. split; [exists hs4, hl4; simpl; by rewrite Ht6|]. split; [done|]. intros id d x Hin Hdx. simpl. rewrite Hm. by apply (Hv id d x).
Qed.

(** *** A whole step, and everything that can be reached *)

Lemma engine_step_runs σ objects o ks ks' ended :
  sys_inv σ → step_ok σ objects o → runs (begin_step objects o ks) σ (λ meta σ1, targets σ1 = targets σ ∧ ∀ g, model_ran σ objects o σ1 g →
    runs (end_step meta g ks' ended) σ1 (λ acc σ2, sys_inv σ2 ∧ ∀ id d x, id ∈ acc.2 → (d, x) ∈ target σ id → gpu (memory (wrk σ2)) d = val x)).
Proof using places_spec np_empty_length gpu_pos factor_pos.
  intros Hi Hok. eapply runs_mono; [by apply begin_runs|]. intros meta σ1 (js & Hmeta & Hmid & Ht & Hc). split; [done|]. intros g [Hg Hs Htg].
  assert (∀ id, target σ1 id = target σ id) as Et by (intros id; unfold target; by rewrite Ht).
  assert (∀ x, x ∈ js → computed factor val (sched σ1) (target σ1) g x) as Hc'.
  { intros x Hx. destruct (Hc g Hg x Hx) as [? ? ? ? Hap]. split; try done. intros id b. rewrite Et. apply Hap. }
  eapply runs_mono; [by apply (end_runs σ1 meta js)|]. intros acc σ2 (Hi2 & _ & Hv). split; [done|]. intros id d x Hin. rewrite <- Et. by apply Hv.
Qed.

Lemma step_inv σ σ' : sys_inv σ → step σ σ' → sys_inv σ'.
Proof using places_spec np_empty_length gpu_pos factor_pos.
  intros Hi Hs. revert Hi. destruct Hs as [σ0 r n a σ1 Hr Hn Hnt Hrun|σ0 r group groups ext a σ1 Hr Hok Hrun|σ0 id a σ1 Hrun|σ0 objects o ks meta σ1 g ks' ended acc σ2 Hok Hb Hm He]; intros Hi.
  - destruct (match_runs σ0 r n Hi Hr Hn Hnt) as (b & σ2 & Hrun' & Hi' & _). rewrite Hrun in Hrun'. by injection Hrun' as _ ->.
  - destruct (alloc_call_runs σ0 r group groups ext Hi Hr Hok) as (b & σ2 & Hrun' & Hi'). rewrite Hrun in Hrun'. by injection Hrun' as _ ->.
  - destruct (finished_call_runs σ0 id Hi) as (b & σ2 & Hrun' & Hi'). rewrite Hrun in Hrun'. by injection Hrun' as _ ->.
  - destruct (runs_run _ _ _ _ _ (engine_step_runs σ0 objects o ks ks' ended Hi Hok) Hb) as [_ Hend]. by destruct (runs_run _ _ _ _ _ (Hend g Hm) He).
Qed.

(** The directions that a worker registers when it starts. *)
Lemma new_handlers kernel_bs gs cs hs hl :
  0 < kernel_bs → create_handlers gpu_block_size off kernel_bs gs cs = Ok (hs, hl) →
  (OffloadTransfer.stores factor hs ∧ OffloadTransfer.loads factor hl) ∧ transfers hs = [] ∧ transfers hl = [] ∧ transfer_events hs = ∅ ∧ transfer_events hl = ∅ ∧ fired hs = 0%nat ∧ fired hl = 0%nat.
Proof using gpu_pos factor_pos.
  intros Hk Hc. split; [by apply (create_handlers_factors factor factor_pos gpu_block_size kernel_bs gs cs)|].
  assert (∀ l n c a b h, Handler.create l n c a b = Ok h → transfers h = [] ∧ transfer_events h = ∅ ∧ fired h = 0%nat) as Hnew.
  { intros l n c a b h. unfold Handler.create, rassert, py_div. repeat (case_in_goal; try done); by intros [= <-]. }
  revert Hc. unfold create_handlers. destruct (rassert (0 <? zlen gs)); simpl; [|done]. destruct (py_mod off gpu_block_size); simpl; [|done].
  destruct (rassert _); simpl; [|done]. destruct (py_mod gpu_block_size kernel_bs); simpl; [|done]. destruct (rassert _); simpl; [|done].
  destruct (py_div off kernel_bs); simpl; [|done]. destruct (py_div gpu_block_size kernel_bs); simpl; [|done].
  destruct (Handler.create gs _ _ _ _) eqn:E1; simpl; [|done]. destruct (Handler.create cs _ _ _ _) eqn:E2; simpl; [|done]. intros [= <- <-].
  destruct (Hnew _ _ _ _ _ _ E1) as (-> & -> & ->). destruct (Hnew _ _ _ _ _ _ E2) as (-> & -> & ->). done.
Qed.

Lemma reachable_sys caching m kernel_bs gs cs hs hl mem σ :
  om_inv m → (∀ h, om_find m h = None) → 0 < kernel_bs → create_handlers gpu_block_size off kernel_bs gs cs = Ok (hs, hl) →
  rtc step (start caching m hs hl mem) σ → sys_inv σ.
Proof using places_spec np_empty_length gpu_pos factor_pos.
  intros Hm Hno Hk Hc Hr. destruct (new_handlers kernel_bs gs cs hs hl Hk Hc) as ([Hs Hl] & ? & ? & ? & ? & ? & ?).
  assert (sys_inv (start caching m hs hl mem)) as Hi by by apply start_sys. clear -Hi Hr places_spec np_empty_length gpu_pos factor_pos.
  induction Hr as [|σ1 σ2 σ3 Hs _ IH]; [done|]. by eapply IH, step_inv.
Qed.

(** C2. Offloaded blocks come back: from a connector over any manager that keeps its contract,
    and a worker with any memory, after any calls of the scheduler and any steps of the engine,
    with the transfers run at any time, a step whose requests are known and have their blocks
    raises nothing on either side, and when the model has left the contents of the tokens in
    the blocks of its requests and touched no block in transfer, then at the step's end every
    request that is reported as received has in its blocks behind the cached ones exactly the
    contents that belong there, of the tokens that it was promised. *)
Theorem offloaded_blocks_come_back caching m kernel_bs gs cs hs hl mem σ objects o ks ks' ended :
  om_inv m → (∀ h, om_find m h = None) → 0 < kernel_bs → create_handlers gpu_block_size off kernel_bs gs cs = Ok (hs, hl) →
  rtc step (start caching m hs hl mem) σ → step_ok σ objects o →
  runs (begin_step objects o ks) σ (λ meta σ1, ∀ g, model_ran σ objects o σ1 g →
    runs (end_step meta g ks' ended) σ1 (λ acc σ2, ∀ id d x, id ∈ acc.2 → (d, x) ∈ target σ id → gpu (memory (wrk σ2)) d = val x)).
Proof using places_spec np_empty_length gpu_pos factor_pos.
  intros Hm Hno Hk Hc Hr Hok. pose proof (reachable_sys caching m kernel_bs gs cs hs hl mem σ Hm Hno Hk Hc Hr) as Hi.
  eapply runs_mono; [by apply engine_step_runs|]. intros meta σ1 [_ Hend] g Hg. eapply runs_mono; [by apply Hend|]. by intros acc σ2 [_ ?].
Qed.

(** C27. What a request can load: in every reachable state the connector answers the scheduler
    without raising; a positive answer reaches to the end of an offloaded block, covers only
    blocks that are ready and, with prefix caching, not just being loaded, and ends where the
    request ends or the next block is not ready; the answer is none when not even one block
    could be gained, and the scheduler is told to ask again only when a block that the request
    could load is being loaded for another. *)
Theorem matched_tokens_are_loadable caching m kernel_bs gs cs hs hl mem σ r n :
  om_inv m → (∀ h, om_find m h = None) → 0 < kernel_bs → create_handlers gpu_block_size off kernel_bs gs cs = Ok (hs, hl) →
  rtc step (start caching m hs hl mem) σ → hashed block_hashes gpu_block_size r → 0 ≤ n → 0 ≤ num_tokens r →
  runs (get_num_new_matched_tokens block_hashes gpu_block_size off r n) (sched σ) (λ a s', (∀ h, find s' h = find (sched σ) h)
    ∧ answers block_hashes gpu_block_size factor (sched σ) r n a).
Proof using places_spec np_empty_length gpu_pos factor_pos.
  intros Hm Hno Hk Hc Hr Hh Hn Hnt. destruct (reachable_sys caching m kernel_bs gs cs hs hl mem σ Hm Hno Hk Hc Hr) as (hs' & hl' & Hd).
  eapply runs_mono; [apply (matched_tokens_runs block_hashes gpu_block_size factor); [done..|apply Hd|done|done|done]|]. by intros a s' ((m' & -> & _ & Hf) & Ha).
Qed.
End system.
End OffloadSystem.
