(* ===== verification/OffloadDemo.v ===== *)
(** The offloading connector at a concrete configuration: the blocks of a request are stored,
    and a second request with the same tokens loads them. *)
From Stdlib Require Import QArith.
From stdpp Require Import gmap strings.
From S2P Require Export OffloadLru OffloadSystem.
From stdpp Require Import options.
Open Scope Z_scope.

Module OffloadDemo.
Import SchedRequest OffloadingConnector ConnectorProtocol Handler ConnectorWorker WorkerJobs OffloadData OffloadSystem.

(** A block of the GPU has two slots, an offloaded block two blocks. *)
Definition request (id : string) (tokens : list Z) : Request :=
  MkRequest (Identity id 0 0 8 false None false false) (Content 0 None tokens (zlen tokens) tokens [] [] []) (Progress 0 (-1) 0 0 0 false false) WAITING None None.
Definition block_hashes (r : Request) : list (list Z) := (λ i, take (Z.to_nat (2 * (i + 1))) (all_token_ids r)) <$> seqZ 0 (num_tokens r `div` 2).

Abbreviation manager := (LRU.t (list Z) Z CPUBackend.t).
Abbreviation state := (OffloadSystem.t (hash := list Z) (M := manager) (D := list Z * Z)).

(** The contents of a part are itself. *)
Definition val (x : list Z * Z) : list Z * Z := x.
Definition np_empty (n : Z) : list Z := replicate (Z.to_nat n) 0.
Definition m0 : manager := LRU.create (CPUBackend.create 4 2) true.
Definition both : Handler.t * Handler.t :=
  match create_handlers 2 4 2 [16] [16] with Ok x => x | Raise _ => (Handler.Hd 0 0 0 true ∅ [] 0, Handler.Hd 0 0 0 true ∅ [] 0) end.
Definition start_ : state := start true m0 both.1 both.2 (Mem (λ _, ([], 0)) (λ _, ([], 0))).

Definition block (b : Z) : FreeQueue.KVCacheBlock := FreeQueue.Block b 1 None None None false.
Definition first : Request := request "one" [1; 2; 3; 4; 5].
Definition second : Request := request "two" [1; 2; 3; 4; 6].
Definition objects : gmap string Request := {["one"%string := first; "two"%string := second]}.
Definition output (new : list (string * list (list Z) * Z)) (scheduled : list (string * Z)) : SchedulerOutput :=
  Output new [] ∅ [] [] [] [] [] scheduled 0 [] [] [] ∅ ∅ [].

(** Steps of the engine, whose parts are computed. *)
Definition begun (o : SchedulerOutput) (ks : list (string * string)) (σ : state) : result OffloadingConnectorMetadata * state := begin_step np_empty block_hashes 2 2 objects o ks σ.
Definition meta_of (o : SchedulerOutput) (ks : list (string * string)) (σ : state) : OffloadingConnectorMetadata := match (begun o ks σ).1 with Ok m => m | Raise _ => Metadata [] [] end.
Definition finished (o : SchedulerOutput) (ks : list (string * string)) (g : Z → list Z * Z) (ks' : list (string * string)) (ended : list string) (σ : state) : result (gset string * gset string) * state :=
  end_step (meta_of o ks σ) g ks' ended (begun o ks σ).2.
Definition gpu_of (σ : state) : Z → list Z * Z := gpu (OffloadingWorker.memory (worker (wrk σ))).

Definition GC := ("GPU", "CPU")%string.
Definition CG := ("CPU", "GPU")%string.

(** The first request gets blocks and is computed; its store is handed over, run and reported
    when it has ended; the second request gets blocks for what it can load. *)
Definition allocated_ : state := (alloc block_hashes 2 2 first [block 10; block 11; block 12] [] 0 start_).2.
Definition step_one : SchedulerOutput := output [("one"%string, [[10; 11; 12]], 0)] [("one"%string, 5)].
Definition computed_ (b : Z) : list Z * Z := if b =? 10 then ([1; 2; 3; 4], 0) else if b =? 11 then ([1; 2; 3; 4], 1) else ([], 0).
Definition stored : state := (finished step_one [] computed_ [] [] allocated_).2.
Definition ended_ : state := (on_sched (request_finished "one") stored).2.
Definition idle : SchedulerOutput := output [] [].
Definition offloaded : state := (finished idle [GC] (gpu_of (begun idle [GC] ended_).2) [] ["one"%string] ended_).2.
Definition matched : state := (on_sched (get_num_new_matched_tokens block_hashes 2 4 second 0) offloaded).2.
Definition waiting : state := (alloc block_hashes 2 2 second [block 20; block 21] [] 4 matched).2.

Example blocks_are_offloaded :
  (on_sched (get_num_new_matched_tokens block_hashes 2 4 second 0) stored).1 = Ok (Some 0, false)
  ∧ (on_sched (request_finished "one") stored).1 = Ok true
  ∧ (finished idle [GC] (gpu_of (begun idle [GC] ended_).2) [] ["one"%string] ended_).1 = Ok ({["one"%string]}, ∅)
  ∧ (on_sched (get_num_new_matched_tokens block_hashes 2 4 second 0) offloaded).1 = Ok (Some 4, true)
  ∧ target waiting "two" = [(20, ([1; 2; 3; 4], 0)); (21, ([1; 2; 3; 4], 1))]
  ∧ (finished idle [CG] (gpu_of (begun idle [CG] waiting).2) [] [] waiting).1 = Ok (∅, {["two"%string]}).
Proof. split_and!; vm_compute; reflexivity. Qed.

(** *** The hypotheses of the theorems *)

Abbreviation step := (OffloadSystem.step np_empty block_hashes 2 2 val).

Lemma new_array_length n : 0 ≤ n → zlen (np_empty n) = n.
Proof. intros Hn. unfold np_empty, zlen. rewrite length_replicate. lia. Qed.

Lemma m0_inv : om_inv m0 ∧ ∀ h, om_find m0 h = None.
Proof. split; [|done]. apply LRU.lru_create_inv. by apply CPUBackend.owned_create. Qed.

Lemma both_created : create_handlers 2 4 2 [16] [16] = Ok (both.1, both.2).
Proof. reflexivity. Qed.

Lemma prefixes_hashed id tokens : zlen tokens = 5 → hashed block_hashes 2 (request id tokens).
Proof.
  intros Hl. unfold zlen in Hl. split.
  - unfold block_hashes. rewrite zlen_fmap. unfold zlen at 1. rewrite length_seqZ. change (num_tokens (request id tokens)) with (zlen tokens). unfold zlen. by rewrite Hl.
  - destruct tokens as [|t1 [|t2 [|t3 [|t4 [|t5 [|t6 tokens]]]]]]; simpl in Hl; try lia. unfold block_hashes, num_tokens. simpl.
    apply NoDup_cons. split; [|apply NoDup_singleton]. intros Hin. apply list_elem_of_singleton in Hin. done.
Qed.

(** A step in which nothing is scheduled. *)
Lemma idle_ok (σ : state) : step_ok block_hashes 2 σ objects idle.
Proof. split; [constructor|..]; intros x; intros; by match goal with H : _ ∈ yield_req_data idle |- _ => apply elem_of_nil in H end. Qed.

Lemma idle_ran (σ σ1 : state) : model_ran block_hashes 2 2 val σ objects idle σ1 (gpu_of σ1).
Proof. split; [|done|done]. intros x r limit Hx. by apply elem_of_nil in Hx. Qed.

Lemma ran_as {A B} (m : A * B) a : m.1 = a → m = (a, m.2).
Proof. intros <-. by destruct m. Qed.

(** An idle step. *)
Lemma idle_step (ks ks' : list (string * string)) (ended : list string) (σ : state) :
  (begun idle ks σ).1 = Ok (meta_of idle ks σ) → (∃ acc, (finished idle ks (gpu_of (begun idle ks σ).2) ks' ended σ).1 = Ok acc) →
  step σ (finished idle ks (gpu_of (begun idle ks σ).2) ks' ended σ).2.
Proof.
  intros Hb [acc He]. eapply (StepEngine _ _ _ _ _ σ objects idle ks _ (begun idle ks σ).2 _ ks' ended acc); [apply idle_ok|by apply ran_as|apply idle_ran|by apply ran_as].
Qed.

Lemma alloc_step (r : Request) (group : list FreeQueue.KVCacheBlock) (ext : Z) (σ : state) : hashed block_hashes 2 r → alloc_ok block_hashes 2 2 σ r group ext → step σ (alloc block_hashes 2 2 r group [] ext σ).2.
Proof. intros Hr Hok. eapply StepAlloc; [exact Hr|exact Hok|apply surjective_pairing]. Qed.

Lemma finish_step (id : string) (σ : state) : step σ (on_sched (request_finished id) σ).2.
Proof. eapply StepFinished, surjective_pairing. Qed.

Lemma match_step (r : Request) (n : Z) (σ : state) : hashed block_hashes 2 r → 0 ≤ n → 0 ≤ num_tokens r → step σ (on_sched (get_num_new_matched_tokens block_hashes 2 4 r n) σ).2.
Proof. intros Hr Hn Hnt. eapply StepMatch; [exact Hr|exact Hn|exact Hnt|apply surjective_pairing]. Qed.

Lemma allocated_step : step start_ allocated_.
Proof. exact (alloc_step first [block 10; block 11; block 12] 0 start_ (prefixes_hashed "one" [1; 2; 3; 4; 5] eq_refl) (or_introl eq_refl)). Qed.

(** Nothing is loaded yet. *)
Lemma no_loads : reqs_being_loaded (sched allocated_) = ∅ ∧ reqs_being_loaded (sched (begun step_one [] allocated_).2) = ∅ ∧ reqs_being_loaded (sched matched) = ∅
  ∧ sources (under_way 2 (wrk (begun step_one [] allocated_).2)) = [] ∧ sources (under_way 2 (wrk matched)) = [].
Proof. split_and!; vm_compute; reflexivity. Qed.

Lemma no_loading (s : OffloadingConnector.t (list Z) manager) id : reqs_being_loaded s = ∅ → loading s id = ∅.
Proof. intros Hs. unfold loading. by rewrite Hs. Qed.

Lemma step_one_storable x : x ∈ yield_req_data step_one → x = ("one"%string, Some [[10; 11; 12]], false) ∧ storable block_hashes 2 objects step_one (sched allocated_) x first 5.
Proof.
  intros [->|?%elem_of_nil]%elem_of_cons; [|done]. split; [done|]. split.
  - apply (bool_decide_unpack _). vm_compute. done.
  - vm_compute. done.
  - by apply (prefixes_hashed "one").
  - vm_compute. done.
  - vm_compute. done.
Qed.

Lemma step_one_runs : (begun step_one [] allocated_).1 = Ok (meta_of step_one [] allocated_) ∧ (finished step_one [] computed_ [] [] allocated_).1 = Ok (∅, ∅).
Proof. split; vm_compute; reflexivity. Qed.

Lemma stored_step : step allocated_ stored.
Proof.
  destruct no_loads as (N1 & N2 & _ & N3 & _).
  eapply (StepEngine _ _ _ _ _ allocated_ objects step_one [] (meta_of step_one [] allocated_) (begun step_one [] allocated_).2 computed_ [] [] (∅, ∅)).
  - split.
    + apply (bool_decide_unpack _). vm_compute. done.
    + intros x Hx. exists first, 5. by apply step_one_storable.
    + intros x Hx. apply not_elem_of_empty.
    + intros x id b _ Hl. destruct (Hl (no_loading _ id N1)).
  - exact (ran_as (begun step_one [] allocated_) _ (proj1 step_one_runs)).
  - split.
    + intros x r limit Hx [Hk Hob _ Hsc Hbl]. destruct (step_one_storable x Hx) as [-> [_ Hob' _ Hsc' _]]. rewrite Hob in Hob'. injection Hob' as ->.
      rewrite Hsc in Hsc'. injection Hsc' as Hlim. assert (limit = 5) as -> by lia.
      intros i h b Hi Hle Hc Hb. assert (i `div` 2 = 0) as Hd by (pose proof (Z.div_pos i 2 Hi); lia). rewrite Hd in Hc. injection Hc as <-.
      assert (i = 0 ∨ i = 1) as [->| ->] by (pose proof (Z.div_mod i 2); pose proof (Z.mod_pos_bound i 2); lia); injection Hb as <-; done.
    + intros b. rewrite N3. by intros ?%elem_of_nil.
    + intros id d Hl. destruct (Hl (no_loading _ id N2)).
  - exact (ran_as (finished step_one [] computed_ [] [] allocated_) _ (proj2 step_one_runs)).
Qed.

(** The store runs in an idle step, behind the end of the request. *)
Lemma offloaded_step : step stored ended_ ∧ step ended_ offloaded ∧ step offloaded matched.
Proof.
  split; [exact (finish_step "one" stored)|]. split; [|exact (match_step second 0 offloaded (prefixes_hashed "two" [1; 2; 3; 4; 6] eq_refl) (Z.le_refl 0) (proj1 (Z.leb_le 0 5) eq_refl))].
  apply idle_step; [vm_compute; reflexivity|]. eexists. vm_compute. reflexivity.
Qed.

Lemma second_allocated : allocated block_hashes 2 2 (sched matched) second [block 20; block 21] 4 1.
Proof.
  destruct no_loads as (_ & _ & Hno & _). pose proof (λ id, no_loading _ id Hno) as Hl.
  split; [reflexivity|reflexivity|reflexivity|vm_compute; discriminate| |apply Hl|by rewrite Hno].
  intros i Hi. assert (i = 0) as -> by (change (0 ≤ i < 1) in Hi; lia). exists [1; 2; 3; 4]. split; [reflexivity|]. split; [|intros id _; rewrite Hl; apply not_elem_of_empty].
  exists (BS 0 0). split; vm_compute; reflexivity.
Qed.

Lemma waiting_step : step matched waiting.
Proof.
  destruct no_loads as (_ & _ & Hno & _ & Hsrc). refine (alloc_step second [block 20; block 21] 4 matched (prefixes_hashed "two" [1; 2; 3; 4; 6] eq_refl) (or_intror (conj (ex_intro _ 1 second_allocated) (conj _ (conj _ _))))).
  - by apply (bool_decide_unpack _).
  - intros id d Hl. destruct (Hl (no_loading _ id Hno)).
  - intros d _. rewrite Hsrc. apply not_elem_of_nil.
Qed.

Lemma reached : rtc step start_ offloaded ∧ rtc step start_ waiting.
Proof.
  destruct offloaded_step as (H1 & H2 & H3). assert (rtc step start_ offloaded) as Hr.
  { eapply rtc_l; [apply allocated_step|]. eapply rtc_l; [apply stored_step|]. eapply rtc_l; [exact H1|]. apply rtc_once, H2. }
  split; [done|]. eapply rtc_r; [|apply waiting_step]. eapply rtc_r; [exact Hr|exact H3].
Qed.

(** The second request is told that it can load a block of four tokens. *)
Lemma matched_tokens_are_loadable_witness :
  runs (get_num_new_matched_tokens block_hashes 2 4 second 0) (sched offloaded) (λ a s', (∀ h, find s' h = find (sched offloaded) h) ∧ answers block_hashes 2 2 (sched offloaded) second 0 a)
  ∧ (get_num_new_matched_tokens block_hashes 2 4 second 0 (sched offloaded)).1 = Ok (Some 4, true).
Proof.
  split; [|vm_compute; reflexivity].
  exact (matched_tokens_are_loadable np_empty block_hashes 2 2 val (λ _, eq_refl) new_array_length eq_refl eq_refl true m0 2 [16] [16] both.1 both.2 _ offloaded second 0
    (proj1 m0_inv) (proj2 m0_inv) eq_refl both_created (proj1 reached) (prefixes_hashed "two" [1; 2; 3; 4; 6] eq_refl) (Z.le_refl 0) (proj1 (Z.leb_le 0 5) eq_refl)).
Defined.

(** Its load is run and reported, and its blocks hold what the first request computed. *)
Lemma offloaded_blocks_come_back_witness :
  (finished idle [CG] (gpu_of (begun idle [CG] waiting).2) [] [] waiting).1 = Ok (∅, {["two"%string]})
  ∧ gpu_of (finished idle [CG] (gpu_of (begun idle [CG] waiting).2) [] [] waiting).2 20 = ([1; 2; 3; 4], 0)
  ∧ gpu_of (finished idle [CG] (gpu_of (begun idle [CG] waiting).2) [] [] waiting).2 21 = ([1; 2; 3; 4], 1).
Proof.
  pose proof (offloaded_blocks_come_back np_empty block_hashes 2 2 val (λ _, eq_refl) new_array_length eq_refl eq_refl true m0 2 [16] [16] both.1 both.2 _ waiting objects idle [CG] [] []
    (proj1 m0_inv) (proj2 m0_inv) eq_refl both_created (proj2 reached) (idle_ok waiting)) as H.
  assert ((begun idle [CG] waiting).1 = Ok (meta_of idle [CG] waiting)) as Hb by (vm_compute; reflexivity).
  assert ((finished idle [CG] (gpu_of (begun idle [CG] waiting).2) [] [] waiting).1 = Ok (∅, {["two"%string]})) as He by (vm_compute; reflexivity).
  assert (target waiting "two" = [(20, ([1; 2; 3; 4], 0)); (21, ([1; 2; 3; 4], 1))]) as Ht by (vm_compute; reflexivity).
  pose proof (runs_run _ _ _ _ _ H (ran_as _ _ Hb) _ (idle_ran waiting _)) as H'. pose proof (runs_run _ _ _ _ _ H' (ran_as _ _ He)) as Hv.
  split; [exact He|]. split; apply (Hv "two"%string); [by apply elem_of_singleton|rewrite Ht; by left|by apply elem_of_singleton|rewrite Ht; right; by left].
Defined.
End OffloadDemo.
